(* ===== verification/_CoqProject ===== *)
-Q . S2P
Prelude.v
Fifo.v
CString.v
Callout.v
CalloutProofs.v
Ring.v
RingProofs.v
RingConc.v
RingConcProofs.v
Kni.v
KniProofs.v
Dispatch.v
DispatchProofs.v
Mbuf.v
MbufProofs.v
SoZone.v
SoZoneProofs.v
Rpc.v
RpcProofs.v
Toeplitz.v
ToeplitzProofs.v
Gf2.v
Gf2Field.v
ThashPoly.v
ThashPolyProofs.v
Thash.v
ThashProofs.v
RssTable.v
RssTableProofs.v
Ini.v
IniProofs.v
Config.v
ConfigProofs.v
Lport.v
LportProofs.v
Heap.v
HeapProofs.v
Sched.v
SchedProofs.v
SkCache.v
SkCacheProofs.v
HashList.v
HashListProofs.v
Kqueue.v
KqueueProofs.v
MtSocket.v
MtSocketProofs.v
SockConv.v
SockConvProofs.v
