(* ===== verification/Prelude.v ===== *)
(** * A verification library for F-Stack

    F-Stack runs the FreeBSD network stack in user space on top of DPDK.  One
    process for each core polls its queue of the NIC, sends the packets through
    a FreeBSD stack of its own, and calls the application in between; what is
    for the host's kernel goes through a virtio port.  This library models the
    parts of [src/] that hold this together, one Rocq function for each C
    function (or for each loop or branch of a long one), and proves what the
    other parts rely on.

    ** The parts and their files

    Each part [X] has its definitions in [X.v], in a module [X], and its
    lemmas, properties and witnesses in [XProofs.v].

    - [Prelude]: integers of C, results of functions, arrays, tactics, hints.
      [CString]: strings and the library functions on them.
    - [Callout] ([lib/ff_kern_timeout.c], [lib/ff_lock.c]): the wheel of timers
      of a stack thread.  The state is the thread's [callout_cpu]; a callback
      is a program of calls of the interface, so it may reset, stop and drain
      callouts, its own included.
    - [Ring] and [RingConc] ([dpdk/lib/ring]): the lockless rings, once as
      operations run to completion in all synchronisation modes, and once as a
      step relation for any number of producers and consumers at the same
      time.  [Fifo] is the interface, a type class, that the clients of a ring
      are proved against; [RingProofs] has its instance.
    - [Kni] ([lib/ff_dpdk_kni.c]): what goes to the kernel: the bitmaps of
      ports and their syntax, the walk through IP headers, rate limits, and the
      moves between the rings and the two ports.  A client of [Fifo].
    - [Dispatch] ([lib/ff_dpdk_if.c]): what a thread does with the packets of a
      queue or of its dispatch ring: [process_packets] and all it calls, and
      the bursts on the way out.  A client of [Fifo] and of [Kni].
    - [Mbuf] ([lib/ff_dpdk_if.c], [lib/ff_veth.c], [dpdk/lib/mbuf]): packets as
      chains of segments from a pool: the deep copy, both senders with the
      transmit offloads, and the way into the stack.
    - [SoZone] and [Rpc] ([adapter/syscall]): the system call adapter: the zone
      of contexts and the stack's pass over it, and the protocol of a call as a
      step relation with every access to shared memory a step.
    - [Toeplitz] ([lib/ff_dpdk_if.c], [dpdk/lib/hash/rte_thash.h]): the two
      Toeplitz hashes, the keys, the indirection table, and the test whether
      the packets of a connection come to the thread's own queue.
    - [Thash] ([dpdk/lib/hash/rte_thash.c]): keys and complement tables with
      which a tuple is given a hash that is asked for.  [ThashPoly]
      ([dpdk/lib/hash/rte_thash_gf2_poly_math.c]) chooses the polynomials of
      its shift registers.  The mathematics is in [Gf2] (polynomials over the
      field of two elements as binary numbers, irreducibility, sequences of
      shift registers) and [Gf2Field] (the field modulo such a polynomial,
      conjugates and their minimal polynomial).
    - [RssTable] ([lib/ff_dpdk_if.c]): the hash tables of the local ports of
      configured connections.
    - [Lport] ([lib/ff_dpdk_if.c], [freebsd/netinet/in_pcb.c]): the choice of a
      local port; it uses [Toeplitz], [Thash] and [RssTable].
    - [Ini] ([lib/ff_ini_parser.c]) and [Config] ([lib/ff_config.c]): the
      configuration file, the values in it, and the check of the whole.
    - [SockConv] ([lib/ff_syscall_wrapper.c]), the last files: the functions an
      application calls with addresses, messages, flags and options of Linux,
      and the conversions from and to those of FreeBSD on a memory of bytes.
      The functions of the FreeBSD kernel they call are arguments.

    The files from [Heap] to [MtSocketProofs] model [adapter/micro_thread], the user space threads
    of applications that are written with blocking calls:

    - [Heap] ([heap.h], [heap_timer.cpp]): the heap of pointers whose entries
      know their place, and the timers on it.
    - [Sched] ([micro_thread.cpp], [mt_api.cpp]): the threads, the lists they
      are in, every switch between them, and groups of sub threads.  It keeps
      the sleepers in a [Heap].
    - [SkCache] ([mt_cache.cpp]): the pool of socket buffers and the caches of
      bytes in them, with the loops that fill and empty them.
    - [HashList] ([hash_list.h], [mt_session.cpp], [mt_mbuf_pool.cpp]): the
      hash table with chains through its entries, and its clients: sessions
      and the pool of message buffers.
    - [Kqueue] ([kqueue_proxy.cpp], [micro_thread.cpp]): descriptors and the
      objects that wait for them; the kernel's [kevent] is a type class with
      its law, and events wake threads of [Sched].
    - [MtSocket] ([micro_thread.cpp], [mt_api.cpp]): blocking socket calls made
      of non-blocking ones, and requests with answers made of these.

    ** How the code is modelled

    A C integer is a [Z] with its wrap-around written out ([u8] to [s64]).  A
    function that can read or write outside of an object, divide by zero or
    use what was never written returns a [res]: [Panic] stands for that.
    Structures are records, enumerations inductive types, arrays lists, and
    memory reached through addresses a finite map.  Shared objects are in an
    explicit state; threads that run at the same time are step relations.

    Recursion that is not structural has fuel.  [NoFuel] is a result of its
    own and never counts as a success: the theorems say that the fuel the
    definitions pass (the length of the input, the size of the table, the
    number of tries) or any fuel above a stated bound gives a result.  Fuel
    that cannot be bounded stands for waiting for another thread ([Ring]) or
    for a loop that does not end, which is then proved ([Kni]).  The socket
    calls of [MtSocket] end because time passes: with a clock that does not
    stand still for more than a bounded number of calls there is a fuel from
    which on they return.

    What is not under [src/], or depends on the machine, is an argument:
    random numbers, the time, the NIC (a state with any reaction to a burst),
    the result of an allocation, the number of cores DPDK is built for.
    Hypotheses on them are named and the witnesses instantiate them.

    ** What the theorems show

    - Timers: a tick terminates whatever the callbacks do, leaves nothing
      overdue, and runs callbacks in the order of their times; a callout that
      nobody touches fires once; reset, stop and start-up keep the invariant
      of the wheel and do what they return.
    - Rings: in every mode a ring is a bounded queue (refinement of a list);
      with any interleaving of the default mode objects come out once and in
      order, nothing outside of the ring is touched, and nobody can be stuck
      for ever; the memory computed for a ring is enough.
    - Packets: [process_packets], the dispatch rings and the kernel path lose,
      duplicate and leak nothing; ARP reaches every stack; a VLAN tag does not
      change what a frame is taken for; listed ports and rate limits are kept;
      the header walks end, up to the exact case where they do not; copies and
      senders move exactly the bytes they are given or give everything back.
    - System calls: contexts are leased to one thread at a time; each call is
      run once and returns to its own thread; calls under way can always be
      completed; a pass of the stack misses no request.
    - Receive side scaling: both hashes are the one of the specification; the
      queue test agrees with the NIC; with a symmetric key both directions
      meet; the polynomials of the shift registers are irreducible, so that
      every tuple can be adjusted and has then the hash asked for; the tables
      are a finite map to the own ports; one key serves the calculation of
      ports for both families; and a new connection gets a free port on its own
      queue whenever there is one in its range, or in the range of its table.
    - Sockets: a received message gets to the application in the form of Linux,
      its control messages converted in place; messages to send, names and
      flags reach the kernel in the form of FreeBSD and come back.
    - Configuration: documents and lists read back as what was printed, an
      error is reported for the first bad line, a mask of cores is its set of
      bits, and the check accepts exactly the consistent configurations.

    - Threads: the heap is a bounded set of entries that pops the least one,
      as long as nothing is deleted from the middle; timers that are due are
      run, each once; no thread is lost between the lists, those whose time has
      come or whose events have arrived are made ready, and the last sub thread
      wakes its parent; registering events is all or nothing; the caches are
      queues of bytes and send and receive streams without loss; the hash table
      is the list of its keys, and no message buffer has two users; sending and
      requests return in time with the whole of the data or an error for a
      reason, and answers never leave their buffers.

    Examples at the ends of the files show where the code does something else
    than it means to.

    ** What is not modelled

    - The rest of DPDK and FreeBSD under [dpdk/] and [freebsd/]: libraries
      F-Stack builds on.  Of these only the functions named above are modelled,
      as F-Stack's own code depends on how they work inside.
    - [app/], [tools/], [example/]: applications, and the FreeBSD tools.
    - Of [adapter/micro_thread]: the switch of stacks and registers, the start
      of the library, the objects for connections ([mt_connection.cpp],
      [mt_net.cpp], [mt_notify.cpp], [mt_action.cpp]) and the replacement of
      the system's calls ([mt_sys_hook.cpp]).
    - [lib/ff_host_interface.c], [lib/ff_route.c], [lib/ff_ng_base.c],
      [lib/ff_glue.c], [lib/ff_kern_*.c] other than the timers,
      [lib/ff_freebsd_init.c], [lib/ff_init*.c] and the like: calls
      passed on to FreeBSD or to the host, and stubs of kernel functions.
    - [lib/ff_epoll.c], [lib/ff_memory.c], [lib/ff_dpdk_pcap.c], [lib/ff_log.c]:
      translation of events for [kevent], page bookkeeping of an optional
      build, and output to files.
    - Of the parts above: set-up that consists of DPDK calls (ports, queues,
      rings in named memory), statistics that are only printed, the handler
      that stores each configuration value, [FF_USE_RING_IPC] and the other
      builds that are off by default, weak memory (accesses are sequentially
      consistent), the list of contexts and overlapping helpers of
      [rte_thash], degrees above 16 of its polynomials, with which [gf2_mul]
      cannot calculate, and of [lib/ff_syscall_wrapper.c] the functions that
      pass their arguments on as they are. *)

From stdpp Require Export prelude gmap list.
From Stdlib Require Export ZArith Lia.

#[global] Open Scope Z_scope.

(** ** Fixed-width C integers

    A C integer is a [Z]; arithmetic that can leave the width of its type is
    wrapped explicitly, [wrapu] for unsigned and [wraps] for two's-complement
    signed types (the kernel sources are built with wrapping signed
    arithmetic). *)

Definition wrapu (w z : Z) : Z := z mod 2 ^ w.
Definition wraps (w z : Z) : Z := (z + 2 ^ (w - 1)) mod 2 ^ w - 2 ^ (w - 1).

Abbreviation u8 := (wrapu 8).
Abbreviation u16 := (wrapu 16).
Abbreviation u32 := (wrapu 32).
Abbreviation u64 := (wrapu 64).
Abbreviation s32 := (wraps 32).
Abbreviation s64 := (wraps 64).

Lemma wrapu_range w z : 0 <= w -> 0 <= wrapu w z < 2 ^ w.
Proof. intros. unfold wrapu. apply Z.mod_pos_bound, Z.pow_pos_nonneg; lia. Qed.

Lemma wrapu_small w z : 0 <= z < 2 ^ w -> wrapu w z = z.
Proof. intros. unfold wrapu. by apply Z.mod_small. Qed.

Lemma wrapu_wrapu w z : wrapu w (wrapu w z) = wrapu w z.
Proof. unfold wrapu. apply Zmod_mod. Qed.

Lemma pow2_half w : 0 < w -> 2 ^ w = 2 ^ (w - 1) + 2 ^ (w - 1).
Proof. intros. replace w with (Z.succ (w - 1)) at 1 by lia. rewrite Z.pow_succ_r; lia. Qed.

Lemma wraps_range w z : 0 < w -> - 2 ^ (w - 1) <= wraps w z < 2 ^ (w - 1).
Proof.
  intros. unfold wraps.
  pose proof (Z.mod_pos_bound (z + 2 ^ (w - 1)) (2 ^ w) ltac:(apply Z.pow_pos_nonneg; lia)).
  pose proof (pow2_half w). lia.
Qed.

Lemma wraps_small w z :
  0 < w -> - 2 ^ (w - 1) <= z < 2 ^ (w - 1) -> wraps w z = z.
Proof.
  intros Hw Hz. unfold wraps. pose proof (pow2_half w Hw).
  rewrite Z.mod_small; lia.
Qed.

(** Wrapping, in the form [lia] uses: the argument plus a multiple of the
    modulus, within the range of the type. *)
Lemma s32_spec z :
  exists k, s32 z = z + k * 4294967296 /\ -2147483648 <= s32 z < 2147483648.
Proof.
  exists (- ((z + 2147483648) / 4294967296)).
  split; [|exact (wraps_range 32 z eq_refl)].
  unfold wraps. change (2 ^ (32 - 1)) with 2147483648. change (2 ^ 32) with 4294967296.
  pose proof (Z.div_mod (z + 2147483648) 4294967296 ltac:(lia)). lia.
Qed.

Lemma u32_spec z :
  exists k, u32 z = z + k * 4294967296 /\ 0 <= u32 z < 4294967296.
Proof.
  exists (- (z / 4294967296)). split; [|apply (wrapu_range 32); lia].
  unfold wrapu. change (2 ^ 32) with 4294967296.
  pose proof (Z.div_mod z 4294967296 ltac:(lia)). lia.
Qed.

Lemma u16_spec z : exists k, u16 z = z + k * 65536 /\ 0 <= u16 z < 65536.
Proof.
  exists (- (z / 65536)). split; [|apply (wrapu_range 16); lia].
  unfold wrapu. change (2 ^ 16) with 65536.
  pose proof (Z.div_mod z 65536 ltac:(lia)). lia.
Qed.

(** [wrap_lia] replaces every wrap of the goal and the hypotheses by its
    specification and calls [lia]. *)
Ltac wrap_spec t lem :=
  let v := fresh "v" in
  let E := fresh "E" in
  destruct lem as (? & ? & ?); remember t as v eqn:E in *; clear E.
Ltac wrap_step :=
  match goal with
  | |- context [wraps 32 ?z] => wrap_spec (wraps 32 z) (s32_spec z)
  | H : context [wraps 32 ?z] |- _ => wrap_spec (wraps 32 z) (s32_spec z)
  | |- context [wrapu 32 ?z] => wrap_spec (wrapu 32 z) (u32_spec z)
  | H : context [wrapu 32 ?z] |- _ => wrap_spec (wrapu 32 z) (u32_spec z)
  | |- context [wrapu 16 ?z] => wrap_spec (wrapu 16 z) (u16_spec z)
  | H : context [wrapu 16 ?z] |- _ => wrap_spec (wrapu 16 z) (u16_spec z)
  end.
Ltac wrap_lia := repeat wrap_step; lia.

(** ** Bit flags and masks *)

Definition flag_is_set (x f : Z) : bool := negb (Z.land x f =? 0).
Definition flag_set (x f : Z) : Z := Z.lor x f.
Definition flag_clr (x f : Z) : Z := Z.ldiff x f.

(** [bitwise] proves equations between bit expressions pointwise. *)
Ltac bitwise :=
  apply Z.bits_inj'; intros ? ?;
  repeat first [rewrite Z.land_spec | rewrite Z.lor_spec | rewrite Z.ldiff_spec
               | rewrite Z.lxor_spec | rewrite Z.bits_0];
  repeat match goal with
         | H : Z.land ?a ?b = 0 |- context [Z.testbit ?a ?n] =>
             lazymatch goal with
             | _ : Z.testbit a n && Z.testbit b n = false |- _ => fail
             | _ => assert (Z.testbit a n && Z.testbit b n = false)
                      by (rewrite <- Z.land_spec, H; apply Z.bits_0)
             end
         end;
  repeat match goal with
         | |- context [Z.testbit ?a ?n] => destruct (Z.testbit a n)
         | H : context [Z.testbit ?a ?n] |- _ => destruct (Z.testbit a n)
         end; try reflexivity; try discriminate.

Lemma flag_set_same x f : f <> 0 -> flag_is_set (flag_set x f) f = true.
Proof.
  intros Hf. unfold flag_is_set, flag_set.
  assert (Z.land (Z.lor x f) f = f) as -> by bitwise.
  by destruct (Z.eqb_spec f 0).
Qed.

Lemma flag_set_other x f g :
  Z.land f g = 0 -> flag_is_set (flag_set x f) g = flag_is_set x g.
Proof.
  intros Hfg. unfold flag_is_set, flag_set.
  by assert (Z.land (Z.lor x f) g = Z.land x g) as -> by bitwise.
Qed.

Lemma flag_clr_same x f : flag_is_set (flag_clr x f) f = false.
Proof.
  unfold flag_is_set, flag_clr.
  by assert (Z.land (Z.ldiff x f) f = 0) as -> by bitwise.
Qed.

Lemma flag_clr_other x f g :
  Z.land f g = 0 -> flag_is_set (flag_clr x f) g = flag_is_set x g.
Proof.
  intros Hfg. unfold flag_is_set, flag_clr.
  by assert (Z.land (Z.ldiff x f) g = Z.land x g) as -> by bitwise.
Qed.

(** [simpl_flags] decides which of several constant flags a chain of
    [flag_set] and [flag_clr] has. *)
Ltac simpl_flags :=
  repeat first
    [ rewrite flag_clr_same
    | rewrite flag_set_same by discriminate
    | rewrite flag_set_other by reflexivity
    | rewrite flag_clr_other by reflexivity ].

(** Masking with [2^k - 1] is reduction modulo [2^k], for negative arguments
    too. *)
Lemma land_mask z k : 0 <= k -> Z.land z (2 ^ k - 1) = z mod 2 ^ k.
Proof. intros. rewrite <- Z.land_ones, Z.ones_equiv by lia. f_equal; lia. Qed.

(** ** Outcomes

    Code that can stop the process (a [panic], a dereference of an invalid
    pointer) or that need not terminate returns a [res]: a value, the stop of
    the process, or an exhausted fuel. *)

Inductive res (A : Type) : Type :=
| Ok (a : A)
| Panic
| NoFuel.
Arguments Ok {A} a.
Arguments Panic {A}.
Arguments NoFuel {A}.

Definition res_bind {A B} (m : res A) (k : A -> res B) : res B :=
  match m with
  | Ok a => k a
  | Panic => Panic
  | NoFuel => NoFuel
  end.

Declare Scope res_scope.
Delimit Scope res_scope with res.
Notation "'let*' p ':=' m 'in' k" := (res_bind m (fun p => k))
  (at level 10, p strict pattern, m at level 200, k at level 200,
   format "'let*'  p  ':='  m  'in' '//' k") : res_scope.
#[global] Open Scope res_scope.

Lemma res_bind_Ok {A B} (m : res A) (k : A -> res B) b :
  res_bind m k = Ok b <-> exists a, m = Ok a /\ k a = Ok b.
Proof. destruct m; simpl; split; intros; naive_solver. Qed.

(** [res_inv H] takes a successful bind apart. *)
Ltac res_inv H :=
  let a := fresh "r" in let E := fresh "E" in
  apply res_bind_Ok in H; destruct H as (a & E & H).


(** ** Arrays

    A C array is a list; an access outside of it is the stop of the process. *)

Definition array_get {A} (l : list A) (i : Z) : res A :=
  if decide (0 <= i)
  then match l !! Z.to_nat i with Some x => Ok x | None => Panic end
  else Panic.

Definition array_set {A} (l : list A) (i : Z) (x : A) : res (list A) :=
  if decide (0 <= i < Z.of_nat (length l)) then Ok (<[Z.to_nat i := x]> l) else Panic.

Lemma array_get_Ok {A} (l : list A) i x :
  array_get l i = Ok x <-> 0 <= i /\ l !! Z.to_nat i = Some x.
Proof. unfold array_get. case_decide; destruct (l !! Z.to_nat i) eqn:E; naive_solver. Qed.

Lemma array_get_lt {A} (l : list A) i :
  0 <= i < Z.of_nat (length l) -> exists x, array_get l i = Ok x /\ l !! Z.to_nat i = Some x.
Proof.
  intros Hi. destruct (lookup_lt_is_Some_2 l (Z.to_nat i)) as [x Hx]; [lia|].
  exists x. split; [apply array_get_Ok; split; [lia|done]|done].
Qed.

Lemma array_get_nat {B} (l : list B) i x : l !! i = Some x -> array_get l (Z.of_nat i) = Ok x.
Proof. intros Hi. apply array_get_Ok. rewrite Nat2Z.id. split; [lia|done]. Qed.

Lemma array_set_lt {A} (l : list A) i x :
  0 <= i < Z.of_nat (length l) -> array_set l i x = Ok (<[Z.to_nat i := x]> l).
Proof. intros. unfold array_set. by rewrite decide_True. Qed.

Lemma array_set_Ok {A} (l l' : list A) i x :
  array_set l i x = Ok l' <->
  0 <= i < Z.of_nat (length l) /\ l' = <[Z.to_nat i := x]> l.
Proof. unfold array_set. case_decide; naive_solver. Qed.

(** [k] assignments [dst[di + j] = src[si + j]], in order. *)
Fixpoint copy_run {A} (k : nat) (src : list A) (si : Z) (dst : list A) (di : Z) : res (list A) :=
  match k with
  | O => Ok dst
  | S k' =>
      let* v := array_get src si in
      let* dst' := array_set dst di v in
      copy_run k' src (si + 1) dst' (di + 1)
  end.

Lemma copy_run_spec {A} k (src dst : list A) (si di : nat) :
  (si + k <= length src)%nat -> (di + k <= length dst)%nat ->
  exists dst', copy_run k src (Z.of_nat si) dst (Z.of_nat di) = Ok dst' /\
    length dst' = length dst /\
    forall q, dst' !! q =
      if decide (di <= q < di + k)%nat then src !! (si + (q - di))%nat else dst !! q.
Proof.
  revert dst si di. induction k as [|k IH]; intros dst si di Hs Hd; simpl.
  - exists dst. repeat split. intros q. rewrite decide_False by lia. done.
  - destruct (array_get_lt src (Z.of_nat si)) as (x & -> & Hx); [lia|]. simpl.
    rewrite array_set_lt by lia. simpl.
    destruct (IH (<[di := x]> dst) (S si) (S di)) as (dst' & Hc & Hl & Hq).
    { lia. }
    { rewrite length_insert. lia. }
    rewrite !Nat2Z.id in *.
    exists dst'. replace (Z.of_nat si + 1) with (Z.of_nat (S si)) by lia.
    replace (Z.of_nat di + 1) with (Z.of_nat (S di)) by lia.
    split; [done|]. rewrite length_insert in Hl. split; [done|]. intros q. rewrite Hq.
    destruct (decide (q = di)) as [->|Hne].
    + rewrite decide_False, decide_True, list_lookup_insert_eq, Nat.sub_diag, Nat.add_0_r by lia.
      done.
    + rewrite list_lookup_insert_ne by done.
      repeat case_decide; try lia; [|done]. f_equal. lia.
Qed.

(** ** Filters *)

Lemma filter_all {B} (P : B -> Prop) `{forall x, Decision (P x)} l : Forall P l -> filter P l = l.
Proof. induction 1 as [|x l Hx _ IH]; [done|]. by rewrite filter_cons_True, IH. Qed.

Lemma filter_none {B} (P : B -> Prop) `{forall x, Decision (P x)} l : Forall (fun x => ~ P x) l -> filter P l = [].
Proof. induction 1 as [|x l Hx _ IH]; [done|]. by rewrite filter_cons_False, IH. Qed.
