(* ===== verification/Fifo.v ===== *)
(** * The interface of a packet queue

    What the clients of a ring rely on: a bounded queue of objects with a
    burst interface.  [Ring] is its implementation; the packet paths are
    verified against the interface. *)

From S2P Require Import Prelude.

(** The number of objects a burst of [n] moves when [avail] are available. *)
Definition burst_min (n avail : Z) : Z := Z.min n avail.

Class FifoOps (R : Type) := {
  fifo_enqueue : R -> Z -> res (R * Z);
  fifo_enqueue_burst : R -> list Z -> Z -> res (R * Z * Z);
  fifo_dequeue_burst : R -> list Z -> Z -> res (R * list Z * Z * Z)
}.

(** [fifo_dequeue_burst] fills the front of the caller's table; the third
    component of a result is the number of objects moved. *)
Class Fifo (R : Type) `{FifoOps R} := {
  fifo_ok : R -> Prop;
  fifo_items : R -> list Z;
  fifo_capacity : R -> Z;
  fifo_room q : fifo_ok q -> Z.of_nat (length (fifo_items q)) <= fifo_capacity q;
  fifo_enqueue_spec q x :
    fifo_ok q ->
    exists q' e, fifo_enqueue q x = Ok (q', e) /\ fifo_ok q' /\
      fifo_capacity q' = fifo_capacity q /\
      if decide (Z.of_nat (length (fifo_items q)) < fifo_capacity q)
      then e = 0 /\ fifo_items q' = fifo_items q ++ [x]
      else e < 0 /\ fifo_items q' = fifo_items q;
  fifo_enqueue_burst_spec q xs n :
    fifo_ok q -> 0 <= n <= Z.of_nat (length xs) ->
    exists q' m fr, fifo_enqueue_burst q xs n = Ok (q', m, fr) /\ fifo_ok q' /\
      fifo_capacity q' = fifo_capacity q /\
      m = burst_min n (fifo_capacity q - Z.of_nat (length (fifo_items q))) /\
      fifo_items q' = fifo_items q ++ take (Z.to_nat m) xs;
  fifo_dequeue_burst_spec q tbl n :
    fifo_ok q -> 0 <= n <= Z.of_nat (length tbl) ->
    exists q' m av, fifo_dequeue_burst q tbl n =
        Ok (q', take (Z.to_nat m) (fifo_items q) ++ drop (Z.to_nat m) tbl, m, av) /\
      fifo_ok q' /\ fifo_capacity q' = fifo_capacity q /\
      m = burst_min n (Z.of_nat (length (fifo_items q))) /\
      fifo_items q' = drop (Z.to_nat m) (fifo_items q)
}.
