(* ===== verification/CString.v ===== *)
(** * C strings and the library functions on them

    A C string is the list of its characters' codes, without the final
    [NUL].  The functions are those of the C locale the configuration and
    option parsers use. *)

From stdpp Require Import strings.
From S2P Require Import Prelude.

Abbreviation cstr := (list Z) (only parsing).

(** A literal. *)
Definition str (s : string) : cstr :=
  (fun a => Z.of_N (Ascii.N_of_ascii a)) <$> String.list_ascii_of_string s.

(** ** Characters *)

Definition isdigit (c : Z) : bool := (48 <=? c) && (c <=? 57).
Definition isspace (c : Z) : bool := (c =? 32) || ((9 <=? c) && (c <=? 13)).

(** ** Searching *)

(** The index of the first [c]: [strchr], and [strstr] with a needle of one
    character. *)
Fixpoint strchr (s : cstr) (c : Z) : option nat :=
  match s with
  | [] => None
  | x :: s' => if x =? c then Some O else S <$> strchr s' c
  end.

(** ** Numbers *)

(** The value of the leading decimal digits, after [acc]. *)
Fixpoint dec_value (acc : Z) (s : cstr) : Z :=
  match s with
  | [] => acc
  | c :: s' => if isdigit c then dec_value (10 * acc + (c - 48)) s' else acc
  end.

Fixpoint skip_space (s : cstr) : cstr :=
  match s with
  | c :: s' => if isspace c then skip_space s' else s
  | [] => []
  end.

Definition LONG_MAX : Z := 9223372036854775807.
Definition LONG_MIN : Z := -9223372036854775808.

(** [strtol(s, NULL, 10)], which stops at the limits of [long]. *)
Definition strtol10 (s : cstr) : Z :=
  let s := skip_space s in
  let v :=
    match s with
    | c :: s' =>
        if c =? 45 then - dec_value 0 s'
        else if c =? 43 then dec_value 0 s'
        else dec_value 0 s
    | [] => 0
    end in
  Z.max LONG_MIN (Z.min LONG_MAX v).

Definition atoi (s : cstr) : Z := s32 (strtol10 s).

(** ** Printing *)

(** The decimal digits of [n], before [acc]. *)
Fixpoint show_digits (fuel : nat) (n : Z) (acc : cstr) : cstr :=
  match fuel with
  | O => acc
  | S fuel' =>
      let acc' := (48 + n mod 10) :: acc in
      if n <? 10 then acc' else show_digits fuel' (n / 10) acc'
  end.

Definition show_dec (n : Z) : cstr := show_digits (S (Z.to_nat (Z.log2 n))) n [].

(** ** Lemmas *)

(** A string that does not go on with a digit. *)
Definition no_digit (s : cstr) : Prop :=
  match s with [] => True | c :: _ => isdigit c = false end.

Lemma dec_value_stop acc s : no_digit s -> dec_value acc s = acc.
Proof. destruct s as [|c s]; [done|]. cbn. by intros ->. Qed.

Lemma isdigit_digit d : 0 <= d < 10 -> isdigit (48 + d) = true.
Proof. intros. unfold isdigit. lia. Qed.

Lemma show_digits_value fuel n acc k :
  0 <= n < 2 ^ Z.of_nat fuel ->
  dec_value k (show_digits fuel n acc) =
  dec_value (k * 10 ^ Z.of_nat (length (show_digits fuel n []))  + n) acc.
Proof.
  revert n acc k. induction fuel as [|fuel IH]; intros n acc k Hn.
  - change (2 ^ Z.of_nat 0) with 1 in Hn. replace n with 0 by lia. cbn. f_equal. lia.
  - cbn [show_digits]. pose proof (Z.mod_pos_bound n 10 ltac:(lia)) as Hm.
    pose proof (Z.div_mod n 10 ltac:(lia)) as Hd.
    assert (forall acc k', dec_value k' ((48 + n mod 10) :: acc) = dec_value (10 * k' + n mod 10) acc)
      as Hc by (intros; cbn [dec_value]; rewrite isdigit_digit by lia; cbv iota; f_equal; lia).
    destruct (Z.ltb_spec n 10) as [Hlt|Hge].
    + rewrite Hc, Z.mod_small by lia. cbn [length]. change (10 ^ Z.of_nat 1) with 10. f_equal. lia.
    + assert (0 <= n / 10 < 2 ^ Z.of_nat fuel) as Hq.
      { split; [apply Z.div_pos; lia|]. apply Z.div_lt_upper_bound; [lia|].
        rewrite Nat2Z.inj_succ, Z.pow_succ_r in Hn by lia. lia. }
      assert (forall l, length (show_digits fuel (n / 10) l)
        = (length (show_digits fuel (n / 10) []) + length l)%nat) as Hlen.
      { clear. generalize (n / 10). induction fuel as [|f IHf]; intros z l; [done|].
        cbn [show_digits]. destruct (z <? 10); [done|].
        rewrite (IHf (z / 10) (_ :: l)), (IHf (z / 10) [_]). cbn. lia. }
      rewrite (IH _ _ k Hq), Hc, (Hlen [_]). cbn [length]. f_equal.
      rewrite Nat2Z.inj_add, Z.pow_add_r by lia. change (10 ^ Z.of_nat 1) with 10.
      generalize (10 ^ Z.of_nat (length (show_digits fuel (n / 10) []))). intros P.
      lia.
Qed.

Lemma show_fuel n : 0 <= n -> 0 <= n < 2 ^ Z.of_nat (S (Z.to_nat (Z.log2 n))).
Proof.
  intros Hn. split; [done|]. rewrite Nat2Z.inj_succ, Z2Nat.id by apply Z.log2_nonneg.
  destruct (decide (n = 0)) as [->|Hne]; [reflexivity|]. apply Z.log2_spec. lia.
Qed.

Lemma show_digits_app fuel n acc rest :
  show_digits fuel n acc ++ rest = show_digits fuel n (acc ++ rest).
Proof.
  revert n acc. induction fuel as [|fuel IH]; intros n acc; [done|]. cbn.
  destruct (n <? 10); [done|]. by rewrite IH.
Qed.

(** Every character printed is a digit. *)
Lemma show_digits_Forall fuel n acc :
  0 <= n -> Forall (fun c => isdigit c = true) acc ->
  Forall (fun c => isdigit c = true) (show_digits fuel n acc).
Proof.
  revert n acc. induction fuel as [|fuel IH]; intros n acc Hn Ha; [done|]. cbn.
  pose proof (Z.mod_pos_bound n 10 ltac:(lia)) as Hm.
  assert (Forall (fun c => isdigit c = true) ((48 + n mod 10) :: acc))
    by (constructor; [by apply isdigit_digit|done]).
  destruct (n <? 10); [done|]. apply IH; [apply Z.div_pos; lia|done].
Qed.

Lemma show_dec_digits n : 0 <= n -> Forall (fun c => isdigit c = true) (show_dec n).
Proof. intros. by apply show_digits_Forall. Qed.

Lemma show_dec_nonempty n : show_dec n <> [].
Proof.
  unfold show_dec. cbn. assert (forall fuel z l, l <> [] -> show_digits fuel z l <> []) as H.
  { induction fuel as [|f IH]; intros z l Hl; [done|]. cbn. destruct (z <? 10); [done|]. by apply IH. }
  destruct (n <? 10); [done|]. by apply H.
Qed.

(** Reading back what was printed. *)
Lemma dec_value_show n rest : 0 <= n -> no_digit rest -> dec_value 0 (show_dec n ++ rest) = n.
Proof.
  intros Hn Hr. unfold show_dec. rewrite show_digits_app, show_digits_value by by apply show_fuel.
  rewrite app_nil_l, dec_value_stop by done. lia.
Qed.

Lemma digit_not_space c : isdigit c = true -> isspace c = false /\ c <> 45 /\ c <> 43.
Proof. unfold isdigit, isspace. lia. Qed.

Lemma atoi_show n rest :
  0 <= n < 2 ^ 31 -> no_digit rest -> atoi (show_dec n ++ rest) = n.
Proof.
  change (2 ^ 31) with 2147483648. intros Hn Hr.
  unfold atoi, strtol10. pose proof (dec_value_show n rest ltac:(lia) Hr) as Hv.
  pose proof (show_dec_digits n ltac:(lia)) as Hd. pose proof (show_dec_nonempty n) as Hne.
  destruct (show_dec n) as [|c l]; [done|]. apply Forall_cons in Hd as [Hc _].
  destruct (digit_not_space c Hc) as (Hsp & H1 & H2).
  cbn [app skip_space] in *. rewrite Hsp.
  destruct (Z.eqb_spec c 45); [done|]. destruct (Z.eqb_spec c 43); [done|].
  rewrite Hv. unfold LONG_MAX, LONG_MIN. rewrite (wraps_small 32); lia.
Qed.
