(* ===== verification/Callout.v ===== *)
(** * The callout wheel ([lib/ff_kern_timeout.c])

    Every stack thread owns one [callout_cpu] (the [__thread] variable
    [cc_cpu]); the model is the state of one thread.  A [struct callout] is
    identified by its address, a [Z]; [callouts] is the memory the addresses
    point into.  The intrusive lists of the wheel are lists of addresses.
    Locks are the empty functions of [lib/ff_lock.c], so that only the lock
    class, which says whether the operation exists, is kept. *)

From S2P Require Import Prelude.

Module Callout.

(** ** Constants of [sys/callout.h] and of the head of the file *)

Definition CALLOUT_ACTIVE : Z := 0x0002.
Definition CALLOUT_PENDING : Z := 0x0004.
Definition CALLOUT_RETURNUNLOCKED : Z := 0x0010.
Definition CALLOUT_SHAREDLOCK : Z := 0x0020.
Definition CALLOUT_DFRMIGRATION : Z := 0x0040.
Definition CALLOUT_PROCESSED : Z := 0x0080.
Definition CALLOUT_DIRECT : Z := 0x0100.
Definition CALLOUT_LOCAL_ALLOC : Z := 0.
Definition C_DIRECT_EXEC : Z := 0x0001.
Definition C_HARDCLOCK : Z := 0x0100.
Definition CS_DRAIN : Z := 0x0001.
Definition CS_EXECUTING : Z := 0x0002.
Definition MAXCPU : Z := 1024.

(** ** Data *)

(** The class of a lock ([lib/ff_lock.c]).  [lock_class_rm] and
    [lock_class_sx] have no [lc_lock] and no [lc_unlock], [lock_class_sx] no
    [lc_assert]: a call through the missing member is a call of [NULL]. *)
Inductive lock_class := lock_class_mtx | lock_class_rw | lock_class_rm | lock_class_sx.

Definition has_lc_lock (k : lock_class) : bool :=
  match k with lock_class_mtx | lock_class_rw => true | _ => false end.
Definition has_lc_assert (k : lock_class) : bool :=
  match k with lock_class_sx => false | _ => true end.

Record callout := mk_callout {
  c_time : Z;
  c_arg : Z;
  c_func : Z;
  c_lock : option lock_class;
  c_flags : Z;
  c_iflags : Z;
  c_cpu : Z
}.

Record cc_exec := mk_cc_exec {
  cc_curr : option Z;
  cc_drain : option Z;
  cc_cancel : bool;
  cc_waiting : bool
}.

(** One invocation of a callback: the callout, the function, its argument
    and the value of [curticks] it was found at. *)
Record event := mk_event { ev_callout : Z; ev_func : Z; ev_arg : Z; ev_time : Z }.

(** [struct callout_cpu], the globals the file uses, and the history of the
    callbacks invoked ([fired], newest last), which no operation reads. *)
Record state := mk_state {
  callouts : gmap Z callout;
  cc_exec_entity : cc_exec * cc_exec;
  cc_next : option Z;
  cc_callwheel : list (list Z);
  cc_expireq : list Z;
  cc_callfree : list Z;
  cc_softticks : Z;
  cc_bucket : Z;
  cc_inited : bool;
  callwheelsize : Z;
  ticks : Z;
  timeout_cpu : Z;
  fired : list event
}.

Definition with_callouts (s : state) x : state :=
  mk_state x (cc_exec_entity s) (cc_next s) (cc_callwheel s) (cc_expireq s) (cc_callfree s)
    (cc_softticks s) (cc_bucket s) (cc_inited s) (callwheelsize s) (ticks s) (timeout_cpu s)
    (fired s).
Definition with_exec (s : state) x : state :=
  mk_state (callouts s) x (cc_next s) (cc_callwheel s) (cc_expireq s) (cc_callfree s)
    (cc_softticks s) (cc_bucket s) (cc_inited s) (callwheelsize s) (ticks s) (timeout_cpu s)
    (fired s).
Definition with_next (s : state) x : state :=
  mk_state (callouts s) (cc_exec_entity s) x (cc_callwheel s) (cc_expireq s) (cc_callfree s)
    (cc_softticks s) (cc_bucket s) (cc_inited s) (callwheelsize s) (ticks s) (timeout_cpu s)
    (fired s).
Definition with_wheel (s : state) x : state :=
  mk_state (callouts s) (cc_exec_entity s) (cc_next s) x (cc_expireq s) (cc_callfree s)
    (cc_softticks s) (cc_bucket s) (cc_inited s) (callwheelsize s) (ticks s) (timeout_cpu s)
    (fired s).
Definition with_expireq (s : state) x : state :=
  mk_state (callouts s) (cc_exec_entity s) (cc_next s) (cc_callwheel s) x (cc_callfree s)
    (cc_softticks s) (cc_bucket s) (cc_inited s) (callwheelsize s) (ticks s) (timeout_cpu s)
    (fired s).
Definition with_softticks (s : state) x : state :=
  mk_state (callouts s) (cc_exec_entity s) (cc_next s) (cc_callwheel s) (cc_expireq s)
    (cc_callfree s) x (cc_bucket s) (cc_inited s) (callwheelsize s) (ticks s) (timeout_cpu s)
    (fired s).
Definition with_bucket (s : state) x : state :=
  mk_state (callouts s) (cc_exec_entity s) (cc_next s) (cc_callwheel s) (cc_expireq s)
    (cc_callfree s) (cc_softticks s) x (cc_inited s) (callwheelsize s) (ticks s) (timeout_cpu s)
    (fired s).
Definition with_ticks (s : state) x : state :=
  mk_state (callouts s) (cc_exec_entity s) (cc_next s) (cc_callwheel s) (cc_expireq s)
    (cc_callfree s) (cc_softticks s) (cc_bucket s) (cc_inited s) (callwheelsize s) x
    (timeout_cpu s) (fired s).
Definition with_fired (s : state) x : state :=
  mk_state (callouts s) (cc_exec_entity s) (cc_next s) (cc_callwheel s) (cc_expireq s)
    (cc_callfree s) (cc_softticks s) (cc_bucket s) (cc_inited s) (callwheelsize s) (ticks s)
    (timeout_cpu s) x.

Definition set_flags (co : callout) (fl ifl : Z) : callout :=
  mk_callout (c_time co) (c_arg co) (c_func co) (c_lock co) fl ifl (c_cpu co).

(** [cc_exec_entity[direct]] *)
Definition exec_get (s : state) (direct : bool) : cc_exec :=
  if direct then snd (cc_exec_entity s) else fst (cc_exec_entity s).
Definition exec_set (s : state) (direct : bool) (e : cc_exec) : state :=
  with_exec s (if direct then (fst (cc_exec_entity s), e) else (e, snd (cc_exec_entity s))).

(** ** The lists of [sys/queue.h] *)

(** The element after [c] in [l]. *)
Fixpoint next_in (c : Z) (l : list Z) : option Z :=
  match l with
  | [] => None
  | x :: l' => if decide (x = c) then head l' else next_in c l'
  end.

Definition LIST_NEXT (c : Z) (w : list (list Z)) : option Z :=
  match List.find (fun l => bool_decide (c ∈ l)) w with
  | Some l => next_in c l
  | None => None
  end.

Definition LIST_REMOVE (c : Z) (w : list (list Z)) : list (list Z) :=
  filter (fun x => x <> c) <$> w.

Definition LIST_INSERT_HEAD (b : Z) (c : Z) (w : list (list Z)) : list (list Z) :=
  alter (cons c) (Z.to_nat b) w.

Definition LIST_FIRST (b : Z) (w : list (list Z)) : option Z :=
  w !! Z.to_nat b ≫= head.

(** ** Operations *)

Definition callwheelmask (s : state) : Z := callwheelsize s - 1.

Definition callout_get_bucket (s : state) (to_ticks : Z) : Z :=
  Z.land to_ticks (callwheelmask s).

Definition cc_cce_cleanup (e : cc_exec) : cc_exec :=
  mk_cc_exec None (cc_drain e) false false.

(** [cc_cce_migrating] is the constant 0. *)
Definition cc_cce_migrating (s : state) (direct : bool) : bool := false.

Definition callout_migrating (co : callout) : bool :=
  flag_is_set (c_iflags co) CALLOUT_DFRMIGRATION.

Definition pending (co : callout) : bool := flag_is_set (c_iflags co) CALLOUT_PENDING.
Definition active (co : callout) : bool := flag_is_set (c_flags co) CALLOUT_ACTIVE.

(** [callout_lock] takes no lock and returns the thread's own [cc_cpu], after
    reading [c->c_cpu]: it only dereferences [c]. *)
Definition callout_lock (s : state) (c : Z) : res callout :=
  match callouts s !! c with
  | Some co => Ok co
  | None => Panic
  end.

Definition callout_cc_add (s : state) (c : Z) (co : callout)
    (to_ticks func arg cpu flags : Z) : state :=
  let iflags := flag_clr (flag_set (c_iflags co) CALLOUT_PENDING) CALLOUT_PROCESSED in
  let iflags := if flag_is_set flags C_DIRECT_EXEC
                then flag_set iflags CALLOUT_DIRECT else iflags in
  let time := s32 (ticks s + to_ticks) in
  let co' := mk_callout time arg func (c_lock co)
               (flag_set (c_flags co) CALLOUT_ACTIVE) iflags (c_cpu co) in
  let bucket := callout_get_bucket s time in
  let s := with_callouts s (<[c := co']> (callouts s)) in
  let s := with_wheel s (LIST_INSERT_HEAD bucket c (cc_callwheel s)) in
  if cc_bucket s =? bucket then with_next s (Some c) else s.

(** [callout_cc_del] puts a callout of the static table back on the free
    list; [CALLOUT_LOCAL_ALLOC] is 0 here, so that it always returns early. *)
Definition callout_cc_del (s : state) (c : Z) (co : callout) : state :=
  if negb (flag_is_set (c_iflags co) CALLOUT_LOCAL_ALLOC) then s
  else
    mk_state
      (<[c := mk_callout (c_time co) (c_arg co) 0 (c_lock co) (c_flags co) (c_iflags co)
                (c_cpu co)]> (callouts s))
      (cc_exec_entity s) (cc_next s) (cc_callwheel s) (cc_expireq s) (c :: cc_callfree s)
      (cc_softticks s) (cc_bucket s) (cc_inited s) (callwheelsize s) (ticks s) (timeout_cpu s)
      (fired s).

(** The unlinking that [callout_reset_tick_on] and [_callout_stop_safe]
    share: off the wheel, moving [cc_next] on if it points at [c], or off the
    expire queue. *)
Definition callout_unlink (s : state) (c : Z) (iflags : Z) : state :=
  if negb (flag_is_set iflags CALLOUT_PROCESSED) then
    let s := if decide (cc_next s = Some c)
             then with_next s (LIST_NEXT c (cc_callwheel s)) else s in
    with_wheel s (LIST_REMOVE c (cc_callwheel s))
  else with_expireq s (filter (fun x => x <> c) (cc_expireq s)).

Definition callout_reset_tick_on (s : state) (c to_ticks ftn arg cpu flags : Z)
    : res (Z * state) :=
  if negb (cpu =? -1) && ((MAXCPU <=? cpu) || negb (cc_inited s)) then Panic
  else
    let direct := flag_is_set flags C_DIRECT_EXEC in
    let* co := callout_lock s c in
    let cpu := if flag_is_set (c_iflags co) CALLOUT_LOCAL_ALLOC || (cpu =? -1)
               then c_cpu co else cpu in
    let ex := exec_get s direct in
    let running := bool_decide (cc_curr ex = Some c) in
    let cancels := running && bool_decide (c_lock co <> None) && negb (cc_cancel ex) in
    let cancelled := if cancels then 1 else 0 in
    let s := if cancels
             then exec_set s direct (mk_cc_exec (cc_curr ex) (cc_drain ex) true (cc_waiting ex))
             else s in
    if running && cc_waiting ex then Ok (cancelled, s)
    else
      let was_pending := pending co in
      let s := if was_pending then callout_unlink s c (c_iflags co) else s in
      let cancelled := if was_pending then 1 else cancelled in
      let co := if was_pending
                then set_flags co (flag_clr (c_flags co) CALLOUT_ACTIVE)
                       (flag_clr (c_iflags co) CALLOUT_PENDING)
                else co in
      let to_ticks := if to_ticks <=? 0 then 1 else to_ticks in
      Ok (cancelled, callout_cc_add s c co to_ticks ftn arg cpu flags).

Definition callout_reset_on (s : state) (c to_ticks fn arg cpu : Z) : res (Z * state) :=
  callout_reset_tick_on s c to_ticks fn arg cpu C_HARDCLOCK.

Definition callout_schedule_on (s : state) (c to_ticks cpu : Z) : res (Z * state) :=
  let* co := callout_lock s c in
  callout_reset_on s c to_ticks (c_func co) (c_arg co) cpu.

Definition callout_schedule (s : state) (c to_ticks : Z) : res (Z * state) :=
  let* co := callout_lock s c in
  callout_reset_on s c to_ticks (c_func co) (c_arg co) (c_cpu co).

(** The wait of [callout_drain] for a callback in progress: the sleep-queue
    calls are empty macros, so that each turn only sets [cc_waiting] and
    alternates [sq_locked]. *)
Fixpoint drain_loop (fuel : nat) (s : state) (c : Z) (direct sq_locked : bool) : res state :=
  match fuel with
  | O => NoFuel
  | S fuel =>
      let ex := exec_get s direct in
      if bool_decide (cc_curr ex = Some c) then
        if negb sq_locked then drain_loop fuel s c direct true
        else drain_loop fuel
               (exec_set s direct (mk_cc_exec (cc_curr ex) (cc_drain ex) (cc_cancel ex) true))
               c direct false
      else Ok s
  end.

(** The end of [_ff_callout_stop_safe], once a running callback has been
    dealt with: report a callout that is not pending, take a pending one off
    its list. *)
Definition stop_finish (s : state) (c : Z) (co : callout) (direct not_on_a_list : bool)
    (cancelled : Z) : res (Z * state) :=
  if negb (pending co) then
    let cancelled := if bool_decide (cc_curr (exec_get s direct) <> Some c)
                     then -1 else cancelled in
    Ok (cancelled, s)
  else
    let co := set_flags co (flag_clr (c_flags co) CALLOUT_ACTIVE)
                (flag_clr (c_iflags co) CALLOUT_PENDING) in
    let s := with_callouts s (<[c := co]> (callouts s)) in
    let s := if not_on_a_list then s else callout_unlink s c (c_iflags co) in
    Ok (cancelled, callout_cc_del s c co).

(** [_ff_callout_stop_safe]. *)
Definition ff_callout_stop_safe (fuel : nat) (s : state) (c flags : Z) (drain : option Z)
    : res (Z * state) :=
  let* co := callout_lock s c in
  let draining := flag_is_set flags CS_DRAIN in
  let* use_lock :=
    (match c_lock co with
     | Some k => if draining then Ok false else if has_lc_assert k then Ok true else Panic
     | None => Ok false
     end) in
  let direct := flag_is_set (c_iflags co) CALLOUT_DIRECT in
  let not_on_a_list := callout_migrating co && pending co && active co in
  let co := if not_on_a_list
            then set_flags co (flag_clr (c_flags co) CALLOUT_ACTIVE)
                   (flag_clr (c_iflags co) CALLOUT_PENDING)
            else co in
  let s := with_callouts s (<[c := co]> (callouts s)) in
  let ex := exec_get s direct in
  let executing := flag_is_set flags CS_EXECUTING in
  let set_drain s :=
    match drain with
    | Some d => exec_set s direct
                  (mk_cc_exec (cc_curr (exec_get s direct)) (Some d)
                     (cc_cancel (exec_get s direct)) (cc_waiting (exec_get s direct)))
    | None => s
    end in
  if bool_decide (cc_curr ex = Some c) then
    let co := set_flags co (flag_clr (c_flags co) CALLOUT_ACTIVE) (c_iflags co) in
    let s := with_callouts s (<[c := co]> (callouts s)) in
    if draining then
      let* s := drain_loop fuel s c direct false in
      stop_finish (set_drain s) c co direct not_on_a_list (if executing then 1 else 0)
    else if use_lock && negb (cc_cancel ex) && bool_decide (drain = None) then
      let s := exec_set s direct (mk_cc_exec (cc_curr ex) (cc_drain ex) true (cc_waiting ex)) in
      let co := set_flags co (c_flags co) (flag_clr (c_iflags co) CALLOUT_DFRMIGRATION) in
      Ok (1, with_callouts s (<[c := co]> (callouts s)))
    else if callout_migrating co then
      let co := set_flags co (c_flags co) (flag_clr (c_iflags co) CALLOUT_DFRMIGRATION) in
      Ok (if executing then 1 else 0, set_drain (with_callouts s (<[c := co]> (callouts s))))
    else stop_finish (set_drain s) c co direct not_on_a_list (if executing then 1 else 0)
  else stop_finish s c co direct not_on_a_list 1.

(** [_callout_stop_safe], the public entry: no drain function. *)
Definition callout_stop_safe (fuel : nat) (s : state) (c flags : Z) : res (Z * state) :=
  ff_callout_stop_safe fuel s c flags None.

Definition callout_stop (fuel : nat) (s : state) (c : Z) := callout_stop_safe fuel s c 0.

Definition callout_deactivate (s : state) (c : Z) : res state :=
  let* co := callout_lock s c in
  Ok (with_callouts s
        (<[c := set_flags co (flag_clr (c_flags co) CALLOUT_ACTIVE) (c_iflags co)]> (callouts s))).

Definition callout_pending (s : state) (c : Z) : bool :=
  match callouts s !! c with Some co => pending co | None => false end.

(** [callout_init] and [_callout_init_lock] clear the structure; the lock
    [Giant] is a mutex.  Clearing a callout that is linked in the wheel
    destroys its list, which is not a state of the model. *)
Definition callout_init (s : state) (c : Z) (mpsafe : bool) : res state :=
  if callout_pending s c then Panic
  else
    let co := if mpsafe
              then mk_callout 0 0 0 None 0 CALLOUT_RETURNUNLOCKED (timeout_cpu s)
              else mk_callout 0 0 0 (Some lock_class_mtx) 0 0 (timeout_cpu s) in
    Ok (with_callouts s (<[c := co]> (callouts s))).

Definition callout_init_lock (s : state) (c : Z) (lock : option lock_class) (flags : Z)
    : res state :=
  if callout_pending s c then Panic
  else
    let co := mk_callout 0 0 0 lock 0
                (Z.land flags (Z.lor CALLOUT_RETURNUNLOCKED CALLOUT_SHAREDLOCK))
                (timeout_cpu s) in
    Ok (with_callouts s (<[c := co]> (callouts s))).

(** ** Start-up *)

Definition fls (n : Z) : Z := if n =? 0 then 0 else Z.log2 (u32 n) + 1.

(** [callout_callwheel_init]: [ncallout], possibly replaced by the tunable
    [kern.ncallout], and the size of the wheel. *)
Definition callout_callwheel_init (maxproc maxfiles : Z) (tunable : option Z) : Z * Z :=
  let ncallout := Z.min (s32 (16 + maxproc + maxfiles)) 18508 in
  let ncallout := default ncallout tunable in
  (ncallout, u32 (Z.shiftl 1 (fls ncallout))).

(** [ff_callout_thread_init] with [callout_cpu_init]: the thread's
    [callout_cpu] is cleared, [cc_callout[i]] is the callout at address
    [base + i], initialised and put on the free list. *)
Definition callout_cpu_init (mem : gmap Z callout) (ncallout size base now cpu : Z) : state :=
  let addrs := (fun i => base + Z.of_nat i) <$> seq 0 (Z.to_nat ncallout) in
  let co := mk_callout 0 0 0 (Some lock_class_mtx) 0 0 cpu in
  let ex := cc_cce_cleanup (mk_cc_exec None None false false) in
  mk_state (foldl (fun m c => <[c := co]> m) mem addrs) (ex, ex) None
    (replicate (Z.to_nat size) []) [] (reverse addrs) 0 0 true size now cpu [].

(** ** Callbacks

    What a callback does to this component is a program of calls of the
    interface, each continued with its return value; the callbacks themselves
    are code of the stack, the parameter [handler]. *)
Inductive act :=
| AReset (c to_ticks ftn arg cpu flags : Z)
| ASchedule (c to_ticks : Z)
| AScheduleOn (c to_ticks cpu : Z)
| AStop (c flags : Z)
| ADeactivate (c : Z)
| AInit (c : Z) (mpsafe : bool)
| AInitLock (c : Z) (lock : option lock_class) (flags : Z).

Inductive prog :=
| PDone
| PDo (a : act) (k : Z -> prog).

Definition run_act (fuel : nat) (s : state) (a : act) : res (Z * state) :=
  match a with
  | AReset c to_ticks ftn arg cpu flags => callout_reset_tick_on s c to_ticks ftn arg cpu flags
  | ASchedule c to_ticks => callout_schedule s c to_ticks
  | AScheduleOn c to_ticks cpu => callout_schedule_on s c to_ticks cpu
  | AStop c flags => callout_stop_safe fuel s c flags
  | ADeactivate c => let* s := callout_deactivate s c in Ok (0, s)
  | AInit c mpsafe => let* s := callout_init s c mpsafe in Ok (0, s)
  | AInitLock c lock flags => let* s := callout_init_lock s c lock flags in Ok (0, s)
  end.

Fixpoint run_prog (fuel : nat) (s : state) (p : prog) : res state :=
  match p with
  | PDone => Ok s
  | PDo a k => let* rs := run_act fuel s a in run_prog fuel (snd rs) (k (fst rs))
  end.

Section Clock.

Variable handler : Z -> Z -> prog.

(** The part of [softclock_call_cc] from the label [skip] on. *)
Definition softclock_skip (fuel : nat) (s : state) (c c_arg : Z) (direct : bool) : res state :=
  let ex := exec_get s direct in
  let s := exec_set s direct (mk_cc_exec None (cc_drain ex) (cc_cancel ex) (cc_waiting ex)) in
  let* s :=
    (match cc_drain ex with
     | Some drain =>
         run_prog fuel
           (exec_set s direct (mk_cc_exec None None (cc_cancel ex) (cc_waiting ex)))
           (handler drain c_arg)
     | None => Ok s
     end) in
  let ex := exec_get s direct in
  if cc_waiting ex then
    Ok (exec_set s direct (mk_cc_exec (cc_curr ex) (cc_drain ex) (cc_cancel ex) false))
  else if cc_cce_migrating s direct then Panic
  else Ok s.

(** The invocation of the callback and the release of the callout's lock. *)
Definition softclock_run (fuel : nat) (s : state) (c : Z) (co : callout) (direct : bool)
    : res state :=
  let s := with_fired s (fired s ++ [mk_event c (c_func co) (c_arg co) (c_time co)]) in
  let* s := run_prog fuel s (handler (c_func co) (c_arg co)) in
  if flag_is_set (c_iflags co) CALLOUT_RETURNUNLOCKED then softclock_skip fuel s c (c_arg co) direct
  else
    match c_lock co with
    | Some k => if has_lc_lock k then softclock_skip fuel s c (c_arg co) direct else Panic
    | None => Panic
    end.

Definition softclock_call_cc (fuel : nat) (s : state) (c : Z) (direct : bool) : res state :=
  let* co := callout_lock s c in
  let co' := set_flags co (c_flags co)
               (if flag_is_set (c_iflags co) CALLOUT_LOCAL_ALLOC then CALLOUT_LOCAL_ALLOC
                else flag_clr (c_iflags co) CALLOUT_PENDING) in
  let s := with_callouts s (<[c := co']> (callouts s)) in
  let s := exec_set s direct
             (mk_cc_exec (Some c) None false (cc_waiting (exec_get s direct))) in
  match c_lock co with
  | Some k =>
      if negb (has_lc_lock k) then Panic
      else
        let ex := exec_get s direct in
        if cc_cancel ex then softclock_skip fuel s c (c_arg co) direct
        else
          let s := exec_set s direct
                     (mk_cc_exec (cc_curr ex) (cc_drain ex) true (cc_waiting ex)) in
          softclock_run fuel s c co direct
  | None => softclock_run fuel s c co direct
  end.

(** The inner loop of [softclock]: the callouts of one bucket that are due at
    [curticks], from [c] on. *)
Fixpoint scan_bucket (fuel : nat) (s : state) (curticks : Z) (c : option Z) : res state :=
  match fuel with
  | O => NoFuel
  | S fuel =>
      match c with
      | None => Ok s
      | Some c =>
          let* co := callout_lock s c in
          if negb (c_time co =? curticks) then
            scan_bucket fuel s curticks (LIST_NEXT c (cc_callwheel s))
          else
            let s := with_next s (LIST_NEXT c (cc_callwheel s)) in
            let s := with_bucket s (callout_get_bucket s curticks) in
            let s := with_wheel s (LIST_REMOVE c (cc_callwheel s)) in
            let* s := softclock_call_cc fuel s c true in
            scan_bucket fuel (with_next s None) curticks (cc_next s)
      end
  end.

Fixpoint softclock (fuel : nat) (s : state) : res state :=
  match fuel with
  | O => NoFuel
  | S fuel =>
      if cc_softticks s =? ticks s then Ok s
      else
        let curticks := cc_softticks s in
        let s := with_softticks s (s32 (cc_softticks s + 1)) in
        let c := LIST_FIRST (Z.land curticks (callwheelmask s)) (cc_callwheel s) in
        let* s := scan_bucket fuel s curticks c in
        softclock fuel s
  end.

(** The loop of [callout_tick]: skip the ticks whose bucket is empty. *)
Fixpoint tick_skip (fuel : nat) (s : state) : res (bool * state) :=
  match fuel with
  | O => NoFuel
  | S fuel =>
      if s32 (cc_softticks s - ticks s) <? 0 then
        match LIST_FIRST (Z.land (cc_softticks s) (callwheelmask s)) (cc_callwheel s) with
        | Some _ => Ok (true, s)
        | None => tick_skip fuel (with_softticks s (s32 (cc_softticks s + 1)))
        end
      else Ok (false, s)
  end.

Definition callout_tick (fuel : nat) (s : state) : res state :=
  let* rs := tick_skip fuel s in
  if (fst rs : bool) then softclock fuel (snd rs) else Ok (snd rs).

(** [ff_hardclock] of the main thread and of the workers, as far as the
    callout wheel is concerned. *)
Definition ff_hardclock (fuel : nat) (s : state) : res state :=
  callout_tick fuel (with_ticks s (s32 (ticks s + 1))).

Definition ff_hardclock_worker (fuel : nat) (s : state) : res state :=
  callout_tick fuel s.

End Clock.

End Callout.
