(* ===== verification/CalloutProofs.v ===== *)
(** * Correctness of the callout wheel

    The invariant of the wheel, its preservation by every operation, and what
    [softclock] and [callout_tick] guarantee: they terminate, they invoke the
    callbacks of exactly the ticks that have passed, in the order of the
    ticks, and they leave no overdue callout behind. *)

From stdpp Require Import sorting.
From S2P Require Import Prelude Callout.
Import Callout.

(** ** Buckets as lists *)

(** The elements of [l] before the cursor [n]; all of [l] when the cursor is
    at the end. *)
Fixpoint before (n : option Z) (l : list Z) : list Z :=
  match l with
  | [] => []
  | x :: l' => if decide (n = Some x) then [] else x :: before n l'
  end.

Lemma next_in_elem c l m : next_in c l = Some m -> m ∈ l.
Proof.
  induction l as [|x l IH]; simpl; [done|]. case_decide as E; intros H.
  - destruct l; simplify_eq/=. set_solver.
  - right. auto.
Qed.

Lemma next_in_ne c l m : NoDup l -> next_in c l = Some m -> m <> c.
Proof.
  induction 1 as [|x l Hx Hl IH]; simpl; [done|]. case_decide; [|done].
  subst. destruct l; simpl; [done|]. intros ? ->. simplify_eq. set_solver.
Qed.

Lemma filter_ne_id (c : Z) (l : list Z) : c ∉ l -> filter (fun x => x <> c) l = l.
Proof.
  induction l as [|x l IH]; intros H; [done|].
  rewrite filter_cons_True by set_solver. f_equal. set_solver.
Qed.

Lemma before_elem n l x : x ∈ before n l -> x ∈ l /\ n <> Some x.
Proof.
  induction l as [|y l IH]; simpl; [set_solver|].
  case_decide; [set_solver|]. intros [->|Hx]%elem_of_cons; set_solver.
Qed.

Lemma before_filter n c (l : list Z) x :
  n <> Some c -> x ∈ before n (filter (fun y => y <> c) l) -> x ∈ before n l.
Proof.
  intros Hn. induction l as [|y l IH]; [done|].
  destruct (decide (y = c)) as [->|Hy].
  - rewrite filter_cons_False by naive_solver. simpl. case_decide; [done|]. set_solver.
  - rewrite filter_cons_True by done. simpl. case_decide; set_solver.
Qed.

Lemma before_next c (l : list Z) :
  NoDup l -> c ∈ l ->
  before (next_in c l) (filter (fun y => y <> c) l) = before (Some c) l.
Proof.
  induction 1 as [|y l Hy Hl IH]; [set_solver|]. intros Hc.
  destruct (decide (y = c)) as [->|Hne]; simpl.
  - rewrite filter_cons_False by naive_solver. rewrite filter_ne_id by done.
    repeat (rewrite decide_True by done).
    destruct l; simpl; [done|]. by rewrite decide_True.
  - rewrite filter_cons_True by done. rewrite (decide_False (P := y = c)) by done.
    assert (c ∈ l) as Hcl by set_solver. simpl.
    rewrite (decide_False (P := Some c = Some y)) by naive_solver.
    rewrite decide_False; [by rewrite IH|].
    intros E%next_in_elem. done.
Qed.

Lemma before_step c l :
  NoDup l -> c ∈ l -> before (next_in c l) l = before (Some c) l ++ [c].
Proof.
  induction 1 as [|y l Hy Hl IH]; [set_solver|]. intros Hc. simpl.
  destruct (decide (y = c)) as [->|Hne].
  - rewrite (decide_True (P := Some c = Some c)) by done. rewrite decide_False.
    + destruct l; simpl; [done|]. by rewrite decide_True.
    + intros E. apply Hy. destruct l; simplify_eq/=. set_solver.
  - rewrite (decide_False (P := Some c = Some y)) by naive_solver.
    rewrite decide_False by (intros E%next_in_elem; done).
    rewrite IH by set_solver. done.
Qed.

Lemma before_length n l : (length (before n l) <= length l)%nat.
Proof. induction l; simpl; [lia|]. case_decide; simpl; lia. Qed.

Lemma before_none l : before None l = l.
Proof. induction l; simpl; [done|]. by f_equal. Qed.

(** ** The wheel invariant *)

Definition bucket_of (size t : Z) : nat := Z.to_nat (Z.land t (size - 1)).

(** A callout that can be run: its lock operation exists, or it has no lock
    and its callback is expected to return unlocked; it is not on the expire
    queue and not migrating. *)
Definition runnable (lock : option lock_class) (iflags : Z) : Prop :=
  match lock with
  | Some k => has_lc_lock k = true
  | None => flag_is_set iflags CALLOUT_RETURNUNLOCKED = true
  end.

Record callout_ok (co : callout) : Prop := {
  co_processed : flag_is_set (c_iflags co) CALLOUT_PROCESSED = false;
  co_migrating : callout_migrating co = false;
  co_runnable : runnable (c_lock co) (c_iflags co);
  co_time : -2147483648 <= c_time co < 2147483648;
  co_cpu : c_cpu co < MAXCPU
}.

Record wheel_ok (size : Z) (m : gmap Z callout) (w : list (list Z)) : Prop := {
  wo_size : exists k, 0 <= k <= 31 /\ size = 2 ^ k;
  wo_length : length w = Z.to_nat size;
  wo_mem : forall b l c, w !! b = Some l -> c ∈ l ->
    exists co, m !! c = Some co /\ pending co = true /\ bucket_of size (c_time co) = b;
  wo_pend : forall c co, m !! c = Some co -> pending co = true ->
    exists l, w !! bucket_of size (c_time co) = Some l /\ c ∈ l;
  wo_nodup : forall b l, w !! b = Some l -> NoDup l;
  wo_callouts : forall c co, m !! c = Some co -> callout_ok co
}.

Lemma bucket_lt size t : (exists k, 0 <= k <= 31 /\ size = 2 ^ k) ->
  (bucket_of size t < Z.to_nat size)%nat.
Proof.
  intros (k & Hk & ->). unfold bucket_of. rewrite land_mask by lia.
  pose proof (Z.mod_pos_bound t (2 ^ k) ltac:(apply Z.pow_pos_nonneg; lia)). lia.
Qed.

Lemma bucket_inj size t t' : (exists k, 0 <= k <= 31 /\ size = 2 ^ k) ->
  bucket_of size t = bucket_of size t' -> Z.land t (size - 1) = Z.land t' (size - 1).
Proof.
  intros (k & Hk & ->). unfold bucket_of. rewrite !land_mask by lia.
  pose proof (Z.mod_pos_bound t (2 ^ k) ltac:(apply Z.pow_pos_nonneg; lia)).
  pose proof (Z.mod_pos_bound t' (2 ^ k) ltac:(apply Z.pow_pos_nonneg; lia)). lia.
Qed.

Lemma bucket_exists size m w t :
  wheel_ok size m w -> exists l, w !! bucket_of size t = Some l.
Proof.
  intros W. apply lookup_lt_is_Some. rewrite (wo_length _ _ _ W).
  apply bucket_lt, (wo_size _ _ _ W).
Qed.

Lemma list_next_eq size m w b l c :
  wheel_ok size m w -> w !! b = Some l -> c ∈ l -> LIST_NEXT c w = next_in c l.
Proof.
  intros W Hb Hc. unfold LIST_NEXT.
  destruct (List.find _ w) as [l'|] eqn:E.
  - apply find_some in E as [Hin Hd%bool_decide_eq_true].
    apply list_elem_of_In, list_elem_of_lookup in Hin as [b' Hb'].
    destruct (wo_mem _ _ _ W _ _ _ Hb Hc) as (co & H1 & _ & H2).
    destruct (wo_mem _ _ _ W _ _ _ Hb' Hd) as (co' & H1' & _ & H2'). naive_solver.
  - eapply find_none in E; [|by apply list_elem_of_In, list_elem_of_lookup; eexists].
    apply bool_decide_eq_false in E. done.
Qed.

Lemma remove_lookup c w b :
  LIST_REMOVE c w !! b = filter (fun x => x <> c) <$> w !! b.
Proof. unfold LIST_REMOVE. by rewrite list_lookup_fmap. Qed.

Lemma insert_lookup size t c w b :
  LIST_INSERT_HEAD (Z.land t (size - 1)) c w !! b =
  if decide (bucket_of size t = b) then cons c <$> w !! b else w !! b.
Proof.
  unfold LIST_INSERT_HEAD, bucket_of. rewrite list_lookup_alter.
  by repeat case_decide; simplify_eq.
Qed.

Lemma wheel_ok_same size m w c co co' :
  wheel_ok size m w -> m !! c = Some co ->
  pending co' = pending co -> c_time co' = c_time co -> callout_ok co' ->
  wheel_ok size (<[c := co']> m) w.
Proof.
  intros [Hs Hl Hm Hp Hn Hc] Hco Hpd Ht Hok. split; try done.
  - intros b l x Hb Hx. destruct (Hm b l x Hb Hx) as (cx & ? & ? & ?).
    destruct (decide (c = x)) as [->|]; simplify_map_eq; [|naive_solver].
    exists co'. rewrite Hpd, Ht. naive_solver.
  - intros x cx. destruct (decide (c = x)) as [->|]; intros; simplify_map_eq; [|eauto].
    rewrite Ht. apply Hp; [done|congruence].
  - intros x cx. destruct (decide (c = x)) as [->|]; intros; simplify_map_eq; eauto.
Qed.

Lemma wheel_ok_remove size m w c co' :
  wheel_ok size m w -> pending co' = false -> callout_ok co' ->
  wheel_ok size (<[c := co']> m) (LIST_REMOVE c w).
Proof.
  intros [Hs Hl Hm Hp Hn Hc] Hpd Hok. split; try done.
  - unfold LIST_REMOVE. by rewrite length_fmap.
  - intros b l x. rewrite remove_lookup. intros (l0 & Hb & ->)%fmap_Some Hx.
    apply list_elem_of_filter in Hx as [Hne Hx]. rewrite lookup_insert_ne by done. eauto.
  - intros x cx. destruct (decide (c = x)) as [->|]; intros; simplify_map_eq; [congruence|].
    rewrite remove_lookup. edestruct Hp as (l & -> & Hx); [done..|].
    eexists. split; [done|]. apply list_elem_of_filter. naive_solver.
  - intros b l. rewrite remove_lookup. intros (l0 & Hb & ->)%fmap_Some.
    apply NoDup_filter. eauto.
  - intros x cx. destruct (decide (c = x)) as [->|]; intros; simplify_map_eq; eauto.
Qed.

Lemma wheel_ok_insert size m w c co' :
  wheel_ok size m w ->
  (forall co, m !! c = Some co -> pending co = false) ->
  pending co' = true -> callout_ok co' ->
  wheel_ok size (<[c := co']> m) (LIST_INSERT_HEAD (Z.land (c_time co') (size - 1)) c w).
Proof.
  intros W Hnp Hpd Hok. pose proof W as [Hs Hl Hm Hp Hn Hc].
  assert (forall b l, w !! b = Some l -> c ∉ l) as Hnot.
  { intros b l Hb Hin. destruct (Hm b l c Hb Hin) as (co & E & ? & _).
    rewrite (Hnp co E) in *. done. }
  split; try done.
  - unfold LIST_INSERT_HEAD. by rewrite length_alter.
  - intros b l x. rewrite insert_lookup. case_decide as Hb.
    + intros (l0 & Hb' & ->)%fmap_Some [->|Hx]%elem_of_cons; [simplify_map_eq; eauto|].
      rewrite lookup_insert_ne by (intros ->; by apply (Hnot _ _ Hb')). eauto.
    + intros Hb' Hx. rewrite lookup_insert_ne by (intros ->; by apply (Hnot _ _ Hb')). eauto.
  - intros x cx. destruct (decide (c = x)) as [->|]; intros; simplify_map_eq.
    + destruct (bucket_exists _ _ _ (c_time cx) W) as [l Hb].
      exists (x :: l). rewrite insert_lookup, decide_True, Hb by done. split; [done|set_solver].
    + edestruct Hp as (l & Hb & Hx); [done..|]. rewrite insert_lookup.
      case_decide; rewrite Hb; simpl; eexists; (split; [done|]); set_solver.
  - intros b l. rewrite insert_lookup. case_decide; [|eauto].
    intros (l0 & Hb & ->)%fmap_Some. constructor; eauto.
  - intros x cx. destruct (decide (c = x)) as [->|]; intros; simplify_map_eq; eauto.
Qed.

(** ** The invariant of the thread's state *)

Record state_inv (s : state) : Prop := {
  si_wheel : wheel_ok (callwheelsize s) (callouts s) (cc_callwheel s);
  si_next : forall c, cc_next s = Some c -> callout_pending s c = true;
  si_exec : forall d, cc_drain (exec_get s d) = None /\ cc_waiting (exec_get s d) = false;
  si_inited : cc_inited s = true;
  si_cpu : timeout_cpu s < MAXCPU
}.

(** [cur] is one of the at most 2^31 ticks the wheel is behind [ticks]. *)
Definition in_window (s : state) (cur : Z) : Prop :=
  -2147483648 <= cur < 2147483648 /\ 1 <= u32 (ticks s - cur) <= 2147483648.

(** The cursor [n] of a scan of the bucket of [cur] is in the bucket, and no
    callout before it is due. *)
Definition scan_ok (cur : Z) (s : state) (n : option Z) : Prop :=
  exists l, cc_callwheel s !! bucket_of (callwheelsize s) cur = Some l /\
    (forall m, n = Some m -> m ∈ l) /\
    (forall x co, x ∈ before n l -> callouts s !! x = Some co -> c_time co <> cur).

(** What an operation of the interface leaves alone; a callout pending after
    it was pending before, for the same tick, or was scheduled for a tick in
    the future. *)
Record frame (s s' : state) : Prop := {
  fr_ticks : ticks s' = ticks s;
  fr_soft : cc_softticks s' = cc_softticks s;
  fr_size : callwheelsize s' = callwheelsize s;
  fr_bucket : cc_bucket s' = cc_bucket s;
  fr_fired : fired s' = fired s;
  fr_dom : forall c, is_Some (callouts s !! c) -> is_Some (callouts s' !! c);
  fr_pend : forall c co', callouts s' !! c = Some co' -> pending co' = true ->
    (exists co, callouts s !! c = Some co /\ pending co = true /\ c_time co = c_time co') \/
    (exists to, 1 <= to < 2147483648 /\ c_time co' = s32 (ticks s + to));
  fr_scan : forall cur, in_window s cur -> cc_bucket s = Z.land cur (callwheelsize s - 1) ->
    scan_ok cur s (cc_next s) -> scan_ok cur s' (cc_next s')
}.

Lemma frame_refl s : frame s s.
Proof. split; eauto. Qed.

Lemma frame_trans s1 s2 s3 : frame s1 s2 -> frame s2 s3 -> frame s1 s3.
Proof.
  intros [A1 A2 A3 A4 A5 A6 A7 A8] [B1 B2 B3 B4 B5 B6 B7 B8]. split; try congruence; auto.
  - intros c co' H1 H2. destruct (B7 c co' H1 H2) as [(co & ? & ? & Ht)|(to & ? & Ht)].
    + destruct (A7 c co ltac:(done) ltac:(done)) as [(co0 & ? & ? & ?)|(to & ? & ?)];
        rewrite <- Ht; eauto.
    + right. exists to. by rewrite <- A1.
  - intros cur Hw Hb Hs. apply B8; [|congruence|by apply A8].
    unfold in_window in *. by rewrite A1.
Qed.

Definition good (s s' : state) : Prop := state_inv s' /\ frame s s'.

Lemma good_trans s1 s2 s3 : good s1 s2 -> good s2 s3 -> good s1 s3.
Proof. intros [] []. split; [done|]. by eapply frame_trans. Qed.

(** Changing the flags of a callout, but not whether it is pending. *)
Lemma good_same s c co co' :
  state_inv s -> callouts s !! c = Some co ->
  pending co' = pending co -> c_time co' = c_time co -> callout_ok co' ->
  good s (with_callouts s (<[c := co']> (callouts s))).
Proof.
  intros [W N E I C] Hco Hp Ht Hok. split.
  - split; simpl; try done; [by eapply wheel_ok_same|].
    intros x Hx. specialize (N x Hx). unfold callout_pending in *; simpl.
    destruct (decide (c = x)) as [->|]; simplify_map_eq; congruence.
  - split; simpl; try done.
    + intros x. destruct (decide (c = x)) as [->|]; simplify_map_eq; eauto.
    + intros x cx. destruct (decide (c = x)) as [->|]; intros; simplify_map_eq; [|by eauto].
      left. exists co. split_and!; congruence.
    + intros cur _ _ (l & H1 & H2 & H3). exists l. split_and!; [done..|]. simpl.
      intros x cx Hx. destruct (decide (c = x)) as [->|]; intros; simplify_map_eq; [|by eauto].
      rewrite Ht. eauto.
Qed.

Lemma good_exec s d e :
  state_inv s -> cc_drain e = None -> cc_waiting e = false -> good s (exec_set s d e).
Proof.
  intros [W N E I C] H1 H2. split; [|split; simpl; try done; by eauto].
  split; try done. intros d'. unfold exec_get, exec_set; simpl.
  pose proof (E true). pose proof (E false). by destruct d, d'; simpl.
Qed.

(** Taking a pending callout off the wheel. *)
Lemma good_unlink s c co co' ifl :
  state_inv s -> callouts s !! c = Some co -> pending co = true ->
  pending co' = false -> callout_ok co' -> flag_is_set ifl CALLOUT_PROCESSED = false ->
  good s (with_callouts (callout_unlink s c ifl) (<[c := co']> (callouts s))).
Proof.
  intros [W N E I C] Hco Hp Hp' Hok Hpr.
  destruct (wo_pend _ _ _ W _ _ Hco Hp) as (l & Hl & Hcl).
  pose proof (wo_nodup _ _ _ W _ _ Hl) as Hnd.
  pose proof (list_next_eq _ _ _ _ _ _ W Hl Hcl) as Hnext.
  unfold callout_unlink. rewrite Hpr. simpl negb. cbv iota.
  split; [split|split]; simpl; try (by case_decide).
  - case_decide; simpl; by apply wheel_ok_remove.
  - intros x Hx.
    assert (x <> c /\ callout_pending s x = true) as [Hne Hpx].
    { case_decide; simpl in Hx; [|split; [congruence|by auto]].
      rewrite Hnext in Hx. split; [by eapply next_in_ne|].
      destruct (wo_mem _ _ _ W _ _ _ Hl (next_in_elem _ _ _ Hx)) as (cx & Hcx & ? & _).
      unfold callout_pending. by rewrite Hcx. }
    unfold callout_pending in *; simpl. by rewrite lookup_insert_ne.
  - intros x. destruct (decide (c = x)) as [->|]; simplify_map_eq; eauto.
  - intros x cx. destruct (decide (c = x)) as [->|]; intros; simplify_map_eq; [congruence|].
    eauto.
  - intros cur _ _ (lb & H1 & H2 & H3).
    exists (filter (fun x => x <> c) lb). case_decide as Hn; simpl.
    + assert (c ∈ lb) as Hclb by auto.
      rewrite (list_next_eq _ _ _ _ _ _ W H1 Hclb). rewrite remove_lookup, H1.
      split_and!; [done| |].
      * intros m Hm. apply list_elem_of_filter. split.
        -- eapply next_in_ne; [|done]. by eapply (wo_nodup _ _ _ W).
        -- by eapply next_in_elem.
      * intros x cx. rewrite before_next by (try done; by eapply (wo_nodup _ _ _ W)).
        intros Hx. rewrite Hn in H3. destruct (decide (c = x)) as [<-|]; simplify_map_eq; [|eauto].
        by apply before_elem in Hx as [_ Hx].
    + rewrite remove_lookup, H1. split_and!; [done| |].
      * intros m Hm. apply list_elem_of_filter. split; [congruence|auto].
      * intros x cx Hx. pose proof (before_filter _ _ _ _ Hn Hx) as Hx'.
        destruct (decide (c = x)) as [<-|]; simplify_map_eq; [|eauto].
        apply before_elem in Hx as [Hx _]. by apply list_elem_of_filter in Hx as [].
Qed.

(** Putting a callout that is not pending on the wheel. *)
Lemma good_add s c co to func arg cpu flags :
  state_inv s -> callouts s !! c = Some co -> pending co = false -> callout_ok co ->
  1 <= to < 2147483648 ->
  good s (callout_cc_add s c co to func arg cpu flags).
Proof.
  intros [W N E I C] Hco Hp [O1 O2 O3 O4 O5] Hto.
  set (co' := mk_callout (s32 (ticks s + to)) arg func (c_lock co)
     (flag_set (c_flags co) CALLOUT_ACTIVE)
     (if flag_is_set flags C_DIRECT_EXEC
      then flag_set (flag_clr (flag_set (c_iflags co) CALLOUT_PENDING) CALLOUT_PROCESSED)
             CALLOUT_DIRECT
      else flag_clr (flag_set (c_iflags co) CALLOUT_PENDING) CALLOUT_PROCESSED) (c_cpu co)).
  assert (pending co' = true) as Hp'.
  { unfold pending, co'; simpl. destruct (flag_is_set flags C_DIRECT_EXEC); by simpl_flags. }
  assert (callout_ok co') as Hok.
  { split; simpl; [..|pose proof (wraps_range 32 (ticks s + to) eq_refl) as Hr; simpl in Hr; lia|done].
    - destruct (flag_is_set flags C_DIRECT_EXEC); by simpl_flags.
    - unfold callout_migrating in *; simpl. destruct (flag_is_set flags C_DIRECT_EXEC); by simpl_flags.
    - unfold runnable in *. destruct (c_lock co); [done|].
      destruct (flag_is_set flags C_DIRECT_EXEC); by simpl_flags. }
  assert (forall x, callout_pending s x = true ->
    callout_pending (with_callouts s (<[c := co']> (callouts s))) x = true) as Hpx.
  { intros x. unfold callout_pending; simpl.
    destruct (decide (c = x)) as [->|]; by simplify_map_eq. }
  unfold callout_cc_add; fold co'; cbv zeta. unfold callout_get_bucket, callwheelmask.
  change (s32 (ticks s + to)) with (c_time co').
  split; [split|split]; simpl; try (by case_match).
  - assert (forall co0, callouts s !! c = Some co0 -> pending co0 = false) by naive_solver.
    case_match; simpl; by apply wheel_ok_insert.
  - intros x Hx. assert (x = c \/ cc_next s = Some x) as [->|Hn].
    { case_match; simpl in Hx; naive_solver. }
    + unfold callout_pending. case_match; simpl; by simplify_map_eq.
    + specialize (Hpx x (N x Hn)). unfold callout_pending in *. by case_match.
  - intros x. case_match; simpl; destruct (decide (c = x)) as [->|]; simplify_map_eq; eauto.
  - intros x cx Hx. assert (<[c := co']> (callouts s) !! x = Some cx) as Hx'
      by (by case_match). clear Hx.
    destruct (decide (c = x)) as [->|]; intros; simplify_map_eq; [|by eauto]. eauto.
  - intros cur [Hr Hw] Hb (l & H1 & H2 & H3).
    assert (c_time co' <> cur) as Hne by (simpl; wrap_lia).
    rewrite Hb. case_match eqn:Eb; unfold scan_ok; simpl.
    + apply Z.eqb_eq in Eb.
      exists (c :: l). rewrite <- Eb. rewrite (insert_lookup _ cur), decide_True, H1 by done.
      split_and!; [done|set_solver|]. simpl. rewrite decide_True by done. set_solver.
    + apply Z.eqb_neq in Eb. exists l.
      rewrite insert_lookup, decide_False; [split_and!; [done..|]|].
      * intros x cx Hx. destruct (decide (c = x)) as [->|]; intros; simplify_map_eq; eauto.
      * intros Eq%bucket_inj; [congruence|apply W].
Qed.

(** ** The operations *)

Definition int_range (z : Z) : Prop := -2147483648 <= z < 2147483648.

Lemma callout_ok_clear co :
  callout_ok co ->
  callout_ok (set_flags co (flag_clr (c_flags co) CALLOUT_ACTIVE)
                (flag_clr (c_iflags co) CALLOUT_PENDING)).
Proof.
  intros [O1 O2 O3 O4 O5]. split; simpl; try done.
  - by simpl_flags.
  - unfold callout_migrating in *; simpl. by simpl_flags.
  - unfold runnable in *. destruct (c_lock co); [done|]. by simpl_flags.
Qed.

Lemma callout_cc_add_insert s c co co0 to func arg cpu flags :
  callout_cc_add (with_callouts s (<[c := co0]> (callouts s))) c co to func arg cpu flags =
  callout_cc_add s c co to func arg cpu flags.
Proof. unfold callout_cc_add; simpl. by rewrite insert_insert_eq. Qed.

Definition clear_flags (co : callout) : callout :=
  if pending co
  then set_flags co (flag_clr (c_flags co) CALLOUT_ACTIVE) (flag_clr (c_iflags co) CALLOUT_PENDING)
  else co.

(** [callout_reset_tick_on] schedules the callout [max 1 to_ticks] ticks
    ahead and reports whether it was pending. *)
Lemma reset_spec s c co to ftn arg cpu flags :
  state_inv s -> callouts s !! c = Some co -> int_range to -> cpu < MAXCPU ->
  exists r s', callout_reset_tick_on s c to ftn arg cpu flags = Ok (r, s') /\ good s s' /\
    (pending co = true -> r = 1) /\
    (pending co = false ->
       cc_curr (exec_get s (flag_is_set flags C_DIRECT_EXEC)) <> Some c -> r = 0) /\
    exists co', callouts s' !! c = Some co' /\ pending co' = true /\ active co' = true /\
      c_time co' = s32 (ticks s + Z.max 1 to) /\ c_func co' = ftn /\ c_arg co' = arg.
Proof.
  intros Hi Hco Hto Hcpu. unfold callout_reset_tick_on, callout_lock.
  rewrite (si_inited _ Hi), Hco. simpl res_bind.
  rewrite (proj2 (Z.leb_gt MAXCPU cpu)) by done. rewrite andb_false_r. cbv zeta.
  set (d := flag_is_set flags C_DIRECT_EXEC).
  destruct (si_exec _ Hi d) as [Hd Hw]. rewrite Hw, andb_false_r.
  set (cancels := bool_decide (cc_curr (exec_get s d) = Some c) &&
     bool_decide (c_lock co <> None) && negb (cc_cancel (exec_get s d))).
  set (s1 := if cancels then _ else s).
  assert (good s s1 /\ callouts s1 = callouts s) as [Hg1 Hc1].
  { unfold s1. destruct cancels; [|by split; [split; [done|apply frame_refl]|]].
    split; [|done]. by apply good_exec. }
  pose proof (proj1 Hg1) as Hi1.
  set (s2 := if pending co then callout_unlink s1 c (c_iflags co) else s1).
  assert (good s1 (with_callouts s2 (<[c := clear_flags co]> (callouts s2)))) as Hg2.
  { pose proof (wo_callouts _ _ _ (si_wheel _ Hi) _ _ Hco) as Hok.
    unfold s2, clear_flags. destruct (pending co) eqn:Ep.
    - assert (callouts (callout_unlink s1 c (c_iflags co)) = callouts s1) as ->.
      { unfold callout_unlink. repeat case_match; done. }
      eapply good_unlink; [done|by rewrite Hc1|done| |by apply callout_ok_clear|apply Hok].
      unfold pending; simpl. by simpl_flags.
    - eapply good_same; try done. by rewrite Hc1. }
  assert (pending (clear_flags co) = false /\ callout_ok (clear_flags co)) as [Hpc Hokc].
  { pose proof (wo_callouts _ _ _ (si_wheel _ Hi) _ _ Hco) as Hok.
    unfold clear_flags. destruct (pending co) eqn:Ep; [|done].
    split; [unfold pending; simpl; by simpl_flags|by apply callout_ok_clear]. }
  fold (clear_flags co).
  replace (if to <=? 0 then 1 else to) with (Z.max 1 to) by (destruct (Z.leb_spec to 0); lia).
  set (cpu' := if (_ || _) then _ else _).
  assert (good (with_callouts s2 (<[c := clear_flags co]> (callouts s2)))
    (callout_cc_add s2 c (clear_flags co) (Z.max 1 to) ftn arg cpu' flags)) as Hg3.
  { rewrite <- (callout_cc_add_insert s2 c (clear_flags co) (clear_flags co)).
    apply good_add; [apply Hg2|by simpl; simplify_map_eq|done|done|].
    unfold int_range in Hto. lia. }
  eexists _, _. split; [done|]. split; [exact (good_trans _ _ _ Hg1 (good_trans _ _ _ Hg2 Hg3))|].
  split; [by intros ->|]. split.
  { intros -> Hcur. unfold cancels. by rewrite bool_decide_eq_false_2. }
  pose proof (fr_ticks _ _ (proj2 Hg1)) as Ht1. pose proof (fr_ticks _ _ (proj2 Hg2)) as Ht2.
  simpl in Ht2. rewrite <- Ht1, <- Ht2.
  unfold callout_cc_add. cbv zeta. eexists. split.
  { case_match; simpl; by simplify_map_eq. }
  unfold pending, active; simpl. split_and!; try done.
  - destruct (flag_is_set flags C_DIRECT_EXEC); by simpl_flags.
  - by simpl_flags.
Qed.

Lemma callout_ok_flags co fl ifl :
  callout_ok co -> ifl = c_iflags co \/ ifl = flag_clr (c_iflags co) CALLOUT_DFRMIGRATION ->
  callout_ok (set_flags co fl ifl) /\ pending (set_flags co fl ifl) = pending co.
Proof.
  intros [O1 O2 O3 O4 O5] [->| ->]; (split; [split|]); simpl; try done.
  - by simpl_flags.
  - unfold callout_migrating; simpl. by simpl_flags.
  - unfold runnable in *. destruct (c_lock co); [done|]. by simpl_flags.
  - unfold pending; simpl. by simpl_flags.
Qed.

Definition direct_of (co : callout) : bool := flag_is_set (c_iflags co) CALLOUT_DIRECT.

Definition running (s : state) (c : Z) (co : callout) : Prop :=
  cc_curr (exec_get s (direct_of co)) = Some c.

Lemma with_callouts_id s c co :
  callouts s !! c = Some co -> with_callouts s (<[c := co]> (callouts s)) = s.
Proof. intros H. unfold with_callouts. rewrite insert_id by done. by destruct s. Qed.

Lemma stop_finish_spec s c co d r :
  state_inv s -> callouts s !! c = Some co ->
  exists s', stop_finish s c co d false r =
      Ok (if pending co then r
          else if bool_decide (cc_curr (exec_get s d) <> Some c) then -1 else r, s') /\
    good s s' /\ exists co', callouts s' !! c = Some co' /\ pending co' = false.
Proof.
  intros Hi Hco. pose proof (wo_callouts _ _ _ (si_wheel _ Hi) _ _ Hco) as Hok.
  unfold stop_finish. destruct (pending co) eqn:Ep; simpl.
  - eexists. split; [done|]. unfold callout_cc_del.
    replace (flag_is_set _ CALLOUT_LOCAL_ALLOC) with false
      by (unfold flag_is_set, CALLOUT_LOCAL_ALLOC; by rewrite Z.land_0_r).
    simpl. set (co' := set_flags co _ _). set (ifl := flag_clr _ _).
    assert (callout_unlink (with_callouts s (<[c:=co']> (callouts s))) c ifl =
      with_callouts (callout_unlink s c ifl) (<[c:=co']> (callouts s))) as ->
      by (unfold callout_unlink; repeat (case_match; simpl; try done)).
    assert (pending co' = false) as Hp by (unfold pending; simpl; by simpl_flags).
    split; [|exists co'; by simplify_map_eq/=].
    eapply good_unlink; try done; [by apply callout_ok_clear|].
    unfold ifl. simpl_flags. apply Hok.
  - eexists. split; [done|]. split; [split; [done|apply frame_refl]|]. eauto.
Qed.

(** [callout_stop] and [callout_drain], except the drain of a callout whose
    callback is running. *)
Lemma stop_spec s c co flags :
  state_inv s -> callouts s !! c = Some co ->
  (flag_is_set flags CS_DRAIN = true -> ~ running s c co) ->
  exists r s', (forall fuel, callout_stop_safe fuel s c flags = Ok (r, s')) /\ good s s' /\
    (~ running s c co ->
       r = (if pending co then 1 else -1) /\
       exists co', callouts s' !! c = Some co' /\ pending co' = false).
Proof.
  intros Hi Hco Hdrain. unfold callout_stop_safe, ff_callout_stop_safe, callout_lock.
  rewrite Hco. simpl res_bind.
  pose proof (wo_callouts _ _ _ (si_wheel _ Hi) _ _ Hco) as Hok.
  assert (exists u, (match c_lock co with
     | Some k => if flag_is_set flags CS_DRAIN then Ok false
                 else if has_lc_assert k then Ok true else Panic
     | None => Ok false end) = Ok u) as [use_lock ->].
  { pose proof (co_runnable _ Hok) as Hr. unfold runnable in Hr.
    destruct (c_lock co) as [k|], (flag_is_set flags CS_DRAIN); eauto.
    destruct k; eauto; discriminate. }
  simpl res_bind. rewrite (co_migrating _ Hok). cbn [andb]. cbv zeta iota.
  rewrite (with_callouts_id s c co Hco), !(insert_id (callouts s) c co Hco). fold (direct_of co). unfold running in *.
  case_bool_decide as Hrun; cycle 1.
  { destruct (stop_finish_spec s c co (direct_of co) 1 Hi Hco) as (s' & E & Hg & Hx).
    rewrite bool_decide_eq_true_2 in E by done. eauto 10. }
  destruct (flag_is_set flags CS_DRAIN) eqn:Ed; [by exfalso; apply Hdrain|].
  destruct (callout_ok_flags co (flag_clr (c_flags co) CALLOUT_ACTIVE) (c_iflags co) Hok
    ltac:(by left)) as [Hok1 Hp1].
  pose proof (good_same s c co _ Hi Hco Hp1 eq_refl Hok1) as Hg1.
  set (co1 := set_flags co (flag_clr (c_flags co) CALLOUT_ACTIVE) (c_iflags co)) in *.
  set (s1 := with_callouts s (<[c:=co1]> (callouts s))) in *.
  assert (callouts s1 !! c = Some co1) as Hco1 by by simplify_map_eq/=.
  destruct (use_lock && negb (cc_cancel (exec_get s (direct_of co))) && _) eqn:El.
  - eexists _, _. split; [done|]. split; [|done].
    eapply good_trans; [apply Hg1|].
    set (ex := mk_cc_exec _ _ true _).
    assert (good s1 (exec_set s1 (direct_of co) ex)) as Hg2
      by (apply good_exec; [apply Hg1|apply Hi..]).
    eapply good_trans; [apply Hg2|].
    destruct (callout_ok_flags co1 (c_flags co1) (flag_clr (c_iflags co) CALLOUT_DFRMIGRATION)
      Hok1 ltac:(by right)) as [Hok2 Hp2].
    exact (good_same _ c co1 _ (proj1 Hg2) Hco1 Hp2 eq_refl Hok2).
  - rewrite (co_migrating _ Hok1).
    destruct (stop_finish_spec s1 c co1 (direct_of co)
      (if flag_is_set flags CS_EXECUTING then 1 else 0) (proj1 Hg1) Hco1) as (s' & E & Hg & Hx).
    eexists _, s'. split; [intros _; exact E|]. split; [by eapply good_trans|done].
Qed.

(** Initialising a callout that is not pending. *)
Lemma good_init s c co' :
  state_inv s -> callout_pending s c = false -> pending co' = false -> callout_ok co' ->
  good s (with_callouts s (<[c := co']> (callouts s))).
Proof.
  intros [W N E I C] Hnp Hp' Hok.
  assert (forall b l, cc_callwheel s !! b = Some l -> c ∉ l) as Hnot.
  { intros b l Hb Hin. destruct (wo_mem _ _ _ W b l c Hb Hin) as (co & Hco & Hp & _).
    unfold callout_pending in Hnp. rewrite Hco in Hnp. congruence. }
  assert (LIST_REMOVE c (cc_callwheel s) = cc_callwheel s) as Hrm.
  { apply list_eq. intros b. rewrite remove_lookup.
    destruct (cc_callwheel s !! b) eqn:Eb; simpl; [|done]. f_equal. apply filter_ne_id. eauto. }
  split; [split; simpl; try done|split; simpl; try done].
  - pose proof (wheel_ok_remove _ _ _ c co' W Hp' Hok) as Hw. by rewrite Hrm in Hw.
  - intros x Hx. specialize (N x Hx). unfold callout_pending in *; simpl.
    destruct (decide (c = x)) as [->|]; simplify_map_eq; congruence.
  - intros x. destruct (decide (c = x)) as [->|]; simplify_map_eq; eauto.
  - intros x cx. destruct (decide (c = x)) as [->|]; intros; simplify_map_eq; [congruence|eauto].
  - intros cur _ _ (l & H1 & H2 & H3). exists l. split_and!; [done..|]. simpl.
    intros x cx Hx. rewrite lookup_insert_ne; [eauto|]. intros ->.
    apply before_elem in Hx as [Hx _]. by eapply Hnot.
Qed.

(** The contract of a call made by a callback: the callout exists, the
    arguments are in the range of their C type, a callout is initialised with
    a usable lock and only when it is not pending, and a callback does not
    drain the callout it is running for. *)
Definition act_pre (s : state) (a : act) : Prop :=
  match a with
  | AReset c to ftn arg cpu flags =>
      is_Some (callouts s !! c) /\ int_range to /\ cpu < MAXCPU
  | ASchedule c to => is_Some (callouts s !! c) /\ int_range to
  | AScheduleOn c to cpu => is_Some (callouts s !! c) /\ int_range to /\ cpu < MAXCPU
  | AStop c flags =>
      exists co, callouts s !! c = Some co /\
        (flag_is_set flags CS_DRAIN = true -> ~ running s c co)
  | ADeactivate c => is_Some (callouts s !! c)
  | AInit c mpsafe => callout_pending s c = false
  | AInitLock c lock flags =>
      callout_pending s c = false /\
      runnable lock (Z.land flags (Z.lor CALLOUT_RETURNUNLOCKED CALLOUT_SHAREDLOCK))
  end.

Lemma masked_flags flags f :
  Z.land (Z.lor CALLOUT_RETURNUNLOCKED CALLOUT_SHAREDLOCK) f = 0 ->
  flag_is_set (Z.land flags (Z.lor CALLOUT_RETURNUNLOCKED CALLOUT_SHAREDLOCK)) f = false.
Proof.
  intros H. unfold flag_is_set. rewrite <- Z.land_assoc, H, Z.land_0_r. done.
Qed.

Lemma run_act_spec s a :
  state_inv s -> act_pre s a ->
  exists r s', (forall fuel, run_act fuel s a = Ok (r, s')) /\ good s s'.
Proof.
  intros Hi. destruct a as [c to ftn arg cpu flags|c to|c to cpu|c flags|c|c mp|c lock flags]; simpl.
  - intros ([co Hco] & Hto & Hcpu).
    destruct (reset_spec s c co to ftn arg cpu flags Hi Hco Hto Hcpu) as (r & s' & E & Hg & _).
    eauto.
  - intros ([co Hco] & Hto). pose proof (wo_callouts _ _ _ (si_wheel _ Hi) _ _ Hco) as Hok.
    unfold callout_schedule, callout_lock. rewrite Hco. simpl res_bind.
    destruct (reset_spec s c co to (c_func co) (c_arg co) (c_cpu co) C_HARDCLOCK Hi Hco Hto
      (co_cpu _ Hok)) as (r & s' & E & Hg & _). eauto.
  - intros ([co Hco] & Hto & Hcpu).
    unfold callout_schedule_on, callout_lock. rewrite Hco. simpl res_bind.
    destruct (reset_spec s c co to (c_func co) (c_arg co) cpu C_HARDCLOCK Hi Hco Hto Hcpu)
      as (r & s' & E & Hg & _). eauto.
  - intros (co & Hco & Hd).
    destruct (stop_spec s c co flags Hi Hco Hd) as (r & s' & E & Hg & _). eauto.
  - intros [co Hco]. unfold callout_deactivate, callout_lock. rewrite Hco. simpl.
    eexists _, _. split; [done|].
    destruct (callout_ok_flags co (flag_clr (c_flags co) CALLOUT_ACTIVE) (c_iflags co)
      (wo_callouts _ _ _ (si_wheel _ Hi) _ _ Hco) ltac:(by left)) as [Hok Hp].
    by apply (good_same _ c co).
  - intros Hp. unfold callout_init. rewrite Hp. simpl. eexists _, _. split; [done|].
    pose proof (si_cpu _ Hi). apply good_init; [done..| |]; destruct mp; try reflexivity; split; simpl;
      reflexivity || lia.
  - intros [Hp Hr]. unfold callout_init_lock. rewrite Hp. simpl. eexists _, _. split; [done|].
    pose proof (si_cpu _ Hi).
    apply good_init; [done..|by apply masked_flags|split; simpl; try done; try lia].
    + by apply masked_flags.
    + by apply masked_flags.
Qed.

(** A program every call of which meets its contract. *)
Fixpoint prog_safe (s : state) (p : prog) : Prop :=
  match p with
  | PDone => True
  | PDo a k => act_pre s a /\
      forall r s', run_act 0 s a = Ok (r, s') -> prog_safe s' (k r)
  end.

Lemma run_prog_spec p : forall s,
  state_inv s -> prog_safe s p ->
  exists s', (forall fuel, run_prog fuel s p = Ok s') /\ good s s'.
Proof.
  induction p as [|a k IH]; intros s Hi Hs; simpl in *.
  - exists s. split; [done|]. split; [done|apply frame_refl].
  - destruct Hs as [Ha Hk]. destruct (run_act_spec s a Hi Ha) as (r & s1 & E1 & Hg1).
    destruct (IH r s1 (proj1 Hg1) (Hk r s1 (E1 0%nat))) as (s2 & E2 & Hg2).
    exists s2. split; [|by eapply good_trans]. intros fuel. rewrite E1. apply E2.
Qed.

(** ** Callouts an operation does not name *)

Definition act_target (a : act) : Z :=
  match a with
  | AReset c _ _ _ _ _ | ASchedule c _ | AScheduleOn c _ _ | AStop c _ | ADeactivate c
  | AInit c _ | AInitLock c _ _ => c
  end.

Fixpoint prog_avoids (x : Z) (p : prog) : Prop :=
  match p with
  | PDone => True
  | PDo a k => act_target a <> x /\ forall r, prog_avoids x (k r)
  end.

Lemma callouts_unlink s c ifl : callouts (callout_unlink s c ifl) = callouts s.
Proof. unfold callout_unlink. by repeat case_match. Qed.

Lemma callouts_exec s d e : callouts (exec_set s d e) = callouts s.
Proof. done. Qed.

Lemma callouts_add s c co to func arg cpu flags x :
  c <> x -> callouts (callout_cc_add s c co to func arg cpu flags) !! x = callouts s !! x.
Proof. intros. unfold callout_cc_add. case_match; simpl; by rewrite lookup_insert_ne. Qed.

Lemma callouts_drain fuel : forall s c d q s',
  drain_loop fuel s c d q = Ok s' -> callouts s' = callouts s.
Proof.
  induction fuel as [|fuel IH]; intros s c d q s'; simpl; [done|].
  repeat case_match; intros R; [apply IH in R; by rewrite R|by apply IH in R|by injection R as <-].
Qed.

Lemma reset_avoids s c to ftn arg cpu flags r s' x :
  callout_reset_tick_on s c to ftn arg cpu flags = Ok (r, s') -> c <> x ->
  callouts s' !! x = callouts s !! x.
Proof.
  unfold callout_reset_tick_on. case_match; [done|]. intros R Hx. res_inv R.
  case_match; injection R as <- <-.
  - by case_match.
  - rewrite callouts_add by done. repeat (case_match; rewrite ?callouts_unlink); done.
Qed.

Lemma stop_finish_avoids s c co d b z r s' x :
  stop_finish s c co d b z = Ok (r, s') -> c <> x -> callouts s' !! x = callouts s !! x.
Proof.
  unfold stop_finish. case_match; intros R Hx; injection R as <- <-; [done|].
  unfold callout_cc_del. case_match; simpl; rewrite ?lookup_insert_ne by done;
    destruct b; rewrite ?callouts_unlink; simpl; by rewrite lookup_insert_ne.
Qed.

Lemma stop_avoids fuel s c flags r s' x :
  callout_stop_safe fuel s c flags = Ok (r, s') -> c <> x -> callouts s' !! x = callouts s !! x.
Proof.
  unfold callout_stop_safe, ff_callout_stop_safe. intros R Hx. res_inv R. res_inv R.
  case_match; [|apply stop_finish_avoids with (x := x) in R; [|done];
    rewrite R; simpl; by rewrite lookup_insert_ne].
  case_match.
  - res_inv R. apply callouts_drain in E1. apply stop_finish_avoids with (x := x) in R; [|done].
    rewrite R, E1. simpl. by rewrite !lookup_insert_ne.
  - repeat case_match; first
      [ injection R as <- <-
      | apply stop_finish_avoids with (x := x) in R; [|done]; rewrite R ];
      simpl; by rewrite !lookup_insert_ne.
Qed.

Lemma run_act_avoids fuel s a r s' x :
  run_act fuel s a = Ok (r, s') -> act_target a <> x -> callouts s' !! x = callouts s !! x.
Proof.
  destruct a as [c to ftn arg cpu flags|c to|c to cpu|c flags|c|c mp|c lock flags]; simpl;
    intros R Hx.
  - by eapply reset_avoids.
  - unfold callout_schedule in R. res_inv R. by eapply reset_avoids.
  - unfold callout_schedule_on in R. res_inv R. by eapply reset_avoids.
  - by eapply stop_avoids.
  - res_inv R. injection R as <- <-. unfold callout_deactivate in E. res_inv E.
    injection E as <-. simpl. by rewrite lookup_insert_ne.
  - res_inv R. injection R as <- <-. unfold callout_init in E.
    case_match; [done|]. injection E as <-. simpl. by rewrite lookup_insert_ne.
  - res_inv R. injection R as <- <-. unfold callout_init_lock in E.
    case_match; [done|]. injection E as <-. simpl. by rewrite lookup_insert_ne.
Qed.

Lemma run_prog_avoids fuel p x : forall s s',
  run_prog fuel s p = Ok s' -> prog_avoids x p -> callouts s' !! x = callouts s !! x.
Proof.
  induction p as [|a k IH]; intros s s' R Hp; simpl in *; [by injection R as <-|].
  res_inv R. destruct r as [r s1]. destruct Hp as [Ha Hk].
  rewrite (IH r s1 s' R (Hk r)). by eapply run_act_avoids.
Qed.

(** ** The clock *)

Section Clock.

Context (handler : Z -> Z -> prog) (D : gset Z).

Definition known (s : state) : Prop := forall c, c ∈ D -> is_Some (callouts s !! c).

(** The callbacks, which may name the callouts [D], meet the contract of the
    interface. *)
Hypothesis handlers_ok :
  forall s f a, state_inv s -> known s -> prog_safe s (handler f a).

(** What one invocation of a callback, or a sequence of them, leaves alone. *)
Record clock_frame (s s' : state) (evs : list event) : Prop := {
  cf_ticks : ticks s' = ticks s;
  cf_soft : cc_softticks s' = cc_softticks s;
  cf_size : callwheelsize s' = callwheelsize s;
  cf_fired : fired s' = fired s ++ evs;
  cf_known : known s -> known s';
  cf_pend : forall c co', callouts s' !! c = Some co' -> pending co' = true ->
    (exists co, callouts s !! c = Some co /\ pending co = true /\ c_time co = c_time co') \/
    (exists to, 1 <= to < 2147483648 /\ c_time co' = s32 (ticks s + to))
}.

Lemma clock_frame_refl s : clock_frame s s [].
Proof. split; eauto. by rewrite app_nil_r. Qed.

Lemma clock_frame_trans s1 s2 s3 e1 e2 :
  clock_frame s1 s2 e1 -> clock_frame s2 s3 e2 -> clock_frame s1 s3 (e1 ++ e2).
Proof.
  intros [A1 A2 A3 A4 A5 A6] [B1 B2 B3 B4 B5 B6]. split; try congruence; auto.
  - by rewrite B4, A4, app_assoc.
  - intros c co' H1 H2. destruct (B6 c co' H1 H2) as [(co & ? & ? & Ht)|(to & ? & Ht)].
    + destruct (A6 c co ltac:(done) ltac:(done)) as [(co0 & ? & ? & ?)|(to & ? & ?)];
        rewrite <- Ht; eauto.
    + right. exists to. by rewrite <- A1.
Qed.

Lemma frame_clock s s' : frame s s' -> clock_frame s s' [].
Proof. intros [H1 H2 H3 H4 H5 H6 H7 H8]. split; try done; [by rewrite app_nil_r|]. intros Hk c Hc. auto. Qed.

Lemma softclock_skip_spec s c arg d :
  state_inv s ->
  exists s', (forall fuel, softclock_skip handler fuel s c arg d = Ok s') /\ good s s'.
Proof.
  intros Hi. destruct (si_exec _ Hi d) as [Hd Hw]. unfold softclock_skip. rewrite Hd. simpl.
  set (s' := exec_set s d _). exists s'.
  assert (cc_waiting (exec_get s' d) = false) as ->
    by (unfold exec_get, s'; by destruct d).
  split; [done|]. by apply good_exec.
Qed.

(** The state in which [softclock] calls [softclock_call_cc]: the callout
    found due is unlinked, the cursor is past it. *)
Definition unlinked (s : state) (cur c : Z) : state :=
  let s := with_next s (LIST_NEXT c (cc_callwheel s)) in
  let s := with_bucket s (callout_get_bucket s cur) in
  with_wheel s (LIST_REMOVE c (cc_callwheel s)).

Lemma unlinked_good s c co cur :
  state_inv s -> callouts s !! c = Some co -> pending co = true ->
  in_window s cur -> scan_ok cur s (Some c) ->
  let co' := set_flags co (c_flags co) (flag_clr (c_iflags co) CALLOUT_PENDING) in
  let s' := with_callouts (unlinked s cur c) (<[c := co']> (callouts s)) in
  state_inv s' /\ scan_ok cur s' (cc_next s') /\ clock_frame s s' [].
Proof.
  intros Hi Hco Hp Hw Hs co' s'.
  set (s0 := with_bucket (with_next s (Some c)) (callout_get_bucket s cur)).
  assert (state_inv s0) as Hi0.
  { destruct Hi as [W N E I C]. split; try done. simpl. intros x [= <-].
    unfold callout_pending. simpl. by rewrite Hco. }
  pose proof (wo_callouts _ _ _ (si_wheel _ Hi) _ _ Hco) as Hok.
  assert (callout_ok co' /\ pending co' = false) as [Hok' Hp'].
  { split; [|unfold pending; simpl; by simpl_flags].
    destruct (callout_ok_flags _ (c_flags co) _ (callout_ok_clear _ Hok) ltac:(by left)) as [H _].
    exact H. }
  assert (good s0 s') as [Hi' Hf].
  { pose proof (good_unlink s0 c co co' (c_iflags co) Hi0 Hco Hp Hp' Hok' (co_processed _ Hok)) as Hg.
    unfold callout_unlink in Hg. rewrite (co_processed _ Hok) in Hg. simpl in Hg.
    rewrite decide_True in Hg by done. exact Hg. }
  split_and!; [done|by apply (fr_scan _ _ Hf)|].
  destruct (frame_clock _ _ Hf) as [H1 H2 H3 H4 H5 H6]. by split.
Qed.

Lemma inv_fired s x : state_inv s -> state_inv (with_fired s x).
Proof. intros [W N E I C]. by split. Qed.

Lemma softclock_run_spec s c co d :
  state_inv s -> known s -> callout_ok co ->
  exists s', (forall fuel, softclock_run handler fuel s c co d = Ok s') /\ state_inv s' /\
    clock_frame s s' [mk_event c (c_func co) (c_arg co) (c_time co)] /\
    (forall cur, in_window s cur -> cc_bucket s = Z.land cur (callwheelsize s - 1) ->
       scan_ok cur s (cc_next s) -> scan_ok cur s' (cc_next s')).
Proof.
  intros Hi Hk Hok. unfold softclock_run.
  set (ev := mk_event c (c_func co) (c_arg co) (c_time co)).
  set (s1 := with_fired s (fired s ++ [ev])).
  pose proof (inv_fired s (fired s ++ [ev]) Hi) as Hi1. fold s1 in Hi1.
  destruct (run_prog_spec (handler (c_func co) (c_arg co)) s1 Hi1) as (s2 & E2 & Hg2);
    [by apply handlers_ok|].
  destruct (softclock_skip_spec s2 c (c_arg co) d (proj1 Hg2)) as (s3 & E3 & Hg3).
  destruct (good_trans _ _ _ Hg2 Hg3) as [Hi3 Hf].
  exists s3. split_and!; [|done| |].
  - intros fuel. rewrite E2. simpl. rewrite E3.
    pose proof (co_runnable _ Hok) as Hr. unfold runnable in Hr.
    destruct (flag_is_set (c_iflags co) CALLOUT_RETURNUNLOCKED); [done|].
    destruct (c_lock co); [by rewrite Hr|congruence].
  - destruct (frame_clock _ _ Hf) as [H1 H2 H3 H4 H5 H6]. split; try done.
    by rewrite H4, app_nil_r.
  - intros cur Hw Hb Hs. by apply (fr_scan _ _ Hf).
Qed.

(** [softclock_call_cc] takes the callout's lock and runs the callback: the
    cancellation it checks for cannot have happened. *)
Lemma call_cc_run s c co :
  callouts s !! c = Some co -> callout_ok co ->
  let co' := set_flags co (c_flags co) (flag_clr (c_iflags co) CALLOUT_PENDING) in
  let s1 := with_callouts s (<[c := co']> (callouts s)) in
  state_inv s1 ->
  exists s2, good s1 s2 /\
    forall fuel, softclock_call_cc handler fuel s c true = softclock_run handler fuel s2 c co true.
Proof.
  intros Hco Hok co' s1 Hi. unfold softclock_call_cc, callout_lock. rewrite Hco. simpl res_bind.
  replace (flag_is_set _ CALLOUT_LOCAL_ALLOC) with false
    by (unfold flag_is_set, CALLOUT_LOCAL_ALLOC; by rewrite Z.land_0_r).
  cbv iota zeta. fold co'. fold s1.
  set (ex2 := mk_cc_exec (Some c) None false _).
  assert (good s1 (exec_set s1 true ex2)) as Hg2
    by (apply good_exec; [done..|]; apply (si_exec _ Hi true)).
  pose proof (co_runnable _ Hok) as Hr. unfold runnable in Hr.
  destruct (c_lock co) as [k|]; [|by eauto]. rewrite Hr. simpl negb. cbv iota.
  eexists. split; [|done]. eapply good_trans; [apply Hg2|].
  apply good_exec; [apply Hg2|done|]. apply (si_exec _ (proj1 Hg2) true).
Qed.

Lemma fire_spec s c co cur :
  state_inv s -> known s -> callouts s !! c = Some co -> pending co = true ->
  in_window s cur -> scan_ok cur s (Some c) ->
  exists s', (forall fuel, softclock_call_cc handler fuel (unlinked s cur c) c true = Ok s') /\
    state_inv s' /\ scan_ok cur s' (cc_next s') /\
    clock_frame s s' [mk_event c (c_func co) (c_arg co) (c_time co)] /\
    (forall co', callouts s' !! c = Some co' -> pending co' = true ->
       exists to, 1 <= to < 2147483648 /\ c_time co' = s32 (ticks s + to)).
Proof.
  intros Hi Hk Hco Hp Hw Hs.
  destruct (unlinked_good s c co cur Hi Hco Hp Hw Hs) as (Hi1 & Hs1 & Hf1).
  pose proof (wo_callouts _ _ _ (si_wheel _ Hi) _ _ Hco) as Hok.
  destruct (call_cc_run (unlinked s cur c) c co Hco Hok Hi1) as (s3 & [Hi3 Hg3] & E3).
  set (s1 := with_callouts (unlinked s cur c) _) in *.
  assert (known s3) as Hk3 by (apply (frame_clock _ _ Hg3), Hf1, Hk).
  destruct (softclock_run_spec s3 c co true Hi3 Hk3 Hok) as (s4 & E4 & Hi4 & Hf4 & Hs4).
  pose proof (clock_frame_trans _ _ _ [] _ (frame_clock _ _ Hg3) Hf4) as Hf14.
  exists s4. split_and!; [|done| | |].
  - intros fuel. by rewrite E3, E4.
  - assert (in_window s1 cur) as Hw1 by (unfold in_window; by rewrite (cf_ticks _ _ _ Hf1)).
    apply Hs4; [unfold in_window; by rewrite (fr_ticks _ _ Hg3)| |].
    + by rewrite (fr_bucket _ _ Hg3), (fr_size _ _ Hg3).
    + by apply (fr_scan _ _ Hg3).
  - apply (clock_frame_trans _ _ _ [] _ Hf1 Hf14).
  - intros co4 Hco4 Hp4. destruct (cf_pend _ _ _ Hf14 _ _ Hco4 Hp4) as [(co1 & Hc1 & Hp1 & _)|Hnew].
    + exfalso. simpl in Hc1. simplify_map_eq. unfold pending in Hp1; simpl in Hp1.
      by rewrite flag_clr_same in Hp1.
    + by rewrite (cf_ticks _ _ _ Hf1) in Hnew.
Qed.

(** A callout no callback names is left alone until it is due, and its own
    callback is then invoked once. *)
Definition avoided (x : Z) : Prop := forall f a, prog_avoids x (handler f a).

Definition evs_of (x : Z) (evs : list event) : list event :=
  filter (fun e => ev_callout e = x) evs.

Definition event_of (x : Z) (co : callout) : event :=
  mk_event x (c_func co) (c_arg co) (c_time co).

Definition idle (s : state) (x : Z) : Prop :=
  exists co, callouts s !! x = Some co /\ pending co = false.

Definition track (s s' : state) (evs : list event) : Prop :=
  forall x co, avoided x -> callouts s !! x = Some co ->
    (callouts s' !! x = Some co /\ evs_of x evs = []) \/
    (idle s' x /\ evs_of x evs = if pending co then [event_of x co] else []).

Lemma track_trans s1 s2 s3 e1 e2 :
  track s1 s2 e1 -> track s2 s3 e2 -> track s1 s3 (e1 ++ e2).
Proof.
  intros H1 H2 x co Hx Hco. unfold evs_of. rewrite filter_app.
  change (filter _ e1) with (evs_of x e1). change (filter _ e2) with (evs_of x e2).
  destruct (H1 x co Hx Hco) as [[Hc2 ->]|[(co2 & Hc2 & Hp2) ->]].
  - apply (H2 x co Hx Hc2).
  - right. destruct (H2 x co2 Hx Hc2) as [[Hc3 ->]|[Hi3 ->]]; rewrite ?Hp2, app_nil_r;
      (split; [|done]); [by exists co2|done].
Qed.

Lemma skip_avoids fuel s c arg d s' x :
  softclock_skip handler fuel s c arg d = Ok s' -> avoided x ->
  callouts s' !! x = callouts s !! x.
Proof.
  unfold softclock_skip. intros R Hx. res_inv R.
  assert (callouts s' = callouts r) as ->
    by (destruct (cc_waiting (exec_get r d)); simpl in R; by injection R as <-).
  destruct (cc_drain (exec_get s d)); [|by injection E as <-].
  by apply run_prog_avoids with (x := x) in E.
Qed.

Lemma run_avoids fuel s c co d s' x :
  softclock_run handler fuel s c co d = Ok s' -> avoided x ->
  callouts s' !! x = callouts s !! x.
Proof.
  unfold softclock_run. intros R Hx. res_inv R. apply run_prog_avoids with (x := x) in E; [|done].
  simpl in E. rewrite <- E. repeat case_match; try done; by eapply skip_avoids.
Qed.

Lemma fire_track fuel s c co cur s' :
  callouts s !! c = Some co -> pending co = true ->
  softclock_call_cc handler fuel (unlinked s cur c) c true = Ok s' ->
  track s s' [mk_event c (c_func co) (c_arg co) (c_time co)].
Proof.
  intros Hco Hp R x cx Hx Hcx.
  assert (callouts s' !! x =
    <[c := set_flags co (c_flags co) (flag_clr (c_iflags co) CALLOUT_PENDING)]> (callouts s) !! x)
    as Hs'.
  { revert R. unfold softclock_call_cc, callout_lock. simpl callouts. rewrite Hco. simpl res_bind.
    replace (flag_is_set _ CALLOUT_LOCAL_ALLOC) with false
      by (unfold flag_is_set, CALLOUT_LOCAL_ALLOC; by rewrite Z.land_0_r).
    intros R. destruct (c_lock co); [destruct (negb _); [done|]|]; by eapply run_avoids in R. }
  unfold evs_of. rewrite filter_cons. simpl. destruct (decide (c = x)) as [->|Hne].
  - simplify_eq. right. rewrite Hp. split; [|done]. eexists. rewrite Hs'.
    split; [by simplify_map_eq|]. unfold pending; simpl. by simpl_flags.
  - left. rewrite Hs', lookup_insert_ne by done. done.
Qed.

Lemma track_refl s : track s s [].
Proof. intros x co _ Hco. by left. Qed.

Lemma track_same s s1 s2 evs : callouts s1 = callouts s -> track s s2 evs -> track s1 s2 evs.
Proof. intros E H x co. rewrite E. apply H. Qed.

(** The callouts due at [cur]; a scan never adds to them, and takes one out
    with each callback it invokes. *)
Definition due (s : state) (cur : Z) : gset Z :=
  dom (filter (fun p => pending p.2 = true /\ c_time p.2 = cur) (callouts s)).

Lemma elem_of_due s cur x :
  x ∈ due s cur <-> exists co, callouts s !! x = Some co /\ pending co = true /\ c_time co = cur.
Proof.
  unfold due. rewrite elem_of_dom. split.
  - intros [co [H1 H2]%map_lookup_filter_Some]. eauto.
  - intros (co & H1 & H2). exists co. by apply map_lookup_filter_Some.
Qed.

Lemma future_not_due s cur to :
  in_window s cur -> 1 <= to < 2147483648 -> s32 (ticks s + to) <> cur.
Proof. intros [Hr Hw] Hto. wrap_lia. Qed.

Lemma due_shrinks s s' evs cur :
  in_window s cur -> clock_frame s s' evs -> due s' cur ⊆ due s cur.
Proof.
  intros Hw Hf x. rewrite !elem_of_due. intros (co & H1 & H2 & H3).
  destruct (cf_pend _ _ _ Hf _ _ H1 H2) as [(co0 & ? & ? & ?)|(to & Hto & Ht)].
  - exists co0. naive_solver.
  - rewrite H3 in Ht. symmetry in Ht. by apply future_not_due in Ht.
Qed.

Lemma clock_frame_next s s' evs n :
  clock_frame s s' evs -> clock_frame s (with_next s' n) evs.
Proof. intros [H1 H2 H3 H4 H5 H6]. by split. Qed.

Lemma inv_next_none s : state_inv s -> state_inv (with_next s None).
Proof. intros [W N E I C]. by split. Qed.

(** One bucket: with enough fuel the scan ends, every callback it invoked was
    due at [cur], and no callout due at [cur] is left. *)
Lemma scan_spec n : forall s c cur,
  size (due s cur) = n -> state_inv s -> known s -> in_window s cur -> scan_ok cur s c ->
  exists F s' evs,
    (forall fuel, (F <= fuel)%nat -> scan_bucket handler fuel s cur c = Ok s') /\
    state_inv s' /\ clock_frame s s' evs /\
    (forall x co, callouts s' !! x = Some co -> pending co = true -> c_time co <> cur) /\
    Forall (fun e => ev_time e = cur) evs /\ track s s' evs.
Proof.
  induction (lt_wf n) as [n _ IHn]. intros s c cur Hn Hi Hk Hw Hs.
  pose proof Hs as (l & Hl & _). remember (length l - length (before c l))%nat as k eqn:Ek.
  revert c Hs Ek. induction (lt_wf k) as [k _ IHk]. intros c Hs Ek.
  pose proof (si_wheel _ Hi) as W.
  destruct Hs as (l' & Hl' & Hin & Hnd). rewrite Hl in Hl'. injection Hl' as <-.
  destruct c as [c|].
  - pose proof (Hin c eq_refl) as Hcl.
    destruct (wo_mem _ _ _ W _ _ _ Hl Hcl) as (co & Hco & Hp & _).
    destruct (decide (c_time co = cur)) as [Ht|Ht].
    + destruct (fire_spec s c co cur) as (s1 & E1 & Hi1 & Hs1 & Hf1 & Hc1); try done.
      { exists l. eauto. }
      assert (c ∈ due s cur) as Hdue by (apply elem_of_due; eauto).
      assert (due s1 cur ⊂ due s cur) as Hsub.
      { pose proof (due_shrinks _ _ _ _ Hw Hf1).
        assert (c ∉ due s1 cur); [|set_solver].
        rewrite elem_of_due. intros (co1 & H1 & H2 & H3).
        destruct (Hc1 co1 H1 H2) as (to & Hto & E). by apply (future_not_due s cur to) in Hw; congruence. }
      apply subset_size in Hsub.
      destruct (IHn (size (due s1 cur)) ltac:(lia) (with_next s1 None) (cc_next s1) cur)
        as (F & s2 & evs & E2 & Hi2 & Hf2 & Hd2 & Hev & Htr); try done.
      { by apply inv_next_none. }
      { by apply Hf1. }
      { unfold in_window. simpl. by rewrite (cf_ticks _ _ _ Hf1). }
      exists (S F), s2, (mk_event c (c_func co) (c_arg co) (c_time co) :: evs). split_and!; try done.
      * intros [|fuel] Hfuel; [lia|]. simpl. unfold callout_lock. rewrite Hco. simpl.
        rewrite (proj2 (Z.eqb_eq _ _) Ht). simpl. unfold unlinked in E1. simpl in E1.
        rewrite E1. simpl. apply E2. lia.
      * apply (clock_frame_trans _ _ _ [_] evs (clock_frame_next _ _ _ None Hf1) Hf2).
      * by constructor.
      * apply (track_trans _ s1 _ [_] evs); [by eapply (fire_track 0)|exact Htr].
    + assert (before (next_in c l) l = before (Some c) l ++ [c]) as Hb
        by (apply before_step; [by eapply (wo_nodup _ _ _ W)|done]).
      pose proof (before_length (next_in c l) l) as Hlen. rewrite Hb, length_app in Hlen.
      simpl in Hlen.
      destruct (IHk (length l - length (before (next_in c l) l))%nat) with (c := next_in c l)
        as (F & s2 & evs & E2 & Hrest); [rewrite Hb, length_app; simpl; lia| |done|].
      { exists l. split_and!; [done|apply next_in_elem|]. intros x cx. rewrite Hb.
        intros [Hx| ->%list_elem_of_singleton]%elem_of_app; [by eauto|naive_solver]. }
      exists (S F), s2, evs. split; [|done].
      intros [|fuel] Hfuel; [lia|]. simpl. unfold callout_lock. rewrite Hco. simpl.
      rewrite (proj2 (Z.eqb_neq _ _) Ht). simpl. rewrite (list_next_eq _ _ _ _ _ _ W Hl Hcl).
      apply E2. lia.
  - exists 1%nat, s, []. split_and!; [|done|apply clock_frame_refl| |done|apply track_refl].
    + intros [|fuel] ?; [lia|done].
    + intros x co Hx Hp Ht. destruct (wo_pend _ _ _ W _ _ Hx Hp) as (lx & Hlx & Hxl).
      rewrite Ht, Hl in Hlx. injection Hlx as <-.
      apply (Hnd x co); [by rewrite before_none|done..].
Qed.

(** ** The whole run of [softclock] *)

Definition lag (s : state) : Z := u32 (ticks s - cc_softticks s).

(** How far after the tick [t0] a callout or an event is. *)
Definition offset (t0 t : Z) : Z := u32 (t - t0).

Definition in_order (t0 : Z) (evs : list event) : Prop :=
  StronglySorted (fun e e' => offset t0 (ev_time e) <= offset t0 (ev_time e')) evs.

Lemma clock_frame_soft s s' evs t :
  clock_frame s s' evs -> clock_frame (with_softticks s t) (with_softticks s' t) evs.
Proof. intros [H1 H2 H3 H4 H5 H6]. by split. Qed.

Lemma inv_soft s t : state_inv s -> state_inv (with_softticks s t).
Proof. intros [W N E I C]. by split. Qed.

Lemma scan_start s cur :
  state_inv s -> scan_ok cur s (LIST_FIRST (Z.land cur (callwheelmask s)) (cc_callwheel s)).
Proof.
  intros Hi. destruct (bucket_exists _ _ _ cur (si_wheel _ Hi)) as [l Hl].
  exists l. split; [done|]. unfold LIST_FIRST, callwheelmask.
  unfold bucket_of in Hl. rewrite Hl. simpl.
  destruct l as [|x l]; simpl; [set_solver|]. rewrite decide_True by done.
  split; [|set_solver]. intros m [= <-]. set_solver.
Qed.

Lemma with_soft_soft s t t' : with_softticks (with_softticks s t) t' = with_softticks s t'.
Proof. done. Qed.

(** The order of events does not depend on the tick it is measured from, as
    long as that is less than a turn of the clock away. *)
Lemma offset_shift t0 k n t :
  int_range t0 -> 0 <= k <= n -> n <= 2147483648 ->
  offset (s32 (t0 + k)) t < n - k -> offset t0 t = offset (s32 (t0 + k)) t + k.
Proof. unfold int_range, offset. intros. wrap_lia. Qed.

Lemma in_order_shift t0 k n evs :
  int_range t0 -> 0 <= k <= n -> n <= 2147483648 ->
  Forall (fun e => offset (s32 (t0 + k)) (ev_time e) < n - k) evs ->
  in_order (s32 (t0 + k)) evs ->
  in_order t0 evs /\ Forall (fun e => k <= offset t0 (ev_time e) < n) evs.
Proof.
  intros Hr Hk Hn Hev. pose proof (fun t => offset_shift t0 k n t Hr Hk Hn) as Hs.
  induction 1 as [|e evs Ho IH Hall]; [by repeat constructor|].
  apply Forall_cons in Hev as [He Hev]. destruct (IH Hev) as [IH1 IH2].
  pose proof (wrapu_range 32 (ev_time e - s32 (t0 + k)) ltac:(lia)).
  split; constructor; try done.
  - rewrite Forall_forall in *. intros x Hx. rewrite !Hs by auto. specialize (Hall x Hx). lia.
  - rewrite Hs by done. unfold offset in *. lia.
Qed.

(** The events of one tick followed by those of the later ones. *)
Lemma in_order_step t0 evs1 evs2 n :
  int_range t0 -> 1 <= n <= 2147483648 ->
  Forall (fun e => ev_time e = t0) evs1 ->
  Forall (fun e => offset (s32 (t0 + 1)) (ev_time e) < n - 1) evs2 ->
  in_order (s32 (t0 + 1)) evs2 ->
  in_order t0 (evs1 ++ evs2) /\ Forall (fun e => offset t0 (ev_time e) < n) (evs1 ++ evs2).
Proof.
  intros Hr Hn H1 H2 H3.
  destruct (in_order_shift t0 1 n evs2 Hr ltac:(lia) ltac:(lia) H2 H3) as [Ho2 He2].
  assert (forall e, e ∈ evs1 -> offset t0 (ev_time e) = 0) as Hz.
  { intros e He. rewrite Forall_forall in H1. rewrite (H1 e He). unfold offset.
    by rewrite Z.sub_diag. }
  split.
  - apply StronglySorted_app_2; [| |done].
    + intros x y Hx Hy. rewrite (Hz x Hx). apply wrapu_range. lia.
    + clear -Hz. induction evs1 as [|e evs1 IH]; constructor; [set_solver|].
      apply Forall_forall. intros x Hx. rewrite !Hz by set_solver. lia.
  - apply Forall_app. split; [|eapply Forall_impl; [done|]; simpl; lia].
    apply Forall_forall. intros x Hx. rewrite (Hz x Hx). lia.
Qed.

Lemma softclock_spec n : forall s,
  lag s = Z.of_nat n -> lag s <= 2147483648 -> state_inv s -> known s ->
  int_range (ticks s) -> int_range (cc_softticks s) ->
  exists F s' evs,
    (forall fuel, (F <= fuel)%nat -> softclock handler fuel s = Ok s') /\
    state_inv s' /\ clock_frame (with_softticks s (ticks s)) s' evs /\
    (forall x co, callouts s' !! x = Some co -> pending co = true ->
       lag s <= offset (cc_softticks s) (c_time co)) /\
    Forall (fun e => offset (cc_softticks s) (ev_time e) < lag s) evs /\
    in_order (cc_softticks s) evs /\ track s s' evs.
Proof.
  induction n as [|n IH]; intros s Hn Hl Hi Hk Ht Hst.
  - assert (cc_softticks s = ticks s) as Heq
      by (unfold lag, int_range in *; wrap_lia).
    exists 1%nat, s, []. rewrite <- Heq. split_and!; try done.
    + intros [|fuel] ?; [lia|]. simpl. by rewrite (proj2 (Z.eqb_eq _ _) Heq).
    + replace (with_softticks s (cc_softticks s)) with s by (by destruct s).
      apply clock_frame_refl.
    + intros x co _ _. rewrite Hn. apply wrapu_range. lia.
    + constructor.
    + apply track_refl.
  - set (cur := cc_softticks s) in *.
    assert (cur <> ticks s) as Hne.
    { intros E. unfold lag in Hn. fold cur in Hn. rewrite E, Z.sub_diag in Hn.
      change (u32 0) with 0 in Hn. lia. }
    set (s1 := with_softticks s (s32 (cur + 1))).
    assert (in_window s1 cur) as Hw by (unfold in_window, s1, lag in *; simpl; fold cur in Hn, Hl; unfold int_range in *; lia).
    pose proof (inv_soft s (s32 (cur + 1)) Hi) as Hi1.
    destruct (scan_spec _ s1 _ cur eq_refl Hi1 Hk Hw (scan_start s1 cur Hi1))
      as (F1 & s2 & evs1 & E1 & Hi2 & Hf1 & Hnd & Hev1 & Htr1).
    assert (lag s2 = Z.of_nat n) as Hn2.
    { unfold lag in *. rewrite (cf_ticks _ _ _ Hf1), (cf_soft _ _ _ Hf1). simpl.
      fold cur in Hn, Hl. unfold int_range in *. wrap_lia. }
    destruct (IH s2) as (F2 & s3 & evs2 & E2 & Hi3 & Hf2 & Hov & Hev2 & Hord & Htr2); try done.
    { lia. } { by apply Hf1. }
    { by rewrite (cf_ticks _ _ _ Hf1). }
    { rewrite (cf_soft _ _ _ Hf1). simpl. unfold int_range. wrap_lia. }
    rewrite (cf_soft _ _ _ Hf1) in Hov, Hev2, Hord. simpl in Hov, Hev2, Hord.
    destruct (in_order_step cur evs1 evs2 (lag s)) as [Hord' Hev']; try done; [lia| |].
    { eapply Forall_impl; [apply Hev2|]. simpl. intros e. rewrite Hn2, Hn. lia. }
    exists (S (Nat.max F1 F2)), s3, (evs1 ++ evs2). split_and!; try done.
    + intros [|fuel] Hf; [lia|]. simpl. fold cur. rewrite (proj2 (Z.eqb_neq _ _) Hne).
      change (Z.land cur (callwheelmask s)) with (Z.land cur (callwheelmask s1)).
      rewrite E1 by lia. simpl. apply E2. lia.
    + pose proof (clock_frame_soft _ _ _ (ticks s) Hf1) as Hf1'. unfold s1 in Hf1'.
      rewrite with_soft_soft in Hf1'. rewrite (cf_ticks _ _ _ Hf1) in Hf2. simpl in Hf2.
      by eapply clock_frame_trans.
    + intros x co Hx Hp. specialize (Hov x co Hx Hp).
      assert (c_time co <> cur) as Hneq.
      { destruct (cf_pend _ _ _ Hf2 _ _ Hx Hp) as [(co2 & H2 & H3 & <-)|(to & Hto & ->)];
          [by apply (Hnd x)|]. simpl.
        apply future_not_due; [|done]. unfold in_window. by rewrite (cf_ticks _ _ _ Hf1). }
      pose proof (co_time _ (wo_callouts _ _ _ (si_wheel _ Hi3) _ _ Hx)).
      unfold offset in *. rewrite Hn2 in Hov. rewrite Hn. unfold int_range in *. wrap_lia.
    + by eapply track_trans.
Qed.

(** The ticks [callout_tick] skips have no callout. *)
Lemma tick_skip_spec n : forall s,
  lag s = Z.of_nat n -> lag s <= 2147483648 -> state_inv s ->
  int_range (ticks s) -> int_range (cc_softticks s) ->
  exists F b k,
    (forall fuel, (F <= fuel)%nat ->
       tick_skip fuel s = Ok (b, with_softticks s (s32 (cc_softticks s + k)))) /\
    0 <= k <= lag s /\ (b = false -> k = lag s) /\
    (forall x co, callouts s !! x = Some co -> pending co = true ->
       k <= offset (cc_softticks s) (c_time co)).
Proof.
  assert (forall s, int_range (cc_softticks s) ->
    with_softticks s (s32 (cc_softticks s + 0)) = s) as Hid.
  { intros s Hr. rewrite Z.add_0_r, wraps_small by (unfold int_range in Hr; simpl; lia).
    by destruct s. }
  assert (forall (s : state) (x : Z) co, 0 <= offset (cc_softticks s) (c_time co)) as Hpos.
  { intros. apply wrapu_range. lia. }
  induction n as [|n IH]; intros s Hn Hl Hi Ht Hst.
  - exists 1%nat, false, 0. rewrite Hid by done. split_and!; try done; try lia; [|by eauto].
    intros [|fuel] Hf; [lia|]. simpl.
    destruct (Z.ltb_spec (s32 (cc_softticks s - ticks s)) 0); [|done].
    unfold lag, int_range in *. wrap_lia.
  - set (cur := cc_softticks s) in *.
    assert (s32 (cur - ticks s) < 0) as Hneg
      by (unfold lag, int_range in *; fold cur in Hn, Hl; wrap_lia).
    destruct (bucket_exists _ _ _ cur (si_wheel _ Hi)) as [l Hb].
    assert (LIST_FIRST (Z.land cur (callwheelmask s)) (cc_callwheel s) = head l) as Hfirst.
    { unfold LIST_FIRST, callwheelmask, bucket_of in *. by rewrite Hb. }
    destruct l as [|c l].
    + set (s1 := with_softticks s (s32 (cur + 1))).
      assert (lag s1 = Z.of_nat n) as Hn1
        by (unfold lag, int_range in *; simpl; fold cur in Hn, Hl; wrap_lia).
      assert (int_range (s32 (cur + 1))) as Hr1 by (unfold int_range; wrap_lia).
      destruct (IH s1) as (F & b & k & E & Hk & Hb' & Hnone); try done;
        [lia|by apply inv_soft|].
      simpl in Hnone. rewrite Hn1 in Hk, Hb'.
      exists (S F), b, (k + 1). split_and!; [|lia|lia|intros ->; rewrite Hn, Hb'; lia|].
      * intros [|fuel] Hf; [lia|]. simpl. fold cur. rewrite (proj2 (Z.ltb_lt _ _) Hneg), Hfirst.
        simpl. fold s1. rewrite E by lia. unfold s1. simpl. rewrite with_soft_soft.
        do 2 f_equal. f_equal. wrap_lia.
      * intros x co Hx Hp. specialize (Hnone x co Hx Hp).
        assert (c_time co <> cur) as Hneq.
        { intros E0. destruct (wo_pend _ _ _ (si_wheel _ Hi) _ _ Hx Hp) as (lx & Hlx & Hin).
          rewrite E0, Hb in Hlx. injection Hlx as <-. set_solver. }
        pose proof (co_time _ (wo_callouts _ _ _ (si_wheel _ Hi) _ _ Hx)).
        unfold offset, int_range in *. wrap_lia.
    + exists 1%nat, true, 0. unfold cur at 1. rewrite Hid by done.
      split_and!; try done; try lia; [|by eauto].
      intros [|fuel] Hf; [lia|]. simpl. fold cur. by rewrite (proj2 (Z.ltb_lt _ _) Hneg), Hfirst.
Qed.

Lemma callout_tick_spec s :
  lag s <= 2147483648 -> state_inv s -> known s ->
  int_range (ticks s) -> int_range (cc_softticks s) ->
  exists F s' evs,
    (forall fuel, (F <= fuel)%nat -> callout_tick handler fuel s = Ok s') /\
    state_inv s' /\ clock_frame (with_softticks s (ticks s)) s' evs /\
    (forall x co, callouts s' !! x = Some co -> pending co = true ->
       lag s <= offset (cc_softticks s) (c_time co)) /\
    Forall (fun e => offset (cc_softticks s) (ev_time e) < lag s) evs /\
    in_order (cc_softticks s) evs /\ track s s' evs.
Proof.
  intros Hl Hi Hk Ht Hst.
  pose proof (wrapu_range 32 (ticks s - cc_softticks s) ltac:(lia)) as Hlr. fold (lag s) in Hlr.
  destruct (tick_skip_spec (Z.to_nat (lag s)) s) as (F1 & b & k & E1 & Hkr & Hb & Hnone);
    try done; [lia|].
  set (s1 := with_softticks s (s32 (cc_softticks s + k))) in *.
  assert (lag s1 = lag s - k) as Hl1 by (unfold lag, int_range in *; simpl; wrap_lia).
  destruct b; cycle 1.
  - assert (k = lag s) as -> by auto. exists F1, s1, []. split_and!; try done.
    + intros fuel Hf. unfold callout_tick. rewrite E1 by done. done.
    + by apply inv_soft.
    + assert (s32 (cc_softticks s + lag s) = ticks s) as Hs
        by (unfold lag, int_range in *; wrap_lia).
      unfold s1. rewrite Hs. apply clock_frame_refl.
    + constructor.
    + intros x co _ Hco. by left.
  - destruct (softclock_spec (Z.to_nat (lag s1)) s1)
      as (F2 & s2 & evs & E2 & Hi2 & Hf2 & Hov & Hev & Hord & Htr); try done;
      [lia|lia|by apply inv_soft|unfold int_range; simpl; wrap_lia|].
    simpl in Hov, Hev, Hord. rewrite Hl1 in Hov, Hev.
    destruct (in_order_shift (cc_softticks s) k (lag s) evs) as [Hord' Hev']; try done.
    exists (Nat.max F1 F2), s2, evs. split_and!; try done.
    + intros fuel Hf. unfold callout_tick. rewrite E1 by lia. simpl. apply E2. lia.
    + intros x co Hx Hp. specialize (Hov x co Hx Hp).
      pose proof (co_time _ (wo_callouts _ _ _ (si_wheel _ Hi2) _ _ Hx)) as Hct.
      assert (k <= offset (cc_softticks s) (c_time co)) as Hko.
      { destruct (cf_pend _ _ _ Hf2 _ _ Hx Hp) as [(co2 & H2 & H3 & <-)|(to & Hto & E)];
          [by apply (Hnone x)|]. rewrite E. simpl. unfold offset, lag, int_range in *. wrap_lia. }
      clear -Hov Hko Hkr Hl Hlr Hst Hct. unfold offset, int_range in *. wrap_lia.
    + eapply Forall_impl; [apply Hev'|]. simpl. lia.
Qed.

End Clock.

(** ** Start-up *)

Lemma init_callouts (co : callout) addrs : forall (m : gmap Z callout) (c : Z) cx,
  foldl (fun m c => <[c := co]> m) m addrs !! c = Some cx -> cx = co \/ m !! c = Some cx.
Proof.
  induction addrs as [|a addrs IH]; intros m c cx H; simpl in *; [auto|].
  destruct (IH _ _ _ H) as [->|H']; [auto|].
  destruct (decide (a = c)) as [->|]; simplify_map_eq; auto.
Qed.

Lemma inv_init mem ncallout k base now cpu :
  0 <= k <= 31 -> cpu < MAXCPU ->
  (forall c co, mem !! c = Some co -> callout_ok co /\ pending co = false) ->
  state_inv (callout_cpu_init mem ncallout (2 ^ k) base now cpu).
Proof.
  intros Hk Hcpu Hmem. unfold callout_cpu_init.
  set (co := mk_callout _ _ _ _ _ _ _).
  assert (callout_ok co /\ pending co = false) as Hco.
  { split; [|done]. split; simpl; done || lia. }
  assert (forall c cx, foldl (fun m c => <[c := co]> m) mem
     ((fun i => base + Z.of_nat i) <$> seq 0 (Z.to_nat ncallout)) !! c = Some cx ->
     callout_ok cx /\ pending cx = false) as Hall.
  { intros c cx [->|H]%init_callouts; [done|by eapply Hmem]. }
  split; simpl; try done; [|intros []; by split].
  split; simpl.
  - by exists k.
  - by rewrite length_replicate.
  - intros b l c [-> _]%lookup_replicate. set_solver.
  - intros c cx H Hp. apply Hall in H as [_ H]. congruence.
  - intros b l [-> _]%lookup_replicate. constructor.
  - intros c cx H. apply (Hall c cx H).
Qed.

Lemma wheel_size maxproc maxfiles tunable n size :
  callout_callwheel_init maxproc maxfiles tunable = (n, size) -> 0 < n < 2147483648 ->
  exists k, 0 <= k <= 31 /\ size = 2 ^ k /\ n < size <= 2 * n.
Proof.
  unfold callout_callwheel_init. intros [= Hn Hs] Hr. rewrite Hn in Hs.
  assert (u32 n = n) as Hu by (apply wrapu_small; lia).
  unfold fls in Hs. rewrite (proj2 (Z.eqb_neq n 0)), Hu in Hs by lia.
  pose proof (Z.log2_nonneg n). pose proof (Z.log2_spec n ltac:(lia)) as Hlog.
  assert (Z.log2 n <= 30).
  { assert (Z.log2 n < 31); [|lia]. apply Z.log2_lt_pow2; lia. }
  rewrite Z.shiftl_1_l in Hs. rewrite <- Z.add_1_r in Hlog.
  exists (Z.log2 n + 1). rewrite Z.pow_add_r, Z.pow_1_r in * by lia.
  assert (2 ^ Z.log2 n <= 2 ^ 30) by (apply Z.pow_le_mono_r; lia).
  rewrite wrapu_small in Hs; [lia|]. split; [lia|]. simpl in *. lia.
Qed.

(** ** Properties *)

(** C3: one run of the clock ([ff_hardclock] with the global tick already
    advanced, or [ff_hardclock_worker]) terminates and is correct.  Whatever
    the callbacks do through the interface, as long as they keep its rules
    ([act_pre]: they name callouts there are, drain none whose callback runs and
    initialise none that is pending), the wheel invariant is kept, the
    wheel catches up with [ticks], every callback invoked belongs to a tick
    that has passed, they are invoked in the order of their ticks, and no
    callout that is overdue stays pending. *)
Theorem callout_tick_correct handler D s
    (Hh : forall s f a, state_inv s -> known D s -> prog_safe s (handler f a))
    (Hi : state_inv s) (Hk : known D s) (Hl : lag s <= 2147483648)
    (Ht : int_range (ticks s)) (Hs : int_range (cc_softticks s)) :
  exists F s' evs,
    (forall fuel, (F <= fuel)%nat -> callout_tick handler fuel s = Ok s') /\
    state_inv s' /\ ticks s' = ticks s /\ cc_softticks s' = ticks s /\
    fired s' = fired s ++ evs /\
    Forall (fun e => offset (cc_softticks s) (ev_time e) < lag s) evs /\
    in_order (cc_softticks s) evs /\
    (forall x co, callouts s' !! x = Some co -> pending co = true ->
       lag s <= offset (cc_softticks s) (c_time co)).
Proof.
  destruct (callout_tick_spec handler D Hh s Hl Hi Hk Ht Hs)
    as (F & s' & evs & E & Hi' & Hf & Hov & Hev & Hord & _).
  exists F, s', evs. split_and!; try done; apply Hf.
Qed.

(** C19: a pending callout that comes due, and that no callback touches, has
    its function invoked exactly once, with the argument it was scheduled
    with, and is not pending afterwards. *)
Theorem callout_fires_once handler D s x co
    (Hh : forall s f a, state_inv s -> known D s -> prog_safe s (handler f a))
    (Hi : state_inv s) (Hk : known D s) (Hl : lag s <= 2147483648)
    (Ht : int_range (ticks s)) (Hs : int_range (cc_softticks s))
    (Hx : avoided handler x) (Hco : callouts s !! x = Some co) (Hp : pending co = true)
    (Hdue : offset (cc_softticks s) (c_time co) < lag s) :
  exists F s' evs,
    (forall fuel, (F <= fuel)%nat -> callout_tick handler fuel s = Ok s') /\
    fired s' = fired s ++ evs /\
    evs_of x evs = [mk_event x (c_func co) (c_arg co) (c_time co)] /\ idle s' x.
Proof.
  destruct (callout_tick_spec handler D Hh s Hl Hi Hk Ht Hs)
    as (F & s' & evs & E & Hi' & Hf & Hov & Hev & Hord & Htr).
  exists F, s', evs. split_and!; [done|apply Hf|..];
    (destruct (Htr x co Hx Hco) as [[Hco' _]|[Hidle Hevs]];
     [specialize (Hov x co Hco' Hp); lia|by rewrite ?Hp in Hevs]).
Qed.

(** C34: [callout_reset] of a callout whose callback is not running in the
    execution entity the flags select succeeds, keeps the invariant, reports whether the callout was pending, and leaves it pending
    for the tick [max 1 to_ticks] ahead with the new function and argument,
    every other callout untouched. *)
Theorem callout_reset_correct s c co to ftn arg cpu flags
    (Hi : state_inv s) (Hco : callouts s !! c = Some co) (Hto : int_range to)
    (Hcpu : cpu < MAXCPU)
    (Hrun : cc_curr (exec_get s (flag_is_set flags C_DIRECT_EXEC)) <> Some c) :
  exists s' co',
    callout_reset_tick_on s c to ftn arg cpu flags = Ok (if pending co then 1 else 0, s') /\
    state_inv s' /\ callouts s' !! c = Some co' /\ pending co' = true /\ active co' = true /\
    c_time co' = s32 (ticks s + Z.max 1 to) /\ c_func co' = ftn /\ c_arg co' = arg /\
    (forall x, x <> c -> callouts s' !! x = callouts s !! x).
Proof.
  destruct (reset_spec s c co to ftn arg cpu flags Hi Hco Hto Hcpu)
    as (r & s' & E & [Hi' _] & H1 & H2 & co' & Hco').
  exists s', co'. replace (if pending co then 1 else 0) with r
    by (destruct (pending co); auto).
  split_and!; try done; try apply Hco'.
  intros x Hx. by eapply reset_avoids.
Qed.

(** C35: [callout_stop] and [callout_drain] of a callout whose callback is not
    running succeed, keep the invariant, return 1 if it was pending and -1
    otherwise, and leave it off the wheel, every other callout untouched. *)
Theorem callout_stop_correct s c co flags fuel
    (Hi : state_inv s) (Hco : callouts s !! c = Some co) (Hrun : ~ running s c co) :
  exists s' co',
    callout_stop_safe fuel s c flags = Ok (if pending co then 1 else -1, s') /\
    state_inv s' /\ callouts s' !! c = Some co' /\ pending co' = false /\
    (forall b l, cc_callwheel s' !! b = Some l -> c ∉ l) /\
    (forall x, x <> c -> callouts s' !! x = callouts s !! x).
Proof.
  destruct (stop_spec s c co flags Hi Hco (fun _ => Hrun))
    as (r & s' & E & [Hi' _] & H1).
  destruct (H1 Hrun) as (-> & co' & Hco' & Hp').
  exists s', co'. split_and!; try done.
  - intros b l Hb Hin. destruct (wo_mem _ _ _ (si_wheel _ Hi') _ _ _ Hb Hin)
      as (cx & Hcx & Hpx & _). congruence.
  - intros x Hx. by eapply (stop_avoids fuel).
Qed.

(** [softclock] records the running callout in the entity of direct
    callouts, [callout_stop] looks for it in the entity its flags select.  So
    a callback of an ordinary callout that stops its own callout is told -1,
    not scheduled and not executing, although it is executing. *)
Theorem stop_of_running_callout s c co fuel
    (Hi : state_inv s) (Hco : callouts s !! c = Some co) (Hp : pending co = false)
    (Hd : direct_of co = false)
    (Hcurr : cc_curr (exec_get s true) = Some c) (Hfree : cc_curr (exec_get s false) = None) :
  exists s', callout_stop fuel s c = Ok (-1, s').
Proof.
  destruct (stop_spec s c co 0 Hi Hco) as (r & s' & E & _ & H1).
  { done. }
  exists s'. unfold callout_stop. rewrite E. unfold running in H1.
  rewrite Hd, Hp, Hfree in H1. by destruct (H1 ltac:(done)) as [-> _].
Qed.

(** At start-up the wheel has the size of the next power of two above
    [ncallout], and the state of the thread satisfies the invariant. *)
Theorem callout_init_correct maxproc maxfiles tunable n size base now cpu
    (Hinit : callout_callwheel_init maxproc maxfiles tunable = (n, size))
    (Hn : 0 < n < 2147483648) (Hcpu : cpu < MAXCPU) :
  n < size <= 2 * n /\ state_inv (callout_cpu_init ∅ n size base now cpu).
Proof.
  destruct (wheel_size _ _ _ _ _ Hinit Hn) as (k & Hk & -> & Hb).
  split; [done|]. by apply inv_init.
Qed.

(** ** Witnesses *)

Definition wit_init : state := callout_cpu_init ∅ 2 4 100 0 0.

(** A callout pending for tick 2 and the clock at tick 3. *)
Definition wit_state : state :=
  match callout_reset_tick_on wit_init 100 2 7 42 (-1) 0 with
  | Ok (_, s) => with_ticks s 3
  | _ => wit_init
  end.

(** A callback that reschedules the callout 101. *)
Definition wit_handler (f a : Z) : prog := PDo (AReset 101 5 f a (-1) 0) (fun _ => PDone).

Lemma inv_ticks s t : state_inv s -> state_inv (with_ticks s t).
Proof. intros [W N E I C]. by split. Qed.

Lemma wit_init_inv : state_inv wit_init.
Proof. apply (inv_init ∅ 2 2); [lia|done|]. intros c co H. by simplify_map_eq. Qed.

Lemma wit_state_inv : state_inv wit_state.
Proof.
  destruct (reset_spec wit_init 100 (mk_callout 0 0 0 (Some lock_class_mtx) 0 0 0) 2 7 42 (-1) 0)
    as (r & s' & E & [Hi _] & _); [apply wit_init_inv|done|unfold int_range; lia|done|].
  unfold wit_state. rewrite E. by apply inv_ticks.
Qed.

Lemma wit_handler_ok s f a : state_inv s -> known {[101]} s -> prog_safe s (wit_handler f a).
Proof.
  intros _ Hk. simpl. split; [|done]. split_and!; [apply Hk; set_solver|unfold int_range; lia|done].
Qed.

Lemma wit_known : known {[101]} wit_state.
Proof. intros c ->%elem_of_singleton. vm_compute. eexists. reflexivity. Qed.

Lemma callout_tick_correct_witness :
  exists F s' evs, (forall fuel, (F <= fuel)%nat -> callout_tick wit_handler fuel wit_state = Ok s') /\
    fired s' = fired wit_state ++ evs /\ cc_softticks s' = 3.
Proof.
  destruct (callout_tick_correct wit_handler {[101]} wit_state wit_handler_ok wit_state_inv wit_known)
    as (F & s' & evs & H1 & H2 & H3 & H4 & H5 & _).
  - vm_compute. discriminate.
  - vm_compute. split; [discriminate|reflexivity].
  - vm_compute. split; [discriminate|reflexivity].
  - exists F, s', evs. auto.
Defined.

Lemma callout_fires_once_witness :
  exists F s' evs, (forall fuel, (F <= fuel)%nat -> callout_tick wit_handler fuel wit_state = Ok s') /\
    fired s' = fired wit_state ++ evs /\ evs_of 100 evs = [mk_event 100 7 42 2] /\ idle s' 100.
Proof.
  apply (callout_fires_once wit_handler {[101]} wit_state 100
           (mk_callout 2 42 7 (Some lock_class_mtx) 2 4 0) wit_handler_ok wit_state_inv wit_known).
  - vm_compute. discriminate.
  - vm_compute. split; [discriminate|reflexivity].
  - vm_compute. split; [discriminate|reflexivity].
  - intros f a. simpl. split; [discriminate|exact (fun _ => I)].
  - vm_compute. reflexivity.
  - reflexivity.
  - vm_compute. reflexivity.
Defined.

Lemma callout_reset_correct_witness :
  exists s' co', callout_reset_tick_on wit_init 100 2 7 42 (-1) 0 = Ok (0, s') /\
    callouts s' !! 100 = Some co' /\ c_time co' = 2.
Proof.
  destruct (callout_reset_correct wit_init 100 (mk_callout 0 0 0 (Some lock_class_mtx) 0 0 0)
    2 7 42 (-1) 0 wit_init_inv) as (s' & co' & H1 & H2 & H3 & H4 & H5 & H6 & _).
  - vm_compute. reflexivity.
  - vm_compute. split; [discriminate|reflexivity].
  - reflexivity.
  - vm_compute. discriminate.
  - exists s', co'. split; [exact H1|]. split; [exact H3|]. rewrite H6. reflexivity.
Defined.

Lemma callout_stop_correct_witness :
  exists s', callout_stop_safe 0 wit_state 100 0 = Ok (1, s') /\ state_inv s'.
Proof.
  destruct (callout_stop_correct wit_state 100 (mk_callout 2 42 7 (Some lock_class_mtx) 2 4 0) 0 0
    wit_state_inv) as (s' & co' & H1 & H2 & _).
  - vm_compute. reflexivity.
  - vm_compute. discriminate.
  - exists s'. split; [exact H1|exact H2].
Defined.

(** The callout 100, not pending, while its callback runs. *)
Definition wit_running : state := exec_set wit_init true (mk_cc_exec (Some 100) None true false).

Lemma stop_of_running_callout_witness : exists s', callout_stop 0 wit_running 100 = Ok (-1, s').
Proof.
  apply (stop_of_running_callout wit_running 100 (mk_callout 0 0 0 (Some lock_class_mtx) 0 0 0) 0);
    [apply good_exec; [apply wit_init_inv|reflexivity|reflexivity]|vm_compute; reflexivity..].
Defined.

Lemma callout_init_correct_witness :
  116 < 128 <= 2 * 116 /\ state_inv (callout_cpu_init ∅ 116 128 0 0 0).
Proof.
  apply (callout_init_correct 40 60 None 116 128 0 0 0); [vm_compute; reflexivity|lia|reflexivity].
Defined.
