(* ===== verification/Ring.v ===== *)
(** * The lockless rings ([dpdk/lib/ring])

    F-Stack hands packets between its processes and threads through
    [rte_ring]s of pointers: the dispatch rings, the KNI rings, the message
    rings.  A [rte_ring] is the header with its four free-running 32-bit
    indices and the array of 8-byte objects that follows it in memory
    ([&r[1]]); objects are addresses, [Z]s.  This file holds the operations
    run to completion, in the four synchronisation modes of the library; a
    loop that waits for another thread is an exhausted fuel.  The
    interleavings of the multi-producer and multi-consumer mode are in
    [RingConc]. *)

From stdpp Require Import strings.
From S2P Require Import Prelude.

Module Ring.

(** ** Constants and data ([rte_ring_core.h]) *)

Definition RING_F_SP_ENQ : Z := 0x0001.
Definition RING_F_SC_DEQ : Z := 0x0002.
Definition RING_F_EXACT_SZ : Z := 0x0004.
Definition RING_F_MP_RTS_ENQ : Z := 0x0008.
Definition RING_F_MC_RTS_DEQ : Z := 0x0010.
Definition RING_F_MP_HTS_ENQ : Z := 0x0020.
Definition RING_F_MC_HTS_DEQ : Z := 0x0040.
Definition RING_F_MASK : Z := 0x007f.
Definition RTE_RING_SZ_MASK : Z := 0x7fffffff.
Definition RTE_RING_NAMESIZE : Z := 29.
Definition RTE_CACHE_LINE_SIZE : Z := 64.
Definition HTD_MAX_DEF : Z := 8.
Definition EINVAL : Z := 22.
Definition ENAMETOOLONG : Z := 36.
Definition ENOBUFS : Z := 105.
Definition ENOENT : Z := 2.

(** [sizeof(struct rte_ring)]: the 64-byte line of the name and the sizes,
    the lines of [prod] and [cons], and three guard lines. *)
Definition sizeof_rte_ring : Z := 384.

Inductive rte_ring_sync_type :=
| RTE_RING_SYNC_MT
| RTE_RING_SYNC_ST
| RTE_RING_SYNC_MT_RTS
| RTE_RING_SYNC_MT_HTS.

Inductive rte_ring_queue_behavior :=
| RTE_RING_QUEUE_FIXED
| RTE_RING_QUEUE_VARIABLE.

(** The union of [rte_ring_headtail], [rte_ring_hts_headtail] and
    [rte_ring_rts_headtail]: the position pair every mode has, and the
    counters and the distance of the relaxed tail sync mode. *)
Record rte_ring_headtail := mk_ht {
  head : Z;
  tail : Z;
  head_cnt : Z;
  tail_cnt : Z;
  htd_max : Z;
  sync_type : rte_ring_sync_type
}.

Record rte_ring := mk_ring {
  name : string;
  flags : Z;
  size : Z;
  mask : Z;
  capacity : Z;
  prod : rte_ring_headtail;
  cons : rte_ring_headtail;
  ring : list Z
}.

Definition with_prod (r : rte_ring) x : rte_ring :=
  mk_ring (name r) (flags r) (size r) (mask r) (capacity r) x (cons r) (ring r).
Definition with_cons (r : rte_ring) x : rte_ring :=
  mk_ring (name r) (flags r) (size r) (mask r) (capacity r) (prod r) x (ring r).
Definition with_ring (r : rte_ring) x : rte_ring :=
  mk_ring (name r) (flags r) (size r) (mask r) (capacity r) (prod r) (cons r) x.
Definition with_head (ht : rte_ring_headtail) x : rte_ring_headtail :=
  mk_ht x (tail ht) (head_cnt ht) (tail_cnt ht) (htd_max ht) (sync_type ht).
Definition with_tail (ht : rte_ring_headtail) x : rte_ring_headtail :=
  mk_ht (head ht) x (head_cnt ht) (tail_cnt ht) (htd_max ht) (sync_type ht).
Definition with_head_cnt (ht : rte_ring_headtail) x : rte_ring_headtail :=
  mk_ht (head ht) (tail ht) x (tail_cnt ht) (htd_max ht) (sync_type ht).
Definition with_tail_cnt (ht : rte_ring_headtail) x : rte_ring_headtail :=
  mk_ht (head ht) (tail ht) (head_cnt ht) x (htd_max ht) (sync_type ht).

(** ** Creation ([rte_ring.c], [rte_bitops.h]) *)

Definition POWEROF2 (x : Z) : bool := Z.land (u32 (x - 1)) x =? 0.

Definition rte_combine32ms1b (x : Z) : Z :=
  let x := Z.lor x (Z.shiftr x 1) in
  let x := Z.lor x (Z.shiftr x 2) in
  let x := Z.lor x (Z.shiftr x 4) in
  let x := Z.lor x (Z.shiftr x 8) in
  Z.lor x (Z.shiftr x 16).

Definition rte_align32pow2 (x : Z) : Z := u32 (rte_combine32ms1b (u32 (x - 1)) + 1).

(** [RTE_ALIGN(sz, RTE_CACHE_LINE_SIZE)] *)
Definition cache_align (sz : Z) : Z :=
  Z.ldiff (sz + (RTE_CACHE_LINE_SIZE - 1)) (RTE_CACHE_LINE_SIZE - 1).

Definition rte_ring_get_memsize_elem (esize count : Z) : Z :=
  if negb (esize mod 4 =? 0) then - EINVAL
  else if negb (POWEROF2 count) || (RTE_RING_SZ_MASK <? count) then - EINVAL
  else cache_align (sizeof_rte_ring + count * esize).

Definition rte_ring_get_memsize (count : Z) : Z := rte_ring_get_memsize_elem 8 count.

Definition reset_headtail (ht : rte_ring_headtail) : rte_ring_headtail :=
  match sync_type ht with
  | RTE_RING_SYNC_MT | RTE_RING_SYNC_ST | RTE_RING_SYNC_MT_HTS =>
      with_head (with_tail ht 0) 0
  | RTE_RING_SYNC_MT_RTS =>
      mk_ht 0 0 0 0 (htd_max ht) (sync_type ht)
  end.

Definition rte_ring_reset (r : rte_ring) : rte_ring :=
  with_cons (with_prod r (reset_headtail (prod r))) (reset_headtail (cons r)).

Definition get_sync_type (fl : Z) : option (rte_ring_sync_type * rte_ring_sync_type) :=
  let p := Z.land fl (Z.lor RING_F_SP_ENQ (Z.lor RING_F_MP_RTS_ENQ RING_F_MP_HTS_ENQ)) in
  let c := Z.land fl (Z.lor RING_F_SC_DEQ (Z.lor RING_F_MC_RTS_DEQ RING_F_MC_HTS_DEQ)) in
  let prod_st :=
    if p =? 0 then Some RTE_RING_SYNC_MT
    else if p =? RING_F_SP_ENQ then Some RTE_RING_SYNC_ST
    else if p =? RING_F_MP_RTS_ENQ then Some RTE_RING_SYNC_MT_RTS
    else if p =? RING_F_MP_HTS_ENQ then Some RTE_RING_SYNC_MT_HTS
    else None in
  let cons_st :=
    if c =? 0 then Some RTE_RING_SYNC_MT
    else if c =? RING_F_SC_DEQ then Some RTE_RING_SYNC_ST
    else if c =? RING_F_MC_RTS_DEQ then Some RTE_RING_SYNC_MT_RTS
    else if c =? RING_F_MC_HTS_DEQ then Some RTE_RING_SYNC_MT_HTS
    else None in
  match prod_st, cons_st with
  | Some a, Some b => Some (a, b)
  | _, _ => None
  end.

(** [rte_ring_init] on a ring whose object array is [mem]; on an error, the
    errno value. *)
Definition rte_ring_init (mem : list Z) (nm : string) (count fl : Z) : rte_ring + Z :=
  if negb (Z.ldiff fl RING_F_MASK =? 0) then inr (- EINVAL)
  else if RTE_RING_NAMESIZE <=? Z.of_nat (String.length nm) then inr (- ENAMETOOLONG)
  else
    match get_sync_type fl with
    | None => inr (- EINVAL)
    | Some (pst, cst) =>
        let sizes :=
          if flag_is_set fl RING_F_EXACT_SZ
          then let sz := rte_align32pow2 (u32 (count + 1)) in Some (sz, u32 (sz - 1), count)
          else if negb (POWEROF2 count) || (RTE_RING_SZ_MASK <? count) then None
          else Some (count, u32 (count - 1), u32 (count - 1)) in
        match sizes with
        | None => inr (- EINVAL)
        | Some (sz, mk, cap) =>
            let pmax := if flag_is_set fl RING_F_MP_RTS_ENQ then cap / HTD_MAX_DEF else 0 in
            let cmax := if flag_is_set fl RING_F_MC_RTS_DEQ then cap / HTD_MAX_DEF else 0 in
            inl (mk_ring nm fl sz mk cap (mk_ht 0 0 0 0 pmax pst) (mk_ht 0 0 0 0 cmax cst) mem)
        end
    end.

(** ** Copies ([rte_ring_elem_pvt.h])

    [copy4] is the loop body that moves four objects; the [switch] that
    falls through moves the one to three that remain. *)

Fixpoint copy4 (k : nat) (src : list Z) (si : Z) (dst : list Z) (di : Z) : res (list Z) :=
  match k with
  | O => Ok dst
  | S k' =>
      let* v0 := array_get src si in
      let* d0 := array_set dst di v0 in
      let* v1 := array_get src (si + 1) in
      let* d1 := array_set d0 (di + 1) v1 in
      let* v2 := array_get src (si + 2) in
      let* d2 := array_set d1 (di + 2) v2 in
      let* v3 := array_get src (si + 3) in
      let* d3 := array_set d2 (di + 3) v3 in
      copy4 k' src (si + 4) d3 (di + 4)
  end.

Definition rte_ring_enqueue_elems_64 (r : rte_ring) (prod_head : Z) (obj : list Z) (n : Z) :
    res rte_ring :=
  let idx := Z.land prod_head (mask r) in
  let* mem :=
    if u32 (idx + n) <=? size r then
      let i := Z.ldiff n 0x3 in
      let* m := copy4 (Z.to_nat (i / 4)) obj 0 (ring r) idx in
      copy_run (Z.to_nat (Z.land n 0x3)) obj i m (idx + i)
    else
      let i := size r - idx in
      let* m := copy_run (Z.to_nat i) obj 0 (ring r) idx in
      copy_run (Z.to_nat (n - i)) obj i m 0 in
  Ok (with_ring r mem).

Definition rte_ring_dequeue_elems_64 (r : rte_ring) (cons_head : Z) (obj : list Z) (n : Z) :
    res (list Z) :=
  let idx := Z.land cons_head (mask r) in
  if u32 (idx + n) <=? size r then
    let i := Z.ldiff n 0x3 in
    let* o := copy4 (Z.to_nat (i / 4)) (ring r) idx obj 0 in
    copy_run (Z.to_nat (Z.land n 0x3)) (ring r) (idx + i) o i
  else
    let i := size r - idx in
    let* o := copy_run (Z.to_nat i) (ring r) idx obj 0 in
    copy_run (Z.to_nat (n - i)) (ring r) 0 o i.

(** ** Moving the heads and the tails *)

(** The number of objects to move when [avail] are available. *)
Definition burst (b : rte_ring_queue_behavior) (n avail : Z) : Z :=
  if avail <? n then
    match b with RTE_RING_QUEUE_FIXED => 0 | RTE_RING_QUEUE_VARIABLE => avail end
  else n.

(** [rte_ring_generic_pvt.h]: the ring, the number of objects, the old and
    the new head, and the free entries.  Without another thread the compare
    and set finds the head it has just read. *)
Definition rte_ring_move_prod_head (r : rte_ring) (n : Z) (b : rte_ring_queue_behavior) :
    rte_ring * Z * Z * Z * Z :=
  let old_head := head (prod r) in
  let free_entries := u32 (capacity r + tail (cons r) - old_head) in
  let n := burst b n free_entries in
  if n =? 0 then (r, 0, old_head, old_head, free_entries)
  else
    let new_head := u32 (old_head + n) in
    (with_prod r (with_head (prod r) new_head), n, old_head, new_head, free_entries).

Definition rte_ring_move_cons_head (r : rte_ring) (n : Z) (b : rte_ring_queue_behavior) :
    rte_ring * Z * Z * Z * Z :=
  let old_head := head (cons r) in
  let entries := u32 (tail (prod r) - old_head) in
  let n := burst b n entries in
  if n =? 0 then (r, 0, old_head, old_head, entries)
  else
    let new_head := u32 (old_head + n) in
    (with_cons r (with_head (cons r) new_head), n, old_head, new_head, entries).

Definition rte_ring_update_tail (ht : rte_ring_headtail) (old_val new_val : Z) (single : bool) :
    res rte_ring_headtail :=
  if negb single && negb (tail ht =? old_val) then NoFuel
  else Ok (with_tail ht new_val).

(** The ring, the number of objects, and [*free_space]. *)
Definition rte_ring_do_enqueue_elem (r : rte_ring) (obj : list Z) (n : Z)
    (b : rte_ring_queue_behavior) (is_sp : bool) : res (rte_ring * Z * Z) :=
  let '(r1, n, prod_head, prod_next, free_entries) := rte_ring_move_prod_head r n b in
  if n =? 0 then Ok (r1, n, u32 (free_entries - n))
  else
    let* r2 := rte_ring_enqueue_elems_64 r1 prod_head obj n in
    let* ht := rte_ring_update_tail (prod r2) prod_head prod_next is_sp in
    Ok (with_prod r2 ht, n, u32 (free_entries - n)).

(** The ring, the object table, the number of objects, and [*available]. *)
Definition rte_ring_do_dequeue_elem (r : rte_ring) (obj : list Z) (n : Z)
    (b : rte_ring_queue_behavior) (is_sc : bool) : res (rte_ring * list Z * Z * Z) :=
  let '(r1, n, cons_head, cons_next, entries) := rte_ring_move_cons_head r n b in
  if n =? 0 then Ok (r1, obj, n, u32 (entries - n))
  else
    let* o := rte_ring_dequeue_elems_64 r1 cons_head obj n in
    let* ht := rte_ring_update_tail (cons r1) cons_head cons_next is_sc in
    Ok (with_cons r1 ht, o, n, u32 (entries - n)).

(** ** The head/tail sync mode ([rte_ring_hts_elem_pvt.h]) *)

Definition rte_ring_hts_update_tail (ht : rte_ring_headtail) (old_tail num : Z) :
    rte_ring_headtail :=
  with_tail ht (u32 (old_tail + num)).

Definition rte_ring_hts_head_wait (ht : rte_ring_headtail) : res (Z * Z) :=
  if negb (head ht =? tail ht) then NoFuel else Ok (head ht, tail ht).

Definition rte_ring_hts_move_prod_head (r : rte_ring) (num : Z) (b : rte_ring_queue_behavior) :
    res (rte_ring * Z * Z * Z) :=
  let* (ophead, optail) := rte_ring_hts_head_wait (prod r) in
  let free_entries := u32 (capacity r + tail (cons r) - ophead) in
  let n := burst b num free_entries in
  if n =? 0 then Ok (r, n, ophead, free_entries)
  else Ok (with_prod r (with_head (with_tail (prod r) optail) (u32 (ophead + n))),
           n, ophead, free_entries).

Definition rte_ring_hts_move_cons_head (r : rte_ring) (num : Z) (b : rte_ring_queue_behavior) :
    res (rte_ring * Z * Z * Z) :=
  let* (ophead, optail) := rte_ring_hts_head_wait (cons r) in
  let entries := u32 (tail (prod r) - ophead) in
  let n := burst b num entries in
  if n =? 0 then Ok (r, n, ophead, entries)
  else Ok (with_cons r (with_head (with_tail (cons r) optail) (u32 (ophead + n))),
           n, ophead, entries).

Definition rte_ring_do_hts_enqueue_elem (r : rte_ring) (obj : list Z) (n : Z)
    (b : rte_ring_queue_behavior) : res (rte_ring * Z * Z) :=
  let* (r1, n, hd, free) := rte_ring_hts_move_prod_head r n b in
  let* r2 :=
    if negb (n =? 0) then
      let* r2 := rte_ring_enqueue_elems_64 r1 hd obj n in
      Ok (with_prod r2 (rte_ring_hts_update_tail (prod r2) hd n))
    else Ok r1 in
  Ok (r2, n, u32 (free - n)).

Definition rte_ring_do_hts_dequeue_elem (r : rte_ring) (obj : list Z) (n : Z)
    (b : rte_ring_queue_behavior) : res (rte_ring * list Z * Z * Z) :=
  let* (r1, n, hd, entries) := rte_ring_hts_move_cons_head r n b in
  let* (r2, o) :=
    if negb (n =? 0) then
      let* o := rte_ring_dequeue_elems_64 r1 hd obj n in
      Ok (with_cons r1 (rte_ring_hts_update_tail (cons r1) hd n), o)
    else Ok (r1, obj) in
  Ok (r2, o, n, u32 (entries - n)).

(** ** The relaxed tail sync mode ([rte_ring_rts_elem_pvt.h]) *)

Definition rte_ring_rts_update_tail (ht : rte_ring_headtail) : rte_ring_headtail :=
  let cnt := u32 (tail_cnt ht + 1) in
  let pos := if cnt =? head_cnt ht then head ht else tail ht in
  with_tail_cnt (with_tail ht pos) cnt.

Definition rte_ring_rts_head_wait (ht : rte_ring_headtail) : res (Z * Z) :=
  if htd_max ht <? u32 (head ht - tail ht) then NoFuel else Ok (head ht, head_cnt ht).

Definition rte_ring_rts_move_prod_head (r : rte_ring) (num : Z) (b : rte_ring_queue_behavior) :
    res (rte_ring * Z * Z * Z) :=
  let* (ohpos, ohcnt) := rte_ring_rts_head_wait (prod r) in
  let free_entries := u32 (capacity r + tail (cons r) - ohpos) in
  let n := burst b num free_entries in
  if n =? 0 then Ok (r, n, ohpos, free_entries)
  else Ok (with_prod r (with_head_cnt (with_head (prod r) (u32 (ohpos + n))) (u32 (ohcnt + 1))),
           n, ohpos, free_entries).

Definition rte_ring_rts_move_cons_head (r : rte_ring) (num : Z) (b : rte_ring_queue_behavior) :
    res (rte_ring * Z * Z * Z) :=
  let* (ohpos, ohcnt) := rte_ring_rts_head_wait (cons r) in
  let entries := u32 (tail (prod r) - ohpos) in
  let n := burst b num entries in
  if n =? 0 then Ok (r, n, ohpos, entries)
  else Ok (with_cons r (with_head_cnt (with_head (cons r) (u32 (ohpos + n))) (u32 (ohcnt + 1))),
           n, ohpos, entries).

Definition rte_ring_do_rts_enqueue_elem (r : rte_ring) (obj : list Z) (n : Z)
    (b : rte_ring_queue_behavior) : res (rte_ring * Z * Z) :=
  let* (r1, n, hd, free) := rte_ring_rts_move_prod_head r n b in
  let* r2 :=
    if negb (n =? 0) then
      let* r2 := rte_ring_enqueue_elems_64 r1 hd obj n in
      Ok (with_prod r2 (rte_ring_rts_update_tail (prod r2)))
    else Ok r1 in
  Ok (r2, n, u32 (free - n)).

Definition rte_ring_do_rts_dequeue_elem (r : rte_ring) (obj : list Z) (n : Z)
    (b : rte_ring_queue_behavior) : res (rte_ring * list Z * Z * Z) :=
  let* (r1, n, hd, entries) := rte_ring_rts_move_cons_head r n b in
  let* (r2, o) :=
    if negb (n =? 0) then
      let* o := rte_ring_dequeue_elems_64 r1 hd obj n in
      Ok (with_cons r1 (rte_ring_rts_update_tail (cons r1)), o)
    else Ok (r1, obj) in
  Ok (r2, o, n, u32 (entries - n)).

(** ** The interface ([rte_ring.h], [rte_ring_elem.h]) *)

Definition enqueue_elem (r : rte_ring) (obj : list Z) (n : Z) (b : rte_ring_queue_behavior) :
    res (rte_ring * Z * Z) :=
  match sync_type (prod r) with
  | RTE_RING_SYNC_MT => rte_ring_do_enqueue_elem r obj n b false
  | RTE_RING_SYNC_ST => rte_ring_do_enqueue_elem r obj n b true
  | RTE_RING_SYNC_MT_RTS => rte_ring_do_rts_enqueue_elem r obj n b
  | RTE_RING_SYNC_MT_HTS => rte_ring_do_hts_enqueue_elem r obj n b
  end.

Definition dequeue_elem (r : rte_ring) (obj : list Z) (n : Z) (b : rte_ring_queue_behavior) :
    res (rte_ring * list Z * Z * Z) :=
  match sync_type (cons r) with
  | RTE_RING_SYNC_MT => rte_ring_do_dequeue_elem r obj n b false
  | RTE_RING_SYNC_ST => rte_ring_do_dequeue_elem r obj n b true
  | RTE_RING_SYNC_MT_RTS => rte_ring_do_rts_dequeue_elem r obj n b
  | RTE_RING_SYNC_MT_HTS => rte_ring_do_hts_dequeue_elem r obj n b
  end.

Definition rte_ring_enqueue_bulk (r : rte_ring) (obj : list Z) (n : Z) :=
  enqueue_elem r obj n RTE_RING_QUEUE_FIXED.
Definition rte_ring_enqueue_burst (r : rte_ring) (obj : list Z) (n : Z) :=
  enqueue_elem r obj n RTE_RING_QUEUE_VARIABLE.
Definition rte_ring_dequeue_bulk (r : rte_ring) (obj : list Z) (n : Z) :=
  dequeue_elem r obj n RTE_RING_QUEUE_FIXED.
Definition rte_ring_dequeue_burst (r : rte_ring) (obj : list Z) (n : Z) :=
  dequeue_elem r obj n RTE_RING_QUEUE_VARIABLE.

Definition rte_ring_enqueue (r : rte_ring) (obj : Z) : res (rte_ring * Z) :=
  let* (r', n, _) := rte_ring_enqueue_bulk r [obj] 1 in
  Ok (r', if n =? 0 then - ENOBUFS else 0).

(** The object table is the variable the caller's [obj_p] points to. *)
Definition rte_ring_dequeue (r : rte_ring) (obj_p : Z) : res (rte_ring * Z * Z) :=
  let* (r', o, n, _) := rte_ring_dequeue_bulk r [obj_p] 1 in
  let* v := array_get o 0 in
  Ok (r', v, if n =? 0 then - ENOENT else 0).

(** [rte_ring_sp_enqueue] and [rte_ring_sc_dequeue_burst], which ignore the
    ring's own mode. *)
Definition rte_ring_sp_enqueue (r : rte_ring) (obj : Z) : res (rte_ring * Z) :=
  let* (r', n, _) := rte_ring_do_enqueue_elem r [obj] 1 RTE_RING_QUEUE_FIXED true in
  Ok (r', if n =? 0 then - ENOBUFS else 0).

Definition rte_ring_sc_dequeue (r : rte_ring) (obj_p : Z) : res (rte_ring * Z * Z) :=
  let* (r', o, n, _) := rte_ring_do_dequeue_elem r [obj_p] 1 RTE_RING_QUEUE_FIXED true in
  let* v := array_get o 0 in
  Ok (r', v, if n =? 0 then - ENOENT else 0).

Definition rte_ring_sc_dequeue_burst (r : rte_ring) (obj : list Z) (n : Z) :=
  rte_ring_do_dequeue_elem r obj n RTE_RING_QUEUE_VARIABLE true.

Definition rte_ring_count (r : rte_ring) : Z :=
  let count := Z.land (u32 (tail (prod r) - tail (cons r))) (mask r) in
  if capacity r <? count then capacity r else count.
Definition rte_ring_free_count (r : rte_ring) : Z := u32 (capacity r - rte_ring_count r).
Definition rte_ring_full (r : rte_ring) : bool := rte_ring_free_count r =? 0.
Definition rte_ring_empty (r : rte_ring) : bool := tail (cons r) =? tail (prod r).

End Ring.
