(* ===== verification/RingProofs.v ===== *)
(** * Proofs about the rings

    [ring_ok] is the well-formedness of a ring no thread is working on, and
    [contents] the sequence of objects it holds.  The interface operations,
    in every synchronisation mode, implement a bounded queue: enqueueing
    appends to [contents], dequeueing takes from its front, whatever the
    values of the free-running indices. *)

From stdpp Require Import strings.
From S2P Require Import Prelude Fifo Ring.

Import Ring.

(** ** The invariant and the abstraction *)

Record ht_ok (ht : rte_ring_headtail) : Prop := {
  ht_quiet : head ht = tail ht;
  ht_range : 0 <= tail ht < 2 ^ 32;
  ht_cnt : head_cnt ht = tail_cnt ht;
  ht_max : 0 <= htd_max ht
}.

Definition count (r : rte_ring) : Z := u32 (tail (prod r) - tail (cons r)).

(** The sizes and the memory. *)
Record geom_ok (r : rte_ring) : Prop := {
  ok_size : exists k, 0 <= k <= 31 /\ size r = 2 ^ k;
  ok_mask : mask r = size r - 1;
  ok_capacity : 0 <= capacity r < size r;
  ok_mem : size r <= Z.of_nat (length (ring r))
}.

Record ring_ok (r : rte_ring) : Prop := {
  ok_geom : geom_ok r;
  ok_prod : ht_ok (prod r);
  ok_cons : ht_ok (cons r);
  ok_count : count r <= capacity r
}.

(** The object at an index of the producer or the consumer. *)
Definition slot (r : rte_ring) (p : Z) : Z := ring r !!! Z.to_nat (p mod size r).

Definition contents (r : rte_ring) : list Z :=
  (fun j => slot r (tail (cons r) + j)) <$> seqZ 0 (count r).

(** What no operation changes. *)
Definition same_ring (r r' : rte_ring) : Prop :=
  name r' = name r /\ flags r' = flags r /\ size r' = size r /\ capacity r' = capacity r /\
  sync_type (prod r') = sync_type (prod r) /\ sync_type (cons r') = sync_type (cons r).

(** ** Indices *)

Lemma mod_wrap k z : 0 <= k <= 32 -> u32 z mod 2 ^ k = z mod 2 ^ k.
Proof.
  intros Hk. unfold wrapu. apply Z.mod_mod_divide.
  exists (2 ^ (32 - k)). rewrite <- Z.pow_add_r by lia. f_equal. lia.
Qed.

Lemma size_pos r : geom_ok r -> 0 < size r <= 2 ^ 31.
Proof.
  intros [(k & Hk & ->) _ _ _]. split.
  - apply Z.pow_pos_nonneg; lia.
  - apply Z.pow_le_mono_r; lia.
Qed.

Lemma size_wrap r z : geom_ok r -> u32 z mod size r = z mod size r.
Proof. intros [(k & Hk & ->) _ _ _]. apply mod_wrap. lia. Qed.

Lemma mask_mod r z : geom_ok r -> Z.land z (mask r) = z mod size r.
Proof. intros [(k & Hk & Hs) -> _ _]. rewrite Hs. apply land_mask. lia. Qed.

Lemma count_nonneg r : 0 <= count r.
Proof. apply wrapu_range. lia. Qed.

Lemma length_contents r : Z.of_nat (length (contents r)) = count r.
Proof. unfold contents. rewrite length_fmap, length_seqZ. pose proof (count_nonneg r). lia. Qed.

Lemma contents_lookup r j :
  0 <= j < count r -> contents r !! Z.to_nat j = Some (slot r (tail (cons r) + j)).
Proof.
  intros Hj. unfold contents. rewrite list_lookup_fmap, lookup_seqZ_lt by lia. simpl.
  do 2 f_equal. lia.
Qed.

Lemma slot_lookup r p :
  geom_ok r -> ring r !! Z.to_nat (p mod size r) = Some (slot r p).
Proof.
  intros Hok. pose proof (size_pos r Hok) as Hs. pose proof (ok_mem r Hok).
  apply list_lookup_lookup_total_lt.
  pose proof (Z.mod_pos_bound p (size r)). lia.
Qed.

(** Equal sequences, by index. *)
Lemma list_eq_Z {A} (l1 l2 : list A) :
  length l1 = length l2 ->
  (forall j, 0 <= j < Z.of_nat (length l1) -> l1 !! Z.to_nat j = l2 !! Z.to_nat j) -> l1 = l2.
Proof.
  intros Hl Hj. apply list_eq. intros i. destruct (decide (i < length l1)%nat).
  - specialize (Hj (Z.of_nat i)). rewrite Nat2Z.id in Hj. apply Hj. lia.
  - by rewrite !lookup_ge_None_2 by lia.
Qed.

(** ** Copies *)

Lemma copy_run_app {A} a b (src dst : list A) si di :
  copy_run (a + b) src si dst di =
  let* m := copy_run a src si dst di in
  copy_run b src (si + Z.of_nat a) m (di + Z.of_nat a).
Proof.
  revert si dst di. induction a as [|a IH]; intros si dst di.
  - simpl. by rewrite !Z.add_0_r.
  - cbn [Nat.add copy_run]. destruct (array_get src si); [|done..]. simpl.
    destruct (array_set dst di a0); [|done..]. simpl. rewrite IH.
    destruct (copy_run a src (si + 1) a1 (di + 1)); [|done..]. simpl. f_equal; lia.
Qed.

(** The unrolled loop copies one object after the other. *)
Lemma copy4_run k src si dst di : copy4 k src si dst di = copy_run (4 * k) src si dst di.
Proof.
  revert si dst di. induction k as [|k IH]; intros si dst di; [done|].
  replace (4 * S k)%nat with (S (S (S (S (4 * k))))) by lia.
  cbn [copy4 copy_run].
  replace (si + 1 + 1) with (si + 2) by lia. replace (si + 2 + 1) with (si + 3) by lia.
  replace (si + 3 + 1) with (si + 4) by lia.
  replace (di + 1 + 1) with (di + 2) by lia. replace (di + 2 + 1) with (di + 3) by lia.
  replace (di + 3 + 1) with (di + 4) by lia.
  repeat (match goal with
          | |- res_bind ?m _ = res_bind ?m _ => destruct m; [simpl|done..]
          end).
  apply IH.
Qed.

Lemma ldiff3 n : 0 <= n -> Z.ldiff n 3 = 4 * (n / 4) /\ Z.land n 3 = n mod 4.
Proof.
  intros Hn. assert (Z.land n 3 = n mod 4) as Hl by exact (land_mask n 2 ltac:(lia)).
  split; [|done]. pose proof (Z.add_lor_land (Z.ldiff n 3) (Z.land n 3)) as Ha.
  assert (Z.lor (Z.ldiff n 3) (Z.land n 3) = n) as H1 by bitwise.
  assert (Z.land (Z.ldiff n 3) (Z.land n 3) = 0) as H2 by bitwise.
  rewrite H1, H2, Hl in Ha. pose proof (Z.div_mod n 4 ltac:(lia)). lia.
Qed.

(** Four at a time and then the rest is all of them. *)
Lemma unrolled_run n src si dst di si' di' :
  0 <= n -> si' = si + Z.ldiff n 3 -> di' = di + Z.ldiff n 3 ->
  (let* m := copy4 (Z.to_nat (Z.ldiff n 3 / 4)) src si dst di in
   copy_run (Z.to_nat (Z.land n 3)) src si' m di')
  = copy_run (Z.to_nat n) src si dst di.
Proof.
  intros Hn -> ->. destruct (ldiff3 n Hn) as [-> ->]. rewrite copy4_run.
  pose proof (Z.div_mod n 4 ltac:(lia)). pose proof (Z.mod_pos_bound n 4 ltac:(lia)).
  replace (4 * (n / 4) / 4) with (n / 4) by (rewrite Z.mul_comm, Z.div_mul; lia).
  replace (Z.to_nat n) with (4 * Z.to_nat (n / 4) + Z.to_nat (n mod 4))%nat
    by (pose proof (Z.div_pos n 4); lia).
  rewrite copy_run_app. pose proof (Z.div_pos n 4 ltac:(lia) ltac:(lia)).
  replace (Z.of_nat (4 * Z.to_nat (n / 4))) with (4 * (n / 4)) by lia. done.
Qed.

Lemma land_idx r h : geom_ok r -> exists idx : nat,
  Z.land h (mask r) = Z.of_nat idx /\ Z.of_nat idx = h mod size r /\ Z.of_nat idx < size r.
Proof.
  intros Hg. pose proof (size_pos r Hg). pose proof (Z.mod_pos_bound h (size r)).
  exists (Z.to_nat (h mod size r)). rewrite mask_mod by done. lia.
Qed.

(** The distance of a slot from the slot of [h]. *)
Lemma mod_dist s h q idx :
  0 < s -> idx = h mod s -> 0 <= q < s ->
  (q - h) mod s = if decide (idx <= q) then q - idx else q + s - idx.
Proof.
  intros Hs -> Hq. pose proof (Z.mod_pos_bound h s Hs). pose proof (Z.div_mod h s ltac:(lia)).
  case_decide; symmetry.
  - apply (Z.mod_unique_pos _ _ (- (h / s))); lia.
  - apply (Z.mod_unique_pos _ _ (- (h / s) - 1)); lia.
Qed.

(** Storing [n] objects from index [h] on fills the [n] slots that follow,
    around the end of the array, and no other. *)
Lemma enqueue_elems_spec r h obj n :
  geom_ok r -> 0 <= n <= size r -> n <= Z.of_nat (length obj) ->
  exists mem, rte_ring_enqueue_elems_64 r h obj n = Ok (with_ring r mem) /\
    length mem = length (ring r) /\
    forall q, 0 <= q < size r -> mem !! Z.to_nat q =
      if decide ((q - h) mod size r < n) then obj !! Z.to_nat ((q - h) mod size r)
      else ring r !! Z.to_nat q.
Proof.
  intros Hg Hn Hobj. pose proof (size_pos r Hg) as Hs. pose proof (ok_mem r Hg) as Hm.
  destruct (land_idx r h Hg) as (idx & Hidx & Hmod & Hlt).
  unfold rte_ring_enqueue_elems_64. rewrite Hidx.
  rewrite (wrapu_small 32) by lia. destruct (Z.leb_spec (Z.of_nat idx + n) (size r)).
  - rewrite unrolled_run by lia.
    destruct (copy_run_spec (Z.to_nat n) obj (ring r) 0 idx) as (mem & Hc & Hl & Hq); [lia..|].
    change (Z.of_nat 0) with 0 in Hc. rewrite Hc. exists mem. split; [done|]. split; [done|].
    intros q Hr. rewrite Hq, (mod_dist (size r) h q _ ltac:(lia) Hmod Hr).
    repeat case_decide; try lia; try done. f_equal. lia.
  - set (i := (Z.to_nat (size r) - idx)%nat).
    replace (size r - Z.of_nat idx) with (Z.of_nat i) by lia. rewrite Nat2Z.id.
    destruct (copy_run_spec i obj (ring r) 0 idx) as (m1 & Hc1 & Hl1 & Hq1); [lia..|].
    change (Z.of_nat 0) with 0 in Hc1. rewrite Hc1. cbn [res_bind].
    destruct (copy_run_spec (Z.to_nat (n - Z.of_nat i)) obj m1 i 0) as (mem & Hc & Hl & Hq);
      [lia..|].
    change (Z.of_nat 0) with 0 in Hc. rewrite Hc. exists mem.
    split; [done|]. split; [congruence|].
    intros q Hr. rewrite Hq, Hq1, (mod_dist (size r) h q _ ltac:(lia) Hmod Hr).
    repeat case_decide; try lia; try done; f_equal; lia.
Qed.

(** Reading [n] objects from index [h] on takes the [n] slots that follow,
    around the end of the array. *)
Lemma dequeue_elems_spec r h obj n :
  geom_ok r -> 0 <= n <= size r -> n <= Z.of_nat (length obj) ->
  rte_ring_dequeue_elems_64 r h obj n =
  Ok (((fun j => slot r (h + j)) <$> seqZ 0 n) ++ drop (Z.to_nat n) obj).
Proof.
  intros Hg Hn Hobj. pose proof (size_pos r Hg) as Hs. pose proof (ok_mem r Hg) as Hm.
  destruct (land_idx r h Hg) as (idx & Hidx & Hmod & Hlt).
  assert (forall o, length o = length obj ->
    (forall j, 0 <= j < Z.of_nat (length obj) -> o !! Z.to_nat j =
       if decide (j < n)
       then ring r !! Z.to_nat (if decide (Z.of_nat idx + j < size r) then Z.of_nat idx + j
                                else Z.of_nat idx + j - size r)
       else obj !! Z.to_nat j) ->
    o = ((fun j => slot r (h + j)) <$> seqZ 0 n) ++ drop (Z.to_nat n) obj) as Hfin.
  { intros o Hl Hj. apply list_eq_Z.
    { rewrite length_app, length_fmap, length_seqZ, length_drop. lia. }
    intros j Hr. rewrite Hj by lia. case_decide.
    - rewrite lookup_app_l by (rewrite length_fmap, length_seqZ; lia).
      rewrite list_lookup_fmap, lookup_seqZ_lt by lia. cbn [fmap option_fmap option_map].
      rewrite <- slot_lookup by done. f_equal. f_equal. rewrite <- (Z.add_mod_idemp_l h) by lia.
      rewrite <- Hmod. case_decide.
      + rewrite Z.mod_small; lia.
      + apply (Z.mod_unique_pos _ _ 1); lia.
    - rewrite lookup_app_r by (rewrite length_fmap, length_seqZ; lia).
      rewrite lookup_drop, length_fmap, length_seqZ. f_equal. lia. }
  unfold rte_ring_dequeue_elems_64. rewrite Hidx.
  rewrite (wrapu_small 32) by lia. destruct (Z.leb_spec (Z.of_nat idx + n) (size r)).
  - rewrite unrolled_run by lia.
    destruct (copy_run_spec (Z.to_nat n) (ring r) obj idx 0) as (o & Hc & Hl & Hq); [lia..|].
    change (Z.of_nat 0) with 0 in Hc. rewrite Hc. f_equal. apply Hfin; [done|].
    intros j Hr. rewrite Hq. repeat case_decide; try lia; try done. f_equal. lia.
  - set (i := (Z.to_nat (size r) - idx)%nat).
    replace (size r - Z.of_nat idx) with (Z.of_nat i) by lia. rewrite Nat2Z.id.
    destruct (copy_run_spec i (ring r) obj idx 0) as (m1 & Hc1 & Hl1 & Hq1); [lia..|].
    change (Z.of_nat 0) with 0 in Hc1. rewrite Hc1. cbn [res_bind].
    destruct (copy_run_spec (Z.to_nat (n - Z.of_nat i)) (ring r) m1 0 i) as (o & Hc & Hl & Hq);
      [lia..|].
    change (Z.of_nat 0) with 0 in Hc. rewrite Hc. f_equal. apply Hfin; [congruence|].
    intros j Hr. rewrite Hq, Hq1. repeat case_decide; try lia; try done; f_equal; lia.
Qed.

(** ** Pushing and popping *)

(** [r'] is [r] with [xs] appended. *)
Definition enqueued (r : rte_ring) (xs : list Z) (r' : rte_ring) : Prop :=
  ring_ok r' /\ same_ring r r' /\ contents r' = contents r ++ xs.

(** [r'] is [r] with [xs] taken from the front. *)
Definition dequeued (r : rte_ring) (xs : list Z) (r' : rte_ring) : Prop :=
  ring_ok r' /\ same_ring r r' /\ contents r = xs ++ contents r'.

Lemma same_ring_refl r : same_ring r r.
Proof. done. Qed.

Lemma enqueued_nil r : ring_ok r -> enqueued r [] r.
Proof. intros. split; [done|]. split; [done|]. by rewrite app_nil_r. Qed.

Lemma dequeued_nil r : ring_ok r -> dequeued r [] r.
Proof. done. Qed.

Lemma count_wrap r : ring_ok r -> tail (prod r) = u32 (tail (cons r) + count r).
Proof.
  intros [_ [_ Hp _ _] [_ Hc _ _] _]. unfold count.
  change (2 ^ 32) with 4294967296 in *. wrap_lia.
Qed.

Lemma push_spec r r' obj n mem :
  ring_ok r -> 0 <= n -> count r + n <= capacity r -> n <= Z.of_nat (length obj) ->
  length mem = length (ring r) ->
  (forall q, 0 <= q < size r -> mem !! Z.to_nat q =
     if decide ((q - tail (prod r)) mod size r < n)
     then obj !! Z.to_nat ((q - tail (prod r)) mod size r) else ring r !! Z.to_nat q) ->
  same_ring r r' -> mask r' = mask r -> ring r' = mem -> cons r' = cons r ->
  ht_ok (prod r') -> tail (prod r') = u32 (tail (prod r) + n) ->
  enqueued r (take (Z.to_nat n) obj) r'.
Proof.
  intros Hok Hn Hcap Hobj Hlen Hmem Hsame Hmask Hring Hcons Hht Htail.
  destruct Hsame as (Hsn & Hsf & Hsz & Hsc & Hsp & Hss).
  pose proof (ok_geom r Hok) as Hg. pose proof (size_pos r Hg) as Hs.
  pose proof (ok_capacity r Hg) as Hcap'. pose proof (count_nonneg r) as Hc0.
  assert (count r' = count r + n) as Hcnt.
  { unfold count at 1. rewrite Hcons, Htail, (count_wrap r Hok).
    pose proof (ht_range _ (ok_cons r Hok)).
    change (2 ^ 32) with 4294967296 in *. change (2 ^ 31) with 2147483648 in *. wrap_lia. }
  assert (geom_ok r') as Hg'.
  { destruct Hg as [Hk Hm _ Hmm]. split; rewrite ?Hsz, ?Hsc, ?Hmask, ?Hring, ?Hlen; done. }
  split; [|split].
  - split; rewrite ?Hcons; try done; [by destruct Hok|]. rewrite Hcnt, Hsc. done.
  - done.
  - apply list_eq_Z.
    { apply Nat2Z.inj. rewrite length_contents, length_app, Nat2Z.inj_add, length_contents, length_take. lia. }
    rewrite length_contents, Hcnt. intros j Hj. rewrite contents_lookup by lia.
    rewrite <- slot_lookup by done. rewrite Hring, Hsz, Hcons.
    rewrite Hmem by (apply Z.mod_pos_bound; lia).
    assert (forall d, 0 <= d < size r ->
      (exists q, (tail (cons r) + j) - tail (prod r) = d + q * size r) ->
      ((tail (cons r) + j) mod size r - tail (prod r)) mod size r = d) as Hd.
    { intros d Hd [q Hq]. rewrite Zminus_mod_idemp_l, Hq, Z.mod_add by lia.
      by apply Z.mod_small. }
    destruct (ok_size r Hg) as (k & Hk & Hpow).
    assert (exists q, (tail (cons r) + j) - tail (prod r) = j - count r + q * size r) as [q Hq].
    { destruct (u32_spec (tail (cons r) + count r)) as (x & Hx & _).
      exists (- x * 2 ^ (32 - k)). rewrite (count_wrap r Hok), Hx, Hpow.
      rewrite <- Z.mul_assoc, <- Z.pow_add_r by lia.
      replace (32 - k + k) with 32 by lia. change (2 ^ 32) with 4294967296. lia. }
    destruct (decide (j < count r)).
    + rewrite (Hd (j - count r + size r)) by (try lia; exists (q - 1); lia).
      rewrite decide_False by lia. rewrite lookup_app_l by (pose proof (length_contents r); lia).
      rewrite contents_lookup by lia. apply slot_lookup. done.
    + rewrite (Hd (j - count r)) by (try lia; by exists q).
      rewrite decide_True by lia. rewrite lookup_app_r by (pose proof (length_contents r); lia).
      rewrite lookup_take_lt by (pose proof (length_contents r); lia).
      f_equal. pose proof (length_contents r). lia.
Qed.

Lemma pop_spec r r' n :
  ring_ok r -> 0 <= n <= count r ->
  same_ring r r' -> mask r' = mask r -> ring r' = ring r -> prod r' = prod r ->
  ht_ok (cons r') -> tail (cons r') = u32 (tail (cons r) + n) ->
  dequeued r ((fun j => slot r (tail (cons r) + j)) <$> seqZ 0 n) r'.
Proof.
  intros Hok Hn Hsame Hmask Hring Hprod Hht Htail.
  destruct Hsame as (Hsn & Hsf & Hsz & Hsc & Hsp & Hss).
  pose proof (ok_geom r Hok) as Hg. pose proof (size_pos r Hg) as Hs.
  assert (count r' = count r - n) as Hcnt.
  { unfold count at 1. rewrite Hprod, Htail, (count_wrap r Hok).
    pose proof (ht_range _ (ok_cons r Hok)). pose proof (ok_count r Hok).
    pose proof (ok_capacity r Hg).
    change (2 ^ 32) with 4294967296 in *. change (2 ^ 31) with 2147483648 in *. wrap_lia. }
  split; [|split].
  - split; rewrite ?Hprod; try done; [|by destruct Hok|].
    + destruct Hg as [Hk Hm Hc Hmm]. split; rewrite ?Hsz, ?Hsc, ?Hmask, ?Hring; done.
    + rewrite Hcnt, Hsc. pose proof (ok_count r Hok). lia.
  - done.
  - unfold contents at 1. replace (count r) with (n + count r') by lia.
    rewrite seqZ_app, fmap_app by (pose proof (count_nonneg r'); lia). f_equal.
    unfold contents. rewrite Z.add_0_l. rewrite <- (Z.add_0_r n) at 1. rewrite <- fmap_add_seqZ, <- list_fmap_compose.
    apply list_fmap_ext. intros i j Hj. cbn. unfold slot. rewrite Hring, Hsz, Htail.
    f_equal. f_equal. rewrite <- (Z.add_mod_idemp_l (u32 _)), size_wrap, Z.add_mod_idemp_l by (done || lia).
    f_equal. lia.
Qed.

(** ** The operations of each mode *)

Lemma burst_range b n avail :
  0 <= n -> 0 <= avail -> 0 <= burst b n avail /\ burst b n avail <= n /\ burst b n avail <= avail.
Proof. intros. unfold burst. destruct (Z.ltb_spec avail n), b; lia. Qed.

Lemma free_entries_spec r :
  ring_ok r -> u32 (capacity r + tail (cons r) - tail (prod r)) = capacity r - count r.
Proof.
  intros Hok. pose proof (count_nonneg r). pose proof (ok_count r Hok).
  pose proof (size_pos r (ok_geom r Hok)). pose proof (ok_capacity r (ok_geom r Hok)).
  rewrite (count_wrap r Hok).
  change (2 ^ 32) with 4294967296 in *. change (2 ^ 31) with 2147483648 in *. wrap_lia.
Qed.

Lemma free_wrap r m :
  ring_ok r -> 0 <= m <= capacity r - count r ->
  u32 (capacity r - count r - m) = capacity r - count r - m.
Proof.
  intros Hok Hm. apply (wrapu_small 32).
  pose proof (count_nonneg r). pose proof (size_pos r (ok_geom r Hok)).
  pose proof (ok_capacity r (ok_geom r Hok)). lia.
Qed.

Lemma count_sub_wrap r m : ring_ok r -> 0 <= m <= count r -> u32 (count r - m) = count r - m.
Proof.
  intros Hok Hm. apply (wrapu_small 32). pose proof (ok_count r Hok).
  pose proof (size_pos r (ok_geom r Hok)). pose proof (ok_capacity r (ok_geom r Hok)). lia.
Qed.

(** Geometry does not depend on the heads and the tails. *)
Lemma geom_with_prod r ht : geom_ok r -> geom_ok (with_prod r ht).
Proof. by intros []. Qed.
Lemma geom_with_cons r ht : geom_ok r -> geom_ok (with_cons r ht).
Proof. by intros []. Qed.

Create HintDb ring.
#[export] Hint Resolve geom_with_prod geom_with_cons ok_geom same_ring_refl
  enqueued_nil dequeued_nil ok_prod ok_cons : ring.

Section Enqueue.
Context (r : rte_ring) (obj : list Z) (n : Z) (b : rte_ring_queue_behavior).
Context (Hok : ring_ok r) (Hn : 0 <= n) (Hobj : n <= Z.of_nat (length obj)).

Let m := burst b n (capacity r - count r).

Lemma enqueue_m : 0 <= m /\ m <= n /\ m <= capacity r - count r.
Proof. apply burst_range; [done|]. pose proof (ok_count r Hok). lia. Qed.

(** Every mode moves the head, fills the slots from the old head on, and
    leaves [prod] at [ht']. *)
Lemma enqueue_mode ht1 (ht' : rte_ring_headtail) :
  m <> 0 -> ht_ok ht' -> tail ht' = u32 (tail (prod r) + m) ->
  sync_type ht' = sync_type (prod r) ->
  exists mem, rte_ring_enqueue_elems_64 (with_prod r ht1) (tail (prod r)) obj m
                = Ok (with_ring (with_prod r ht1) mem) /\
    enqueued r (take (Z.to_nat m) obj) (with_prod (with_ring (with_prod r ht1) mem) ht').
Proof.
  intros Hm Hht Htail Hst. pose proof enqueue_m as Hr.
  pose proof (ok_capacity r (ok_geom r Hok)). pose proof (count_nonneg r).
  destruct (enqueue_elems_spec (with_prod r ht1) (tail (prod r)) obj m)
    as (mem & He & Hl & Hq); [eauto with ring|cbn; lia..|].
  exists mem. split; [done|].
  eapply push_spec; try done; try lia.
Qed.

Lemma do_enqueue_spec is_sp :
  exists r', rte_ring_do_enqueue_elem r obj n b is_sp = Ok (r', m, capacity r - count r - m) /\
    enqueued r (take (Z.to_nat m) obj) r'.
Proof.
  destruct (ok_prod r Hok) as [Hq Hr Hc Hx]. pose proof enqueue_m as Hm.
  unfold rte_ring_do_enqueue_elem, rte_ring_move_prod_head.
  rewrite Hq, free_entries_spec by done. fold m.
  destruct (Z.eqb_spec m 0) as [E|E].
  - rewrite Z.eqb_refl, E, free_wrap by (done || lia).
    exists r. split; [done|]. eauto with ring.
  - destruct (Z.eqb_spec m 0); [done|].
    edestruct (enqueue_mode (with_head (prod r) (u32 (tail (prod r) + m)))
      (with_tail (with_head (prod r) (u32 (tail (prod r) + m))) (u32 (tail (prod r) + m))))
      as (mem & -> & Henq); [done| |done|done|].
    { split; try done. cbn. apply wrapu_range. lia. }
    cbn [res_bind]. unfold rte_ring_update_tail. cbn [prod with_ring with_prod tail with_head].
    rewrite Z.eqb_refl, andb_false_r. cbn [res_bind]. rewrite free_wrap by (done || lia).
    by eexists.
Qed.

Lemma do_hts_enqueue_spec :
  exists r', rte_ring_do_hts_enqueue_elem r obj n b = Ok (r', m, capacity r - count r - m) /\
    enqueued r (take (Z.to_nat m) obj) r'.
Proof.
  destruct (ok_prod r Hok) as [Hq Hr Hc Hx]. pose proof enqueue_m as Hm.
  unfold rte_ring_do_hts_enqueue_elem, rte_ring_hts_move_prod_head, rte_ring_hts_head_wait.
  rewrite Hq, Z.eqb_refl. cbn [negb res_bind]. rewrite free_entries_spec by done. fold m.
  destruct (Z.eqb_spec m 0) as [E|E]; cbn [res_bind].
  - rewrite E. cbn. rewrite free_wrap by (done || lia).
    exists r. split; [done|]. eauto with ring.
  - destruct (Z.eqb_spec m 0); [done|]. cbn [negb].
    edestruct (enqueue_mode
      (with_head (with_tail (prod r) (tail (prod r))) (u32 (tail (prod r) + m)))
      (rte_ring_hts_update_tail
      (with_head (with_tail (prod r) (tail (prod r))) (u32 (tail (prod r) + m)))
      (tail (prod r)) m)) as (mem & -> & Henq); [done| |done|done|].
    { split; try done. cbn. apply wrapu_range. lia. }
    cbn [res_bind]. rewrite free_wrap by (done || lia). by eexists.
Qed.

Lemma do_rts_enqueue_spec :
  exists r', rte_ring_do_rts_enqueue_elem r obj n b = Ok (r', m, capacity r - count r - m) /\
    enqueued r (take (Z.to_nat m) obj) r'.
Proof.
  destruct (ok_prod r Hok) as [Hq Hr Hc Hx]. pose proof enqueue_m as Hm.
  unfold rte_ring_do_rts_enqueue_elem, rte_ring_rts_move_prod_head, rte_ring_rts_head_wait.
  rewrite Hq, Z.sub_diag. change (u32 0) with 0.
  destruct (Z.ltb_spec (htd_max (prod r)) 0); [lia|]. cbn [res_bind].
  rewrite free_entries_spec by done. fold m.
  destruct (Z.eqb_spec m 0) as [E|E]; cbn [res_bind].
  - rewrite E. cbn. rewrite free_wrap by (done || lia).
    exists r. split; [done|]. eauto with ring.
  - destruct (Z.eqb_spec m 0); [done|]. cbn [negb].
    edestruct (enqueue_mode
      (with_head_cnt (with_head (prod r) (u32 (tail (prod r) + m))) (u32 (head_cnt (prod r) + 1)))
      (rte_ring_rts_update_tail
      (with_head_cnt (with_head (prod r) (u32 (tail (prod r) + m)))
        (u32 (head_cnt (prod r) + 1))))) as (mem & -> & Henq); [done| | |done|].
    { split; cbn; rewrite ?Hc, ?Z.eqb_refl; try done. apply wrapu_range. lia. }
    { cbn. by rewrite Hc, Z.eqb_refl. }
    cbn [res_bind]. rewrite free_wrap by (done || lia). by eexists.
Qed.

Lemma enqueue_elem_spec :
  exists r', enqueue_elem r obj n b = Ok (r', m, capacity r - count r - m) /\
    enqueued r (take (Z.to_nat m) obj) r'.
Proof.
  unfold enqueue_elem. destruct (sync_type (prod r));
    eauto using do_enqueue_spec, do_rts_enqueue_spec, do_hts_enqueue_spec.
Qed.
End Enqueue.

Section Dequeue.
Context (r : rte_ring) (obj : list Z) (n : Z) (b : rte_ring_queue_behavior).
Context (Hok : ring_ok r) (Hn : 0 <= n) (Hobj : n <= Z.of_nat (length obj)).

Let m := burst b n (count r).
Let xs := take (Z.to_nat m) (contents r).

Lemma dequeue_m : 0 <= m /\ m <= n /\ m <= count r.
Proof. apply burst_range; [done|]. apply count_nonneg. Qed.

Lemma dequeue_xs : (fun j => slot r (tail (cons r) + j)) <$> seqZ 0 m = xs.
Proof.
  pose proof dequeue_m. unfold xs, contents. rewrite <- fmap_take.
  replace (count r) with (m + (count r - m)) by lia. rewrite seqZ_app by lia.
  by rewrite take_app_length' by (rewrite length_seqZ; lia).
Qed.

(** Every mode moves the head, reads the slots from the old head on, and
    leaves [cons] at [ht']. *)
Lemma dequeue_mode ht1 (ht' : rte_ring_headtail) :
  ht_ok ht' -> tail ht' = u32 (tail (cons r) + m) -> sync_type ht' = sync_type (cons r) ->
  rte_ring_dequeue_elems_64 (with_cons r ht1) (tail (cons r)) obj m
    = Ok (xs ++ drop (Z.to_nat m) obj) /\
  dequeued r xs (with_cons (with_cons r ht1) ht').
Proof.
  intros Hht Htail Hst. pose proof dequeue_m as Hr.
  pose proof (ok_capacity r (ok_geom r Hok)). pose proof (ok_count r Hok). split.
  - rewrite dequeue_elems_spec; [|eauto with ring|cbn; lia..].
    rewrite <- dequeue_xs. done.
  - rewrite <- dequeue_xs. eapply pop_spec; try done; lia.
Qed.

Lemma do_dequeue_spec is_sc :
  exists r', rte_ring_do_dequeue_elem r obj n b is_sc
    = Ok (r', xs ++ drop (Z.to_nat m) obj, m, count r - m) /\ dequeued r xs r'.
Proof.
  destruct (ok_cons r Hok) as [Hq Hr Hc Hx]. pose proof dequeue_m as Hm.
  unfold rte_ring_do_dequeue_elem, rte_ring_move_cons_head. rewrite Hq.
  fold (count r). fold m. destruct (Z.eqb_spec m 0) as [E|E].
  - rewrite Z.eqb_refl. rewrite count_sub_wrap by (done || lia). unfold xs. rewrite E. cbn.
    exists r. split; [done|]. eauto with ring.
  - destruct (Z.eqb_spec m 0); [done|].
    destruct (dequeue_mode (with_head (cons r) (u32 (tail (cons r) + m)))
      (with_tail (with_head (cons r) (u32 (tail (cons r) + m))) (u32 (tail (cons r) + m))))
      as [-> Hdeq]; [|done|done|].
    { split; try done. cbn. apply wrapu_range. lia. }
    cbn [res_bind]. unfold rte_ring_update_tail. cbn [cons with_cons tail with_head].
    rewrite Z.eqb_refl, andb_false_r. cbn [res_bind].
    rewrite count_sub_wrap by (done || lia). by eexists.
Qed.

Lemma do_hts_dequeue_spec :
  exists r', rte_ring_do_hts_dequeue_elem r obj n b
    = Ok (r', xs ++ drop (Z.to_nat m) obj, m, count r - m) /\ dequeued r xs r'.
Proof.
  destruct (ok_cons r Hok) as [Hq Hr Hc Hx]. pose proof dequeue_m as Hm.
  unfold rte_ring_do_hts_dequeue_elem, rte_ring_hts_move_cons_head, rte_ring_hts_head_wait.
  rewrite Hq, Z.eqb_refl. cbn [negb res_bind]. fold (count r). fold m.
  destruct (Z.eqb_spec m 0) as [E|E]; cbn [res_bind].
  - unfold xs. rewrite E. cbn. rewrite count_sub_wrap by (done || lia).
    exists r. split; [done|]. eauto with ring.
  - destruct (Z.eqb_spec m 0); [done|]. cbn [negb].
    destruct (dequeue_mode
      (with_head (with_tail (cons r) (tail (cons r))) (u32 (tail (cons r) + m)))
      (rte_ring_hts_update_tail
        (with_head (with_tail (cons r) (tail (cons r))) (u32 (tail (cons r) + m)))
        (tail (cons r)) m)) as [-> Hdeq]; [|done|done|].
    { split; try done. cbn. apply wrapu_range. lia. }
    cbn [res_bind]. rewrite count_sub_wrap by (done || lia). by eexists.
Qed.

Lemma do_rts_dequeue_spec :
  exists r', rte_ring_do_rts_dequeue_elem r obj n b
    = Ok (r', xs ++ drop (Z.to_nat m) obj, m, count r - m) /\ dequeued r xs r'.
Proof.
  destruct (ok_cons r Hok) as [Hq Hr Hc Hx]. pose proof dequeue_m as Hm.
  unfold rte_ring_do_rts_dequeue_elem, rte_ring_rts_move_cons_head, rte_ring_rts_head_wait.
  rewrite Hq, Z.sub_diag. change (u32 0) with 0.
  destruct (Z.ltb_spec (htd_max (cons r)) 0); [lia|]. cbn [res_bind].
  fold (count r). fold m. destruct (Z.eqb_spec m 0) as [E|E]; cbn [res_bind].
  - unfold xs. rewrite E. cbn. rewrite count_sub_wrap by (done || lia).
    exists r. split; [done|]. eauto with ring.
  - destruct (Z.eqb_spec m 0); [done|]. cbn [negb].
    destruct (dequeue_mode
      (with_head_cnt (with_head (cons r) (u32 (tail (cons r) + m))) (u32 (head_cnt (cons r) + 1)))
      (rte_ring_rts_update_tail
        (with_head_cnt (with_head (cons r) (u32 (tail (cons r) + m)))
          (u32 (head_cnt (cons r) + 1))))) as [-> Hdeq].
    { split; cbn; rewrite ?Hc, ?Z.eqb_refl; try done. apply wrapu_range. lia. }
    { cbn. by rewrite Hc, Z.eqb_refl. }
    { done. }
    cbn [res_bind]. rewrite count_sub_wrap by (done || lia). by eexists.
Qed.

Lemma dequeue_elem_spec :
  exists r', dequeue_elem r obj n b
    = Ok (r', xs ++ drop (Z.to_nat m) obj, m, count r - m) /\ dequeued r xs r'.
Proof.
  unfold dequeue_elem. destruct (sync_type (cons r));
    eauto using do_dequeue_spec, do_rts_dequeue_spec, do_hts_dequeue_spec.
Qed.
End Dequeue.

(** ** Creation *)

Lemma POWEROF2_spec x : 0 < x < 2 ^ 32 -> POWEROF2 x = true -> exists k, 0 <= k /\ x = 2 ^ k.
Proof.
  intros Hx Hp. unfold POWEROF2 in Hp. rewrite (wrapu_small 32) in Hp by lia.
  apply Z.eqb_eq in Hp. exists (Z.log2 x). pose proof (Z.log2_nonneg x).
  split; [done|]. pose proof (Z.log2_spec x ltac:(lia)) as [Hl Hu].
  destruct (decide (x = 2 ^ Z.log2 x)) as [|Hne]; [done|exfalso].
  assert (Z.log2 (x - 1) = Z.log2 x) as Hlog by (apply Z.log2_unique; lia).
  assert (Z.testbit (Z.land (x - 1) x) (Z.log2 x) = true) as Hb.
  { rewrite Z.land_spec, (Z.bit_log2 x) by lia.
    rewrite <- Hlog, Z.bit_log2; [done|]. pose proof (Z.pow_pos_nonneg 2 (Z.log2 x)). lia. }
  by rewrite Hp, Z.bits_0 in Hb.
Qed.

(** Smearing doubles the number of lower bits a bit is copied to. *)
Lemma smear_step x y d :
  0 <= d ->
  (forall i, 0 <= i -> Z.testbit y i = true <-> exists j, 0 <= j < d /\ Z.testbit x (i + j) = true) ->
  forall i, 0 <= i -> Z.testbit (Z.lor y (Z.shiftr y d)) i = true <->
    exists j, 0 <= j < d + d /\ Z.testbit x (i + j) = true.
Proof.
  intros Hd Hy i Hi. rewrite Z.lor_spec, Z.shiftr_spec, orb_true_iff, !Hy by lia. split.
  - intros [(j & Hj & Hb)|(j & Hj & Hb)].
    + exists j. split; [lia|done].
    + exists (d + j). split; [lia|]. by rewrite Z.add_assoc.
  - intros (j & Hj & Hb). destruct (decide (j < d)).
    + left. exists j. split; [lia|done].
    + right. exists (j - d). split; [lia|]. by replace (i + d + (j - d)) with (i + j) by lia.
Qed.

Lemma combine_spec x : 0 < x < 2 ^ 32 -> rte_combine32ms1b x = Z.ones (Z.log2 x + 1).
Proof.
  intros Hx. pose proof (Z.log2_nonneg x) as H0.
  assert (Z.log2 x < 32) as H32 by (apply Z.log2_lt_pow2; lia).
  assert (forall i, 0 <= i -> Z.testbit (rte_combine32ms1b x) i = true <->
    exists j, 0 <= j < 32 /\ Z.testbit x (i + j) = true) as Hc.
  { unfold rte_combine32ms1b. cbv zeta.
    apply (smear_step x _ 16); [lia|]. apply (smear_step x _ 8); [lia|].
    apply (smear_step x _ 4); [lia|]. apply (smear_step x _ 2); [lia|].
    apply (smear_step x _ 1); [lia|]. intros i Hi. split.
    - intros Hb. exists 0. rewrite Z.add_0_r. split; [lia|done].
    - intros (j & Hj & Hb). by replace (i + j) with i in Hb by lia. }
  apply Z.bits_inj'. intros i Hi. rewrite Z.testbit_ones by lia.
  apply eq_true_iff_eq. rewrite Hc by done. split.
  - intros (j & Hj & Hb). apply andb_true_intro. split; [lia|].
    destruct (Z.ltb_spec i (Z.log2 x + 1)); [done|]. rewrite Z.bits_above_log2 in Hb; [done|lia..].
  - intros Hb. exists (Z.log2 x - i). split; [lia|].
    replace (i + (Z.log2 x - i)) with (Z.log2 x) by lia. apply Z.bit_log2. lia.
Qed.

Lemma align_spec x :
  1 <= x <= 2 ^ 31 -> exists k, 0 <= k <= 31 /\ rte_align32pow2 x = 2 ^ k /\ x <= 2 ^ k < 2 * x.
Proof.
  intros Hx. change (2 ^ 31) with 2147483648 in Hx. unfold rte_align32pow2.
  rewrite (wrapu_small 32 (x - 1)) by (change (2 ^ 32) with 4294967296; lia).
  destruct (decide (x = 1)) as [->|Hne].
  { exists 0. split; [lia|]. split; [reflexivity|]. cbn. lia. }
  pose proof (Z.log2_spec (x - 1) ltac:(lia)) as [Hl Hu].
  pose proof (Z.log2_nonneg (x - 1)).
  assert (Z.log2 (x - 1) < 31) by (apply Z.log2_lt_pow2; lia).
  rewrite combine_spec by (change (2 ^ 32) with 4294967296; lia).
  rewrite Z.ones_equiv. exists (Z.log2 (x - 1) + 1).
  rewrite Z.pow_add_r in * by lia. change (2 ^ 1) with 2 in *.
  rewrite Z.pow_succ_r in Hu by lia.
  assert (2 ^ Z.log2 (x - 1) <= 2 ^ 30) by (apply Z.pow_le_mono_r; lia).
  change (2 ^ 30) with 1073741824 in *.
  split; [lia|]. rewrite (wrapu_small 32) by (change (2 ^ 32) with 4294967296; lia). lia.
Qed.

Lemma init_sizes mem nm cnt fl r :
  rte_ring_init mem nm cnt fl = inl r -> 1 <= cnt < 2 ^ 31 ->
  ring r = mem /\ ht_ok (prod r) /\ ht_ok (cons r) /\ tail (prod r) = 0 /\ tail (cons r) = 0 /\
  mask r = size r - 1 /\ (exists k, 0 <= k <= 31 /\ size r = 2 ^ k) /\
  0 <= capacity r < size r /\
  capacity r = if flag_is_set fl RING_F_EXACT_SZ then cnt else cnt - 1.
Proof.
  intros Hi Hc. unfold rte_ring_init in Hi.
  destruct (negb _); [done|]. destruct (_ <=? _); [done|].
  destruct (get_sync_type fl) as [[pst cst]|]; [|done].
  assert (forall cap, 0 <= cap -> 0 <= cap / HTD_MAX_DEF) as Hdiv
    by (intros; apply Z.div_pos; [done|reflexivity]).
  change (2 ^ 31) with 2147483648 in Hc.
  destruct (flag_is_set fl RING_F_EXACT_SZ).
  - injection Hi as <-. cbn -[Z.pow].
    rewrite (wrapu_small 32 (cnt + 1)) by (change (2 ^ 32) with 4294967296; lia).
    destruct (align_spec (cnt + 1)) as (k & Hk & -> & Hr);
      [change (2 ^ 31) with 2147483648; lia|].
    rewrite (wrapu_small 32) by (change (2 ^ 32) with 4294967296; lia).
    repeat split; cbn -[Z.pow]; try lia; try (destruct flag_is_set; [apply Hdiv; lia|lia]).
    exists k. split; [lia|done].
  - destruct (POWEROF2 cnt) eqn:Hp; [|done].
    destruct (Z.ltb_spec RTE_RING_SZ_MASK cnt); [done|]. injection Hi as <-. cbn -[Z.pow].
    rewrite (wrapu_small 32) by (change (2 ^ 32) with 4294967296; lia).
    destruct (POWEROF2_spec cnt) as (k & Hk & Hcnt);
      [change (2 ^ 32) with 4294967296; lia|done|].
    repeat split; cbn -[Z.pow]; try lia; try (destruct flag_is_set; [apply Hdiv; lia|lia]).
    exists k. split; [|done]. split; [done|].
    apply Z.lt_le_incl, (Z.pow_lt_mono_r_iff 2); [lia..|]. rewrite <- Hcnt.
    change (2 ^ 31) with 2147483648. lia.
Qed.

Lemma init_ok mem nm cnt fl r :
  rte_ring_init mem nm cnt fl = inl r -> 1 <= cnt < 2 ^ 31 ->
  size r <= Z.of_nat (length mem) ->
  ring_ok r /\ contents r = [] /\
  capacity r = if flag_is_set fl RING_F_EXACT_SZ then cnt else cnt - 1.
Proof.
  intros Hi Hc Hm.
  destruct (init_sizes _ _ _ _ _ Hi Hc) as (Hr & Hp & Hco & Htp & Htc & Hma & Hs & Hcap & Hce).
  assert (count r = 0) as H0 by (unfold count; rewrite Htp, Htc; reflexivity).
  split; [|split; [unfold contents; by rewrite H0|done]].
  split; try done; [|lia]. split; try done. by rewrite Hr.
Qed.

(** ** The ring as a queue *)

#[export] Instance rte_ring_fifo_ops : FifoOps rte_ring := {
  fifo_enqueue := rte_ring_enqueue;
  fifo_enqueue_burst := rte_ring_enqueue_burst;
  fifo_dequeue_burst := rte_ring_dequeue_burst
}.

Lemma burst_variable n avail : burst RTE_RING_QUEUE_VARIABLE n avail = burst_min n avail.
Proof. unfold burst, burst_min. destruct (Z.ltb_spec avail n); lia. Qed.

#[export] Program Instance rte_ring_fifo : Fifo rte_ring := {
  fifo_ok := ring_ok;
  fifo_items := contents;
  fifo_capacity := capacity
}.
Next Obligation. intros q Hq. rewrite length_contents. apply (ok_count q Hq). Qed.
Next Obligation.
  intros q x Hq. cbn. unfold rte_ring_enqueue, rte_ring_enqueue_bulk.
  destruct (enqueue_elem_spec q [x] 1 RTE_RING_QUEUE_FIXED Hq ltac:(lia) ltac:(cbn; lia))
    as (q' & -> & Hok & Hsame & Hc). cbn [res_bind].
  eexists q', _. split; [done|]. split; [done|]. split; [apply Hsame|].
  rewrite Hc, length_contents. unfold burst.
  destruct (Z.ltb_spec (capacity q - count q) 1); case_decide; try lia.
  - split; [done|]. by rewrite app_nil_r.
  - split; done.
Qed.
Next Obligation.
  intros q xs n Hq Hn. cbn. unfold rte_ring_enqueue_burst.
  destruct (enqueue_elem_spec q xs n RTE_RING_QUEUE_VARIABLE Hq ltac:(lia) ltac:(lia))
    as (q' & -> & Hok & Hsame & Hc).
  eexists q', _, _. rewrite length_contents, <- burst_variable.
  split; [done|]. split; [done|]. split; [apply Hsame|]. split; done.
Qed.
Next Obligation.
  intros q tbl n Hq Hn. cbn. unfold rte_ring_dequeue_burst.
  destruct (dequeue_elem_spec q tbl n RTE_RING_QUEUE_VARIABLE Hq ltac:(lia) ltac:(lia))
    as (q' & -> & Hok & Hsame & Hc).
  eexists q', _, _. rewrite length_contents, <- burst_variable.
  split; [done|]. split; [done|]. split; [apply Hsame|]. split; [done|].
  rewrite Hc at 1. rewrite drop_app_length'; [done|].
  rewrite length_take. pose proof (length_contents q).
  pose proof (dequeue_m q n RTE_RING_QUEUE_VARIABLE ltac:(lia)). lia.
Qed.

Lemma ring_count_spec r :
  ring_ok r ->
  rte_ring_count r = Z.of_nat (length (contents r)) /\
  rte_ring_free_count r = capacity r - Z.of_nat (length (contents r)) /\
  rte_ring_empty r = bool_decide (contents r = []) /\
  rte_ring_full r = bool_decide (Z.of_nat (length (contents r)) = capacity r).
Proof.
  intros Hok. pose proof (ok_count r Hok). pose proof (count_nonneg r).
  pose proof (ok_capacity r (ok_geom r Hok)). pose proof (size_pos r (ok_geom r Hok)).
  assert (rte_ring_count r = count r) as Hc.
  { unfold rte_ring_count. fold (count r). rewrite mask_mod, Z.mod_small by (by apply ok_geom) || lia.
    destruct (Z.ltb_spec (capacity r) (count r)); lia. }
  unfold rte_ring_full, rte_ring_free_count. rewrite Hc, (wrapu_small 32) by lia.
  pose proof (length_contents r) as Hl. rewrite Hl. split; [done|]. split; [done|]. split.
  - unfold rte_ring_empty. apply eq_true_iff_eq. rewrite bool_decide_eq_true, Z.eqb_eq.
    destruct (ok_prod r Hok) as [_ Hp _ _], (ok_cons r Hok) as [_ Hcr _ _].
    rewrite (count_wrap r Hok) in *. split.
    + intros E. apply nil_length_inv, Nat2Z.inj. rewrite Hl.
      change (2 ^ 32) with 4294967296 in *. change (2 ^ 31) with 2147483648 in *.
      cbn. wrap_lia.
    + intros E. rewrite E in Hl. cbn in Hl. rewrite <- Hl, Z.add_0_r.
      by rewrite (wrapu_small 32).
  - apply eq_true_iff_eq. rewrite bool_decide_eq_true, Z.eqb_eq. lia.
Qed.

(** ** Sequences of operations *)

Inductive ring_op :=
| OpEnqueue (b : rte_ring_queue_behavior) (xs : list Z)
| OpDequeue (b : rte_ring_queue_behavior) (n : nat).

(** What an operation returns: the objects it delivers, their number, and
    the free or remaining entries. *)
Definition ring_out : Type := list Z * Z * Z.

Definition ring_step (r : rte_ring) (op : ring_op) : res (rte_ring * ring_out) :=
  match op with
  | OpEnqueue b xs =>
      let* (r', m, fr) := enqueue_elem r xs (Z.of_nat (length xs)) b in
      Ok (r', ([], m, fr))
  | OpDequeue b n =>
      let* (r', o, m, av) := dequeue_elem r (replicate n 0) (Z.of_nat n) b in
      Ok (r', (take (Z.to_nat m) o, m, av))
  end.

(** The bounded queue the ring implements. *)
Definition queue_step (cap : Z) (q : list Z) (op : ring_op) : list Z * ring_out :=
  let len := Z.of_nat (length q) in
  match op with
  | OpEnqueue b xs =>
      let m := burst b (Z.of_nat (length xs)) (cap - len) in
      (q ++ take (Z.to_nat m) xs, ([], m, cap - len - m))
  | OpDequeue b n =>
      let m := burst b (Z.of_nat n) len in
      (drop (Z.to_nat m) q, (take (Z.to_nat m) q, m, len - m))
  end.

Fixpoint ring_run (r : rte_ring) (ops : list ring_op) : res (rte_ring * list ring_out) :=
  match ops with
  | [] => Ok (r, [])
  | op :: ops' =>
      let* (r1, out) := ring_step r op in
      let* (r2, outs) := ring_run r1 ops' in
      Ok (r2, out :: outs)
  end.

Fixpoint queue_run (cap : Z) (q : list Z) (ops : list ring_op) : list Z * list ring_out :=
  match ops with
  | [] => (q, [])
  | op :: ops' =>
      let '(q1, out) := queue_step cap q op in
      let '(q2, outs) := queue_run cap q1 ops' in
      (q2, out :: outs)
  end.

Lemma ring_step_sim r op :
  ring_ok r -> exists r' out, ring_step r op = Ok (r', out) /\ ring_ok r' /\
    capacity r' = capacity r /\ queue_step (capacity r) (contents r) op = (contents r', out).
Proof.
  intros Hok. destruct op as [b xs|b n]; cbn [ring_step queue_step]; rewrite length_contents.
  - destruct (enqueue_elem_spec r xs (Z.of_nat (length xs)) b Hok ltac:(lia) ltac:(lia))
      as (r' & -> & Hok' & Hsame & Hc). eexists r', _.
    split; [done|]. split; [done|]. split; [apply Hsame|]. by rewrite Hc.
  - destruct (dequeue_elem_spec r (replicate n 0) (Z.of_nat n) b Hok ltac:(lia))
      as (r' & -> & Hok' & Hsame & Hc); [by rewrite length_replicate|].
    pose proof (dequeue_m r (Z.of_nat n) b ltac:(lia)) as Hm.
    pose proof (length_contents r) as Hl. eexists r', _.
    split; [done|]. split; [done|]. split; [apply Hsame|].
    rewrite take_app_length' by (rewrite length_take; lia). f_equal.
    rewrite Hc at 1. by rewrite drop_app_length' by (rewrite length_take; lia).
Qed.

Lemma ring_run_sim ops r :
  ring_ok r -> exists r' outs, ring_run r ops = Ok (r', outs) /\ ring_ok r' /\
    queue_run (capacity r) (contents r) ops = (contents r', outs).
Proof.
  revert r. induction ops as [|op ops IH]; intros r Hok; [by exists r, []|].
  destruct (ring_step_sim r op Hok) as (r1 & out & Hs & Hok1 & Hcap & Hq).
  destruct (IH r1 Hok1) as (r2 & outs & Hr & Hok2 & Hq2).
  exists r2, (out :: outs). cbn [ring_run queue_run].
  rewrite Hs. cbn [res_bind]. rewrite Hr, Hq. rewrite Hcap in Hq2. by rewrite Hq2.
Qed.

Lemma cache_align_spec z : 0 <= z -> z <= cache_align z < z + 64 /\ cache_align z mod 64 = 0.
Proof.
  intros Hz. unfold cache_align. change (RTE_CACHE_LINE_SIZE - 1) with (2 ^ 6 - 1).
  assert (Z.ldiff (z + (2 ^ 6 - 1)) (2 ^ 6 - 1) = (z + 63) / 64 * 64) as ->.
  { replace (2 ^ 6 - 1) with (Z.ones 6) by reflexivity.
    rewrite Z.ldiff_ones_r, Z.shiftr_div_pow2, Z.shiftl_mul_pow2 by lia. done. }
  pose proof (Z.div_mod (z + 63) 64 ltac:(lia)). pose proof (Z.mod_pos_bound (z + 63) 64 ltac:(lia)).
  split; [lia|]. apply Z.mod_mul. lia.
Qed.

(** ** Properties *)

(** C1: a ring that [rte_ring_init] set up, in any of the synchronisation
    modes, is a bounded first-in first-out queue: any sequence of bulk and
    burst enqueues and dequeues runs without an access outside of the ring or
    of the callers' tables and without waiting, and every call returns the
    objects, the number and the free or remaining entries of the queue of the
    ring's capacity; the counting functions report the queue's length. *)
Theorem ring_refines_queue mem nm cnt fl r ops :
  rte_ring_init mem nm cnt fl = inl r -> 1 <= cnt < 2 ^ 31 ->
  size r <= Z.of_nat (length mem) ->
  exists r' outs, ring_run r ops = Ok (r', outs) /\ ring_ok r' /\
    queue_run (if flag_is_set fl RING_F_EXACT_SZ then cnt else cnt - 1) [] ops
      = (contents r', outs) /\
    rte_ring_count r' = Z.of_nat (length (contents r')) /\
    rte_ring_free_count r' = capacity r' - Z.of_nat (length (contents r')) /\
    rte_ring_empty r' = bool_decide (contents r' = []) /\
    rte_ring_full r' = bool_decide (Z.of_nat (length (contents r')) = capacity r').
Proof.
  intros Hi Hc Hm. destruct (init_ok _ _ _ _ _ Hi Hc Hm) as (Hok & Hnil & Hcap).
  destruct (ring_run_sim ops r Hok) as (r' & outs & Hr & Hok' & Hq).
  exists r', outs. rewrite Hnil, Hcap in Hq. split; [done|]. split; [done|]. split; [done|].
  by apply ring_count_spec.
Qed.

(** The memory [rte_ring_create] reserves for the ring it initialises
    holds the header and all the slots the ring uses, in whole cache lines
    and with less than one line to spare, for a count that is a power of two
    and for a count made exact by rounding up. *)
Theorem ring_memsize_enough mem nm cnt fl r :
  rte_ring_init mem nm cnt fl = inl r -> 1 <= cnt < 2 ^ 30 ->
  let alloc := if flag_is_set fl RING_F_EXACT_SZ then rte_align32pow2 (u32 (cnt + 1)) else cnt in
  let bytes := rte_ring_get_memsize alloc in
  size r = alloc /\ bytes mod RTE_CACHE_LINE_SIZE = 0 /\
  sizeof_rte_ring + 8 * size r <= bytes < sizeof_rte_ring + 8 * size r + RTE_CACHE_LINE_SIZE.
Proof.
  intros Hi Hc alloc bytes. change (2 ^ 30) with 1073741824 in Hc.
  destruct (init_sizes _ _ _ _ _ Hi) as (_ & _ & _ & _ & _ & _ & (k & Hk & Hs) & _ & _);
    [change (2 ^ 31) with 2147483648; lia|].
  assert (size r = alloc) as Ha.
  { unfold alloc. unfold rte_ring_init in Hi. destruct (negb _); [done|].
    destruct (_ <=? _); [done|]. destruct (get_sync_type fl) as [[]|]; [|done].
    destruct (flag_is_set fl RING_F_EXACT_SZ); [by injection Hi as <-|].
    destruct (negb _ || _); [done|]. by injection Hi as <-. }
  assert (alloc < 2 ^ 31) as Hlt.
  { unfold alloc. change (2 ^ 31) with 2147483648. destruct flag_is_set; [|lia].
    rewrite (wrapu_small 32) by (change (2 ^ 32) with 4294967296; lia).
    destruct (align_spec (cnt + 1)) as (j & Hj & -> & Hr);
      [change (2 ^ 31) with 2147483648; lia|].
    assert (j <= 30) as Hj30.
    { destruct (decide (j <= 30)); [done|]. replace j with 31 in Hr by lia.
      change (2 ^ 31) with 2147483648 in Hr. lia. }
    pose proof (Z.pow_le_mono_r 2 j 30 ltac:(lia) Hj30).
    change (2 ^ 30) with 1073741824 in *. lia. }
  assert (POWEROF2 alloc = true) as Hp.
  { rewrite <- Ha, Hs. unfold POWEROF2. apply Z.eqb_eq.
    pose proof (Z.pow_pos_nonneg 2 k). pose proof (Z.pow_le_mono_r 2 k 31).
    rewrite (wrapu_small 32), Z.land_comm, land_mask, Z.mod_same by lia. done. }
  split; [done|]. rewrite Ha in *. unfold bytes, rte_ring_get_memsize, rte_ring_get_memsize_elem.
  cbn [negb Z.eqb]. rewrite Hp. destruct (Z.ltb_spec RTE_RING_SZ_MASK alloc) as [Hbad|_].
  { unfold RTE_RING_SZ_MASK in Hbad. lia. }
  change (negb (8 mod 4 =? 0)) with false. cbn [negb orb].
  destruct (cache_align_spec (sizeof_rte_ring + alloc * 8)) as [Hb1 Hb2];
    [pose proof (Z.pow_pos_nonneg 2 k); unfold sizeof_rte_ring; lia|].
  split; [done|]. unfold RTE_CACHE_LINE_SIZE. lia.
Qed.

(** ** Witnesses *)

Definition example_ring : rte_ring :=
  match rte_ring_init (replicate 4 0) "kni_ring_0" 4 RING_F_SC_DEQ with
  | inl r => r
  | inr _ => mk_ring "none" 0 0 0 0 (mk_ht 0 0 0 0 0 RTE_RING_SYNC_MT)
               (mk_ht 0 0 0 0 0 RTE_RING_SYNC_MT) []
  end.

Lemma ring_refines_queue_witness :
  exists r' outs, ring_run example_ring
      [OpEnqueue RTE_RING_QUEUE_VARIABLE [1; 2; 3; 4]; OpDequeue RTE_RING_QUEUE_FIXED 2;
       OpEnqueue RTE_RING_QUEUE_FIXED [5; 6]; OpDequeue RTE_RING_QUEUE_VARIABLE 9]
      = Ok (r', outs) /\ ring_ok r' /\
    queue_run 3 []
      [OpEnqueue RTE_RING_QUEUE_VARIABLE [1; 2; 3; 4]; OpDequeue RTE_RING_QUEUE_FIXED 2;
       OpEnqueue RTE_RING_QUEUE_FIXED [5; 6]; OpDequeue RTE_RING_QUEUE_VARIABLE 9]
      = (contents r', outs) /\
    rte_ring_count r' = Z.of_nat (length (contents r')) /\
    rte_ring_free_count r' = capacity r' - Z.of_nat (length (contents r')) /\
    rte_ring_empty r' = bool_decide (contents r' = []) /\
    rte_ring_full r' = bool_decide (Z.of_nat (length (contents r')) = capacity r').
Proof.
  apply (ring_refines_queue (replicate 4 0) "kni_ring_0" 4 RING_F_SC_DEQ).
  - vm_compute. reflexivity.
  - lia.
  - vm_compute. discriminate.
Defined.

Lemma ring_memsize_enough_witness :
  size example_ring = 4 /\ rte_ring_get_memsize 4 mod RTE_CACHE_LINE_SIZE = 0 /\
  sizeof_rte_ring + 8 * size example_ring <= rte_ring_get_memsize 4
    < sizeof_rte_ring + 8 * size example_ring + RTE_CACHE_LINE_SIZE.
Proof.
  apply (ring_memsize_enough (replicate 4 0) "kni_ring_0" 4 RING_F_SC_DEQ).
  - vm_compute. reflexivity.
  - lia.
Defined.
