(* ===== verification/RingConc.v ===== *)
(** * Concurrent use of a ring ([dpdk/lib/ring/rte_ring_generic_pvt.h])

    The default rings are used by several producers and several consumers at
    once, each running [__rte_ring_do_enqueue_elem] or
    [__rte_ring_do_dequeue_elem] in its multi-thread variant.  The threads
    interleave at every access to the shared indices and to the slots, in a
    sequentially consistent memory (the fences of the code).  A thread's
    [pc] is where it is in its operation, with the local variables that are
    live there; a thread without a [pc] is between operations.

    The fields and arguments marked as ghost are history: the positions
    before their reduction to 32 bits, the objects in the order their
    producers moved [prod.head], and the batches in the order their consumers
    moved [cons.head].  No step depends on them. *)

From S2P Require Import Prelude Ring.

Module RingConc.
Import Ring.

Inductive request :=
| Enqueue (xs : list Z) (b : rte_ring_queue_behavior)
| Dequeue (n : nat) (b : rte_ring_queue_behavior).

Inductive pc :=
(** about to read [prod.head] *)
| PHead (xs : list Z) (b : rte_ring_queue_behavior)
(** about to read [cons.tail]; [g] is the ghost of [old_head] *)
| PTail (xs : list Z) (b : rte_ring_queue_behavior) (old_head g : Z)
(** about to compare and set [prod.head] *)
| PCas (xs : list Z) (b : rte_ring_queue_behavior) (old_head g m : Z)
(** [i] of the objects [xs] are stored; then waits for its turn *)
| PCopy (xs : list Z) (old_head g : Z) (i : nat)
| CHead (n : Z) (b : rte_ring_queue_behavior)
| CTail (n : Z) (b : rte_ring_queue_behavior) (old_head g : Z)
| CCas (n : Z) (b : rte_ring_queue_behavior) (old_head g m : Z)
(** the objects [got] of [m] are read; [k] is the ghost rank of the batch *)
| CCopy (old_head g m : Z) (got : list Z) (k : nat).

Record cstate := mk_cstate {
  prod_head : Z;
  prod_tail : Z;
  cons_head : Z;
  cons_tail : Z;
  slots : list Z;
  pcs : gmap nat pc;
  (** ghost *)
  g_prod_head : Z;
  g_prod_tail : Z;
  g_cons_head : Z;
  g_cons_tail : Z;
  enqueued_log : list Z;
  batches : list (Z * Z * option (list Z))
}.

Definition with_pcs (s : cstate) x : cstate :=
  mk_cstate (prod_head s) (prod_tail s) (cons_head s) (cons_tail s) (slots s) x
    (g_prod_head s) (g_prod_tail s) (g_cons_head s) (g_cons_tail s) (enqueued_log s) (batches s).
Definition with_slots (s : cstate) x : cstate :=
  mk_cstate (prod_head s) (prod_tail s) (cons_head s) (cons_tail s) x (pcs s)
    (g_prod_head s) (g_prod_tail s) (g_cons_head s) (g_cons_tail s) (enqueued_log s) (batches s).
(** The compare and set of [prod.head] by a producer of [xs]. *)
Definition move_prod_head (s : cstate) (new_head : Z) (xs : list Z) : cstate :=
  mk_cstate new_head (prod_tail s) (cons_head s) (cons_tail s) (slots s) (pcs s)
    (g_prod_head s + Z.of_nat (length xs)) (g_prod_tail s) (g_cons_head s) (g_cons_tail s)
    (enqueued_log s ++ xs) (batches s).
Definition move_prod_tail (s : cstate) (new_tail n : Z) : cstate :=
  mk_cstate (prod_head s) new_tail (cons_head s) (cons_tail s) (slots s) (pcs s)
    (g_prod_head s) (g_prod_tail s + n) (g_cons_head s) (g_cons_tail s) (enqueued_log s)
    (batches s).
(** The compare and set of [cons.head] by a consumer of [n] objects. *)
Definition move_cons_head (s : cstate) (new_head n : Z) : cstate :=
  mk_cstate (prod_head s) (prod_tail s) new_head (cons_tail s) (slots s) (pcs s)
    (g_prod_head s) (g_prod_tail s) (g_cons_head s + n) (g_cons_tail s) (enqueued_log s)
    (batches s ++ [(g_cons_head s, n, None)]).
(** The store to [cons.tail] by the consumer of batch [k], which returns. *)
Definition move_cons_tail (s : cstate) (new_tail n : Z) (k : nat) (got : list Z) : cstate :=
  mk_cstate (prod_head s) (prod_tail s) (cons_head s) new_tail (slots s) (pcs s)
    (g_prod_head s) (g_prod_tail s) (g_cons_head s) (g_cons_tail s + n) (enqueued_log s)
    (alter (fun '(g, m, _) => (g, m, Some got)) k (batches s)).

Definition set_pc (s : cstate) (t : nat) (p : pc) : cstate := with_pcs s (<[t := p]> (pcs s)).
Definition del_pc (s : cstate) (t : nat) : cstate := with_pcs s (delete t (pcs s)).

(** The state of a ring nobody uses yet. *)
Definition cinit (r : rte_ring) : cstate :=
  mk_cstate (head (prod r)) (tail (prod r)) (head (cons r)) (tail (cons r)) (ring r) ∅
    0 0 0 0 [] [].

Section Ring.
Variable r : rte_ring.

(** The producer's side: [__rte_ring_move_prod_head],
    [__rte_ring_enqueue_elems_64] object by object, and
    [__rte_ring_update_tail]. *)
Definition prod_step (s : cstate) (t : nat) (p : pc) : res cstate :=
  match p with
  | PHead xs b => Ok (set_pc s t (PTail xs b (prod_head s) (g_prod_head s)))
  | PTail xs b old_head g =>
      let free_entries := u32 (capacity r + cons_tail s - old_head) in
      let m := burst b (Z.of_nat (length xs)) free_entries in
      if m =? 0 then Ok (del_pc s t) else Ok (set_pc s t (PCas xs b old_head g m))
  | PCas xs b old_head g m =>
      if prod_head s =? old_head then
        let xs' := take (Z.to_nat m) xs in
        Ok (set_pc (move_prod_head s (u32 (old_head + m)) xs') t
              (PCopy xs' old_head (g_prod_head s) 0))
      else Ok (set_pc s t (PHead xs b))
  | PCopy xs old_head g i =>
      match xs !! i with
      | Some x =>
          let* sl := array_set (slots s) (Z.land (u32 (old_head + Z.of_nat i)) (mask r)) x in
          Ok (set_pc (with_slots s sl) t (PCopy xs old_head g (S i)))
      | None =>
          if prod_tail s =? old_head then
            let n := Z.of_nat (length xs) in
            Ok (del_pc (move_prod_tail s (u32 (old_head + n)) n) t)
          else Ok s
      end
  | _ => Ok s
  end.

(** The consumer's side. *)
Definition cons_step (s : cstate) (t : nat) (p : pc) : res cstate :=
  match p with
  | CHead n b => Ok (set_pc s t (CTail n b (cons_head s) (g_cons_head s)))
  | CTail n b old_head g =>
      let entries := u32 (prod_tail s - old_head) in
      let m := burst b n entries in
      if m =? 0 then Ok (del_pc s t) else Ok (set_pc s t (CCas n b old_head g m))
  | CCas n b old_head g m =>
      if cons_head s =? old_head then
        Ok (set_pc (move_cons_head s (u32 (old_head + m)) m) t
              (CCopy old_head (g_cons_head s) m [] (length (batches s))))
      else Ok (set_pc s t (CHead n b))
  | CCopy old_head g m got k =>
      if Z.of_nat (length got) <? m then
        let* x := array_get (slots s) (Z.land (u32 (old_head + Z.of_nat (length got))) (mask r)) in
        Ok (set_pc s t (CCopy old_head g m (got ++ [x]) k))
      else if cons_tail s =? old_head then
        Ok (del_pc (move_cons_tail s (u32 (old_head + m)) m k got) t)
      else Ok s
  | _ => Ok s
  end.

(** One step of thread [t]; a thread between operations takes up a request. *)
Definition cstep (s : cstate) (t : nat) (req : option request) : res cstate :=
  match pcs s !! t with
  | None =>
      match req with
      | None => Ok s
      | Some (Enqueue xs b) => Ok (set_pc s t (PHead xs b))
      | Some (Dequeue n b) => Ok (set_pc s t (CHead (Z.of_nat n) b))
      end
  | Some (PHead _ _ as p) | Some (PTail _ _ _ _ as p) | Some (PCas _ _ _ _ _ as p)
  | Some (PCopy _ _ _ _ as p) => prod_step s t p
  | Some p => cons_step s t p
  end.

(** A schedule: which thread moves, and what it takes up. *)
Fixpoint crun (s : cstate) (sched : list (nat * option request)) : res cstate :=
  match sched with
  | [] => Ok s
  | (t, req) :: rest =>
      let* s' := cstep s t req in
      crun s' rest
  end.
End Ring.

(** No thread has been held between its read of a head and its compare and
    set while 2^32 objects or more went by. *)
Definition pc_recent (s : cstate) (p : pc) : bool :=
  match p with
  | PTail _ _ _ g | PCas _ _ _ g _ => g_prod_head s - g <? 2 ^ 32
  | CTail _ _ _ g | CCas _ _ _ g _ => g_cons_head s - g <? 2 ^ 32
  | _ => true
  end.
Definition recent (s : cstate) : Prop := map_Forall (fun _ p => pc_recent s p = true) (pcs s).

(** The states a schedule reaches from a fresh ring. *)
Inductive reach (r : rte_ring) : cstate -> Prop :=
| reach_init : reach r (cinit r)
| reach_step s t req s' :
    reach r s -> recent s -> cstep r s t req = Ok s' -> reach r s'.

End RingConc.
