(* ===== verification/RingConcProofs.v ===== *)
(** * Proofs about concurrent rings

    [inv] relates the shared indices, the slots and the places of all the
    threads to the history; every step of every thread keeps it.  From it:
    no slot is overwritten before it is read or read before it is written,
    every batch a consumer gets is the next part of what the producers put
    in, and waiting threads are never all stuck. *)

From stdpp Require Import strings.
From S2P Require Import Prelude Fifo Ring RingProofs RingConc.

Import Ring RingConc.

Section Conc.
Context (r : rte_ring) (Hgeom : geom_ok r).

(** ** The invariant *)

(** The object at position [p] of the history, and in its slot. *)
Definition logged (s : cstate) (p x : Z) : Prop := enqueued_log s !! Z.to_nat p = Some x.
Definition stored (s : cstate) (p x : Z) : Prop :=
  slots s !! Z.to_nat (p mod size r) = Some x.

(** The positions a producer fills, and those a consumer reads. *)
Definition p_range (p : pc) : option (Z * Z) :=
  match p with PCopy xs _ g _ => Some (g, g + Z.of_nat (length xs)) | _ => None end.
Definition c_range (p : pc) : option (Z * Z) :=
  match p with CCopy _ g m _ _ => Some (g, g + m) | _ => None end.

Definition pc_ok (s : cstate) (p : pc) : Prop :=
  match p with
  | PHead xs b => True
  | PTail xs b old g => old = u32 g /\ 0 <= g <= g_prod_head s
  | PCas xs b old g m =>
      old = u32 g /\ 0 <= g <= g_prod_head s /\ 0 < m <= Z.of_nat (length xs) /\
      (g = g_prod_head s -> g + m <= g_cons_tail s + capacity r)
  | PCopy xs old g i =>
      old = u32 g /\ g_prod_tail s <= g /\ g + Z.of_nat (length xs) <= g_prod_head s /\
      (0 < length xs)%nat /\ (i <= length xs)%nat /\
      (forall j x, xs !! j = Some x -> logged s (g + Z.of_nat j) x) /\
      (forall j x, (j < i)%nat -> xs !! j = Some x -> stored s (g + Z.of_nat j) x)
  | CHead n b => 0 <= n
  | CTail n b old g => 0 <= n /\ old = u32 g /\ 0 <= g <= g_cons_head s
  | CCas n b old g m =>
      0 <= n /\ old = u32 g /\ 0 <= g <= g_cons_head s /\ 0 < m /\
      (g = g_cons_head s -> g + m <= g_prod_tail s)
  | CCopy old g m got k =>
      old = u32 g /\ g_cons_tail s <= g /\ g + m <= g_cons_head s /\ 0 < m /\
      Z.of_nat (length got) <= m /\
      (forall j x, got !! j = Some x -> logged s (g + Z.of_nat j) x) /\
      batches s !! k = Some (g, m, None)
  end.

(** Two threads on the same side work on different positions. *)
Definition apart (range : pc -> option (Z * Z)) (ps : gmap nat pc) : Prop :=
  forall t t' p p' a b a' b', t <> t' -> ps !! t = Some p -> ps !! t' = Some p' ->
    range p = Some (a, b) -> range p' = Some (a', b') -> b <= a' \/ b' <= a.

(** Every position between a tail and its head is some thread's. *)
Definition covered (range : pc -> option (Z * Z)) (ps : gmap nat pc) (lo hi : Z) : Prop :=
  forall q, lo <= q < hi -> exists t p a b,
    ps !! t = Some p /\ range p = Some (a, b) /\ a <= q < b.

(** The batches follow each other from [lo] to [hi]. *)
Fixpoint chained (l : list (Z * Z * option (list Z))) (lo hi : Z) : Prop :=
  match l with
  | [] => lo = hi
  | (g, m, _) :: l' => g = lo /\ 0 < m /\ chained l' (lo + m) hi
  end.

Definition batch_ok (s : cstate) (k : nat) (e : Z * Z * option (list Z)) : Prop :=
  match e with
  | (g, m, Some got) =>
      Z.of_nat (length got) = m /\ forall j x, got !! j = Some x -> logged s (g + Z.of_nat j) x
  | (g, m, None) => exists t old got, pcs s !! t = Some (CCopy old g m got k)
  end.

Record inv (s : cstate) : Prop := {
  inv_ph : prod_head s = u32 (g_prod_head s);
  inv_pt : prod_tail s = u32 (g_prod_tail s);
  inv_ch : cons_head s = u32 (g_cons_head s);
  inv_ct : cons_tail s = u32 (g_cons_tail s);
  inv_order : 0 <= g_cons_tail s /\ g_cons_tail s <= g_cons_head s /\
              g_cons_head s <= g_prod_tail s /\ g_prod_tail s <= g_prod_head s /\
              g_prod_head s <= g_cons_tail s + capacity r;
  inv_mem : size r <= Z.of_nat (length (slots s));
  inv_log : Z.of_nat (length (enqueued_log s)) = g_prod_head s;
  inv_slots : forall q x, g_cons_tail s <= q < g_prod_tail s -> logged s q x -> stored s q x;
  inv_pcs : map_Forall (fun _ p => pc_ok s p) (pcs s);
  inv_papart : apart p_range (pcs s);
  inv_capart : apart c_range (pcs s);
  inv_pcover : covered p_range (pcs s) (g_prod_tail s) (g_prod_head s);
  inv_ccover : covered c_range (pcs s) (g_cons_tail s) (g_cons_head s);
  inv_chain : chained (batches s) 0 (g_cons_head s);
  inv_batches : forall k e, batches s !! k = Some e -> batch_ok s k e
}.

(** ** Generic lemmas *)

(** A thread's move that leaves its range alone keeps the ranges apart. *)
Lemma apart_same range ps t p p' :
  ps !! t = Some p -> range p' = range p -> apart range ps -> apart range (<[t := p']> ps).
Proof.
  intros Hp Hr Ha t1 t2 p1 p2 a b a' b' Hne H1 H2 R1 R2.
  apply lookup_insert_Some in H1 as [[<- <-]|[N1 H1]], H2 as [[<- <-]|[N2 H2]]; try done.
  - rewrite Hr in R1. exact (Ha _ _ _ _ _ _ _ _ Hne Hp H2 R1 R2).
  - rewrite Hr in R2. exact (Ha _ _ _ _ _ _ _ _ Hne H1 Hp R1 R2).
  - exact (Ha _ _ _ _ _ _ _ _ Hne H1 H2 R1 R2).
Qed.

Lemma apart_free range ps t p' :
  range p' = None -> apart range ps -> apart range (<[t := p']> ps).
Proof.
  intros Hr Ha t1 t2 p1 p2 a b a' b' Hne H1 H2 R1 R2.
  apply lookup_insert_Some in H1 as [[<- <-]|[N1 H1]], H2 as [[<- <-]|[N2 H2]]; try congruence.
  exact (Ha _ _ _ _ _ _ _ _ Hne H1 H2 R1 R2).
Qed.

Lemma apart_delete range ps t : apart range ps -> apart range (delete t ps).
Proof.
  intros Ha t1 t2 p1 p2 a b a' b' Hne H1 H2 R1 R2.
  apply lookup_delete_Some in H1 as [N1 H1], H2 as [N2 H2].
  exact (Ha _ _ _ _ _ _ _ _ Hne H1 H2 R1 R2).
Qed.

(** A new range past all the others. *)
Lemma apart_new range ps t p' lo hi :
  range p' = Some (lo, hi) ->
  (forall t1 p1 a b, ps !! t1 = Some p1 -> range p1 = Some (a, b) -> b <= lo) ->
  apart range ps -> apart range (<[t := p']> ps).
Proof.
  intros Hr Hlo Ha t1 t2 p1 p2 a b a' b' Hne H1 H2 R1 R2.
  apply lookup_insert_Some in H1 as [[<- <-]|[N1 H1]], H2 as [[<- <-]|[N2 H2]]; try done.
  - right. rewrite Hr in R1. simplify_eq. eauto.
  - left. rewrite Hr in R2. simplify_eq. eauto.
  - exact (Ha _ _ _ _ _ _ _ _ Hne H1 H2 R1 R2).
Qed.

Lemma covered_same range ps t p p' lo hi :
  ps !! t = Some p -> range p' = range p ->
  covered range ps lo hi -> covered range (<[t := p']> ps) lo hi.
Proof.
  intros Hp Hr Hc q Hq. destruct (Hc q Hq) as (t1 & p1 & a & b & H1 & R1 & Hab).
  destruct (decide (t1 = t)) as [->|Hne].
  - exists t, p', a, b. rewrite lookup_insert_eq, Hr. by simplify_eq.
  - exists t1, p1, a, b. by rewrite lookup_insert_ne.
Qed.

(** A thread without a range comes, goes or changes. *)
Lemma covered_free range ps ps' t lo hi :
  (forall p, ps !! t = Some p -> range p = None) ->
  (forall t', t' <> t -> ps' !! t' = ps !! t') ->
  covered range ps lo hi -> covered range ps' lo hi.
Proof.
  intros Hp Hps Hc q Hq. destruct (Hc q Hq) as (t1 & p1 & a & b & H1 & R1 & Hab).
  exists t1, p1, a, b. rewrite Hps; [done|]. intros ->. apply Hp in H1. congruence.
Qed.

(** The head moves: its thread gets the new positions. *)
Lemma covered_new range ps t p' lo mid hi :
  range p' = Some (mid, hi) -> (forall p, ps !! t = Some p -> range p = None) ->
  covered range ps lo mid -> covered range (<[t := p']> ps) lo hi.
Proof.
  intros Hr Hp Hc q Hq. destruct (decide (q < mid)).
  - destruct (Hc q ltac:(lia)) as (t1 & p1 & a & b & H1 & R1 & Hab).
    exists t1, p1, a, b. rewrite lookup_insert_ne; [done|]. intros <-. apply Hp in H1. congruence.
  - exists t, p', mid, hi. rewrite lookup_insert_eq. split; [done|]. split; [done|]. lia.
Qed.

Lemma map_Forall_replace {A} (P : nat -> A -> Prop) (m : gmap nat A) t p' :
  P t p' -> (forall t' p, t' <> t -> m !! t' = Some p -> P t' p) ->
  map_Forall P (<[t := p']> m).
Proof. intros Hp Ho t' p. rewrite lookup_insert_Some. naive_solver. Qed.

(** The tail moves past its thread's positions. *)
Lemma covered_done range ps t p lo mid hi :
  lo <= mid -> ps !! t = Some p -> range p = Some (lo, mid) ->
  covered range ps lo hi -> covered range (delete t ps) mid hi.
Proof.
  intros Hle Hp Hr Hc q Hq.
  destruct (Hc q ltac:(lia)) as (t1 & p1 & a & b & H1 & R1 & Hab).
  exists t1, p1, a, b. rewrite lookup_delete_ne; [done|].
  intros <-. rewrite Hp in H1. simplify_eq. lia.
Qed.

Lemma chained_snoc l lo mid m o :
  0 < m -> chained l lo mid -> chained (l ++ [(mid, m, o)]) lo (mid + m).
Proof.
  intros Hm. revert lo. induction l as [|[[g n] o'] l IH]; intros lo; cbn.
  - intros ->. done.
  - intros (-> & Hn & Hc). eauto.
Qed.

Lemma chained_alter l lo hi k got :
  chained l lo hi -> chained (alter (fun '(g, m, _) => (g, m, Some got)) k l) lo hi.
Proof.
  revert lo k. induction l as [|[[g n] o] l IH]; intros lo k; [done|].
  intros (-> & Hn & Hc). destruct k as [|k]; cbn; [done|]. eauto.
Qed.

Lemma size_facts : 0 < size r <= 2147483648 /\ 0 <= capacity r < size r.
Proof.
  split; [exact (size_pos r Hgeom)|]. exact (ok_capacity r Hgeom).
Qed.

(** Two positions less than the size of the ring apart have their own slots. *)
Lemma slot_ne p q :
  p <> q -> - size r < p - q < size r -> 0 <= p -> 0 <= q ->
  Z.to_nat (p mod size r) <> Z.to_nat (q mod size r).
Proof.
  intros Hne Hd Hp Hq E. pose proof size_facts.
  pose proof (Z.mod_pos_bound p (size r)). pose proof (Z.mod_pos_bound q (size r)).
  pose proof (Z.div_mod p (size r) ltac:(lia)). pose proof (Z.div_mod q (size r) ltac:(lia)).
  assert (p mod size r = q mod size r) as E' by lia.
  assert (p / size r = q / size r) by nia. nia.
Qed.

(** The slot index the code computes from a wrapped position. *)
Lemma slot_index g i :
  Z.land (u32 (u32 g + i)) (mask r) = (g + i) mod size r.
Proof.
  pose proof size_facts. rewrite mask_mod by done. rewrite size_wrap by done.
  rewrite <- (Z.add_mod_idemp_l (u32 g)), size_wrap, Z.add_mod_idemp_l by (done || lia). done.
Qed.

Lemma pc_ok_mono s s' p :
  pc_ok s p ->
  g_prod_head s <= g_prod_head s' -> g_cons_head s <= g_cons_head s' ->
  g_cons_tail s <= g_cons_tail s' -> g_prod_tail s <= g_prod_tail s' ->
  (forall q x, logged s q x -> logged s' q x) ->
  (forall a b, p_range p = Some (a, b) ->
     g_prod_tail s' <= a /\ forall q x, a <= q < b -> stored s q x -> stored s' q x) ->
  (forall a b, c_range p = Some (a, b) -> g_cons_tail s' <= a) ->
  (forall old g m got k, p = CCopy old g m got k -> batches s' !! k = batches s !! k) ->
  pc_ok s' p.
Proof.
  intros Hok Hph Hch Hct Hpt Hlog Hp Hc Hb. destruct p; cbn in *.
  - done.
  - naive_solver lia.
  - destruct Hok as (? & ? & ? & Hroom). repeat split; try done; try lia.
  - destruct Hok as (? & ? & ? & Hl & Hi & Hlg & Hst). destruct (Hp _ _ eq_refl) as [Hp1 Hp2].
    repeat split; try done; try lia; [naive_solver|]. intros j x Hj Hx. apply Hp2; [lia|]. eauto.
  - done.
  - naive_solver lia.
  - destruct Hok as (? & ? & ? & ? & Hroom). repeat split; try done; try lia.
  - destruct Hok as (? & ? & ? & ? & ? & Hlg & Hbt). specialize (Hc _ _ eq_refl).
    repeat split; try done; try lia; [naive_solver|]. rewrite <- Hbt. by eapply Hb.
Qed.

Lemma p_range_ok s p a b :
  pc_ok s p -> p_range p = Some (a, b) ->
  g_prod_tail s <= a /\ a < b /\ b <= g_prod_head s.
Proof. intros Hok R. destruct p; try done. injection R as <- <-. cbn in Hok. lia. Qed.

Lemma c_range_ok s p a b :
  pc_ok s p -> c_range p = Some (a, b) ->
  g_cons_tail s <= a /\ a < b /\ b <= g_cons_head s.
Proof. intros Hok R. destruct p; try done. injection R as <- <-. cbn in Hok. lia. Qed.

(** ** Steps that touch no shared state *)

Lemma inv_local s t ps' :
  inv s ->
  (forall p, pcs s !! t = Some p -> p_range p = None /\ c_range p = None) ->
  (forall t', t' <> t -> ps' !! t' = pcs s !! t') ->
  (forall p, ps' !! t = Some p -> p_range p = None /\ c_range p = None /\ pc_ok s p) ->
  inv (with_pcs s ps').
Proof.
  intros Hinv Hold Hoth Hnew.
  assert (forall range, (forall p, ps' !! t = Some p -> range p = None) ->
    apart range (pcs s) -> apart range ps') as Hap.
  { intros range Hr Ha t1 t2 p1 p2 a b a' b' Hne H1 H2 R1 R2.
    destruct (decide (t1 = t)) as [->|N1]; [apply Hr in H1; congruence|].
    destruct (decide (t2 = t)) as [->|N2]; [apply Hr in H2; congruence|].
    rewrite Hoth in H1, H2 by done. exact (Ha _ _ _ _ _ _ _ _ Hne H1 H2 R1 R2). }
  destruct Hinv. split; try done; cbn.
  - intros t' p Hp. destruct (decide (t' = t)) as [->|Hne]; [by apply Hnew|].
    rewrite Hoth in Hp by done. exact (inv_pcs0 _ _ Hp).
  - apply Hap; [|done]. intros p Hp. by apply Hnew.
  - apply Hap; [|done]. intros p Hp. by apply Hnew.
  - eapply covered_free; [|done|done]. intros p Hp. by apply Hold.
  - eapply covered_free; [|done|done]. intros p Hp. by apply Hold.
  - intros k e He. specialize (inv_batches0 k e He). destruct e as [[g m] [got|]]; [done|].
    destruct inv_batches0 as (t1 & old & got & H1). exists t1, old, got. cbn.
    rewrite Hoth; [done|]. intros ->. apply Hold in H1. naive_solver.
Qed.

Lemma inv_set_pc s t p :
  inv s -> (forall p0, pcs s !! t = Some p0 -> p_range p0 = None /\ c_range p0 = None) ->
  p_range p = None -> c_range p = None -> pc_ok s p -> inv (set_pc s t p).
Proof.
  intros Hinv Hold Hp Hc Hok. eapply inv_local; [done|exact Hold| |].
  - intros t' Hne. by rewrite lookup_insert_ne.
  - intros p'. rewrite lookup_insert_eq. naive_solver.
Qed.

Lemma inv_del_pc s t :
  inv s -> (forall p0, pcs s !! t = Some p0 -> p_range p0 = None /\ c_range p0 = None) ->
  inv (del_pc s t).
Proof.
  intros Hinv Hold. eapply inv_local; [done|exact Hold| |].
  - intros t' Hne. by rewrite lookup_delete_ne.
  - intros p'. by rewrite lookup_delete_eq.
Qed.

(** ** The producers *)

Lemma wrap_eq g h : u32 g = u32 h -> 0 <= h - g < 2 ^ 32 -> g = h.
Proof. change (2 ^ 32) with 4294967296. intros. wrap_lia. Qed.

Lemma ptail_ok s xs b g m :
  inv s -> 0 <= g <= g_prod_head s ->
  m = burst b (Z.of_nat (length xs)) (u32 (capacity r + cons_tail s - u32 g)) -> m <> 0 ->
  pc_ok s (PCas xs b (u32 g) g m).
Proof.
  intros Hinv Hg Hm H0. pose proof size_facts. destruct (inv_order s Hinv) as (? & ? & ? & ? & ?).
  pose proof (wrapu_range 32 (capacity r + cons_tail s - u32 g) ltac:(lia)) as Hw.
  destruct (burst_range b (Z.of_nat (length xs)) (u32 (capacity r + cons_tail s - u32 g)))
    as (B1 & B2 & B3); [lia..|]. rewrite <- Hm in *.
  cbn. repeat split; try lia. intros Heq. rewrite (inv_ct s Hinv) in B3. clear Hw Hm.
  wrap_lia.
Qed.

Lemma logged_app s s' xs q x :
  enqueued_log s' = enqueued_log s ++ xs -> logged s q x -> logged s' q x.
Proof. unfold logged. intros -> H. by apply lookup_app_l_Some. Qed.

Lemma inv_prod_cas s t xs b g m :
  inv s -> pcs s !! t = Some (PCas xs b (u32 g) g m) -> g = g_prod_head s ->
  inv (set_pc (move_prod_head s (u32 (u32 g + m)) (take (Z.to_nat m) xs)) t
         (PCopy (take (Z.to_nat m) xs) (u32 g) (g_prod_head s) 0)).
Proof.
  intros Hinv Ht Hg. pose proof (inv_pcs s Hinv t _ Ht) as (_ & Hge & Hm & Hroom).
  specialize (Hroom Hg). set (ys := take (Z.to_nat m) xs).
  assert (Z.of_nat (length ys) = m) as Hlen by (unfold ys; rewrite length_take; lia).
  pose proof (inv_order s Hinv) as (O1 & O2 & O3 & O4 & O5).
  pose proof (inv_log s Hinv) as Hll.
  destruct Hinv. split; cbn; try done.
  - rewrite Hlen, <- Hg. wrap_lia.
  - lia.
  - rewrite length_app. lia.
  - intros q x Hq Hx. apply inv_slots0; [done|]. unfold logged in *. cbn in Hx.
    rewrite lookup_app_l in Hx by lia. done.
  - apply map_Forall_replace.
    + cbn. repeat split; try lia; try congruence; try (intros; lia).
      intros j x Hx. unfold logged. cbn.
      rewrite lookup_app_r by lia. rewrite <- Hx. f_equal. lia.
    + intros t' p _ Hp. eapply pc_ok_mono; [exact (inv_pcs0 _ _ Hp)|cbn; try lia; try done..].
      * intros q x. by eapply logged_app.
      * intros a b' R. split; [|done]. by apply (p_range_ok s p a b' (inv_pcs0 _ _ Hp)).
      * intros a b' R. by apply (c_range_ok s p a b' (inv_pcs0 _ _ Hp)).
  - eapply apart_new; [done| |done]. intros t1 p1 a b1 H1 R1.
    by apply (p_range_ok s p1 a b1 (inv_pcs0 _ _ H1)).
  - by apply apart_free.
  - eapply covered_new; [done| |done]. intros p Hp. by simplify_eq.
  - eapply (covered_free _ (pcs s) _ t); [| |done].
    + intros p Hp. by simplify_eq.
    + intros t' Hne. by rewrite lookup_insert_ne.
  - intros k e He. specialize (inv_batches0 k e He). destruct e as [[g1 m1] [got|]]; cbn in *.
    + destruct inv_batches0 as [Hl Hgot]. split; [done|]. intros j x Hx.
      eapply logged_app; [done|]. eauto.
    + destruct inv_batches0 as (t1 & old & got & H1). exists t1, old, got.
      rewrite lookup_insert_ne; [done|]. intros ->. congruence.
Qed.

Lemma stored_insert s q q0 x y :
  q <> q0 -> - size r < q - q0 < size r -> 0 <= q -> 0 <= q0 ->
  stored s q x -> stored (with_slots s (<[Z.to_nat (q0 mod size r) := y]> (slots s))) q x.
Proof.
  intros Hne Hd H0 H1 Hs. unfold stored in *. cbn. rewrite list_lookup_insert_ne; [done|].
  by apply slot_ne; lia.
Qed.

Lemma inv_prod_copy s t xs g i x :
  inv s -> pcs s !! t = Some (PCopy xs (u32 g) g i) -> xs !! i = Some x ->
  inv (set_pc (with_slots s (<[Z.to_nat ((g + Z.of_nat i) mod size r) := x]> (slots s))) t
         (PCopy xs (u32 g) g (S i))).
Proof.
  intros Hinv Ht Hx.
  pose proof (inv_pcs s Hinv t _ Ht) as (_ & Hge & Hle & Hpos & Hi & Hlog & Hst).
  pose proof size_facts as [Hs Hcap]. pose proof (inv_order s Hinv) as (O1 & O2 & O3 & O4 & O5).
  pose proof (lookup_lt_Some _ _ _ Hx) as Hilt. pose proof (inv_mem s Hinv) as Hmem.
  pose proof (Z.mod_pos_bound (g + Z.of_nat i) (size r)) as Hmb.
  destruct Hinv. split; cbn; try done.
  - by rewrite length_insert.
  - intros q y Hq Hy. apply stored_insert; [lia..|]. by apply inv_slots0.
  - apply map_Forall_replace.
    + cbn. repeat split; try lia; try done. intros j y Hj Hy.
      destruct (decide (j = i)) as [->|Hne].
      * unfold stored. cbn. rewrite list_lookup_insert_eq by lia. congruence.
      * apply lookup_lt_Some in Hy as Hjl. apply stored_insert; [lia..|].
        apply Hst; [lia|done].
    + intros t' p Hne Hp. pose proof (inv_pcs0 _ _ Hp) as Hok.
      eapply pc_ok_mono; [exact Hok|cbn; try lia; try done..].
      * intros a b R. pose proof (p_range_ok s p a b Hok R) as (? & ? & ?).
        split; [done|]. intros q y Hq Hy.
        pose proof (inv_papart0 t' t p _ a b _ _ Hne Hp Ht R eq_refl).
        apply stored_insert; [lia..|done].
      * intros a b R. by apply (c_range_ok s p a b Hok).
  - by eapply apart_same.
  - by eapply apart_same.
  - by eapply covered_same.
  - by eapply covered_same.
  - intros k e He. specialize (inv_batches0 k e He). destruct e as [[g1 m1] [got|]]; [done|].
    destruct inv_batches0 as (t1 & old & got & H1). exists t1, old, got. cbn.
    rewrite lookup_insert_ne; [done|]. intros ->. congruence.
Qed.

Lemma inv_prod_tail s t xs g :
  inv s -> pcs s !! t = Some (PCopy xs (u32 g) g (length xs)) -> prod_tail s = u32 g ->
  inv (del_pc (move_prod_tail s (u32 (u32 g + Z.of_nat (length xs))) (Z.of_nat (length xs))) t).
Proof.
  intros Hinv Ht Htl.
  pose proof (inv_pcs s Hinv t _ Ht) as (_ & Hge & Hle & Hpos & Hi & Hlog & Hst).
  pose proof size_facts as [Hs Hcap]. pose proof (inv_order s Hinv) as (O1 & O2 & O3 & O4 & O5).
  assert (g_prod_tail s = g) as Hg.
  { apply wrap_eq; [|lia]. rewrite <- Htl. symmetry. apply (inv_pt s Hinv). }
  destruct Hinv. split; cbn; try done.
  - rewrite Hg. wrap_lia.
  - lia.
  - intros q x Hq Hx. destruct (decide (q < g_prod_tail s)); [apply inv_slots0; [lia|done]|].
    assert (exists j, q = g + Z.of_nat j) as [j ->] by (exists (Z.to_nat (q - g)); lia).
    destruct (lookup_lt_is_Some_2 xs j) as [y Hy]; [lia|].
    pose proof (Hlog _ _ Hy) as Hl. unfold logged in *. cbn in Hx.
    rewrite Hl in Hx. simplify_eq. apply (Hst j); [lia|done].
  - intros t' p Hp. apply lookup_delete_Some in Hp as [Hne Hp].
    eapply pc_ok_mono; [exact (inv_pcs0 _ _ Hp)|cbn; try lia; try done..].
    + intros a b R. split; [|done].
      pose proof (p_range_ok s p a b (inv_pcs0 _ _ Hp) R) as (? & ? & ?).
      pose proof (inv_papart0 t t' _ p _ _ a b ltac:(done) Ht Hp eq_refl R). lia.
    + intros a b R. by apply (c_range_ok s p a b (inv_pcs0 _ _ Hp)).
  - by apply apart_delete.
  - by apply apart_delete.
  - eapply covered_done; [|exact Ht| |exact inv_pcover0]; [lia|]. cbn. by rewrite Hg.
  - eapply (covered_free _ (pcs s) _ t); [| |done].
    + intros p Hp. by simplify_eq.
    + intros t' Hne. by rewrite lookup_delete_ne.
  - intros k e He. specialize (inv_batches0 k e He). destruct e as [[g1 m1] [got|]]; [done|].
    destruct inv_batches0 as (t1 & old & got & H1). exists t1, old, got. cbn.
    rewrite lookup_delete_ne; [done|]. intros ->. congruence.
Qed.

(** ** The consumers *)

Lemma ctail_ok s n b g m :
  inv s -> 0 <= n -> 0 <= g <= g_cons_head s ->
  m = burst b n (u32 (prod_tail s - u32 g)) -> m <> 0 ->
  pc_ok s (CCas n b (u32 g) g m).
Proof.
  intros Hinv Hn Hg Hm H0. pose proof size_facts.
  destruct (inv_order s Hinv) as (O1 & O2 & O3 & O4 & O5).
  pose proof (wrapu_range 32 (prod_tail s - u32 g) ltac:(lia)) as Hw.
  destruct (burst_range b n (u32 (prod_tail s - u32 g))) as (B1 & B2 & B3); [lia..|].
  rewrite <- Hm in *. cbn. repeat split; try lia.
  intros Heq. rewrite (inv_pt s Hinv) in B3. clear Hw Hm. wrap_lia.
Qed.

Lemma inv_cons_cas s t n b g m :
  inv s -> pcs s !! t = Some (CCas n b (u32 g) g m) -> g = g_cons_head s ->
  inv (set_pc (move_cons_head s (u32 (u32 g + m)) m) t
         (CCopy (u32 g) (g_cons_head s) m [] (length (batches s)))).
Proof.
  intros Hinv Ht Hg. pose proof (inv_pcs s Hinv t _ Ht) as (_ & _ & Hge & Hm & Hroom).
  specialize (Hroom Hg). pose proof (inv_order s Hinv) as (O1 & O2 & O3 & O4 & O5).
  destruct Hinv. split; cbn; try done.
  - rewrite <- Hg. wrap_lia.
  - lia.
  - apply map_Forall_replace.
    + cbn. repeat split; try lia; try congruence; [done|]. by rewrite list_lookup_middle.
    + intros t' p _ Hp. pose proof (inv_pcs0 _ _ Hp) as Hok.
      eapply pc_ok_mono; [exact Hok|cbn; try lia; try done..].
      * intros a b' R. split; [|done]. by apply (p_range_ok s p a b' Hok).
      * intros a b' R. by apply (c_range_ok s p a b' Hok).
      * intros old g1 m1 got k ->. destruct Hok as (_ & _ & _ & _ & _ & _ & Hb).
        rewrite lookup_app_l; [done|]. by eapply lookup_lt_Some.
  - by apply apart_free.
  - eapply apart_new; [done| |done]. intros t1 p1 a b1 H1 R1.
    by apply (c_range_ok s p1 a b1 (inv_pcs0 _ _ H1)).
  - eapply (covered_free _ (pcs s) _ t); [| |done].
    + intros p Hp. by simplify_eq.
    + intros t' Hne. by rewrite lookup_insert_ne.
  - eapply covered_new; [done| |done]. intros p Hp. by simplify_eq.
  - by apply chained_snoc.
  - intros k e He. apply lookup_snoc_Some in He as [[Hk He]|[-> <-]].
    + specialize (inv_batches0 k e He). destruct e as [[g1 m1] [got|]]; [done|].
      destruct inv_batches0 as (t1 & old & got & H1). exists t1, old, got. cbn.
      rewrite lookup_insert_ne; [done|]. intros ->. congruence.
    + cbn. exists t, (u32 g), []. by rewrite lookup_insert_eq.
Qed.

Lemma inv_cons_copy s t g m got k x :
  inv s -> pcs s !! t = Some (CCopy (u32 g) g m got k) -> Z.of_nat (length got) < m ->
  stored s (g + Z.of_nat (length got)) x ->
  inv (set_pc s t (CCopy (u32 g) g m (got ++ [x]) k)).
Proof.
  intros Hinv Ht Hlt Hx. pose proof (inv_order s Hinv) as (O1 & O2 & O3 & O4 & O5).
  pose proof (inv_pcs s Hinv t _ Ht) as (_ & Hge & Hle & Hpos & Hl & Hgot & Hb).
  pose proof (inv_log s Hinv) as Hll.
  assert (logged s (g + Z.of_nat (length got)) x) as Hlog.
  { destruct (lookup_lt_is_Some_2 (enqueued_log s) (Z.to_nat (g + Z.of_nat (length got))))
      as [y Hy]; [lia|].
    pose proof (inv_slots s Hinv (g + Z.of_nat (length got)) y ltac:(lia) Hy) as Hs.
    unfold stored in *. rewrite Hx in Hs. by simplify_eq. }
  destruct Hinv. split; cbn; try done.
  - apply map_Forall_replace; [|intros t' p _ Hp; exact (inv_pcs0 _ _ Hp)].
    cbn. rewrite length_app. cbn. repeat split; try lia; [|done].
    intros j y Hy. apply lookup_snoc_Some in Hy as [[Hj Hy]|[-> <-]]; [eauto|done].
  - by eapply apart_same.
  - by eapply apart_same.
  - by eapply covered_same.
  - by eapply covered_same.
  - intros k' e He. specialize (inv_batches0 k' e He). destruct e as [[g1 m1] [got1|]]; [done|].
    destruct inv_batches0 as (t1 & old & got1 & H1). cbn.
    destruct (decide (t1 = t)) as [->|Hne].
    + simplify_eq. exists t, (u32 g1), (got1 ++ [x]). by rewrite lookup_insert_eq.
    + exists t1, old, got1. by rewrite lookup_insert_ne.
Qed.

Lemma inv_cons_tail s t g m got k :
  inv s -> pcs s !! t = Some (CCopy (u32 g) g m got k) -> m <= Z.of_nat (length got) ->
  cons_tail s = u32 g ->
  inv (del_pc (move_cons_tail s (u32 (u32 g + m)) m k got) t).
Proof.
  intros Hinv Ht Hfull Htl. pose proof size_facts as [Hs Hcap].
  pose proof (inv_order s Hinv) as (O1 & O2 & O3 & O4 & O5).
  pose proof (inv_pcs s Hinv t _ Ht) as (_ & Hge & Hle & Hpos & Hl & Hgot & Hb).
  assert (g_cons_tail s = g) as Hg.
  { apply wrap_eq; [|lia]. rewrite <- Htl. symmetry. apply (inv_ct s Hinv). }
  destruct Hinv. split; cbn; try done.
  - rewrite Hg. wrap_lia.
  - lia.
  - intros q x Hq Hx. apply inv_slots0; [lia|done].
  - intros t' p Hp. apply lookup_delete_Some in Hp as [Hne Hp].
    pose proof (inv_pcs0 _ _ Hp) as Hok.
    eapply pc_ok_mono; [exact Hok|cbn; try lia; try done..].
    + intros a b R. split; [|done]. by apply (p_range_ok s p a b Hok).
    + intros a b R. pose proof (c_range_ok s p a b Hok R) as (? & ? & ?).
      pose proof (inv_capart0 t t' _ p _ _ a b ltac:(done) Ht Hp eq_refl R). lia.
    + intros old' g' m' got' k' ->. destruct (decide (k' = k)) as [->|Hk].
      * exfalso. destruct Hok as (_ & H1 & _ & H2 & _ & _ & H3). rewrite Hb in H3. simplify_eq.
        pose proof (inv_capart0 t t' _ _ _ _ _ _ ltac:(done) Ht Hp eq_refl eq_refl). lia.
      * by rewrite list_lookup_alter_ne.
  - by apply apart_delete.
  - by apply apart_delete.
  - eapply (covered_free _ (pcs s) _ t); [| |done].
    + intros p Hp. by simplify_eq.
    + intros t' Hne. by rewrite lookup_delete_ne.
  - eapply covered_done; [|exact Ht| |exact inv_ccover0]; [lia|]. cbn. by rewrite Hg.
  - by apply chained_alter.
  - intros k' e He. destruct (decide (k' = k)) as [->|Hk].
    + rewrite list_lookup_alter_eq, Hb in He. cbn in He. simplify_eq. cbn. split; [lia|done].
    + rewrite list_lookup_alter_ne in He by done. specialize (inv_batches0 k' e He).
      destruct e as [[g1 m1] [got1|]]; [done|].
      destruct inv_batches0 as (t1 & old & got1 & H1). exists t1, old, got1. cbn.
      rewrite lookup_delete_ne; [done|]. intros ->. congruence.
Qed.

(** ** Every step *)

Lemma cstep_inv s t req :
  inv s -> recent s -> exists s', cstep r s t req = Ok s' /\ inv s'.
Proof.
  intros Hinv Hrec. unfold cstep. pose proof size_facts as [Hs Hcap].
  pose proof (inv_order s Hinv) as (O1 & O2 & O3 & O4 & O5). pose proof (inv_mem s Hinv) as Hmem.
  destruct (pcs s !! t) as [p|] eqn:Ht.
  - pose proof (inv_pcs s Hinv t p Ht) as Hok. pose proof (Hrec t p Ht) as Hr.
    destruct p as [xs b|xs b old g|xs b old g m|xs old g i|n b|n b old g|n b old g m|old g m got k];
      cbn [prod_step cons_step].
    + eexists. split; [done|]. apply inv_set_pc; try done; [naive_solver|].
      cbn. rewrite (inv_ph s Hinv). split; [done|lia].
    + destruct Hok as [-> Hg]. destruct (Z.eqb_spec (burst b (Z.of_nat (length xs))
        (u32 (capacity r + cons_tail s - u32 g))) 0); eexists; (split; [done|]).
      * apply inv_del_pc; [done|naive_solver].
      * apply inv_set_pc; try done; [naive_solver|]. by apply ptail_ok.
    + pose proof Hok as (-> & Hg & Hm & _). destruct (Z.eqb_spec (prod_head s) (u32 g)) as [E|E];
        eexists; (split; [done|]).
      * apply inv_prod_cas with (xs := xs) (b := b); [done..|].
        apply wrap_eq; [rewrite <- E; apply (inv_ph s Hinv)|].
        cbn in Hr. apply Z.ltb_lt in Hr. lia.
      * apply inv_set_pc; try done. naive_solver.
    + pose proof Hok as (-> & Hg & Hle & Hpos & Hi & _). destruct (xs !! i) as [x|] eqn:Hx.
      * rewrite slot_index, array_set_lt
          by (pose proof (Z.mod_pos_bound (g + Z.of_nat i) (size r)); lia).
        eexists. split; [done|]. by apply inv_prod_copy.
      * apply lookup_ge_None in Hx. replace i with (length xs) in * by lia.
        destruct (Z.eqb_spec (prod_tail s) (u32 g)); eexists; (split; [done|]); [|done].
        by apply inv_prod_tail.
    + eexists. split; [done|]. apply inv_set_pc; try done; [naive_solver|].
      cbn. rewrite (inv_ch s Hinv). cbn in Hok. repeat split; lia.
    + destruct Hok as (Hn & -> & Hg). destruct (Z.eqb_spec (burst b n
        (u32 (prod_tail s - u32 g))) 0); eexists; (split; [done|]).
      * apply inv_del_pc; [done|naive_solver].
      * apply inv_set_pc; try done; [naive_solver|]. by apply ctail_ok.
    + pose proof Hok as (Hn & -> & Hg & Hm & _).
      destruct (Z.eqb_spec (cons_head s) (u32 g)) as [E|E]; eexists; (split; [done|]).
      * apply inv_cons_cas with (n := n) (b := b); [done..|].
        apply wrap_eq; [rewrite <- E; apply (inv_ch s Hinv)|].
        cbn in Hr. apply Z.ltb_lt in Hr. lia.
      * apply inv_set_pc; try done. naive_solver.
    + pose proof Hok as (-> & Hg & Hle & Hpos & Hl & _).
      destruct (Z.ltb_spec (Z.of_nat (length got)) m).
      * rewrite slot_index.
        destruct (array_get_lt (slots s) ((g + Z.of_nat (length got)) mod size r))
          as (x & -> & Hx);
          [pose proof (Z.mod_pos_bound (g + Z.of_nat (length got)) (size r)); lia|].
        eexists. split; [done|]. by apply inv_cons_copy.
      * destruct (Z.eqb_spec (cons_tail s) (u32 g)); eexists; (split; [done|]); [|done].
        by apply inv_cons_tail.
  - destruct req as [[xs b|n b]|]; eexists; (split; [done|]); [..|done].
    + apply inv_set_pc; try done. naive_solver.
    + apply inv_set_pc; try done; [naive_solver|]. cbn. lia.
Qed.

(** ** Finishing *)

(** The threads that wait for their turn to move a tail can be let finish,
    oldest first; nothing else moves. *)
Definition settled (s s' : cstate) : Prop :=
  inv s' /\ recent s' /\ g_prod_head s' = g_prod_head s /\ g_cons_head s' = g_cons_head s /\
  enqueued_log s' = enqueued_log s.

Lemma recent_mono s s' :
  recent s -> g_prod_head s' = g_prod_head s -> g_cons_head s' = g_cons_head s ->
  (forall t p, pcs s' !! t = Some p -> pcs s !! t = Some p \/ pc_recent s' p = true) -> recent s'.
Proof.
  intros Hr Hp Hc Hold t p Ht. destruct (Hold t p Ht) as [H|H]; [|done].
  specialize (Hr t p H). destruct p; unfold pc_recent in *; by rewrite ?Hp, ?Hc.
Qed.

Lemma settled_trans s1 s2 s3 : settled s1 s2 -> settled s2 s3 -> settled s1 s3.
Proof.
  intros (_ & _ & E1 & E2 & E3) (Hi & Hr & F1 & F2 & F3).
  unfold settled. rewrite <- E1, <- E2, <- E3. done.
Qed.

Lemma crun_app s sched1 sched2 :
  crun r s (sched1 ++ sched2) = let* s' := crun r s sched1 in crun r s' sched2.
Proof.
  revert s. induction sched1 as [|[t q] l IH]; intros s; [done|]. cbn.
  destruct (cstep r s t q); [|done..]. cbn. apply IH.
Qed.

Lemma finish_producer n s t xs g i :
  (length xs - i <= n)%nat -> inv s -> recent s ->
  pcs s !! t = Some (PCopy xs (u32 g) g i) -> g = g_prod_tail s ->
  exists sched s', crun r s sched = Ok s' /\ settled s s' /\ pcs s' = delete t (pcs s) /\
    Forall (fun e => e.2 = None) sched.
Proof.
  revert s i. induction n as [|n IH]; intros s i Hn Hinv Hrec Ht Hg.
  all: destruct (cstep_inv s t None Hinv Hrec) as (s1 & Hstep & Hinv1).
  all: pose proof Hstep as Hs; unfold cstep in Hs; rewrite Ht in Hs; cbn [prod_step] in Hs.
  all: pose proof (inv_pcs s Hinv t _ Ht) as (_ & _ & _ & _ & Hi & _).
  all: destruct (xs !! i) as [x|] eqn:Hx; [apply lookup_lt_Some in Hx as Hxl|].
  all: try (destruct (Z.eqb_spec (prod_tail s) (u32 g)) as [|Hne];
    [|rewrite (inv_pt s Hinv) in Hne; congruence]).
  all: try (injection Hs as <-; exists [(t, None)]; eexists; cbn [crun]; rewrite Hstep;
    split; [done|]; split; [|by repeat constructor]; split; [exact Hinv1|]; split; [|done];
    eapply recent_mono; [exact Hrec|done|done|]; cbn; intros t' p Hp; left;
    apply lookup_delete_Some in Hp as [_ Hp]; exact Hp).
  - lia.
  - res_inv Hs. injection Hs as <-.
    destruct (IH _ (S i) ltac:(lia) Hinv1) as (sched & s' & Hrun & Hset & Hpcs & Hnone).
    + eapply recent_mono; try done. cbn. intros t' p Hp.
      apply lookup_insert_Some in Hp as [[<- <-]|[_ Hp]]; [by right|by left].
    + cbn. by rewrite lookup_insert_eq.
    + done.
    + exists ((t, None) :: sched), s'. cbn [crun]. rewrite Hstep. cbn. split; [done|].
      split; [exact Hset|]. rewrite Hpcs. cbn. rewrite delete_insert_eq.
      split; [done|]. by constructor.
Qed.

Lemma finish_consumer n s t g m got k :
  (Z.to_nat m - length got <= n)%nat -> inv s -> recent s ->
  pcs s !! t = Some (CCopy (u32 g) g m got k) -> g = g_cons_tail s ->
  exists sched s', crun r s sched = Ok s' /\ settled s s' /\ pcs s' = delete t (pcs s) /\
    Forall (fun e => e.2 = None) sched.
Proof.
  revert s got. induction n as [|n IH]; intros s got Hn Hinv Hrec Ht Hg.
  all: destruct (cstep_inv s t None Hinv Hrec) as (s1 & Hstep & Hinv1).
  all: pose proof Hstep as Hs; unfold cstep in Hs; rewrite Ht in Hs; cbn [cons_step] in Hs.
  all: pose proof (inv_pcs s Hinv t _ Ht) as (_ & _ & _ & Hpos & Hi & _).
  all: destruct (Z.ltb_spec (Z.of_nat (length got)) m) as [Hlt|Hfull].
  all: try (destruct (Z.eqb_spec (cons_tail s) (u32 g)) as [|Hne];
    [|rewrite (inv_ct s Hinv) in Hne; congruence]).
  all: try (injection Hs as <-; exists [(t, None)]; eexists; cbn [crun]; rewrite Hstep;
    split; [done|]; split; [|by repeat constructor]; split; [exact Hinv1|]; split; [|done];
    eapply recent_mono; [exact Hrec|done|done|]; cbn; intros t' p Hp; left;
    apply lookup_delete_Some in Hp as [_ Hp]; exact Hp).
  - lia.
  - res_inv Hs. injection Hs as <-.
    destruct (IH _ (got ++ [r0])%list ltac:(rewrite length_app; cbn; lia) Hinv1)
      as (sched & s' & Hrun & Hset & Hpcs & Hnone).
    + eapply recent_mono; try done. cbn. intros t' p Hp.
      apply lookup_insert_Some in Hp as [[<- <-]|[_ Hp]]; [by right|by left].
    + cbn. by rewrite lookup_insert_eq.
    + done.
    + exists ((t, None) :: sched), s'. cbn [crun]. rewrite Hstep. cbn. split; [done|].
      split; [exact Hset|]. rewrite Hpcs. cbn. rewrite delete_insert_eq.
      split; [done|]. by constructor.
Qed.

(** The thread whose turn it is. *)
Lemma oldest_producer s :
  inv s -> g_prod_tail s < g_prod_head s ->
  exists t xs i, pcs s !! t = Some (PCopy xs (u32 (g_prod_tail s)) (g_prod_tail s) i).
Proof.
  intros Hinv Hlt.
  destruct (inv_pcover s Hinv (g_prod_tail s) ltac:(lia)) as (t & p & a & b & Ht & R & Hab).
  pose proof (inv_pcs s Hinv t p Ht) as Hok. pose proof (p_range_ok s p a b Hok R) as (? & ? & ?).
  destruct p as [| | |xs old g i| | | |]; try done. injection R as <- <-.
  destruct Hok as (-> & _). exists t, xs, i. by replace (g_prod_tail s) with g by lia.
Qed.

Lemma oldest_consumer s :
  inv s -> g_cons_tail s < g_cons_head s ->
  exists t m got k, pcs s !! t = Some (CCopy (u32 (g_cons_tail s)) (g_cons_tail s) m got k).
Proof.
  intros Hinv Hlt.
  destruct (inv_ccover s Hinv (g_cons_tail s) ltac:(lia)) as (t & p & a & b & Ht & R & Hab).
  pose proof (inv_pcs s Hinv t p Ht) as Hok. pose proof (c_range_ok s p a b Hok R) as (? & ? & ?).
  destruct p as [| | | | | | |old g m got k]; try done. injection R as <- <-.
  destruct Hok as (-> & _). exists t, m, got, k. by replace (g_cons_tail s) with g by lia.
Qed.

Lemma settle n s :
  (base.size (pcs s) <= n)%nat -> inv s -> recent s ->
  exists sched s', crun r s sched = Ok s' /\ settled s s' /\
    Forall (fun e => e.2 = None) sched /\
    g_prod_tail s' = g_prod_head s' /\ g_cons_tail s' = g_cons_head s'.
Proof.
  revert s. induction n as [|n IH]; intros s Hn Hinv Hrec.
  all: pose proof (inv_order s Hinv) as (O1 & O2 & O3 & O4 & O5).
  all: assert (forall t p, pcs s !! t = Some p ->
    (base.size (delete t (pcs s)) < base.size (pcs s))%nat) as Hdel.
  1, 3: intros t p Ht; rewrite map_size_delete_Some by (by eexists);
    pose proof (map_size_ne_0_lookup_2 (pcs s) t ltac:(by eexists)); lia.
  all: destruct (decide (g_prod_tail s < g_prod_head s)) as [Hp|Hp];
    [destruct (oldest_producer s Hinv Hp) as (t & xs & i & Ht); specialize (Hdel t _ Ht);
     destruct (finish_producer _ s t xs _ i (le_n _) Hinv Hrec Ht eq_refl)
       as (sched & s1 & Hrun & Hset & Hpcs & Hnone)
    |destruct (decide (g_cons_tail s < g_cons_head s)) as [Hc|Hc];
     [destruct (oldest_consumer s Hinv Hc) as (t & m & got & k & Ht); specialize (Hdel t _ Ht);
      destruct (finish_consumer _ s t _ m got k (le_n _) Hinv Hrec Ht eq_refl)
        as (sched & s1 & Hrun & Hset & Hpcs & Hnone)
     |exists [], s; split; [done|]; split; [done|]; split; [done|]; lia]].
  1, 2: lia.
  all: destruct (IH s1) as (sched2 & s2 & Hrun2 & Hset2 & Hnone2 & Htails);
    [rewrite Hpcs; lia|apply Hset..|].
  all: exists (sched ++ sched2)%list, s2; rewrite crun_app, Hrun; split; [done|];
    split; [by eapply settled_trans|]; split; [by apply Forall_app_2|done].
Qed.

(** ** What the invariant says *)

Lemma cinv_init : tail (prod r) = 0 -> tail (cons r) = 0 -> ring_ok r -> inv (cinit r).
Proof.
  intros Hp Hc Hok. pose proof (ht_quiet _ (ok_prod r Hok)). pose proof (ht_quiet _ (ok_cons r Hok)).
  pose proof size_facts. pose proof (ok_mem r Hgeom).
  split; cbn; try done; try lia; try congruence; try (unfold covered; intros; lia).
  all: change (u32 0) with 0; congruence.
Qed.

Lemma reach_inv s :
  tail (prod r) = 0 -> tail (cons r) = 0 -> ring_ok r -> reach r s -> inv s.
Proof.
  intros Hp Hc Hok. induction 1 as [|s t req s' _ IH Hrec Hs]; [by apply cinv_init|].
  destruct (cstep_inv s t req IH Hrec) as (s1 & Hs1 & Hinv). congruence.
Qed.

Lemma segment (l got : list Z) g :
  0 <= g -> (forall j x, got !! j = Some x -> l !! Z.to_nat (g + Z.of_nat j) = Some x) ->
  got = take (length got) (drop (Z.to_nat g) l).
Proof.
  intros Hg Hgot. apply list_eq. intros j. destruct (got !! j) as [x|] eqn:Hx.
  - pose proof (lookup_lt_Some _ _ _ Hx). rewrite lookup_take_lt, lookup_drop by lia.
    rewrite <- (Hgot j x Hx). f_equal. lia.
  - apply lookup_ge_None in Hx. rewrite lookup_ge_None_2; [done|]. rewrite length_take. lia.
Qed.

(** The objects the finished batches delivered, in order. *)
Definition delivered (s : cstate) : list Z := concat (omap snd (batches s)).

Lemma delivered_prefix l (bs : list (Z * Z * option (list Z))) lo hi :
  0 <= lo -> hi <= Z.of_nat (length l) -> chained bs lo hi ->
  Forall (fun e => exists got, e.2 = Some got /\
    got = take (Z.to_nat e.1.2) (drop (Z.to_nat e.1.1) l)) bs ->
  lo <= hi /\ take (Z.to_nat lo) l ++ concat (omap snd bs) = take (Z.to_nat hi) l.
Proof.
  intros Hlo Hhi Hch Hall. revert lo Hlo Hch.
  induction Hall as [|[[g m] o] bs (got & Ho & Hgot) _ IH]; intros lo Hlo Hch; cbn in *.
  - subst. split; [done|]. by rewrite app_nil_r.
  - destruct Hch as (-> & Hm & Hch). rewrite Ho. cbn.
    destruct (IH (lo + m) ltac:(lia) Hch) as [Hle Htake]. split; [lia|].
    rewrite app_assoc. rewrite <- Htake. f_equal. rewrite Hgot.
    rewrite Z2Nat.inj_add by lia. by rewrite take_take_drop.
Qed.

Lemma finished_batch s k g m got :
  inv s -> batches s !! k = Some (g, m, Some got) -> 0 <= g ->
  got = take (Z.to_nat m) (drop (Z.to_nat g) (enqueued_log s)).
Proof.
  intros Hinv Hk Hg. destruct (inv_batches s Hinv k _ Hk) as [Hl Hgot].
  rewrite <- Hl, Nat2Z.id. by apply segment.
Qed.

Lemma chained_nonneg bs lo hi k g m o :
  0 <= lo -> chained bs lo hi -> bs !! k = Some (g, m, o) -> 0 <= g.
Proof.
  revert lo k. induction bs as [|[[g' m'] o'] bs IH]; intros lo k Hlo Hch Hk; [done|].
  destruct Hch as (-> & Hm & Hch). destruct k as [|k]; cbn in Hk; [by simplify_eq|].
  apply (IH (lo + m') k); [lia|done..].
Qed.

(** The ring as a thread that is alone sees it. *)
Definition to_ring (s : cstate) : rte_ring :=
  mk_ring (name r) (flags r) (size r) (mask r) (capacity r)
    (mk_ht (prod_head s) (prod_tail s) 0 0 0 (sync_type (prod r)))
    (mk_ht (cons_head s) (cons_tail s) 0 0 0 (sync_type (cons r))) (slots s).

Lemma quiet_tails s :
  inv s -> pcs s = ∅ -> g_prod_tail s = g_prod_head s /\ g_cons_tail s = g_cons_head s.
Proof.
  intros Hinv Hq. pose proof (inv_order s Hinv) as (O1 & O2 & O3 & O4 & O5).
  pose proof (inv_pcover s Hinv) as Hp. pose proof (inv_ccover s Hinv) as Hc. rewrite Hq in *.
  split; [destruct (decide (g_prod_tail s = g_prod_head s))|
          destruct (decide (g_cons_tail s = g_cons_head s))]; try done; exfalso.
  - destruct (Hp (g_prod_tail s) ltac:(lia)) as (? & ? & ? & ? & ? & _). by simplify_map_eq.
  - destruct (Hc (g_cons_tail s) ltac:(lia)) as (? & ? & ? & ? & ? & _). by simplify_map_eq.
Qed.

Lemma quiet_ring s :
  inv s -> g_prod_tail s = g_prod_head s -> g_cons_tail s = g_cons_head s ->
  ring_ok (to_ring s) /\
  contents (to_ring s) = drop (Z.to_nat (g_cons_head s)) (enqueued_log s).
Proof.
  intros Hinv Hp Hc. pose proof (inv_order s Hinv) as (O1 & O2 & O3 & O4 & O5).
  pose proof size_facts as [Hs Hcap]. pose proof (inv_log s Hinv) as Hlog.
  assert (count (to_ring s) = g_prod_tail s - g_cons_tail s) as Hcnt.
  { unfold count. cbn. rewrite (inv_pt s Hinv), (inv_ct s Hinv). wrap_lia. }
  assert (ring_ok (to_ring s)) as Hok.
  { split.
    - destruct Hgeom. split; try done. apply (inv_mem s Hinv).
    - split; cbn; rewrite ?(inv_ph s Hinv), ?(inv_pt s Hinv); try done; [congruence|].
      apply wrapu_range. lia.
    - split; cbn; rewrite ?(inv_ch s Hinv), ?(inv_ct s Hinv); try done; [congruence|].
      apply wrapu_range. lia.
    - rewrite Hcnt. cbn. lia. }
  split; [done|]. apply list_eq_Z.
  { apply Nat2Z.inj. rewrite length_contents, Hcnt, length_drop. lia. }
  rewrite length_contents, Hcnt. intros j Hj. rewrite contents_lookup by lia.
  rewrite lookup_drop. rewrite <- slot_lookup by (by apply ok_geom). cbn [ring to_ring cons size].
  destruct (lookup_lt_is_Some_2 (enqueued_log s) (Z.to_nat (g_cons_head s) + Z.to_nat j))
    as [x Hx]; [lia|]. rewrite Hx.
  replace (Z.to_nat (g_cons_head s) + Z.to_nat j)%nat with (Z.to_nat (g_cons_tail s + j)) in Hx by lia.
  rewrite <- (inv_slots s Hinv (g_cons_tail s + j) x ltac:(lia) Hx).
  cbn [tail]. rewrite (inv_ct s Hinv). f_equal. f_equal.
  rewrite <- (Z.add_mod_idemp_l (u32 _)), size_wrap, Z.add_mod_idemp_l by (done || lia). done.
Qed.
End Conc.

(** ** Properties *)

(** C2: any number of producers and consumers may use a multi-thread ring at
    once, interleaved in any way in which no thread stalls while [2 ^ 32]
    objects pass ([recent]): no thread ever accesses memory outside of
    the ring, at most the capacity is in use, every batch a consumer got is
    the next part of the objects in the order their producers claimed the
    places, and once the threads are done everything enqueued was either
    delivered exactly once, in that order, or is still in the ring. *)
Theorem ring_mt_fifo mem nm cnt fl r s :
  rte_ring_init mem nm cnt fl = inl r -> 1 <= cnt < 2 ^ 31 ->
  Ring.size r <= Z.of_nat (length mem) -> reach r s ->
  (recent s -> forall t req, exists s', cstep r s t req = Ok s') /\
  g_prod_head s - g_cons_tail s <= capacity r /\
  chained (batches s) 0 (g_cons_head s) /\
  (forall k g m got, batches s !! k = Some (g, m, Some got) ->
     got = take (Z.to_nat m) (drop (Z.to_nat g) (enqueued_log s))) /\
  (pcs s = ∅ -> ring_ok (to_ring r s) /\
     delivered s ++ contents (to_ring r s) = enqueued_log s).
Proof.
  intros Hi Hc Hm Hreach. destruct (init_ok _ _ _ _ _ Hi Hc Hm) as (Hok & _ & _).
  destruct (init_sizes _ _ _ _ _ Hi Hc) as (_ & _ & _ & Htp & Htc & _).
  pose proof (ok_geom r Hok) as Hg. pose proof (reach_inv r Hg s Htp Htc Hok Hreach) as Hinv.
  pose proof (inv_order r s Hinv) as (O1 & O2 & O3 & O4 & O5). pose proof (inv_chain r s Hinv) as Hch.
  split; [|split; [lia|split; [done|split]]].
  - intros Hrec t req. destruct (cstep_inv r Hg s t req Hinv Hrec) as (s' & Hs & _). eauto.
  - intros k g m got Hk. apply (finished_batch r s k); [done..|].
    by apply (chained_nonneg _ _ _ _ _ _ _ (Z.le_refl 0) Hch Hk).
  - intros Hq. destruct (quiet_tails r s Hinv Hq) as [Hpt Hct].
    destruct (quiet_ring r Hg s Hinv Hpt Hct) as [Hrok ->]. split; [done|].
    destruct (delivered_prefix (enqueued_log s) (batches s) 0 (g_cons_head s)) as [_ Hd];
      [lia|rewrite (inv_log r s Hinv); lia|done| |].
    { apply Forall_lookup_2. intros k [[g m] [got|]] Hk; cbn.
      - exists got. split; [done|]. apply (finished_batch r s k); [done..|].
        by apply (chained_nonneg _ _ _ _ _ _ _ (Z.le_refl 0) Hch Hk).
      - destruct (inv_batches r s Hinv k _ Hk) as (t & old & got & Ht).
        rewrite Hq in Ht. by simplify_map_eq. }
    unfold delivered. rewrite <- (take_drop (Z.to_nat (g_cons_head s)) (enqueued_log s)) at 2.
    by rewrite <- Hd.
Qed.

(** C36: the waits of the multi-thread ring cannot deadlock: from every
    state the threads reach, with no thread stalled while [2 ^ 32] objects
    passed, running only the threads that have claimed
    places, each until it is done, brings both tails up to their heads; the
    ring then holds exactly the objects not yet claimed by a consumer. *)
Theorem ring_mt_settles mem nm cnt fl r s :
  rte_ring_init mem nm cnt fl = inl r -> 1 <= cnt < 2 ^ 31 ->
  Ring.size r <= Z.of_nat (length mem) -> reach r s -> recent s ->
  exists sched s', crun r s sched = Ok s' /\
    Forall (fun e => e.2 = None) sched /\
    prod_head s' = prod_head s /\ cons_head s' = cons_head s /\
    prod_tail s' = prod_head s' /\ cons_tail s' = cons_head s' /\
    contents (to_ring r s') = drop (Z.to_nat (g_cons_head s)) (enqueued_log s).
Proof.
  intros Hi Hc Hm Hreach Hrec. destruct (init_ok _ _ _ _ _ Hi Hc Hm) as (Hok & _ & _).
  destruct (init_sizes _ _ _ _ _ Hi Hc) as (_ & _ & _ & Htp & Htc & _).
  pose proof (ok_geom r Hok) as Hg. pose proof (reach_inv r Hg s Htp Htc Hok Hreach) as Hinv.
  destruct (settle r Hg _ s (le_n _) Hinv Hrec)
    as (sched & s' & Hrun & (Hinv' & _ & Hph & Hch & Hlog) & Hnone & Hpt & Hct).
  exists sched, s'. split; [done|]. split; [done|].
  rewrite (inv_ph r s' Hinv'), (inv_ph r s Hinv), (inv_ch r s' Hinv'), (inv_ch r s Hinv),
    (inv_pt r s' Hinv'), (inv_ct r s' Hinv').
  rewrite <- Hch, <- Hlog. split; [congruence|]. split; [done|]. split; [congruence|].
  split; [congruence|]. by apply (quiet_ring r Hg s' Hinv').
Qed.

(** ** Witnesses *)

(** Two producers race for the head of a ring of four slots; the one that
    loses retries, finishes its copy first and has to wait. *)
Definition race : list (nat * option request) :=
  [(0%nat, Some (Enqueue [1; 2] RTE_RING_QUEUE_FIXED)); (1%nat, Some (Enqueue [3] RTE_RING_QUEUE_FIXED));
   (0%nat, None); (1%nat, None); (0%nat, None); (1%nat, None); (0%nat, None); (1%nat, None);
   (1%nat, None); (1%nat, None); (1%nat, None); (1%nat, None); (1%nat, None)].

Definition race_ring : rte_ring :=
  match rte_ring_init (replicate 4 0) "dispatch_ring_p0_q0" 4 0 with
  | inl r => r
  | inr _ => RingProofs.example_ring
  end.

Definition race_state : cstate :=
  match crun race_ring (cinit race_ring) race with Ok s => s | _ => cinit race_ring end.

Definition recent_b (s : cstate) : bool :=
  forallb (fun e => pc_recent s e.2) (map_to_list (pcs s)).

Lemma recent_check s : recent_b s = true -> recent s.
Proof.
  unfold recent_b. rewrite forallb_forall. intros Hrec t p Hp. apply (Hrec (t, p)).
  by apply list_elem_of_In, elem_of_map_to_list.
Qed.

(** Reachability by running, with the recency of every state on the way. *)
Fixpoint run_recent (r : rte_ring) (s : cstate) (sched : list (nat * option request)) : bool :=
  match sched with
  | [] => true
  | (t, req) :: rest =>
      recent_b s &&
      match cstep r s t req with Ok s' => run_recent r s' rest | _ => false end
  end.

Lemma run_reach r sched s s' :
  reach r s -> run_recent r s sched = true -> crun r s sched = Ok s' -> reach r s'.
Proof.
  revert s. induction sched as [|[t req] sched IH]; intros s Hs Hrec Hrun; cbn in *.
  - by simplify_eq.
  - apply andb_true_iff in Hrec as [Hrec Hrest]. destruct (cstep r s t req) as [s1| |] eqn:E; try done.
    apply (IH s1); [|done|done]. eapply reach_step; [done| |done].
    by apply recent_check.
Qed.

Lemma race_reach : reach race_ring race_state.
Proof.
  apply (run_reach race_ring race (cinit race_ring)); [constructor| |]; vm_compute; reflexivity.
Qed.

Lemma ring_mt_fifo_witness :
  (recent race_state -> forall t req, exists s', cstep race_ring race_state t req = Ok s') /\
  g_prod_head race_state - g_cons_tail race_state <= capacity race_ring /\
  chained (batches race_state) 0 (g_cons_head race_state) /\
  (forall k g m got, batches race_state !! k = Some (g, m, Some got) ->
     got = take (Z.to_nat m) (drop (Z.to_nat g) (enqueued_log race_state))) /\
  (pcs race_state = ∅ -> ring_ok (to_ring race_ring race_state) /\
     delivered race_state ++ contents (to_ring race_ring race_state) = enqueued_log race_state).
Proof.
  apply (ring_mt_fifo (replicate 4 0) "dispatch_ring_p0_q0" 4 0).
  - vm_compute. reflexivity.
  - lia.
  - vm_compute. discriminate.
  - exact race_reach.
Defined.

Lemma ring_mt_settles_witness :
  exists sched s', crun race_ring race_state sched = Ok s' /\
    Forall (fun e => e.2 = None) sched /\
    prod_head s' = prod_head race_state /\ cons_head s' = cons_head race_state /\
    prod_tail s' = prod_head s' /\ cons_tail s' = cons_head s' /\
    contents (to_ring race_ring s') = drop 0 [1; 2; 3].
Proof.
  apply (ring_mt_settles (replicate 4 0) "dispatch_ring_p0_q0" 4 0).
  - vm_compute. reflexivity.
  - lia.
  - vm_compute. discriminate.
  - exact race_reach.
  - apply recent_check. vm_compute. reflexivity.
Defined.
