(* ===== verification/Kni.v ===== *)
(** * The kernel interface path ([lib/ff_dpdk_kni.c])

    Packets that F-Stack does not handle itself are handed to the kernel
    through a virtio port.  The file decides which packets those are (port
    bitmaps and a walk over the IP headers), limits their rate, and moves
    them between the rings and the ports.  The build is the default one:
    [FF_KNI] and [INET6] are defined, the host is little-endian.

    Packet memory is a list of bytes, and a read outside of it a [Panic].
    Packets in flight are mbuf addresses; [sent] and [freed] record, oldest
    first, the mbufs given to a port and those given back to their pool. *)

From S2P Require Import Prelude CString Fifo.

Module Kni.

(** ** Constants *)

Definition RTE_ETHER_TYPE_IPV4 : Z := 0x0800.
Definition RTE_ETHER_TYPE_IPV6 : Z := 0x86DD.
Definition IPPROTO_HOPOPTS : Z := 0.
Definition IPPROTO_IPIP : Z := 4.
Definition IPPROTO_TCP : Z := 6.
Definition IPPROTO_UDP : Z := 17.
Definition IPPROTO_IPV6 : Z := 41.
Definition IPPROTO_ROUTING : Z := 43.
Definition IPPROTO_FRAGMENT : Z := 44.
Definition IPPROTO_AH : Z := 51.
Definition IPPROTO_ICMPV6 : Z := 58.
Definition IPPROTO_DSTOPTS : Z := 60.
Definition IPPROTO_OSPFIGP : Z := 89.
Definition IPPROTO_MH : Z := 135.
Definition IPPROTO_HIP : Z := 139.
Definition IPPROTO_SHIM6 : Z := 140.
Definition ND_ROUTER_SOLICIT : Z := 133.
Definition ND_REDIRECT : Z := 137.
Definition sizeof_ipv4_hdr : Z := 20.
Definition sizeof_ipv6_hdr : Z := 40.
Definition sizeof_tcp_hdr : Z := 20.
Definition sizeof_udp_hdr : Z := 8.
Definition sizeof_icmp6_hdr : Z := 8.

Inductive FilterReturn :=
| FILTER_UNKNOWN
| FILTER_KNI
| FILTER_ARP
| FILTER_NDP
| FILTER_OSPF
| FILTER_MULTI.

Definition filter_value (f : FilterReturn) : Z :=
  match f with
  | FILTER_UNKNOWN => -1
  | FILTER_KNI => 1
  | FILTER_ARP => 2
  | FILTER_NDP => 3
  | FILTER_OSPF => 4
  | FILTER_MULTI => 5
  end.

(** ** Port bitmaps *)

Abbreviation bitmap := (list Z) (only parsing).

Definition magic_bits : list Z := [0x80; 0x40; 0x20; 0x10; 0x8; 0x4; 0x2; 0x1].

Definition htons (x : Z) : Z := Z.lor (Z.shiftl (Z.land x 0xff) 8) (Z.shiftr x 8).

Definition set_bitmap (port : Z) (bm : bitmap) : res bitmap :=
  let port := htons (u16 port) in
  let* p := array_get bm (port / 8) in
  let* b := array_get magic_bits (port mod 8) in
  array_set bm (port / 8) (u8 (Z.lor p b)).

Definition get_bitmap (port : Z) (bm : bitmap) : res Z :=
  let* p := array_get bm (port / 8) in
  let* b := array_get magic_bits (port mod 8) in
  Ok (if 0 <? Z.land p b then 1 else 0).

(** [for (i = lo; i <= hi; ++i) set_bitmap(i, port_bitmap)] *)
Fixpoint set_range (fuel : nat) (i hi : Z) (bm : bitmap) : res bitmap :=
  match fuel with
  | O => NoFuel
  | S fuel' =>
      if i <=? hi then
        let* bm' := set_bitmap i bm in
        set_range fuel' (s32 (i + 1)) hi bm'
      else Ok bm
  end.

(** The loop over the list; [n] bounds the number of its items. *)
Fixpoint set_items (n fuel : nat) (head : cstr) (bm : bitmap) : res bitmap :=
  match n with
  | O => NoFuel
  | S n' =>
      let tail := strchr head 44 in
      let tail_num := strchr head 45 in
      let range :=
        match tail_num, tail with
        | Some j, Some i => Z.of_nat j <? Z.of_nat i - 1
        | Some _, None => true
        | None, _ => false
        end in
      let* bm' :=
        if range then
          set_range fuel (atoi head) (atoi (drop (S (default O tail_num)) head)) bm
        else set_bitmap (atoi head) bm in
      match tail with
      | None => Ok bm'
      | Some i => set_items n' fuel (drop (S i) head) bm'
      end
  end.

(** [p] is [None] for a null pointer. *)
Definition kni_set_bitmap (fuel : nat) (p : option cstr) (bm : bitmap) : res bitmap :=
  match p with
  | None => Ok bm
  | Some s => set_items (S (length s)) fuel s bm
  end.

(** ** The packet filter *)

Definition byte_at (data : list Z) (i : Z) : res Z := array_get data i.

(** A 16-bit field in network byte order, as the host reads it. *)
Definition raw16_at (data : list Z) (i : Z) : res Z :=
  let* a := byte_at data i in
  let* b := byte_at data (i + 1) in
  Ok (a + 256 * b).

Definition advance (data : list Z) (n : Z) : list Z := drop (Z.to_nat n) data.

Definition protocol_filter_l4 (port : Z) (bm : bitmap) : res FilterReturn :=
  let* b := get_bitmap port bm in
  Ok (if b =? 0 then FILTER_UNKNOWN else FILTER_KNI).

Definition protocol_filter_tcp (tcp_port_bitmap : bitmap) (data : list Z) (len : Z) :
    res FilterReturn :=
  if len <? sizeof_tcp_hdr then Ok FILTER_UNKNOWN
  else
    let* dst_port := raw16_at data 2 in
    protocol_filter_l4 dst_port tcp_port_bitmap.

Definition protocol_filter_udp (udp_port_bitmap : bitmap) (data : list Z) (len : Z) :
    res FilterReturn :=
  if len <? sizeof_udp_hdr then Ok FILTER_UNKNOWN
  else
    let* dst_port := raw16_at data 2 in
    protocol_filter_l4 dst_port udp_port_bitmap.

(** The length of the extension headers and the protocol after them. *)
Fixpoint get_ipv6_hdr_len (fuel : nat) (proto : Z) (data : list Z) (len : Z) : res (Z * Z) :=
  match fuel with
  | O => NoFuel
  | S fuel' =>
      let* ext :=
        if (proto =? IPPROTO_HOPOPTS) || (proto =? IPPROTO_ROUTING) || (proto =? IPPROTO_DSTOPTS)
           || (proto =? IPPROTO_MH) || (proto =? IPPROTO_HIP) || (proto =? IPPROTO_SHIM6) then
          let* b := byte_at data 1 in
          Ok (Some (b + 1))
        else if proto =? IPPROTO_FRAGMENT then Ok (Some 8)
        else if proto =? IPPROTO_AH then
          let* b := byte_at data 1 in
          Ok (Some ((b + 2) * 4))
        else Ok None in
      match ext with
      | None => Ok (0, proto)
      | Some ext_hdr_len =>
          if len <=? ext_hdr_len then Ok (len, proto)
          else
            let* proto' := byte_at data 0 in
            let* (rest, proto'') :=
              get_ipv6_hdr_len fuel' proto' (advance data ext_hdr_len) (u16 (len - ext_hdr_len)) in
            Ok (ext_hdr_len + rest, proto'')
      end
  end.

Definition protocol_filter_icmp6 (data : list Z) (len : Z) : res FilterReturn :=
  if len <? sizeof_icmp6_hdr then Ok FILTER_UNKNOWN
  else
    let* icmp6_type := byte_at data 0 in
    Ok (if (ND_ROUTER_SOLICIT <=? icmp6_type) && (icmp6_type <=? ND_REDIRECT)
        then FILTER_NDP else FILTER_UNKNOWN).

(** What the filter reads of the process: [enable_kni] and the bitmaps. *)
Record filter_env := mk_filter_env {
  enable_kni : bool;
  tcp_port_bitmap : bitmap;
  udp_port_bitmap : bitmap
}.

(** The header at the front: its length and its protocol, or [None] for a
    packet the filter gives up on. *)
Definition ip_header (data : list Z) (len eth_frame_type : Z) : res (option (Z * Z)) :=
  if eth_frame_type =? RTE_ETHER_TYPE_IPV4 then
    if len <? sizeof_ipv4_hdr then Ok None
    else
      let* version_ihl := byte_at data 0 in
      let hdr_len := Z.shiftl (Z.land version_ihl 0x0f) 2 in
      if len <? hdr_len then Ok None
      else
        let* proto := byte_at data 9 in
        Ok (Some (hdr_len, proto))
  else if eth_frame_type =? RTE_ETHER_TYPE_IPV6 then
    if len <? sizeof_ipv6_hdr then Ok None
    else
      let* proto := byte_at data 6 in
      let* (ext, proto') :=
        get_ipv6_hdr_len (S (Z.to_nat len)) proto (advance data sizeof_ipv6_hdr)
          (u16 (len - sizeof_ipv6_hdr)) in
      let hdr_len := sizeof_ipv6_hdr + ext in
      if len <? hdr_len then Ok None else Ok (Some (hdr_len, proto'))
  else Ok None.

Fixpoint protocol_filter_ip (fuel : nat) (e : filter_env) (data : list Z)
    (len eth_frame_type : Z) : res FilterReturn :=
  match fuel with
  | O => NoFuel
  | S fuel' =>
      let* h := ip_header data len eth_frame_type in
      match h with
      | None => Ok FILTER_UNKNOWN
      | Some (hdr_len, proto) =>
          let next := advance data hdr_len in
          let next_len := u16 (len - hdr_len) in
          if proto =? IPPROTO_OSPFIGP then Ok FILTER_OSPF
          else if proto =? IPPROTO_TCP then
            if negb (enable_kni e) then Ok FILTER_UNKNOWN
            else protocol_filter_tcp (tcp_port_bitmap e) next next_len
          else if proto =? IPPROTO_UDP then
            if negb (enable_kni e) then Ok FILTER_UNKNOWN
            else protocol_filter_udp (udp_port_bitmap e) next next_len
          else if proto =? IPPROTO_IPIP then
            protocol_filter_ip fuel' e next next_len RTE_ETHER_TYPE_IPV4
          else if proto =? IPPROTO_IPV6 then
            protocol_filter_ip fuel' e next next_len RTE_ETHER_TYPE_IPV6
          else if proto =? IPPROTO_ICMPV6 then protocol_filter_icmp6 next next_len
          else Ok FILTER_UNKNOWN
      end
  end.

Definition ff_kni_proto_filter := protocol_filter_ip.

(** The bitmaps [ff_kni_init] makes of the configured port lists. *)
Definition init_bitmaps (fuel : nat) (tcp_ports udp_ports : option cstr) : res (bitmap * bitmap) :=
  let* tcp := kni_set_bitmap fuel tcp_ports (replicate (Z.to_nat 8192) 0) in
  let* udp := kni_set_bitmap fuel udp_ports (replicate (Z.to_nat 8192) 0) in
  Ok (tcp, udp).

(** ** Moving packets *)

(** The fields of [ff_global_cfg] the file reads, and the identity of the
    process and of the thread. *)
Record kni_cfg := mk_kni_cfg {
  thread_mode : bool;
  primary_slim : bool;
  proc_id : Z;
  proc_lcore0 : Z;
  owner_proc_id : Z;
  console_packets_ratelimit : Z;
  general_packets_ratelimit : Z;
  kernel_packets_ratelimit : Z;
  rte_lcore_id : Z;
  is_primary : bool
}.

Definition ff_kni_is_owner_thread (c : kni_cfg) : bool :=
  if thread_mode c then rte_lcore_id c =? proc_lcore0 c else is_primary c.

Definition ff_kni_is_runtime_owner (c : kni_cfg) : bool :=
  if thread_mode c then rte_lcore_id c =? proc_lcore0 c
  else if negb (primary_slim c) then is_primary c
  else proc_id c =? owner_proc_id c.

Record kni_interface_stats := mk_stats {
  port_id : Z;
  rx_packets : Z;
  rx_dropped : Z;
  tx_packets : Z;
  tx_dropped : Z
}.

Record kni_ratelimit := mk_ratelimit {
  console_packets : Z;
  gerneal_packets : Z;
  kernel_packets : Z
}.

Section Io.
Context {R : Type} `{FifoOps R}.

(** The ports: [rte_eth_tx_burst] returns how many of the packets, from the
    first on, the port took; [rte_eth_rx_burst] the packets received. *)
Context {Nic : Type}.
Variable rte_eth_tx_burst : Nic -> Z -> Z -> list Z -> Nic * Z.
Variable rte_eth_rx_burst : Nic -> Z -> Z -> Z -> Nic * list Z.

Record kni_state := mk_kni_state {
  kni_rp : gmap Z R;
  kni_inject_rp : gmap Z R;
  kni_stat : gmap Z kni_interface_stats;
  kni_rate_limt : kni_ratelimit;
  nic : Nic;
  sent : list (Z * Z * Z);
  freed : list Z
}.

Definition with_rp (s : kni_state) x : kni_state :=
  mk_kni_state x (kni_inject_rp s) (kni_stat s) (kni_rate_limt s) (nic s) (sent s) (freed s).
Definition with_inject_rp (s : kni_state) x : kni_state :=
  mk_kni_state (kni_rp s) x (kni_stat s) (kni_rate_limt s) (nic s) (sent s) (freed s).
Definition with_stat (s : kni_state) x : kni_state :=
  mk_kni_state (kni_rp s) (kni_inject_rp s) x (kni_rate_limt s) (nic s) (sent s) (freed s).
Definition with_rate (s : kni_state) x : kni_state :=
  mk_kni_state (kni_rp s) (kni_inject_rp s) (kni_stat s) x (nic s) (sent s) (freed s).
Definition with_nic (s : kni_state) x y : kni_state :=
  mk_kni_state (kni_rp s) (kni_inject_rp s) (kni_stat s) (kni_rate_limt s) x y (freed s).
Definition with_freed (s : kni_state) x : kni_state :=
  mk_kni_state (kni_rp s) (kni_inject_rp s) (kni_stat s) (kni_rate_limt s) (nic s) (sent s) x.

(** A use of a table's entry that was never filled in is a use of [NULL]. *)
Definition entry {A} (m : gmap Z A) (k : Z) : res A :=
  match m !! k with Some x => Ok x | None => Panic end.

Definition rte_pktmbuf_free (s : kni_state) (m : Z) : kni_state := with_freed s (freed s ++ [m]).

(** The port takes the first packets of the table. *)
Definition eth_tx_burst (s : kni_state) (port queue : Z) (pkts : list Z) (n : Z) : kni_state * Z :=
  let tbl := take (Z.to_nat n) pkts in
  let '(nic', k) := rte_eth_tx_burst (nic s) port queue tbl in
  (with_nic s nic' (sent s ++ ((fun m => (port, queue, m)) <$> take (Z.to_nat k) tbl)), k).

Definition eth_rx_burst (s : kni_state) (port queue : Z) (pkts : list Z) (n : Z) :
    kni_state * list Z * Z :=
  let '(nic', got) := rte_eth_rx_burst (nic s) port queue n in
  (with_nic s nic' (sent s), got ++ drop (length got) pkts, Z.of_nat (length got)).

(** [for (i = from; i < to; ++i) rte_pktmbuf_free(pkts_burst[i])] *)
Fixpoint free_from (k : nat) (s : kni_state) (pkts : list Z) (i : Z) : res kni_state :=
  match k with
  | O => Ok s
  | S k' =>
      let* m := array_get pkts i in
      free_from k' (rte_pktmbuf_free s m) pkts (i + 1)
  end.

Definition add_rx (st : kni_interface_stats) (pk dr : Z) : kni_interface_stats :=
  mk_stats (port_id st) (u64 (rx_packets st + pk)) (u64 (rx_dropped st + dr))
    (tx_packets st) (tx_dropped st).
Definition add_tx (st : kni_interface_stats) (pk dr : Z) : kni_interface_stats :=
  mk_stats (port_id st) (rx_packets st) (rx_dropped st)
    (u64 (tx_packets st + pk)) (u64 (tx_dropped st + dr)).

(** The end of the path to the kernel: what its port did not take is freed
    and counted. *)
Definition rx_rest (s : kni_state) (port : Z) (pkts : list Z) (n done : Z) : res kni_state :=
  let* s :=
    if done <? n then
      let* s' := free_from (Z.to_nat (n - done)) s pkts done in
      let* st := entry (kni_stat s') port in
      Ok (with_stat s' (<[port := add_rx st 0 (n - done)]> (kni_stat s')))
    else Ok s in
  let* st := entry (kni_stat s) port in
  Ok (with_stat s (<[port := add_rx st done 0]> (kni_stat s))).

Definition kni_process_tx (c : kni_cfg) (s : kni_state) (port : Z) (pkts_burst : list Z)
    (count : Z) : res (kni_state * list Z) :=
  let* rp := entry (kni_rp s) port in
  let* (rp', pkts, n, _) := fifo_dequeue_burst rp pkts_burst count in
  let nb_tx := u16 n in
  let s := with_rp s (<[port := rp']> (kni_rp s)) in
  let '(s, nb_to_tx) :=
    if negb (kernel_packets_ratelimit c =? 0) then
      let lim := kni_rate_limt s in
      let nb_to_tx :=
        if kernel_packets lim <? u64 (kernel_packets_ratelimit c) then nb_tx else 0 in
      (with_rate s (mk_ratelimit (console_packets lim) (gerneal_packets lim)
         (u64 (kernel_packets lim + nb_tx))), nb_to_tx)
    else (s, nb_tx) in
  let* st := entry (kni_stat s) port in
  let '(s, nb_kni_tx) := eth_tx_burst s (port_id st) 0 pkts nb_to_tx in
  let* s := rx_rest s port pkts nb_tx nb_kni_tx in
  Ok (s, pkts).

(** The end of the paths towards a NIC queue: what the port did not take is
    freed and counted. *)
Definition tx_rest (s : kni_state) (port : Z) (pkts : list Z) (n done : Z) : res kni_state :=
  let* s :=
    if done <? n then
      let* s' := free_from (Z.to_nat (n - done)) s pkts done in
      let* st := entry (kni_stat s') port in
      Ok (with_stat s' (<[port := add_tx st 0 (n - done)]> (kni_stat s')))
    else Ok s in
  let* st := entry (kni_stat s) port in
  Ok (with_stat s (<[port := add_tx st done 0]> (kni_stat s))).

Definition kni_process_rx (c : kni_cfg) (s : kni_state) (port queue : Z) (pkts_burst : list Z)
    (count : Z) : res (kni_state * list Z) :=
  let* st := entry (kni_stat s) port in
  let '(s, pkts, nb_kni_rx) := eth_rx_burst s (port_id st) 0 pkts_burst count in
  if 0 <? nb_kni_rx then
    if primary_slim c && is_primary c then
      let* rp := entry (kni_inject_rp s) port in
      let* (rp', enq, _) := fifo_enqueue_burst rp pkts nb_kni_rx in
      let s := with_inject_rp s (<[port := rp']> (kni_inject_rp s)) in
      let* s := tx_rest s port pkts nb_kni_rx enq in
      Ok (s, pkts)
    else
      let '(s, nb_rx) := eth_tx_burst s port queue pkts nb_kni_rx in
      let* s := tx_rest s port pkts nb_kni_rx nb_rx in
      Ok (s, pkts)
  else Ok (s, pkts).

Definition ff_kni_process (c : kni_cfg) (s : kni_state) (port queue : Z) (pkts_burst : list Z)
    (count : Z) : res kni_state :=
  let* (s, pkts) := kni_process_tx c s port pkts_burst count in
  let* (s, _) := kni_process_rx c s port queue pkts count in
  Ok s.

Definition ff_kni_inject_process (s : kni_state) (port queue : Z) (pkts_burst : list Z)
    (count : Z) : res kni_state :=
  let* rp := entry (kni_inject_rp s) port in
  let* (rp', pkts, n, _) := fifo_dequeue_burst rp pkts_burst count in
  let nb_rx := u16 n in
  let s := with_inject_rp s (<[port := rp']> (kni_inject_rp s)) in
  if nb_rx =? 0 then Ok s
  else
    let '(s, nb_tx) := eth_tx_burst s port queue pkts nb_rx in
    tx_rest s port pkts nb_rx nb_tx.

(** The [error] label of [ff_kni_enqueue]. *)
Definition enqueue_error (c : kni_cfg) (s : kni_state) (port pkt : Z) : res (kni_state * Z) :=
  let* s :=
    if ff_kni_is_owner_thread c || ff_kni_is_runtime_owner c then
      let* st := entry (kni_stat s) port in
      Ok (with_stat s (<[port := add_rx st 0 1]> (kni_stat s)))
    else Ok s in
  Ok (rte_pktmbuf_free s pkt, -1).

(** The class of a packet, its counter incremented, and whether it is over
    the limit of its class. *)
Definition rate_check (c : kni_cfg) (lim : kni_ratelimit) (filter : FilterReturn) :
    kni_ratelimit * bool :=
  if filter_value FILTER_ARP <=? filter_value filter then
    if negb (console_packets_ratelimit c =? 0) then
      let n := u64 (console_packets lim + 1) in
      (mk_ratelimit n (gerneal_packets lim) (kernel_packets lim),
       u64 (console_packets_ratelimit c) <? n)
    else (lim, false)
  else
    if negb (general_packets_ratelimit c =? 0) then
      let n := u64 (gerneal_packets lim + 1) in
      (mk_ratelimit (console_packets lim) n (kernel_packets lim),
       u64 (general_packets_ratelimit c) <? n)
    else (lim, false).

Definition ff_kni_enqueue (c : kni_cfg) (s : kni_state) (filter : FilterReturn) (port pkt : Z) :
    res (kni_state * Z) :=
  let '(lim, over) := rate_check c (kni_rate_limt s) filter in
  let s := with_rate s lim in
  if over then enqueue_error c s port pkt
  else
    let* rp := entry (kni_rp s) port in
    let* (rp', ret) := fifo_enqueue rp pkt in
    let s := with_rp s (<[port := rp']> (kni_rp s)) in
    if ret <? 0 then enqueue_error c s port pkt else Ok (s, 0).
End Io.

End Kni.
