(* ===== verification/KniProofs.v ===== *)
(** * Proofs about the kernel interface path

    The port bitmaps hold exactly the ports of the configured list; the
    filter classifies by them, and either terminates or meets the one header
    that makes it loop; every mbuf the path takes in is sent, queued or freed
    exactly once; the rate limits bound what goes through. *)

From stdpp Require Import strings.
From Stdlib Require Import Permutation.
From S2P Require Import Prelude CString Fifo Ring RingProofs Kni.

Import Kni.

(** ** Bitmaps *)

Record bitmap_ok (bm : bitmap) : Prop := {
  bm_length : length bm = Z.to_nat 8192;
  bm_bytes : Forall (fun b => 0 <= b < 256) bm
}.

(** The bit of a port in network byte order. *)
Definition has_bit (bm : bitmap) (q : Z) : bool :=
  Z.testbit (bm !!! Z.to_nat (q / 8)) (7 - q mod 8).

Lemma htons_spec x : 0 <= x < 65536 -> htons x = 256 * (x mod 256) + x / 256.
Proof.
  intros Hx. unfold htons. change 255 with (2 ^ 8 - 1).
  rewrite land_mask, Z.shiftr_div_pow2, Z.shiftl_mul_pow2 by lia. change (2 ^ 8) with 256.
  pose proof (Z.add_lor_land (x mod 256 * 256) (x / 256)) as Ha.
  assert (Z.land (x mod 256 * 256) (x / 256) = 0) as H0; [|lia].
  apply Z.bits_inj'. intros i Hi. rewrite Z.land_spec, Z.bits_0.
  destruct (decide (i < 8)).
  - change 256 with (2 ^ 8) at 2. rewrite Z.mul_pow2_bits_low by lia. done.
  - rewrite (Z.bits_above_log2 (x / 256)), andb_false_r; [done|apply Z.div_pos; lia|].
    assert (x / 256 < 256) by (apply Z.div_lt_upper_bound; lia).
    destruct (decide (x / 256 = 0)) as [->|]; [cbn; lia|].
    assert (Z.log2 (x / 256) < 8); [|lia]. apply Z.log2_lt_pow2; [|done].
    pose proof (Z.div_pos x 256). lia.
Qed.

Lemma htons_range x : 0 <= x < 65536 -> 0 <= htons x < 65536.
Proof.
  intros Hx. rewrite htons_spec by done. pose proof (Z.mod_pos_bound x 256 ltac:(lia)).
  pose proof (Z.div_pos x 256 ltac:(lia) ltac:(lia)).
  assert (x / 256 < 256) by (apply Z.div_lt_upper_bound; lia). lia.
Qed.

Lemma htons_involutive x : 0 <= x < 65536 -> htons (htons x) = x.
Proof.
  intros Hx. pose proof (htons_range x Hx). rewrite (htons_spec (htons x)) by done.
  rewrite htons_spec by done. pose proof (Z.mod_pos_bound x 256 ltac:(lia)).
  pose proof (Z.div_mod x 256 ltac:(lia)). pose proof (Z.div_pos x 256 ltac:(lia) ltac:(lia)).
  assert (x / 256 < 256) by (apply Z.div_lt_upper_bound; lia).
  replace (256 * (x mod 256) + x / 256) with (x / 256 + x mod 256 * 256) by lia.
  rewrite Z.mod_add, Z.div_add, (Z.mod_small (x / 256)), (Z.div_small (x / 256)) by lia. lia.
Qed.

Lemma htons_inj x y :
  0 <= x < 65536 -> 0 <= y < 65536 -> htons x = htons y -> x = y.
Proof. intros Hx Hy E. rewrite <- (htons_involutive x), E, htons_involutive by done. done. Qed.

Lemma magic_bits_spec i : 0 <= i < 8 -> array_get magic_bits i = Ok (2 ^ (7 - i)).
Proof.
  intros Hi. assert (i = 0 \/ i = 1 \/ i = 2 \/ i = 3 \/ i = 4 \/ i = 5 \/ i = 6 \/ i = 7) as Hc by lia.
  destruct Hc as [->|[->|[->|[->|[->|[->|[->| ->]]]]]]]; reflexivity.
Qed.

Lemma port_byte bm q :
  bitmap_ok bm -> 0 <= q < 65536 ->
  0 <= q / 8 < 8192 /\ array_get bm (q / 8) = Ok (bm !!! Z.to_nat (q / 8)) /\
  0 <= bm !!! Z.to_nat (q / 8) < 256.
Proof.
  intros [Hl Hb] Hq. assert (0 <= q / 8 < 8192) as Hr.
  { split; [apply Z.div_pos; lia|]. apply Z.div_lt_upper_bound; lia. }
  assert (bm !! Z.to_nat (q / 8) = Some (bm !!! Z.to_nat (q / 8))) as Hs.
  { apply list_lookup_lookup_total_lt. rewrite Hl. lia. }
  split; [done|]. split; [apply array_get_Ok; split; [lia|done]|].
  rewrite Forall_lookup in Hb. by eapply Hb.
Qed.

Lemma get_bitmap_spec bm q :
  bitmap_ok bm -> 0 <= q < 65536 ->
  get_bitmap q bm = Ok (if has_bit bm q then 1 else 0).
Proof.
  intros Hok Hq. destruct (port_byte bm q Hok Hq) as (Hr & Hg & Hb).
  pose proof (Z.mod_pos_bound q 8 ltac:(lia)) as Hm.
  unfold get_bitmap, has_bit. rewrite Hg. cbn [res_bind]. rewrite magic_bits_spec by lia.
  cbn [res_bind]. f_equal.
  destruct (Z.testbit (bm !!! Z.to_nat (q / 8)) (7 - q mod 8)) eqn:Et.
  - replace (Z.land _ _) with (2 ^ (7 - q mod 8)).
    { destruct (Z.ltb_spec 0 (2 ^ (7 - q mod 8))); [done|].
      pose proof (Z.pow_pos_nonneg 2 (7 - q mod 8)). lia. }
    apply Z.bits_inj'. intros i Hi. rewrite Z.land_spec.
    destruct (decide (i = 7 - q mod 8)) as [->|Hne].
    + by rewrite Et, Z.pow2_bits_true by lia.
    + rewrite Z.pow2_bits_false by lia. by rewrite andb_false_r.
  - replace (Z.land _ _) with 0; [done|].
    apply Z.bits_inj'. intros i Hi. rewrite Z.land_spec, Z.bits_0.
    destruct (decide (i = 7 - q mod 8)) as [->|Hne].
    + by rewrite Et.
    + rewrite Z.pow2_bits_false by lia. by rewrite andb_false_r.
Qed.

(** Setting a port sets its bit and no other. *)
Lemma set_bitmap_spec bm p :
  bitmap_ok bm -> exists bm', set_bitmap p bm = Ok bm' /\ bitmap_ok bm' /\
    forall q, 0 <= q < 65536 -> has_bit bm' q = (q =? htons (u16 p)) || has_bit bm q.
Proof.
  intros Hok. pose proof (wrapu_range 16 p ltac:(lia)) as Hw. change (2 ^ 16) with 65536 in Hw.
  pose proof (htons_range _ Hw) as Hh. unfold set_bitmap. set (h := htons (u16 p)) in *.
  destruct (port_byte bm h Hok Hh) as (Hr & Hg & Hb).
  pose proof (Z.mod_pos_bound h 8 ltac:(lia)) as Hm.
  rewrite Hg. cbn [res_bind]. rewrite magic_bits_spec by lia. cbn [res_bind].
  rewrite array_set_lt by (rewrite (bm_length bm Hok); lia).
  set (b := bm !!! Z.to_nat (h / 8)) in *.
  assert (u8 (Z.lor b (2 ^ (7 - h mod 8))) = Z.lor b (2 ^ (7 - h mod 8)) /\
          0 <= Z.lor b (2 ^ (7 - h mod 8)) < 256) as [Hu Hlr].
  { assert (0 <= Z.lor b (2 ^ (7 - h mod 8)) < 2 ^ 8) as Hlt.
    { split; [apply Z.lor_nonneg; split; [lia|apply Z.pow_nonneg; lia]|].
      destruct (decide (Z.lor b (2 ^ (7 - h mod 8)) = 0)) as [->|]; [lia|].
      apply Z.log2_lt_pow2; [pose proof (Z.lor_nonneg b (2 ^ (7 - h mod 8)));
        pose proof (Z.pow_nonneg 2 (7 - h mod 8)); lia|].
      rewrite Z.log2_lor, Z.log2_pow2 by (try apply Z.pow_nonneg; lia).
      assert (Z.log2 b < 8); [|lia].
      destruct (decide (b = 0)) as [->|]; [cbn; lia|]. apply Z.log2_lt_pow2; lia. }
    split; [by apply wrapu_small|done]. }
  rewrite Hu. eexists. split; [done|]. split.
  - split; [rewrite length_insert; apply (bm_length bm Hok)|].
    apply Forall_insert; [apply (bm_bytes bm Hok)|done].
  - intros q Hq. unfold has_bit. destruct (decide (q / 8 = h / 8)) as [E|E].
    + rewrite E, list_lookup_total_insert_eq by (rewrite (bm_length bm Hok); lia).
      rewrite Z.lor_spec. fold b. rewrite orb_comm. f_equal.
      pose proof (Z.div_mod q 8 ltac:(lia)). pose proof (Z.div_mod h 8 ltac:(lia)).
      pose proof (Z.mod_pos_bound q 8 ltac:(lia)).
      rewrite Z.pow2_bits_eqb by lia. apply eq_true_iff_eq. lia.
    + rewrite list_lookup_total_insert_ne by (pose proof (Z.div_pos q 8); lia).
      destruct (Z.eqb_spec q h) as [->|]; done.
Qed.

Lemma empty_bitmap_ok : bitmap_ok (replicate (Z.to_nat 8192) 0).
Proof. split; [apply length_replicate|]. apply Forall_replicate. lia. Qed.

Lemma empty_bitmap_bit q :
  0 <= q < 65536 -> has_bit (replicate (Z.to_nat 8192) 0) q = false.
Proof.
  intros Hq. unfold has_bit. rewrite lookup_total_replicate_2; [apply Z.bits_0|].
  assert (q / 8 < 8192) by (apply Z.div_lt_upper_bound; lia). lia.
Qed.

(** ** Port lists *)

(** One item of a port list as it is written in the configuration. *)
Inductive port_item :=
| OnePort (p : Z)
| PortRange (lo hi : Z).

Definition item_str (it : port_item) : cstr :=
  match it with
  | OnePort p => show_dec p
  | PortRange lo hi => show_dec lo ++ [45] ++ show_dec hi
  end.

(** The items, separated by commas. *)
Fixpoint list_str (items : list port_item) : cstr :=
  match items with
  | [] => []
  | [it] => item_str it
  | it :: rest => item_str it ++ [44] ++ list_str rest
  end.

Definition item_ok (it : port_item) : bool :=
  match it with
  | OnePort p => (0 <=? p) && (p <? 65536)
  | PortRange lo hi => (0 <=? lo) && (lo <=? hi) && (hi <? 65536)
  end.

Definition item_has (it : port_item) (p : Z) : bool :=
  match it with
  | OnePort q => p =? q
  | PortRange lo hi => (lo <=? p) && (p <=? hi)
  end.

Definition listed (items : list port_item) (p : Z) : bool := existsb (fun it => item_has it p) items.

(** [bm'] is [bm] with the ports for which [f] holds. *)
Definition adds (bm bm' : bitmap) (f : Z -> bool) : Prop :=
  bitmap_ok bm' /\
  forall p, 0 <= p < 65536 -> has_bit bm' (htons p) = f p || has_bit bm (htons p).

Lemma adds_trans bm bm1 bm2 f g :
  adds bm bm1 f -> adds bm1 bm2 g -> adds bm bm2 (fun p => f p || g p).
Proof.
  intros [_ H1] [Hok H2]. split; [done|]. intros p Hp. rewrite H2, H1 by done.
  by destruct (f p), (g p).
Qed.

Lemma adds_ext bm bm' f g : (forall p, f p = g p) -> adds bm bm' f -> adds bm bm' g.
Proof. intros E [Hok H]. split; [done|]. intros p Hp. by rewrite H, E. Qed.

Lemma set_bitmap_adds bm q :
  bitmap_ok bm -> 0 <= q < 65536 ->
  exists bm', set_bitmap q bm = Ok bm' /\ adds bm bm' (fun p => p =? q).
Proof.
  intros Hok Hq. destruct (set_bitmap_spec bm q Hok) as (bm' & -> & Hok' & Hb).
  exists bm'. split; [done|]. split; [done|]. intros p Hp.
  rewrite Hb by by apply htons_range. f_equal. rewrite (wrapu_small 16 q) by done.
  destruct (Z.eqb_spec p q) as [->|Hne]; [apply Z.eqb_refl|].
  destruct (Z.eqb_spec (htons p) (htons q)) as [E|]; [|done]. by apply htons_inj in E.
Qed.

Lemma set_range_adds fuel lo hi bm :
  bitmap_ok bm -> 0 <= lo < 65537 -> hi < 65536 -> (Z.to_nat (hi - lo + 1) < fuel)%nat ->
  exists bm', set_range fuel lo hi bm = Ok bm' /\ adds bm bm' (fun p => (lo <=? p) && (p <=? hi)).
Proof.
  revert lo bm. induction fuel as [|fuel IH]; intros lo bm Hok Hlo Hhi Hf; [lia|].
  cbn [set_range]. destruct (Z.leb_spec lo hi).
  - destruct (set_bitmap_adds bm lo Hok ltac:(lia)) as (bm1 & -> & H1). cbn [res_bind].
    rewrite (wraps_small 32) by lia.
    destruct (IH (lo + 1) bm1 (proj1 H1)) as (bm2 & -> & H2); [lia..|].
    exists bm2. split; [done|]. eapply adds_ext; [|by eapply adds_trans].
    intros p. cbn. lia.
  - exists bm. split; [done|]. split; [done|]. intros p Hp.
    destruct (Z.leb_spec lo p), (Z.leb_spec p hi); try done. lia.
Qed.

(** No digit is a separator. *)
Lemma strchr_digits s c rest :
  Forall (fun x => isdigit x = true) s -> isdigit c = false ->
  strchr (s ++ rest) c = (fun i => (length s + i)%nat) <$> strchr rest c.
Proof.
  intros Hs Hc. induction Hs as [|x s Hx _ IH]; cbn.
  - by destruct (strchr rest c).
  - destruct (Z.eqb_spec x c) as [->|]; [congruence|]. rewrite IH.
    by destruct (strchr rest c).
Qed.

Lemma drop_S_app {A} (l : list A) x rest : drop (S (length l)) (l ++ x :: rest) = rest.
Proof. by induction l. Qed.

(** The first item is read, and the loop goes on after its comma. *)
Lemma first_item it rest :
  item_ok it = true -> (rest = [] \/ exists r, rest = 44 :: r) ->
  let head := item_str it ++ rest in
  strchr head 44 = (match rest with [] => None | _ => Some (length (item_str it)) end) /\
  (match it with
   | OnePort p =>
       atoi head = p /\
       (match strchr head 45, strchr head 44 with
        | Some j, Some i => Z.of_nat j <? Z.of_nat i - 1
        | Some _, None => true
        | None, _ => false
        end) = false
   | PortRange lo hi =>
       atoi head = lo /\ strchr head 45 = Some (length (show_dec lo)) /\
       atoi (drop (S (length (show_dec lo))) head) = hi /\
       (match strchr head 44 with
        | Some i => Z.of_nat (length (show_dec lo)) <? Z.of_nat i - 1
        | None => true
        end) = true
   end).
Proof.
  intros Hok Hrest head.
  assert (no_digit rest) as Hnd by (destruct Hrest as [->|[r ->]]; done).
  destruct it as [p|lo hi]; cbn in Hok; unfold head; cbn [item_str].
  - assert (0 <= p < 65536) as Hp by lia.
    pose proof (show_dec_digits p ltac:(lia)) as Hd.
    rewrite !strchr_digits by done. rewrite atoi_show by (done || lia).
    destruct Hrest as [->|[r ->]]; [done|]. cbn [strchr]. change (44 =? 44) with true.
    change (44 =? 45) with false. cbv iota. cbn [fmap option_fmap option_map].
    rewrite Nat.add_0_r. split; [done|].
    split; [done|]. destruct (strchr r 45) as [j|]; [|done]. cbn [fmap option_fmap option_map]. apply Z.ltb_ge. lia.
  - assert (0 <= lo /\ lo <= hi /\ hi < 65536) as (Hl & Hlh & Hh) by lia.
    pose proof (show_dec_digits lo ltac:(lia)) as Hd.
    pose proof (show_dec_digits hi ltac:(lia)) as Hd'.
    rewrite <- !app_assoc. cbn [app].
    rewrite !(strchr_digits (show_dec lo)) by done. cbn [strchr].
    rewrite drop_S_app, !atoi_show by (done || lia).
    change (45 =? 44) with false. change (45 =? 45) with true. cbv iota.
    cbn [fmap option_fmap option_map]. rewrite Nat.add_0_r. rewrite (strchr_digits (show_dec hi)) by done.
    pose proof (show_dec_nonempty hi) as Hne. rewrite length_app. cbn [length].
    assert (0 < length (show_dec hi))%nat by (destruct (show_dec hi); cbn; [done|lia]).
    destruct Hrest as [->|[r ->]]; cbn [strchr]; [done|].
    change (44 =? 44) with true. cbv iota. cbn [fmap option_fmap option_map].
    rewrite Nat.add_0_r. repeat split; try done. apply Z.ltb_lt. lia.
Qed.

Definition item_fuel : nat := Z.to_nat 65538.

Lemma item_adds it rest fuel bm n :
  item_ok it = true -> (rest = [] \/ exists r, rest = 44 :: r) -> (item_fuel <= fuel)%nat ->
  bitmap_ok bm ->
  exists bm', adds bm bm' (item_has it) /\
    set_items (S n) fuel (item_str it ++ rest) bm =
    match rest with [] => Ok bm' | _ :: r => set_items n fuel r bm' end.
Proof.
  intros Hok Hrest Hfuel Hbm. pose proof (first_item it rest Hok Hrest) as [H44 Hit].
  unfold item_fuel in Hfuel. cbn [set_items].
  destruct it as [p|lo hi]; cbn in Hok.
  - destruct Hit as [Hat Hr]. rewrite Hr, Hat.
    destruct (set_bitmap_adds bm p Hbm ltac:(lia)) as (bm' & -> & Ha). exists bm'.
    split; [done|]. cbn [res_bind]. rewrite H44.
    destruct Hrest as [->|[r ->]]; [done|]. by rewrite drop_S_app.
  - destruct Hit as (Hat & H45 & Hat2 & Hr). rewrite H45. cbn [from_option id].
    assert (match strchr (item_str (PortRange lo hi) ++ rest) 44 with
            | Some i => Z.of_nat (length (show_dec lo)) <? Z.of_nat i - 1
            | None => true end = true) as -> by exact Hr.
    rewrite Hat, Hat2.
    destruct (set_range_adds fuel lo hi bm Hbm) as (bm' & -> & Ha); [lia..|]. exists bm'.
    split; [done|]. cbn [res_bind]. rewrite H44.
    destruct Hrest as [->|[r ->]]; [done|]. by rewrite drop_S_app.
Qed.

Lemma set_items_adds items n fuel bm :
  items <> [] -> Forall (fun it => item_ok it = true) items -> (length items <= n)%nat ->
  (item_fuel <= fuel)%nat -> bitmap_ok bm ->
  exists bm', set_items n fuel (list_str items) bm = Ok bm' /\ adds bm bm' (listed items).
Proof.
  intros Hne Hok. revert n bm. induction Hok as [|it items Hit Hall IH]; [done|].
  intros n bm Hn Hf Hbm. destruct n as [|n]; [cbn in Hn; lia|].
  destruct items as [|it2 items].
  - destruct (item_adds it [] fuel bm n Hit ltac:(by left) Hf Hbm) as (bm' & Ha & Hs).
    rewrite app_nil_r in Hs. exists bm'. split; [done|].
    eapply adds_ext; [|done]. intros p. cbn. by rewrite orb_false_r.
  - destruct (item_adds it (44 :: list_str (it2 :: items)) fuel bm n Hit ltac:(right; by eexists) Hf Hbm)
      as (bm1 & Ha & Hs).
    destruct (IH ltac:(done) n bm1 ltac:(cbn in *; lia) Hf (proj1 Ha)) as (bm2 & Hs2 & Ha2).
    exists bm2. split; [|by eapply adds_trans]. cbn [list_str app]. cbn [list_str app] in Hs.
    by rewrite Hs.
Qed.

Lemma list_str_length items : (length items <= S (length (list_str items)))%nat.
Proof.
  induction items as [|it [|it2 items] IH]; [cbn; lia..|].
  change (list_str (it :: it2 :: items)) with (item_str it ++ 44 :: list_str (it2 :: items)).
  rewrite length_app. cbn [length] in *. lia.
Qed.

Lemma kni_set_bitmap_adds items fuel :
  items <> [] -> Forall (fun it => item_ok it = true) items -> (item_fuel <= fuel)%nat ->
  exists bm, kni_set_bitmap fuel (Some (list_str items)) (replicate (Z.to_nat 8192) 0) = Ok bm /\
    bitmap_ok bm /\ forall p, 0 <= p < 65536 -> has_bit bm (htons p) = listed items p.
Proof.
  intros Hne Hok Hf.
  destruct (set_items_adds items (S (length (list_str items))) fuel (replicate (Z.to_nat 8192) 0)
    Hne Hok (list_str_length items) Hf empty_bitmap_ok) as (bm & Hs & Hb & Ha).
  exists bm. split; [done|]. split; [done|]. intros p Hp. rewrite Ha by done.
  rewrite empty_bitmap_bit by by apply htons_range. by rewrite orb_false_r.
Qed.

(** ** The header walk *)

(** [len] bytes of packet, in memory that goes on for two bytes more: the
    walk over the IPv6 extension headers looks at two bytes of a header
    without asking for the length that is left. *)
Record pkt_ok (data : list Z) (len : Z) : Prop := {
  pkt_len : 0 <= len < 65536;
  pkt_mem : len + 2 <= Z.of_nat (length data);
  pkt_bytes : Forall (fun b => 0 <= b < 256) data
}.

Lemma byte_at_ok data len i :
  pkt_ok data len -> 0 <= i < len + 2 -> exists b, byte_at data i = Ok b /\ 0 <= b < 256.
Proof.
  intros [Hl Hm Hb] Hi. destruct (array_get_lt data i ltac:(lia)) as (b & Hg & Hlk).
  exists b. split; [done|]. rewrite Forall_lookup in Hb. by eapply Hb.
Qed.

Lemma pkt_advance data len n :
  pkt_ok data len -> 0 <= n <= len -> pkt_ok (advance data n) (u16 (len - n)).
Proof.
  intros [Hl Hm Hb] Hn. rewrite (wrapu_small 16) by lia. unfold advance. split.
  - lia.
  - rewrite length_drop. lia.
  - by apply Forall_drop.
Qed.

Lemma ipv6_hdr_len_ok fuel proto data len :
  pkt_ok data len -> len < Z.of_nat fuel ->
  exists h p, get_ipv6_hdr_len fuel proto data len = Ok (h, p) /\ 0 <= h <= len.
Proof.
  revert proto data len. induction fuel as [|fuel IH]; intros proto data len Hp Hf.
  { pose proof (pkt_len _ _ Hp). lia. }
  cbn [get_ipv6_hdr_len]. pose proof (pkt_len _ _ Hp) as Hl.
  destruct (byte_at_ok data len 0 Hp ltac:(lia)) as (b0 & Hb0 & _).
  destruct (byte_at_ok data len 1 Hp ltac:(lia)) as (b1 & Hb1 & Hr1).
  rewrite Hb0, Hb1. cbn [res_bind].
  assert (forall e, 1 <= e -> exists h p,
    (if len <=? e then Ok (len, proto) else
     let* (rest, proto'') := get_ipv6_hdr_len fuel b0 (advance data e) (u16 (len - e)) in
     Ok (e + rest, proto'')) = Ok (h, p) /\ 0 <= h <= len) as Hstep.
  { intros e He. destruct (Z.leb_spec len e) as [Hle|Hgt]; [eexists _, _; split; [done|lia]|].
    pose proof (pkt_advance data len e Hp ltac:(lia)) as Hp'.
    rewrite (wrapu_small 16) in * by lia.
    destruct (IH b0 _ _ Hp' ltac:(lia)) as (h & p & -> & Hh).
    eexists _, _. split; [done|]. lia. }
  repeat case_match; cbn [res_bind]; try (apply Hstep; lia).
  eexists _, _. split; [done|lia].
Qed.

Lemma byte_land15 (b : Z) : 0 <= Z.shiftl (Z.land b 15) 2 <= 60.
Proof.
  rewrite Z.shiftl_mul_pow2 by lia. change 15 with (2 ^ 4 - 1). rewrite land_mask by lia.
  pose proof (Z.mod_pos_bound b (2 ^ 4)). lia.
Qed.

Lemma ip_header_ok data len ty :
  pkt_ok data len ->
  exists h, ip_header data len ty = Ok h /\
    forall n p, h = Some (n, p) -> 0 <= n <= len /\
      (ty = RTE_ETHER_TYPE_IPV6 -> sizeof_ipv6_hdr <= n) /\
      (ty = RTE_ETHER_TYPE_IPV4 \/ ty = RTE_ETHER_TYPE_IPV6).
Proof.
  intros Hp. pose proof (pkt_len _ _ Hp) as Hl. unfold ip_header.
  unfold sizeof_ipv4_hdr, sizeof_ipv6_hdr.
  destruct (Z.eqb_spec ty RTE_ETHER_TYPE_IPV4) as [->|H4].
  - destruct (Z.ltb_spec len 20); [by eexists|].
    destruct (byte_at_ok data len 0 Hp ltac:(lia)) as (b0 & -> & _). cbn [res_bind].
    pose proof (byte_land15 b0). destruct (Z.ltb_spec len (Z.shiftl (Z.land b0 15) 2)); [by eexists|].
    destruct (byte_at_ok data len 9 Hp ltac:(lia)) as (b9 & -> & _). cbn [res_bind].
    eexists. split; [done|]. intros n p [= <- <-]. split; [lia|]. split; [done|by left].
  - destruct (Z.eqb_spec ty RTE_ETHER_TYPE_IPV6) as [->|H6]; [|by eexists].
    destruct (Z.ltb_spec len 40); [by eexists|].
    destruct (byte_at_ok data len 6 Hp ltac:(lia)) as (b6 & -> & _). cbn [res_bind].
    pose proof (pkt_advance data len 40 Hp ltac:(lia)) as Hp'.
    rewrite (wrapu_small 16) in * by lia.
    destruct (ipv6_hdr_len_ok (S (Z.to_nat len)) b6 _ _ Hp' ltac:(lia)) as (e & p & -> & He).
    cbn [res_bind]. destruct (Z.ltb_spec len (40 + e)); [lia|].
    eexists. split; [done|]. intros n p' [= <- <-]. split; [lia|]. split; [lia|by right].
Qed.

(** One level of tunnelling: the packet the filter goes on with. *)
Definition tunnel (a b : list Z * Z * Z) : Prop :=
  let '(data, len, ty) := a in
  exists n p, ip_header data len ty = Ok (Some (n, p)) /\
    ((p = IPPROTO_IPIP /\ b = (advance data n, u16 (len - n), RTE_ETHER_TYPE_IPV4)) \/
     (p = IPPROTO_IPV6 /\ b = (advance data n, u16 (len - n), RTE_ETHER_TYPE_IPV6))).

(** An IPv4 header of length zero that says it carries IPv4. *)
Definition ihl_zero (data : list Z) (len : Z) : Prop :=
  ip_header data len RTE_ETHER_TYPE_IPV4 = Ok (Some (0, IPPROTO_IPIP)).

Lemma filter_ihl_zero e data len fuel :
  ihl_zero data len -> 0 <= len < 65536 ->
  protocol_filter_ip fuel e data len RTE_ETHER_TYPE_IPV4 = NoFuel.
Proof.
  intros Hz Hl. induction fuel as [|fuel IH]; [done|]. cbn [protocol_filter_ip].
  rewrite Hz. cbn [res_bind]. change (advance data 0) with data.
  rewrite (wrapu_small 16) by lia. rewrite Z.sub_0_r. exact IH.
Qed.

Record env_ok (e : filter_env) : Prop := {
  env_tcp : bitmap_ok (tcp_port_bitmap e);
  env_udp : bitmap_ok (udp_port_bitmap e)
}.

Lemma raw16_ok data len i :
  pkt_ok data len -> 0 <= i < len -> exists x, raw16_at data i = Ok x /\ 0 <= x < 65536.
Proof.
  intros Hp Hi. unfold raw16_at.
  destruct (byte_at_ok data len i Hp ltac:(lia)) as (a & -> & Ha).
  destruct (byte_at_ok data len (i + 1) Hp ltac:(lia)) as (b & -> & Hb).
  eexists. split; [done|]. lia.
Qed.

Lemma l4_ok bm port : bitmap_ok bm -> 0 <= port < 65536 -> exists f, protocol_filter_l4 port bm = Ok f.
Proof. intros. unfold protocol_filter_l4. rewrite get_bitmap_spec by done. by eexists. Qed.

(** Below the IP headers the filter always answers. *)
Lemma leaf_ok e data len :
  env_ok e -> pkt_ok data len ->
  (exists f, protocol_filter_tcp (tcp_port_bitmap e) data len = Ok f) /\
  (exists f, protocol_filter_udp (udp_port_bitmap e) data len = Ok f) /\
  (exists f, protocol_filter_icmp6 data len = Ok f).
Proof.
  intros [Ht Hu] Hp. unfold protocol_filter_tcp, protocol_filter_udp, protocol_filter_icmp6.
  unfold sizeof_tcp_hdr, sizeof_udp_hdr, sizeof_icmp6_hdr. repeat split.
  - destruct (Z.ltb_spec len 20); [by eexists|].
    destruct (raw16_ok data len 2 Hp ltac:(lia)) as (x & -> & Hx). by apply l4_ok.
  - destruct (Z.ltb_spec len 8); [by eexists|].
    destruct (raw16_ok data len 2 Hp ltac:(lia)) as (x & -> & Hx). by apply l4_ok.
  - destruct (Z.ltb_spec len 8); [by eexists|].
    destruct (byte_at_ok data len 0 Hp ltac:(lia)) as (x & -> & _). by eexists.
Qed.

(** The length left, and whether the next header is IPv4. *)
Definition walk_measure (len ty : Z) : nat :=
  (2 * Z.to_nat len + if decide (ty = RTE_ETHER_TYPE_IPV4) then 1 else 0)%nat.

(** The walk meets the header that makes it start over. *)
Definition loops (start : list Z * Z * Z) : Prop :=
  exists data len, rtc tunnel start (data, len, RTE_ETHER_TYPE_IPV4) /\ ihl_zero data len.

(** With [n] steps of fuel there is an answer, or there is none with any. *)
Definition answers_or_loops (start : list Z * Z * Z) (n : nat) (F : nat -> res FilterReturn) : Prop :=
  (exists f, forall fuel, (n <= fuel)%nat -> F fuel = Ok f) \/
  (loops start /\ forall fuel, F fuel = NoFuel).

Lemma answers_S start n F G :
  answers_or_loops start n G -> F O = NoFuel -> (forall fuel, F (S fuel) = G fuel) ->
  answers_or_loops start (S n) F.
Proof.
  intros [[f Hf]|[Hz Hno]] H0 HS; [left; exists f|right; split; [done|]].
  - intros [|fuel] Hle; [lia|]. rewrite HS. apply Hf. lia.
  - intros [|fuel]; [done|]. by rewrite HS.
Qed.

Lemma answers_Ok start n r : (exists f, r = Ok f) -> answers_or_loops start n (fun _ => r).
Proof. intros [f ->]. left. by exists f. Qed.

Lemma tunnel_NoFuel e data len ty data' len' ty' :
  tunnel (data, len, ty) (data', len', ty') ->
  (forall fuel, protocol_filter_ip fuel e data' len' ty' = NoFuel) ->
  forall fuel, protocol_filter_ip fuel e data len ty = NoFuel.
Proof.
  intros (n & p & Hh & Hb) Hno [|fuel]; [done|]. cbn [protocol_filter_ip]. rewrite Hh.
  cbn [res_bind]. destruct Hb as [[-> [= -> -> ->]]|[-> [= -> -> ->]]]; apply Hno.
Qed.

Lemma loops_NoFuel e data len ty fuel :
  0 <= len < 65536 -> loops (data, len, ty) -> protocol_filter_ip fuel e data len ty = NoFuel.
Proof.
  intros Hl (d & l & Hrtc & Hz). revert fuel.
  remember (data, len, ty) as a eqn:Ea. remember (d, l, RTE_ETHER_TYPE_IPV4) as b eqn:Eb.
  revert data len ty Hl Ea. induction Hrtc as [x|x y z Hxy Hyz IH]; intros data len ty Hl Ea fuel.
  - simplify_eq. by apply filter_ihl_zero.
  - subst x. destruct y as [[data' len'] ty'].
    assert (0 <= len' < 65536) as Hl'.
    { destruct Hxy as (n & p & _ & [[_ [= -> -> ->]]|[_ [= -> -> ->]]]); apply (wrapu_range 16); lia. }
    eapply tunnel_NoFuel; [done|]. intros fuel'. by apply (IH Eb data' len' ty').
Qed.

(** A level of tunnelling shortens the packet, goes from IPv4 to IPv6, or
    loops. *)
Lemma tunnel_progress data len ty m p ty' :
  ip_header data len ty = Ok (Some (m, p)) -> pkt_ok data len ->
  (ty' = RTE_ETHER_TYPE_IPV4 /\ p = IPPROTO_IPIP \/ ty' = RTE_ETHER_TYPE_IPV6 /\ p = IPPROTO_IPV6) ->
  ihl_zero data len /\ ty = RTE_ETHER_TYPE_IPV4 /\ ty' = RTE_ETHER_TYPE_IPV4 /\ m = 0 \/
  (walk_measure (u16 (len - m)) ty' < walk_measure len ty)%nat.
Proof.
  intros Hh Hp Hty'. destruct (ip_header_ok data len ty Hp) as (h & Hh' & Hr).
  rewrite Hh in Hh'. injection Hh' as <-. destruct (Hr m p eq_refl) as (Hm & H6 & Hty).
  pose proof (pkt_len _ _ Hp) as Hl. rewrite (wrapu_small 16) by lia. unfold walk_measure.
  unfold sizeof_ipv6_hdr, RTE_ETHER_TYPE_IPV4, RTE_ETHER_TYPE_IPV6 in *.
  destruct Hty as [->| ->]; [|right; specialize (H6 eq_refl); repeat case_decide; lia].
  destruct Hty' as [[-> ->]|[-> ->]]; [|right; repeat case_decide; lia].
  destruct (decide (m = 0)) as [->|]; [left; done|right; repeat case_decide; lia].
Qed.

Lemma filter_dichotomy n e data len ty :
  (walk_measure len ty < n)%nat -> env_ok e -> pkt_ok data len ->
  answers_or_loops (data, len, ty) n (fun fuel => protocol_filter_ip fuel e data len ty).
Proof.
  revert data len ty. induction n as [|n IH]; intros data len ty Hn He Hp; [lia|].
  destruct (ip_header_ok data len ty Hp) as (h & Hh & Hr). destruct h as [[m p]|].
  2: { eapply answers_S; [|done|]; [by apply (answers_Ok _ _ (Ok FILTER_UNKNOWN)); eexists|].
       intros fuel. cbn [protocol_filter_ip]. by rewrite Hh. }
  destruct (Hr m p eq_refl) as (Hm & _ & _). pose proof (pkt_len _ _ Hp) as Hl.
  pose proof (pkt_advance data len m Hp Hm) as Hp'.
  destruct (leaf_ok e _ _ He Hp') as (Ht & Hu & Hi).
  assert (forall ty', (ty' = RTE_ETHER_TYPE_IPV4 /\ p = IPPROTO_IPIP \/
                       ty' = RTE_ETHER_TYPE_IPV6 /\ p = IPPROTO_IPV6) ->
    answers_or_loops (data, len, ty) n
      (fun fuel => protocol_filter_ip fuel e (advance data m) (u16 (len - m)) ty')) as Hrec.
  { intros ty' Hty'. destruct (tunnel_progress _ _ _ _ _ ty' Hh Hp Hty') as [(Hz & -> & -> & ->)|Hlt].
    - right. split; [exists data, len; split; [apply rtc_refl|done]|].
      intros fuel. rewrite Z.sub_0_r, (wrapu_small 16) by lia. by apply filter_ihl_zero.
    - destruct (IH (advance data m) (u16 (len - m)) ty' ltac:(lia) He Hp') as [Hok|[(d' & l' & Hrtc & Hz) Hno]];
        [by left|right].
      split; [|done]. exists d', l'. split; [|done]. eapply rtc_l; [|exact Hrtc].
      exists m, p. split; [done|]. destruct Hty' as [[-> ->]|[-> ->]]; [by left|by right]. }
  eapply answers_S; [|done|intros fuel; cbn [protocol_filter_ip]; rewrite Hh; cbn [res_bind]; reflexivity].
  cbv beta.
  destruct (Z.eqb_spec p IPPROTO_OSPFIGP); [apply answers_Ok; by eexists|].
  destruct (Z.eqb_spec p IPPROTO_TCP);
    [destruct (negb (enable_kni e)); apply answers_Ok; [by eexists|done]|].
  destruct (Z.eqb_spec p IPPROTO_UDP);
    [destruct (negb (enable_kni e)); apply answers_Ok; [by eexists|done]|].
  destruct (Z.eqb_spec p IPPROTO_IPIP); [apply Hrec; by left|].
  destruct (Z.eqb_spec p IPPROTO_IPV6); [apply Hrec; by right|].
  destruct (Z.eqb_spec p IPPROTO_ICMPV6); apply answers_Ok; [done|by eexists].
Qed.

(** ** Classification by port *)

(** A packet of [len] bytes whose IP header of [hlen] bytes, without IPv6
    extension headers, carries protocol [proto] towards port [port]. *)
Record to_port (data : list Z) (len ty hlen proto port : Z) : Prop := {
  tp_pkt : pkt_ok data len;
  tp_header :
    (ty = RTE_ETHER_TYPE_IPV4 /\ 20 <= len /\ data !! 9%nat = Some proto /\
     exists b, data !! O = Some b /\ hlen = 4 * (b mod 16)) \/
    (ty = RTE_ETHER_TYPE_IPV6 /\ hlen = 40 /\ data !! 6%nat = Some proto);
  tp_room : hlen + 20 <= len;
  tp_hi : data !! Z.to_nat (hlen + 2) = Some (port / 256);
  tp_lo : data !! Z.to_nat (hlen + 3) = Some (port mod 256);
  tp_port : 0 <= port < 65536
}.

Lemma to_port_header data len ty hlen proto port :
  to_port data len ty hlen proto port -> (proto = IPPROTO_TCP \/ proto = IPPROTO_UDP) ->
  0 <= hlen /\ ip_header data len ty = Ok (Some (hlen, proto)).
Proof.
  intros [Hp Hh Hroom _ _ _] Hproto. pose proof (pkt_len _ _ Hp) as Hl. unfold ip_header.
  unfold sizeof_ipv4_hdr, sizeof_ipv6_hdr.
  destruct Hh as [(-> & H20 & H9 & b & H0 & ->)|(-> & -> & H6)].
  - split; [pose proof (Z.mod_pos_bound b 16); lia|]. rewrite Z.eqb_refl.
    destruct (Z.ltb_spec len 20); [lia|].
    assert (byte_at data 0 = Ok b) as -> by by apply array_get_Ok. cbn [res_bind].
    assert (byte_at data 9 = Ok proto) as -> by by apply array_get_Ok. cbn [res_bind].
    change 15 with (2 ^ 4 - 1). rewrite land_mask, Z.shiftl_mul_pow2 by lia.
    change (2 ^ 4) with 16. change (2 ^ 2) with 4.
    destruct (Z.ltb_spec len (b mod 16 * 4)); [lia|]. do 3 f_equal. lia.
  - split; [lia|]. change (RTE_ETHER_TYPE_IPV6 =? RTE_ETHER_TYPE_IPV4) with false.
    rewrite Z.eqb_refl. destruct (Z.ltb_spec len 40); [lia|].
    assert (byte_at data 6 = Ok proto) as -> by by apply array_get_Ok. cbn [res_bind].
    assert (forall k d l, get_ipv6_hdr_len (S k) proto d l = Ok (0, proto)) as ->
      by (intros; by destruct Hproto as [->| ->]).
    cbn [res_bind]. destruct (Z.ltb_spec len (40 + 0)); [lia|done].
Qed.

Lemma raw_port data len ty hlen proto port :
  to_port data len ty hlen proto port -> 0 <= hlen ->
  raw16_at (advance data hlen) 2 = Ok (htons port).
Proof.
  intros [_ _ _ Hhi Hlo Hport] Hh. unfold raw16_at, byte_at, advance.
  assert (array_get (drop (Z.to_nat hlen) data) 2 = Ok (port / 256)) as ->.
  { apply array_get_Ok. split; [lia|]. rewrite lookup_drop, <- Hhi. f_equal. lia. }
  cbn [res_bind]. change (2 + 1) with 3.
  assert (array_get (drop (Z.to_nat hlen) data) 3 = Ok (port mod 256)) as ->.
  { apply array_get_Ok. split; [lia|]. rewrite lookup_drop, <- Hlo. f_equal. lia. }
  cbn [res_bind]. rewrite htons_spec by done. f_equal. lia.
Qed.

Lemma filter_port e data len ty hlen proto port n :
  env_ok e -> enable_kni e = true -> to_port data len ty hlen proto port ->
  (proto = IPPROTO_TCP \/ proto = IPPROTO_UDP) ->
  protocol_filter_ip (S n) e data len ty =
  Ok (if has_bit (if proto =? IPPROTO_TCP then tcp_port_bitmap e else udp_port_bitmap e)
           (htons port) then FILTER_KNI else FILTER_UNKNOWN).
Proof.
  intros [Ht Hu] Hk Htp Hproto. destruct (to_port_header _ _ _ _ _ _ Htp Hproto) as [Hh Hhdr].
  pose proof (raw_port _ _ _ _ _ _ Htp Hh) as Hraw. pose proof (tp_room _ _ _ _ _ _ Htp) as Hroom.
  pose proof (pkt_len _ _ (tp_pkt _ _ _ _ _ _ Htp)) as Hl.
  pose proof (htons_range _ (tp_port _ _ _ _ _ _ Htp)) as Hr.
  cbn [protocol_filter_ip]. rewrite Hhdr. cbn [res_bind]. rewrite Hk, (wrapu_small 16) by lia.
  unfold protocol_filter_tcp, protocol_filter_udp, protocol_filter_l4, sizeof_tcp_hdr, sizeof_udp_hdr.
  destruct Hproto as [->| ->]; cbn [Z.eqb negb].
  - change (IPPROTO_TCP =? IPPROTO_OSPFIGP) with false. rewrite Z.eqb_refl. cbv iota.
    destruct (Z.ltb_spec (len - hlen) 20); [lia|]. rewrite Hraw. cbn [res_bind].
    rewrite get_bitmap_spec by done. cbn [res_bind]. by destruct has_bit.
  - change (IPPROTO_UDP =? IPPROTO_OSPFIGP) with false.
    change (IPPROTO_UDP =? IPPROTO_TCP) with false. rewrite Z.eqb_refl. cbv iota.
    destruct (Z.ltb_spec (len - hlen) 8); [lia|]. rewrite Hraw. cbn [res_bind].
    rewrite get_bitmap_spec by done. cbn [res_bind]. by destruct has_bit.
Qed.

(** ** Packets in and out *)

Section Io.
Context {R : Type} `{Fifo R} {Nic : Type}.
Variable tx : Nic -> Z -> Z -> list Z -> Nic * Z.
Variable rx : Nic -> Z -> Z -> Z -> Nic * list Z.

(** What [rte_ethdev.h] says of the burst functions: the number of packets
    a port takes or delivers is at most the number asked for. *)
Hypothesis tx_bound : forall d p q l, 0 <= (tx d p q l).2 <= Z.of_nat (length l).
Hypothesis rx_bound : forall d p q n, 0 <= n -> Z.of_nat (length (rx d p q n).2) <= n.

(** The packets the ports have delivered so far, as a history that grows with
    each call of the receive function and with no other. *)
Variable rx_log : Nic -> list Z.
Hypothesis rx_logged : forall d p q n, rx_log (rx d p q n).1 = rx_log d ++ (rx d p q n).2.
Hypothesis tx_logged : forall d p q l, rx_log (tx d p q l).1 = rx_log d.

Implicit Type s : kni_state (R := R) (Nic := Nic).

(** The mbufs of a port's two rings, and those that left the path. *)
Definition ring_items (m : gmap Z R) (port : Z) : list Z :=
  match m !! port with Some r => fifo_items r | None => [] end.
Definition mbufs s (port : Z) : list Z :=
  ring_items (kni_rp s) port ++ ring_items (kni_inject_rp s) port ++
  (snd <$> sent s) ++ freed s.

Record stat_ok (st : kni_interface_stats) : Prop := {
  so_rxp : 0 <= rx_packets st < 2 ^ 64;
  so_rxd : 0 <= rx_dropped st < 2 ^ 64;
  so_txp : 0 <= tx_packets st < 2 ^ 64;
  so_txd : 0 <= tx_dropped st < 2 ^ 64
}.

Record port_ok s (port : Z) : Prop := {
  po_rp : exists r, kni_rp s !! port = Some r /\ fifo_ok r;
  po_inject : exists r, kni_inject_rp s !! port = Some r /\ fifo_ok r;
  po_stat : exists st, kni_stat s !! port = Some st /\ stat_ok st
}.

Lemma free_from_spec k s pkts (i : nat) :
  (i + k <= length pkts)%nat ->
  free_from k s pkts (Z.of_nat i) = Ok (with_freed s (freed s ++ take k (drop i pkts))).
Proof.
  revert s i. induction k as [|k IH]; intros s i Hi.
  - cbn. rewrite app_nil_r. by destruct s.
  - cbn [free_from]. destruct (array_get_lt pkts (Z.of_nat i)) as (m & -> & Hm); [lia|].
    cbn [res_bind]. replace (Z.of_nat i + 1) with (Z.of_nat (S i)) by lia.
    rewrite IH by lia. rewrite Nat2Z.id in Hm. rewrite (drop_S _ _ _ Hm).
    cbn. by rewrite <- app_assoc.
Qed.

Lemma take_split {A} (l : list A) (k n : nat) :
  (k <= n)%nat -> take n l = take k l ++ take (n - k) (drop k l).
Proof. intros Hk. rewrite take_take_drop. f_equal. lia. Qed.

(** The counters of one direction went up by the packets passed on and by
    the packets dropped; those of the other did not change. *)
Definition counted_tx (st st' : kni_interface_stats) (pk dr : Z) : Prop :=
  st' = mk_stats (port_id st) (rx_packets st) (rx_dropped st)
          (u64 (tx_packets st + pk)) (u64 (tx_dropped st + dr)).
Definition counted_rx (st st' : kni_interface_stats) (pk dr : Z) : Prop :=
  st' = mk_stats (port_id st) (u64 (rx_packets st + pk)) (u64 (rx_dropped st + dr))
          (tx_packets st) (tx_dropped st).

Lemma counted_tx_ok st st' pk dr : stat_ok st -> counted_tx st st' pk dr -> stat_ok st'.
Proof. intros [] ->. split; cbn; try done; apply wrapu_range; lia. Qed.
Lemma counted_rx_ok st st' pk dr : stat_ok st -> counted_rx st st' pk dr -> stat_ok st'.
Proof. intros [] ->. split; cbn; try done; apply wrapu_range; lia. Qed.

(** The table's first [d] packets were passed on, the rest is freed. *)
Lemma tx_rest_spec s port pkts n d st :
  kni_stat s !! port = Some st -> stat_ok st -> 0 <= d <= n -> n <= Z.of_nat (length pkts) ->
  exists st', counted_tx st st' d (n - d) /\
    tx_rest s port pkts n d =
    Ok (with_stat (with_freed s (freed s ++ take (Z.to_nat (n - d)) (drop (Z.to_nat d) pkts)))
          (<[port := st']> (kni_stat s))).
Proof.
  intros Hst [H1 H2 H3 H4] Hd Hn. unfold tx_rest. eexists. split; [reflexivity|].
  destruct (Z.ltb_spec d n) as [Hlt|Hge].
  - replace d with (Z.of_nat (Z.to_nat d)) at 2 by lia.
    rewrite free_from_spec by lia. cbn [res_bind]. unfold entry.
    cbn [kni_stat with_freed with_stat]. rewrite Hst. cbn [res_bind kni_stat with_stat].
    rewrite lookup_insert_eq. cbn [res_bind]. rewrite insert_insert_eq.
    unfold add_tx. cbn. do 3 f_equal. rewrite !Z.add_0_r, (wrapu_small 64 (tx_packets st)) by done.
    f_equal. rewrite wrapu_wrapu. done.
  - unfold entry. cbn [res_bind]. rewrite Hst. cbn [res_bind].
    replace (n - d) with 0 by lia. cbn [Z.to_nat]. rewrite take_0, app_nil_r.
    unfold add_tx. destruct s; cbn. done.
Qed.

Lemma rx_rest_spec s port pkts n d st :
  kni_stat s !! port = Some st -> stat_ok st -> 0 <= d <= n -> n <= Z.of_nat (length pkts) ->
  exists st', counted_rx st st' d (n - d) /\
    rx_rest s port pkts n d =
    Ok (with_stat (with_freed s (freed s ++ take (Z.to_nat (n - d)) (drop (Z.to_nat d) pkts)))
          (<[port := st']> (kni_stat s))).
Proof.
  intros Hst [H1 H2 H3 H4] Hd Hn. unfold rx_rest. eexists. split; [reflexivity|].
  destruct (Z.ltb_spec d n) as [Hlt|Hge].
  - replace d with (Z.of_nat (Z.to_nat d)) at 2 by lia.
    rewrite free_from_spec by lia. cbn [res_bind]. unfold entry.
    cbn [kni_stat with_freed with_stat]. rewrite Hst. cbn [res_bind kni_stat with_stat].
    rewrite lookup_insert_eq. cbn [res_bind]. rewrite insert_insert_eq.
    unfold add_rx. cbn. do 3 f_equal. rewrite !Z.add_0_r, (wrapu_small 64 (rx_packets st)) by done.
    f_equal. rewrite wrapu_wrapu. done.
  - unfold entry. cbn [res_bind]. rewrite Hst. cbn [res_bind].
    replace (n - d) with 0 by lia. cbn [Z.to_nat]. rewrite take_0, app_nil_r.
    unfold add_rx. destruct s; cbn. done.
Qed.

(** What a call may do to a port: the mbufs it holds are those it had and
    the new ones [got]; other ports keep their rings and counters. *)
Record moved s s' (port : Z) (got : list Z) : Prop := {
  mv_ok : port_ok s' port;
  mv_mbufs : Permutation (mbufs s' port) (mbufs s port ++ got);
  mv_rp : forall q, q <> port -> kni_rp s' !! q = kni_rp s !! q;
  mv_inject : forall q, q <> port -> kni_inject_rp s' !! q = kni_inject_rp s !! q;
  mv_stat : forall q, q <> port -> kni_stat s' !! q = kni_stat s !! q
}.

(** The packets delivered between two states. *)
Definition delivered s s' (got : list Z) : Prop := rx_log (nic s') = rx_log (nic s) ++ got.

Lemma delivered_none s s' : rx_log (nic s') = rx_log (nic s) -> delivered s s' [].
Proof. intros E. unfold delivered. by rewrite E, app_nil_r. Qed.

Lemma delivered_trans s s1 s2 a b : delivered s s1 a -> delivered s1 s2 b -> delivered s s2 (a ++ b).
Proof. unfold delivered. intros E1 E2. by rewrite E2, E1, app_assoc. Qed.

Lemma tx_burst_spec s port queue pkts n :
  0 <= n <= Z.of_nat (length pkts) ->
  exists d k, 0 <= k <= n /\ d = (tx (nic s) port queue (take (Z.to_nat n) pkts)).1 /\
    eth_tx_burst tx s port queue pkts n =
    (with_nic s d (sent s ++ ((fun m => (port, queue, m)) <$> take (Z.to_nat k) pkts)), k).
Proof.
  intros Hn. unfold eth_tx_burst. pose proof (tx_bound (nic s) port queue (take (Z.to_nat n) pkts)) as Hk.
  destruct (tx (nic s) port queue (take (Z.to_nat n) pkts)) as [d k]. cbn in Hk.
  rewrite length_take in Hk. exists d, k. split; [lia|]. split; [done|]. rewrite take_take, Nat.min_l by lia. done.
Qed.

Lemma snd_fmap_sent (p q : Z) (l : list Z) : snd <$> ((fun m => (p, q, m)) <$> l) = l.
Proof. rewrite <- list_fmap_compose. apply list_fmap_id. Qed.

Lemma ring_items_insert (m : gmap Z R) port r : ring_items (<[port := r]> m) port = fifo_items r.
Proof. unfold ring_items. by rewrite lookup_insert_eq. Qed.

Lemma ring_items_lookup (m : gmap Z R) port r : m !! port = Some r -> ring_items m port = fifo_items r.
Proof. unfold ring_items. by intros ->. Qed.

(** Packets from the ring to the kernel's port. *)
Lemma process_tx_spec c s port pkts count st :
  port_ok s port -> kni_stat s !! port = Some st -> 0 <= count < 65536 ->
  count <= Z.of_nat (length pkts) ->
  exists s' pkts' st' k d dropped, kni_process_tx tx c s port pkts count = Ok (s', pkts') /\
    length pkts' = length pkts /\ moved s s' port [] /\ delivered s s' [] /\
    kni_stat s' !! port = Some st' /\ counted_rx st st' k d /\ 0 <= k /\ 0 <= d /\
    Z.of_nat (length (ring_items (kni_rp s) port)) =
      k + d + Z.of_nat (length (ring_items (kni_rp s') port)) /\
    freed s' = freed s ++ dropped /\ Z.of_nat (length dropped) = d.
Proof.
  intros [(r & Hr & Hrok) (ri & Hri & Hriok) (st0 & Hst & Hsok)] Hst0 Hc Hp.
  rewrite Hst in Hst0. injection Hst0 as ->.
  unfold kni_process_tx, entry. rewrite Hr. cbn [res_bind].
  destruct (fifo_dequeue_burst_spec r pkts count Hrok ltac:(lia))
    as (r' & m & av & -> & Hrok' & _ & Hm & Hit). cbn [res_bind].
  unfold burst_min in Hm. set (its := fifo_items r) in *.
  rewrite (wrapu_small 16) by lia.
  set (pk := take (Z.to_nat m) its ++ drop (Z.to_nat m) pkts).
  assert (length pk = length pkts) as Hlen.
  { unfold pk. rewrite length_app, length_take, length_drop. lia. }
  assert (take (Z.to_nat m) pk = take (Z.to_nat m) its) as Htk.
  { unfold pk. rewrite take_app_length'; [done|]. rewrite length_take. lia. }
  set (sr := with_rp s (<[port := r']> (kni_rp s))).
  match goal with |- context [let '(_, _) := ?e in _] =>
    assert (exists s1 n, e = (s1, n) /\ 0 <= n <= m /\ s1 = with_rate sr (kni_rate_limt s1))
      as (s1 & n & -> & Hn & Hs1) end.
  { destruct (negb _); [|eexists _, _; split; [done|]; split; [lia|]; by destruct s].
    eexists _, _. split; [done|]. split; [case_match; lia|done]. }
  rewrite Hs1. clear Hs1. cbn [kni_stat with_rate with_rp sr]. rewrite Hst. cbn [res_bind].
  match goal with |- context [eth_tx_burst tx ?s2 _ _ _ _] => set (s2' := s2) end.
  destruct (tx_burst_spec s2' (port_id st) 0 pk n ltac:(lia)) as (dv & k & Hk & Ed & ->).
  assert (rx_log dv = rx_log (nic s2')) as Hlog by (rewrite Ed; apply tx_logged).
  set (dropped := take (Z.to_nat (m - k)) (drop (Z.to_nat k) pk)).
  destruct (rx_rest_spec (with_nic s2' dv (sent s2' ++
    ((fun x => (port_id st, 0, x)) <$> take (Z.to_nat k) pk))) port pk m k st)
    as (st' & Hcnt & ->); [done|done|lia|lia|]. cbn [res_bind]. fold dropped.
  assert (ring_items (kni_rp s) port = its) as Hits by by apply ring_items_lookup.
  assert (length dropped = Z.to_nat (m - k)) as Hld.
  { unfold dropped. rewrite length_take, length_drop. lia. }
  eexists _, pk, st', k, (m - k), dropped. split; [done|]. split; [done|].
  cbn. rewrite lookup_insert_eq, ring_items_insert, Hit, Hits.
  split; [|split; [by apply delivered_none|rewrite length_drop; repeat split; try done; lia]].
  split; cbn.
  - split; cbn; [|by exists ri|].
    + exists r'. by rewrite lookup_insert_eq.
    + exists st'. rewrite lookup_insert_eq. split; [done|]. by eapply counted_rx_ok.
  - unfold mbufs. cbn.
    rewrite ring_items_insert, Hit, Hits, fmap_app, snd_fmap_sent.
    pose proof (take_split pk (Z.to_nat k) (Z.to_nat m) ltac:(lia)) as Hsp.
    rewrite Htk in Hsp. rewrite <- (take_drop (Z.to_nat m) its) at 2. rewrite Hsp.
    replace (Z.to_nat m - Z.to_nat k)%nat with (Z.to_nat (m - k)) by lia. fold dropped.
    solve_Permutation.
  - intros q Hq. by rewrite lookup_insert_ne.
  - done.
  - intros q Hq. by rewrite lookup_insert_ne.
Qed.

(** What the calls towards a NIC queue do to the counters and to the pool. *)
Definition passed_tx s s' (port : Z) (st : kni_interface_stats) (n : Z) : Prop :=
  exists st' k d dropped, kni_stat s' !! port = Some st' /\ counted_tx st st' k d /\
    0 <= k /\ 0 <= d /\ k + d = n /\ freed s' = freed s ++ dropped /\ Z.of_nat (length dropped) = d.

(** The packets [got] came in; [k] of them went to the injection ring or to
    the NIC, and the rest is freed. *)
Lemma tx_rest_moved s s2 port pk got k st ri ri' :
  port_ok s port -> kni_stat s !! port = Some st -> kni_inject_rp s !! port = Some ri ->
  take (length got) pk = got -> (length got <= length pk)%nat -> 0 <= k <= Z.of_nat (length got) ->
  kni_rp s2 = kni_rp s -> kni_stat s2 = kni_stat s -> freed s2 = freed s ->
  kni_inject_rp s2 = <[port := ri']> (kni_inject_rp s) -> fifo_ok ri' ->
  Permutation (fifo_items ri' ++ (snd <$> sent s2))
    (fifo_items ri ++ (snd <$> sent s) ++ take (Z.to_nat k) pk) ->
  exists s', tx_rest s2 port pk (Z.of_nat (length got)) k = Ok s' /\ moved s s' port got /\
    nic s' = nic s2 /\ kni_rp s' = kni_rp s /\ kni_inject_rp s' = kni_inject_rp s2 /\
    passed_tx s s' port st (Z.of_nat (length got)).
Proof.
  intros [Hrp _ (st0 & Hst0 & Hsok)] Hst Hri Htk Hlen Hk Erp Est Efr Einj Hok' Hperm.
  rewrite Hst in Hst0. injection Hst0 as <-.
  destruct (tx_rest_spec s2 port pk (Z.of_nat (length got)) k st) as (st' & Hcnt & ->);
    [by rewrite Est|done|lia|lia|].
  set (dropped := take _ _).
  assert (length dropped = Z.to_nat (Z.of_nat (length got) - k)) as Hld.
  { unfold dropped. rewrite length_take, length_drop. lia. }
  eexists. split; [done|]. split; [|split; [done|split; [done|split; [done|]]]].
  - split; cbn; rewrite ?Erp, ?Einj, ?Est; try done.
    + split; cbn; rewrite ?Erp, ?Einj, ?Est; [done| |].
      * exists ri'. by rewrite lookup_insert_eq.
      * exists st'. rewrite lookup_insert_eq. split; [done|]. by eapply counted_tx_ok.
    + unfold mbufs. cbn. rewrite Erp, Einj, Efr, ring_items_insert, (ring_items_lookup _ _ _ Hri).
      pose proof (take_split pk (Z.to_nat k) (length got) ltac:(lia)) as Hsp.
      rewrite Htk in Hsp. replace (length got - Z.to_nat k)%nat
        with (Z.to_nat (Z.of_nat (length got) - k)) in Hsp by lia. fold dropped in Hsp.
      rewrite Hsp. rewrite (app_assoc (fifo_items ri')), Hperm. solve_Permutation.
    + intros q Hq. by rewrite lookup_insert_ne.
    + intros q Hq. by rewrite lookup_insert_ne.
  - exists st', k, (Z.of_nat (length got) - k), dropped. cbn. rewrite Est, Efr, lookup_insert_eq.
    repeat split; try done; lia.
Qed.

Lemma moved_none s s' port st :
  port_ok s port -> kni_stat s !! port = Some st ->
  kni_rp s' = kni_rp s -> kni_inject_rp s' = kni_inject_rp s -> kni_stat s' = kni_stat s ->
  sent s' = sent s -> freed s' = freed s ->
  moved s s' port [] /\ passed_tx s s' port st 0.
Proof.
  intros Hok Hst E1 E2 E3 E4 E5. pose proof Hok as [Hrp Hinj (st0 & Hst0 & Hsok)]. split.
  - split; [split; by rewrite ?E1, ?E2, ?E3; eauto| |intros; congruence..].
    unfold mbufs. by rewrite E1, E2, E4, E5, app_nil_r.
  - rewrite Hst in Hst0. injection Hst0 as <-. exists st, 0, 0, []. rewrite E3, E5.
    destruct Hsok. repeat split; try done; [|by rewrite app_nil_r].
    destruct st as [p a1 a2 a3 a4]. unfold counted_tx. cbn in *.
    by rewrite !Z.add_0_r, !(wrapu_small 64).
Qed.

(** Packets from the kernel's port to the NIC or to the injection ring. *)
Lemma process_rx_spec c s port queue pkts count st :
  port_ok s port -> kni_stat s !! port = Some st -> 0 <= count < 65536 ->
  count <= Z.of_nat (length pkts) ->
  exists s' pkts' got, kni_process_rx tx rx c s port queue pkts count = Ok (s', pkts') /\
    moved s s' port got /\ delivered s s' got /\ kni_rp s' = kni_rp s /\
    passed_tx s s' port st (Z.of_nat (length got)).
Proof.
  intros Hok Hst Hc Hp. pose proof Hok as [_ (ri & Hri & Hriok) _].
  unfold kni_process_rx, entry. rewrite Hst. cbn [res_bind]. unfold eth_rx_burst.
  pose proof (rx_bound (nic s) (port_id st) 0 count ltac:(lia)) as Hb.
  pose proof (rx_logged (nic s) (port_id st) 0 count) as Hlog.
  destruct (rx (nic s) (port_id st) 0 count) as [d0 got]. cbn [fst snd] in Hb, Hlog.
  set (pk := got ++ drop (length got) pkts). set (s1 := with_nic s d0 (sent s)).
  assert (take (length got) pk = got) as Htk by apply take_app_length.
  assert (length got <= length pk)%nat as Hlen by (unfold pk; rewrite length_app; lia).
  destruct (Z.ltb_spec 0 (Z.of_nat (length got))) as [Hpos|Hz].
  - destruct (primary_slim c && is_primary c).
    + cbn [kni_inject_rp with_nic s1]. rewrite Hri. cbn [res_bind].
      destruct (fifo_enqueue_burst_spec ri pk (Z.of_nat (length got)) Hriok ltac:(lia))
        as (ri' & m & fr & -> & Hriok' & _ & Hm & Hit). cbn [res_bind].
      pose proof (fifo_room ri Hriok). unfold burst_min in Hm.
      match goal with |- context [tx_rest ?s2 _ _ _ _] =>
        destruct (tx_rest_moved s s2 port pk got m st ri ri') as (s' & -> & Hmv & En & Hrp & _ & Hps) end;
        try done; [lia| |eexists _, _, got; unfold delivered; by rewrite En].
      rewrite Hit. cbn. solve_Permutation.
    + destruct (tx_burst_spec s1 port queue pk (Z.of_nat (length got)) ltac:(lia))
        as (d1 & k & Hk & Ed & ->).
      assert (rx_log d1 = rx_log (nic s1)) as Hlog1 by (rewrite Ed; apply tx_logged).
      match goal with |- context [tx_rest ?s2 _ _ _ _] =>
        destruct (tx_rest_moved s s2 port pk got k st ri ri) as (s' & -> & Hmv & En & Hrp & _ & Hps) end;
        try done; [by rewrite insert_id| |eexists _, _, got; unfold delivered; rewrite En; by cbn; rewrite Hlog1].
      cbn. rewrite fmap_app, snd_fmap_sent. done.
  - assert (got = []) as -> by (destruct got; [done|cbn in Hz; lia]).
    destruct (moved_none s s1 port st) as [Hmv Hps]; try done.
    by eexists _, _, [].
Qed.

(** Injected packets from the ring to the NIC. *)
Lemma inject_spec s port queue pkts count st :
  port_ok s port -> kni_stat s !! port = Some st -> 0 <= count < 65536 ->
  count <= Z.of_nat (length pkts) ->
  exists s' n, ff_kni_inject_process tx s port queue pkts count = Ok s' /\
    moved s s' port [] /\ delivered s s' [] /\ kni_rp s' = kni_rp s /\ passed_tx s s' port st n /\
    Z.of_nat (length (ring_items (kni_inject_rp s) port)) =
      n + Z.of_nat (length (ring_items (kni_inject_rp s') port)).
Proof.
  intros Hok Hst Hc Hp. pose proof Hok as [_ (ri & Hri & Hriok) _].
  unfold ff_kni_inject_process, entry. rewrite Hri. cbn [res_bind].
  destruct (fifo_dequeue_burst_spec ri pkts count Hriok ltac:(lia))
    as (r' & m & av & -> & Hrok' & _ & Hm & Hit). cbn [res_bind].
  unfold burst_min in Hm. rewrite (wrapu_small 16) by lia.
  set (got := take (Z.to_nat m) (fifo_items ri)) in *. set (pk := got ++ drop (Z.to_nat m) pkts).
  assert (length got = Z.to_nat m) as Hlg by (unfold got; rewrite length_take; lia).
  assert (length got <= length pk)%nat as Hlen by (unfold pk; rewrite length_app; lia).
  set (sb := with_inject_rp s (<[port := r']> (kni_inject_rp s))).
  assert (port_ok sb port) as Hokb.
  { destruct Hok as [H1 _ H3]. split; [done| |done]. exists r'. cbn. by rewrite lookup_insert_eq. }
  assert (Permutation (mbufs sb port ++ got) (mbufs s port)) as Hb.
  { unfold mbufs. cbn. rewrite ring_items_insert, Hit, (ring_items_lookup _ _ _ Hri).
    rewrite <- (take_drop (Z.to_nat m) (fifo_items ri)) at 2. fold got. solve_Permutation. }
  assert (forall s', moved sb s' port got -> moved s s' port []) as Hlift.
  { intros s' [G1 G2 G3 G4 G5]. split; try done.
    - by rewrite G2, Hb, app_nil_r.
    - intros q Hq. rewrite G4 by done. cbn. by rewrite lookup_insert_ne. }
  assert (Z.of_nat (length (ring_items (kni_inject_rp s) port)) =
    m + Z.of_nat (length (fifo_items r'))) as Hcount.
  { rewrite (ring_items_lookup _ _ _ Hri), Hit, length_drop. lia. }
  destruct (Z.eqb_spec m 0) as [Hm0|Hm0].
  - assert (got = []) as Hg0 by (unfold got; by rewrite Hm0).
    destruct (moved_none sb sb port st) as [Hmv Hps]; try done.
    eexists _, 0. split; [done|]. split; [apply Hlift; by rewrite Hg0|].
    split; [by apply delivered_none|]. split; [done|].
    split; [done|]. cbn. rewrite ring_items_insert. lia.
  - destruct (tx_burst_spec sb port queue pk m ltac:(lia)) as (d1 & k & Hk & Ed & ->).
    assert (rx_log d1 = rx_log (nic sb)) as Hlog by (rewrite Ed; apply tx_logged).
    match goal with |- context [tx_rest ?s2 _ _ _ _] =>
      destruct (tx_rest_moved sb s2 port pk got k st r' r') as (s' & Hs' & Hmv & En & Hrp & Hinj & Hps) end;
      try done.
    { cbn. by rewrite lookup_insert_eq. }
    { apply take_app_length. }
    { lia. }
    { cbn. by rewrite insert_insert_eq. }
    { cbn. rewrite fmap_app, snd_fmap_sent. done. }
    rewrite Hlg, Z2Nat.id in Hs', Hps by lia. exists s', m.
    split; [done|]. split; [by apply Hlift|]. split; [apply delivered_none; by rewrite En|]. split; [done|]. split; [done|].
    rewrite Hcount, Hinj. cbn. by rewrite ring_items_insert.
Qed.

Lemma moved_trans s s1 s2 port a b :
  moved s s1 port a -> moved s1 s2 port b -> moved s s2 port (a ++ b).
Proof.
  intros [_ P1 A1 B1 C1] [Hok P2 A2 B2 C2]. split; try done.
  - by rewrite P2, P1, app_assoc.
  - intros q Hq. by rewrite A2, A1.
  - intros q Hq. by rewrite B2, B1.
  - intros q Hq. by rewrite C2, C1.
Qed.

(** ** Rate limits *)

(** What [ff_kni_enqueue] does with one packet. *)
Lemma enqueue_spec c s filter port pkt :
  port_ok s port ->
  exists s' ret, ff_kni_enqueue c s filter port pkt = Ok (s', ret) /\ port_ok s' port /\ nic s' = nic s /\
    Permutation (mbufs s' port) (mbufs s port ++ [pkt]) /\
    kni_rate_limt s' = (rate_check c (kni_rate_limt s) filter).1 /\
    (ret = 0 /\ (rate_check c (kni_rate_limt s) filter).2 = false /\
       ring_items (kni_rp s') port = ring_items (kni_rp s) port ++ [pkt] /\ freed s' = freed s \/
     ret = -1 /\ ring_items (kni_rp s') port = ring_items (kni_rp s) port /\
       freed s' = freed s ++ [pkt]).
Proof.
  intros Hok. pose proof Hok as [(r & Hr & Hrok) Hinj (st & Hst & Hsok)].
  unfold ff_kni_enqueue, entry. destruct (rate_check c (kni_rate_limt s) filter) as [lim over].
  assert (forall (s1 : kni_state (R := R) (Nic := Nic)), kni_stat s1 = kni_stat s -> kni_inject_rp s1 = kni_inject_rp s ->
    sent s1 = sent s -> freed s1 = freed s -> kni_rate_limt s1 = lim -> nic s1 = nic s ->
    (exists r', kni_rp s1 = <[port := r']> (kni_rp s) /\ fifo_ok r' /\ fifo_items r' = fifo_items r) ->
    exists s', enqueue_error c s1 port pkt = Ok (s', -1) /\ port_ok s' port /\ nic s' = nic s /\
      Permutation (mbufs s' port) (mbufs s port ++ [pkt]) /\ kni_rate_limt s' = lim /\
      ring_items (kni_rp s') port = ring_items (kni_rp s) port /\ freed s' = freed s ++ [pkt]) as Herr.
  { intros s1 E1 E2 E3 E4 E5 En (r' & E6 & Hrok' & Hit). unfold enqueue_error, entry.
    assert (ring_items (kni_rp s1) port = ring_items (kni_rp s) port) as Hri.
    { by rewrite E6, ring_items_insert, (ring_items_lookup _ _ _ Hr). }
    assert (exists m, (if ff_kni_is_owner_thread c || ff_kni_is_runtime_owner c then
        let* st0 := match kni_stat s1 !! port with Some x => Ok x | None => Panic end in
        Ok (with_stat s1 (<[port := add_rx st0 0 1]> (kni_stat s1)))
      else Ok s1) = Ok (with_stat s1 m) /\ exists st', m !! port = Some st' /\ stat_ok st')
      as (m & -> & st' & Hm & Hsok').
    { destruct (_ || _).
      - rewrite E1, Hst. eexists. split; [done|]. eexists. rewrite lookup_insert_eq. split; [done|].
        destruct Hsok. split; cbn; try done; apply wrapu_range; lia.
      - exists (kni_stat s1). split; [by destruct s1|]. rewrite E1. eauto. }
    eexists. split; [done|]. split; [|split; [done|split; [|split; [done|split; [done|cbn; by rewrite E4]]]]].
    - split; cbn; [|by rewrite E2|by exists st']. exists r'. by rewrite E6, lookup_insert_eq.
    - unfold mbufs. cbn. rewrite Hri, E2, E3, E4. solve_Permutation. }
  destruct over.
  - destruct (Herr (with_rate s lim)) as (s' & -> & Hok' & Hn & Hp & Hl & Hri & Hf); try done.
    { exists r. rewrite insert_id by done. done. }
    eexists _, _. repeat (split; [done|]). by right.
  - cbn [kni_rp with_rate]. rewrite Hr. cbn [res_bind].
    destruct (fifo_enqueue_spec r pkt Hrok) as (r' & e & -> & Hrok' & _ & He). cbn [res_bind].
    case_decide.
    + destruct He as [-> Hit]. eexists _, _. split; [done|]. split; [|split; [done|split; [|split; [done|]]]].
      * split; [|done|by exists st]. exists r'. cbn. by rewrite lookup_insert_eq.
      * unfold mbufs. cbn. rewrite ring_items_insert, Hit, (ring_items_lookup _ _ _ Hr).
        solve_Permutation.
      * left. cbn. rewrite ring_items_insert, Hit, (ring_items_lookup _ _ _ Hr). done.
    + destruct He as [Hneg Hit]. destruct (Z.ltb_spec e 0); [|lia].
      match goal with |- context [enqueue_error c ?s1 _ _] =>
        destruct (Herr s1) as (s' & -> & Hok' & Hn & Hp & Hl & Hri & Hf) end; try done.
      { by exists r'. }
      eexists _, _. repeat (split; [done|]). by right.
Qed.

(** A class of packets: those the operator's protocols need, or the rest. *)
Definition is_console (f : FilterReturn) : bool := filter_value FILTER_ARP <=? filter_value f.

Fixpoint enqueue_all (c : kni_cfg) s (port : Z) (reqs : list (FilterReturn * Z)) :
    res (kni_state (R := R) (Nic := Nic) * list Z) :=
  match reqs with
  | [] => Ok (s, [])
  | (f, pkt) :: rest =>
      let* (s1, ret) := ff_kni_enqueue c s f port pkt in
      let* (s2, rets) := enqueue_all c s1 port rest in
      Ok (s2, ret :: rets)
  end.

(** How many packets of a class were queued. *)
Definition accepted (console : bool) (reqs : list (FilterReturn * Z)) (rets : list Z) : Z :=
  Z.of_nat (length (List.filter (fun e => Bool.eqb (is_console e.1.1) console && (e.2 =? 0))
    (zip reqs rets))).

Definition class_limit (c : kni_cfg) (console : bool) : Z :=
  if console then console_packets_ratelimit c else general_packets_ratelimit c.
Definition class_count (lim : kni_ratelimit) (console : bool) : Z :=
  if console then console_packets lim else gerneal_packets lim.

Lemma rate_check_spec c lim f k :
  0 < class_limit c k < 2 ^ 31 -> 0 <= class_count lim k < 2 ^ 64 - 1 ->
  class_count (rate_check c lim f).1 k =
    class_count lim k + (if Bool.eqb (is_console f) k then 1 else 0) /\
  (Bool.eqb (is_console f) k = true ->
   (rate_check c lim f).2 = (class_limit c k <? class_count lim k + 1)).
Proof.
  intros Hl Hc. unfold rate_check. fold (is_console f).
  assert (forall n, 0 < n < 2 ^ 31 -> negb (n =? 0) = true /\ u64 n = n) as Hn.
  { intros n Hn. split; [destruct (Z.eqb_spec n 0); [lia|done]|]. apply (wrapu_small 64). lia. }
  destruct k, (is_console f); cbn [class_limit class_count Bool.eqb] in *.
  - destruct (Hn _ Hl) as [-> ->]. cbn. by rewrite (wrapu_small 64) by lia.
  - destruct (negb _); cbn; split; (lia || done).
  - destruct (negb _); cbn; split; (lia || done).
  - destruct (Hn _ Hl) as [-> ->]. cbn. by rewrite (wrapu_small 64) by lia.
Qed.

Lemma enqueue_all_spec c reqs s port :
  port_ok s port -> 0 < class_limit c true < 2 ^ 31 -> 0 < class_limit c false < 2 ^ 31 ->
  (forall k, 0 <= class_count (kni_rate_limt s) k /\
     class_count (kni_rate_limt s) k + Z.of_nat (length reqs) < 2 ^ 64) ->
  exists s' rets, enqueue_all c s port reqs = Ok (s', rets) /\ port_ok s' port /\
    length rets = length reqs /\
    Permutation (mbufs s' port) (mbufs s port ++ (snd <$> reqs)) /\
    forall k, accepted k reqs rets <= Z.max 0 (class_limit c k - class_count (kni_rate_limt s) k).
Proof.
  intros Hok Hl1 Hl2. revert s Hok. induction reqs as [|[f pkt] reqs IH]; intros s Hok Hc.
  - exists s, []. cbn. rewrite app_nil_r. repeat split; try apply Hok; try done.
    intros k. unfold accepted. cbn. lia.
  - destruct (enqueue_spec c s f port pkt Hok)
      as (s1 & ret & He & Hok1 & _ & Hp1 & Hlim & Hret). cbn [enqueue_all length] in *.
    assert (forall k, class_count (kni_rate_limt s1) k = class_count (kni_rate_limt s) k +
        (if Bool.eqb (is_console f) k then 1 else 0) /\
      (Bool.eqb (is_console f) k = true -> (rate_check c (kni_rate_limt s) f).2 =
        (class_limit c k <? class_count (kni_rate_limt s) k + 1))) as Hk.
    { intros k. rewrite Hlim. apply rate_check_spec; [by destruct k|]. specialize (Hc k). lia. }
    destruct (IH s1 Hok1) as (s2 & rets & Hr & Hok2 & Hlen & Hp2 & Hacc).
    { intros k. destruct (Hk k) as [-> _]. specialize (Hc k). destruct (Bool.eqb _ _); lia. }
    exists s2, (ret :: rets). rewrite He. cbn [res_bind]. rewrite Hr. split; [done|].
    split; [done|]. split; [cbn; lia|]. split.
    { rewrite Hp2, Hp1. cbn. solve_Permutation. }
    intros k. specialize (Hacc k). destruct (Hk k) as [Hcnt Hover]. unfold accepted in *.
    cbn [zip zip_with List.filter fst snd]. rewrite Hcnt in Hacc.
    destruct (Bool.eqb (is_console f) k) eqn:Ek; cbn [andb]; [|lia].
    specialize (Hover eq_refl).
    destruct Hret as [(-> & Hno & _)|(-> & _)]; cbn [Z.eqb length]; [|lia].
    rewrite Hover in Hno. apply Z.ltb_ge in Hno. lia.
Qed.

(** ** Sequences of calls *)

Inductive kni_op :=
| KniProcess (queue : Z)
| KniInject (queue : Z)
| KniEnqueue (f : FilterReturn) (pkt : Z).

(** One call on a port, with a burst table of 32 entries. *)
Definition kni_step (c : kni_cfg) s (port : Z) (op : kni_op) :
    res (kni_state (R := R) (Nic := Nic)) :=
  match op with
  | KniProcess q => ff_kni_process tx rx c s port q (replicate 32 0) 32
  | KniInject q => ff_kni_inject_process tx s port q (replicate 32 0) 32
  | KniEnqueue f pkt => let* (s', _) := ff_kni_enqueue c s f port pkt in Ok s'
  end.

Fixpoint kni_run (c : kni_cfg) s (port : Z) (ops : list kni_op) :
    res (kni_state (R := R) (Nic := Nic)) :=
  match ops with
  | [] => Ok s
  | op :: ops' => let* s' := kni_step c s port op in kni_run c s' port ops'
  end.

Definition op_pkts (op : kni_op) : list Z :=
  match op with KniEnqueue _ pkt => [pkt] | _ => [] end.

Lemma process_spec c s port queue pkts count st :
  port_ok s port -> kni_stat s !! port = Some st -> 0 <= count < 65536 ->
  count <= Z.of_nat (length pkts) ->
  exists s' st' got k d k' d' dropped, ff_kni_process tx rx c s port queue pkts count = Ok s' /\
    moved s s' port got /\ delivered s s' got /\ kni_stat s' !! port = Some st' /\
    st' = mk_stats (port_id st) (u64 (rx_packets st + k)) (u64 (rx_dropped st + d))
            (u64 (tx_packets st + k')) (u64 (tx_dropped st + d')) /\
    Z.of_nat (length (ring_items (kni_rp s) port)) =
      k + d + Z.of_nat (length (ring_items (kni_rp s') port)) /\
    k' + d' = Z.of_nat (length got) /\
    0 <= k /\ 0 <= d /\ 0 <= k' /\ 0 <= d' /\
    freed s' = freed s ++ dropped /\ Z.of_nat (length dropped) = d + d'.
Proof.
  intros Hok Hst Hc Hp. unfold ff_kni_process.
  destruct (process_tx_spec c s port pkts count st Hok Hst Hc Hp)
    as (s1 & pk1 & st1 & k & d & dr1 & -> & Hl1 & Hm1 & Hdl1 & Hst1 & Hc1 & Hk & Hd & Hn1 & Hf1 & Hld1).
  cbn [res_bind].
  destruct (process_rx_spec c s1 port queue pk1 count st1 (mv_ok _ _ _ _ Hm1) Hst1 Hc ltac:(lia))
    as (s2 & pk2 & got & -> & Hm2 & Hdl2 & Hrp & (st2 & k' & d' & dr2 & Hst2 & Hc2 & Hk' & Hd' & Hkd & Hf2 & Hld2)).
  cbn [res_bind]. exists s2, st2, got, k, d, k', d', (dr1 ++ dr2).
  split; [done|]. split; [exact (moved_trans _ _ _ _ [] got Hm1 Hm2)|].
  split; [exact (delivered_trans _ _ _ [] got Hdl1 Hdl2)|]. split; [done|].
  split; [rewrite Hc2, Hc1; done|]. rewrite Hrp, Hf2, Hf1, app_assoc, length_app.
  repeat split; try done; lia.
Qed.

Lemma kni_step_spec c s port op :
  port_ok s port -> exists s' got, kni_step c s port op = Ok s' /\ port_ok s' port /\ delivered s s' got /\
    Permutation (mbufs s' port) (mbufs s port ++ op_pkts op ++ got).
Proof.
  intros Hok. pose proof Hok as [_ _ (st & Hst & _)]. destruct op as [q|q|f pkt]; cbn [kni_step op_pkts].
  - destruct (process_spec c s port q (replicate 32 0) 32 st Hok Hst)
      as (s' & _ & got & _ & _ & _ & _ & _ & -> & [Hok' Hp _ _ _] & Hd & _); [lia|by rewrite length_replicate|].
    by exists s', got.
  - destruct (inject_spec s port q (replicate 32 0) 32 st Hok Hst)
      as (s' & _ & -> & [Hok' Hp _ _ _] & Hd & _); [lia|by rewrite length_replicate|].
    by exists s', [].
  - destruct (enqueue_spec c s f port pkt Hok) as (s' & ret & -> & Hok' & Hn & Hp & _).
    exists s', []. split; [done|]. split; [done|]. split; [apply delivered_none; by rewrite Hn|done].
Qed.

Lemma kni_run_spec c ops s port :
  port_ok s port -> exists s' got, kni_run c s port ops = Ok s' /\ port_ok s' port /\ delivered s s' got /\
    Permutation (mbufs s' port) (mbufs s port ++ (ops ≫= op_pkts) ++ got).
Proof.
  revert s. induction ops as [|op ops IH]; intros s Hok.
  - exists s, []. cbn. rewrite app_nil_r. split; [done|]. split; [done|]. split; [by apply delivered_none|done].
  - destruct (kni_step_spec c s port op Hok) as (s1 & got1 & Hs & Hok1 & Hd1 & Hp1).
    destruct (IH s1 Hok1) as (s2 & got2 & Hr & Hok2 & Hd2 & Hp2).
    exists s2, (got1 ++ got2). cbn. rewrite Hs. cbn. split; [done|]. split; [done|].
    split; [by eapply delivered_trans|].
    rewrite Hp2, Hp1. solve_Permutation.
Qed.
End Io.

(** ** Properties *)

(** C31: The port lists of the configuration mean what they say: [ff_kni_init]
    terminates on every two lists, neither of them empty, of ports and port
    ranges, and afterwards an IPv4 packet, or an IPv6 packet without extension
    headers, over TCP or UDP with 20 bytes or more behind its IP header is
    classified for the kernel exactly when its destination port is on the list
    of its protocol. *)
Theorem kni_ports_respected tcp udp fuel :
  tcp <> [] -> udp <> [] ->
  Forall (fun it => item_ok it = true) tcp -> Forall (fun it => item_ok it = true) udp ->
  (item_fuel <= fuel)%nat ->
  exists tcp_bm udp_bm,
    init_bitmaps fuel (Some (list_str tcp)) (Some (list_str udp)) = Ok (tcp_bm, udp_bm) /\
    forall n data len ty hlen proto port,
      to_port data len ty hlen proto port -> (proto = IPPROTO_TCP \/ proto = IPPROTO_UDP) ->
      ff_kni_proto_filter (S n) (mk_filter_env true tcp_bm udp_bm) data len ty =
      Ok (if listed (if proto =? IPPROTO_TCP then tcp else udp) port
          then FILTER_KNI else FILTER_UNKNOWN).
Proof.
  intros Ht Hu Hot Hou Hf.
  destruct (kni_set_bitmap_adds tcp fuel Ht Hot Hf) as (bt & Et & Hbt & Hlt).
  destruct (kni_set_bitmap_adds udp fuel Hu Hou Hf) as (bu & Eu & Hbu & Hlu).
  exists bt, bu. unfold init_bitmaps. rewrite Et. cbn [res_bind]. rewrite Eu. cbn [res_bind].
  split; [done|]. intros n data len ty hlen proto port Htp Hproto.
  unfold ff_kni_proto_filter.
  rewrite (filter_port (mk_filter_env true bt bu) data len ty hlen proto port n); [|done..].
  cbn [tcp_port_bitmap udp_port_bitmap]. pose proof (tp_port _ _ _ _ _ _ Htp).
  destruct (proto =? IPPROTO_TCP); [by rewrite Hlt|by rewrite Hlu].
Qed.

(** The filter's walk through tunnelled IP headers and IPv6 extension
    headers reads at most two bytes past the packet, and gives an answer
    within two steps for each byte of the packet, except exactly when it
    comes to an IPv4 header of length zero that says it carries IPv4, where
    it never returns. *)
Theorem kni_filter_terminates e data len ty :
  env_ok e -> pkt_ok data len ->
  (exists f, forall fuel, (2 * Z.to_nat len + 2 <= fuel)%nat ->
     ff_kni_proto_filter fuel e data len ty = Ok f) /\ ~ loops (data, len, ty) \/
  (forall fuel, ff_kni_proto_filter fuel e data len ty = NoFuel) /\ loops (data, len, ty).
Proof.
  intros He Hp. unfold ff_kni_proto_filter.
  assert (walk_measure len ty < 2 * Z.to_nat len + 2)%nat as Hm
    by (unfold walk_measure; case_decide; lia).
  destruct (filter_dichotomy _ e data len ty Hm He Hp) as [[f Hf]|[Hl Hno]]; [left|by right].
  split; [by exists f|]. intros Hl. specialize (Hf _ (le_n _)).
  by rewrite (loops_NoFuel _ _ _ _ _ (pkt_len _ _ Hp) Hl) in Hf.
Qed.

(** A received frame can make the filter spin for ever: it does so on
    every IPv4 packet of at least 20 bytes whose header says length zero and
    protocol 4. *)
Theorem kni_filter_spins e data len b fuel :
  20 <= len < 65536 -> data !! O = Some b -> b mod 16 = 0 -> data !! 9%nat = Some IPPROTO_IPIP ->
  ff_kni_proto_filter fuel e data len RTE_ETHER_TYPE_IPV4 = NoFuel.
Proof.
  intros Hl H0 Hb H9. apply filter_ihl_zero; [|lia]. unfold ihl_zero, ip_header.
  rewrite Z.eqb_refl. unfold sizeof_ipv4_hdr. destruct (Z.ltb_spec len 20); [lia|].
  assert (byte_at data 0 = Ok b) as -> by by apply array_get_Ok. cbn [res_bind].
  assert (byte_at data 9 = Ok IPPROTO_IPIP) as -> by by apply array_get_Ok. cbn [res_bind].
  change 15 with (2 ^ 4 - 1). rewrite land_mask by lia. change (2 ^ 4) with 16. rewrite Hb.
  change (Z.shiftl 0 2) with 0. destruct (Z.ltb_spec len 0); [lia|done].
Qed.

(** C22: no packet is lost, duplicated or leaked on the kernel path: over
    any sequence of [ff_kni_process], [ff_kni_inject_process] and
    [ff_kni_enqueue] calls on a port, whatever the ports of the NIC take and
    deliver (never more than they are asked for), the mbufs in the two rings,
    given to a port, and freed at the end are, as a multiset, exactly those there
    at the start, those enqueued, and [received]: what the receive function
    delivered in the course of the calls, no more and no less, as its history
    [rx_log] says.  No call reads outside of the burst table. *)
Theorem kni_no_packet_lost {R} `{Fifo R} {Nic}
    (tx : Nic -> Z -> Z -> list Z -> Nic * Z) (rx : Nic -> Z -> Z -> Z -> Nic * list Z) (rx_log : Nic -> list Z)
    c (s : kni_state) port ops :
  (forall d p q l, 0 <= (tx d p q l).2 <= Z.of_nat (length l)) ->
  (forall d p q n, 0 <= n -> Z.of_nat (length (rx d p q n).2) <= n) ->
  (forall d p q n, rx_log (rx d p q n).1 = rx_log d ++ (rx d p q n).2) ->
  (forall d p q l, rx_log (tx d p q l).1 = rx_log d) ->
  port_ok s port ->
  exists s' received, kni_run tx rx c s port ops = Ok s' /\
    rx_log (nic s') = rx_log (nic s) ++ received /\
    Permutation (mbufs s' port) (mbufs s port ++ (ops ≫= op_pkts) ++ received).
Proof.
  intros Htx Hrx Hlog Htlog Hok.
  destruct (kni_run_spec tx rx Htx Hrx rx_log Hlog Htlog c ops s port Hok) as (s' & got & Hr & _ & Hd & Hp).
  by exists s', got.
Qed.

(** One [ff_kni_process] accounts for every packet: what leaves the ring
    is counted as sent to the kernel or dropped, what comes from the kernel
    as sent to the NIC or dropped, and the mbufs freed are as many as the
    drops counted. *)
Theorem kni_process_counts {R} `{Fifo R} {Nic}
    (tx : Nic -> Z -> Z -> list Z -> Nic * Z) (rx : Nic -> Z -> Z -> Z -> Nic * list Z) (rx_log : Nic -> list Z)
    c (s : kni_state) port queue pkts count st :
  (forall d p q l, 0 <= (tx d p q l).2 <= Z.of_nat (length l)) ->
  (forall d p q n, 0 <= n -> Z.of_nat (length (rx d p q n).2) <= n) ->
  (forall d p q n, rx_log (rx d p q n).1 = rx_log d ++ (rx d p q n).2) ->
  (forall d p q l, rx_log (tx d p q l).1 = rx_log d) ->
  port_ok s port -> kni_stat s !! port = Some st -> 0 <= count < 65536 ->
  count <= Z.of_nat (length pkts) ->
  exists s' st' received k d k' d' dropped,
    ff_kni_process tx rx c s port queue pkts count = Ok s' /\
    rx_log (nic s') = rx_log (nic s) ++ received /\
    Permutation (mbufs s' port) (mbufs s port ++ received) /\
    kni_stat s' !! port = Some st' /\
    st' = mk_stats (port_id st) (u64 (rx_packets st + k)) (u64 (rx_dropped st + d))
            (u64 (tx_packets st + k')) (u64 (tx_dropped st + d')) /\
    Z.of_nat (length (ring_items (kni_rp s) port)) =
      k + d + Z.of_nat (length (ring_items (kni_rp s') port)) /\
    k' + d' = Z.of_nat (length received) /\
    freed s' = freed s ++ dropped /\ Z.of_nat (length dropped) = d + d'.
Proof.
  intros Htx Hrx Hlog Htlog Hok Hst Hc Hp.
  destruct (process_spec tx rx Htx Hrx rx_log Hlog Htlog c s port queue pkts count st Hok Hst Hc Hp)
    as (s' & st' & got & k & d & k' & d' & dr & Hr & [_ Hperm _ _ _] & Hdl & Hst' & Heq & Hn & Hg & _ & _ & _ & _ & Hf & Hd).
  exists s', st', got, k, d, k', d', dr. repeat (split; [done|]). done.
Qed.

(** The rate limits hold: from a reset of the counters on, however many
    packets are offered, at most the configured number of packets of each
    class goes into the ring; every other packet is freed. *)
Theorem kni_rate_limits {R} `{Fifo R} {Nic} c (s : kni_state (R := R) (Nic := Nic)) port reqs :
  port_ok s port -> console_packets (kni_rate_limt s) = 0 -> gerneal_packets (kni_rate_limt s) = 0 ->
  0 < console_packets_ratelimit c < 2 ^ 31 -> 0 < general_packets_ratelimit c < 2 ^ 31 ->
  Z.of_nat (length reqs) < 2 ^ 64 ->
  exists s' rets, enqueue_all c s port reqs = Ok (s', rets) /\ length rets = length reqs /\
    accepted true reqs rets <= console_packets_ratelimit c /\
    accepted false reqs rets <= general_packets_ratelimit c /\
    Permutation (mbufs s' port) (mbufs s port ++ (snd <$> reqs)).
Proof.
  intros Hok Hz1 Hz2 Hl1 Hl2 Hlen.
  destruct (enqueue_all_spec c reqs s port Hok Hl1 Hl2) as (s' & rets & Hr & _ & Hl & Hp & Ha).
  { intros [|]; cbn; lia. }
  pose proof (Ha true) as Ht. pose proof (Ha false) as Hf. cbn in Ht, Hf.
  exists s', rets. split; [done|]. split; [done|]. split; [lia|]. split; [lia|done].
Qed.

(** An extension header's length field counts units of 8 bytes (RFC 8200);
    the walk counts bytes, so that a neighbour solicitation behind a
    hop-by-hop header of 8 bytes is not recognised, while the same message
    right behind the IPv6 header is. *)
Definition ns_message : list Z := [135; 0; 0; 0; 0; 0; 0; 0; 0; 0; 0; 0; 0; 0; 0; 0].
Definition ipv6_fixed (payload next : Z) : list Z :=
  [0x60; 0; 0; 0; 0; payload; next; 255] ++ replicate 32 0.

Lemma ns_behind_hop_by_hop :
  ff_kni_proto_filter 100 (mk_filter_env true [] [])
    (ipv6_fixed 24 0 ++ [58; 0; 1; 4; 0; 0; 0; 0] ++ ns_message) 64 RTE_ETHER_TYPE_IPV6
    = Ok FILTER_UNKNOWN /\
  ff_kni_proto_filter 100 (mk_filter_env true [] [])
    (ipv6_fixed 16 58 ++ ns_message) 56 RTE_ETHER_TYPE_IPV6 = Ok FILTER_NDP.
Proof. split; reflexivity. Qed.

(** The walk reads the second byte of an extension header that is not there. *)
Lemma ext_header_over_read :
  ff_kni_proto_filter 100 (mk_filter_env true [] []) (ipv6_fixed 0 0) 40 RTE_ETHER_TYPE_IPV6 = Panic.
Proof. reflexivity. Qed.

(** ** Witnesses *)

Lemma kni_ports_respected_witness :
  exists tcp_bm udp_bm,
    init_bitmaps item_fuel (Some (list_str [OnePort 80; PortRange 8000 8080])) (Some (list_str [OnePort 53]))
      = Ok (tcp_bm, udp_bm) /\
    forall n data len ty hlen proto port,
      to_port data len ty hlen proto port -> (proto = IPPROTO_TCP \/ proto = IPPROTO_UDP) ->
      ff_kni_proto_filter (S n) (mk_filter_env true tcp_bm udp_bm) data len ty =
      Ok (if listed (if proto =? IPPROTO_TCP then [OnePort 80; PortRange 8000 8080] else [OnePort 53]) port
          then FILTER_KNI else FILTER_UNKNOWN).
Proof.
  apply (kni_ports_respected [OnePort 80; PortRange 8000 8080] [OnePort 53] item_fuel).
  - discriminate.
  - discriminate.
  - repeat constructor.
  - repeat constructor.
  - constructor.
Defined.

Definition empty_env : filter_env :=
  mk_filter_env true (replicate (Z.to_nat 8192) 0) (replicate (Z.to_nat 8192) 0).

Lemma kni_filter_terminates_witness :
  (exists f, forall fuel, (2 * Z.to_nat 20 + 2 <= fuel)%nat ->
     ff_kni_proto_filter fuel empty_env (0x45 :: replicate 21 0) 20 RTE_ETHER_TYPE_IPV4 = Ok f) /\
    ~ loops (0x45 :: replicate 21 0, 20, RTE_ETHER_TYPE_IPV4) \/
  (forall fuel, ff_kni_proto_filter fuel empty_env (0x45 :: replicate 21 0) 20 RTE_ETHER_TYPE_IPV4
     = NoFuel) /\ loops (0x45 :: replicate 21 0, 20, RTE_ETHER_TYPE_IPV4).
Proof.
  apply (kni_filter_terminates empty_env (0x45 :: replicate 21 0) 20 RTE_ETHER_TYPE_IPV4).
  - split; exact empty_bitmap_ok.
  - split; [lia|cbn; lia|]. repeat constructor; lia.
Defined.

Lemma kni_filter_spins_witness :
  ff_kni_proto_filter 100 empty_env [0x40; 0; 0; 0; 0; 0; 0; 0; 0; 4; 0; 0; 0; 0; 0; 0; 0; 0; 0; 0] 20
    RTE_ETHER_TYPE_IPV4 = NoFuel.
Proof.
  apply (kni_filter_spins empty_env _ 20 0x40 100).
  - lia.
  - reflexivity.
  - reflexivity.
  - reflexivity.
Defined.

(** A NIC that takes everything and has two packets to deliver at each call;
    its state is what it has delivered. *)
Definition demo_tx (d : list Z) (p q : Z) (l : list Z) : list Z * Z := (d, Z.of_nat (length l)).
Definition demo_rx (d : list Z) (p q n : Z) : list Z * list Z :=
  let l := take (Z.to_nat n) [71; 72] in (d ++ l, l).
Definition demo_log (d : list Z) : list Z := d.

Definition demo_cfg : kni_cfg := mk_kni_cfg false false 0 0 0 10 1 100 0 true.

Definition demo_state : kni_state (R := Ring.rte_ring) (Nic := list Z) :=
  mk_kni_state {[0 := example_ring]} {[0 := example_ring]}
    {[0 := mk_stats 1 0 0 0 0]} (mk_ratelimit 0 0 0) [] [] [].

Lemma demo_tx_bound d p q l : 0 <= (demo_tx d p q l).2 <= Z.of_nat (length l).
Proof. cbn. lia. Qed.
Lemma demo_rx_bound d p q n : 0 <= n -> Z.of_nat (length (demo_rx d p q n).2) <= n.
Proof. intros. cbn [demo_rx snd]. rewrite length_take. lia. Qed.

Lemma demo_port_ok : port_ok demo_state 0.
Proof.
  assert (ring_ok example_ring) as Hr.
  { apply (init_ok (replicate 4 0) "kni_ring_0" 4 Ring.RING_F_SC_DEQ).
    - vm_compute. reflexivity.
    - lia.
    - vm_compute. discriminate. }
  split.
  - exists example_ring. split; [reflexivity|exact Hr].
  - exists example_ring. split; [reflexivity|exact Hr].
  - eexists. split; [reflexivity|]. split; cbn; lia.
Qed.

Lemma kni_no_packet_lost_witness :
  exists s', kni_run demo_tx demo_rx demo_cfg demo_state 0
      [KniEnqueue FILTER_ARP 41; KniEnqueue FILTER_KNI 42; KniEnqueue FILTER_KNI 43;
       KniProcess 0; KniInject 0; KniProcess 0] = Ok s' /\
    Permutation (mbufs s' 0) (mbufs demo_state 0 ++ [41; 42; 43] ++ [71; 72; 71; 72]).
Proof.
  destruct (kni_no_packet_lost demo_tx demo_rx demo_log demo_cfg demo_state 0
    [KniEnqueue FILTER_ARP 41; KniEnqueue FILTER_KNI 42; KniEnqueue FILTER_KNI 43;
     KniProcess 0; KniInject 0; KniProcess 0]) as (s' & got & E & Hlog & Hp).
  - exact demo_tx_bound.
  - exact demo_rx_bound.
  - reflexivity.
  - reflexivity.
  - exact demo_port_ok.
  - exists s'. split; [exact E|]. vm_compute in E. injection E as <-. cbn in Hlog. subst got. exact Hp.
Defined.

Lemma kni_process_counts_witness :
  exists s' st' received k d k' d' dropped,
    ff_kni_process demo_tx demo_rx demo_cfg demo_state 0 0 (replicate 32 0) 32 = Ok s' /\
    demo_log (nic s') = [] ++ received /\
    Permutation (mbufs s' 0) (mbufs demo_state 0 ++ received) /\
    kni_stat s' !! 0 = Some st' /\
    st' = mk_stats 1 (u64 (0 + k)) (u64 (0 + d)) (u64 (0 + k')) (u64 (0 + d')) /\
    Z.of_nat (length (ring_items (kni_rp demo_state) 0)) =
      k + d + Z.of_nat (length (ring_items (kni_rp s') 0)) /\
    k' + d' = Z.of_nat (length received) /\
    freed s' = [] ++ dropped /\ Z.of_nat (length dropped) = d + d'.
Proof.
  apply (kni_process_counts demo_tx demo_rx demo_log demo_cfg demo_state 0 0 (replicate 32 0) 32
    (mk_stats 1 0 0 0 0)).
  - exact demo_tx_bound.
  - exact demo_rx_bound.
  - reflexivity.
  - reflexivity.
  - exact demo_port_ok.
  - reflexivity.
  - lia.
  - cbn. lia.
Defined.

Lemma kni_rate_limits_witness :
  exists s' rets, enqueue_all demo_cfg demo_state 0 [(FILTER_KNI, 42); (FILTER_KNI, 43)] = Ok (s', rets) /\
    length rets = 2%nat /\
    accepted true [(FILTER_KNI, 42); (FILTER_KNI, 43)] rets <= 10 /\
    accepted false [(FILTER_KNI, 42); (FILTER_KNI, 43)] rets <= 1 /\
    Permutation (mbufs s' 0) (mbufs demo_state 0 ++ [42; 43]).
Proof.
  apply (kni_rate_limits demo_cfg demo_state 0 [(FILTER_KNI, 42); (FILTER_KNI, 43)]).
  - exact demo_port_ok.
  - reflexivity.
  - reflexivity.
  - cbn. lia.
  - cbn. lia.
  - cbn. lia.
Defined.
