(* ===== verification/Dispatch.v ===== *)
(** * Packet dispatch ([lib/ff_dpdk_if.c])

    What a thread does with the packets of a receive queue or of its
    dispatch ring ([process_packets]): drop, answer, hand over to another
    thread, to the kernel or to its own stack; and how packets go out in
    bursts ([send_single_packet], [send_burst]).

    A packet is the address of its first mbuf.  [m_bytes] is the memory of
    its first segment from the start of the data to the end of the buffer, of
    which the first [m_data_len] bytes are the frame; a read outside of the
    buffer is a [Panic].  [stack_in] records the packets given to the stack. *)

From S2P Require Import Prelude CString Fifo Kni.

Module Dispatch.
Import Kni.

(** ** Constants *)

Definition RTE_ETHER_ADDR_LEN : Z := 6.
Definition RTE_ETHER_HDR_LEN : Z := 14.
Definition sizeof_vlan_hdr : Z := 4.
Definition RTE_ETHER_TYPE_ARP : Z := 0x0806.
Definition RTE_ETHER_TYPE_VLAN : Z := 0x8100.
Definition RTE_TCP_SYN_FLAG : Z := 0x02.
Definition RTE_TCP_ACK_FLAG : Z := 0x10.
Definition MAX_PKT_BURST : Z := 32.
Definition RTE_PKTMBUF_HEADROOM : Z := 128.
Definition FF_DISPATCH_ERROR : Z := -1.
Definition FF_DISPATCH_RESPONSE : Z := -2.

Inductive FF_KNICTL_ACTION :=
| FF_KNICTL_ACTION_DEFAULT
| FF_KNICTL_ACTION_ALL_TO_KNI
| FF_KNICTL_ACTION_ALL_TO_FF.

(** ** Frames *)

(** A 16-bit field in network byte order. *)
Definition be16_at (data : list Z) (i : Z) : res Z :=
  let* a := byte_at data i in
  let* b := byte_at data (i + 1) in
  Ok (256 * a + b).

Definition protocol_filter (fuel : nat) (e : filter_env) (data : list Z) (len : Z) :
    res FilterReturn :=
  if len <? RTE_ETHER_ADDR_LEN then Ok FILTER_UNKNOWN
  else
    let hdr := data in
    let* ether_type := be16_at hdr 12 in
    let data := advance data RTE_ETHER_HDR_LEN in
    let len := u16 (len - RTE_ETHER_HDR_LEN) in
    let* (ether_type, data, len) :=
      if ether_type =? RTE_ETHER_TYPE_VLAN then
        let* eth_proto := be16_at data 2 in
        Ok (eth_proto, advance data sizeof_vlan_hdr, u16 (len - sizeof_vlan_hdr))
      else Ok (ether_type, data, len) in
    if ether_type =? RTE_ETHER_TYPE_ARP then Ok FILTER_ARP
    else
      let* d0 := byte_at hdr 0 in
      if Z.testbit d0 0 then Ok FILTER_MULTI
      else if ether_type =? RTE_ETHER_TYPE_IPV6 then ff_kni_proto_filter fuel e data len ether_type
      else if negb (enable_kni e) then Ok FILTER_UNKNOWN
      else if negb (ether_type =? RTE_ETHER_TYPE_IPV4) then Ok FILTER_UNKNOWN
      else ff_kni_proto_filter fuel e data len ether_type.

(** The TCP header of a frame, or [None] where [is_tcp_syn] answers 0. *)
Definition tcp_header (data : list Z) (len : Z) : res (option (list Z)) :=
  if len <? RTE_ETHER_HDR_LEN then Ok None
  else
    let* ether_type := be16_at data 12 in
    let data := advance data RTE_ETHER_HDR_LEN in
    let len := u16 (len - RTE_ETHER_HDR_LEN) in
    let* next :=
      if ether_type =? RTE_ETHER_TYPE_VLAN then
        if len <? sizeof_vlan_hdr then Ok None
        else
          let* eth_proto := be16_at data 2 in
          Ok (Some (eth_proto, advance data sizeof_vlan_hdr, u16 (len - sizeof_vlan_hdr)))
      else Ok (Some (ether_type, data, len)) in
    match next with
    | None => Ok None
    | Some (ether_type, data, len) =>
        if ether_type =? RTE_ETHER_TYPE_IPV4 then
          if len <? sizeof_ipv4_hdr then Ok None
          else
            let* proto := byte_at data 9 in
            if negb (proto =? IPPROTO_TCP) then Ok None
            else
              let* version_ihl := byte_at data 0 in
              let ihl := Z.shiftl (Z.land version_ihl 0x0f) 2 in
              if (ihl <? sizeof_ipv4_hdr) || (len <? ihl + sizeof_tcp_hdr) then Ok None
              else Ok (Some (advance data ihl))
        else if ether_type =? RTE_ETHER_TYPE_IPV6 then
          if len <? sizeof_ipv6_hdr + sizeof_tcp_hdr then Ok None
          else
            let* proto := byte_at data 6 in
            if negb (proto =? IPPROTO_TCP) then Ok None
            else Ok (Some (advance data sizeof_ipv6_hdr))
        else Ok None
    end.

Definition is_tcp_syn (data : list Z) (len : Z) : res bool :=
  let* h := tcp_header data len in
  match h with
  | None => Ok false
  | Some tcph =>
      let* tcp_flags := byte_at tcph 13 in
      Ok (Z.land tcp_flags (Z.lor RTE_TCP_SYN_FLAG RTE_TCP_ACK_FLAG) =? RTE_TCP_SYN_FLAG)
  end.

(** ** Packets *)

Record mbuf := mk_mbuf {
  m_bytes : list Z;
  m_data_len : Z;
  m_pkt_len : Z;
  m_nb_segs : Z;
  m_headroom : Z;
  m_vlan_stripped : bool;
  m_vlan_tci : Z
}.

(** The 14 bytes of the Ethernet header move to the front of the 4 new bytes;
    the tag goes between the addresses and the old type. *)
Definition ff_add_vlan_tag (m : mbuf) : res mbuf :=
  if m_vlan_stripped m then
    if m_headroom m <? sizeof_vlan_hdr then Ok m
    else if Z.of_nat (length (m_bytes m)) <? RTE_ETHER_HDR_LEN then Panic
    else
      let b := m_bytes m in
      let tag := [Z.shiftr RTE_ETHER_TYPE_VLAN 8; Z.land RTE_ETHER_TYPE_VLAN 0xff;
                  Z.shiftr (m_vlan_tci m) 8; Z.land (m_vlan_tci m) 0xff] in
      Ok (mk_mbuf (take 12 b ++ tag ++ drop 12 b)
            (u16 (m_data_len m + sizeof_vlan_hdr)) (u32 (m_pkt_len m + sizeof_vlan_hdr))
            (m_nb_segs m) (m_headroom m - sizeof_vlan_hdr) (m_vlan_stripped m) (m_vlan_tci m))
  else Ok m.

(** The copy [pktmbuf_deep_clone] makes, of the first segment; it counts
    segments in 8 bits. *)
Definition clone_of (m : mbuf) : mbuf :=
  mk_mbuf (take (Z.to_nat (m_data_len m)) (m_bytes m)) (m_data_len m) (m_pkt_len m) (u8 (m_nb_segs m))
    RTE_PKTMBUF_HEADROOM (m_vlan_stripped m) (m_vlan_tci m).

(** ** The state of a thread *)

Record ff_traffic_args := mk_traffic {
  t_rx_packets : Z;
  t_rx_bytes : Z;
  t_tx_packets : Z;
  t_tx_bytes : Z;
  t_rx_dropped : Z;
  t_tx_dropped : Z
}.

Record mbuf_table := mk_table { t_len : Z; m_table : list Z }.

(** What [process_packets] reads of the configuration and of the process. *)
Record dispatch_env := mk_dispatch_env {
  d_filter : filter_env;
  d_kni : kni_cfg;
  kni_accept : bool;
  knictl_action : FF_KNICTL_ACTION;
  mbuf_low_watermark : Z;
  nb_queues : Z
}.

Section Dispatch.
Context {R : Type} `{FifoOps R} {Nic : Type}.
Variable rte_eth_tx_burst : Nic -> Z -> Z -> list Z -> Nic * Z.

(** The application's dispatcher: the packet, its queue and the number of
    queues; it may rewrite the frame and its length, and returns a queue,
    [FF_DISPATCH_ERROR] or [FF_DISPATCH_RESPONSE]. *)
Variable packet_dispatcher : option (mbuf -> Z -> Z -> list Z * Z * Z).

(** [avail] is what [rte_mempool_avail_count] and [clones] what the calls of
    [pktmbuf_deep_clone] return, in order: a new mbuf, or none when the pool
    is empty. *)
Record dstate := mk_dstate {
  kni : kni_state (R := R) (Nic := Nic);
  dispatch_ring : gmap (Z * Z) R;
  mem : gmap Z mbuf;
  tx_mbufs : gmap Z mbuf_table;
  tx_queue_id : gmap Z Z;
  ff_traffic : ff_traffic_args;
  stack_in : list Z;
  avail : Z;
  clones : list (option Z)
}.

Definition with_kni (s : dstate) x : dstate :=
  mk_dstate x (dispatch_ring s) (mem s) (tx_mbufs s) (tx_queue_id s) (ff_traffic s) (stack_in s)
    (avail s) (clones s).
Definition with_rings (s : dstate) x : dstate :=
  mk_dstate (kni s) x (mem s) (tx_mbufs s) (tx_queue_id s) (ff_traffic s) (stack_in s)
    (avail s) (clones s).
Definition with_mem (s : dstate) x : dstate :=
  mk_dstate (kni s) (dispatch_ring s) x (tx_mbufs s) (tx_queue_id s) (ff_traffic s) (stack_in s)
    (avail s) (clones s).
Definition with_tx (s : dstate) x : dstate :=
  mk_dstate (kni s) (dispatch_ring s) (mem s) x (tx_queue_id s) (ff_traffic s) (stack_in s)
    (avail s) (clones s).
Definition with_traffic (s : dstate) x : dstate :=
  mk_dstate (kni s) (dispatch_ring s) (mem s) (tx_mbufs s) (tx_queue_id s) x (stack_in s)
    (avail s) (clones s).
Definition with_stack_in (s : dstate) x : dstate :=
  mk_dstate (kni s) (dispatch_ring s) (mem s) (tx_mbufs s) (tx_queue_id s) (ff_traffic s) x
    (avail s) (clones s).
Definition with_clones (s : dstate) x : dstate :=
  mk_dstate (kni s) (dispatch_ring s) (mem s) (tx_mbufs s) (tx_queue_id s) (ff_traffic s)
    (stack_in s) (avail s) x.

Definition count_rx (t : ff_traffic_args) (pk bytes dr : Z) : ff_traffic_args :=
  mk_traffic (u64 (t_rx_packets t + pk)) (u64 (t_rx_bytes t + bytes)) (t_tx_packets t) (t_tx_bytes t)
    (u64 (t_rx_dropped t + dr)) (t_tx_dropped t).
Definition count_tx (t : ff_traffic_args) (pk bytes dr : Z) : ff_traffic_args :=
  mk_traffic (t_rx_packets t) (t_rx_bytes t) (u64 (t_tx_packets t + pk)) (u64 (t_tx_bytes t + bytes))
    (t_rx_dropped t) (u64 (t_tx_dropped t + dr)).

Definition pkt (s : dstate) (m : Z) : res mbuf :=
  match mem s !! m with Some b => Ok b | None => Panic end.
Definition set_pkt (s : dstate) (m : Z) (b : mbuf) : dstate := with_mem s (<[m := b]> (mem s)).

Definition free_pkt (s : dstate) (m : Z) : dstate := with_kni s (rte_pktmbuf_free (kni s) m).
Definition drop_rx (s : dstate) (m : Z) (nb_segs : Z) : dstate :=
  free_pkt (with_traffic s (count_rx (ff_traffic s) 0 0 nb_segs)) m.

(** ** Sending *)

(** [for (i = 0; i < ret; i++)]: the counters of the packets sent. *)
Fixpoint count_sent (s : dstate) (l : list Z) : res dstate :=
  match l with
  | [] => Ok s
  | m :: l' =>
      let* b := pkt s m in
      count_sent (with_traffic s (count_tx (ff_traffic s) (m_nb_segs b) (m_pkt_len b) 0)) l'
  end.

(** [do ... while (++ret < n)]: the packets the port did not take. *)
Fixpoint drop_unsent (s : dstate) (l : list Z) : res dstate :=
  match l with
  | [] => Ok s
  | m :: l' =>
      let* b := pkt s m in
      drop_unsent (free_pkt (with_traffic s (count_tx (ff_traffic s) 0 0 (m_nb_segs b))) m) l'
  end.

Definition send_burst (s : dstate) (n port : Z) : res dstate :=
  let* queueid := entry (tx_queue_id s) port in
  let* t := entry (tx_mbufs s) port in
  let tbl := take (Z.to_nat n) (m_table t) in
  let '(k, ret) := eth_tx_burst rte_eth_tx_burst (kni s) port queueid (m_table t) n in
  let s := with_kni s k in
  let* s := count_sent s (take (Z.to_nat ret) tbl) in
  drop_unsent s (drop (Z.to_nat ret) tbl).

Definition send_single_packet (s : dstate) (m port : Z) : res dstate :=
  let* t := entry (tx_mbufs s) port in
  let* tbl := array_set (m_table t) (t_len t) m in
  let s := with_tx s (<[port := mk_table (t_len t) tbl]> (tx_mbufs s)) in
  let len := u16 (t_len t + 1) in
  let* (s, len) :=
    if len =? MAX_PKT_BURST then
      let* s' := send_burst s MAX_PKT_BURST port in
      Ok (s', 0)
    else Ok (s, len) in
  Ok (with_tx s (<[port := mk_table len tbl]> (tx_mbufs s))).

(** ** Receiving *)

(** The next of the answers of [pktmbuf_deep_clone], which [Mbuf] models. *)
Definition take_clone (s : dstate) (m : Z) : res (dstate * option Z) :=
  let* b := pkt s m in
  match clones s with
  | Some c :: rest => Ok (set_pkt (with_clones s rest) c (clone_of b), Some c)
  | None :: rest => Ok (with_clones s rest, None)
  | [] => Ok (s, None)
  end.

Definition enqueue_ring (s : dstate) (port queue m : Z) : res (dstate * Z) :=
  let* r := match dispatch_ring s !! (port, queue) with Some r => Ok r | None => Panic end in
  let* (r', ret) := fifo_enqueue r m in
  Ok (with_rings s (<[(port, queue) := r']> (dispatch_ring s)), ret).

(** Hand [m] over to another queue, or drop it. *)
Definition hand_over (s : dstate) (port queue m : Z) : res dstate :=
  let* (s, ret) := enqueue_ring s port queue m in
  if ret <? 0 then
    let* b := pkt s m in
    Ok (drop_rx s m (m_nb_segs b))
  else Ok s.

(** [for (j = 0; j < nb_queues; ++j)]: a copy for every other queue. *)
Fixpoint copy_to_queues (k : nat) (s : dstate) (port queue j m : Z) : res dstate :=
  match k with
  | O => Ok s
  | S k' =>
      let* s :=
        if j =? queue then Ok s
        else
          let* (s, c) := take_clone s m in
          match c with
          | Some c => hand_over s port j c
          | None => Ok s
          end in
      copy_to_queues k' s port queue (j + 1) m
  end.

Definition to_kni (e : dispatch_env) (s : dstate) (f : FilterReturn) (port m : Z) : res dstate :=
  let* b := pkt s m in
  let* b' := ff_add_vlan_tag b in
  let s := set_pkt s m b' in
  let* (k, _) := ff_kni_enqueue (d_kni e) (kni s) f port m in
  Ok (with_kni s k).

(** The call of [ff_veth_input], which [Mbuf] models. *)
Definition to_stack (s : dstate) (m : Z) : dstate := with_stack_in s (stack_in s ++ [m]).

(** The ARP and NDP branch: every stack and the kernel get the packet. *)
Definition to_everyone (e : dispatch_env) (s : dstate) (f : FilterReturn) (port queue m : Z)
    (pkts_from_ring : bool) : res dstate :=
  let* s :=
    if negb pkts_from_ring then copy_to_queues (Z.to_nat (nb_queues e)) s port queue 0 m
    else Ok s in
  let* s :=
    if enable_kni (d_filter e) && ff_kni_is_runtime_owner (d_kni e) then
      let* (s, c) := take_clone s m in
      match c with
      | Some c => to_kni e s f port c
      | None => Ok s
      end
    else Ok s in
  Ok (to_stack s m).

(** Whether the kernel gets a packet under the default action. *)
Definition for_kernel (e : dispatch_env) (f : FilterReturn) : bool :=
  match f with
  | FILTER_KNI => kni_accept e
  | FILTER_UNKNOWN | FILTER_OSPF | FILTER_MULTI => negb (kni_accept e)
  | _ => false
  end.

(** From the call of [protocol_filter] on. *)
Definition route_packet (fuel : nat) (e : dispatch_env) (s : dstate) (port queue m len : Z)
    (pkts_from_ring : bool) : res dstate :=
  let* b := pkt s m in
  let* f := protocol_filter fuel (d_filter e) (m_bytes b) len in
  match f with
  | FILTER_ARP | FILTER_NDP => to_everyone e s f port queue m pkts_from_ring
  | _ =>
      if enable_kni (d_filter e) then
        match knictl_action e with
        | FF_KNICTL_ACTION_ALL_TO_KNI => to_kni e s f port m
        | FF_KNICTL_ACTION_ALL_TO_FF => Ok (to_stack s m)
        | FF_KNICTL_ACTION_DEFAULT =>
            if for_kernel e f then to_kni e s f port m else Ok (to_stack s m)
        end
      else Ok (to_stack s m)
  end.

(** The dispatcher's part: the state and, for a packet that stays, the
    length it gave. *)
Definition dispatch_packet (e : dispatch_env) (s : dstate) (port queue m : Z)
    (disp : mbuf -> Z -> Z -> list Z * Z * Z) : res (dstate * option Z) :=
  let* b := pkt s m in
  let '(bytes, len, ret) := disp b queue (nb_queues e) in
  let b := mk_mbuf bytes (m_data_len b) (m_pkt_len b) (m_nb_segs b) (m_headroom b)
             (m_vlan_stripped b) (m_vlan_tci b) in
  let s := set_pkt s m b in
  if ret =? FF_DISPATCH_RESPONSE then
    let b := mk_mbuf bytes len len (m_nb_segs b) (m_headroom b)
               (m_vlan_stripped b) (m_vlan_tci b) in
    let* b := ff_add_vlan_tag b in
    let* s := send_single_packet (set_pkt s m b) m port in
    Ok (s, None)
  else if (ret =? FF_DISPATCH_ERROR) || (nb_queues e <=? ret) then Ok (free_pkt s m, None)
  else if negb (ret =? queue) then
    let* s := hand_over s port ret m in
    Ok (s, None)
  else Ok (s, Some len).

Definition process_packet (fuel : nat) (e : dispatch_env) (s : dstate) (port queue m : Z)
    (pkts_from_ring : bool) : res dstate :=
  let* b := pkt s m in
  let* syn :=
    if negb pkts_from_ring && (0 <? mbuf_low_watermark e) && (avail s <? mbuf_low_watermark e)
    then is_tcp_syn (m_bytes b) (m_data_len b)
    else Ok false in
  if syn then Ok (drop_rx s m (m_nb_segs b))
  else
    let s :=
      if negb pkts_from_ring
      then with_traffic s (count_rx (ff_traffic s) (m_nb_segs b) (m_pkt_len b) 0)
      else s in
    match packet_dispatcher with
    | Some disp =>
        if negb pkts_from_ring then
          let* (s, len) := dispatch_packet e s port queue m disp in
          match len with
          | Some len => route_packet fuel e s port queue m len pkts_from_ring
          | None => Ok s
          end
        else route_packet fuel e s port queue m (m_data_len b) pkts_from_ring
    | None => route_packet fuel e s port queue m (m_data_len b) pkts_from_ring
    end.

Fixpoint process_packets (fuel : nat) (e : dispatch_env) (s : dstate) (port queue : Z)
    (bufs : list Z) (pkts_from_ring : bool) : res dstate :=
  match bufs with
  | [] => Ok s
  | m :: rest =>
      let* s' := process_packet fuel e s port queue m pkts_from_ring in
      process_packets fuel e s' port queue rest pkts_from_ring
  end.

Definition process_dispatch_ring (fuel : nat) (e : dispatch_env) (s : dstate) (port queue : Z)
    (pkts_burst : list Z) : res (dstate * Z) :=
  let* r := match dispatch_ring s !! (port, queue) with Some r => Ok r | None => Panic end in
  let* (r', pkts, n, _) := fifo_dequeue_burst r pkts_burst MAX_PKT_BURST in
  let nb_rb := u16 n in
  let s := with_rings s (<[(port, queue) := r']> (dispatch_ring s)) in
  let* s :=
    if 0 <? nb_rb
    then process_packets fuel e s port queue (take (Z.to_nat nb_rb) pkts) true
    else Ok s in
  Ok (s, nb_rb).
End Dispatch.

End Dispatch.
