(* ===== verification/DispatchProofs.v ===== *)
(** * Proofs about packet dispatch

    Every packet [process_packets] is given, and every copy it makes, ends in
    exactly one place; frames are classified by what they carry, with or
    without a VLAN tag; a packet every stack has to see reaches every queue. *)

From stdpp Require Import strings.
From Stdlib Require Import Permutation.
From S2P Require Import Prelude CString Fifo Ring RingProofs Kni KniProofs Dispatch.

Import Kni Dispatch.

(** ** Sums over queues *)

Lemma concat_update {A} (f g : Z -> list A) (l : list Z) j x :
  j ∈ l -> NoDup l -> g j = f j ++ [x] -> (forall i, i <> j -> g i = f i) ->
  Permutation (concat (g <$> l)) (concat (f <$> l) ++ [x]).
Proof.
  intros Hj Hnd Hg Hother. induction l as [|i l IH]; [by apply elem_of_nil in Hj|].
  apply NoDup_cons in Hnd as [Hi Hnd]. cbn. destruct (decide (i = j)) as [->|Hne].
  - rewrite Hg. replace (g <$> l) with (f <$> l); [solve_Permutation|].
    apply list_fmap_ext. intros k y Hy. symmetry. apply Hother. intros ->.
    by apply list_elem_of_lookup_2 in Hy.
  - rewrite Hother by done. apply elem_of_cons in Hj as [->|Hj]; [done|].
    rewrite IH by done. solve_Permutation.
Qed.

(** ** Reading frames *)

Lemma byte_at_in data i : 0 <= i < Z.of_nat (length data) -> exists b, byte_at data i = Ok b.
Proof. intros Hi. destruct (array_get_lt data i Hi) as (b & Hb & _). by exists b. Qed.

Lemma be16_in data i : 0 <= i -> i + 1 < Z.of_nat (length data) -> exists v, be16_at data i = Ok v.
Proof.
  intros H1 H2. unfold be16_at. destruct (byte_at_in data i) as [a ->]; [lia|].
  destruct (byte_at_in data (i + 1)) as [b ->]; [lia|]. by eexists.
Qed.

Lemma length_advance data n :
  0 <= n <= Z.of_nat (length data) -> Z.of_nat (length (advance data n)) = Z.of_nat (length data) - n.
Proof. intros Hn. unfold advance. rewrite length_drop. lia. Qed.

(** The TCP header is found inside of the frame. *)
Lemma tcp_header_in data len :
  0 <= len < 65536 -> len <= Z.of_nat (length data) ->
  tcp_header data len = Ok None \/
  exists h, tcp_header data len = Ok (Some h) /\ 20 <= Z.of_nat (length h).
Proof.
  intros Hl Hd. unfold tcp_header, RTE_ETHER_HDR_LEN.
  destruct (Z.ltb_spec len 14); [by left|].
  destruct (be16_in data 12) as [ty ->]; [lia..|]. cbn [res_bind].
  rewrite (wrapu_small 16) by lia. pose proof (length_advance data 14 ltac:(lia)) as L1.
  assert (exists nx, (if ty =? RTE_ETHER_TYPE_VLAN then
      if len - 14 <? sizeof_vlan_hdr then Ok None else
      let* eth_proto := be16_at (advance data 14) 2 in
      Ok (Some (eth_proto, advance (advance data 14) sizeof_vlan_hdr, u16 (len - 14 - sizeof_vlan_hdr)))
    else Ok (Some (ty, advance data 14, len - 14))) = Ok nx /\
    match nx with Some (_, d, l) => 0 <= l < 65536 /\ l <= Z.of_nat (length d) | None => True end)
    as (nx & -> & Hnx).
  { destruct (ty =? _); [|eexists; split; [done|cbn; lia]]. unfold sizeof_vlan_hdr.
    destruct (Z.ltb_spec (len - 14) 4); [by eexists|].
    destruct (be16_in (advance data 14) 2) as [ty' ->]; [lia..|]. eexists. split; [done|].
    cbn. rewrite (wrapu_small 16), length_advance by lia. lia. }
  clear L1. cbn [res_bind]. destruct nx as [[[ty' d] l]|]; [|by left]. destruct Hnx as [Hl' Hd'].
  destruct (ty' =? RTE_ETHER_TYPE_IPV4).
  - unfold sizeof_ipv4_hdr, sizeof_tcp_hdr. destruct (Z.ltb_spec l 20); [by left|].
    destruct (byte_at_in d 9) as [pr ->]; [lia|]. cbn [res_bind].
    destruct (negb (pr =? IPPROTO_TCP)); [by left|].
    destruct (byte_at_in d 0) as [v ->]; [lia|]. cbn [res_bind].
    pose proof (byte_land15 v) as Hv. set (ihl := Z.shiftl (Z.land v 15) 2) in *.
    destruct (Z.ltb_spec ihl 20), (Z.ltb_spec l (ihl + 20)); try by left.
    right. eexists. split; [done|]. rewrite length_advance by lia. lia.
  - destruct (ty' =? RTE_ETHER_TYPE_IPV6); [|by left].
    unfold sizeof_ipv6_hdr, sizeof_tcp_hdr. destruct (Z.ltb_spec l (40 + 20)); [by left|].
    destruct (byte_at_in d 6) as [pr ->]; [lia|]. cbn [res_bind].
    destruct (negb (pr =? IPPROTO_TCP)); [by left|].
    right. eexists. split; [done|]. rewrite length_advance by lia. lia.
Qed.

Lemma is_tcp_syn_in data len :
  0 <= len < 65536 -> len <= Z.of_nat (length data) -> exists v, is_tcp_syn data len = Ok v.
Proof.
  intros Hl Hd. unfold is_tcp_syn. destruct (tcp_header_in data len Hl Hd) as [->|(h & -> & Hh)];
    cbn [res_bind]; [by eexists|]. destruct (byte_at_in h 13) as [fl ->]; [lia|]. by eexists.
Qed.

(** What a frame carries: its type, past a VLAN tag, and the bytes behind. *)
Inductive carries (data : list Z) (len : Z) : Z -> list Z -> Z -> Prop :=
| carries_plain ty :
    be16_at data 12 = Ok ty -> ty <> RTE_ETHER_TYPE_VLAN ->
    carries data len ty (advance data 14) (len - 14)
| carries_tagged ty :
    be16_at data 12 = Ok RTE_ETHER_TYPE_VLAN -> be16_at data 16 = Ok ty ->
    carries data len ty (advance data 18) (len - 18).

Lemma byte_at_advance data n i : 0 <= n -> 0 <= i -> byte_at (advance data n) i = byte_at data (n + i).
Proof.
  intros Hn Hi. unfold byte_at, array_get, advance. rewrite !decide_True by lia.
  rewrite lookup_drop. by replace (Z.to_nat (n + i)) with (Z.to_nat n + Z.to_nat i)%nat by lia.
Qed.

Lemma be16_advance data n i : 0 <= n -> 0 <= i -> be16_at (advance data n) i = be16_at data (n + i).
Proof.
  intros Hn Hi. unfold be16_at. rewrite !byte_at_advance by lia. by rewrite Z.add_assoc.
Qed.

Lemma advance_advance data n k : 0 <= n -> 0 <= k -> advance (advance data n) k = advance data (n + k).
Proof. intros Hn Hk. unfold advance. rewrite drop_drop. f_equal. lia. Qed.

(** What [protocol_filter] does with what the frame carries. *)
Definition classify (fuel : nat) (e : filter_env) (ty : Z) (d : list Z) (l : Z) (multi : bool) :
    res FilterReturn :=
  if ty =? RTE_ETHER_TYPE_ARP then Ok FILTER_ARP
  else if multi then Ok FILTER_MULTI
  else if (ty =? RTE_ETHER_TYPE_IPV6) || enable_kni e && (ty =? RTE_ETHER_TYPE_IPV4)
  then ff_kni_proto_filter fuel e d l ty
  else Ok FILTER_UNKNOWN.

Lemma filter_carries fuel e data len ty d l d0 :
  carries data len ty d l -> 14 <= len < 65536 -> 0 <= l -> byte_at data 0 = Ok d0 ->
  protocol_filter fuel e data len = classify fuel e ty d l (Z.testbit d0 0).
Proof.
  intros Hc Hlen Hl H0. unfold protocol_filter, RTE_ETHER_ADDR_LEN, RTE_ETHER_HDR_LEN, classify.
  destruct (Z.ltb_spec len 6); [lia|]. rewrite H0, (wrapu_small 16 (len - 14)) by lia.
  destruct Hc as [ty H12 Hv|ty H12 H16]; rewrite H12; cbn [res_bind].
  - apply Z.eqb_neq in Hv. rewrite Hv. cbn [res_bind].
    destruct (ty =? RTE_ETHER_TYPE_ARP), (Z.testbit d0 0), (ty =? RTE_ETHER_TYPE_IPV6),
      (enable_kni e), (ty =? RTE_ETHER_TYPE_IPV4); done.
  - rewrite Z.eqb_refl, be16_advance by lia. change (14 + 2) with 16. rewrite H16. cbn [res_bind].
    unfold sizeof_vlan_hdr. rewrite advance_advance, wrapu_small by lia. change (14 + 4) with 18.
    replace (len - 14 - 4) with (len - 18) by lia.
    destruct (ty =? RTE_ETHER_TYPE_ARP), (Z.testbit d0 0), (ty =? RTE_ETHER_TYPE_IPV6),
      (enable_kni e), (ty =? RTE_ETHER_TYPE_IPV4); done.
Qed.

(** A frame long enough for its headers carries something. *)
Lemma frame_carries data len :
  14 <= len -> len <= Z.of_nat (length data) ->
  (be16_at data 12 = Ok RTE_ETHER_TYPE_VLAN -> 18 <= len) ->
  exists ty d l, carries data len ty d l /\ 0 <= l /\ (l = len - 14 \/ l = len - 18) /\
    d = advance data (len - l).
Proof.
  intros Hl Hd Hv. destruct (be16_in data 12) as [ty H12]; [lia..|].
  destruct (decide (ty = RTE_ETHER_TYPE_VLAN)) as [->|Hne].
  - specialize (Hv H12). destruct (be16_in data 16) as [ty' H16]; [lia..|].
    exists ty', (advance data 18), (len - 18). split; [by constructor|]. split; [lia|]. split; [lia|].
    f_equal. lia.
  - exists ty, (advance data 14), (len - 14). split; [by constructor|]. split; [lia|]. split; [lia|].
    f_equal. lia.
Qed.

Section Dispatch.
Context {R : Type} `{Fifo R} {Nic : Type}.
Variable tx : Nic -> Z -> Z -> list Z -> Nic * Z.
Hypothesis tx_bound : forall d p q l, 0 <= (tx d p q l).2 <= Z.of_nat (length l).

Implicit Type s : dstate (R := R) (Nic := Nic).

Context (port : Z) (nq : Z).

(** ** Where packets are *)

Definition qitems s (j : Z) : list Z :=
  match dispatch_ring s !! (port, j) with Some r => fifo_items r | None => [] end.

(** The packets waiting for the next burst. *)
Definition pending s : list Z :=
  match tx_mbufs s !! port with
  | Some t => take (Z.to_nat (t_len t)) (m_table t)
  | None => []
  end.

(** The dispatch rings of the port, the kernel path with what was sent and
    what was freed, the stack, and the next burst. *)
Definition held s : list Z :=
  concat (qitems s <$> seqZ 0 nq) ++ mbufs (kni s) port ++ stack_in s ++ pending s.

Record dispatch_ok s : Prop := {
  do_rings : forall j, 0 <= j < nq -> exists r, dispatch_ring s !! (port, j) = Some r /\ fifo_ok r;
  do_kni : port_ok (kni s) port;
  do_queue : is_Some (tx_queue_id s !! port);
  do_tx : exists t, tx_mbufs s !! port = Some t /\ 0 <= t_len t < MAX_PKT_BURST /\
            length (m_table t) = Z.to_nat MAX_PKT_BURST;
  do_mem : forall m, m ∈ pending s -> is_Some (mem s !! m)
}.

(** What the pool hands out is not in use. *)
Record fresh s : Prop := {
  fr_nodup : NoDup (omap id (clones s));
  fr_new : forall c, Some c ∈ clones s -> mem s !! c = None
}.

(** Working on packet [m] took [s] to [s'], and put the packets [add] and the
    copies made somewhere. *)
Record adv (m : Z) s s' (add : list Z) : Prop := {
  adv_ok : dispatch_ok s';
  adv_fresh : fresh s';
  adv_other : forall x b, x <> m -> mem s !! x = Some b -> mem s' !! x = Some b;
  adv_self : is_Some (mem s !! m) -> is_Some (mem s' !! m);
  adv_held : exists used, clones s = used ++ clones s' /\
    Permutation (held s') (held s ++ add ++ omap id used)
}.

Lemma adv_refl m s : dispatch_ok s -> fresh s -> adv m s s [].
Proof. intros Hok Hf. split; try done. exists []. cbn. by rewrite app_nil_r. Qed.

Lemma adv_trans m s1 s2 s3 a b : adv m s1 s2 a -> adv m s2 s3 b -> adv m s1 s3 (a ++ b).
Proof.
  intros [O1 F1 X1 S1 (u1 & C1 & P1)] [O2 F2 X2 S2 (u2 & C2 & P2)]. split; try done; eauto.
  exists (u1 ++ u2). rewrite C1, C2, <- app_assoc. split; [done|].
  rewrite P2, P1, omap_app. solve_Permutation.
Qed.

(** A change that touches neither the pools nor the stored packets. *)
Lemma adv_move m s s' add :
  dispatch_ok s' -> fresh s -> mem s' = mem s -> clones s' = clones s ->
  Permutation (held s') (held s ++ add) -> adv m s s' add.
Proof.
  intros Hok [F1 F2] Hm Hc Hp. split; rewrite ?Hm; try done.
  - split; rewrite ?Hm, ?Hc; done.
  - exists []. rewrite Hc. cbn. by rewrite app_nil_r.
Qed.

Lemma held_eq s s' :
  dispatch_ring s' = dispatch_ring s -> kni s' = kni s -> stack_in s' = stack_in s ->
  tx_mbufs s' = tx_mbufs s -> held s' = held s.
Proof. intros E1 E2 E3 E4. unfold held, qitems, pending. by rewrite E1, E2, E3, E4. Qed.

Lemma ok_eq s s' :
  dispatch_ok s -> dispatch_ring s' = dispatch_ring s -> kni s' = kni s ->
  tx_mbufs s' = tx_mbufs s -> tx_queue_id s' = tx_queue_id s ->
  (forall m, is_Some (mem s !! m) -> is_Some (mem s' !! m)) -> dispatch_ok s'.
Proof.
  intros [] E1 E2 E3 E4 Hm. split; rewrite ?E1, ?E2, ?E3, ?E4; try done.
  intros m Hin. apply Hm, do_mem0. unfold pending in *. by rewrite E3 in Hin.
Qed.

Lemma adv_traffic m s t : dispatch_ok s -> fresh s -> adv m s (with_traffic s t) [].
Proof.
  intros Hok Hf. apply adv_move; try done; [by eapply ok_eq|].
  by rewrite (held_eq s), app_nil_r.
Qed.

(** Rewriting the packet itself. *)
Lemma adv_set m s b :
  dispatch_ok s -> fresh s -> is_Some (mem s !! m) -> adv m s (set_pkt s m b) [].
Proof.
  intros Hok [F1 F2] Hm. split.
  - eapply ok_eq; try done. intros x Hx. cbn. destruct (decide (x = m)) as [->|].
    + rewrite lookup_insert_eq. by eexists.
    + by rewrite lookup_insert_ne.
  - split; [done|]. intros c Hc. cbn. rewrite lookup_insert_ne; [by apply F2|].
    intros <-. destruct Hm as [? Hm]. rewrite F2 in Hm by done. done.
  - intros x b' Hx Hb. cbn. by rewrite lookup_insert_ne.
  - intros _. cbn. rewrite lookup_insert_eq. by eexists.
  - exists []. cbn. split; [done|]. by rewrite app_nil_r.
Qed.

Lemma adv_free m s : dispatch_ok s -> fresh s -> adv m s (free_pkt s m) [m].
Proof.
  intros Hok Hf. apply adv_move; try done.
  - destruct Hok as [H1 [H2 H3 H4] H5 H6 H7]. split; try done.
  - unfold held, qitems, pending, mbufs. cbn. solve_Permutation.
Qed.

Lemma adv_drop_rx m s n : dispatch_ok s -> fresh s -> adv m s (drop_rx s m n) [m].
Proof.
  intros Hok Hf. unfold drop_rx.
  pose proof (adv_traffic m s (count_rx (ff_traffic s) 0 0 n) Hok Hf) as A1.
  exact (adv_trans m _ _ _ [] [m] A1 (adv_free m _ (adv_ok _ _ _ _ A1) (adv_fresh _ _ _ _ A1))).
Qed.

Lemma adv_stack m s : dispatch_ok s -> fresh s -> adv m s (to_stack s m) [m].
Proof.
  intros Hok Hf. apply adv_move; try done; [by eapply ok_eq|].
  unfold held, qitems, pending. cbn. solve_Permutation.
Qed.

(** ** Copies *)

(** The state right after a copy was made. *)
Lemma cloned_ok c rest b s :
  dispatch_ok s -> fresh s -> clones s = Some c :: rest ->
  let s1 := set_pkt (with_clones s rest) c b in
  mem s !! c = None /\ dispatch_ok s1 /\ fresh s1 /\ is_Some (mem s1 !! c).
Proof.
  intros Hok [F1 F2] Hc s1.
  assert (mem s !! c = None) as Hnew by (apply F2; rewrite Hc; left).
  rewrite Hc in F1. cbn in F1. apply NoDup_cons in F1 as [Hnin F1].
  split; [done|]. split; [|split].
  - eapply ok_eq; try done. intros x [y Hx]. cbn. rewrite lookup_insert_ne; [by exists y|].
    intros <-. congruence.
  - split; [done|]. intros c' Hc'. cbn in *. rewrite lookup_insert_ne.
    + apply F2. rewrite Hc. by right.
    + intros <-. apply Hnin. apply list_elem_of_omap. by exists (Some c).
  - cbn. rewrite lookup_insert_eq. by eexists.
Qed.

(** A copy that was made and put somewhere, while working on [m]. *)
Lemma adv_clone m c rest b s s2 :
  mem s !! c = None -> clones s = Some c :: rest ->
  adv c (set_pkt (with_clones s rest) c b) s2 [c] -> adv m s s2 [].
Proof.
  intros Hnew Hc [O2 F2 X2 S2 (used & C2 & P2)].
  assert (forall x b', mem s !! x = Some b' -> mem s2 !! x = Some b') as Hkeep.
  { intros x b' Hx. apply X2; [intros ->; congruence|]. cbn.
    rewrite lookup_insert_ne; [done|]. intros ->. congruence. }
  split; try done; eauto.
  - intros [b' Hb']. exists b'. by apply Hkeep.
  - exists (Some c :: used). cbn in C2. rewrite Hc, C2. split; [done|]. rewrite P2.
    rewrite (held_eq s) by done. cbn. solve_Permutation.
Qed.

(** Making a copy and doing [k] with it, or nothing when there is none. *)
Lemma adv_with_clone m s (k : dstate (R := R) (Nic := Nic) -> Z -> res dstate) :
  dispatch_ok s -> fresh s -> is_Some (mem s !! m) ->
  (forall s1 c b, dispatch_ok s1 -> fresh s1 -> mem s !! m = Some b ->
     mem s1 !! c = Some (clone_of b) -> exists s2, k s1 c = Ok s2 /\ adv c s1 s2 [c]) ->
  exists s', (let* (s1, c) := take_clone s m in
              match c with Some c => k s1 c | None => Ok s1 end) = Ok s' /\ forall x, adv x s s' [].
Proof.
  intros Hok Hf [b Hb] Hk. unfold take_clone, pkt. rewrite Hb. cbn [res_bind].
  destruct (clones s) as [|[c|] rest] eqn:Hc; cbn [res_bind].
  - exists s. split; [done|]. intros x. by apply adv_refl.
  - destruct (cloned_ok c rest (clone_of b) s Hok Hf Hc) as (Hnew & Hok1 & Hf1 & _).
    destruct (Hk _ c b Hok1 Hf1 Hb) as (s2 & Hs2 & A2); [cbn; by rewrite lookup_insert_eq|].
    exists s2. split; [done|]. intros x. by eapply adv_clone.
  - eexists. split; [done|]. intros x. destruct Hf as [F1 F2]. split; try done.
    + by eapply ok_eq.
    + rewrite Hc in *. split; [done|]. intros c' Hc'. apply F2. by right.
    + exists [None]. cbn. rewrite app_nil_r. split; [done|]. by rewrite (held_eq s).
Qed.

Lemma adv_keeps m s s' add b :
  (forall x, adv x s s' add) -> mem s !! m = Some b -> mem s' !! m = Some b.
Proof. intros A. apply (adv_other _ _ _ _ (A (m + 1))). lia. Qed.

(** ** Handing over *)

Lemma adv_hand_over m s j :
  dispatch_ok s -> fresh s -> 0 <= j < nq -> is_Some (mem s !! m) ->
  exists s', hand_over s port j m = Ok s' /\ adv m s s' [m].
Proof.
  intros Hok Hf Hj [b Hb]. destruct (do_rings s Hok j Hj) as (r & Hr & Hrok).
  unfold hand_over, enqueue_ring. rewrite Hr. cbn [res_bind].
  destruct (fifo_enqueue_spec r m Hrok) as (r' & e & -> & Hrok' & _ & He). cbn [res_bind].
  set (s1 := with_rings s (<[(port, j) := r']> (dispatch_ring s))).
  assert (dispatch_ok s1) as Hok1.
  { destruct Hok as [H1 H2 H3 H4 H5]. split; try done. intros i Hi. cbn.
    destruct (decide (i = j)) as [->|Hne]; [exists r'; by rewrite lookup_insert_eq|].
    rewrite lookup_insert_ne by congruence. auto. }
  case_decide.
  - destruct He as [-> Hit]. eexists. split; [done|]. apply adv_move; try done.
    unfold held. rewrite (concat_update (qitems s) (qitems s1) (seqZ 0 nq) j m).
    + solve_Permutation.
    + apply elem_of_seqZ. lia.
    + apply NoDup_seqZ.
    + unfold qitems. cbn. by rewrite lookup_insert_eq, Hr.
    + intros i Hi. unfold qitems. cbn. by rewrite lookup_insert_ne by congruence.
  - destruct He as [Hneg Hit]. destruct (Z.ltb_spec e 0); [|lia].
    unfold pkt. cbn [mem with_rings s1]. rewrite Hb. cbn [res_bind]. eexists. split; [done|].
    assert (adv m s s1 []) as A1.
    { apply adv_move; try done. rewrite app_nil_r. unfold held.
      replace (qitems s1 <$> seqZ 0 nq) with (qitems s <$> seqZ 0 nq); [done|].
      apply list_fmap_ext. intros k i _. unfold qitems. cbn.
      destruct (decide (i = j)) as [->|Hne]; [by rewrite lookup_insert_eq, Hr|].
      by rewrite lookup_insert_ne by congruence. }
    eapply (adv_trans m _ _ _ [] [m]); [exact A1|].
    apply adv_drop_rx; [done|]. apply (adv_fresh _ _ _ _ A1).
Qed.

Lemma adv_copy_to_queues k m s queue j :
  dispatch_ok s -> fresh s -> is_Some (mem s !! m) -> 0 <= j -> j + Z.of_nat k <= nq ->
  exists s', copy_to_queues k s port queue j m = Ok s' /\ forall x, adv x s s' [].
Proof.
  revert s j. induction k as [|k IH]; intros s j Hok Hf Hm Hj Hk.
  { exists s. split; [done|]. intros x. by apply adv_refl. }
  cbn [copy_to_queues].
  assert (exists s1, (if j =? queue then Ok s else
      let* (s, c) := take_clone s m in
      match c with Some c => hand_over s port j c | None => Ok s end) = Ok s1 /\
      forall x, adv x s s1 [])
    as (s1 & -> & A1).
  { destruct (j =? queue); [exists s; split; [done|]; intros x; by apply adv_refl|].
    apply (adv_with_clone m s (fun s c => hand_over s port j c)); try done.
    intros s1 c b Hok1 Hf1 _ Hc. apply adv_hand_over; [done|done|lia|by eexists]. }
  cbn [res_bind].
  destruct (IH s1 (j + 1) (adv_ok _ _ _ _ (A1 m)) (adv_fresh _ _ _ _ (A1 m)) (adv_self _ _ _ _ (A1 m) Hm))
    as (s2 & -> & A2); [lia..|].
  exists s2. split; [done|]. intros x. exact (adv_trans x _ _ _ [] [] (A1 x) (A2 x)).
Qed.

(** ** To the kernel *)

Lemma add_vlan_ok b :
  14 <= Z.of_nat (length (m_bytes b)) -> exists b', ff_add_vlan_tag b = Ok b'.
Proof.
  intros Hl. unfold ff_add_vlan_tag, RTE_ETHER_HDR_LEN.
  destruct (m_vlan_stripped b); [|by eexists]. destruct (_ <? sizeof_vlan_hdr); [by eexists|].
  destruct (Z.ltb_spec (Z.of_nat (length (m_bytes b))) 14); [lia|]. by eexists.
Qed.

Lemma adv_kni m s k :
  dispatch_ok s -> fresh s -> port_ok k port ->
  Permutation (mbufs k port) (mbufs (kni s) port ++ [m]) -> adv m s (with_kni s k) [m].
Proof.
  intros [H1 H2 H3 H4 H5] Hf Hk Hp. apply adv_move; try done.
  unfold held, qitems, pending in *. cbn. rewrite Hp. solve_Permutation.
Qed.

Lemma adv_to_kni e f m s b :
  dispatch_ok s -> fresh s -> mem s !! m = Some b -> 14 <= Z.of_nat (length (m_bytes b)) ->
  exists s', to_kni e s f port m = Ok s' /\ adv m s s' [m].
Proof.
  intros Hok Hf Hb Hl. unfold to_kni, pkt. rewrite Hb. cbn [res_bind].
  destruct (add_vlan_ok b Hl) as [b' ->]. cbn [res_bind].
  pose proof (adv_set m s b' Hok Hf ltac:(by eexists)) as A1.
  destruct (enqueue_spec (d_kni e) (kni (set_pkt s m b')) f port m (do_kni s Hok))
    as (k & ret & -> & Hk & _ & Hp & _). cbn [res_bind]. eexists. split; [done|].
  eapply (adv_trans m _ _ _ [] [m]); [exact A1|].
  apply adv_kni; [apply (adv_ok _ _ _ _ A1)|apply (adv_fresh _ _ _ _ A1)|done|done].
Qed.

(** ** Sending *)

Lemma count_sent_ok l s :
  (forall m, m ∈ l -> is_Some (mem s !! m)) -> exists t, count_sent s l = Ok (with_traffic s t).
Proof.
  revert s. induction l as [|m l IH]; intros s Hm.
  - exists (ff_traffic s). by destruct s.
  - cbn. unfold pkt. destruct (Hm m ltac:(left)) as [b ->]. cbn.
    destruct (IH (with_traffic s (count_tx (ff_traffic s) (m_nb_segs b) (m_pkt_len b) 0)))
      as [t ->]; [|by exists t]. intros x Hx. apply Hm. by right.
Qed.

Lemma drop_unsent_ok l s :
  (forall m, m ∈ l -> is_Some (mem s !! m)) ->
  exists t, drop_unsent s l =
    Ok (with_traffic (with_kni s (with_freed (kni s) (freed (kni s) ++ l))) t).
Proof.
  revert s. induction l as [|m l IH]; intros s Hm.
  - exists (ff_traffic s). rewrite app_nil_r. by destruct s as [[]].
  - cbn. unfold pkt. destruct (Hm m ltac:(left)) as [b ->]. cbn.
    destruct (IH (free_pkt (with_traffic s (count_tx (ff_traffic s) 0 0 (m_nb_segs b))) m))
      as [t ->]; [intros x Hx; apply Hm; by right|].
    exists t. cbn. by rewrite <- app_assoc.
Qed.

(** A full table goes out: the port's part is sent, the rest freed. *)
Lemma send_burst_ok s tb :
  is_Some (tx_queue_id s !! port) -> tx_mbufs s !! port = Some tb ->
  length (m_table tb) = Z.to_nat MAX_PKT_BURST ->
  (forall m, m ∈ m_table tb -> is_Some (mem s !! m)) ->
  exists t k d fr, send_burst tx s MAX_PKT_BURST port = Ok (with_traffic (with_kni s k) t) /\
    k = with_freed (with_nic (kni s) d (sent (kni s) ++ fr)) (freed k) /\
    Permutation ((snd <$> sent k) ++ freed k)
      ((snd <$> sent (kni s)) ++ freed (kni s) ++ m_table tb).
Proof.
  intros [q Hq] Ht Hl Hm. unfold send_burst, entry. rewrite Hq, Ht. cbn [res_bind].
  destruct (tx_burst_spec tx tx_bound (kni s) port q (m_table tb) MAX_PKT_BURST) as (d & n & Hn & _ & ->).
  { rewrite Hl. unfold MAX_PKT_BURST. lia. }
  rewrite (take_ge (m_table tb) (Z.to_nat MAX_PKT_BURST)) by lia. cbn [res_bind].
  match goal with |- context [with_kni s ?k] => set (k1 := k) end.
  destruct (count_sent_ok (take (Z.to_nat n) (m_table tb)) (with_kni s k1)) as [t1 ->].
  { intros m Hin. apply Hm. by eapply elem_of_take in Hin as (? & ? & _); eapply list_elem_of_lookup_2. }
  cbn [res_bind].
  destruct (drop_unsent_ok (drop (Z.to_nat n) (m_table tb)) (with_traffic (with_kni s k1) t1)) as [t2 ->].
  { intros m Hin. apply Hm. rewrite <- (take_drop (Z.to_nat n) (m_table tb)). apply elem_of_app. by right. }
  eexists _, _, d, _. split; [reflexivity|]. split; [reflexivity|]. cbn.
  rewrite fmap_app, snd_fmap_sent. rewrite <- (take_drop (Z.to_nat n) (m_table tb)) at 3.
  solve_Permutation.
Qed.

Lemma adv_send m s :
  dispatch_ok s -> fresh s -> is_Some (mem s !! m) ->
  exists s', send_single_packet tx s m port = Ok s' /\ adv m s s' [m].
Proof.
  intros Hok Hf Hm. pose proof Hok as [H1 H2 H3 (tb & Ht & Hlen & Hl) H5].
  unfold send_single_packet, entry. rewrite Ht. cbn [res_bind].
  unfold MAX_PKT_BURST in Hlen. rewrite array_set_lt by (rewrite Hl; unfold MAX_PKT_BURST; lia).
  cbn [res_bind]. rewrite (wrapu_small 16) by lia.
  set (tbl := <[Z.to_nat (t_len tb) := m]> (m_table tb)).
  assert (length tbl = Z.to_nat MAX_PKT_BURST) as Htl by (unfold tbl; by rewrite length_insert).
  assert (take (Z.to_nat (t_len tb + 1)) tbl = pending s ++ [m]) as Htake.
  { unfold pending. rewrite Ht. replace (Z.to_nat (t_len tb + 1)) with (S (Z.to_nat (t_len tb))) by lia.
    rewrite (take_S_r _ _ m); [unfold tbl; by rewrite take_insert_ge by lia|].
    unfold tbl. apply list_lookup_insert_eq. rewrite Hl. unfold MAX_PKT_BURST. lia. }
  destruct (Z.eqb_spec (t_len tb + 1) MAX_PKT_BURST) as [E|E].
  - assert (tbl = pending s ++ [m]) as Htbl.
    { rewrite <- Htake, take_ge; [done|]. rewrite Htl, E. done. }
    destruct (send_burst_ok (with_tx s (<[port := mk_table (t_len tb) tbl]> (tx_mbufs s)))
      (mk_table (t_len tb) tbl)) as (t & k & d & fr & -> & Hk & Hp);
      [done|cbn; by rewrite lookup_insert_eq|done| |].
    { cbn. intros x Hx. rewrite Htbl in Hx. apply elem_of_app in Hx as [Hx|Hx]; [by apply H5|].
      apply list_elem_of_singleton in Hx as ->. done. }
    cbn [res_bind]. eexists. split; [done|]. apply adv_move; try done.
    + split; cbn; try done; [rewrite Hk; by destruct H2| |].
      * eexists. rewrite lookup_insert_eq. split; [done|]. cbn. split; [|done].
        unfold MAX_PKT_BURST. lia.
      * unfold pending. cbn. rewrite lookup_insert_eq. cbn. intros x Hx.
        by apply elem_of_nil in Hx.
    + unfold held, qitems, pending, mbufs. cbn. rewrite lookup_insert_eq. cbn.
      cbn in Hp. rewrite Htbl in Hp. unfold pending in Hp. rewrite Ht in *.
      assert (kni_rp k = kni_rp (kni s) /\ kni_inject_rp k = kni_inject_rp (kni s)) as [-> ->]
        by (rewrite Hk; done).
      rewrite app_nil_r.
      rewrite Hp. solve_Permutation.
  - cbn [res_bind]. eexists. split; [done|]. apply adv_move; try done.
    + split; cbn; try done.
      * eexists. rewrite lookup_insert_eq. split; [done|]. cbn. unfold MAX_PKT_BURST in *. split; [lia|done].
      * unfold pending at 1. cbn. rewrite lookup_insert_eq. cbn. rewrite Htake.
        intros x Hx. apply elem_of_app in Hx as [Hx|Hx]; [by apply H5|].
        apply list_elem_of_singleton in Hx as ->. done.
    + unfold held, qitems. cbn. unfold pending at 1. cbn. rewrite lookup_insert_eq. cbn.
      rewrite Htake. solve_Permutation.
Qed.

(** ** One packet *)

(** A frame of at least an Ethernet header, inside of its buffer. *)
Definition frame_ok (b : mbuf) (len : Z) : Prop := 14 <= len <= Z.of_nat (length (m_bytes b)).

Lemma clone_frame b : frame_ok b (m_data_len b) -> 14 <= Z.of_nat (length (m_bytes (clone_of b))).
Proof. unfold frame_ok. intros Hb. cbn. rewrite length_take. lia. Qed.

Context (e : dispatch_env) (Hnq : nb_queues e = nq).

(** Handing the kernel its copy leaves the dispatch rings alone. *)
Lemma to_kni_rings s s' f m :
  to_kni e s f port m = Ok s' -> dispatch_ring s' = dispatch_ring s /\ stack_in s' = stack_in s.
Proof.
  unfold to_kni. intros Hs. res_inv Hs. res_inv Hs. res_inv Hs. destruct r1 as [k ret].
  injection Hs as <-. done.
Qed.

(** The kernel's copy of a packet every stack has to see. *)
Lemma kernel_copy f m s b :
  dispatch_ok s -> fresh s -> mem s !! m = Some b -> frame_ok b (m_data_len b) ->
  exists s', (if enable_kni (d_filter e) && ff_kni_is_runtime_owner (d_kni e) then
      let* (s, c) := take_clone s m in
      match c with Some c => to_kni e s f port c | None => Ok s end
      else Ok s) = Ok s' /\ (forall x, adv x s s' []) /\
    dispatch_ring s' = dispatch_ring s /\ stack_in s' = stack_in s.
Proof.
  intros Hok Hf Hb Hfr.
  destruct (_ && _); [|exists s; split; [done|]; split; [|done]; intros x; by apply adv_refl].
  destruct (adv_with_clone m s (fun s c => to_kni e s f port c)) as (s' & Hs & A);
    [done|done|by eexists| |].
  { intros s3 c b' Hok3 Hf3 Hb' Hc. rewrite Hb in Hb'. injection Hb' as <-.
    apply (adv_to_kni e f c s3 (clone_of b)); try done. by apply clone_frame. }
  exists s'. split; [done|]. split; [done|]. revert Hs. unfold take_clone, pkt.
  rewrite Hb. cbn [res_bind]. destruct (clones s) as [|[c|] l]; cbn [res_bind]; intros Hs.
  - by injection Hs as <-.
  - by apply to_kni_rings in Hs.
  - by injection Hs as <-.
Qed.

Lemma adv_to_everyone f m s b queue from_ring :
  dispatch_ok s -> fresh s -> mem s !! m = Some b -> frame_ok b (m_data_len b) -> 0 <= nq ->
  exists s', to_everyone e s f port queue m from_ring = Ok s' /\ adv m s s' [m].
Proof.
  intros Hok Hf Hb Hfr Hn. unfold to_everyone.
  assert (exists s1, (if negb from_ring then copy_to_queues (Z.to_nat (nb_queues e)) s port queue 0 m
    else Ok s) = Ok s1 /\ forall x, adv x s s1 []) as (s1 & -> & A1).
  { destruct (negb from_ring).
    - apply adv_copy_to_queues; [done|done|by eexists|lia|lia].
    - exists s. split; [done|]. intros x. by apply adv_refl. }
  pose proof (adv_keeps m _ _ _ _ A1 Hb) as Hb1. cbn [res_bind].
  pose proof (adv_ok _ _ _ _ (A1 m)) as Hok1. pose proof (adv_fresh _ _ _ _ (A1 m)) as Hf1.
  destruct (kernel_copy f m s1 b Hok1 Hf1 Hb1 Hfr) as (s2 & -> & A2 & _ & _).
  cbn [res_bind]. eexists. split; [done|].
  pose proof (adv_trans m _ _ _ [] [] (A1 m) (A2 m)) as A12.
  apply (adv_trans m _ _ _ [] [m] A12).
  apply adv_stack; [apply (adv_ok _ _ _ _ A12)|apply (adv_fresh _ _ _ _ A12)].
Qed.

Lemma adv_route fuel m s b queue len from_ring f :
  dispatch_ok s -> fresh s -> mem s !! m = Some b -> frame_ok b (m_data_len b) -> 0 <= nq ->
  protocol_filter fuel (d_filter e) (m_bytes b) len = Ok f ->
  exists s', route_packet fuel e s port queue m len from_ring = Ok s' /\ adv m s s' [m].
Proof.
  intros Hok Hf Hb Hfr Hn Hpf. unfold route_packet, pkt. rewrite Hb. cbn [res_bind].
  rewrite Hpf. cbn [res_bind].
  assert (forall f, exists s', to_kni e s f port m = Ok s' /\ adv m s s' [m]) as Hkni.
  { intros f'. apply (adv_to_kni e f' m s b); try done. destruct Hfr. lia. }
  assert (exists s', Ok (to_stack s m) = Ok s' /\ adv m s s' [m]) as Hst
    by (eexists; split; [done|by apply adv_stack]).
  assert (exists s', (if enable_kni (d_filter e) then
      match knictl_action e with
      | FF_KNICTL_ACTION_ALL_TO_KNI => to_kni e s f port m
      | FF_KNICTL_ACTION_ALL_TO_FF => Ok (to_stack s m)
      | FF_KNICTL_ACTION_DEFAULT =>
          if for_kernel e f then to_kni e s f port m else Ok (to_stack s m)
      end else Ok (to_stack s m)) = Ok s' /\ adv m s s' [m]) as Hrest.
  { destruct (enable_kni _); [|done]. destruct (knictl_action e); try done. by destruct for_kernel. }
  destruct f; try exact Hrest; by eapply adv_to_everyone.
Qed.

(** What the code expects of the application's dispatcher on a packet: it
    stays inside of the buffer, names a queue, an error or an answer, and a
    frame it leaves with the queue is one the filter answers for. *)
Record disp_ok (fuel : nat) (disp : mbuf -> Z -> Z -> list Z * Z * Z) (queue : Z) (b : mbuf) : Prop := {
  disp_mem : length (disp b queue nq).1.1 = length (m_bytes b);
  disp_ret : FF_DISPATCH_RESPONSE <= (disp b queue nq).2;
  disp_routes : (disp b queue nq).2 = queue ->
    exists f, protocol_filter fuel (d_filter e) (disp b queue nq).1.1 (disp b queue nq).1.2 = Ok f
}.

(** What [process_packet] expects of a packet it is given. *)
Record packet_ok (fuel : nat) (pd : option (mbuf -> Z -> Z -> list Z * Z * Z)) (queue : Z)
    (from_ring : bool) (b : mbuf) : Prop := {
  po_frame : frame_ok b (m_data_len b);
  po_len : m_data_len b < 65536;
  po_routes : match (if from_ring then None else pd) with
    | Some disp => disp_ok fuel disp queue b
    | None => exists f, protocol_filter fuel (d_filter e) (m_bytes b) (m_data_len b) = Ok f
    end
}.

Lemma adv_dispatch fuel disp m s b queue :
  dispatch_ok s -> fresh s -> mem s !! m = Some b -> frame_ok b (m_data_len b) ->
  disp_ok fuel disp queue b ->
  exists s' o, dispatch_packet tx e s port queue m disp = Ok (s', o) /\
    match o with
    | None => adv m s s' [m]
    | Some len => adv m s s' [] /\ exists b' f, mem s' !! m = Some b' /\ frame_ok b' (m_data_len b') /\
        protocol_filter fuel (d_filter e) (m_bytes b') len = Ok f
    end.
Proof.
  intros Hok Hf Hb Hfr [D1 D2 D3]. unfold dispatch_packet, pkt. rewrite Hb. cbn [res_bind].
  rewrite Hnq. destruct (disp b queue nq) as [[bytes len] ret]. cbn in D1, D2, D3.
  unfold FF_DISPATCH_RESPONSE, FF_DISPATCH_ERROR, frame_ok in *.
  match goal with |- context [set_pkt s m ?x] => set (b1 := x) end.
  assert (is_Some (mem s !! m)) as Hm by by eexists.
  pose proof (adv_set m s b1 Hok Hf Hm) as A1.
  pose proof (adv_ok _ _ _ _ A1) as Hok1. pose proof (adv_fresh _ _ _ _ A1) as Hf1.
  pose proof (adv_self _ _ _ _ A1 Hm) as Hm1.
  destruct (Z.eqb_spec ret (-2)) as [->|Hr2].
  { match goal with |- context [ff_add_vlan_tag ?x] => destruct (add_vlan_ok x) as [b2 ->] end.
    { cbn. lia. }
    cbn [res_bind]. pose proof (adv_set m _ b2 Hok1 Hf1 Hm1) as A2.
    destruct (adv_send m _ (adv_ok _ _ _ _ A2) (adv_fresh _ _ _ _ A2) (adv_self _ _ _ _ A2 Hm1))
      as (s3 & -> & A3). cbn [res_bind]. eexists _, None. split; [done|].
    exact (adv_trans m _ _ _ [] [m] A1 (adv_trans m _ _ _ [] [m] A2 A3)). }
  destruct ((ret =? -1) || (nq <=? ret)) eqn:Herr.
  { eexists _, None. split; [done|].
    exact (adv_trans m _ _ _ [] [m] A1 (adv_free m _ Hok1 Hf1)). }
  apply orb_false_iff in Herr as [Hr1%Z.eqb_neq Hrn%Z.leb_gt].
  destruct (Z.eqb_spec ret queue) as [->|Hq]; cbn [negb].
  - eexists _, (Some len). split; [done|]. split; [exact A1|].
    destruct (D3 eq_refl) as [f Hpf]. exists b1, f. cbn. rewrite lookup_insert_eq.
    split; [done|]. split; [lia|done].
  - destruct (adv_hand_over m _ ret Hok1 Hf1 ltac:(lia) Hm1) as (s3 & -> & A3).
    cbn [res_bind]. eexists _, None. split; [done|]. exact (adv_trans m _ _ _ [] [m] A1 A3).
Qed.

Lemma adv_process_packet fuel pd m s b queue from_ring :
  dispatch_ok s -> fresh s -> mem s !! m = Some b -> 0 <= nq -> packet_ok fuel pd queue from_ring b ->
  exists s', process_packet tx pd fuel e s port queue m from_ring = Ok s' /\ adv m s s' [m].
Proof.
  intros Hok Hf Hb Hn [P1 P2 P3]. unfold process_packet, pkt. rewrite Hb. cbn [res_bind].
  assert (exists v, (if negb from_ring && (0 <? mbuf_low_watermark e) && (avail s <? mbuf_low_watermark e)
    then is_tcp_syn (m_bytes b) (m_data_len b) else Ok false) = Ok v) as [v ->].
  { destruct (_ && _); [|by eexists]. unfold frame_ok in P1. apply is_tcp_syn_in; lia. }
  cbn [res_bind]. destruct v; [eexists; split; [done|by apply adv_drop_rx]|].
  set (s1 := if negb from_ring then _ else s).
  assert (adv m s s1 [] /\ mem s1 !! m = Some b) as [A1 Hb1].
  { unfold s1. destruct (negb from_ring); [split; [by apply adv_traffic|done]|].
    split; [by apply adv_refl|done]. }
  pose proof (adv_ok _ _ _ _ A1) as Hok1. pose proof (adv_fresh _ _ _ _ A1) as Hf1.
  assert ((exists f, protocol_filter fuel (d_filter e) (m_bytes b) (m_data_len b) = Ok f) ->
    exists s', route_packet fuel e s1 port queue m (m_data_len b) from_ring = Ok s' /\ adv m s s' [m])
    as Hroute.
  { intros [f Hpf]. destruct (adv_route fuel m s1 b queue (m_data_len b) from_ring f) as (s2 & -> & A2);
      try done. eexists. split; [done|]. exact (adv_trans m _ _ _ [] [m] A1 A2). }
  destruct pd as [disp|]; [|apply Hroute; by destruct from_ring].
  destruct from_ring; [by apply Hroute|]. cbn [negb].
  destruct (adv_dispatch fuel disp m s1 b queue Hok1 Hf1 Hb1 P1 P3) as (s2 & o & -> & Ho).
  cbn [res_bind]. destruct o as [len|].
  - destruct Ho as (A2 & b' & f & Hb' & Hfr' & Hpf).
    pose proof (adv_trans m _ _ _ [] [] A1 A2) as A12.
    destruct (adv_route fuel m s2 b' queue len false f) as (s3 & -> & A3); try done;
      [apply (adv_ok _ _ _ _ A2)|apply (adv_fresh _ _ _ _ A2)|].
    eexists. split; [done|]. exact (adv_trans m _ _ _ [] [m] A12 A3).
  - eexists. split; [done|]. exact (adv_trans m _ _ _ [] [m] A1 Ho).
Qed.

(** ** A batch of packets *)

(** The batch [bufs] and [used] copies went somewhere. *)
Record settled s s' (bufs : list Z) : Prop := {
  st_ok : dispatch_ok s';
  st_fresh : fresh s';
  st_held : exists used, clones s = used ++ clones s' /\
    Permutation (held s') (held s ++ bufs ++ omap id used)
}.

Lemma process_packets_settle fuel pd bufs s queue from_ring :
  dispatch_ok s -> fresh s -> 0 <= nq -> NoDup bufs ->
  (forall m, m ∈ bufs -> exists b, mem s !! m = Some b /\ packet_ok fuel pd queue from_ring b) ->
  exists s', process_packets tx pd fuel e s port queue bufs from_ring = Ok s' /\ settled s s' bufs.
Proof.
  revert s. induction bufs as [|m bufs IH]; intros s Hok Hf Hn Hnd Hb.
  { exists s. split; [done|]. split; try done. exists []. cbn. by rewrite app_nil_r. }
  apply NoDup_cons in Hnd as [Hnin Hnd]. cbn [process_packets].
  destruct (Hb m ltac:(left)) as (b & Hm & Hp).
  destruct (adv_process_packet fuel pd m s b queue from_ring Hok Hf Hm Hn Hp) as (s1 & -> & A1).
  destruct A1 as [O1 F1 X1 _ (u1 & C1 & P1)]. cbn [res_bind].
  destruct (IH s1 O1 F1 Hn Hnd) as (s2 & -> & [O2 F2 (u2 & C2 & P2)]).
  { intros x Hx. destruct (Hb x ltac:(by right)) as (b' & Hx' & Hp'). exists b'. split; [|done].
    apply X1; [by intros ->|done]. }
  exists s2. split; [done|]. split; try done. exists (u1 ++ u2). rewrite C1, C2, <- app_assoc.
  split; [done|]. rewrite P2, P1, omap_app. solve_Permutation.
Qed.

(** Taking packets off a dispatch ring leaves them to be put somewhere. *)
Lemma held_dequeue s queue r r' n :
  dispatch_ok s -> 0 <= queue < nq -> dispatch_ring s !! (port, queue) = Some r -> fifo_ok r' ->
  fifo_items r' = drop n (fifo_items r) ->
  let s1 := with_rings s (<[(port, queue) := r']> (dispatch_ring s)) in
  dispatch_ok s1 /\ Permutation (held s) (held s1 ++ take n (fifo_items r)).
Proof.
  intros Hok Hq Hr Hr' Hit s1. split.
  - destruct Hok as [H1 H2 H3 H4 H5]. split; try done. intros i Hi. cbn.
    destruct (decide (i = queue)) as [->|Hne]; [exists r'; by rewrite lookup_insert_eq|].
    rewrite lookup_insert_ne by congruence. auto.
  - unfold held. replace (mbufs (kni s1) port ++ stack_in s1 ++ pending s1)
      with (mbufs (kni s) port ++ stack_in s ++ pending s) by done.
    enough (Permutation (concat (qitems s <$> seqZ 0 nq))
      (concat (qitems s1 <$> seqZ 0 nq) ++ take n (fifo_items r))) as -> by solve_Permutation.
    assert (queue ∈ seqZ 0 nq) as Hin by (apply elem_of_seqZ; lia).
    apply list_elem_of_split in Hin as (l1 & l2 & Hl). pose proof (NoDup_seqZ 0 nq) as Hnd.
    rewrite Hl in *. rewrite !fmap_app, !fmap_cons, !concat_app. cbn.
    apply NoDup_app in Hnd as (_ & Hd & Hnd2). apply NoDup_cons in Hnd2 as [Hn2 _].
    assert (forall l : list Z, queue ∉ l -> qitems s1 <$> l = qitems s <$> l) as Hsame.
    { intros l Hl'. apply list_fmap_ext. intros k i Hi. apply list_elem_of_lookup_2 in Hi.
      unfold qitems. cbn. rewrite lookup_insert_ne; [done|]. intros [=]. by subst. }
    rewrite !Hsame; [|done|intros Hx; apply (Hd _ Hx); left].
    unfold qitems at 2 5. cbn. rewrite lookup_insert_eq, Hr, Hit.
    rewrite <- (take_drop n (fifo_items r)) at 1. solve_Permutation.
Qed.

Lemma process_dispatch_ring_settle fuel pd s queue r tbl :
  dispatch_ok s -> fresh s -> 0 <= queue < nq -> dispatch_ring s !! (port, queue) = Some r ->
  MAX_PKT_BURST <= Z.of_nat (length tbl) -> NoDup (fifo_items r) ->
  (forall m, m ∈ fifo_items r -> exists b, mem s !! m = Some b /\ packet_ok fuel pd queue true b) ->
  let n := Z.min MAX_PKT_BURST (Z.of_nat (length (fifo_items r))) in
  exists s', process_dispatch_ring tx pd fuel e s port queue tbl = Ok (s', n) /\ settled s s' [].
Proof.
  intros Hok Hf Hq Hr Htbl Hnd Hb n. unfold process_dispatch_ring. rewrite Hr. cbn [res_bind].
  destruct (do_rings s Hok queue Hq) as (r0 & Hr0 & Hrok). rewrite Hr in Hr0. injection Hr0 as <-.
  unfold MAX_PKT_BURST in *.
  destruct (fifo_dequeue_burst_spec r tbl 32 Hrok ltac:(lia)) as (r' & m & av & -> & Hok' & _ & Hm & Hit).
  assert (m = n) as -> by (rewrite Hm; unfold burst_min, n; lia).
  cbn [res_bind]. rewrite (wrapu_small 16) by lia.
  destruct (held_dequeue s queue r r' (Z.to_nat n) Hok Hq Hr Hok' Hit) as [Hok1 Hp].
  assert (fresh (with_rings s (<[(port, queue) := r']> (dispatch_ring s)))) as Hf1 by by destruct Hf.
  rewrite take_app_le, take_take, Nat.min_id by (rewrite length_take; lia).
  destruct (Z.ltb_spec 0 n) as [Hpos|Hz].
  - destruct (process_packets_settle fuel pd (take (Z.to_nat n) (fifo_items r)) _ queue true Hok1 Hf1)
      as (s2 & -> & [O2 F2 (u & C2 & P2)]); [lia|by eapply sublist_NoDup, sublist_take| |].
    { intros x Hx. cbn. apply Hb. by eapply elem_of_take in Hx as (? & ? & _); eapply list_elem_of_lookup_2. }
    eexists. split; [done|]. split; try done. exists u. split; [done|]. rewrite P2, Hp. solve_Permutation.
  - eexists. split; [done|]. split; try done. exists []. split; [done|]. rewrite Hp.
    replace (Z.to_nat n) with O by lia. cbn. rewrite !app_nil_r. done.
Qed.

(** ** Packets every stack has to see *)

Definition room s (j : Z) : Prop :=
  exists r, dispatch_ring s !! (port, j) = Some r /\
    Z.of_nat (length (fifo_items r)) < fifo_capacity r.

Lemma hand_over_room s j m :
  dispatch_ok s -> 0 <= j < nq -> room s j ->
  exists r', hand_over s port j m = Ok (with_rings s (<[(port, j) := r']> (dispatch_ring s))) /\
    fifo_items r' = qitems s j ++ [m].
Proof.
  intros Hok Hj (r & Hr & Hroom). destruct (do_rings s Hok j Hj) as (r0 & Hr0 & Hrok).
  rewrite Hr in Hr0. injection Hr0 as <-. unfold hand_over, enqueue_ring, qitems. rewrite Hr.
  cbn [res_bind]. destruct (fifo_enqueue_spec r m Hrok) as (r' & ec & -> & _ & _ & He).
  rewrite decide_True in He by done. destruct He as [-> Hit]. by exists r'.
Qed.

(** Every other queue of [j .. j + k) got a copy. *)
Record copied (queue m : Z) (b : mbuf) (j : Z) (k : nat) s s' : Prop := {
  cp_new : forall i, j <= i < j + Z.of_nat k -> i <> queue ->
    exists c, qitems s' i = qitems s i ++ [c] /\ mem s' !! c = Some (clone_of b);
  cp_old : forall i, (i < j \/ j + Z.of_nat k <= i \/ i = queue) -> qitems s' i = qitems s i;
  cp_stack : stack_in s' = stack_in s
}.

Lemma copy_to_queues_all k s queue j m b cs rest :
  dispatch_ok s -> fresh s -> mem s !! m = Some b -> 0 <= j -> j + Z.of_nat k <= nq ->
  (forall i, j <= i < j + Z.of_nat k -> i <> queue -> room s i) ->
  clones s = (Some <$> cs) ++ rest -> (k <= length cs)%nat ->
  exists s', copy_to_queues k s port queue j m = Ok s' /\ copied queue m b j k s s'.
Proof.
  revert s j cs. induction k as [|k IH]; intros s j cs Hok Hf Hb Hj Hk Hroom Hcs Hlen.
  { exists s. split; [done|]. split; [lia|done|done]. }
  cbn [copy_to_queues]. destruct (Z.eqb_spec j queue) as [->|Hne].
  - cbn [res_bind]. destruct (IH s (queue + 1) cs) as (s' & -> & [C1 C2 C3]); try done; try lia.
    { intros i Hi Hiq. apply Hroom; lia. }
    exists s'. split; [done|]. split.
    + intros i Hi Hiq. apply C1; lia.
    + intros i Hi. apply C2. lia.
    + done.
  - destruct cs as [|c cs]; [cbn in Hlen; lia|]. cbn in Hcs, Hlen.
    destruct (cloned_ok c _ (clone_of b) s Hok Hf Hcs) as (Hnew & Hok1 & Hf1 & Hc1).
    unfold take_clone, pkt. rewrite Hb, Hcs. cbn [res_bind].
    set (s1 := set_pkt (with_clones s ((Some <$> cs) ++ rest)) c (clone_of b)) in *.
    destruct (adv_hand_over c s1 j Hok1 Hf1 ltac:(lia) Hc1) as (s2 & Hs2 & A2).
    destruct (hand_over_room s1 j c Hok1 ltac:(lia)) as (r' & Hs2' & Hit).
    { destruct (Hroom j ltac:(lia) Hne) as (r & Hr & Hlt). by exists r. }
    rewrite Hs2. cbn [res_bind].
    assert (s2 = with_rings s1 (<[(port, j) := r']> (dispatch_ring s1))) as Es2 by congruence.
    assert (mem s2 !! m = Some b) as Hb2.
    { rewrite Es2. cbn. rewrite lookup_insert_ne; [done|]. intros ->. congruence. }
    destruct A2 as [O2 F2 _ _ _].
    assert (forall i, i <> j -> qitems s2 i = qitems s i) as Hq.
    { intros i Hi. rewrite Es2. unfold qitems. cbn. by rewrite lookup_insert_ne by congruence. }
    destruct (adv_copy_to_queues k m s2 queue (j + 1)) as (s3 & Hs3 & A3); [done|done|by eexists|lia|lia|].
    destruct (IH s2 (j + 1) cs) as (s3' & Hs3' & [C1 C2 C3]); try done; try lia.
    { intros i Hi Hiq. destruct (Hroom i ltac:(lia) Hiq) as (r & Hr & Hlt). exists r. split; [|done].
      rewrite Es2. cbn. by rewrite lookup_insert_ne by (intros [=]; lia). }
    { by rewrite Es2. }
    rewrite Hs3 in Hs3'. injection Hs3' as <-. exists s3. split; [done|]. split.
    + intros i Hi Hiq. destruct (decide (i = j)) as [->|Hij].
      * exists c. rewrite C2 by lia. split.
        { rewrite Es2. unfold qitems at 1. cbn. by rewrite lookup_insert_eq. }
        apply (adv_keeps c _ _ _ _ A3). rewrite Es2. cbn. by rewrite lookup_insert_eq.
      * destruct (C1 i ltac:(lia) Hiq) as (c' & Hc' & Hmc). exists c'. by rewrite Hc', Hq.
    + intros i Hi. rewrite C2 by lia. apply Hq. lia.
    + by rewrite C3, Es2.
Qed.

(** Every stack of the port has the packet: this one the packet itself, the
    others a copy of the frame, at the end of their rings. *)
Definition seen_by_all (queue m : Z) (b : mbuf) s s' : Prop :=
  (forall j, 0 <= j < nq ->
     if decide (j = queue) then qitems s' j = qitems s j
     else exists c, qitems s' j = qitems s j ++ [c] /\ mem s' !! c = Some (clone_of b)) /\
  stack_in s' = stack_in s ++ [m].

Lemma to_everyone_copies f m s b queue cs rest :
  dispatch_ok s -> fresh s -> mem s !! m = Some b -> frame_ok b (m_data_len b) -> 0 <= nq ->
  (forall i, 0 <= i < nq -> i <> queue -> room s i) ->
  clones s = (Some <$> cs) ++ rest -> nq <= Z.of_nat (length cs) ->
  exists s', to_everyone e s f port queue m false = Ok s' /\
    seen_by_all queue m b s s'.
Proof.
  intros Hok Hf Hb Hfr Hn Hroom Hcs Hlen.
  destruct (adv_copy_to_queues (Z.to_nat nq) m s queue 0) as (s1 & Hs1 & A1); [done|done|by eexists|lia|lia|].
  destruct (copy_to_queues_all (Z.to_nat nq) s queue 0 m b cs rest) as (s1' & Hs1' & [C1 C2 C3]);
    try done; [lia|intros; apply Hroom; lia|lia|].
  rewrite Hs1 in Hs1'. injection Hs1' as <-.
  pose proof (adv_keeps m _ _ _ _ A1 Hb) as Hb1.
  pose proof (adv_ok _ _ _ _ (A1 m)) as Hok1. pose proof (adv_fresh _ _ _ _ (A1 m)) as Hf1.
  unfold to_everyone. cbn [negb]. rewrite Hnq, Hs1. cbn [res_bind].
  destruct (kernel_copy f m s1 b Hok1 Hf1 Hb1 Hfr) as (s2 & -> & A2 & Hr2 & Hst2).
  cbn [res_bind]. eexists. split; [done|].
  assert (forall i, qitems (to_stack s2 m) i = qitems s1 i) as Hqi
    by (intros i; unfold qitems; cbn; by rewrite Hr2).
  split; [|cbn; by rewrite Hst2, C3].
  intros i Hi. rewrite Hqi. destruct (decide (i = queue)) as [->|Hiq]; [apply C2; lia|].
  destruct (C1 i ltac:(lia) Hiq) as (c & Hc & Hmc). exists c. split; [done|].
  cbn. by apply (adv_keeps c _ _ _ _ A2).
Qed.
End Dispatch.

(** ** The VLAN tag *)

(** The tagged frame carries what the untagged one does. *)
Lemma tag_carries b b' len ty d l :
  ff_add_vlan_tag b = Ok b' -> m_vlan_stripped b = true -> 4 <= m_headroom b ->
  14 <= len -> carries (m_bytes b) len ty d l -> ty <> RTE_ETHER_TYPE_VLAN -> l = len - 14 ->
  d = advance (m_bytes b) 14 ->
  carries (m_bytes b') (len + 4) ty d l /\ byte_at (m_bytes b') 0 = byte_at (m_bytes b) 0.
Proof.
  intros Hb Hs Hh Hlen Hc Hty -> ->. unfold ff_add_vlan_tag, sizeof_vlan_hdr in Hb. rewrite Hs in Hb.
  destruct (Z.ltb_spec (m_headroom b) 4); [lia|].
  destruct (Z.ltb_spec (Z.of_nat (length (m_bytes b))) RTE_ETHER_HDR_LEN) as [|Hmem]; [done|].
  unfold RTE_ETHER_HDR_LEN in Hmem. injection Hb as <-. cbn [m_bytes].
  destruct b as [data dl pl ns hr vs tci]. cbn [m_bytes m_vlan_tci] in *.
  do 12 (destruct data as [|? data]; [cbn in Hmem; lia|]).
  cbn [take drop app firstn skipn]. split; [|done].
  replace (len - 14) with (len + 4 - 18) by lia.
  match goal with |- carries ?x _ _ ?y _ => replace y with (advance x 18) by done end.
  apply carries_tagged; [done|].
  match goal with Hc : carries ?x _ _ _ _ |- _ =>
    assert (be16_at x 12 = Ok ty) as Hx by (inversion Hc; [done|lia]) end.
  done.
Qed.

(** ** Properties *)

(** C4: no packet is lost or doubled by [process_packets]: on a batch of
    packets from a receive queue or from a dispatch ring, with or without an
    application dispatcher and whatever the port takes, and on which the
    kernel path's filter gives an answer ([kni_filter_terminates] says when),
    it returns, and every
    packet of the batch and every copy it made is then in exactly one place,
    once: a dispatch ring, the kernel path, the stack, the next burst, given
    to a port, or freed; what was held before is held still. *)
Theorem dispatch_no_packet_lost {R} `{Fifo R} {Nic} (tx : Nic -> Z -> Z -> list Z -> Nic * Z)
    pd e (s : dstate (R := R) (Nic := Nic)) port queue bufs from_ring fuel :
  (forall d p q l, 0 <= (tx d p q l).2 <= Z.of_nat (length l)) ->
  0 <= nb_queues e -> dispatch_ok port (nb_queues e) s -> fresh s -> NoDup bufs ->
  (forall m, m ∈ bufs -> exists b, mem s !! m = Some b /\
     packet_ok (nb_queues e) e fuel pd queue from_ring b) ->
  exists s' used, process_packets tx pd fuel e s port queue bufs from_ring = Ok s' /\
    dispatch_ok port (nb_queues e) s' /\ fresh s' /\ clones s = used ++ clones s' /\
    Permutation (held port (nb_queues e) s') (held port (nb_queues e) s ++ bufs ++ omap id used).
Proof.
  intros Htx Hn Hok Hf Hnd Hb.
  destruct (process_packets_settle tx Htx port (nb_queues e) e eq_refl fuel pd bufs s queue from_ring)
    as (s' & Hs & [O F (used & C & P)]); try done. by exists s', used.
Qed.

(** [process_dispatch_ring] takes the first packets of the thread's own
    ring, at most a burst of them, and puts each somewhere: every packet of
    the port is still in exactly one place, with the copies made. *)
Theorem dispatch_ring_no_packet_lost {R} `{Fifo R} {Nic} (tx : Nic -> Z -> Z -> list Z -> Nic * Z)
    pd e (s : dstate (R := R) (Nic := Nic)) port queue r tbl fuel :
  (forall d p q l, 0 <= (tx d p q l).2 <= Z.of_nat (length l)) ->
  0 <= queue < nb_queues e -> dispatch_ok port (nb_queues e) s -> fresh s ->
  dispatch_ring s !! (port, queue) = Some r -> NoDup (fifo_items r) ->
  MAX_PKT_BURST <= Z.of_nat (length tbl) ->
  (forall m, m ∈ fifo_items r -> exists b, mem s !! m = Some b /\
     packet_ok (nb_queues e) e fuel pd queue true b) ->
  exists s' used, process_dispatch_ring tx pd fuel e s port queue tbl =
      Ok (s', Z.min MAX_PKT_BURST (Z.of_nat (length (fifo_items r)))) /\
    clones s = used ++ clones s' /\
    Permutation (held port (nb_queues e) s') (held port (nb_queues e) s ++ omap id used).
Proof.
  intros Htx Hq Hok Hf Hr Hnd Htbl Hb.
  destruct (process_dispatch_ring_settle tx Htx port (nb_queues e) e eq_refl fuel pd s queue r tbl)
    as (s' & Hs & [O F (used & C & P)]); try done. by exists s', used.
Qed.

(** A packet the filter calls ARP or NDP, received from the NIC, reaches
    every stack of the port: when the pool has the copies and the rings have
    room, each other queue's ring gets one copy of the frame at its end, and
    the thread's own stack gets the packet. *)
Theorem arp_reaches_every_stack {R} `{Fifo R} {Nic} (tx : Nic -> Z -> Z -> list Z -> Nic * Z)
    e (s : dstate (R := R) (Nic := Nic)) port queue m b cs rest f fuel :
  0 <= nb_queues e -> dispatch_ok port (nb_queues e) s -> fresh s ->
  mem s !! m = Some b -> frame_ok b (m_data_len b) ->
  is_tcp_syn (m_bytes b) (m_data_len b) = Ok false ->
  protocol_filter fuel (d_filter e) (m_bytes b) (m_data_len b) = Ok f ->
  f = FILTER_ARP \/ f = FILTER_NDP ->
  (forall j, 0 <= j < nb_queues e -> j <> queue -> room port s j) ->
  clones s = (Some <$> cs) ++ rest -> nb_queues e <= Z.of_nat (length cs) ->
  exists s', process_packet tx None fuel e s port queue m false = Ok s' /\
    seen_by_all port (nb_queues e) queue m b s s'.
Proof.
  intros Hn Hok Hf Hb Hfr Hsyn Hpf Hfil Hroom Hcs Hlen.
  unfold process_packet, pkt. rewrite Hb. cbn [res_bind].
  assert ((if negb false && (0 <? mbuf_low_watermark e) && (avail s <? mbuf_low_watermark e)
    then is_tcp_syn (m_bytes b) (m_data_len b) else Ok false) = Ok false) as ->
    by (destruct (_ && _); done).
  cbn [res_bind negb]. set (s1 := with_traffic s _).
  assert (dispatch_ok port (nb_queues e) s1) as Hok1 by by eapply ok_eq.
  assert (fresh s1) as Hf1 by (destruct Hf; by split).
  destruct (to_everyone_copies port (nb_queues e) e eq_refl f m s1 b queue cs rest) as (s' & Hs' & Hall);
    try done.
  exists s'. split; [|done]. unfold route_packet, pkt. replace (mem s1 !! m) with (Some b) by done.
  cbn [res_bind]. rewrite Hpf. cbn [res_bind]. destruct Hfil as [-> | ->]; done.
Qed.

(** The VLAN tag [ff_add_vlan_tag] puts back does not change how a frame
    is classified: the filter says the same of the tagged frame as of the
    untagged one, with any fuel. *)
Theorem vlan_tag_transparent e b b' fuel ty :
  ff_add_vlan_tag b = Ok b' -> m_vlan_stripped b = true -> 4 <= m_headroom b ->
  14 <= m_data_len b < 65532 -> be16_at (m_bytes b) 12 = Ok ty -> ty <> RTE_ETHER_TYPE_VLAN ->
  m_data_len b' = m_data_len b + 4 /\
  protocol_filter fuel e (m_bytes b') (m_data_len b') = protocol_filter fuel e (m_bytes b) (m_data_len b).
Proof.
  intros Hb Hs Hh Hlen H12 Hty.
  assert (m_data_len b' = m_data_len b + 4) as ->.
  { unfold ff_add_vlan_tag, sizeof_vlan_hdr in Hb. rewrite Hs in Hb.
    destruct (Z.ltb_spec (m_headroom b) 4); [lia|]. destruct (_ <? RTE_ETHER_HDR_LEN); [done|].
    injection Hb as <-. cbn. apply wrapu_small. lia. }
  split; [done|].
  pose proof (carries_plain (m_bytes b) (m_data_len b) ty H12 Hty) as Hc.
  destruct (tag_carries b b' (m_data_len b) ty _ _ Hb Hs Hh ltac:(lia) Hc Hty eq_refl eq_refl) as [Hc' H0'].
  destruct (m_bytes b) as [|d0 data] eqn:Hd; [done|].
  rewrite (filter_carries fuel e _ _ ty _ _ d0 Hc) by (first [lia|done]).
  apply filter_carries; [done|lia|lia|]. by rewrite H0'.
Qed.

(** On a frame long enough for its Ethernet header and its VLAN tag,
    with two bytes of memory behind it, [protocol_filter] reads nothing
    outside and answers within two steps for each byte, unless what the frame
    carries makes the header walk start over for ever; ARP is always told
    from the rest, and multicast from what is left. *)
Theorem filter_answers e data len :
  env_ok e -> pkt_ok data len -> 14 <= len ->
  (be16_at data 12 = Ok RTE_ETHER_TYPE_VLAN -> 18 <= len) ->
  exists ty d l d0, carries data len ty d l /\ byte_at data 0 = Ok d0 /\
    ((exists f, (forall fuel, (2 * Z.to_nat len + 2 <= fuel)%nat ->
        protocol_filter fuel e data len = Ok f) /\
        (ty = RTE_ETHER_TYPE_ARP -> f = FILTER_ARP) /\
        (ty <> RTE_ETHER_TYPE_ARP -> Z.testbit d0 0 = true -> f = FILTER_MULTI)) \/
     loops (d, l, ty)).
Proof.
  intros He Hp Hlen Hv. pose proof Hp as [Hr Hm _].
  destruct (frame_carries data len Hlen ltac:(lia) Hv) as (ty & d & l & Hc & Hl & Hll & Hd).
  destruct (byte_at_in data 0 ltac:(lia)) as [d0 H0].
  exists ty, d, l, d0. split; [done|]. split; [done|].
  assert (forall fuel, protocol_filter fuel e data len = classify fuel e ty d l (Z.testbit d0 0)) as Heq
    by (intros fuel; apply filter_carries; [done|lia|lia|done]).
  unfold classify in Heq. destruct (Z.eqb_spec ty RTE_ETHER_TYPE_ARP) as [->|Harp].
  { left. exists FILTER_ARP. by split. }
  destruct (Z.testbit d0 0).
  { left. exists FILTER_MULTI. split; [done|]. split; [lia|done]. }
  destruct (_ || _).
  2:{ left. exists FILTER_UNKNOWN. split; [done|]. split; [lia|done]. }
  assert (pkt_ok d l) as Hpd.
  { rewrite Hd. replace l with (u16 (len - (len - l))) by (rewrite wrapu_small; lia).
    rewrite (wrapu_small 16) at 1 by lia. replace (len - (len - l)) with l at 1 by lia.
    apply pkt_advance; [done|lia]. }
  assert (walk_measure l ty < 2 * Z.to_nat len + 2)%nat as Hw by (unfold walk_measure; case_decide; lia).
  destruct (filter_dichotomy _ e d l ty Hw He Hpd) as [[f Hf]|[Hlo _]]; [left|by right].
  exists f. split; [|split; [lia|done]]. intros fuel Hfuel. rewrite Heq. by apply Hf.
Qed.

(** ** Short frames *)

(** [protocol_filter] asks for the 6 bytes of an address where it reads the 14
    of a header: a frame of 6 to 13 bytes whose type, read behind its end, is
    IPv4 or IPv6 is walked with a length that wrapped around. *)
Lemma short_frame_wraps fuel e data len ty d0 :
  6 <= len < 14 -> be16_at data 12 = Ok ty -> byte_at data 0 = Ok d0 -> Z.testbit d0 0 = false ->
  ty = RTE_ETHER_TYPE_IPV6 \/ enable_kni e = true /\ ty = RTE_ETHER_TYPE_IPV4 ->
  protocol_filter fuel e data len = ff_kni_proto_filter fuel e (advance data 14) (65522 + len) ty.
Proof.
  intros Hl H12 H0 Hm Hty. unfold protocol_filter, RTE_ETHER_ADDR_LEN, RTE_ETHER_HDR_LEN.
  destruct (Z.ltb_spec len 6); [lia|]. rewrite H12, H0. cbn [res_bind]. rewrite Hm.
  replace (u16 (len - 14)) with (65522 + len)
    by (unfold wrapu; rewrite <- (Z.mod_add (len - 14) 1) by lia;
        symmetry; change (2 ^ 16) with 65536; rewrite Z.mod_small; lia).
  destruct Hty as [-> | [He ->]]; [done|]. cbn. by rewrite He.
Qed.

(** ** Witnesses *)

Definition arp_frame : list Z :=
  [255; 255; 255; 255; 255; 255; 2; 0; 0; 0; 0; 1; 8; 6] ++ replicate 28 0.
Definition demo_arp : mbuf := mk_mbuf arp_frame 42 42 1 128 false 0.

Definition demo_env : dispatch_env :=
  mk_dispatch_env empty_env demo_cfg false FF_KNICTL_ACTION_DEFAULT 0 2.

(** Two queues; packet 10 is an ARP frame, the pool has two mbufs. *)
Definition demo_dstate (r0 : Ring.rte_ring) : dstate (R := Ring.rte_ring) (Nic := list Z) :=
  mk_dstate demo_state (<[(0, 0) := r0]> {[(0, 1) := example_ring]}) {[10 := demo_arp]}
    {[0 := mk_table 0 (replicate 32 0)]} {[0 := 0]} (mk_traffic 0 0 0 0 0 0) [] 100 [Some 20; Some 21].

Lemma demo_ring_ok : ring_ok example_ring.
Proof. destruct demo_port_ok as [(r & Hr & Hok) _ _]. cbn in Hr. by injection Hr as <-. Qed.

Lemma demo_dispatch_ok r0 : ring_ok r0 -> dispatch_ok 0 2 (demo_dstate r0).
Proof.
  intros Hr0. split.
  - intros j Hj. assert (j = 0 \/ j = 1) as [-> | ->] by lia.
    + exists r0. split; [apply lookup_insert_eq|done].
    + exists example_ring. split; [|exact demo_ring_ok]. cbn. rewrite lookup_insert_ne by done. done.
  - exact demo_port_ok.
  - by eexists.
  - eexists. split; [reflexivity|]. cbn. unfold MAX_PKT_BURST. lia.
  - intros m Hm. by apply elem_of_nil in Hm.
Qed.

Lemma demo_fresh r0 : fresh (demo_dstate r0).
Proof.
  split.
  - cbn. repeat constructor; rewrite ?elem_of_cons, ?elem_of_nil; naive_solver.
  - intros c Hc. cbn in Hc. rewrite !elem_of_cons, elem_of_nil in Hc.
    destruct Hc as [[= ->]|[[= ->]|[]]]; done.
Qed.

Lemma demo_packet_ok queue from_ring : packet_ok 2 demo_env 5 None queue from_ring demo_arp.
Proof.
  split; [cbn; unfold frame_ok; cbn; lia|cbn; lia|].
  destruct from_ring; (exists FILTER_ARP; vm_compute; reflexivity).
Qed.

Lemma dispatch_no_packet_lost_witness :
  exists s' used, process_packets demo_tx None 5 demo_env (demo_dstate example_ring) 0 0 [10] false = Ok s' /\
    dispatch_ok 0 2 s' /\ fresh s' /\ clones (demo_dstate example_ring) = used ++ clones s' /\
    Permutation (held 0 2 s') (held 0 2 (demo_dstate example_ring) ++ [10] ++ omap id used).
Proof.
  apply (dispatch_no_packet_lost demo_tx None demo_env (demo_dstate example_ring) 0 0 [10] false 5).
  - exact demo_tx_bound.
  - cbn. lia.
  - apply demo_dispatch_ok, demo_ring_ok.
  - apply demo_fresh.
  - apply NoDup_singleton.
  - intros m Hm. apply list_elem_of_singleton in Hm as ->. exists demo_arp.
    split; [reflexivity|apply demo_packet_ok].
Defined.

Definition demo_one : Ring.rte_ring :=
  match fifo_enqueue example_ring 10 with Ok (r, _) => r | _ => example_ring end.

Lemma demo_one_ok : ring_ok demo_one /\ fifo_items demo_one = [10].
Proof.
  assert (fifo_ok example_ring) as Hex by exact demo_ring_ok.
  destruct (fifo_enqueue_spec example_ring 10 Hex) as (r & ec & Hr & Hok & _ & He).
  unfold demo_one. rewrite Hr. split; [done|]. rewrite decide_True in He by (vm_compute; reflexivity).
  destruct He as [_ ->]. vm_compute. reflexivity.
Qed.

Lemma dispatch_ring_no_packet_lost_witness :
  exists s' used, process_dispatch_ring demo_tx None 5 demo_env (demo_dstate demo_one) 0 0 (replicate 32 0) =
      Ok (s', Z.min MAX_PKT_BURST (Z.of_nat (length (fifo_items demo_one)))) /\
    clones (demo_dstate demo_one) = used ++ clones s' /\
    Permutation (held 0 2 s') (held 0 2 (demo_dstate demo_one) ++ omap id used).
Proof.
  apply (dispatch_ring_no_packet_lost demo_tx None demo_env (demo_dstate demo_one) 0 0 demo_one
    (replicate 32 0) 5).
  - exact demo_tx_bound.
  - cbn. lia.
  - apply demo_dispatch_ok, demo_one_ok.
  - apply demo_fresh.
  - apply lookup_insert_eq.
  - rewrite (proj2 demo_one_ok). apply NoDup_singleton.
  - cbn. unfold MAX_PKT_BURST. lia.
  - intros m Hm. rewrite (proj2 demo_one_ok) in Hm. apply list_elem_of_singleton in Hm as ->.
    exists demo_arp. split; [reflexivity|apply demo_packet_ok].
Defined.

Lemma arp_reaches_every_stack_witness :
  exists s', process_packet demo_tx None 5 demo_env (demo_dstate example_ring) 0 0 10 false = Ok s' /\
    seen_by_all 0 2 0 10 demo_arp (demo_dstate example_ring) s'.
Proof.
  apply (arp_reaches_every_stack demo_tx demo_env (demo_dstate example_ring) 0 0 10 demo_arp [20; 21] []
    FILTER_ARP 5).
  - cbn. lia.
  - apply demo_dispatch_ok, demo_ring_ok.
  - apply demo_fresh.
  - reflexivity.
  - unfold frame_ok. cbn. lia.
  - vm_compute. reflexivity.
  - vm_compute. reflexivity.
  - by left.
  - intros j Hj Hne. cbn in Hj. assert (j = 1) as -> by lia. exists example_ring.
    split; [reflexivity|vm_compute; reflexivity].
  - reflexivity.
  - cbn. lia.
Defined.

Definition demo_stripped : mbuf := mk_mbuf arp_frame 42 42 1 128 true 5.
Definition demo_tagged : mbuf :=
  mk_mbuf (take 12 arp_frame ++ [0x81; 0; 0; 5] ++ drop 12 arp_frame) 46 46 1 124 true 5.

Lemma vlan_tag_transparent_witness :
  m_data_len demo_tagged = m_data_len demo_stripped + 4 /\
  protocol_filter 5 empty_env (m_bytes demo_tagged) (m_data_len demo_tagged) =
  protocol_filter 5 empty_env (m_bytes demo_stripped) (m_data_len demo_stripped).
Proof.
  apply (vlan_tag_transparent empty_env demo_stripped demo_tagged 5 RTE_ETHER_TYPE_ARP).
  - vm_compute. reflexivity.
  - reflexivity.
  - cbn. lia.
  - cbn. lia.
  - reflexivity.
  - discriminate.
Defined.

Lemma filter_answers_witness :
  exists ty d l d0, carries (arp_frame ++ [0; 0]) 42 ty d l /\ byte_at (arp_frame ++ [0; 0]) 0 = Ok d0 /\
    ((exists f, (forall fuel, (2 * Z.to_nat 42 + 2 <= fuel)%nat ->
        protocol_filter fuel empty_env (arp_frame ++ [0; 0]) 42 = Ok f) /\
        (ty = RTE_ETHER_TYPE_ARP -> f = FILTER_ARP) /\
        (ty <> RTE_ETHER_TYPE_ARP -> Z.testbit d0 0 = true -> f = FILTER_MULTI)) \/
     loops (d, l, ty)).
Proof.
  apply (filter_answers empty_env (arp_frame ++ [0; 0]) 42).
  - split; exact empty_bitmap_ok.
  - split; [lia|cbn; lia|]. cbn. repeat constructor; lia.
  - lia.
  - lia.
Defined.
