(* ===== verification/Mbuf.v ===== *)
(** * Packet buffers ([lib/ff_dpdk_if.c], [lib/ff_veth.c], [dpdk/lib/mbuf])

    A packet is a chain of segments.  The segments live in a pool: [cells]
    holds every segment of the pool by its address, [free] the addresses the
    pool can hand out.  On top of the allocation and the freeing of DPDK: the
    deep copy of a packet, its way from the stack to a burst
    ([ff_dpdk_if_send], [ff_dpdk_raw_packet_send]) and from the NIC to the
    stack ([ff_veth_input]).

    All segments are direct and have a reference count of 1, as everything
    this code allocates or receives does.  A write outside of a buffer is a
    [Panic]. *)

From S2P Require Import Prelude CString Fifo Kni Dispatch.

Module Mbuf.
Import Kni.

(** ** Segments *)

Definition RTE_PKTMBUF_HEADROOM : Z := 128.
Definition RTE_MBUF_PORT_INVALID : Z := 65535.
Definition RTE_MBUF_F_TX_TCP_SEG : Z := Z.shiftl 1 50.
Definition RTE_MBUF_F_TX_TCP_CKSUM : Z := Z.shiftl 1 52.
Definition RTE_MBUF_F_TX_UDP_CKSUM : Z := Z.shiftl 3 52.
Definition RTE_MBUF_F_TX_IP_CKSUM : Z := Z.shiftl 1 54.
Definition RTE_MBUF_F_TX_IPV4 : Z := Z.shiftl 1 55.
Definition RTE_MBUF_F_TX_IPV6 : Z := Z.shiftl 1 56.
Definition RTE_MBUF_F_EXTERNAL : Z := Z.shiftl 1 61.

(** The bit fields of [tx_offload]: 7, 9, 8 and 16 bits. *)
Record tx_off := mk_tx_off { l2_len : Z; l3_len : Z; l4_len : Z; tso_segsz : Z }.

Record seg_meta := mk_meta {
  port : Z;
  vlan_tci : Z;
  vlan_tci_outer : Z;
  tx_offload : tx_off;
  hash : Z;
  ol_flags : Z;
  packet_type : Z
}.

Record seg := mk_seg {
  buf : list Z;
  data_off : Z;
  data_len : Z;
  next : option Z;
  nb_segs : Z;
  pkt_len : Z;
  meta : seg_meta
}.

Definition set_next (g : seg) x : seg :=
  mk_seg (buf g) (data_off g) (data_len g) x (nb_segs g) (pkt_len g) (meta g).
Definition set_nb_segs (g : seg) x : seg :=
  mk_seg (buf g) (data_off g) (data_len g) (next g) x (pkt_len g) (meta g).
Definition set_pkt_len (g : seg) x : seg :=
  mk_seg (buf g) (data_off g) (data_len g) (next g) (nb_segs g) x (meta g).
Definition set_data (g : seg) b n : seg :=
  mk_seg b (data_off g) n (next g) (nb_segs g) (pkt_len g) (meta g).
Definition set_meta (g : seg) x : seg :=
  mk_seg (buf g) (data_off g) (data_len g) (next g) (nb_segs g) (pkt_len g) x.

(** The bytes of a segment, and those from [rte_pktmbuf_mtod] to the end of
    its buffer. *)
Definition mtod (g : seg) : list Z := drop (Z.to_nat (data_off g)) (buf g).
Definition seg_data (g : seg) : list Z := take (Z.to_nat (data_len g)) (mtod g).

Definition rte_pktmbuf_tailroom (g : seg) : Z :=
  u16 (Z.of_nat (length (buf g)) - data_off g - data_len g).

(** [memcpy] of [d] to [rte_pktmbuf_mtod]. *)
Definition write_data (g : seg) (d : list Z) : res (list Z) :=
  if Z.of_nat (length (buf g)) <? data_off g + Z.of_nat (length d) then Panic
  else Ok (take (Z.to_nat (data_off g)) (buf g) ++ d ++
           drop (Z.to_nat (data_off g) + length d) (buf g)).

(** ** The pool *)

Record pool := mk_pool { cells : gmap Z seg; free : list Z }.

Definition get (st : pool) (m : Z) : res seg :=
  match cells st !! m with Some g => Ok g | None => Panic end.
Definition put (st : pool) (m : Z) (g : seg) : pool := mk_pool (<[m := g]> (cells st)) (free st).

Definition rte_pktmbuf_reset (g : seg) : seg :=
  mk_seg (buf g) (Z.min RTE_PKTMBUF_HEADROOM (u16 (Z.of_nat (length (buf g))))) 0 None 1 0
    (mk_meta RTE_MBUF_PORT_INVALID 0 0 (mk_tx_off 0 0 0 0) (hash (meta g))
       (Z.land (ol_flags (meta g)) RTE_MBUF_F_EXTERNAL) 0).

Definition rte_pktmbuf_alloc (st : pool) : res (pool * option Z) :=
  match free st with
  | [] => Ok (st, None)
  | m :: rest =>
      let* g := get st m in
      Ok (mk_pool (<[m := rte_pktmbuf_reset g]> (cells st)) rest, Some m)
  end.

(** [rte_pktmbuf_prefree_seg] of a direct segment with one reference, and its
    return to the pool. *)
Definition rte_pktmbuf_free_seg (st : pool) (m : Z) : res pool :=
  let* g := get st m in
  Ok (mk_pool (<[m := set_nb_segs (set_next g None) 1]> (cells st)) (m :: free st)).

Fixpoint rte_pktmbuf_free (fuel : nat) (st : pool) (m : Z) : res pool :=
  match fuel with
  | O => NoFuel
  | S fuel =>
      let* g := get st m in
      let m_next := next g in
      let* st := rte_pktmbuf_free_seg st m in
      match m_next with
      | Some n => rte_pktmbuf_free fuel st n
      | None => Ok st
      end
  end.

(** ** Deep copies *)

Definition pktmbuf_deep_attach (st : pool) (mi m : Z) : res pool :=
  let* g := get st m in
  let* gi := get st mi in
  if Z.of_nat (length (buf g)) <? data_off g + data_len g then Panic
  else
    let* b := write_data gi (seg_data g) in
    Ok (put st mi (set_meta (set_data gi b (data_len g)) (meta g))).

(** The [do ... while] loop: the state, the last [mi], [prev] and [nseg]. *)
Fixpoint clone_loop (fuel : nat) (st : pool) (md mi prev nseg : Z) :
    res (pool * option Z * Z * Z) :=
  match fuel with
  | O => NoFuel
  | S fuel =>
      let nseg := u8 (nseg + 1) in
      let* st := pktmbuf_deep_attach st mi md in
      let* p := get st prev in
      let st := put st prev (set_next p (Some mi)) in
      let prev := mi in
      let* g := get st md in
      match next g with
      | None => Ok (st, Some mi, prev, nseg)
      | Some md =>
          let* (st, mi) := rte_pktmbuf_alloc st in
          match mi with
          | None => Ok (st, None, prev, nseg)
          | Some mi => clone_loop fuel st md mi prev nseg
          end
      end
  end.

Definition pktmbuf_deep_clone (fuel : nat) (st : pool) (md : Z) : res (pool * option Z) :=
  let* (st, mc) := rte_pktmbuf_alloc st in
  match mc with
  | None => Ok (st, None)
  | Some mc =>
      let* g := get st md in
      let pktlen := pkt_len g in
      let* (st, mi, prev, nseg) := clone_loop fuel st md mc mc 0 in
      let* p := get st prev in
      let st := put st prev (set_next p None) in
      let* h := get st mc in
      let st := put st mc (set_pkt_len (set_nb_segs h nseg) pktlen) in
      match mi with
      | None =>
          let* st := rte_pktmbuf_free fuel st mc in
          Ok (st, None)
      | Some _ => Ok (st, Some mc)
      end
  end.

(** ** From the stack *)

(** A chain of the stack: the bytes of its mbufs, and the packet header. *)
Record bsd_mbuf := mk_bsd {
  m_data : list (list Z);
  m_pkthdr_len : Z;
  csum_flags : Z;
  m_tso_segsz : Z
}.

(** [while (off > 0)]: the mbuf the offset falls in. *)
Fixpoint skip_to (m : list (list Z)) (off : Z) : res (list (list Z) * Z) :=
  if 0 <? off then
    match m with
    | [] => Panic
    | x :: m' =>
        if off <? Z.of_nat (length x) then Ok (m, off)
        else skip_to m' (off - Z.of_nat (length x))
    end
  else Ok (m, off).

(** [while (len > 0)]: the bytes copied. *)
Fixpoint copy_from (m : list (list Z)) (off len : Z) : res (list Z) :=
  if 0 <? len then
    match m with
    | [] => Panic
    | x :: m' =>
        let count := Z.min (Z.of_nat (length x) - off) len in
        let* rest := copy_from m' 0 (len - count) in
        Ok (take (Z.to_nat count) (drop (Z.to_nat off) x) ++ rest)
    end
  else Ok [].

Definition m_copydata (m : list (list Z)) (off len : Z) : res (list Z) :=
  let* (m, off) := skip_to m off in
  copy_from m off len.

(** [None] is the result -1. *)
Definition ff_mbuf_copydata (m : bsd_mbuf) (off len : Z) : res (option (list Z)) :=
  if m_pkthdr_len m <? off + len then Ok None
  else
    let* d := m_copydata (m_data m) off len in
    Ok (Some d).

(** [memcpy] from the caller's [data]. *)
Definition raw_copy (data : list Z) (off len : Z) : res (option (list Z)) :=
  if Z.of_nat (length data) <? off + len then Panic
  else Ok (Some (take (Z.to_nat len) (drop (Z.to_nat off) data))).

(** How the loop over the segments ends. *)
Inductive filled :=
| Filled (st : pool)
| NoSegment (st : pool)
| NoData (st : pool).

(** [while (total > 0)] of the two senders; [copy] is what fills a segment. *)
Fixpoint fill_loop (fuel : nat) (copy : Z -> Z -> res (option (list Z))) (st : pool)
    (head : Z) (cur prev : option Z) (off total : Z) : res filled :=
  match fuel with
  | O => NoFuel
  | S fuel =>
      if 0 <? total then
        let* (st, cur) :=
          match cur with
          | Some c => Ok (st, Some c)
          | None => rte_pktmbuf_alloc st
          end in
        match cur with
        | None => Ok (NoSegment st)
        | Some cur =>
            let* st :=
              match prev with
              | Some p =>
                  let* g := get st p in
                  Ok (put st p (set_next g (Some cur)))
              | None => Ok st
              end in
            let* h := get st head in
            let st := put st head (set_nb_segs h (u16 (nb_segs h + 1))) in
            let prev := cur in
            let* g := get st cur in
            let cap := rte_pktmbuf_tailroom g in
            let len := if cap <? total then cap else total in
            let* ret := copy off len in
            match ret with
            | None => Ok (NoData st)
            | Some d =>
                let* b := write_data g d in
                let st := put st cur (set_data g b (u16 len)) in
                fill_loop fuel copy st head None (Some prev) (off + len) (total - len)
            end
        end
      else Ok (Filled st)
  end.

(** ** Transmit offloads *)

Record ff_tx_offload := mk_offload { ip_csum : bool; tcp_csum : bool; udp_csum : bool; sctp_csum : bool; tso_seg_size : Z }.
Record hw_features := mk_hw { tx_csum_ip : bool; tx_csum_l4 : bool }.

Definition CSUM_IP : Z := 0x1.
Definition CSUM_IP_UDP : Z := 0x2.
Definition CSUM_IP_TCP : Z := 0x4.
Definition CSUM_IP_SCTP : Z := 0x8.
Definition CSUM_IP6_SCTP : Z := 0x800.
Definition CSUM_IP6_UDP : Z := 0x200.
Definition CSUM_IP6_TCP : Z := 0x400.
Definition CSUM_IP_TSO : Z := 0x10.
Definition CSUM_IP6_TSO : Z := 0x1000.

Definition ff_mbuf_tx_offload (m : bsd_mbuf) : ff_tx_offload :=
  let has f := negb (Z.land (csum_flags m) f =? 0) in
  mk_offload (has CSUM_IP) (has (Z.lor CSUM_IP_TCP CSUM_IP6_TCP)) (has (Z.lor CSUM_IP_UDP CSUM_IP6_UDP))
    (has (Z.lor CSUM_IP_SCTP CSUM_IP6_SCTP)) (if has (Z.lor CSUM_IP_TSO CSUM_IP6_TSO) then m_tso_segsz m else 0).

(** [__rte_raw_cksum]: the 16-bit words of the buffer in the byte order of the
    machine, added to [sum]. *)
Fixpoint rte_raw_cksum_sum (b : list Z) (sum : Z) : Z :=
  match b with
  | x :: y :: b' => rte_raw_cksum_sum b' (u32 (sum + (x + 256 * y)))
  | [x] => u32 (sum + x)
  | [] => sum
  end.

Definition rte_raw_cksum_reduce (sum : Z) : Z :=
  let fold s := u32 (Z.shiftr (Z.land s 0xffff0000) 16 + Z.land s 0xffff) in
  u16 (fold (fold sum)).

(** The pseudo header checksums of a packet to be segmented: its length counts
    as 0. *)
Definition rte_ipv4_phdr_cksum (iph : list Z) : res Z :=
  let* proto := byte_at iph 9 in
  if Z.of_nat (length iph) <? 20 then Panic
  else
    let addrs := take 8 (drop 12 iph) in
    Ok (rte_raw_cksum_reduce (rte_raw_cksum_sum (addrs ++ [0; proto; 0; 0]) 0)).

Definition rte_ipv6_phdr_cksum (ip6h : list Z) : res Z :=
  let* proto := byte_at ip6h 6 in
  if Z.of_nat (length ip6h) <? 40 then Panic
  else
    let addrs := take 32 (drop 8 ip6h) in
    Ok (rte_raw_cksum_reduce (rte_raw_cksum_sum [0; 0; 0; 0; 0; 0; 0; proto] (rte_raw_cksum_sum addrs 0))).

Definition or_flags (g : seg) (f : Z) : seg :=
  let t := meta g in
  set_meta g (mk_meta (port t) (vlan_tci t) (vlan_tci_outer t) (tx_offload t) (hash t)
                (Z.lor (ol_flags t) f) (packet_type t)).
Definition set_off (g : seg) (o : tx_off) : seg :=
  let t := meta g in
  set_meta g (mk_meta (port t) (vlan_tci t) (vlan_tci_outer t) o (hash t) (ol_flags t) (packet_type t)).
Definition set_l2_len (g : seg) x : seg :=
  let o := tx_offload (meta g) in set_off g (mk_tx_off (wrapu 7 x) (l3_len o) (l4_len o) (tso_segsz o)).
Definition set_l3_len (g : seg) x : seg :=
  let o := tx_offload (meta g) in set_off g (mk_tx_off (l2_len o) (wrapu 9 x) (l4_len o) (tso_segsz o)).
Definition set_l4_len (g : seg) x : seg :=
  let o := tx_offload (meta g) in set_off g (mk_tx_off (l2_len o) (l3_len o) (wrapu 8 x) (tso_segsz o)).
Definition set_tso_segsz (g : seg) x : seg :=
  let o := tx_offload (meta g) in set_off g (mk_tx_off (l2_len o) (l3_len o) (l4_len o) (u16 x)).

(** [tcph->cksum = v], [tcph] at offset [i] of the data. *)
Definition set_cksum (g : seg) (i v : Z) : res seg :=
  let* b := array_set (buf g) (data_off g + i + 16) (Z.land v 0xff) in
  let* b := array_set b (data_off g + i + 17) (Z.shiftr v 8) in
  Ok (set_data g b (data_len g)).

Definition hdr_len (iph : list Z) : res Z :=
  let* version_ihl := byte_at iph 0 in
  Ok (Z.shiftl (Z.land version_ihl 0x0f) 2).

(** The segmentation offload. *)
Definition set_tso (hw : hw_features) (o : ff_tx_offload) (g : seg) (v4 : bool) (iph_len : Z) : res seg :=
  let iph := advance (mtod g) Dispatch.RTE_ETHER_HDR_LEN in
  let ip6_len := sizeof_ipv6_hdr in
  let l3 := if v4 then iph_len else ip6_len in
  let* data_off := byte_at iph (l3 + 12) in
  let tcph_len := Z.shiftr (Z.land data_off 0xf0) 2 in
  let* g :=
    if v4 then
      let g := or_flags g RTE_MBUF_F_TX_IPV4 in
      let g := if tx_csum_ip hw then or_flags g RTE_MBUF_F_TX_IP_CKSUM else g in
      let* c := rte_ipv4_phdr_cksum iph in
      let* g := set_cksum g (Dispatch.RTE_ETHER_HDR_LEN + l3) c in
      Ok (set_l3_len g iph_len)
    else
      let g := or_flags g RTE_MBUF_F_TX_IPV6 in
      let* c := rte_ipv6_phdr_cksum iph in
      let* g := set_cksum g (Dispatch.RTE_ETHER_HDR_LEN + l3) c in
      Ok (set_l3_len g ip6_len) in
  let g := set_l2_len (or_flags g RTE_MBUF_F_TX_TCP_SEG) Dispatch.RTE_ETHER_HDR_LEN in
  Ok (set_tso_segsz (set_l4_len g tcph_len) (tso_seg_size o)).

(** The offloads [ff_dpdk_if_send] asks for on the first segment. *)
Definition set_offload (hw : hw_features) (o : ff_tx_offload) (g : seg) : res seg :=
  let iph := advance (mtod g) Dispatch.RTE_ETHER_HDR_LEN in
  let* g :=
    if tx_csum_ip hw && ip_csum o then
      let* iph_len := hdr_len iph in
      let g := or_flags g (Z.lor RTE_MBUF_F_TX_IP_CKSUM RTE_MBUF_F_TX_IPV4) in
      Ok (set_l3_len (set_l2_len g Dispatch.RTE_ETHER_HDR_LEN) iph_len)
    else Ok g in
  if tx_csum_l4 hw then
    let* iph_len := hdr_len iph in
    let* version_ihl := byte_at iph 0 in
    let v4 := Z.shiftr version_ihl 4 =? 4 in
    let g := or_flags g (if v4 then RTE_MBUF_F_TX_IPV4 else RTE_MBUF_F_TX_IPV6) in
    let g :=
      if tcp_csum o then
        set_l3_len (set_l2_len (or_flags g RTE_MBUF_F_TX_TCP_CKSUM) Dispatch.RTE_ETHER_HDR_LEN) iph_len
      else g in
    let* g := if negb (tso_seg_size o =? 0) then set_tso hw o g v4 iph_len else Ok g in
    Ok (if udp_csum o then
          set_l3_len (set_l2_len (or_flags g RTE_MBUF_F_TX_UDP_CKSUM) Dispatch.RTE_ETHER_HDR_LEN) iph_len
        else g)
  else Ok g.

(** ** Sending *)

(** [bsd_freed] records the stack's packets given to [ff_mbuf_free], [out] the
    packets given to [send_single_packet]. *)
Record tx_state := mk_tx {
  tx_pool : pool;
  tx_dropped : Z;
  bsd_freed : list Z;
  out : list Z
}.

(** The loop's outcome in the case of an error. *)
Definition send_error (fuel : nat) (s : tx_state) (st : pool) (head extra : Z) (m : option Z) :
    res (tx_state * Z) :=
  let* h := get st head in
  let* st := rte_pktmbuf_free fuel st head in
  Ok (mk_tx st (u64 (tx_dropped s + (nb_segs h + extra)))
        (bsd_freed s ++ match m with Some m => [m] | None => [] end) (out s), -1).

(** The packet [m] of the stack is [b]; [ctx] is [None] for a null context. *)
Definition ff_dpdk_if_send (fuel : nat) (ctx : option hw_features) (s : tx_state) (m : Z)
    (b : bsd_mbuf) (total : Z) : res (tx_state * Z) :=
  let dropped s := mk_tx (tx_pool s) (u64 (tx_dropped s + 1)) (bsd_freed s ++ [m]) (out s) in
  match ctx with
  | None => Ok (dropped s, -1)
  | Some hw =>
      let* (st, head) := rte_pktmbuf_alloc (tx_pool s) in
      match head with
      | None => Ok (dropped s, -1)
      | Some head =>
          let* h := get st head in
          let st := put st head (set_nb_segs (set_pkt_len h (u32 total)) 0) in
          let* f := fill_loop fuel (ff_mbuf_copydata b) st head (Some head) None 0 total in
          match f with
          | NoSegment st => send_error fuel s st head 1 (Some m)
          | NoData st => send_error fuel s st head 0 (Some m)
          | Filled st =>
              let* h := get st head in
              let* h := set_offload hw (ff_mbuf_tx_offload b) h in
              Ok (mk_tx (put st head h) (tx_dropped s) (bsd_freed s ++ [m]) (out s ++ [head]), 0)
          end
      end
  end.

Definition ff_dpdk_raw_packet_send (fuel : nat) (s : tx_state) (data : list Z) (total : Z) :
    res (tx_state * Z) :=
  let* (st, head) := rte_pktmbuf_alloc (tx_pool s) in
  match head with
  | None => Ok (mk_tx (tx_pool s) (u64 (tx_dropped s + 1)) (bsd_freed s) (out s), -1)
  | Some head =>
      let* h := get st head in
      let st := put st head (set_nb_segs (set_pkt_len h (u32 total)) 0) in
      let* f := fill_loop fuel (raw_copy data) st head (Some head) None 0 total in
      match f with
      | NoSegment st => send_error fuel s st head 1 None
      | NoData st => send_error fuel s st head 0 None
      | Filled st => Ok (mk_tx st (tx_dropped s) (bsd_freed s) (out s ++ [head]), 0)
      end
  end.

(** ** To the stack *)

(** A packet on its way up: the segments wrapped so far, in order, with the
    length each stack mbuf got, and the header's length and flags. *)
Record rx_chain := mk_chain { rx_segs : list (Z * Z); rx_total : Z; rx_csum_ok : bool; rx_vlan : option Z }.

(** [mbufs_left] answers for the allocations of [m_gethdr] and [m_get]. *)
Record rx_state := mk_rx { rx_pool : pool; mbufs_left : nat; stack : list rx_chain }.

(** The two allocate a stack mbuf for a segment: [None] when there is none
    left, otherwise the chain and what is left. *)
Definition ff_mbuf_gethdr (n : nat) (pkt total len : Z) (rx_csum : bool) : option (rx_chain * nat) :=
  match n with
  | O => None
  | S n => Some (mk_chain [(pkt, len)] (u16 total) rx_csum None, n)
  end.

Definition add_segs (hdr : rx_chain) (l : list (Z * Z)) : rx_chain :=
  mk_chain (rx_segs hdr ++ l) (rx_total hdr) (rx_csum_ok hdr) (rx_vlan hdr).

Definition ff_mbuf_get (n : nat) (hdr : rx_chain) (m len : Z) : option (rx_chain * nat) :=
  match n with
  | O => None
  | S n => Some (add_segs hdr [(m, len)], n)
  end.

Definition ff_mbuf_set_vlan_info (hdr : rx_chain) (tci : Z) : rx_chain :=
  mk_chain (rx_segs hdr) (rx_total hdr) (rx_csum_ok hdr) (Some tci).

Definition RTE_MBUF_F_RX_VLAN_STRIPPED : Z := Z.shiftl 1 6.
Definition RTE_MBUF_F_RX_L4_CKSUM_BAD : Z := Z.shiftl 1 3.
Definition RTE_MBUF_F_RX_IP_CKSUM_BAD : Z := Z.shiftl 1 4.

(** [m_freem] of a chain of wrapped segments: [ff_mbuf_ext_free] gives each
    segment back. *)
Fixpoint ff_mbuf_free (st : pool) (l : list (Z * Z)) : res pool :=
  match l with
  | [] => Ok st
  | (m, _) :: l' =>
      let* st := rte_pktmbuf_free_seg st m in
      ff_mbuf_free st l'
  end.

(** [while (pn != NULL)]: whether every segment got a stack mbuf, and the
    chain. *)
Fixpoint wrap_loop (fuel : nat) (st : pool) (n : nat) (hdr : rx_chain) (pn : option Z) :
    res (bool * rx_chain * nat) :=
  match fuel with
  | O => NoFuel
  | S fuel =>
      match pn with
      | None => Ok (true, hdr, n)
      | Some p =>
          let* g := get st p in
          match ff_mbuf_get n hdr p (data_len g) with
          | None => Ok (false, hdr, n)
          | Some (hdr, n) => wrap_loop fuel st n hdr (next g)
          end
      end
  end.

(** Without the receive timestamp and the software LRO. *)
Definition ff_veth_input (fuel : nat) (rx_csum : bool) (s : rx_state) (pkt : Z) : res rx_state :=
  let* g := get (rx_pool s) pkt in
  let free_pkt s :=
    let* st := rte_pktmbuf_free fuel (rx_pool s) pkt in
    Ok (mk_rx st (mbufs_left s) (stack s)) in
  let bad := Z.lor RTE_MBUF_F_RX_IP_CKSUM_BAD RTE_MBUF_F_RX_L4_CKSUM_BAD in
  if rx_csum && negb (Z.land (ol_flags (meta g)) bad =? 0) then free_pkt s
  else
    match ff_mbuf_gethdr (mbufs_left s) pkt (pkt_len g) (data_len g) rx_csum with
    | None => free_pkt s
    | Some (hdr, n) =>
        let hdr :=
          if Z.land (ol_flags (meta g)) RTE_MBUF_F_RX_VLAN_STRIPPED =? 0 then hdr
          else ff_mbuf_set_vlan_info hdr (vlan_tci (meta g)) in
        let* (done, hdr, n) := wrap_loop fuel (rx_pool s) n hdr (next g) in
        if done then Ok (mk_rx (rx_pool s) n (stack s ++ [hdr]))
        else
          let* st := ff_mbuf_free (rx_pool s) (rx_segs hdr) in
          let* st := rte_pktmbuf_free fuel st pkt in
          Ok (mk_rx st n (stack s))
    end.
End Mbuf.
