(* ===== verification/MbufProofs.v ===== *)
(** * Proofs about packet buffers

    Copies and packets for the NIC are chains of fresh segments that hold the
    bytes of the original; where the pool runs out, it is left as it was;
    what the stack is given is the packet, segment by segment. *)

From Stdlib Require Import Permutation.
From S2P Require Import Prelude CString Fifo Kni Dispatch Mbuf DispatchProofs.

Import Kni Mbuf.

(** ** Chains *)

(** The segments [ms] are linked in this order, the last one to [tl], and are
    related to [xs] by [R]. *)
Fixpoint linked {A} (R : A -> seg -> Prop) (c : gmap Z seg) (ms : list Z) (xs : list A)
    (tl : option Z) : Prop :=
  match ms, xs with
  | [], [] => True
  | m :: ms', x :: xs' =>
      (exists g, c !! m = Some g /\ R x g /\ next g = match ms' with [] => tl | n :: _ => Some n end) /\
      linked R c ms' xs' tl
  | _, _ => False
  end.

Lemma linked_length {A} (R : A -> seg -> Prop) c ms xs tl :
  linked R c ms xs tl -> length ms = length xs.
Proof.
  revert xs. induction ms as [|m ms IH]; intros [|x xs]; cbn; try done.
  intros [_ Hl]. f_equal. by apply IH.
Qed.

Lemma linked_ext {A} (R : A -> seg -> Prop) c c' ms xs tl :
  (forall m, m ∈ ms -> c' !! m = c !! m) -> linked R c ms xs tl -> linked R c' ms xs tl.
Proof.
  revert xs. induction ms as [|m ms IH]; intros [|x xs] Hc; cbn; try done.
  intros [(g & Hg & HR & Hn) Hl]. split.
  - exists g. rewrite Hc by left. done.
  - apply IH; [|done]. intros x' Hx. apply Hc. by right.
Qed.

Lemma linked_in {A} (R : A -> seg -> Prop) c ms xs tl m :
  linked R c ms xs tl -> m ∈ ms -> exists g, c !! m = Some g.
Proof.
  revert xs. induction ms as [|n ms IH]; intros [|x xs] Hl Hm; cbn in Hl; try done.
  - by apply elem_of_nil in Hm.
  - destruct Hl as [(g & Hg & _) Hl]. apply elem_of_cons in Hm as [->|Hm]; [by exists g|].
    by eapply IH.
Qed.

(** One more segment at the end. *)
Lemma linked_snoc {A} (R : A -> seg -> Prop) c ms xs m x g :
  linked R c ms xs (Some m) -> c !! m = Some g -> R x g ->
  linked R c (ms ++ [m]) (xs ++ [x]) (next g).
Proof.
  revert xs. induction ms as [|n ms IH]; intros [|y xs] Hl Hg HR; cbn in Hl |- *; try done.
  - split; [by exists g|done].
  - destruct Hl as [(g' & Hg' & HR' & Hn) Hl]. split; [|by apply IH].
    exists g'. split; [done|]. split; [done|]. destruct ms; done.
Qed.

(** Changing where the last segment points to. *)
Lemma linked_relink {A} (R : A -> seg -> Prop) c ms xs tl tl' p g :
  (forall x g, R x g -> R x (set_next g tl')) -> NoDup (ms ++ [p]) ->
  linked R c (ms ++ [p]) xs tl -> c !! p = Some g ->
  linked R (<[p := set_next g tl']> c) (ms ++ [p]) xs tl'.
Proof.
  intros HR. revert xs. induction ms as [|n ms IH]; intros [|x xs] Hnd Hl Hg; cbn in Hl |- *; try done.
  - destruct Hl as [(g' & Hg' & HRx & Hn) Hl]. rewrite Hg in Hg'. injection Hg' as <-.
    split; [|by destruct xs]. exists (set_next g tl'). rewrite lookup_insert_eq.
    split; [done|]. split; [by apply HR|done].
  - destruct Hl as [(g' & Hg' & HRx & Hn) Hl]. cbn in Hnd. apply NoDup_cons in Hnd as [Hnin Hnd].
    split; [|by apply IH]. exists g'. rewrite lookup_insert_ne.
    + split; [done|]. split; [done|]. by destruct ms.
    + intros ->. apply Hnin. apply elem_of_app. right. left.
Qed.

Lemma linked_weaken {A} (R R' : A -> seg -> Prop) c ms xs tl :
  (forall x g, R x g -> R' x g) -> linked R c ms xs tl -> linked R' c ms xs tl.
Proof.
  intros HR. revert xs. induction ms as [|m ms IH]; intros [|x xs]; cbn; try done.
  intros [(g & Hg & Hx & Hn) Hl]. split; [|by apply IH]. exists g. by split; [|split; [apply HR|]].
Qed.

(** ** The pool *)

(** Segments of [room] bytes behind the headroom; what the pool hands out is
    not handed out twice. *)
Record pool_ok (room : Z) (st : pool) : Prop := {
  po_room : 0 < room /\ RTE_PKTMBUF_HEADROOM + room < 65536;
  po_nodup : NoDup (free st);
  po_cells : forall m, m ∈ free st -> exists g, cells st !! m = Some g /\
    Z.of_nat (length (buf g)) = RTE_PKTMBUF_HEADROOM + room
}.

Definition blank (room : Z) (g : seg) : Prop :=
  Z.of_nat (length (buf g)) = RTE_PKTMBUF_HEADROOM + room /\ data_off g = RTE_PKTMBUF_HEADROOM /\
  data_len g = 0 /\ next g = None.

Lemma alloc_spec room st m rest :
  pool_ok room st -> free st = m :: rest ->
  exists st' g, rte_pktmbuf_alloc st = Ok (st', Some m) /\ pool_ok room st' /\ free st' = rest /\
    cells st' !! m = Some g /\ blank room g /\ (forall x, x <> m -> cells st' !! x = cells st !! x).
Proof.
  intros [[Hr1 Hr2] Hnd Hc] Hf. unfold rte_pktmbuf_alloc, get. rewrite Hf in *.
  destruct (Hc m ltac:(left)) as (g & Hg & Hl). rewrite Hg. cbn [res_bind].
  apply NoDup_cons in Hnd as [Hnin Hnd].
  eexists _, (rte_pktmbuf_reset g). split; [done|]. split; [|split; [done|split]].
  - split; cbn; [done|done|]. intros x Hx. rewrite lookup_insert_ne by (intros ->; done).
    apply Hc. by right.
  - cbn. by rewrite lookup_insert_eq.
  - split; [|intros x Hx; cbn; by rewrite lookup_insert_ne].
    unfold blank. cbn. unfold RTE_PKTMBUF_HEADROOM in *. rewrite Hl. split; [done|].
    rewrite wrapu_small by lia. split; [lia|done].
Qed.

(** Freeing a chain gives its segments back, each once, and touches nothing
    else. *)
Lemma free_chain {A} (R : A -> seg -> Prop) ms xs st m fuel :
  linked R (cells st) (m :: ms) xs None -> NoDup (m :: ms) -> (length ms < fuel)%nat ->
  exists st', rte_pktmbuf_free fuel st m = Ok st' /\ free st' = reverse (m :: ms) ++ free st /\
    (forall x, x ∉ m :: ms -> cells st' !! x = cells st !! x) /\
    (forall x g, cells st !! x = Some g -> exists g', cells st' !! x = Some g' /\ buf g' = buf g).
Proof.
  revert xs st m fuel. induction ms as [|n ms IH]; intros xs st m fuel Hl Hnd Hf;
    destruct fuel as [|fuel]; cbn in Hf; try lia; destruct xs as [|x xs]; try done;
    destruct Hl as [(g & Hg & _ & Hn) Hl]; cbn [rte_pktmbuf_free];
    unfold rte_pktmbuf_free_seg, get; rewrite Hg; cbn [res_bind]; rewrite Hn.
  - eexists. split; [done|]. split; [done|]. split.
    + intros y Hy. cbn. rewrite lookup_insert_ne; [done|]. intros ->. apply Hy. left.
    + intros y gy Hy. cbn. destruct (decide (y = m)) as [->|Hne].
      * rewrite lookup_insert_eq. eexists. split; [done|]. cbn. congruence.
      * rewrite lookup_insert_ne by done. by eexists.
  - apply NoDup_cons in Hnd as [Hnin Hnd].
    set (st1 := mk_pool _ _).
    assert (linked R (cells st1) (n :: ms) xs None) as Hl1.
    { eapply linked_ext; [|exact Hl]. intros y Hy. cbn. rewrite lookup_insert_ne; [done|]. by intros ->. }
    destruct (IH xs st1 n fuel Hl1 Hnd ltac:(lia)) as (st' & -> & Hfree & Hother & Hbuf).
    eexists. split; [done|]. split; [rewrite Hfree; change (free st1) with (m :: free st); rewrite (reverse_cons (n :: ms) m); by rewrite <- app_assoc|]. split.
    + intros y Hy. rewrite Hother by (intros H; apply Hy; by right). cbn.
      rewrite lookup_insert_ne; [done|]. intros ->. apply Hy. left.
    + intros y gy Hy. destruct (decide (y = m)) as [->|Hne].
      * destruct (Hbuf m (set_nb_segs (set_next g None) 1)) as (g' & Hg' & Hb);
          [cbn; by rewrite lookup_insert_eq|]. exists g'. split; [done|]. rewrite Hb. cbn. congruence.
      * apply Hbuf. cbn. by rewrite lookup_insert_ne.
Qed.

(** ** Writing a segment *)

Lemma write_data_spec g d :
  0 <= data_off g -> data_off g + Z.of_nat (length d) <= Z.of_nat (length (buf g)) ->
  exists b, write_data g d = Ok b /\ length b = length (buf g) /\
    forall g', buf g' = b -> data_off g' = data_off g -> data_len g' = Z.of_nat (length d) ->
      seg_data g' = d.
Proof.
  intros H0 Hl. unfold write_data.
  destruct (Z.ltb_spec (Z.of_nat (length (buf g))) (data_off g + Z.of_nat (length d))); [lia|].
  eexists. split; [done|]. split.
  - rewrite !length_app, length_take, length_drop. lia.
  - intros g' Hb Ho Hn. unfold seg_data, mtod. rewrite Hb, Ho, Hn, Nat2Z.id.
    rewrite drop_app_length' by (rewrite length_take; lia). by rewrite take_app_length.
Qed.

(** ** Copies *)

(** A segment the code can read and copy. *)
Definition fits (room : Z) (g : seg) : Prop :=
  0 <= data_off g /\ 0 <= data_len g <= room /\
  data_off g + data_len g <= Z.of_nat (length (buf g)).

(** [g'] is a copy of [g]. *)
Definition like (room : Z) (g g' : seg) : Prop :=
  seg_data g' = seg_data g /\ data_len g' = data_len g /\ meta g' = meta g /\
  Z.of_nat (length (buf g')) = RTE_PKTMBUF_HEADROOM + room.

Lemma seg_data_length room g : fits room g -> Z.of_nat (length (seg_data g)) = data_len g.
Proof. intros (H1 & H2 & H3). unfold seg_data, mtod. rewrite length_take, length_drop. lia. Qed.

Lemma attach_spec room st mi md gi g :
  cells st !! md = Some g -> cells st !! mi = Some gi -> fits room g ->
  Z.of_nat (length (buf gi)) = RTE_PKTMBUF_HEADROOM + room -> data_off gi = RTE_PKTMBUF_HEADROOM ->
  exists gi', pktmbuf_deep_attach st mi md = Ok (put st mi gi') /\ like room g gi'.
Proof.
  intros Hg Hgi Hfit Hb Ho. pose proof (seg_data_length room g Hfit) as Hlen.
  destruct Hfit as (F1 & F2 & F3). unfold pktmbuf_deep_attach, get. rewrite Hg, Hgi. cbn [res_bind].
  destruct (Z.ltb_spec (Z.of_nat (length (buf g))) (data_off g + data_len g)); [lia|].
  unfold RTE_PKTMBUF_HEADROOM in *.
  destruct (write_data_spec gi (seg_data g)) as (b & -> & Hbl & Hsd); [lia|lia|].
  cbn [res_bind]. eexists. split; [done|]. unfold like, RTE_PKTMBUF_HEADROOM. cbn.
  split; [apply Hsd; done|]. split; [done|]. split; [done|]. by rewrite Hbl.
Qed.

Lemma like_next room g g' n : like room g g' -> like room g (set_next g' n).
Proof. done. Qed.

(** What a run of the copying loop leaves: [ms] are the segments filled. *)
Record cloned (room : Z) (st st' : pool) (ms : list Z) (gs : list seg) (prev mi : Z) (gp : seg) : Prop := {
  cl_pool : pool_ok room st';
  cl_free : free st = tail ms ++ free st';
  cl_linked : exists tl, linked (like room) (cells st') ms gs tl;
  cl_other : forall x, x ∉ ms -> x <> prev -> cells st' !! x = cells st !! x;
  cl_prev : prev <> mi -> cells st' !! prev = Some (set_next gp (Some mi))
}.

Lemma pool_ok_put room st m g : m ∉ free st -> pool_ok room st -> pool_ok room (put st m g).
Proof.
  intros Hm [H1 H2 H3]. split; try done. intros x Hx. cbn. rewrite lookup_insert_ne; [by apply H3|].
  by intros ->.
Qed.

(** One round of the loop, up to the look at the next source segment. *)
Lemma clone_round room st md mi prev gi gp g :
  pool_ok room st -> cells st !! md = Some g -> cells st !! mi = Some gi -> cells st !! prev = Some gp ->
  fits room g -> Z.of_nat (length (buf gi)) = RTE_PKTMBUF_HEADROOM + room ->
  data_off gi = RTE_PKTMBUF_HEADROOM -> md <> mi -> md <> prev -> mi ∉ free st -> prev ∉ free st ->
  exists st1 st2 p gm,
    pktmbuf_deep_attach st mi md = Ok st1 /\ get st1 prev = Ok p /\
    put st1 prev (set_next p (Some mi)) = st2 /\ get st2 md = Ok g /\
    pool_ok room st2 /\ free st2 = free st /\ cells st2 !! mi = Some gm /\ like room g gm /\
    (forall x, x <> mi -> x <> prev -> cells st2 !! x = cells st !! x) /\
    (prev <> mi -> cells st2 !! prev = Some (set_next gp (Some mi))).
Proof.
  intros Hok Hg Hgi Hgp Hfit Hb Ho Hm1 Hm2 Hf1 Hf2.
  destruct (attach_spec room st mi md gi g Hg Hgi Hfit Hb Ho) as (gi' & -> & Hlike).
  assert (exists p, get (put st mi gi') prev = Ok p /\
    (prev = mi /\ p = gi' \/ prev <> mi /\ p = gp)) as (p & Hp & Hcase).
  { unfold get. cbn. destruct (decide (prev = mi)) as [->|Hne].
    - rewrite lookup_insert_eq. exists gi'. auto.
    - rewrite lookup_insert_ne, Hgp by done. exists gp. auto. }
  eexists _, _, p, (if decide (prev = mi) then set_next gi' (Some mi) else gi').
  split; [done|]. split; [exact Hp|]. split; [done|]. split.
  { unfold get. cbn. rewrite !lookup_insert_ne by done. by rewrite Hg. }
  split; [by apply pool_ok_put, pool_ok_put|]. split; [done|]. cbn.
  destruct Hcase as [[-> ->]|[Hne ->]].
  - rewrite decide_True, lookup_insert_eq by done. split; [done|]. split; [by apply like_next|].
    split; [intros x H1 H2; by rewrite !lookup_insert_ne|done].
  - rewrite decide_False, lookup_insert_ne, lookup_insert_eq by done. split; [done|]. split; [done|].
    split; [intros x H1 H2; by rewrite !lookup_insert_ne|by rewrite lookup_insert_eq].
Qed.

Lemma wrapu_add_l w a b : 0 <= w -> wrapu w (wrapu w a + b) = wrapu w (a + b).
Proof. intros Hw. unfold wrapu. by rewrite Zplus_mod_idemp_l. Qed.

Lemma clone_loop_spec room l gs md st mi prev nseg gi gp fuel :
  pool_ok room st -> linked (fun g g' => g' = g) (cells st) (md :: l) gs None ->
  (forall x, x ∈ md :: l -> x <> mi /\ x <> prev /\ x ∉ free st) ->
  mi ∉ free st -> prev ∉ free st -> cells st !! mi = Some gi -> cells st !! prev = Some gp ->
  Z.of_nat (length (buf gi)) = RTE_PKTMBUF_HEADROOM + room -> data_off gi = RTE_PKTMBUF_HEADROOM ->
  Forall (fits room) gs -> (length l < fuel)%nat ->
  let k := Nat.min (length l) (length (free st)) in
  let ms := mi :: take k (free st) in
  exists st' last ms0, ms = ms0 ++ [last] /\
    clone_loop fuel st md mi prev nseg =
      Ok (st', (if decide (length l <= length (free st))%nat then Some last else None), last,
          u8 (nseg + Z.of_nat (S k))) /\
    cloned room st st' ms (take (S k) gs) prev mi gp.
Proof.
  revert gs md st mi prev nseg gi gp fuel.
  induction l as [|md' l IH]; intros gs md st mi prev nseg gi gp fuel Hok Hsrc Hdis Hmi Hprev Hgi Hgp Hb Ho Hfit Hfuel k ms;
    destruct fuel as [|fuel]; cbn in Hfuel; try lia; destruct gs as [|g gs]; try done;
    destruct Hsrc as [(g0 & Hg & -> & Hnext) Hsrc]; apply Forall_cons in Hfit as [Hfg Hfit];
    destruct (Hdis md ltac:(left)) as (D1 & D2 & D3);
    destruct (clone_round room st md mi prev gi gp g Hok Hg Hgi Hgp Hfg Hb Ho D1 D2 Hmi Hprev)
      as (st1 & st2 & p & gm & Ha & Hp & Hst2 & Hgmd & Hok2 & Hfr2 & Hgm & Hlike & Hoth & Hpv);
    cbn [clone_loop]; rewrite Ha; cbn [res_bind]; rewrite Hp; cbn [res_bind]; rewrite Hst2, Hgmd;
    cbn [res_bind]; rewrite Hnext.
  - exists st2, mi, []. unfold ms, k. cbn. split; [done|]. split; [done|]. split; try done.
    + exists (next gm). split; [by exists gm|by destruct gs].
    + intros x Hx Hxp. apply Hoth; [|done]. intros ->. apply Hx. left.
  - destruct (free st) as [|f fr] eqn:Hfree.
    { unfold rte_pktmbuf_alloc. rewrite Hfr2. cbn [res_bind].
      exists st2, mi, []. unfold ms, k. cbn. split; [done|]. split; [done|]. split; try done.
      + by rewrite Hfr2, Hfree.
      + exists (next gm). split; [by exists gm|done].
      + intros x Hx Hxp. apply Hoth; [|done]. intros ->. apply Hx. left. }
    destruct (alloc_spec room st2 f fr Hok2 Hfr2) as (st3 & gf & -> & Hok3 & Hfr3 & Hgf & (B1 & B2 & B3 & B4) & Hoth3).
    cbn [res_bind]. pose proof (po_nodup _ _ Hok) as Hnd. rewrite Hfree in Hnd.
    apply NoDup_cons in Hnd as [Hfnin Hnd].
    assert (mi <> f /\ mi ∉ fr) as [Hmf Hmfr] by (split; [intros ->; apply Hmi; left|intros H; apply Hmi; by right]).
    assert (forall x, x <> f -> x <> mi -> x <> prev -> cells st3 !! x = cells st !! x) as Hst3
      by (intros x X1 X2 X3; rewrite Hoth3 by done; by apply Hoth).
    destruct (IH gs md' st3 f mi (u8 (nseg + 1)) gf gm fuel) as (st' & last & ms0 & Hms & Hrun & [P1 P2 P3 P4 P5]);
      rewrite ?Hfr3; try done; [| |by rewrite Hoth3|lia|].
    { eapply linked_ext; [|exact Hsrc]. intros x Hx. destruct (Hdis x ltac:(by right)) as (X1 & X2 & X3).
      apply Hst3; try done. intros ->. apply X3. left. }
    { intros x Hx. destruct (Hdis x ltac:(by right)) as (X1 & X2 & X3).
      split; [intros ->; apply X3; left|]. split; [done|]. intros Hin. apply X3. by right. }
    exists st', last, (mi :: ms0). unfold ms, k. cbn [length Nat.min take firstn].
    rewrite Hfr3 in Hms, Hrun, P2, P3, P4. cbn [tail] in P2. split; [cbn; by rewrite <- Hms|]. split.
    + rewrite Hrun, wrapu_add_l by lia. f_equal. f_equal; [|f_equal; lia]. f_equal. f_equal.
      destruct (decide (length l <= length fr)%nat), (decide (S (length l) <= S (length fr))%nat); done || lia.
    + split; try done.
      * rewrite Hfree. cbn. by rewrite P2 at 1.
      * destruct P3 as [tl Hl]. exists tl. split; [|exact Hl].
        exists (set_next gm (Some f)). rewrite P5 by done. split; [done|]. by split; [apply like_next|].
      * intros x Hx Hxp. rewrite P4; [apply Hst3| |]; try done; try (intros ->; apply Hx).
        -- right. left.
        -- left.
        -- intros Hin. apply Hx. by right.
        -- left.
      * intros Hne. rewrite P4; [rewrite Hoth3; [by apply Hpv|]| |done].
        -- intros ->. apply Hprev. left.
        -- intros Hin. apply elem_of_cons in Hin as [->|Hin]; [apply Hprev; left|].
           apply Hprev. right. by eapply elem_of_take in Hin as (? & ? & _); eapply list_elem_of_lookup_2.
Qed.

Lemma linked_update {A} (R : A -> seg -> Prop) c ms xs tl m g g' :
  c !! m = Some g -> next g' = next g -> (forall x, R x g -> R x g') ->
  linked R c ms xs tl -> linked R (<[m := g']> c) ms xs tl.
Proof.
  intros Hg Hn HR. revert xs. induction ms as [|n ms IH]; intros [|x xs]; cbn; try done.
  intros [(h & Hh & Hx & Hnx) Hl]. split; [|by apply IH]. destruct (decide (n = m)) as [->|Hne].
  - rewrite Hg in Hh. injection Hh as <-. exists g'. rewrite lookup_insert_eq, Hn. auto.
  - exists h. by rewrite lookup_insert_ne.
Qed.

(** The tail of [pktmbuf_deep_clone]: the chain is closed, and its head gets
    the length and the number of segments. *)
Lemma close_chain {A} (R : A -> seg -> Prop) room st mc ms0 last ms xs tl n pl :
  (forall x g y, R x g -> R x (set_next g y)) ->
  (forall x g a b, R x g -> R x (set_pkt_len (set_nb_segs g a) b)) ->
  pool_ok room st -> mc :: ms = ms0 ++ [last] -> NoDup (mc :: ms) -> (forall x, x ∈ mc :: ms -> x ∉ free st) ->
  linked R (cells st) (mc :: ms) xs tl ->
  exists p st1 h st2, get st last = Ok p /\ put st last (set_next p None) = st1 /\ get st1 mc = Ok h /\
    put st1 mc (set_pkt_len (set_nb_segs h n) pl) = st2 /\ pool_ok room st2 /\ free st2 = free st /\
    linked R (cells st2) (mc :: ms) xs None /\
    cells st2 !! mc = Some (set_pkt_len (set_nb_segs h n) pl) /\
    (forall x, x ∉ mc :: ms -> cells st2 !! x = cells st !! x).
Proof.
  intros HR1 HR2 Hok Hms Hnd Hdis Hl.
  assert (last ∈ mc :: ms) as Hlast by (rewrite Hms; apply elem_of_app; right; left).
  destruct (linked_in _ _ _ _ _ _ Hl Hlast) as [p Hp].
  set (st1 := put st last (set_next p None)).
  assert (linked R (cells st1) (mc :: ms) xs None) as Hl1.
  { rewrite Hms in *. apply linked_relink with tl; try done. intros x g. apply HR1. }
  destruct (linked_in _ _ _ _ _ mc Hl1 ltac:(left)) as [h Hh].
  exists p, st1, h, (put st1 mc (set_pkt_len (set_nb_segs h n) pl)). unfold get. rewrite Hp, Hh.
  do 4 (split; [done|]). split; [apply pool_ok_put; [apply Hdis; left|]; by apply pool_ok_put; [apply Hdis|]|].
  split; [done|]. split; [|split].
  - cbn [cells put]. eapply linked_update; [exact Hh|done| |exact Hl1]. intros x. apply HR2.
  - cbn. by rewrite lookup_insert_eq.
  - intros x Hx. cbn. rewrite !lookup_insert_ne; [done| |]; intros ->; apply Hx; [done|left].
Qed.

(** Segments given back: the pool is whole again. *)
Lemma pool_ok_back room st st' ms :
  pool_ok room st -> NoDup (ms ++ free st) -> free st' = reverse ms ++ free st ->
  (forall m, m ∈ ms -> exists g, cells st !! m = Some g /\
     Z.of_nat (length (buf g)) = RTE_PKTMBUF_HEADROOM + room) ->
  (forall x g, cells st !! x = Some g -> exists g', cells st' !! x = Some g' /\ buf g' = buf g) ->
  pool_ok room st'.
Proof.
  intros [H1 H2 H3] Hnd Hf Hms Hbuf. split; [done| |].
  - rewrite Hf. by rewrite reverse_Permutation.
  - intros m Hm. rewrite Hf, elem_of_app, elem_of_reverse in Hm.
    assert (exists g, cells st !! m = Some g /\ Z.of_nat (length (buf g)) = RTE_PKTMBUF_HEADROOM + room)
      as (g & Hg & Hl) by (destruct Hm; auto).
    destruct (Hbuf m g Hg) as (g' & Hg' & Hb). exists g'. by rewrite Hb.
Qed.

Lemma linked_room {A} (R : A -> seg -> Prop) room c ms xs tl m :
  (forall x g, R x g -> Z.of_nat (length (buf g)) = RTE_PKTMBUF_HEADROOM + room) ->
  linked R c ms xs tl -> m ∈ ms ->
  exists g, c !! m = Some g /\ Z.of_nat (length (buf g)) = RTE_PKTMBUF_HEADROOM + room.
Proof.
  intros HR. revert xs. induction ms as [|n ms IH]; intros [|x xs] Hl Hm; cbn in Hl; try done.
  - by apply elem_of_nil in Hm.
  - destruct Hl as [(g & Hg & Hx & _) Hl]. apply elem_of_cons in Hm as [->|Hm]; [exists g; eauto|].
    by eapply IH.
Qed.

(** The copy of a packet: as long as the pool has a segment for each of the
    packet's, a chain of fresh segments with their bytes. *)
Definition deep_copy (room : Z) (st st' : pool) (mc : Z) (gs : list seg) : Prop :=
  exists ms h, free st = (mc :: ms) ++ free st' /\ linked (like room) (cells st') (mc :: ms) gs None /\
    cells st' !! mc = Some h /\ nb_segs h = u8 (Z.of_nat (length gs)) /\
    (exists g gs', gs = g :: gs' /\ pkt_len h = pkt_len g).

Lemma deep_clone_spec room st md l gs fuel :
  pool_ok room st -> linked (fun g g' => g' = g) (cells st) (md :: l) gs None ->
  (forall x, x ∈ md :: l -> x ∉ free st) -> Forall (fits room) gs -> (length l < fuel)%nat ->
  exists st', pool_ok room st' /\ (forall x, x ∉ free st -> cells st' !! x = cells st !! x) /\
    if decide (length gs <= length (free st))%nat then
      exists mc, pktmbuf_deep_clone fuel st md = Ok (st', Some mc) /\ deep_copy room st st' mc gs
    else pktmbuf_deep_clone fuel st md = Ok (st', None) /\ Permutation (free st') (free st).
Proof.
  intros Hok Hsrc Hdis Hfit Hfuel. pose proof (linked_length _ _ _ _ _ Hsrc) as Hlen. cbn in Hlen.
  unfold pktmbuf_deep_clone. destruct (free st) as [|mc fr] eqn:Hfree.
  { exists st. split; [done|]. split; [done|]. rewrite decide_False by (cbn; lia).
    unfold rte_pktmbuf_alloc. by rewrite Hfree. }
  destruct (alloc_spec room st mc fr Hok Hfree) as (st1 & gc & -> & Hok1 & Hfr1 & Hgc & (B1 & B2 & B3 & B4) & Hoth1).
  pose proof (po_nodup _ _ Hok) as Hnd. rewrite Hfree in Hnd. pose proof Hnd as Hnd'.
  apply NoDup_cons in Hnd' as [Hnin _]. cbn [res_bind].
  assert (linked (fun g g' => g' = g) (cells st1) (md :: l) gs None) as Hsrc1.
  { eapply linked_ext; [|exact Hsrc]. intros x Hx. apply Hoth1. intros ->. apply (Hdis mc Hx). left. }
  destruct gs as [|g gs]; [done|]. pose proof Hsrc1 as [(g0 & Hg & -> & _) _].
  assert (get st1 md = Ok g) as -> by (unfold get; by rewrite Hg). cbn [res_bind].
  destruct (clone_loop_spec room l (g :: gs) md st1 mc mc 0 gc gc fuel) as (st2 & last & ms0 & Hms & -> & [P1 P2 [tl P3] P4 _]);
    rewrite ?Hfr1; try done.
  { intros x Hx. specialize (Hdis x Hx). split; [intros ->; apply Hdis; left|].
    split; [intros ->; apply Hdis; left|]. intros Hin. apply Hdis. by right. }
  rewrite Hfr1 in Hms, P2, P3, P4. cbn [res_bind tail] in *.
  set (k := Nat.min (length l) (length fr)) in *.
  assert (NoDup (mc :: take k fr) /\ forall x, x ∈ mc :: take k fr -> x ∉ free st2) as [Hnd2 Hdis2].
  { rewrite P2 in Hnd. apply (NoDup_app (mc :: take k fr)) in Hnd as (N1 & N2 & _). by split. }
  destruct (close_chain (like room) room st2 mc ms0 last (take k fr) _ tl (u8 (0 + Z.of_nat (S k))) (pkt_len g)
    ltac:(done) ltac:(done) P1 Hms Hnd2 Hdis2 P3)
    as (p & st3 & h & st4 & -> & E3 & Hh & E4 & Hok4 & Hfr4 & Hl4 & Hmc4 & Hoth4).
  cbn [res_bind]. rewrite E3, Hh. cbn [res_bind]. rewrite E4.
  assert (forall x, x ∉ mc :: fr -> cells st4 !! x = cells st !! x) as Hkeep.
  { intros x Hx. assert (x ∉ mc :: take k fr) as Hx'.
    { intros Hin. apply Hx. apply elem_of_cons in Hin as [->|Hin]; [left|right].
      by eapply elem_of_take in Hin as (? & ? & _); eapply list_elem_of_lookup_2. }
    assert (x <> mc) as Hxm by (intros ->; apply Hx; left).
    rewrite Hoth4, P4, Hoth1; done. }
  destruct (decide (length l <= length fr)%nat) as [Hle|Hgt].
  - exists st4. split; [done|]. split; [done|]. rewrite decide_True by (cbn in *; lia).
    exists mc. split; [done|]. assert (k = length l) as Hk by lia.
    exists (take k fr), (set_pkt_len (set_nb_segs h (u8 (0 + Z.of_nat (S k)))) (pkt_len g)).
    split; [rewrite Hfree, Hfr4; cbn; by rewrite P2 at 1|]. split.
    + rewrite (take_ge (g :: gs)) in Hl4 by (cbn in *; lia). exact Hl4.
    + split; [done|]. split; [cbn; f_equal; cbn in Hlen; lia|]. by exists g, gs.
  - destruct (free_chain _ (take k fr) _ st4 mc fuel Hl4 Hnd2) as (st5 & -> & Hfr5 & Hoth5 & Hbuf5).
    { rewrite length_take. lia. }
    cbn [res_bind]. exists st5.
    assert (Permutation (free st5) (mc :: fr)) as Hperm.
    { rewrite Hfr5, Hfr4, reverse_Permutation. rewrite P2 at 2. done. }
    split; [|split].
    + apply (pool_ok_back room st4 st5 (mc :: take k fr)); try done.
      * rewrite Hfr4. rewrite P2 in Hnd. exact Hnd.
      * intros m Hm. eapply linked_room; [|exact Hl4|exact Hm]. by intros x y (_ & _ & _ & Hxy).
    + intros x Hx. rewrite Hoth5; [by apply Hkeep|]. intros Hin. apply Hx.
      apply elem_of_cons in Hin as [->|Hin]; [left|right].
      by eapply elem_of_take in Hin as (? & ? & _); eapply list_elem_of_lookup_2.
    + rewrite decide_False by (cbn in *; lia). by split.
Qed.

(** ** The stack's chains *)

Lemma skip_to_spec m off :
  0 <= off <= Z.of_nat (length (concat m)) ->
  exists m' off', skip_to m off = Ok (m', off') /\ 0 <= off' /\
    drop (Z.to_nat off') (concat m') = drop (Z.to_nat off) (concat m) /\
    match m' with x :: _ => off' <= Z.of_nat (length x) | [] => off' = 0 end.
Proof.
  revert off. induction m as [|x m IH]; intros off Hoff; cbn [skip_to].
  - cbn in Hoff. destruct (Z.ltb_spec 0 off); [lia|]. exists [], off. split; [done|]. split; [lia|].
    split; [done|lia].
  - cbn in Hoff. rewrite length_app in Hoff. destruct (Z.ltb_spec 0 off) as [Hp|Hz].
    + destruct (Z.ltb_spec off (Z.of_nat (length x))) as [Hlt|Hge].
      * exists (x :: m), off. split; [done|]. split; [lia|]. split; [done|lia].
      * destruct (IH (off - Z.of_nat (length x)) ltac:(lia)) as (m' & off' & -> & H1 & H2 & H3).
        exists m', off'. split; [done|]. split; [done|]. split; [|done]. rewrite H2. cbn.
        rewrite drop_app_ge by lia. f_equal. lia.
    + exists (x :: m), off. split; [done|]. split; [lia|]. split; [done|lia].
Qed.

Lemma copy_from_spec m off len :
  0 <= off -> 0 <= len -> off + len <= Z.of_nat (length (concat m)) ->
  match m with x :: _ => off <= Z.of_nat (length x) | [] => off = 0 end ->
  copy_from m off len = Ok (take (Z.to_nat len) (drop (Z.to_nat off) (concat m))).
Proof.
  revert off len. induction m as [|x m IH]; intros off len Ho Hl Hc Hx; cbn [copy_from].
  - cbn in Hc. destruct (Z.ltb_spec 0 len); [lia|]. by replace len with 0 by lia.
  - cbn in Hc. rewrite length_app in Hc. destruct (Z.ltb_spec 0 len) as [Hp|Hz].
    + set (count := Z.min (Z.of_nat (length x) - off) len).
      rewrite IH by (try (destruct m; cbn; lia); cbn; lia). cbn [res_bind]. f_equal. cbn [concat].
      rewrite (drop_app_le x) by lia. rewrite take_app. rewrite length_drop. f_equal.
      * destruct (Z.min_spec (Z.of_nat (length x) - off) len) as [[? Hm]|[? Hm]]; unfold count; rewrite Hm.
        -- rewrite !take_ge; [done|rewrite length_drop; lia..].
        -- done.
      * cbn. f_equal. lia.
    + by replace len with 0 by lia.
Qed.

Lemma m_copydata_spec m off len :
  0 <= off -> 0 <= len -> off + len <= Z.of_nat (length (concat m)) ->
  m_copydata m off len = Ok (take (Z.to_nat len) (drop (Z.to_nat off) (concat m))).
Proof.
  intros Ho Hl Hc. unfold m_copydata.
  destruct (skip_to_spec m off ltac:(lia)) as (m' & off' & -> & H1 & H2 & H3). cbn [res_bind].
  rewrite copy_from_spec; [by rewrite H2|done|done| |done].
  pose proof (f_equal length H2) as Hlen. rewrite !length_drop in Hlen.
  destruct m' as [|x m']; [cbn in *; lia|]. cbn [concat] in *. rewrite length_app in *. lia.
Qed.

(** ** Filling segments *)

(** The number of segments of [room] bytes for [total] bytes. *)
Definition segs_for (room total : Z) : Z := (total + room - 1) / room.

Lemma segs_for_step room total :
  0 < room -> 0 < total -> segs_for room total = 1 + segs_for room (total - Z.min room total).
Proof.
  intros Hr Ht. unfold segs_for. destruct (Z.min_spec room total) as [[H1 ->]|[H1 ->]].
  - replace (total + room - 1) with (total - room + room - 1 + 1 * room) by lia.
    rewrite Z.div_add by lia. lia.
  - replace (total - total + room - 1) with (room - 1) by lia. rewrite (Z.div_small (room - 1)) by lia.
    replace (total + room - 1) with (total - 1 + 1 * room) by lia. rewrite Z.div_add by lia.
    rewrite Z.div_small by lia. lia.
Qed.

Lemma segs_for_0 room : 0 < room -> segs_for room 0 = 0.
Proof. intros Hr. unfold segs_for. rewrite Z.div_small; lia. Qed.

Lemma segs_for_nonneg room total : 0 < room -> 0 <= total -> 0 <= segs_for room total.
Proof. intros. apply Z.div_pos; lia. Qed.

Definition holds (room : Z) (d : list Z) (g : seg) : Prop :=
  seg_data g = d /\ data_len g = Z.of_nat (length d) /\
  Z.of_nat (length (buf g)) = RTE_PKTMBUF_HEADROOM + room /\ data_off g = RTE_PKTMBUF_HEADROOM.

(** A packet of [pl] bytes under construction: [ms] hold the data [ds]. *)
Record built (room : Z) (st : pool) (head : Z) (ms : list Z) (ds : list (list Z)) (pl : Z) : Prop := {
  bu_linked : linked (holds room) (cells st) ms ds None;
  bu_nodup : NoDup ms;
  bu_free : forall m, m ∈ ms -> m ∉ free st;
  bu_first : exists ms', ms = head :: ms';
  bu_head : exists h, cells st !! head = Some h /\ nb_segs h = Z.of_nat (length ms) /\ pkt_len h = pl
}.

Lemma fill_seg room g d :
  blank room g -> Z.of_nat (length d) <= room ->
  exists b, write_data g d = Ok b /\ holds room d (set_data g b (Z.of_nat (length d))).
Proof.
  intros (B1 & B2 & B3 & B4) Hd. unfold RTE_PKTMBUF_HEADROOM in *.
  destruct (write_data_spec g d) as (b & Hb & Hl & Hs); [lia|lia|]. exists b. split; [done|].
  split; [by apply Hs|]. split; [done|]. cbn. unfold RTE_PKTMBUF_HEADROOM. split; [by rewrite Hl|done].
Qed.

Lemma blank_tailroom room g : blank room g -> 0 < room /\ RTE_PKTMBUF_HEADROOM + room < 65536 ->
  rte_pktmbuf_tailroom g = room.
Proof.
  intros (B1 & B2 & B3 & B4) [H1 H2]. unfold rte_pktmbuf_tailroom. rewrite B1, B2, B3.
  unfold RTE_PKTMBUF_HEADROOM in *. rewrite wrapu_small; lia.
Qed.

(** The chain grows by one segment: [c], just allocated, is linked behind [p],
    counted in the head and filled with [d]. *)
Lemma built_grow room st st1 head ms ms0 p ds pl c gc d :
  built room st head ms ds pl -> ms = ms0 ++ [p] -> pool_ok room st1 -> c ∉ ms -> c ∉ free st1 ->
  (forall m, m ∈ ms -> m ∉ free st1) -> (forall x, x <> c -> cells st1 !! x = cells st !! x) ->
  cells st1 !! c = Some gc -> blank room gc -> Z.of_nat (length d) <= room ->
  Z.of_nat (length ms) + 1 < 65536 ->
  exists gp h b, get st1 p = Ok gp /\
    let st2 := put st1 p (set_next gp (Some c)) in get st2 head = Ok h /\
    let st3 := put st2 head (set_nb_segs h (u16 (nb_segs h + 1))) in get st3 c = Ok gc /\
    write_data gc d = Ok b /\
    let st4 := put st3 c (set_data gc b (Z.of_nat (length d))) in
    built room st4 head (ms ++ [c]) (ds ++ [d]) pl /\ pool_ok room st4 /\ free st4 = free st1 /\
    (forall x, x ∉ ms ++ [c] -> cells st4 !! x = cells st !! x).
Proof.
  intros [Hl Hnd _ (ms' & Hhd) (h0 & Hh0 & Hn0 & Hp0)] Hms Hok Hc Hcf Hmf Hsame Hgc Hbl Hd Hlen.
  assert (p ∈ ms) as Hp by (rewrite Hms; apply elem_of_app; right; left).
  assert (head ∈ ms) as Hhead by (rewrite Hhd; left).
  assert (linked (holds room) (cells st1) ms ds None) as Hl1.
  { eapply linked_ext; [|exact Hl]. intros m Hm. apply Hsame. by intros ->. }
  destruct (linked_in _ _ _ _ _ p Hl1 Hp) as [gp Hgp].
  set (st2 := put st1 p (set_next gp (Some c))).
  assert (linked (holds room) (cells st2) ms ds (Some c)) as Hl2.
  { rewrite Hms in *. by apply linked_relink with None. }
  assert (exists h, cells st2 !! head = Some h /\ nb_segs h = Z.of_nat (length ms) /\ pkt_len h = pl)
    as (h & Hh & Hn & Hpl).
  { unfold st2. cbn. destruct (decide (p = head)) as [->|Hne].
    - rewrite lookup_insert_eq. eexists. split; [done|]. cbn.
      rewrite Hsame in Hgp by (by intros ->). rewrite Hgp in Hh0. by injection Hh0 as <-.
    - rewrite lookup_insert_ne, Hsame by (done || by intros ->). by exists h0. }
  set (st3 := put st2 head (set_nb_segs h (u16 (nb_segs h + 1)))).
  assert (linked (holds room) (cells st3) ms ds (Some c)) as Hl3 by (eapply linked_update; eauto).
  destruct (fill_seg room gc d Hbl Hd) as (b & Hb & Hholds).
  exists gp, h, b. unfold get at 1. rewrite Hgp. split; [done|]. fold st2. cbn zeta.
  split; [unfold get; by rewrite Hh|]. fold st3. split.
  { unfold get, st3, st2. cbn. rewrite !lookup_insert_ne by (by intros ->). by rewrite Hgc. }
  split; [done|]. set (st4 := put st3 c _). split; [|split; [|split; [done|]]].
  - split.
    + assert (cells st4 !! c = Some (set_data gc b (Z.of_nat (length d)))) as Hc4
        by (cbn; by rewrite lookup_insert_eq).
      assert (linked (holds room) (cells st4) ms ds (Some c)) as Hl4.
      { eapply linked_ext; [|exact Hl3]. intros m Hm. cbn. rewrite lookup_insert_ne; [done|]. by intros ->. }
      pose proof (linked_snoc _ _ _ _ _ _ _ Hl4 Hc4 Hholds) as Hl5. cbn [next set_data] in Hl5.
      destruct Hbl as (_ & _ & _ & Hnn). by rewrite Hnn in Hl5.
    + apply NoDup_app. split; [done|]. split; [|apply NoDup_singleton].
      intros x Hx Hin. apply list_elem_of_singleton in Hin as ->. done.
    + intros m Hm. apply elem_of_app in Hm as [Hm|Hm]; [by apply Hmf|].
      apply list_elem_of_singleton in Hm as ->. done.
    + exists (ms' ++ [c]). by rewrite Hhd.
    + exists (set_nb_segs h (u16 (nb_segs h + 1))). cbn. rewrite lookup_insert_ne by (by intros ->).
      rewrite lookup_insert_eq. split; [done|]. cbn. rewrite Hn, wrapu_small by lia.
      rewrite length_app. cbn. split; [lia|done].
  - apply pool_ok_put; [done|]. apply pool_ok_put; [by apply Hmf|]. by apply pool_ok_put; [apply Hmf|].
  - intros x Hx. rewrite elem_of_app, list_elem_of_singleton in Hx. cbn.
    rewrite !lookup_insert_ne by (intros ->; apply Hx; auto). apply Hsame. intros ->. apply Hx. auto.
Qed.

Lemma chunks_exist room l :
  0 < room ->
  exists ds : list (list Z), concat ds = l /\ Z.of_nat (length ds) = segs_for room (Z.of_nat (length l)).
Proof.
  intros Hr. remember (length l) as n eqn:Hn. revert l Hn.
  induction (lt_wf n) as [n _ IH]. intros l Hn. destruct l as [|x l].
  - exists []. subst n. cbn. by rewrite segs_for_0.
  - set (k := Z.to_nat (Z.min room (Z.of_nat n))). assert (0 < n)%nat as Hpos by (subst n; cbn; lia).
    destruct (IH (n - k)%nat ltac:(lia) (drop k (x :: l))) as (ds & Hc & Hl).
    { rewrite length_drop. lia. }
    exists (take k (x :: l) :: ds). cbn [concat length]. rewrite Hc, take_drop. split; [done|].
    rewrite (segs_for_step room (Z.of_nat n)) by lia. rewrite Nat2Z.inj_succ, Hl.
    replace (Z.of_nat (n - k)) with (Z.of_nat n - Z.min room (Z.of_nat n)) by lia. lia.
Qed.

(** How the loop ends, from a chain on. *)
Definition fills (room : Z) (st : pool) (head : Z) (ms : list Z) (ds ds' : list (list Z)) (pl : Z)
    (r : res filled) : Prop :=
  exists st', pool_ok room st' /\
    (forall x, x ∉ ms -> x ∉ free st -> cells st' !! x = cells st !! x) /\
    if decide (length ds' <= length (free st))%nat then
      r = Ok (Filled st') /\ built room st' head (ms ++ take (length ds') (free st)) (ds ++ ds') pl /\
      free st' = drop (length ds') (free st)
    else
      r = Ok (NoSegment st') /\
      built room st' head (ms ++ free st) (ds ++ take (length (free st)) ds') pl /\ free st' = [].

Section Fill.
Context (room : Z) (src : list Z) (copy : Z -> Z -> res (option (list Z))).
Hypothesis copies : forall off len, 0 <= off -> 0 <= len -> off + len <= Z.of_nat (length src) ->
  copy off len = Ok (Some (take (Z.to_nat len) (drop (Z.to_nat off) src))).

Lemma fill_rest fuel st head ms ms0 p ds pl off total :
  pool_ok room st -> built room st head ms ds pl -> ms = ms0 ++ [p] -> 0 <= off -> 0 <= total ->
  off + total = Z.of_nat (length src) -> (Z.to_nat total < fuel)%nat ->
  Z.of_nat (length ms) + segs_for room total < 65536 ->
  exists ds', concat ds' = drop (Z.to_nat off) src /\ Z.of_nat (length ds') = segs_for room total /\
    fills room st head ms ds ds' pl (fill_loop fuel copy st head None (Some p) off total).
Proof.
  revert st ms ms0 p ds off total. induction fuel as [|fuel IH];
    intros st ms ms0 p ds off total Hok Hb Hms Hoff Htot Hsum Hfuel Hlen; [lia|].
  pose proof (po_room _ _ Hok) as Hroom. destruct Hroom as [Hr0 Hr1].
  cbn [fill_loop]. destruct (Z.ltb_spec 0 total) as [Hpos|Hz].
  2:{ assert (total = 0) as -> by lia. exists []. split; [rewrite drop_ge by lia; done|].
      split; [by rewrite segs_for_0|]. exists st. split; [done|]. split; [done|]. cbn.
      rewrite !app_nil_r. by rewrite drop_0. }
  rewrite segs_for_step in Hlen by lia. set (len := Z.min room total) in *.
  pose proof (segs_for_nonneg room (total - len) Hr0 ltac:(lia)) as Hnn.
  set (d := take (Z.to_nat len) (drop (Z.to_nat off) src)).
  assert (Z.of_nat (length d) = len) as Hd by (unfold d; rewrite length_take, length_drop; lia).
  destruct (free st) as [|c fr] eqn:Hfree.
  { unfold rte_pktmbuf_alloc. rewrite Hfree. cbn [res_bind].
    destruct (chunks_exist room (drop (Z.to_nat off) src) Hr0) as (ds' & Hc & Hl).
    rewrite length_drop in Hl. replace (Z.of_nat (length src - Z.to_nat off)) with total in Hl by lia.
    exists ds'. split; [done|]. split; [done|]. exists st. split; [done|]. split; [done|].
    rewrite (segs_for_step room total) in Hl by lia. fold len in Hl. rewrite Hfree, decide_False by (cbn; lia).
    cbn. by rewrite !app_nil_r. }
  destruct (alloc_spec room st c fr Hok Hfree) as (st1 & gc & -> & Hok1 & Hfr1 & Hgc & Hbl & Hoth).
  pose proof (po_nodup _ _ Hok) as Hnd. rewrite Hfree in Hnd. apply NoDup_cons in Hnd as [Hcnin _].
  pose proof (bu_free _ _ _ _ _ _ Hb) as Hmf. rewrite Hfree in Hmf.
  assert (c ∉ ms) as Hcm by (intros Hin; apply (Hmf c Hin); left).
  destruct (built_grow room st st1 head ms ms0 p ds pl c gc d Hb Hms Hok1 Hcm) as (gp & h & b & G1 & G2 & G3 & G4 & G5 & G6 & G7 & G8);
    rewrite ?Hfr1; try done; try lia.
  { intros m Hm Hin. apply (Hmf m Hm). by right. }
  cbn [res_bind]. rewrite G1. cbn [res_bind]. rewrite G2. cbn [res_bind]. rewrite G3. cbn [res_bind].
  rewrite (blank_tailroom room) by done. replace (if room <? total then room else total) with len
    by (unfold len; destruct (Z.ltb_spec room total); lia).
  rewrite copies by lia. fold d. cbn [res_bind]. rewrite G4. cbn [res_bind].
  rewrite (wrapu_small 16 len) by (unfold RTE_PKTMBUF_HEADROOM in *; lia).
  match goal with |- context [fill_loop fuel copy ?x] => set (st4 := x) end.
  rewrite Hd in G5, G6, G7, G8. fold st4 in G5, G6, G7, G8.
  destruct (IH st4 (ms ++ [c]) ms c (ds ++ [d]) (off + len) (total - len) G6 G5 eq_refl) as (ds' & Hc' & Hl' & st' & F1 & F2 & F3);
    try lia; [rewrite length_app; cbn; lia|].
  rewrite G7, Hfr1 in F2, F3.
  exists (d :: ds'). split.
  { cbn. rewrite Hc'. unfold d. replace (Z.to_nat (off + len)) with (Z.to_nat off + Z.to_nat len)%nat by lia.
    rewrite <- drop_drop. apply take_drop. }
  split; [rewrite (segs_for_step room total) by lia; fold len; cbn; lia|].
  exists st'. split; [done|]. rewrite Hfree. split.
  { intros x Hx1 Hx2. rewrite F2, G8; [done| | |].
    - rewrite elem_of_app, list_elem_of_singleton. intros [?| ->]; [done|]. apply Hx2. left.
    - rewrite elem_of_app, list_elem_of_singleton. intros [?| ->]; [done|]. apply Hx2. left.
    - intros Hin. apply Hx2. by right. }
  cbn [length]. rewrite <- !app_assoc in F3. cbn [app] in F3.
  destruct (decide (length ds' <= length fr)%nat), (decide (S (length ds') <= S (length fr))%nat); done || lia.
Qed.

(** The first round fills the head itself. *)
Lemma fill_first fuel st head h pl :
  pool_ok room st -> cells st !! head = Some h -> blank room h -> nb_segs h = 0 -> pkt_len h = pl ->
  head ∉ free st -> (0 < length src < fuel)%nat -> segs_for room (Z.of_nat (length src)) < 65536 ->
  exists d ds', concat (d :: ds') = src /\
    Z.of_nat (length (d :: ds')) = segs_for room (Z.of_nat (length src)) /\
    Z.of_nat (length d) = Z.min room (Z.of_nat (length src)) /\
    exists st1, free st1 = free st /\ (forall x, x <> head -> cells st1 !! x = cells st !! x) /\
    fills room st1 head [head] [d] ds' pl
      (fill_loop fuel copy st head (Some head) None 0 (Z.of_nat (length src))).
Proof.
  intros Hok Hh Hbl Hn Hpl Hhf [Hpos Hfuel] Hsegs. destruct fuel as [|fuel]; [lia|].
  destruct (po_room _ _ Hok) as [Hr0 Hr1]. set (total := Z.of_nat (length src)) in *.
  cbn [fill_loop]. destruct (Z.ltb_spec 0 total); [|lia]. cbn [res_bind].
  unfold get at 1. rewrite Hh. cbn [res_bind]. rewrite Hn. change (u16 (0 + 1)) with 1.
  set (h1 := set_nb_segs h 1). unfold get at 1. cbn [cells put]. rewrite lookup_insert_eq. cbn [res_bind].
  assert (blank room h1) as Hbl1 by done.
  rewrite (blank_tailroom room h1) by done. set (len := if room <? total then room else total).
  assert (len = Z.min room total) as Hlen by (unfold len; destruct (Z.ltb_spec room total); lia).
  rewrite copies by lia. cbn [res_bind]. set (d := take (Z.to_nat len) (drop (Z.to_nat 0) src)).
  assert (Z.of_nat (length d) = len) as Hd by (unfold d; rewrite length_take, length_drop; lia).
  destruct (fill_seg room h1 d Hbl1 ltac:(lia)) as (b & -> & Hholds). cbn [res_bind].
  rewrite (wrapu_small 16 len) by (unfold RTE_PKTMBUF_HEADROOM in *; lia).
  match goal with |- context [fill_loop fuel copy ?x] => set (st4 := x) end.
  assert (cells st4 !! head = Some (set_data h1 b len)) as Hc4 by (cbn; by rewrite lookup_insert_eq).
  rewrite (segs_for_step room total) in Hsegs |- * by lia. rewrite <- Hlen in Hsegs |- *.
  destruct (fill_rest fuel st4 head [head] [] head [d] pl (0 + len) (total - len)) as (ds' & Hc & Hl & Hfills);
    try done; try lia.
  - apply pool_ok_put; [done|]. by apply pool_ok_put.
  - split.
    + split; [|done]. exists (set_data h1 b len). split; [done|]. rewrite Hd in Hholds.
      split; [done|]. cbn. apply Hbl.
    + apply NoDup_singleton.
    + intros m Hm. apply list_elem_of_singleton in Hm as ->. done.
    + by exists [].
    + eexists. split; [done|]. done.
  - exists d, ds'. split; [cbn; rewrite Hc; by apply take_drop|]. split; [cbn; lia|].
    split; [lia|]. exists st4. split; [done|]. split; [|done]. intros x Hx. cbn. by rewrite !lookup_insert_ne.
Qed.
End Fill.

(** ** Whole packets *)

(** A packet for the NIC: a chain of fresh segments with the bytes [src], as many
    of them in the first as it has room for. *)
Definition packet_of (room : Z) (st st' : pool) (head : Z) (src : list Z) : Prop :=
  exists ms d ds, free st = (head :: ms) ++ free st' /\ concat (d :: ds) = src /\
    Z.of_nat (length (d :: ds)) = segs_for room (Z.of_nat (length src)) /\
    Z.of_nat (length d) = Z.min room (Z.of_nat (length src)) /\
    built room st' head (head :: ms) (d :: ds) (Z.of_nat (length src)).

(** Allocating the head and filling the chain. *)
Lemma fill_packet room src copy fuel st head rest :
  (forall off len, 0 <= off -> 0 <= len -> off + len <= Z.of_nat (length src) ->
     copy off len = Ok (Some (take (Z.to_nat len) (drop (Z.to_nat off) src)))) ->
  pool_ok room st -> free st = head :: rest -> (0 < length src < fuel)%nat ->
  Z.of_nat (length src) < 2 ^ 32 -> segs_for room (Z.of_nat (length src)) < 65536 ->
  exists st0 h st', rte_pktmbuf_alloc st = Ok (st0, Some head) /\ get st0 head = Ok h /\
    let st1 := put st0 head (set_nb_segs (set_pkt_len h (u32 (Z.of_nat (length src)))) 0) in
    let r := fill_loop fuel copy st1 head (Some head) None 0 (Z.of_nat (length src)) in
    pool_ok room st' /\ (forall x, x ∉ free st -> cells st' !! x = cells st !! x) /\
    if decide (segs_for room (Z.of_nat (length src)) <= Z.of_nat (length (free st)))
    then r = Ok (Filled st') /\ packet_of room st st' head src
    else r = Ok (NoSegment st') /\ free st' = [] /\
      exists ds, built room st' head (free st) ds (Z.of_nat (length src)).
Proof.
  intros Hcopy Hok Hfree Hlen H32 Hsegs.
  destruct (alloc_spec room st head rest Hok Hfree) as (st0 & h & Ha & Hok0 & Hfr0 & Hh & Hbl & Hoth).
  pose proof (po_nodup _ _ Hok) as Hnd. rewrite Hfree in Hnd. apply NoDup_cons in Hnd as [Hnin _].
  set (h1 := set_nb_segs (set_pkt_len h (u32 (Z.of_nat (length src)))) 0).
  destruct (fill_first room src copy Hcopy fuel (put st0 head h1) head h1 (Z.of_nat (length src)))
    as (d & ds' & Hc & Hl & Hd & st1 & Hf1 & Ho1 & st' & F1 & F2 & F3); rewrite ?Hfr0; try done.
  { apply pool_ok_put; [by rewrite Hfr0|done]. }
  { cbn. by rewrite lookup_insert_eq. }
  { cbn. apply wrapu_small. lia. }
  { cbn. by rewrite Hfr0. }
  cbn [free put] in Hf1. rewrite Hfr0 in Hf1. rewrite Hf1 in F2, F3.
  exists st0, h, st'. split; [done|]. split; [unfold get; by rewrite Hh|]. cbn zeta. fold h1.
  split; [done|]. rewrite Hfree. split.
  { intros x Hx. assert (x <> head) as Hxh by (intros ->; apply Hx; left).
    rewrite F2, Ho1; [|done| |intros Hin; apply Hx; by right].
    - cbn. rewrite lookup_insert_ne by done. by apply Hoth.
    - by rewrite list_elem_of_singleton. }
  cbn [length] in Hl |- *.
  destruct (decide (length ds' <= length rest)%nat) as [Hle|Hgt].
  - rewrite decide_True by lia. destruct F3 as (-> & Hb & Hf). split; [done|].
    exists (take (length ds') rest), d, ds'. rewrite Hfree, Hf. split; [cbn; by rewrite take_drop|].
    by split_and!.
  - rewrite decide_False by lia. destruct F3 as (-> & Hb & Hf). split; [done|]. split; [done|].
    by eexists.
Qed.

Lemma send_error_spec room fuel s st head ms ds pl extra m :
  pool_ok room st -> built room st head ms ds pl -> (length ms <= fuel)%nat ->
  exists st', send_error fuel s st head extra m =
      Ok (mk_tx st' (u64 (tx_dropped s + (Z.of_nat (length ms) + extra)))
            (bsd_freed s ++ match m with Some m => [m] | None => [] end) (out s), -1) /\
    pool_ok room st' /\ Permutation (free st') (ms ++ free st) /\
    (forall x, x ∉ ms -> cells st' !! x = cells st !! x).
Proof.
  intros Hok [Hl Hnd Hf (ms' & Hms) (h & Hh & Hn & _)] Hfuel. unfold send_error, get.
  rewrite Hh. cbn [res_bind]. subst ms.
  destruct (free_chain _ _ _ _ _ fuel Hl Hnd Hfuel) as (st' & -> & Hfr & Hoth & Hbuf). cbn [res_bind].
  rewrite Hn. exists st'. split; [done|]. split; [|split; [|done]].
  - apply (pool_ok_back room st st' (head :: ms')); try done.
    + apply NoDup_app. split; [done|]. split; [done|apply (po_nodup _ _ Hok)].
    + intros m' Hm. eapply linked_room; [|exact Hl|exact Hm]. by intros x y (_ & _ & Hxy & _).
  - by rewrite Hfr, reverse_Permutation.
Qed.

(** ** Offloads *)

(** Nothing but the flags and lengths for the NIC is different. *)
Definition same_frame (g g' : seg) : Prop :=
  buf g' = buf g /\ data_off g' = data_off g /\ data_len g' = data_len g /\ next g' = next g /\
  nb_segs g' = nb_segs g /\ pkt_len g' = pkt_len g.

Lemma mtod_byte g i : 0 <= i -> 14 + i < Z.of_nat (length (mtod g)) ->
  exists b, byte_at (advance (mtod g) Dispatch.RTE_ETHER_HDR_LEN) i = Ok b.
Proof.
  intros H0 Hi. unfold Dispatch.RTE_ETHER_HDR_LEN. rewrite byte_at_advance by lia.
  apply byte_at_in. lia.
Qed.

Lemma set_offload_frame hw o g :
  tx_csum_l4 hw = false \/ tso_seg_size o = 0 -> 14 < Z.of_nat (length (mtod g)) ->
  exists g', set_offload hw o g = Ok g' /\ same_frame g g'.
Proof.
  intros Hno Hl. destruct (mtod_byte g 0 ltac:(lia) ltac:(lia)) as [v Hv]. unfold set_offload, hdr_len.
  rewrite Hv. cbn [res_bind].
  match goal with |- context [if ?c then Ok ?x else Ok g] =>
    assert (exists g1, (if c then Ok x else Ok g) = Ok g1 /\ same_frame g g1) as (g1 & -> & S1)
      by (destruct c; eexists; (split; [reflexivity|done])) end.
  cbn [res_bind]. destruct (tx_csum_l4 hw); [|by exists g1]. destruct Hno as [|Ht]; [done|].
  rewrite Ht, Z.eqb_refl. cbn [negb res_bind]. eexists. split; [done|].
  by destruct (udp_csum o), (tcp_csum o).
Qed.

Lemma built_same room st head ms ds pl h h' :
  cells st !! head = Some h -> same_frame h h' -> built room st head ms ds pl ->
  built room (put st head h') head ms ds pl.
Proof.
  intros Hh (S1 & S2 & S3 & S4 & S5 & S6) [B1 B2 B3 B4 (h0 & Hh0 & B5 & B6)]. split; try done.
  - cbn [cells put]. eapply linked_update; [exact Hh|done| |exact B1].
    unfold holds, seg_data, mtod. by rewrite S1, S2, S3.
  - exists h'. cbn. rewrite lookup_insert_eq. rewrite Hh in Hh0. injection Hh0 as <-.
    split; [done|]. by rewrite S5, S6.
Qed.

(** ** To the stack *)

Lemma wrap_loop_spec fuel st n hdr l gs pn :
  linked (fun g g' => g' = g) (cells st) l gs None ->
  pn = match l with [] => None | m :: _ => Some m end -> (length l < fuel)%nat ->
  wrap_loop fuel st n hdr pn =
    let segs := zip l (data_len <$> gs) in
    if decide (length l <= n)%nat
    then Ok (true, add_segs hdr segs, (n - length l)%nat)
    else Ok (false, add_segs hdr (take n segs), O).
Proof.
  revert n hdr l gs pn. induction fuel as [|fuel IH]; intros n hdr l gs pn Hl -> Hfuel; [lia|].
  cbn [wrap_loop]. destruct l as [|m l]; destruct gs as [|g gs]; try done.
  - rewrite decide_True by (cbn; lia). cbn. destruct hdr. unfold add_segs. cbn.
    by rewrite app_nil_r, Nat.sub_0_r.
  - destruct Hl as [(g0 & Hg & -> & Hn) Hl]. unfold get. rewrite Hg. cbn [res_bind].
    destruct n as [|n]; [cbn; destruct hdr; unfold add_segs; cbn; by rewrite app_nil_r|].
    cbn [ff_mbuf_get]. rewrite (IH n _ l gs) by (try done; cbn in Hfuel; lia). cbn.
    destruct (decide (length l <= n)%nat), (decide (S (length l) <= S n)%nat); try lia;
      unfold add_segs; cbn; by rewrite <- !app_assoc.
Qed.

Lemma ff_mbuf_free_spec st l :
  (forall m n, (m, n) ∈ l -> is_Some (cells st !! m)) ->
  exists st', ff_mbuf_free st l = Ok st' /\ free st' = reverse (fst <$> l) ++ free st /\
    (forall x, is_Some (cells st !! x) -> exists g', cells st' !! x = Some g' /\
       (x ∈ fst <$> l -> next g' = None)) /\
    (forall x, x ∉ fst <$> l -> cells st' !! x = cells st !! x).
Proof.
  revert st. induction l as [|[m n] l IH]; intros st Hc.
  { exists st. split; [done|]. split; [done|]. split; [|done]. intros x [g Hg]. exists g.
    split; [done|]. intros Hin. by apply elem_of_nil in Hin. }
  cbn [ff_mbuf_free]. unfold rte_pktmbuf_free_seg, get.
  destruct (Hc m n ltac:(left)) as [g Hg]. rewrite Hg. cbn [res_bind].
  set (st1 := mk_pool _ _).
  assert (forall x, is_Some (cells st !! x) -> is_Some (cells st1 !! x)) as Hin1.
  { intros x Hx. cbn. destruct (decide (x = m)) as [->|Hne].
    - rewrite lookup_insert_eq. by eexists.
    - by rewrite lookup_insert_ne. }
  destruct (IH st1) as (st' & -> & Hf & Hn & Ho).
  { intros m' n' Hin. apply Hin1. apply (Hc m' n'). by right. }
  exists st'. split; [done|]. split; [|split].
  - rewrite Hf. cbn [fmap list_fmap fst]. rewrite reverse_cons, <- app_assoc. done.
  - intros x Hx. destruct (Hn x (Hin1 x Hx)) as (g' & Hg' & Hnx). exists g'. split; [done|].
    cbn. intros Hin. apply elem_of_cons in Hin as [->|Hin]; [|by apply Hnx].
    destruct (decide (m ∈ fst <$> l)) as [Hml|Hml]; [by apply Hnx|].
    rewrite Ho in Hg' by done. cbn in Hg'. rewrite lookup_insert_eq in Hg'. by injection Hg' as <-.
  - intros x Hx. cbn in Hx. rewrite elem_of_cons in Hx. rewrite Ho by tauto. cbn.
    rewrite lookup_insert_ne; [done|]. intros ->. apply Hx. by left.
Qed.

(** ** Segmentation offload *)

(** [g'] is [g] but for the two bytes of the TCP checksum at offset [i]. *)
Definition cksum_only (g g' : seg) (i c : Z) : Prop :=
  length (buf g') = length (buf g) /\ data_off g' = data_off g /\ data_len g' = data_len g /\
  (forall j, 0 <= j -> j <> i + 16 -> j <> i + 17 -> byte_at (mtod g') j = byte_at (mtod g) j) /\
  byte_at (mtod g') (i + 16) = Ok (c mod 256) /\ byte_at (mtod g') (i + 17) = Ok (c / 256).

Lemma byte_at_mtod g j : 0 <= data_off g -> 0 <= j -> byte_at (mtod g) j = array_get (buf g) (data_off g + j).
Proof. intros H1 H2. exact (byte_at_advance (buf g) (data_off g) j H1 H2). Qed.

Lemma array_get_set l i (x : Z) l' j :
  array_set l i x = Ok l' -> array_get l' j = if decide (j = i) then Ok x else array_get l j.
Proof.
  unfold array_set, array_get. destruct (decide (0 <= i < Z.of_nat (length l))) as [Hi|]; [|done].
  intros [= <-]. destruct (decide (j = i)) as [->|Hne].
  - rewrite decide_True by lia. by rewrite list_lookup_insert_eq by lia.
  - destruct (decide (0 <= j)); [|done]. by rewrite list_lookup_insert_ne by lia.
Qed.

Lemma set_cksum_spec g i c :
  0 <= data_off g -> 0 <= i -> i + 18 <= Z.of_nat (length (mtod g)) -> 0 <= c ->
  exists g', set_cksum g i c = Ok g' /\ cksum_only g g' i c /\ meta g' = meta g.
Proof.
  intros Ho Hi Hl Hc. unfold mtod in Hl. rewrite length_drop in Hl. unfold set_cksum.
  pose proof (array_set_lt (buf g) (data_off g + i + 16) (Z.land c 255) ltac:(lia)) as H1.
  rewrite H1. cbn [res_bind]. set (b1 := <[_ := _]> (buf g)) in *.
  assert (length b1 = length (buf g)) as Hb1 by apply length_insert.
  pose proof (array_set_lt b1 (data_off g + i + 17) (Z.shiftr c 8) ltac:(rewrite Hb1; lia)) as H2.
  rewrite H2. cbn [res_bind]. set (b2 := <[_ := _]> b1) in *.
  eexists. split; [done|]. split; [|done].
  assert (forall j, 0 <= j -> byte_at (mtod (set_data g b2 (data_len g))) j =
    if decide (j = i + 17) then Ok (Z.shiftr c 8) else if decide (j = i + 16) then Ok (Z.land c 255)
    else byte_at (mtod g) j) as Hget.
  { intros j Hj. rewrite !byte_at_mtod by done. cbn [buf data_off set_data].
    rewrite (array_get_set _ _ _ _ _ H2), (array_get_set _ _ _ _ _ H1).
    repeat case_decide; done || lia. }
  split; [cbn; unfold b2; by rewrite length_insert|]. do 2 (split; [done|]).
  split; [intros j Hj N1 N2; rewrite Hget by done; by rewrite !decide_False|].
  rewrite !Hget by lia. rewrite decide_False, !decide_True by lia. split; f_equal.
  - change 255 with (2 ^ 8 - 1). by rewrite land_mask.
  - rewrite Z.shiftr_div_pow2 by lia. done.
Qed.

Lemma phdr4_spec iph : 20 <= Z.of_nat (length iph) ->
  exists c, rte_ipv4_phdr_cksum iph = Ok c /\ 0 <= c < 65536.
Proof.
  intros Hl. unfold rte_ipv4_phdr_cksum. destruct (byte_at_in iph 9) as [pr ->]; [lia|]. cbn [res_bind].
  destruct (Z.ltb_spec (Z.of_nat (length iph)) 20); [lia|]. eexists. split; [done|].
  apply (wrapu_range 16). lia.
Qed.

(** What [ff_dpdk_if_send] tells the NIC of an IPv4 packet to be segmented. *)
Record tso_request (g g' : seg) (v : Z) (size : Z) : Prop := {
  ts_l2 : l2_len (tx_offload (meta g')) = 14;
  ts_l3 : l3_len (tx_offload (meta g')) = 4 * (v mod 16);
  ts_l4 : exists x, byte_at (mtod g) (14 + 4 * (v mod 16) + 12) = Ok x /\
    l4_len (tx_offload (meta g')) = wrapu 8 (4 * (x / 16 mod 16));
  ts_size : tso_segsz (tx_offload (meta g')) = u16 size;
  ts_flags : Z.testbit (ol_flags (meta g')) 50 = true /\ Z.testbit (ol_flags (meta g')) 55 = true;
  ts_sum : exists c, rte_ipv4_phdr_cksum (advance (mtod g) 14) = Ok c /\
    cksum_only g g' (14 + 4 * (v mod 16)) c
}.

Lemma byte_shl2 v : Z.shiftl (Z.land v 15) 2 = 4 * (v mod 16).
Proof. change 15 with (2 ^ 4 - 1). rewrite land_mask, Z.shiftl_mul_pow2 by lia.
  change (2 ^ 4) with 16. change (2 ^ 2) with 4. lia. Qed.

Lemma high_nibble x : 0 <= x < 256 -> Z.shiftr (Z.land x 0xf0) 2 = 4 * (x / 16 mod 16).
Proof.
  intros Hx.
  assert (forallb (fun n => Z.shiftr (Z.land (Z.of_nat n) 0xf0) 2 =? 4 * (Z.of_nat n / 16 mod 16)) (seq 0 256) = true)
    as Hall by (vm_compute; reflexivity).
  rewrite forallb_forall in Hall. specialize (Hall (Z.to_nat x)). rewrite Z2Nat.id in Hall by lia.
  apply Z.eqb_eq, Hall, in_seq. lia.
Qed.

Lemma or_flags_bit g f n :
  Z.testbit (ol_flags (meta (or_flags g f))) n = Z.testbit (ol_flags (meta g)) n || Z.testbit f n.
Proof. apply Z.lor_spec. Qed.

Lemma or_flags_keep g f n :
  Z.testbit (ol_flags (meta g)) n = true -> Z.testbit (ol_flags (meta (or_flags g f))) n = true.
Proof. intros Hn. by rewrite or_flags_bit, Hn. Qed.

Lemma tso_v4 hw o g v x :
  tx_csum_l4 hw = true -> tso_seg_size o <> 0 -> 0 <= data_off g ->
  byte_at (mtod g) 14 = Ok v -> v / 16 = 4 -> 0 <= v ->
  byte_at (mtod g) (14 + 4 * (v mod 16) + 12) = Ok x -> 0 <= x < 256 ->
  34 <= Z.of_nat (length (mtod g)) -> 14 + 4 * (v mod 16) + 18 <= Z.of_nat (length (mtod g)) ->
  exists g', set_offload hw o g = Ok g' /\ tso_request g g' v (tso_seg_size o).
Proof.
  intros Hl4 Htso Hoff Hv Hver Hv0 Hx Hxr H34 Hlen. unfold set_offload, hdr_len, Dispatch.RTE_ETHER_HDR_LEN.
  assert (byte_at (advance (mtod g) 14) 0 = Ok v) as Hb0 by (rewrite byte_at_advance; done).
  rewrite Hb0. cbn [res_bind].
  match goal with |- context [if ?c then Ok ?x else Ok g] =>
    assert (exists g1, (if c then Ok x else Ok g) = Ok g1 /\ same_frame g g1) as (g1 & -> & S1)
      by (destruct c; eexists; (split; [reflexivity|done])) end.
  cbn [res_bind]. rewrite Hl4, byte_shl2. assert (Z.shiftr v 4 = 4) as -> by (by rewrite Z.shiftr_div_pow2).
  cbn [Z.eqb Pos.eqb].
  match goal with |- context [set_tso hw o ?y true] => set (g2 := y) end.
  assert (same_frame g g2) as S2 by (unfold g2; by destruct (tcp_csum o)).
  apply Z.eqb_neq in Htso. rewrite Htso. cbn [negb]. unfold set_tso, Dispatch.RTE_ETHER_HDR_LEN.
  assert (mtod g2 = mtod g) as Hm2 by (destruct S2 as (E1 & E2 & _); unfold mtod; by rewrite E1, E2).
  pose proof (Z.mod_pos_bound v 16 ltac:(lia)) as Hm.
  rewrite Hm2, byte_at_advance by lia. replace (14 + (4 * (v mod 16) + 12)) with (14 + 4 * (v mod 16) + 12) by lia.
  rewrite Hx. cbn [res_bind].
  destruct (phdr4_spec (advance (mtod g) 14)) as (c & Hc & Hcr); [rewrite length_advance; lia|].
  rewrite Hc. cbn [res_bind].
  set (g3 := if tx_csum_ip hw then _ else _).
  assert (same_frame g g3 /\ Z.testbit (ol_flags (meta g3)) 55 = true) as [S3 F55].
  { unfold g3. destruct (tx_csum_ip hw); (split; [done|]); rewrite !or_flags_bit;
      change (Z.testbit RTE_MBUF_F_TX_IPV4 55) with true; by rewrite orb_true_r. }
  assert (mtod g3 = mtod g /\ data_off g3 = data_off g) as [Hm3 Ho3]
    by (destruct S3 as (E1 & E2 & _); unfold mtod; by rewrite E1, E2).
  destruct (set_cksum_spec g3 (14 + 4 * (v mod 16)) c) as (g4 & -> & Hck & Hmeta);
    rewrite ?Ho3, ?Hm3; try lia.
  cbn [res_bind]. eexists. split; [done|].
  assert (cksum_only g g4 (14 + 4 * (v mod 16)) c) as Hck4.
  { destruct Hck as (K1 & K2 & K3 & K4). destruct S3 as (E1 & E2 & E3 & _). rewrite Hm3 in K4.
    split; [by rewrite K1, E1|]. split; [by rewrite K2|]. by split; [rewrite K3|]. }
  assert (Z.testbit (ol_flags (meta (or_flags g4 RTE_MBUF_F_TX_TCP_SEG))) 50 = true /\
    Z.testbit (ol_flags (meta (or_flags g4 RTE_MBUF_F_TX_TCP_SEG))) 55 = true) as [F1 F2].
  { rewrite !or_flags_bit, Hmeta, F55. split; [|done].
    change (Z.testbit RTE_MBUF_F_TX_TCP_SEG 50) with true. apply orb_true_r. }
  destruct (udp_csum o); split; try done.
  all: try (cbn; rewrite wrapu_small; lia).
  all: try (exists x; cbn; by rewrite high_nibble).
  all: try by exists c.
  split; [apply (or_flags_keep (or_flags g4 RTE_MBUF_F_TX_TCP_SEG) RTE_MBUF_F_TX_UDP_CKSUM 50 F1)|
          apply (or_flags_keep (or_flags g4 RTE_MBUF_F_TX_TCP_SEG) RTE_MBUF_F_TX_UDP_CKSUM 55 F2)].
Qed.

(** ** Segmentation offload *)

(** Of a packet [src]: its IP header is of version 4, where its TCP header is, and
    the pseudo header checksum that goes into it. *)
Definition ip_version4 (src : list Z) : bool :=
  match byte_at src 14 with Ok v => Z.shiftr v 4 =? 4 | _ => false end.
Definition tcp_at (src : list Z) : Z :=
  if ip_version4 src then match byte_at src 14 with Ok v => 14 + 4 * (v mod 16) | _ => 0 end else 54.
Definition phdr_cksum (src : list Z) : res Z :=
  if ip_version4 src then rte_ipv4_phdr_cksum (advance src 14) else rte_ipv6_phdr_cksum (advance src 14).

(** The bytes with [c] in the checksum of the TCP header at [i]. *)
Definition with_cksum (i c : Z) (d : list Z) : list Z :=
  <[Z.to_nat (i + 17) := Z.shiftr c 8]> (<[Z.to_nat (i + 16) := Z.land c 255]> d).

Definition tso_wanted (hw : hw_features) (o : ff_tx_offload) : bool := tx_csum_l4 hw && negb (tso_seg_size o =? 0).

(** The IP header and 20 bytes of a TCP header are among the first [n] bytes. *)
Definition tcp_headers (src : list Z) (n : Z) : Prop :=
  (if ip_version4 src then 34 <= tcp_at src else True) /\ tcp_at src + 20 <= n.

(** What goes out of [src]: all of it, with the pseudo header checksum in its TCP
    header if the NIC is to segment it. *)
Definition on_wire (hw : hw_features) (o : ff_tx_offload) (src wire : list Z) : Prop :=
  if tso_wanted hw o then exists c, phdr_cksum src = Ok c /\ wire = with_cksum (tcp_at src) c src else wire = src.

Lemma byte_at_app d e i : 0 <= i < Z.of_nat (length d) -> byte_at (d ++ e) i = byte_at d i.
Proof. intros Hi. unfold byte_at, array_get. by rewrite lookup_app_l by lia. Qed.

Lemma advance_app d e n : 0 <= n <= Z.of_nat (length d) -> advance (d ++ e) n = advance d n ++ e.
Proof. intros Hn. unfold advance. by rewrite drop_app_le by lia. Qed.

Lemma window_app {A} (d e : list A) a b : (a + b <= length d)%nat -> take b (drop a (d ++ e)) = take b (drop a d).
Proof. intros Hl. rewrite drop_app_le by lia. rewrite take_app_le; [done|]. rewrite length_drop. lia. Qed.

Lemma tcp_headers_length src n : tcp_headers src n -> 15 <= n.
Proof. unfold tcp_headers, tcp_at. destruct (ip_version4 src); lia. Qed.

(** All of it depends on the first bytes only. *)
Lemma headers_app d e : 15 <= Z.of_nat (length d) -> ip_version4 (d ++ e) = ip_version4 d /\ tcp_at (d ++ e) = tcp_at d.
Proof. intros Hl. unfold tcp_at, ip_version4. by rewrite byte_at_app by lia. Qed.

Lemma phdr_cksum_app d e : tcp_headers d (Z.of_nat (length d)) -> 15 <= Z.of_nat (length d) -> phdr_cksum (d ++ e) = phdr_cksum d.
Proof.
  intros [H4 Hn] Hl. unfold phdr_cksum. destruct (headers_app d e Hl) as [-> _]. rewrite advance_app by lia.
  assert (Z.of_nat (length (advance d 14)) = Z.of_nat (length d) - 14) as Ha by (unfold advance; rewrite length_drop; lia).
  destruct (ip_version4 d) eqn:E4.
  - unfold rte_ipv4_phdr_cksum. rewrite byte_at_app, length_app, window_app by lia.
    by rewrite !(proj2 (Z.ltb_ge _ 20)) by lia.
  - unfold tcp_at in Hn. rewrite E4 in Hn. unfold rte_ipv6_phdr_cksum. rewrite byte_at_app, length_app, window_app by lia.
    by rewrite !(proj2 (Z.ltb_ge _ 40)) by lia.
Qed.

Lemma phdr_cksum_ok d : tcp_headers d (Z.of_nat (length d)) -> exists c, phdr_cksum d = Ok c.
Proof.
  intros [H4 Hn]. unfold phdr_cksum.
  assert (Z.of_nat (length (advance d 14)) = Z.max 0 (Z.of_nat (length d) - 14)) as Ha by (unfold advance; rewrite length_drop; lia).
  destruct (ip_version4 d) eqn:E4.
  - destruct (phdr4_spec (advance d 14)) as (c & Hc & _); [lia|]. by exists c.
  - unfold tcp_at in Hn. rewrite E4 in Hn. unfold rte_ipv6_phdr_cksum.
    destruct (byte_at_in (advance d 14) 6) as [b ->]; [lia|]. cbn [res_bind].
    rewrite (proj2 (Z.ltb_ge _ 40)) by lia. by eexists.
Qed.

(** [g'] is [g] with the buffer [b] and other metadata. *)
Definition same_but (b : list Z) (g g' : seg) : Prop :=
  buf g' = b /\ data_off g' = data_off g /\ data_len g' = data_len g /\ next g' = next g /\
  nb_segs g' = nb_segs g /\ pkt_len g' = pkt_len g.

Lemma set_tso_frame hw o (g : seg) (v4 : bool) (iph_len x c i : Z) :
  i = 14 + (if v4 then iph_len else sizeof_ipv6_hdr) -> 0 <= data_off g -> 0 <= i ->
  data_off g + i + 18 <= Z.of_nat (length (buf g)) ->
  byte_at (advance (mtod g) 14) ((if v4 then iph_len else sizeof_ipv6_hdr) + 12) = Ok x ->
  (if v4 then rte_ipv4_phdr_cksum (advance (mtod g) 14) else rte_ipv6_phdr_cksum (advance (mtod g) 14)) = Ok c ->
  exists g', set_tso hw o g v4 iph_len = Ok g' /\
    same_but (<[Z.to_nat (data_off g + i + 17) := Z.shiftr c 8]> (<[Z.to_nat (data_off g + i + 16) := Z.land c 255]> (buf g))) g g'.
Proof.
  intros -> Ho Hi Hl Hx Hc. unfold set_tso, Dispatch.RTE_ETHER_HDR_LEN. rewrite Hx. cbn [res_bind].
  assert (forall h, same_frame g h -> exists h', set_cksum h (14 + (if v4 then iph_len else sizeof_ipv6_hdr)) c = Ok h' /\
    same_but (<[Z.to_nat (data_off g + (14 + (if v4 then iph_len else sizeof_ipv6_hdr)) + 17) := Z.shiftr c 8]>
      (<[Z.to_nat (data_off g + (14 + (if v4 then iph_len else sizeof_ipv6_hdr)) + 16) := Z.land c 255]> (buf g))) g h') as Hset.
  { intros h (S1 & S2 & S3 & S4 & S5 & S6). unfold set_cksum. rewrite S1, S2. rewrite array_set_lt by lia. cbn [res_bind].
    rewrite array_set_lt by (rewrite length_insert; lia). cbn [res_bind]. eexists. split; [done|]. by split_and!. }
  destruct v4; rewrite Hc; cbn [res_bind].
  - set (h := if tx_csum_ip hw then _ else _). destruct (Hset h) as (h' & -> & Hs); [unfold h; by destruct (tx_csum_ip hw)|].
    cbn [res_bind]. eexists. split; [done|exact Hs].
  - destruct (Hset (or_flags g RTE_MBUF_F_TX_IPV6)) as (h' & -> & Hs); [done|]. cbn [res_bind]. eexists. split; [done|exact Hs].
Qed.

Lemma same_but_frame b g g1 g2 : same_frame g g1 -> same_but b g1 g2 -> same_but b g g2.
Proof. intros (? & ? & ? & ? & ? & ?) (? & ? & ? & ? & ? & ?). split_and!; congruence. Qed.

(** The bytes of a segment after its checksum was set in the buffer. *)
Lemma with_cksum_mtod room d g g' i c :
  holds room d g -> 0 <= i -> i + 18 <= Z.of_nat (length d) ->
  same_but (<[Z.to_nat (data_off g + i + 17) := Z.shiftr c 8]> (<[Z.to_nat (data_off g + i + 16) := Z.land c 255]> (buf g))) g g' ->
  holds room (with_cksum i c d) g'.
Proof.
  intros (H1 & H2 & H3 & H4) Hi Hl (S1 & S2 & S3 & _). unfold holds, with_cksum. rewrite !length_insert.
  split_and!; [|by rewrite S3|by rewrite S1, !length_insert|by rewrite S2].
  unfold seg_data, mtod in *. rewrite S1, S2, S3.
  replace (Z.to_nat (data_off g + i + 17)) with (Z.to_nat (data_off g) + Z.to_nat (i + 17))%nat by (unfold RTE_PKTMBUF_HEADROOM in *; lia).
  replace (Z.to_nat (data_off g + i + 16)) with (Z.to_nat (data_off g) + Z.to_nat (i + 16))%nat by (unfold RTE_PKTMBUF_HEADROOM in *; lia).
  rewrite !drop_insert_ge by lia. rewrite !take_insert_lt by lia. rewrite H1. f_equal; [lia|]. f_equal. lia.
Qed.

Lemma holds_mtod room d g : holds room d g -> exists junk, mtod g = d ++ junk.
Proof. intros (<- & _). exists (drop (Z.to_nat (data_len g)) (mtod g)). symmetry. apply take_drop. Qed.

(** The offloads of a segment that holds the headers. *)
Lemma set_offload_tso room hw o d g :
  holds room d g -> tso_wanted hw o = true -> tcp_headers d (Z.of_nat (length d)) -> 15 <= Z.of_nat (length d) ->
  exists c g', phdr_cksum d = Ok c /\ set_offload hw o g = Ok g' /\ holds room (with_cksum (tcp_at d) c d) g' /\
    next g' = next g /\ nb_segs g' = nb_segs g /\ pkt_len g' = pkt_len g.
Proof.
  intros Hh Hw Ht Hl. destruct (phdr_cksum_ok d Ht) as [c Hc]. exists c.
  destruct (holds_mtod _ _ _ Hh) as [junk Hm]. pose proof Hh as (H1 & H2 & H3 & H4). destruct Ht as [Ht4 Htn].
  pose proof (phdr_cksum_app d junk (conj Ht4 Htn) Hl) as Hcj. rewrite <- Hm, Hc in Hcj.
  destruct (headers_app d junk Hl) as [Hv4 Hat]. rewrite <- Hm in Hv4, Hat. rewrite <- Hat in Htn.
  assert (Z.of_nat (length d) <= Z.of_nat (length (mtod g))) as Hlm by (rewrite Hm, length_app; lia).
  assert (Z.of_nat (length (mtod g)) = room) as Hroom
    by (unfold mtod in *; rewrite length_drop, H4 in *; unfold RTE_PKTMBUF_HEADROOM in *; lia).
  rewrite <- Hv4, <- Hat in Ht4. unfold phdr_cksum in Hcj.
  destruct (byte_at_in (mtod g) 14) as [v Hv]; [lia|].
  assert (byte_at (advance (mtod g) Dispatch.RTE_ETHER_HDR_LEN) 0 = Ok v) as Hv0.
  { unfold Dispatch.RTE_ETHER_HDR_LEN. rewrite byte_at_advance by lia. exact Hv. }
  apply andb_true_iff in Hw as [Hw1 Hw2]. unfold set_offload, hdr_len. rewrite Hv0, Hw1, Hw2. cbn [res_bind].
  match goal with |- context [if ?b then Ok ?x else Ok g] =>
    assert (exists g1, (if b then Ok x else Ok g) = Ok g1 /\ same_frame g g1) as (g1 & -> & S1)
      by (destruct b; eexists; (split; [reflexivity|done])) end.
  cbn [res_bind].
  match goal with |- context [set_tso hw o ?g2 _ _] => assert (same_frame g g2) as S2 by (by destruct (tcp_csum o)); set (h := g2) in * end.
  pose proof S2 as (Sb & So & _). assert (mtod h = mtod g) as Hmh by (unfold mtod; by rewrite Sb, So).
  assert (tcp_at (mtod g) = 14 + (if Z.shiftr v 4 =? 4 then Z.shiftl (Z.land v 15) 2 else sizeof_ipv6_hdr)) as Hi.
  { unfold tcp_at, ip_version4. rewrite Hv. destruct (Z.shiftr v 4 =? 4); [|done]. by rewrite byte_shl2. }
  assert (14 <= tcp_at (mtod g)) as Hpos by (unfold tcp_at; destruct (ip_version4 (mtod g)); [rewrite Hv|]; Z.div_mod_to_equations; lia).
  destruct (byte_at_in (mtod g) (tcp_at (mtod g) + 12)) as [x Hx]; [lia|].
  destruct (set_tso_frame hw o h (Z.shiftr v 4 =? 4) (Z.shiftl (Z.land v 15) 2) x c (tcp_at (mtod g)) Hi) as (g' & -> & Hs).
  - rewrite So, H4. unfold RTE_PKTMBUF_HEADROOM. lia.
  - lia.
  - rewrite So, Sb, H4. lia.
  - rewrite Hmh, byte_at_advance by lia. rewrite <- Hx. f_equal. lia.
  - rewrite Hmh. unfold ip_version4 in Hcj. rewrite Hv in Hcj. exact Hcj.
  - rewrite Hat in Hs, Hpos, Htn. rewrite Sb, So in Hs. pose proof (same_but_frame _ _ _ _ S2 Hs) as Hs'. cbn [res_bind].
    eexists. split; [done|]. split; [done|].
    pose proof (with_cksum_mtod room d g g' (tcp_at d) c Hh ltac:(lia) ltac:(lia) Hs') as Hw.
    destruct Hs' as (_ & _ & _ & ? & ? & ?). by destruct (udp_csum o).
Qed.

Lemma built_patched room st head ms d ds d' pl h h' :
  cells st !! head = Some h -> holds room d' h' -> length d' = length d ->
  next h' = next h -> nb_segs h' = nb_segs h -> pkt_len h' = pkt_len h ->
  built room st head (head :: ms) (d :: ds) pl -> built room (put st head h') head (head :: ms) (d' :: ds) pl.
Proof.
  intros Hh Hh' Hd S4 S5 S6 [B1 B2 B3 B4 (h0 & Hh0 & B5 & B6)]. split; try done.
  - cbn [cells put]. destruct B1 as [(g & Hg & _ & Hn) Hl]. rewrite Hh in Hg. injection Hg as <-. split.
    + exists h'. rewrite lookup_insert_eq. split; [done|]. split; [done|]. by rewrite S4.
    + eapply linked_ext; [|exact Hl]. intros m Hm. apply lookup_insert_ne. intros <-. by apply NoDup_cons in B2 as [? _].
  - exists h'. cbn. rewrite lookup_insert_eq. rewrite Hh in Hh0. injection Hh0 as <-.
    split; [done|]. by rewrite S5, S6.
Qed.

(** The offloads of a packet: what is on the wire after them. *)
Lemma offload_packet room hw o st st' head src :
  pool_ok room st' -> packet_of room st st' head src -> 14 < room ->
  (tso_wanted hw o = true -> tcp_headers src (Z.min room (Z.of_nat (length src)))) ->
  exists h h' wire, cells st' !! head = Some h /\ set_offload hw o h = Ok h' /\ pool_ok room (put st' head h') /\
    on_wire hw o src wire /\ packet_of room st (put st' head h') head wire.
Proof.
  intros Hok (ms & d & ds & P1 & P2 & P3 & Pd & P4) Hroom Ht.
  pose proof (bu_linked _ _ _ _ _ _ P4) as [(h & Hh & Hholds & _) _].
  assert (pool_ok room st' -> forall h', pool_ok room (put st' head h')) as Hput.
  { intros Hp h'. apply pool_ok_put; [|done]. apply (bu_free _ _ _ _ _ _ P4). left. }
  unfold on_wire. destruct (tso_wanted hw o) eqn:Hw.
  - specialize (Ht eq_refl). rewrite <- Pd in Ht. rewrite <- P2 in Ht |- *. cbn [concat] in Ht |- *.
    assert (15 <= Z.of_nat (length d)) as Hd by (by apply (tcp_headers_length _ _ Ht)). destruct (headers_app d (concat ds) Hd) as [Hv Hat].
    unfold tcp_headers in Ht. rewrite Hv, Hat in Ht. rewrite Hat, phdr_cksum_app by done.
    destruct (set_offload_tso room hw o d h Hholds Hw Ht Hd) as (c & h' & Hc & Hso & Hh' & Hn & Hnb & Hpl).
    assert (0 <= tcp_at d) as Hpos.
    { unfold tcp_at. destruct (byte_at d 14), (ip_version4 d); Z.div_mod_to_equations; lia. }
    assert (with_cksum (tcp_at d) c (d ++ concat ds) = concat (with_cksum (tcp_at d) c d :: ds)) as Hcat.
    { unfold with_cksum. destruct Ht as [_ Ht]. cbn [concat]. rewrite !insert_app_l by (rewrite ?length_insert; lia). done. }
    exists h, h', (concat (with_cksum (tcp_at d) c d :: ds)). split; [done|]. split; [done|]. split; [by apply Hput|].
    split; [by exists c|]. exists ms, (with_cksum (tcp_at d) c d), ds.
    assert (length (with_cksum (tcp_at d) c d) = length d) as Hlen by (unfold with_cksum; by rewrite !length_insert).
    assert (length (concat (with_cksum (tcp_at d) c d :: ds)) = length src) as ->
      by (rewrite <- P2; cbn [concat]; by rewrite !length_app, Hlen).
    split; [done|]. split; [done|]. split; [done|]. split; [by rewrite Hlen|]. by eapply built_patched.
  - destruct (set_offload_frame hw o h) as (h' & Hso & Hsame).
    { apply andb_false_iff in Hw as [?|Hw]; [by left|right]. apply negb_false_iff in Hw. lia. }
    { destruct Hholds as (_ & _ & Hb & Ho). unfold mtod. rewrite length_drop, Ho. unfold RTE_PKTMBUF_HEADROOM in *. lia. }
    exists h, h', src. split; [done|]. split; [done|]. split; [by apply Hput|]. split; [done|].
    exists ms, d, ds. split; [done|]. split; [done|]. split; [done|]. split; [done|]. by eapply built_same.
Qed.

(** ** Properties *)

(** C8: [pktmbuf_deep_clone] copies a packet of any number of segments: when
    the pool has as many, the copy is a chain of fresh segments with the same
    bytes, lengths and metadata in the same order, its head counting them in 8
    bits; when it has not, every segment taken goes back to the pool and the
    result is NULL.  The packet itself and every other segment stay as they
    were. *)
Theorem deep_clone_correct room st md l gs fuel :
  pool_ok room st -> linked (fun g g' => g' = g) (cells st) (md :: l) gs None ->
  (forall x, x ∈ md :: l -> x ∉ free st) -> Forall (fits room) gs -> (length l < fuel)%nat ->
  exists st', pool_ok room st' /\ (forall x, x ∉ free st -> cells st' !! x = cells st !! x) /\
    if decide (length gs <= length (free st))%nat then
      exists mc, pktmbuf_deep_clone fuel st md = Ok (st', Some mc) /\ deep_copy room st st' mc gs
    else pktmbuf_deep_clone fuel st md = Ok (st', None) /\ Permutation (free st') (free st).
Proof. apply deep_clone_spec. Qed.


(** [ff_dpdk_raw_packet_send] sends the caller's bytes as a chain of as
    few segments as hold them, or, when the pool runs out, gives every segment
    back, counts the drop and returns -1. *)
Theorem raw_send_correct room fuel s src :
  pool_ok room (tx_pool s) -> (0 < length src < fuel)%nat -> Z.of_nat (length src) < 2 ^ 31 ->
  segs_for room (Z.of_nat (length src)) < 65536 ->
  exists s' ret, ff_dpdk_raw_packet_send fuel s src (Z.of_nat (length src)) = Ok (s', ret) /\
    pool_ok room (tx_pool s') /\
    if decide (segs_for room (Z.of_nat (length src)) <= Z.of_nat (length (free (tx_pool s)))) then
      ret = 0 /\ tx_dropped s' = tx_dropped s /\
      exists head, out s' = out s ++ [head] /\ packet_of room (tx_pool s) (tx_pool s') head src
    else
      ret = -1 /\ out s' = out s /\ Permutation (free (tx_pool s')) (free (tx_pool s)) /\
      tx_dropped s' = u64 (tx_dropped s + (Z.of_nat (length (free (tx_pool s))) + 1)).
Proof.
  intros Hok Hfuel H31 Hsegs. unfold ff_dpdk_raw_packet_send. destruct (po_room _ _ Hok) as [Hr0 Hr1].
  pose proof (segs_for_step room (Z.of_nat (length src)) Hr0 ltac:(lia)) as Hstep.
  pose proof (segs_for_nonneg room (Z.of_nat (length src) - Z.min room (Z.of_nat (length src))) Hr0 ltac:(lia)) as Hnn.
  destruct (free (tx_pool s)) as [|head rest] eqn:Hfree.
  { unfold rte_pktmbuf_alloc. rewrite Hfree. cbn [res_bind]. eexists _, _. split; [done|].
    split; [done|]. rewrite decide_False by (cbn; lia). cbn. by rewrite Hfree. }
  destruct (fill_packet room src (raw_copy src) fuel (tx_pool s) head rest) as (st0 & h & st' & -> & Hget & Hok' & Hoth & Hcase);
    try done; try lia.
  { intros off len H1 H2 H3. unfold raw_copy. destruct (Z.ltb_spec (Z.of_nat (length src)) (off + len)); [lia|done]. }
  cbn [res_bind]. rewrite Hget. cbn [res_bind]. rewrite <- Hfree.
  destruct (decide (segs_for room (Z.of_nat (length src)) <= _)) as [Hle|Hgt].
  - destruct Hcase as [-> Hp]. cbn [res_bind]. eexists _, _. split; [done|]. split; [done|].
    split; [done|]. split; [done|]. by exists head.
  - destruct Hcase as (-> & Hf' & ds & Hb). cbn [res_bind].
    destruct (send_error_spec room fuel s st' head _ ds _ 1 None Hok' Hb) as (st2 & -> & Hok2 & Hp & _).
    { enough (Z.of_nat (length (free (tx_pool s))) < Z.of_nat (length src)) by lia.
      enough (segs_for room (Z.of_nat (length src)) <= Z.of_nat (length src)) by lia.
      unfold segs_for. apply Z.lt_succ_r, Z.div_lt_upper_bound; nia. }
    eexists _, _. split; [done|]. split; [done|]. split; [done|]. split; [done|].
    split; [|done]. cbn. by rewrite Hp, Hf', app_nil_r.
Qed.

(** Of an IPv4 packet to be segmented by the NIC, [ff_dpdk_if_send] gives
    the lengths of the Ethernet, IP and TCP headers and the segment size, sets
    the segmentation and IPv4 flags, and puts the pseudo header checksum in
    the TCP header; every other byte of the segment stays. *)
Theorem tso_offload_correct hw o g v x :
  tx_csum_l4 hw = true -> tso_seg_size o <> 0 -> 0 <= data_off g ->
  byte_at (mtod g) 14 = Ok v -> v / 16 = 4 -> 0 <= v ->
  byte_at (mtod g) (14 + 4 * (v mod 16) + 12) = Ok x -> 0 <= x < 256 ->
  34 <= Z.of_nat (length (mtod g)) -> 14 + 4 * (v mod 16) + 18 <= Z.of_nat (length (mtod g)) ->
  exists g', set_offload hw o g = Ok g' /\ tso_request g g' v (tso_seg_size o).
Proof. apply tso_v4. Qed.

(** [ff_veth_input] hands the stack the packet: one stack mbuf for each
    segment, in order and with its length, and the VLAN tag the NIC took off,
    when there are enough; with no
    stack mbuf at all, or when the NIC found a wrong checksum, every segment
    of the packet goes back to the pool and the stack sees nothing. *)
Theorem veth_input_correct fuel rx_csum s pkt l g gs :
  linked (fun g g' => g' = g) (cells (rx_pool s)) (pkt :: l) (g :: gs) None -> NoDup (pkt :: l) ->
  (S (length l) < fuel)%nat ->
  let bad := rx_csum && negb (Z.land (ol_flags (meta g))
    (Z.lor RTE_MBUF_F_RX_IP_CKSUM_BAD RTE_MBUF_F_RX_L4_CKSUM_BAD) =? 0) in
  (bad = true \/ mbufs_left s = O ->
    exists s', ff_veth_input fuel rx_csum s pkt = Ok s' /\ stack s' = stack s /\
      free (rx_pool s') = reverse (pkt :: l) ++ free (rx_pool s)) /\
  (bad = false -> (length (pkt :: l) <= mbufs_left s)%nat ->
    exists s', ff_veth_input fuel rx_csum s pkt = Ok s' /\ rx_pool s' = rx_pool s /\
      mbufs_left s' = (mbufs_left s - length (pkt :: l))%nat /\
      stack s' = stack s ++
        [mk_chain (zip (pkt :: l) (data_len <$> g :: gs)) (u16 (pkt_len g)) rx_csum
           (if Z.land (ol_flags (meta g)) RTE_MBUF_F_RX_VLAN_STRIPPED =? 0 then None
            else Some (vlan_tci (meta g)))]).
Proof.
  intros Hl Hnd Hfuel bad. pose proof Hl as [(g0 & Hg & -> & Hn) Hl'].
  unfold ff_veth_input, get. rewrite Hg. cbn [res_bind]. fold bad. split.
  - destruct (free_chain _ _ _ _ _ fuel Hl Hnd ltac:(lia)) as (st' & Hfree & Hf & _).
    rewrite Hfree. cbn [res_bind]. intros Hcase.
    destruct bad; [eexists; by split|]. destruct Hcase as [|Hz]; [done|]. rewrite Hz. eexists. by split.
  - intros -> Hle. destruct (mbufs_left s) as [|n]; [cbn in Hle; lia|].
    cbn [ff_mbuf_gethdr]. rewrite (wrap_loop_spec fuel _ n _ l gs) by (done || lia). cbn in Hle. cbn zeta.
    rewrite decide_True by lia. cbn [res_bind]. eexists. split; [done|]. split; [done|]. split; [done|].
    cbn [stack]. do 2 f_equal. by destruct (Z.land _ RTE_MBUF_F_RX_VLAN_STRIPPED =? 0).
Qed.

(** When the stack runs out of mbufs in the middle of a packet,
    [ff_veth_input] frees its first segment twice, and the segments it had not
    come to are lost: the pool holds the first segment twice and none of
    those. *)
Theorem veth_input_double_free fuel rx_csum s pkt l g gs :
  linked (fun g g' => g' = g) (cells (rx_pool s)) (pkt :: l) (g :: gs) None -> NoDup (pkt :: l) ->
  (forall m, m ∈ pkt :: l -> m ∉ free (rx_pool s)) -> (S (length l) < fuel)%nat ->
  Z.land (ol_flags (meta g)) (Z.lor RTE_MBUF_F_RX_IP_CKSUM_BAD RTE_MBUF_F_RX_L4_CKSUM_BAD) = 0 ->
  (0 < mbufs_left s <= length l)%nat ->
  exists s' pre, ff_veth_input fuel rx_csum s pkt = Ok s' /\
    free (rx_pool s') = pkt :: pre ++ pkt :: free (rx_pool s) /\
    forall m, m ∈ drop (mbufs_left s) (pkt :: l) -> m ∉ free (rx_pool s').
Proof.
  intros Hl Hnd Hdis Hfuel Hgood [Hpos Hle]. pose proof Hl as [(g0 & Hg & -> & Hn) Hl'].
  pose proof (linked_length _ _ _ _ _ Hl') as Hlen.
  unfold ff_veth_input, get. rewrite Hg. cbn [res_bind]. rewrite Hgood. cbn [Z.eqb negb]. rewrite andb_false_r.
  destruct (mbufs_left s) as [|n]; [lia|].
  cbn [ff_mbuf_gethdr]. rewrite (wrap_loop_spec fuel _ n _ l gs) by (done || lia). cbn zeta.
  rewrite decide_False by lia. cbn [res_bind].
  match goal with |- context [add_segs ?h ?l] => replace (rx_segs (add_segs h l)) with ([(pkt, data_len g)] ++ l)
    by (by destruct (Z.land _ RTE_MBUF_F_RX_VLAN_STRIPPED =? 0)) end.
  set (hdr := [(pkt, data_len g)] ++ take n (zip l (data_len <$> gs))).
  assert (fst <$> hdr = pkt :: take n l) as Hhdr.
  { unfold hdr. cbn. f_equal. rewrite fmap_take, fst_zip; [done|]. rewrite length_fmap. lia. }
  destruct (ff_mbuf_free_spec (rx_pool s) hdr) as (st1 & -> & Hf1 & Hn1 & Ho1).
  { intros m k Hin. apply (list_elem_of_fmap_2 fst) in Hin. rewrite Hhdr in Hin. cbn in Hin.
    destruct (linked_in _ _ _ _ _ m Hl) as [gm Hgm]; [|by exists gm].
    apply elem_of_cons in Hin as [->|Hin]; [left|right].
    by eapply elem_of_take in Hin as (? & ? & _); eapply list_elem_of_lookup_2. }
  cbn [res_bind]. rewrite Hhdr in *.
  destruct (Hn1 pkt ltac:(by exists g)) as (g1 & Hg1 & Hnext1).
  destruct fuel as [|fuel]; [lia|]. cbn [rte_pktmbuf_free]. unfold rte_pktmbuf_free_seg, get.
  rewrite Hg1. cbn [res_bind]. rewrite Hnext1 by left. eexists _, (reverse (take n l)). split; [done|].
  cbn [rx_pool free]. rewrite Hf1, reverse_cons, <- app_assoc. split; [done|].
  intros m Hm. cbn [drop skipn] in Hm. apply NoDup_cons in Hnd as [Hnin Hnd].
  assert (m ∈ l) as Hml by (rewrite <- (take_drop n l); apply elem_of_app; by right).
  rewrite elem_of_cons, elem_of_app, elem_of_reverse. cbn. rewrite elem_of_cons.
  intros [->|[Ht|[->|Hf]]]; [done| |done|].
  - rewrite <- (take_drop n l) in Hnd. apply NoDup_app in Hnd as (_ & Hd & _). by apply (Hd m).
  - apply (Hdis m); [by right|done].
Qed.

(** ** Witnesses *)

Definition demo_meta : seg_meta := mk_meta 0 0 0 (mk_tx_off 0 0 0 0) 0 0 0.
Definition demo_seg (n : option Z) (d : list Z) : seg :=
  mk_seg (replicate 128 0 ++ d ++ replicate (100 - length d) 0) 128 (Z.of_nat (length d)) n 1
    (Z.of_nat (length d)) demo_meta.

(** Segments of 100 bytes; 1, 2 and 3 are free, 8 and 9 are a packet. *)
Definition demo_pool : pool :=
  mk_pool (<[1 := demo_seg None []]> (<[2 := demo_seg None []]> (<[3 := demo_seg None []]>
    (<[8 := demo_seg (Some 9) [11; 12]]> {[9 := demo_seg None [13]]})))) [1; 2; 3].

Lemma demo_pool_ok : pool_ok 100 demo_pool.
Proof.
  split.
  - unfold RTE_PKTMBUF_HEADROOM. lia.
  - cbn. repeat constructor; rewrite ?elem_of_cons, ?elem_of_nil; naive_solver.
  - intros m Hm. cbn in Hm. rewrite !elem_of_cons, elem_of_nil in Hm.
    destruct Hm as [->|[->|[->|[]]]]; (exists (demo_seg None []); split; reflexivity).
Qed.

Definition demo_gs : list seg := [demo_seg (Some 9) [11; 12]; demo_seg None [13]].

Lemma demo_linked :
  linked (fun g g' => g' = g) (cells demo_pool) [8; 9] demo_gs None.
Proof.
  split; [exists (demo_seg (Some 9) [11; 12]); done|].
  split; [exists (demo_seg None [13]); done|done].
Qed.

Lemma demo_not_free x : x ∈ [8; 9] -> x ∉ free demo_pool.
Proof. rewrite !elem_of_cons, elem_of_nil. cbn. intros [->|[->|[]]]; rewrite !elem_of_cons, elem_of_nil; lia. Qed.

Lemma deep_clone_correct_witness :
  exists st', pool_ok 100 st' /\ (forall x, x ∉ free demo_pool -> cells st' !! x = cells demo_pool !! x) /\
    if decide (length demo_gs <= length (free demo_pool))%nat then
      exists mc, pktmbuf_deep_clone 3 demo_pool 8 = Ok (st', Some mc) /\
        deep_copy 100 demo_pool st' mc demo_gs
    else pktmbuf_deep_clone 3 demo_pool 8 = Ok (st', None) /\ Permutation (free st') (free demo_pool).
Proof.
  apply (deep_clone_correct 100 demo_pool 8 [9] demo_gs 3).
  - exact demo_pool_ok.
  - exact demo_linked.
  - exact demo_not_free.
  - repeat constructor; vm_compute; discriminate.
  - cbn. lia.
Defined.

(** An Ethernet, an IPv4 and a TCP header of 20 bytes each. *)
Definition demo_headers : list Z :=
  replicate 14 0 ++ [0x45; 0; 0; 0; 0; 0; 0; 0; 64; 6; 0; 0; 10; 0; 0; 1; 10; 0; 0; 2] ++
    [0; 80; 0; 80; 0; 0; 0; 1; 0; 0; 0; 1; 0x50; 0x10; 1; 0; 0; 0; 0; 0].

(** 96 bytes behind them, to be sent 40 at a time. *)
Definition demo_bsd : bsd_mbuf := mk_bsd [demo_headers; replicate 96 2] 150 CSUM_IP_TSO 40.
Definition demo_txs : tx_state := mk_tx demo_pool 0 [] [].


Lemma raw_send_correct_witness :
  exists s' ret, ff_dpdk_raw_packet_send 500 demo_txs (replicate 350 7) 350 = Ok (s', ret) /\
    pool_ok 100 (tx_pool s') /\
    if decide (segs_for 100 350 <= 3) then
      ret = 0 /\ tx_dropped s' = 0 /\
      exists head, out s' = [head] /\ packet_of 100 demo_pool (tx_pool s') head (replicate 350 7)
    else
      ret = -1 /\ out s' = [] /\ Permutation (free (tx_pool s')) (free demo_pool) /\
      tx_dropped s' = u64 (0 + (3 + 1)).
Proof.
  apply (raw_send_correct 100 500 demo_txs (replicate 350 7)).
  - exact demo_pool_ok.
  - cbn. lia.
  - cbn. lia.
  - vm_compute. reflexivity.
Defined.

Definition demo_tcp : seg := demo_seg None demo_headers.

Lemma tso_offload_correct_witness :
  exists g', set_offload (mk_hw true true) (mk_offload true true false false 1448) demo_tcp = Ok g' /\
    tso_request demo_tcp g' 0x45 1448.
Proof.
  apply (tso_offload_correct (mk_hw true true) (mk_offload true true false false 1448) demo_tcp 0x45 0x50).
  - reflexivity.
  - discriminate.
  - cbn. lia.
  - reflexivity.
  - reflexivity.
  - lia.
  - reflexivity.
  - lia.
  - vm_compute. discriminate.
  - vm_compute. discriminate.
Defined.

Definition demo_rxs (n : nat) : rx_state := mk_rx demo_pool n [].

Lemma veth_input_correct_witness :
  exists s', ff_veth_input 5 true (demo_rxs 4) 8 = Ok s' /\ rx_pool s' = demo_pool /\
    mbufs_left s' = 2%nat /\ stack s' = [mk_chain [(8, 2); (9, 1)] 2 true None].
Proof.
  apply (veth_input_correct 5 true (demo_rxs 4) 8 [9] (demo_seg (Some 9) [11; 12]) [demo_seg None [13]]).
  - exact demo_linked.
  - repeat constructor; rewrite ?elem_of_cons, ?elem_of_nil; lia.
  - cbn. lia.
  - reflexivity.
  - cbn. lia.
Defined.

Lemma veth_input_double_free_witness :
  exists s' pre, ff_veth_input 5 true (demo_rxs 1) 8 = Ok s' /\
    free (rx_pool s') = 8 :: pre ++ 8 :: [1; 2; 3] /\
    forall m, m ∈ [9] -> m ∉ free (rx_pool s').
Proof.
  apply (veth_input_double_free 5 true (demo_rxs 1) 8 [9] (demo_seg (Some 9) [11; 12]) [demo_seg None [13]]).
  - exact demo_linked.
  - repeat constructor; rewrite ?elem_of_cons, ?elem_of_nil; lia.
  - exact demo_not_free.
  - cbn. lia.
  - reflexivity.
  - cbn. lia.
Defined.
