(* ===== verification/SoZone.v ===== *)
(** * The zone of socket contexts ([adapter/syscall])

    The system call adapter lets unmodified applications use the stack of
    another process: each application thread attaches to a context of a zone
    in shared memory ([ff_so_zone.c]), puts its calls there, and the stack's
    process goes over the contexts and runs the calls
    ([ff_handle_each_context] of [ff_socket_ops.c]).

    This file has the zone and one pass of the stack over it; [Rpc] has the
    protocol on one context, access by access.  The build without
    [FF_USE_RING_IPC] and [FF_MULTI_SC] is modelled. *)

From S2P Require Import Prelude.

Module SoZone.

Definition SOCKET_OPS_CONTEXT_MAX_NUM : Z := 32.

(** The operations the pass tells apart; [FF_SO_OTHER] is any of the rest, by
    its number. *)
Inductive FF_SOCKET_OPS :=
| FF_SO_EPOLL_WAIT
| FF_SO_KEVENT
| FF_SO_OTHER (n : Z).

Definition is_event_op (op : FF_SOCKET_OPS) : bool :=
  match op with FF_SO_EPOLL_WAIT | FF_SO_KEVENT => true | FF_SO_OTHER _ => false end.

Inductive FF_SO_CONTEXT_STATUS := FF_SC_IDLE | FF_SC_REQ | FF_SC_REP.

#[export] Instance status_eq_dec : EqDecision FF_SO_CONTEXT_STATUS.
Proof. solve_decision. Defined.

(** [sc_locked]: another thread has the context's lock. *)
Record ff_so_context := mk_sc {
  sc_ops : FF_SOCKET_OPS;
  sc_args : Z;
  sc_status : FF_SO_CONTEXT_STATUS;
  sc_locked : bool;
  sc_error : Z;
  sc_result : Z;
  sc_idx : Z;
  sc_refcount : Z;
  sc_sem : Z
}.

Record ff_socket_ops_zone := mk_zone {
  count : Z;
  mask : Z;
  free : Z;
  idx : Z;
  inuse : list Z;
  sc : list ff_so_context
}.

(** ** Setting up *)

Definition is_power_of_2 (n : Z) : bool :=
  negb (n =? 0) && (Z.land n (wrapu 64 (n - 1)) =? 0).

(** The result and the new [ff_max_so_context]; [zone] tells whether the
    thread has a zone already. *)
Definition ff_set_max_so_context (zone : bool) (ff_max_so_context cnt : Z) : Z * Z :=
  if zone then (-1, ff_max_so_context)
  else if negb (is_power_of_2 cnt) then (-1, ff_max_so_context)
  else
    let cnt := if SOCKET_OPS_CONTEXT_MAX_NUM <? cnt then SOCKET_OPS_CONTEXT_MAX_NUM else cnt in
    (0, cnt).

(** The zone [ff_create_so_memzone] sets up for a process, in memory that was
    set to 0. *)
Definition init_context (i : Z) : ff_so_context :=
  mk_sc (FF_SO_OTHER 0) 0 FF_SC_IDLE false 0 0 i 0 0.

Definition create_zone (ff_max_so_context : Z) : ff_socket_ops_zone :=
  let cnt := u8 ff_max_so_context in
  mk_zone cnt (u8 (cnt - 1)) cnt 0
    (replicate (Z.to_nat SOCKET_OPS_CONTEXT_MAX_NUM) 0)
    (init_context <$> seqZ 0 ff_max_so_context).

(** ** Attaching and detaching *)

(** [for (i = 0; i < count; i++)] of [ff_attach_so_context]: the new zone and
    the context, or [None] when [i] comes to [count]. *)
Fixpoint attach_loop (k : nat) (z : ff_socket_ops_zone) (i : Z) :
    res (ff_socket_ops_zone * option Z) :=
  match k with
  | O => Ok (z, None)
  | S k =>
      let j := Z.land (u16 (idx z + i)) (mask z) in
      let* used := array_get (inuse z) j in
      if used =? 0 then
        let* iu := array_set (inuse z) j 1 in
        let* c := array_get (sc z) j in
        let c := mk_sc (sc_ops c) (sc_args c) FF_SC_IDLE false (sc_error c) (sc_result c) (sc_idx c) 1
                   (sc_sem c) in
        let* scs := array_set (sc z) j c in
        Ok (mk_zone (count z) (mask z) (u8 (free z - 1)) (u8 (j + 1)) iu scs, Some j)
      else attach_loop k z (i + 1)
  end.

Definition ff_attach_so_context (z : ff_socket_ops_zone) : res (ff_socket_ops_zone * option Z) :=
  if free z =? 0 then Ok (z, None)
  else attach_loop (Z.to_nat (count z)) z 0.

(** [j] is the context's place in the zone. *)
Definition ff_detach_so_context (z : ff_socket_ops_zone) (j : Z) : res ff_socket_ops_zone :=
  let* c := array_get (sc z) j in
  if 1 <? sc_refcount c then
    let c := mk_sc (sc_ops c) (sc_args c) (sc_status c) (sc_locked c) (sc_error c) (sc_result c) (sc_idx c)
               (s32 (sc_refcount c - 1)) (sc_sem c) in
    let* scs := array_set (sc z) j c in
    Ok (mk_zone (count z) (mask z) (free z) (idx z) (inuse z) scs)
  else
    let* used := array_get (inuse z) (sc_idx c) in
    if used =? 1 then
      let* iu := array_set (inuse z) (sc_idx c) 0 in
      Ok (mk_zone (count z) (mask z) (u8 (free z + 1)) (u8 (sc_idx c)) iu (sc z))
    else Ok z.

(** ** The stack's pass over the contexts *)

Section Pass.
Context {W : Type}.

(** [ff_so_handler] on the stack's state: its result, [errno] and
    [sem_flag]. *)
Variable ff_so_handler : W -> FF_SOCKET_OPS -> Z -> W * Z * Z * Z.

Definition ff_handle_socket_ops (w : W) (c : ff_so_context) : W * ff_so_context :=
  if sc_locked c then (w, c)
  else if decide (sc_status c <> FF_SC_REQ) then (w, c)
  else
    let '(w, result, error, sem_flag) := ff_so_handler w (sc_ops c) (sc_args c) in
    let '(status, sem) :=
      if is_event_op (sc_ops c) then
        if sem_flag =? 1 then (FF_SC_REP, sc_sem c + 1) else (sc_status c, sc_sem c)
      else (FF_SC_REP, sc_sem c) in
    (w, mk_sc (sc_ops c) (sc_args c) status (sc_locked c) error result (sc_idx c) (sc_refcount c) sem).

(** [for (i = 0; i < count; i++)], with the early [break]. *)
Fixpoint pass_loop (k : nat) (z : ff_socket_ops_zone) (w : W) (scs : list ff_so_context)
    (i nb_handled : Z) : res (W * list ff_so_context) :=
  match k with
  | O => Ok (w, scs)
  | S k =>
      let* c := array_get scs i in
      let* used := array_get (inuse z) i in
      if used =? 0 then pass_loop k z w scs (i + 1) nb_handled
      else
        let* (w, scs) :=
          if decide (sc_status c = FF_SC_REQ) then
            let '(w, c) := ff_handle_socket_ops w c in
            let* scs := array_set scs i c in
            Ok (w, scs)
          else Ok (w, scs) in
        let nb_handled := u16 (nb_handled - 1) in
        if nb_handled =? 0 then Ok (w, scs) else pass_loop k z w scs (i + 1) nb_handled
  end.

(** One round of the [while (1)] of [ff_handle_each_context], under the zone's
    lock. *)
Definition handle_pass (z : ff_socket_ops_zone) (w : W) : res (W * list ff_so_context) :=
  if count z <? free z then Panic
  else
    let tmp := u16 (count z - free z) in
    if tmp =? 0 then Ok (w, sc z) else pass_loop (Z.to_nat (count z)) z w (sc z) 0 tmp.
End Pass.
End SoZone.
