(* ===== verification/SoZoneProofs.v ===== *)
(** * Proofs about the zone of socket contexts

    The zone keeps a set of contexts in use: attaching takes one that is not
    in it, and fails only when all are; the stack's pass runs every call that
    waits in a context in use. *)

From stdpp Require Import gmap fin_sets.
From S2P Require Import Prelude SoZone.

Import SoZone.

(** ** Counting *)

Fixpoint zeros (l : list Z) : Z :=
  match l with [] => 0 | x :: l => (if x =? 0 then 1 else 0) + zeros l end.

Lemma zeros_range l : 0 <= zeros l <= Z.of_nat (length l).
Proof. induction l as [|x l IH]; cbn [zeros length]; [lia|]. destruct (x =? 0); lia. Qed.

Lemma zeros_app l k : zeros (l ++ k) = zeros l + zeros k.
Proof. induction l as [|x l IH]; cbn; [done|]. rewrite IH. lia. Qed.

Lemma zeros_insert l i x y :
  l !! i = Some x -> zeros (<[i := y]> l) = zeros l - (if x =? 0 then 1 else 0) + (if y =? 0 then 1 else 0).
Proof.
  revert i. induction l as [|z l IH]; intros [|i] Hi; try done; cbn in Hi.
  - injection Hi as ->. cbn. lia.
  - change (<[S i := y]> (z :: l)) with (z :: <[i := y]> l). cbn [zeros]. rewrite (IH i Hi). lia.
Qed.

Lemma zeros_none l i : zeros l = 0 -> (i < length l)%nat -> exists x, l !! i = Some x /\ x <> 0.
Proof.
  revert i. induction l as [|z l IH]; intros i Hz Hi; [cbn in Hi; lia|]. cbn in Hz.
  pose proof (zeros_range l). destruct (Z.eqb_spec z 0); [lia|].
  destruct i as [|i]; [by exists z|]. apply IH; [lia|cbn in Hi; lia].
Qed.

Lemma zeros_some l i : l !! i = Some 0 -> 0 < zeros l.
Proof.
  revert i. induction l as [|z l IH]; intros [|i] Hi; try done; cbn in Hi |- *.
  - injection Hi as ->. pose proof (zeros_range l). cbn. lia.
  - specialize (IH i Hi). destruct (z =? 0); lia.
Qed.

(** ** The zone *)

Record zone_ok (z : ff_socket_ops_zone) : Prop := {
  zo_count : exists k, 0 <= k <= 5 /\ count z = 2 ^ k;
  zo_mask : mask z = count z - 1;
  zo_inuse : Z.of_nat (length (inuse z)) = SOCKET_OPS_CONTEXT_MAX_NUM;
  zo_bits : Forall (fun x => x = 0 \/ x = 1) (inuse z);
  zo_sc : Z.of_nat (length (sc z)) = count z;
  zo_idxs : forall j c, sc z !! j = Some c -> sc_idx c = Z.of_nat j;
  zo_free : free z = zeros (take (Z.to_nat (count z)) (inuse z));
  zo_idx : 0 <= idx z <= count z
}.

Lemma count_cases z : zone_ok z -> 1 <= count z <= 32.
Proof.
  intros [(k & Hk & ->) _ _ _ _ _ _ _].
  assert (k = 0 \/ k = 1 \/ k = 2 \/ k = 3 \/ k = 4 \/ k = 5) as Hc by lia.
  destruct Hc as [->|[->|[->|[->|[->| ->]]]]]; cbn; lia.
Qed.

Lemma zone_slot z i : zone_ok z -> 0 <= i -> i <= count z ->
  Z.land (u16 (idx z + i)) (mask z) = (idx z + i) mod count z.
Proof.
  intros Hz H0 Hi. pose proof (count_cases z Hz). destruct Hz as [(k & Hk & Hc) Hm _ _ _ _ _ Hx].
  rewrite wrapu_small by lia. rewrite Hm, Hc. apply land_mask. lia.
Qed.

Lemma inuse_at z j : zone_ok z -> 0 <= j < count z ->
  exists x, array_get (inuse z) j = Ok x /\ inuse z !! Z.to_nat j = Some x /\ (x = 0 \/ x = 1).
Proof.
  intros Hz Hj. pose proof (count_cases z Hz). destruct Hz as [_ _ Hl Hb _ _ _ _].
  unfold SOCKET_OPS_CONTEXT_MAX_NUM in Hl.
  destruct (array_get_lt (inuse z) j ltac:(lia)) as (x & Hx & Hlk). exists x. split; [done|]. split; [done|].
  rewrite Forall_lookup in Hb. by eapply Hb.
Qed.

Lemma sc_at z j : zone_ok z -> 0 <= j < count z ->
  exists c, array_get (sc z) j = Ok c /\ sc z !! Z.to_nat j = Some c /\ sc_idx c = j.
Proof.
  intros Hz Hj. destruct Hz as [_ _ _ _ Hl Hi _ _].
  destruct (array_get_lt (sc z) j ltac:(lia)) as (c & Hc & Hlk). exists c. split; [done|]. split; [done|].
  rewrite (Hi _ _ Hlk). lia.
Qed.

(** Changing one mark. *)
Lemma zone_ok_mark z j x y f i scs :
  zone_ok z -> 0 <= j < count z -> inuse z !! Z.to_nat j = Some x -> y = 0 \/ y = 1 ->
  f = free z - (if x =? 0 then 1 else 0) + (if y =? 0 then 1 else 0) -> 0 <= i <= count z ->
  length scs = length (sc z) -> (forall j c, scs !! j = Some c -> sc_idx c = Z.of_nat j) ->
  zone_ok (mk_zone (count z) (mask z) f i (<[Z.to_nat j := y]> (inuse z)) scs).
Proof.
  intros [H1 H2 H3 H4 H5 H6 H7 H8] Hj Hx Hy Hf Hi Hlen Hidx. split; cbn; try done.
  - by rewrite length_insert.
  - by apply Forall_insert.
  - by rewrite Hlen.
  - rewrite Hf, H7, take_insert_lt by lia. rewrite (zeros_insert _ _ x); [done|].
    rewrite lookup_take_lt by lia. done.
Qed.

(** The contexts in use. *)
Definition used (z : ff_socket_ops_zone) : gset Z :=
  list_to_set (filter (fun j => inuse z !! Z.to_nat j = Some 1) (seqZ 0 (count z))).

Lemma elem_of_used z j : j ∈ used z <-> 0 <= j < count z /\ inuse z !! Z.to_nat j = Some 1.
Proof. unfold used. rewrite elem_of_list_to_set, list_elem_of_filter, elem_of_seqZ. split; intros [? ?]; split; done || lia. Qed.

(** ** Attaching *)

(** The first [i] slots from [idx] on are taken: a free one is among the rest. *)
Lemma attach_loop_spec k z i :
  zone_ok z -> 0 <= i -> i + Z.of_nat k = count z ->
  (forall m, 0 <= m < i -> inuse z !! Z.to_nat ((idx z + m) mod count z) = Some 1) ->
  (attach_loop k z i = Ok (z, None) /\
     forall m, 0 <= m < count z -> inuse z !! Z.to_nat ((idx z + m) mod count z) = Some 1) \/
  exists m j c, 0 <= m < count z /\ j = (idx z + m) mod count z /\ inuse z !! Z.to_nat j = Some 0 /\
    (forall m', 0 <= m' < m -> inuse z !! Z.to_nat ((idx z + m') mod count z) = Some 1) /\
    sc z !! Z.to_nat j = Some c /\
    attach_loop k z i = Ok (mk_zone (count z) (mask z) (u8 (free z - 1)) (u8 (j + 1))
      (<[Z.to_nat j := 1]> (inuse z))
      (<[Z.to_nat j := mk_sc (sc_ops c) (sc_args c) FF_SC_IDLE false (sc_error c) (sc_result c) (sc_idx c) 1
                         (sc_sem c)]> (sc z)), Some j).
Proof.
  intros Hz. pose proof (count_cases z Hz) as Hcnt. revert i.
  induction k as [|k IH]; intros i Hi Hk Hprev.
  { left. split; [done|]. intros m Hm. apply Hprev. lia. }
  cbn [attach_loop]. rewrite (zone_slot z i Hz) by lia.
  pose proof (Z.mod_pos_bound (idx z + i) (count z) ltac:(lia)) as Hj.
  set (j := (idx z + i) mod count z) in *.
  destruct (inuse_at z j Hz Hj) as (x & -> & Hx & Hx01). cbn [res_bind].
  destruct (Z.eqb_spec x 0) as [->|Hne].
  - right. destruct (sc_at z j Hz Hj) as (c & Hgc & Hc & _). exists i, j, c.
    split; [lia|]. split; [done|]. split; [done|]. split; [done|]. split; [done|].
    pose proof (zo_inuse z Hz) as Hlen. pose proof (zo_sc z Hz) as Hlsc. unfold SOCKET_OPS_CONTEXT_MAX_NUM in Hlen.
    rewrite array_set_lt by lia. cbn [res_bind]. rewrite Hgc. cbn [res_bind].
    rewrite array_set_lt by lia. done.
  - apply IH; [lia|lia|]. intros m Hm. destruct (decide (m = i)) as [->|]; [|apply Hprev; lia].
    fold j. rewrite Hx. f_equal. lia.
Qed.

(** Every slot comes by. *)
Lemma slot_covers i n j : 0 < n -> 0 <= j < n -> exists m, 0 <= m < n /\ (i + m) mod n = j.
Proof.
  intros Hn Hj. exists ((j - i) mod n). split; [apply Z.mod_pos_bound; lia|].
  rewrite Zplus_mod_idemp_r. replace (i + (j - i)) with j by lia. apply Z.mod_small. lia.
Qed.

(** Attaching as a whole. *)
Lemma zone_attach_spec z :
  zone_ok z ->
  exists z' r, ff_attach_so_context z = Ok (z', r) /\ zone_ok z' /\ count z' = count z /\
    match r with
    | None => z' = z /\ free z = 0 /\ used z = list_to_set (seqZ 0 (count z))
    | Some j => (j ∉ used z) /\ 0 <= j < count z /\ used z' = {[j]} ∪ used z /\ free z' = free z - 1 /\
        (exists c, sc z' !! Z.to_nat j = Some c /\ sc_status c = FF_SC_IDLE /\ sc_refcount c = 1) /\
        (forall i, i <> j -> 0 <= i -> sc z' !! Z.to_nat i = sc z !! Z.to_nat i)
    end.
Proof.
  intros Hz. pose proof (count_cases z Hz) as Hcnt. unfold ff_attach_so_context.
  assert (forall j, 0 <= j < count z -> inuse z !! Z.to_nat j = Some 0 -> 0 < free z) as Hpos.
  { intros j Hj H0. rewrite (zo_free z Hz). apply (zeros_some _ (Z.to_nat j)).
    rewrite lookup_take_lt by lia. done. }
  assert (free z = 0 -> used z = list_to_set (seqZ 0 (count z))) as Hfull.
  { intros H0. apply set_eq. intros j. rewrite elem_of_used, elem_of_list_to_set, elem_of_seqZ.
    split; [intros [? _]; lia|]. intros Hj. split; [lia|].
    destruct (inuse_at z j Hz ltac:(lia)) as (x & _ & Hx & [->| ->]); [|done].
    specialize (Hpos j ltac:(lia) Hx). lia. }
  destruct (Z.eqb_spec (free z) 0) as [H0|Hne].
  { exists z, None. split; [done|]. split; [done|]. split; [done|]. auto. }
  destruct (attach_loop_spec (Z.to_nat (count z)) z 0 Hz) as [[_ Hall]|Hsome]; [lia|lia|lia| |].
  { exfalso. apply Hne. rewrite (zo_free z Hz).
    pose proof (zo_inuse z Hz) as Hlen. unfold SOCKET_OPS_CONTEXT_MAX_NUM in Hlen.
    assert (forall l, (forall i x, l !! i = Some x -> x = 1) -> zeros l = 0) as Hzero.
    { intros l. induction l as [|x l IHl]; intros Hl; [done|]. cbn. rewrite (Hl O x eq_refl). cbn.
      apply IHl. intros i y Hy. apply (Hl (S i)). done. }
    apply Hzero. intros i x Hx. apply lookup_take_Some in Hx as [Hx Hi].
    destruct (slot_covers (idx z) (count z) (Z.of_nat i)) as (m & Hm & Hmi); [lia|lia|].
    specialize (Hall m Hm). rewrite Hmi, Nat2Z.id in Hall. congruence. }
  destruct Hsome as (m & j & c & Hm & Hj & H0 & _ & Hc & ->).
  assert (0 <= j < count z) as Hjr by (rewrite Hj; apply Z.mod_pos_bound; lia).
  pose proof (zo_free z Hz) as Hfree. pose proof (zeros_range (take (Z.to_nat (count z)) (inuse z))) as Hzr.
  rewrite length_take in Hzr. specialize (Hpos j Hjr H0).
  eexists _, (Some j). split; [done|]. split; [|split; [done|]].
  - apply (zone_ok_mark z j 0); try done; [by right| | | |].
    + rewrite wrapu_small by lia. cbn. lia.
    + rewrite wrapu_small by lia. lia.
    + apply length_insert.
    + intros i c' Hc'. destruct (decide (i = Z.to_nat j)) as [->|Hij].
      * rewrite list_lookup_insert_eq in Hc' by (eapply lookup_lt_Some; exact Hc). injection Hc' as <-.
        cbn. by apply (zo_idxs z Hz).
      * rewrite list_lookup_insert_ne in Hc' by done. by apply (zo_idxs z Hz).
  - pose proof (zo_inuse z Hz) as Hlen. unfold SOCKET_OPS_CONTEXT_MAX_NUM in Hlen.
    split; [rewrite elem_of_used; intros [_ H1]; congruence|]. split; [done|]. split; [|split; [|split]].
    + apply set_eq. intros i. rewrite elem_of_union, elem_of_singleton, !elem_of_used. cbn.
      destruct (decide (i = j)) as [->|Hij].
      * rewrite list_lookup_insert_eq by lia. split; [by left|done].
      * split.
        -- intros [Hi H1]. right. split; [done|]. by rewrite list_lookup_insert_ne in H1 by lia.
        -- intros [?|[Hi H1]]; [done|]. split; [done|]. by rewrite list_lookup_insert_ne by lia.
    + cbn. rewrite wrapu_small by lia. done.
    + eexists. cbn. rewrite list_lookup_insert_eq by (eapply lookup_lt_Some; exact Hc). by split.
    + intros i Hij Hi. cbn. by rewrite list_lookup_insert_ne by lia.
Qed.

(** ** Detaching *)

Lemma detach_spec z j :
  zone_ok z -> 0 <= j < count z ->
  exists z' c, ff_detach_so_context z j = Ok z' /\ sc z !! Z.to_nat j = Some c /\ zone_ok z' /\
    count z' = count z /\
    if 1 <? sc_refcount c then
      used z' = used z /\ free z' = free z /\
      exists c', sc z' !! Z.to_nat j = Some c' /\ sc_refcount c' = s32 (sc_refcount c - 1)
    else used z' = used z ∖ {[j]} /\ sc z' = sc z /\
      free z' = (if decide (j ∈ used z) then free z + 1 else free z).
Proof.
  intros Hz Hj. pose proof (count_cases z Hz) as Hcnt. unfold ff_detach_so_context.
  destruct (sc_at z j Hz Hj) as (c & -> & Hc & Hidx). cbn [res_bind].
  destruct (1 <? sc_refcount c) eqn:Hr.
  - rewrite array_set_lt by (rewrite (zo_sc z Hz); lia). cbn [res_bind]. eexists _, c.
    split; [done|]. split; [done|]. rewrite Hr. split; [|split; [done|]].
    + destruct Hz as [H1 H2 H3 H4 H5 H6 H7 H8]. split; cbn; try done; [by rewrite length_insert|].
      intros i c' Hc'. destruct (decide (i = Z.to_nat j)) as [->|Hij].
      * rewrite list_lookup_insert_eq in Hc' by (eapply lookup_lt_Some; exact Hc). injection Hc' as <-.
        cbn. lia.
      * rewrite list_lookup_insert_ne in Hc' by done. by apply H6.
    + split; [done|]. split; [done|]. eexists. cbn.
      rewrite list_lookup_insert_eq by (eapply lookup_lt_Some; exact Hc). by split.
  - rewrite Hidx. destruct (inuse_at z j Hz Hj) as (x & -> & Hx & Hx01). cbn [res_bind].
    pose proof (zo_inuse z Hz) as Hlen. unfold SOCKET_OPS_CONTEXT_MAX_NUM in Hlen.
    pose proof (zo_free z Hz) as Hfree. pose proof (zeros_range (take (Z.to_nat (count z)) (inuse z))) as Hzr.
    rewrite length_take in Hzr.
    destruct (Z.eqb_spec x 1) as [->|Hne].
    + rewrite array_set_lt by lia. cbn [res_bind]. eexists _, c. split; [done|]. split; [done|]. rewrite Hr.
      assert (j ∈ used z) as Hin by (by apply elem_of_used).
      assert (free z < count z) as Hlt.
      { pose proof (zeros_insert (take (Z.to_nat (count z)) (inuse z)) (Z.to_nat j) 1 0) as Hins.
        rewrite lookup_take_lt in Hins by lia. specialize (Hins Hx). cbn in Hins.
        pose proof (zeros_range (<[Z.to_nat j := 0]> (take (Z.to_nat (count z)) (inuse z)))) as Hr2.
        rewrite length_insert, length_take in Hr2. lia. }
      rewrite (wrapu_small 8 (free z + 1)), (wrapu_small 8 j) by lia. split; [|split; [done|]].
      * apply (zone_ok_mark z j 1); try done; [by left|cbn; lia|lia|]. by apply (zo_idxs z Hz).
      * split; [|split; [done|by rewrite decide_True]]. apply set_eq. intros i.
        rewrite elem_of_difference, elem_of_singleton, !elem_of_used. cbn.
        destruct (decide (i = j)) as [->|Hij].
        -- rewrite list_lookup_insert_eq by lia. split; [intros [_ ?]; done|intros [_ ?]; done].
        -- split.
           ++ intros [Hi H1]. split; [|done]. split; [done|]. by rewrite list_lookup_insert_ne in H1 by lia.
           ++ intros [[Hi H1] _]. split; [done|]. by rewrite list_lookup_insert_ne by lia.
    + assert (x = 0) as -> by lia. eexists _, c. split; [done|]. split; [done|]. rewrite Hr.
      split; [done|]. split; [done|].
      assert (j ∉ used z) as Hnin by (rewrite elem_of_used; intros [_ H1]; congruence).
      split; [set_solver|]. split; [done|]. by rewrite decide_False.
Qed.

(** ** Refinement *)

Inductive zone_op := Attach | Detach (j : Z).

(** Each operation and its answer: the context for [Attach]. *)
Fixpoint zone_run (z : ff_socket_ops_zone) (ops : list zone_op) :
    res (ff_socket_ops_zone * list (option Z)) :=
  match ops with
  | [] => Ok (z, [])
  | Attach :: ops =>
      let* (z, r) := ff_attach_so_context z in
      let* (z, rs) := zone_run z ops in
      Ok (z, r :: rs)
  | Detach j :: ops =>
      let* z := ff_detach_so_context z j in
      let* (z, rs) := zone_run z ops in
      Ok (z, None :: rs)
  end.

(** What the zone promises: a set of contexts in use, of [n]. *)
Inductive lease (n : Z) : gset Z -> list zone_op -> list (option Z) -> gset Z -> Prop :=
| lease_nil S : lease n S [] [] S
| lease_attach S j ops rs S' :
    j ∉ S -> 0 <= j < n -> lease n ({[j]} ∪ S) ops rs S' ->
    lease n S (Attach :: ops) (Some j :: rs) S'
| lease_full S ops rs S' :
    S = list_to_set (seqZ 0 n) -> lease n S ops rs S' -> lease n S (Attach :: ops) (None :: rs) S'
| lease_detach S j ops rs S' :
    lease n (S ∖ {[j]}) ops rs S' -> lease n S (Detach j :: ops) (None :: rs) S'.

Lemma used_size z : zone_ok z -> free z = count z - Z.of_nat (size (used z)).
Proof.
  intros Hz. pose proof (count_cases z Hz) as Hcnt. rewrite (zo_free z Hz). unfold used.
  rewrite size_list_to_set by (apply NoDup_filter, NoDup_seqZ).
  pose proof (zo_inuse z Hz) as Hlen. pose proof (zo_bits z Hz) as Hbits.
  unfold SOCKET_OPS_CONTEXT_MAX_NUM in Hlen.
  assert (forall n, (n <= length (inuse z))%nat -> zeros (take n (inuse z)) =
    Z.of_nat n - Z.of_nat (length (filter (fun j => inuse z !! Z.to_nat j = Some 1) (seqZ 0 (Z.of_nat n))))) as Hgen.
  { induction n as [|n IH]; intros Hn; [done|].
    destruct (lookup_lt_is_Some_2 (inuse z) n) as [x Hx]; [lia|].
    rewrite (take_S_r _ _ x Hx), zeros_app, IH by lia.
    rewrite seqZ_S, filter_app, length_app, filter_cons, filter_nil.
    replace (Z.to_nat (0 + Z.of_nat n)) with n by lia.
    rewrite Forall_lookup in Hbits. specialize (Hbits n x Hx). rewrite Hx. cbn [zeros].
    destruct Hbits as [->| ->]; [rewrite decide_False by done|rewrite decide_True by done]; cbn; lia. }
  rewrite Hgen by lia. rewrite Z2Nat.id by lia. done.
Qed.

Lemma zone_run_sim z ops :
  zone_ok z -> (forall j c, sc z !! j = Some c -> sc_refcount c <= 1) ->
  Forall (fun op => match op with Attach => True | Detach j => 0 <= j < count z end) ops ->
  exists z' rs, zone_run z ops = Ok (z', rs) /\ zone_ok z' /\ count z' = count z /\
    lease (count z) (used z) ops rs (used z').
Proof.
  revert z. induction ops as [|op ops IH]; intros z Hz Href Hops.
  { exists z, []. split; [done|]. split; [done|]. split; [done|]. constructor. }
  apply Forall_cons in Hops as [Hop Hops]. destruct op as [|j]; cbn [zone_run].
  - destruct (zone_attach_spec z Hz) as (z1 & r & -> & Hz1 & Hc1 & Hr). cbn [res_bind].
    assert (forall j c, sc z1 !! j = Some c -> sc_refcount c <= 1) as Href1.
    { destruct r as [j|]; [|by destruct Hr as [-> _]].
      destruct Hr as (_ & Hj & _ & _ & (c & Hc & _ & Hrc) & Hoth).
      intros i c' Hc'. destruct (decide (Z.of_nat i = j)) as [<-|Hij].
      - rewrite Nat2Z.id in Hc. rewrite Hc in Hc'. injection Hc' as <-. lia.
      - apply (Href i). rewrite <- (Nat2Z.id i) in Hc' |- *. rewrite Hoth in Hc' by lia. done. }
    destruct (IH z1 Hz1 Href1) as (z2 & rs & -> & Hz2 & Hc2 & Hl); [by rewrite Hc1|].
    cbn [res_bind]. exists z2, (r :: rs). split; [done|]. split; [done|]. split; [congruence|].
    rewrite Hc1 in Hl. destruct r as [j|].
    + destruct Hr as (Hnin & Hj & Hu & _). rewrite Hu in Hl. by constructor.
    + destruct Hr as (-> & _ & Hfull). by constructor.
  - destruct (detach_spec z j Hz Hop) as (z1 & c & -> & Hc & Hz1 & Hc1 & Hd). cbn [res_bind].
    specialize (Href _ _ Hc) as Hrc. destruct (Z.ltb_spec 1 (sc_refcount c)); [lia|].
    destruct Hd as (Hu & Hsc & _).
    destruct (IH z1 Hz1) as (z2 & rs & -> & Hz2 & Hc2 & Hl); [by rewrite Hsc|by rewrite Hc1|].
    cbn [res_bind]. exists z2, (None :: rs). split; [done|]. split; [done|]. split; [congruence|].
    rewrite Hc1, Hu in Hl. by constructor.
Qed.

(** ** The pass *)

Section Pass.
Context {W : Type} (h : W -> FF_SOCKET_OPS -> Z -> W * Z * Z * Z).

(** The pass without the count: every context in use that has a request is
    handled, in order. *)
Fixpoint pass_all (l : list Z) (z : ff_socket_ops_zone) (w : W) (scs : list ff_so_context) :
    res (W * list ff_so_context) :=
  match l with
  | [] => Ok (w, scs)
  | i :: l =>
      let* c := array_get scs i in
      let* used := array_get (inuse z) i in
      if (used =? 0) || bool_decide (sc_status c <> FF_SC_REQ) then pass_all l z w scs
      else
        let '(w, c) := ff_handle_socket_ops h w c in
        let* scs := array_set scs i c in
        pass_all l z w scs
  end.

(** The contexts in use from [i] on. *)
Definition used_from (z : ff_socket_ops_zone) (i : Z) (k : nat) : Z :=
  Z.of_nat k - zeros (take k (drop (Z.to_nat i) (inuse z))).

Lemma used_from_S z i k x :
  0 <= i -> inuse z !! Z.to_nat i = Some x ->
  used_from z i (S k) = (if x =? 0 then 0 else 1) + used_from z (i + 1) k.
Proof.
  intros Hi Hx. unfold used_from. rewrite (drop_S _ _ _ Hx). cbn [take firstn zeros].
  replace (Z.to_nat (i + 1)) with (S (Z.to_nat i)) by lia. destruct (x =? 0); lia.
Qed.

Lemma used_from_range z i k : zone_ok z -> 0 <= i -> i + Z.of_nat k = count z -> 0 <= used_from z i k <= Z.of_nat k.
Proof.
  intros Hz Hi Hk. unfold used_from. pose proof (zeros_range (take k (drop (Z.to_nat i) (inuse z)))) as Hr.
  rewrite length_take in Hr. lia.
Qed.

Lemma seqZ_split i k : 0 <= i -> seqZ i (Z.of_nat (S k)) = i :: seqZ (i + 1) (Z.of_nat k).
Proof. intros Hi. rewrite seqZ_cons by lia. f_equal. rewrite <- Z.add_1_r. f_equal. lia. Qed.

(** What is left when no context in use is. *)
Lemma pass_all_none k z w scs i :
  zone_ok z -> 0 <= i -> i + Z.of_nat k = count z -> Z.of_nat (length scs) = count z ->
  used_from z i k = 0 -> pass_all (seqZ i (Z.of_nat k)) z w scs = Ok (w, scs).
Proof.
  intros Hz. revert i. induction k as [|k IH]; intros i Hi Hk Hl Hu; [done|].
  rewrite seqZ_split by lia. cbn [pass_all].
  destruct (array_get_lt scs i ltac:(lia)) as (c & -> & _). cbn [res_bind].
  destruct (inuse_at z i Hz ltac:(lia)) as (x & -> & Hx & Hx01). cbn [res_bind].
  rewrite (used_from_S z i k x Hi Hx) in Hu.
  pose proof (used_from_range z (i + 1) k Hz ltac:(lia) ltac:(lia)).
  destruct (Z.eqb_spec x 0); [|lia]. cbn [orb]. apply IH; lia.
Qed.

(** The early [break] does not skip a context in use. *)
Lemma pass_loop_all k z w scs i nb :
  zone_ok z -> 0 <= i -> i + Z.of_nat k = count z -> Z.of_nat (length scs) = count z ->
  nb = used_from z i k -> 0 < nb ->
  pass_loop h k z w scs i nb = pass_all (seqZ i (Z.of_nat k)) z w scs.
Proof.
  intros Hz. pose proof (count_cases z Hz) as Hcnt. revert w scs i nb.
  induction k as [|k IH]; intros w scs i nb Hi Hk Hl Hnb Hpos; [done|].
  rewrite seqZ_split by lia. cbn [pass_loop pass_all].
  destruct (array_get_lt scs i ltac:(lia)) as (c & -> & _). cbn [res_bind].
  destruct (inuse_at z i Hz ltac:(lia)) as (x & -> & Hx & Hx01). cbn [res_bind].
  rewrite (used_from_S z i k x Hi Hx) in Hnb.
  pose proof (used_from_range z (i + 1) k Hz ltac:(lia) ltac:(lia)) as Hr.
  destruct (Z.eqb_spec x 0) as [Hx0|Hx0]; cbn [orb]; [apply IH; lia|].
  rewrite wrapu_small by lia. replace (nb - 1) with (used_from z (i + 1) k) by lia.
  assert (forall w1 scs1, Z.of_nat (length scs1) = count z ->
    (if used_from z (i + 1) k =? 0 then Ok (w1, scs1)
     else pass_loop h k z w1 scs1 (i + 1) (used_from z (i + 1) k)) =
    pass_all (seqZ (i + 1) (Z.of_nat k)) z w1 scs1) as Hrest.
  { intros w1 scs1 Hl1. destruct (Z.eqb_spec (used_from z (i + 1) k) 0) as [Hz0|Hz0].
    - rewrite pass_all_none; [done|done|lia..].
    - apply IH; lia. }
  destruct (decide (sc_status c = FF_SC_REQ)) as [Hreq|Hreq].
  - rewrite bool_decide_eq_false_2 by (intros Hn; by apply Hn).
    destruct (ff_handle_socket_ops h w c) as [w1 c1]. rewrite array_set_lt by lia. cbn [res_bind].
    apply Hrest. by rewrite length_insert.
  - rewrite bool_decide_eq_true_2 by done. cbn [res_bind]. by apply Hrest.
Qed.

Lemma handle_pass_all z w :
  zone_ok z -> handle_pass h z w = pass_all (seqZ 0 (count z)) z w (sc z).
Proof.
  intros Hz. pose proof (count_cases z Hz) as Hcnt. unfold handle_pass.
  pose proof (zo_free z Hz) as Hfree. pose proof (zeros_range (take (Z.to_nat (count z)) (inuse z))) as Hzr.
  pose proof (zo_inuse z Hz) as Hlen. unfold SOCKET_OPS_CONTEXT_MAX_NUM in Hlen. rewrite length_take in Hzr.
  destruct (Z.ltb_spec (count z) (free z)); [lia|]. rewrite wrapu_small by lia.
  assert (count z - free z = used_from z 0 (Z.to_nat (count z))) as Hu
    by (unfold used_from; rewrite drop_0, <- Hfree; lia).
  replace (count z) with (Z.of_nat (Z.to_nat (count z))) at 4 by lia.
  pose proof (zo_sc z Hz) as Hsc.
  destruct (Z.eqb_spec (count z - free z) 0) as [H0|H0].
  - rewrite pass_all_none; [done|done|lia|lia|done|lia].
  - apply pass_loop_all; try done; lia.
Qed.

(** What a pass does to each context. *)
Definition answered (z : ff_socket_ops_zone) (scs scs' : list ff_so_context) (l : list Z) : Prop :=
  forall j c, scs !! Z.to_nat j = Some c -> 0 <= j ->
    if decide (j ∈ l /\ inuse z !! Z.to_nat j = Some 1 /\ sc_status c = FF_SC_REQ)
    then exists w, scs' !! Z.to_nat j = Some (ff_handle_socket_ops h w c).2
    else scs' !! Z.to_nat j = Some c.

Lemma pass_all_answered l z w scs :
  zone_ok z -> NoDup l -> Forall (fun i => 0 <= i < count z) l -> Z.of_nat (length scs) = count z ->
  exists w' scs', pass_all l z w scs = Ok (w', scs') /\ length scs' = length scs /\ answered z scs scs' l.
Proof.
  intros Hz. revert w scs. induction l as [|i l IH]; intros w scs Hnd Hr Hl.
  { exists w, scs. split; [done|]. split; [done|]. intros j c Hc Hj. rewrite decide_False; [done|].
    intros [Hin _]. by apply elem_of_nil in Hin. }
  apply NoDup_cons in Hnd as [Hnin Hnd]. apply Forall_cons in Hr as [Hi Hr]. cbn [pass_all].
  destruct (array_get_lt scs i ltac:(lia)) as (c & -> & Hc). cbn [res_bind].
  destruct (inuse_at z i Hz Hi) as (x & -> & Hx & Hx01). cbn [res_bind].
  destruct ((x =? 0) || bool_decide (sc_status c <> FF_SC_REQ)) eqn:Hskip.
  - destruct (IH w scs Hnd Hr Hl) as (w' & scs' & -> & Hl' & Ha). exists w', scs'.
    split; [done|]. split; [done|]. intros j cj Hcj Hj. specialize (Ha j cj Hcj Hj).
    destruct (decide (j = i)) as [->|Hne].
    + rewrite decide_False in Ha by (by intros [? _]). rewrite decide_False; [done|].
      intros (_ & H1 & H2). rewrite Hx in H1. injection H1 as ->. rewrite Hc in Hcj. injection Hcj as <-.
      cbn in Hskip. apply bool_decide_eq_true in Hskip. done.
    + destruct (decide (j ∈ l /\ _)) as [Hd|Hd].
      * rewrite decide_True; [done|]. destruct Hd as (H1 & H2). split; [by right|done].
      * rewrite decide_False; [done|]. intros (H1 & H2). apply Hd. split; [|done].
        by apply elem_of_cons in H1 as [->|?].
  - apply orb_false_iff in Hskip as [Hx0%Z.eqb_neq Hreq%bool_decide_eq_false]. apply dec_stable in Hreq.
    destruct (ff_handle_socket_ops h w c) as [w1 c1] eqn:Hh.
    rewrite array_set_lt by lia. cbn [res_bind].
    destruct (IH w1 (<[Z.to_nat i := c1]> scs) Hnd Hr) as (w' & scs' & -> & Hl' & Ha); [by rewrite length_insert|].
    rewrite length_insert in Hl'. exists w', scs'. split; [done|]. split; [done|].
    intros j cj Hcj Hj. destruct (decide (j = i)) as [->|Hne].
    + specialize (Ha i c1). rewrite list_lookup_insert_eq in Ha by lia. specialize (Ha eq_refl Hj).
      rewrite decide_False in Ha by (by intros [? _]). rewrite Hc in Hcj. injection Hcj as <-.
      rewrite decide_True; [exists w; by rewrite Hh|]. split; [left|]. split; [|done]. rewrite Hx. f_equal. lia.
    + specialize (Ha j cj). rewrite list_lookup_insert_ne in Ha by lia. specialize (Ha Hcj Hj).
      destruct (decide (j ∈ l /\ _)) as [Hd|Hd].
      * rewrite decide_True; [done|]. destruct Hd as (H1 & H2). split; [by right|done].
      * rewrite decide_False; [done|]. intros (H1 & H2). apply Hd. split; [|done].
        by apply elem_of_cons in H1 as [->|?].
Qed.
End Pass.

(** ** Set-up *)

Lemma is_power_of_2_spec n : 0 <= n < 65536 -> is_power_of_2 n = true -> exists k, 0 <= k /\ n = 2 ^ k.
Proof.
  intros Hn. unfold is_power_of_2. rewrite andb_true_iff, negb_true_iff, Z.eqb_neq, Z.eqb_eq. intros [H0 Hl].
  rewrite wrapu_small in Hl by lia. exists (Z.log2 n). split; [apply Z.log2_nonneg|].
  destruct (Z.log2_spec n ltac:(lia)) as [Hlo Hhi]. destruct (decide (n = 2 ^ Z.log2 n)) as [|Hne]; [done|].
  exfalso. assert (Z.testbit (Z.land n (n - 1)) (Z.log2 n) = true) as Ht; [|by rewrite Hl, Z.bits_0 in Ht].
  pose proof (Z.pow_pos_nonneg 2 (Z.log2 n) ltac:(lia) ltac:(apply Z.log2_nonneg)).
  rewrite Z.land_spec, Z.bit_log2 by lia. cbn. replace (Z.log2 n) with (Z.log2 (n - 1)); [apply Z.bit_log2; lia|].
  apply Z.log2_unique; [apply Z.log2_nonneg|]. lia.
Qed.

Lemma max_context_ok zone m cnt :
  (exists k, 0 <= k <= 5 /\ m = 2 ^ k) -> 0 <= cnt < 65536 ->
  exists k, 0 <= k <= 5 /\ (ff_set_max_so_context zone m cnt).2 = 2 ^ k.
Proof.
  intros Hm Hc. unfold ff_set_max_so_context, SOCKET_OPS_CONTEXT_MAX_NUM. destruct zone; [done|].
  destruct (is_power_of_2 cnt) eqn:Hp; [|done]. cbn. apply is_power_of_2_spec in Hp as (k & Hk & ->); [|done].
  destruct (Z.ltb_spec 32 (2 ^ k)) as [Hlt|Hge]; [by exists 5|]. exists k. split; [|done]. split; [done|].
  change 32 with (2 ^ 5) in Hge. apply Z.pow_le_mono_r_iff in Hge; lia.
Qed.

Lemma zeros_replicate n : zeros (replicate n 0) = Z.of_nat n.
Proof. induction n as [|n IH]; [done|]. cbn [replicate zeros]. rewrite IH. cbn. lia. Qed.

Lemma create_zone_ok m : (exists k, 0 <= k <= 5 /\ m = 2 ^ k) -> zone_ok (create_zone m) /\ used (create_zone m) = ∅.
Proof.
  intros (k & Hk & ->).
  assert (1 <= 2 ^ k <= 32) as Hr.
  { change 1 with (2 ^ 0). change 32 with (2 ^ 5). split; apply Z.pow_le_mono_r; lia. }
  assert (u8 (2 ^ k) = 2 ^ k) as Hu by (apply wrapu_small; lia).
  split.
  - split; unfold create_zone; cbn [count mask free idx inuse sc]; rewrite ?Hu.
    + by exists k.
    + apply wrapu_small. lia.
    + rewrite length_replicate. done.
    + apply Forall_replicate. by left.
    + rewrite length_fmap, length_seqZ. lia.
    + intros j c Hc. rewrite list_lookup_fmap in Hc. apply fmap_Some in Hc as (i & Hi & ->).
      apply lookup_seqZ in Hi as [-> _]. done.
    + rewrite take_replicate, zeros_replicate. unfold SOCKET_OPS_CONTEXT_MAX_NUM. lia.
    + lia.
  - apply set_eq. intros j. rewrite elem_of_used. split; [|set_solver]. intros [_ H1]. cbn in H1.
    apply lookup_replicate in H1 as [H1 _]. done.
Qed.

(** ** Properties *)

(** C9: the zone hands out contexts: whatever count was asked for, the zone
    [ff_create_so_memzone] sets up refines a set of contexts in use.  Over any
    sequence of attachments and detachments, also of contexts that are not in
    use, an attachment gets a context no one has, and fails only when all are
    in use; and [free] is the number of those left. *)
Theorem so_zone_refines_leases zone m cnt ops :
  (exists k, 0 <= k <= 5 /\ m = 2 ^ k) -> 0 <= cnt < 65536 ->
  let n := (ff_set_max_so_context zone m cnt).2 in
  Forall (fun op => match op with Attach => True | Detach j => 0 <= j < n end) ops ->
  exists z' rs S', zone_run (create_zone n) ops = Ok (z', rs) /\ lease n ∅ ops rs S' /\
    free z' = n - Z.of_nat (size S').
Proof.
  intros Hm Hc n Hops. pose proof (max_context_ok zone m cnt Hm Hc) as Hn. fold n in Hn.
  destruct (create_zone_ok n Hn) as [Hz Hu].
  assert (count (create_zone n) = n) as Hcount.
  { destruct Hn as (k & Hk & ->). cbn. apply wrapu_small.
    assert (2 ^ k <= 2 ^ 5) by (apply Z.pow_le_mono_r; lia). cbn in *. lia. }
  destruct (zone_run_sim (create_zone n) ops Hz) as (z' & rs & Hrun & Hz' & Hc' & Hl).
  - intros j c Hcj. cbn in Hcj. rewrite list_lookup_fmap in Hcj. apply fmap_Some in Hcj as (i & _ & ->). cbn. lia.
  - by rewrite Hcount.
  - rewrite Hcount, Hu in Hl. exists z', rs, (used z'). split; [done|]. split; [done|].
    rewrite (used_size z' Hz'). congruence.
Qed.

(** One pass of [ff_handle_each_context] runs every call that waits: the
    loop, which stops after as many contexts as are in use, does what a loop
    over all of them would; each context in use with a request in it is
    handled once, and no other is touched. *)
Theorem handle_pass_complete {W} (h : W -> FF_SOCKET_OPS -> Z -> W * Z * Z * Z) z w :
  zone_ok z ->
  handle_pass h z w = pass_all h (seqZ 0 (count z)) z w (sc z) /\
  exists w' scs', handle_pass h z w = Ok (w', scs') /\ length scs' = length (sc z) /\
    answered h z (sc z) scs' (seqZ 0 (count z)).
Proof.
  intros Hz. rewrite (handle_pass_all h z w Hz). split; [done|].
  apply pass_all_answered; [done|apply NoDup_seqZ| |apply (zo_sc z Hz)].
  apply Forall_forall. intros i Hi. apply elem_of_seqZ in Hi. lia.
Qed.

(** ** Witnesses *)

Lemma so_zone_refines_leases_witness :
  exists z' rs S', zone_run (create_zone 2) [Attach; Attach; Attach; Detach 0; Attach; Detach 1; Detach 1] = Ok (z', rs) /\
    lease 2 ∅ [Attach; Attach; Attach; Detach 0; Attach; Detach 1; Detach 1] rs S' /\
    free z' = 2 - Z.of_nat (size S').
Proof.
  apply (so_zone_refines_leases false 32 2 [Attach; Attach; Attach; Detach 0; Attach; Detach 1; Detach 1]).
  - exists 5. split; [lia|reflexivity].
  - lia.
  - repeat constructor; cbn; lia.
Defined.

(** Contexts 0 and 2 of four are in use, with a call in 0 and an event wait in
    2; the call of context 1 is left over from a context that was given up. *)
Definition demo_zone : ff_socket_ops_zone :=
  mk_zone 4 3 2 3 ([1; 0; 1] ++ replicate 29 0)
    [mk_sc (FF_SO_OTHER 7) 100 FF_SC_REQ false 0 0 0 1 0;
     mk_sc (FF_SO_OTHER 8) 101 FF_SC_REQ false 0 0 1 1 0;
     mk_sc FF_SO_EPOLL_WAIT 102 FF_SC_REQ false 0 0 2 1 0;
     mk_sc (FF_SO_OTHER 9) 103 FF_SC_IDLE false 0 0 3 0 0].

Definition demo_handler (w : list Z) (op : FF_SOCKET_OPS) (args : Z) : list Z * Z * Z * Z :=
  (w ++ [args], 5, 0, 1).

Lemma demo_zone_ok : zone_ok demo_zone.
Proof.
  split; cbn.
  - exists 2. split; [lia|reflexivity].
  - reflexivity.
  - reflexivity.
  - repeat (apply Forall_cons; split; [auto|]). apply Forall_nil. done.
  - reflexivity.
  - intros j c Hc. do 4 (destruct j as [|j]; [by injection Hc as <-|]). done.
  - reflexivity.
  - lia.
Qed.

Lemma handle_pass_complete_witness :
  handle_pass demo_handler demo_zone [] = pass_all demo_handler (seqZ 0 4) demo_zone [] (sc demo_zone) /\
  exists w' scs', handle_pass demo_handler demo_zone [] = Ok (w', scs') /\ length scs' = length (sc demo_zone) /\
    answered demo_handler demo_zone (sc demo_zone) scs' (seqZ 0 4).
Proof. apply (handle_pass_complete demo_handler demo_zone []). exact demo_zone_ok. Defined.
