(* ===== verification/Rpc.v ===== *)
(** * Calls through a socket context ([adapter/syscall])

    The protocol of one context, with every access to the shared memory a step
    of its own: any number of application threads run the [SYSCALL] macro of
    [ff_hook_syscall.c], with [ACQUIRE_ZONE_LOCK] and [RELEASE_ZONE_LOCK], and
    the stack's thread runs the body of [ff_handle_each_context] and
    [ff_handle_socket_ops].  The reads of the status outside of the lock, and
    the spinning, are there as in the code.

    Steps are atomic and seen by all threads in the same order, as the
    spinlocks and the x86 memory model give for these accesses.  [posted] to
    [returned] are a history the code does not have. *)

From S2P Require Import Prelude SoZone.

Module Rpc.
Import SoZone.

(** A call: the operation, its arguments. *)
Record call := mk_call { call_op : FF_SOCKET_OPS; call_args : Z }.

(** Where an application thread is in [SYSCALL].  [A]: up to the request;
    [B]: up to the answer; [AUnlock] and [BUnlock] are the unlock of a round
    that found another status under the lock. *)
Inductive pc :=
| ASpin (c : call)
| ALock (c : call)
| ACheck (c : call)
| AUnlock (c : call)
| AOps (c : call)
| AArgs (c : call)
| AReq (c : call)
| ARelease (c : call)
| BSpin (c : call)
| BLock (c : call)
| BCheck (c : call)
| BUnlock (c : call)
| BResult (c : call)
| BError (c : call) (ret : Z)
| BIdle (c : call) (ret : Z) (errno : option Z)
| BRelease.

(** Where the stack's thread is. *)
Inductive spc :=
| SRead
| STry
| SCheck
| SHandle
| SError (errno sem_flag : Z)
| SStatus (sem_flag : Z)
| SUnlock.

Inductive owner := App (t : nat) | Stack.

#[export] Instance owner_eq_dec : EqDecision owner.
Proof. solve_decision. Defined.

(** An execution of a call by the stack, and a return to the application. *)
Record done := mk_done { d_thread : nat; d_call : call; d_result : Z; d_errno : Z }.
Record ret := mk_ret { r_thread : nat; r_call : call; r_value : Z; r_errno : option Z }.

Section Rpc.
Context {W : Type}.
Variable ff_so_handler : W -> FF_SOCKET_OPS -> Z -> W * Z * Z * Z.

Record rstate := mk_rstate {
  world : W;
  lock : option owner;
  status : FF_SO_CONTEXT_STATUS;
  ops : FF_SOCKET_OPS;
  args : Z;
  result : Z;
  error : Z;
  pcs : gmap nat pc;
  stack_pc : spc;
  caller : option (nat * call);
  executed : list done;
  returned : list ret
}.

Definition with_lock (s : rstate) x : rstate :=
  mk_rstate (world s) x (status s) (ops s) (args s) (result s) (error s) (pcs s) (stack_pc s)
    (caller s) (executed s) (returned s).
Definition with_status (s : rstate) x o : rstate :=
  mk_rstate (world s) (lock s) x (ops s) (args s) (result s) (error s) (pcs s) (stack_pc s)
    o (executed s) (returned s).
Definition with_ops (s : rstate) x : rstate :=
  mk_rstate (world s) (lock s) (status s) x (args s) (result s) (error s) (pcs s) (stack_pc s)
    (caller s) (executed s) (returned s).
Definition with_args (s : rstate) x : rstate :=
  mk_rstate (world s) (lock s) (status s) (ops s) x (result s) (error s) (pcs s) (stack_pc s)
    (caller s) (executed s) (returned s).
Definition with_result (s : rstate) w x l : rstate :=
  mk_rstate w (lock s) (status s) (ops s) (args s) x (error s) (pcs s) (stack_pc s)
    (caller s) l (returned s).
Definition with_error (s : rstate) x : rstate :=
  mk_rstate (world s) (lock s) (status s) (ops s) (args s) (result s) x (pcs s) (stack_pc s)
    (caller s) (executed s) (returned s).
Definition with_returned (s : rstate) x : rstate :=
  mk_rstate (world s) (lock s) (status s) (ops s) (args s) (result s) (error s) (pcs s) (stack_pc s)
    (caller s) (executed s) x.
Definition goto (s : rstate) (t : nat) (p : pc) : rstate :=
  mk_rstate (world s) (lock s) (status s) (ops s) (args s) (result s) (error s) (<[t := p]> (pcs s))
    (stack_pc s) (caller s) (executed s) (returned s).
Definition leave (s : rstate) (t : nat) : rstate :=
  mk_rstate (world s) (lock s) (status s) (ops s) (args s) (result s) (error s) (delete t (pcs s))
    (stack_pc s) (caller s) (executed s) (returned s).
Definition stack_to (s : rstate) (p : spc) : rstate :=
  mk_rstate (world s) (lock s) (status s) (ops s) (args s) (result s) (error s) (pcs s) p
    (caller s) (executed s) (returned s).

(** One step of application thread [t]. *)
Definition app_step (s : rstate) (t : nat) (p : pc) : rstate :=
  match p with
  | ASpin c => if decide (status s <> FF_SC_IDLE) then s else goto s t (ALock c)
  | ALock c => match lock s with None => goto (with_lock s (Some (App t))) t (ACheck c) | Some _ => s end
  | ACheck c => if decide (status s = FF_SC_IDLE) then goto s t (AOps c) else goto s t (AUnlock c)
  | AUnlock c => goto (with_lock s None) t (ASpin c)
  | AOps c => goto (with_ops s (call_op c)) t (AArgs c)
  | AArgs c => goto (with_args s (call_args c)) t (AReq c)
  | AReq c => goto (with_status s FF_SC_REQ (Some (t, c))) t (ARelease c)
  | ARelease c => goto (with_lock s None) t (BSpin c)
  | BSpin c => if decide (status s <> FF_SC_REP) then s else goto s t (BLock c)
  | BLock c => match lock s with None => goto (with_lock s (Some (App t))) t (BCheck c) | Some _ => s end
  | BCheck c => if decide (status s = FF_SC_REP) then goto s t (BResult c) else goto s t (BUnlock c)
  | BUnlock c => goto (with_lock s None) t (BSpin c)
  | BResult c => goto s t (BError c (result s))
  | BError c v => goto s t (BIdle c v (if v <? 0 then Some (error s) else None))
  | BIdle c v e =>
      goto (with_returned (with_status s FF_SC_IDLE None) (returned s ++ [mk_ret t c v e])) t BRelease
  | BRelease => leave (with_lock s None) t
  end.

(** One step of the stack's thread. *)
Definition stack_step (s : rstate) : rstate :=
  match stack_pc s with
  | SRead => if decide (status s = FF_SC_REQ) then stack_to s STry else s
  | STry =>
      match lock s with
      | None => stack_to (with_lock s (Some Stack)) SCheck
      | Some _ => stack_to s SRead
      end
  | SCheck => if decide (status s <> FF_SC_REQ) then stack_to s SUnlock else stack_to s SHandle
  | SHandle =>
      let '(w, r, e, f) := ff_so_handler (world s) (ops s) (args s) in
      let log :=
        match caller s with
        | Some (t, c) => executed s ++ [mk_done t c r e]
        | None => executed s
        end in
      stack_to (with_result s w r log) (SError e f)
  | SError e f => stack_to (with_error s e) (SStatus f)
  | SStatus f =>
      if is_event_op (ops s) && negb (f =? 1) then stack_to s SUnlock
      else stack_to (with_status s FF_SC_REP (caller s)) SUnlock
  | SUnlock => stack_to (with_lock s None) SRead
  end.

(** Who moves: a thread in a call, one that starts a call, or the stack. *)
Inductive move := Call (t : nat) (c : call) | Go (t : nat) | Serve.

Definition rstep (s : rstate) (m : move) : rstate :=
  match m with
  | Serve => stack_step s
  | Call t c => match pcs s !! t with None => goto s t (ASpin c) | Some _ => s end
  | Go t => match pcs s !! t with None => s | Some p => app_step s t p end
  end.

Definition rrun (s : rstate) (ms : list move) : rstate := fold_left rstep ms s.

(** A context that was attached, and no call yet. *)
Definition rinit (w : W) : rstate :=
  mk_rstate w None FF_SC_IDLE (FF_SO_OTHER 0) 0 0 0 ∅ SRead None [] [].
End Rpc.
End Rpc.
