(* ===== verification/RpcProofs.v ===== *)
(** * Proofs about calls through a socket context

    Every call an application thread makes is run by the stack once, and the
    thread gets that run's result; a call under way can always be completed. *)

From S2P Require Import Prelude SoZone Rpc.

Import SoZone Rpc.

(** The calls [SYSCALL] is used for: the event waits have a way of their own. *)
Definition plain (c : call) : Prop := is_event_op (call_op c) = false.

Definition holds (p : pc) : bool :=
  match p with
  | ASpin _ | ALock _ | BSpin _ | BLock _ => false
  | _ => true
  end.

(** The call of a thread whose request is posted and not answered. *)
Definition waits (p : pc) : option call :=
  match p with
  | ARelease c | BSpin c | BLock c | BCheck c | BUnlock c | BResult c | BError c _ | BIdle c _ _ => Some c
  | _ => None
  end.

Definition errno_of (v e : Z) : option Z := if v <? 0 then Some e else None.

(** The return [r] hands over the execution [d]. *)
Definition hands (d : done) (r : ret) : Prop :=
  r_thread r = d_thread d /\ r_call r = d_call d /\ r_value r = d_result d /\
  r_errno r = errno_of (d_result d) (d_errno d).

Section Rpc.
Context {W : Type} (h : W -> FF_SOCKET_OPS -> Z -> W * Z * Z * Z).
Implicit Type s : rstate (W := W).

(** The executions are runs of the handler, one after the other. *)
Fixpoint runs (w : W) (l : list done) (w' : W) : Prop :=
  match l with
  | [] => w' = w
  | d :: l => exists w1 f, h w (call_op (d_call d)) (call_args (d_call d)) = (w1, d_result d, d_errno d, f) /\
      runs w1 l w'
  end.

Lemma runs_snoc w l w' d w2 f :
  runs w l w' -> h w' (call_op (d_call d)) (call_args (d_call d)) = (w2, d_result d, d_errno d, f) ->
  runs w (l ++ [d]) w2.
Proof.
  revert w. induction l as [|x l IH]; cbn; intros w Hr Hh.
  - subst w'. by exists w2, f.
  - destruct Hr as (w1 & f1 & H1 & Hr). exists w1, f1. split; [done|]. by apply IH.
Qed.

(** ** The invariant *)

Definition pc_ok s (t : nat) (p : pc) : Prop :=
  match p with
  | ASpin c | ALock c => plain c
  | ACheck c | AUnlock c => plain c /\ lock s = Some (App t)
  | AOps c => plain c /\ lock s = Some (App t) /\ status s = FF_SC_IDLE
  | AArgs c => plain c /\ lock s = Some (App t) /\ status s = FF_SC_IDLE /\ ops s = call_op c
  | AReq c => plain c /\ lock s = Some (App t) /\ status s = FF_SC_IDLE /\ ops s = call_op c /\
      args s = call_args c
  | ARelease c | BCheck c | BUnlock c => lock s = Some (App t) /\ caller s = Some (t, c)
  | BSpin c | BLock c => caller s = Some (t, c)
  | BResult c => lock s = Some (App t) /\ caller s = Some (t, c) /\ status s = FF_SC_REP
  | BError c v => lock s = Some (App t) /\ caller s = Some (t, c) /\ status s = FF_SC_REP /\ v = result s
  | BIdle c v e => lock s = Some (App t) /\ caller s = Some (t, c) /\ status s = FF_SC_REP /\
      v = result s /\ e = errno_of (result s) (error s)
  | BRelease => lock s = Some (App t)
  end.

Definition stack_ok s : Prop :=
  match stack_pc s with
  | SRead | STry => lock s <> Some Stack
  | SCheck | SUnlock => lock s = Some Stack
  | SHandle | SError _ _ | SStatus _ => lock s = Some Stack /\ status s = FF_SC_REQ
  end.

(** The last execution is of the caller's call and not yet returned. *)
Definition late s (t : nat) (c : call) (e : Z) : Prop :=
  exists ex, executed s = ex ++ [mk_done t c (result s) e] /\ Forall2 hands ex (returned s).

Definition data_ok s : Prop :=
  match status s with
  | FF_SC_IDLE => caller s = None /\ Forall2 hands (executed s) (returned s)
  | FF_SC_REQ => exists t c, caller s = Some (t, c) /\ ops s = call_op c /\ args s = call_args c /\ plain c /\
      match stack_pc s with
      | SError e _ => late s t c e
      | SStatus _ => late s t c (error s)
      | _ => Forall2 hands (executed s) (returned s)
      end
  | FF_SC_REP => exists t c, caller s = Some (t, c) /\ late s t c (error s)
  end.

Record inv (w : W) s : Prop := {
  i_pcs : map_Forall (pc_ok s) (pcs s);
  i_stack : stack_ok s;
  i_data : data_ok s;
  i_owner : forall t, lock s = Some (App t) -> exists p, pcs s !! t = Some p /\ holds p = true;
  i_caller : forall t c, caller s = Some (t, c) -> exists p, pcs s !! t = Some p /\ waits p = Some c;
  i_runs : runs w (executed s) (world s)
}.

Lemma rpc_inv_init w : inv w (rinit w).
Proof. by split. Qed.

(** What a thread knows survives what others do with the lock in their
    hands. *)
Lemma pc_ok_frame s s' t p :
  pc_ok s t p -> lock s <> Some (App t) ->
  (forall c, caller s = Some (t, c) -> caller s' = Some (t, c)) -> pc_ok s' t p.
Proof. intros Hp Hl Hc. destruct p; cbn in *; naive_solver. Qed.

Lemma pc_ok_same s s' t p :
  pc_ok s t p -> lock s' = lock s -> status s' = status s -> caller s' = caller s -> ops s' = ops s ->
  args s' = args s -> result s' = result s -> error s' = error s -> pc_ok s' t p.
Proof. intros Hp E1 E2 E3 E4 E5 E6 E7. destruct p; cbn in *; rewrite ?E1, ?E2, ?E3, ?E4, ?E5, ?E6, ?E7; done. Qed.

(** A step of thread [t] to [p']: what is to be shown. *)
Lemma inv_goto w s s1 t p p' :
  inv w s -> pcs s !! t = Some p -> pcs s1 = pcs s ->
  (forall t' q, t' <> t -> pcs s !! t' = Some q -> pc_ok s t' q -> pc_ok s1 t' q) ->
  pc_ok s1 t p' -> stack_ok s1 -> data_ok s1 -> runs w (executed s1) (world s1) ->
  (forall t', lock s1 = Some (App t') -> t' <> t -> lock s = Some (App t')) ->
  (lock s1 = Some (App t) -> holds p' = true) ->
  (forall t' c, caller s1 = Some (t', c) -> t' <> t -> caller s = Some (t', c)) ->
  (forall c, caller s1 = Some (t, c) -> waits p' = Some c) ->
  inv w (goto s1 t p').
Proof.
  intros [I1 I2 I3 I4 I5 I6] Hp Hpcs Hoth Hok Hst Hd Hr Hlk Hlt Hca Hct. split; try done.
  - cbn. rewrite Hpcs. intros t' q Hq. apply lookup_insert_Some in Hq as [[<- <-]|[Hne Hq]].
    + by apply (pc_ok_same s1).
    + apply (pc_ok_same s1); try done. apply Hoth; try done. by apply I1.
  - intros t' Hl. cbn in Hl |- *. rewrite Hpcs. destruct (decide (t' = t)) as [->|Hne].
    + exists p'. rewrite lookup_insert_eq. auto.
    + rewrite lookup_insert_ne by done. apply I4. by apply Hlk.
  - intros t' c Hc. cbn in Hc |- *. rewrite Hpcs. destruct (decide (t' = t)) as [->|Hne].
    + exists p'. rewrite lookup_insert_eq. auto.
    + rewrite lookup_insert_ne by done. apply I5. by apply Hca.
Qed.

(** ** Steps keep the invariant *)

(** With the lock in [t]'s hands no other thread has it. *)
Lemma other_lock s t t' : lock s = Some (App t) -> t' <> t -> lock s <> Some (App t').
Proof. intros -> Hne [= ->]. done. Qed.

(** While the status is idle or the caller is [t], no other thread waits. *)
Lemma idle_no_caller s : data_ok s -> status s = FF_SC_IDLE -> caller s = None.
Proof. intros Hd Hs. unfold data_ok in Hd. rewrite Hs in Hd. by destruct Hd. Qed.

(** Changes that keep the data: none of the fields it speaks of. *)
Lemma data_same s s' :
  data_ok s -> status s' = status s -> caller s' = caller s -> executed s' = executed s ->
  returned s' = returned s -> result s' = result s -> error s' = error s -> stack_pc s' = stack_pc s ->
  (status s = FF_SC_IDLE \/ ops s' = ops s /\ args s' = args s) -> data_ok s'.
Proof.
  intros Hd E1 E2 E3 E4 E5 E6 E7 E8. unfold data_ok, late in *. rewrite E1, E2, E3, E4, E5, E6, E7.
  destruct (status s); try done. destruct E8 as [|[-> ->]]; done.
Qed.

(** A step in which [t] only moves on, or takes or gives up the lock. *)
Lemma inv_lock_step w s l t p p' :
  inv w s -> pcs s !! t = Some p ->
  (l = lock s /\ holds p' = holds p \/ lock s = None /\ l = Some (App t) /\ holds p' = true \/
   lock s = Some (App t) /\ l = None) ->
  waits p' = waits p -> pc_ok (with_lock s l) t p' -> inv w (goto (with_lock s l) t p').
Proof.
  intros Hinv Hp Hlk Hw Hok. pose proof Hinv as [I1 I2 I3 I4 I5 I6].
  assert (lock s = Some (App t) -> holds p = true) as Ht.
  { intros Hl. destruct (I4 t Hl) as (q & Hq & Hh). congruence. }
  refine (inv_goto w s (with_lock s l) t p p' Hinv Hp eq_refl _ Hok _ _ I6 _ _ _ _).
  - intros t' q Hne Hq Hok'.
    destruct Hlk as [[El _]|[(El & _ & _)|[El _]]].
    + by apply (pc_ok_same s).
    + eapply pc_ok_frame; [exact Hok'|congruence|done].
    + eapply pc_ok_frame; [exact Hok'|by eapply other_lock|done].
  - unfold stack_ok in *. cbn. destruct (stack_pc s); naive_solver.
  - apply (data_same s); try done. by right.
  - cbn. intros t' Ht' Hne. naive_solver.
  - cbn. intros Hl. naive_solver.
  - done.
  - intros c Hc. destruct (I5 t c Hc) as (q & Hq & Hwq). congruence.
Qed.

(** A step in which [t], with the lock in its hands, writes. *)
Lemma inv_write_step w s s1 t p p' :
  inv w s -> pcs s !! t = Some p -> lock s = Some (App t) -> lock s1 = lock s -> holds p' = true ->
  pcs s1 = pcs s -> stack_pc s1 = stack_pc s -> executed s1 = executed s -> world s1 = world s ->
  (forall t' c, t' <> t -> caller s1 = Some (t', c) <-> caller s = Some (t', c)) ->
  (forall c, caller s1 = Some (t, c) -> waits p' = Some c) ->
  data_ok s1 -> pc_ok s1 t p' -> inv w (goto s1 t p').
Proof.
  intros Hinv Hp Hl Hl1 Hh Hpcs Hst Hex Hw Hca Hct Hd Hok. pose proof Hinv as [I1 I2 I3 I4 I5 I6].
  refine (inv_goto w s s1 t p p' Hinv Hp Hpcs _ Hok _ Hd _ _ (fun _ => Hh) _ Hct).
  - intros t' q Hne Hq Hok'. eapply pc_ok_frame; [exact Hok'|by eapply other_lock|].
    intros c Hc. by apply Hca.
  - unfold stack_ok in *. rewrite Hst, Hl1, Hl. rewrite Hl in I2. destruct (stack_pc s); naive_solver.
  - by rewrite Hex, Hw.
  - intros t' Ht' Hne. congruence.
  - intros t' c Hc Hne. by apply (Hca t' c Hne).
Qed.

Lemma app_step_inv w s t p : inv w s -> pcs s !! t = Some p -> inv w (app_step s t p).
Proof.
  intros Hinv Hp. pose proof Hinv as [I1 I2 I3 I4 I5 I6]. pose proof (I1 t p Hp) as Hok.
  destruct p as [c|c|c|c|c|c|c|c|c|c|c|c|c|c v|c v e|]; cbn [app_step]; cbn in Hok.
  - case_decide; [done|]. refine (inv_lock_step w s (lock s) t _ (ALock c) Hinv Hp _ _ _); naive_solver.
  - destruct (lock s) eqn:Hl; [done|]. eapply inv_lock_step; eauto; cbn; naive_solver.
  - case_decide; [refine (inv_lock_step w s (lock s) t _ (AOps c) Hinv Hp _ _ _)|
      refine (inv_lock_step w s (lock s) t _ (AUnlock c) Hinv Hp _ _ _)]; cbn; naive_solver.
  - eapply inv_lock_step; eauto; cbn; naive_solver.
  - destruct Hok as (P1 & P2 & P3). pose proof (idle_no_caller s I3 P3) as Hnc.
    eapply inv_write_step; eauto; cbn; try done; [congruence|].
    apply (data_same s); try done. by left.
  - destruct Hok as (P1 & P2 & P3 & P4). pose proof (idle_no_caller s I3 P3) as Hnc.
    eapply inv_write_step; eauto; cbn; try done; [congruence|].
    apply (data_same s); try done. by left.
  - destruct Hok as (P1 & P2 & P3 & P4 & P5). pose proof (idle_no_caller s I3 P3) as Hnc.
    eapply inv_write_step; eauto; cbn; try done; [naive_solver|congruence|].
    unfold data_ok in I3. rewrite P3 in I3. destruct I3 as [_ Hd]. exists t, c. cbn.
    unfold stack_ok in I2. rewrite P2, P3 in I2. destruct (stack_pc s); naive_solver.
  - eapply inv_lock_step; eauto; cbn; naive_solver.
  - case_decide; [done|]. refine (inv_lock_step w s (lock s) t _ (BLock c) Hinv Hp _ _ _); naive_solver.
  - destruct (lock s) eqn:Hl; [done|]. eapply inv_lock_step; eauto; cbn; naive_solver.
  - case_decide; [refine (inv_lock_step w s (lock s) t _ (BResult c) Hinv Hp _ _ _)|
      refine (inv_lock_step w s (lock s) t _ (BUnlock c) Hinv Hp _ _ _)]; cbn; naive_solver.
  - eapply inv_lock_step; eauto; cbn; naive_solver.
  - refine (inv_lock_step w s (lock s) t _ (BError c (result s)) Hinv Hp _ _ _); cbn; naive_solver.
  - destruct Hok as (P1 & P2 & P3 & ->).
    refine (inv_lock_step w s (lock s) t _ (BIdle c _ (errno_of (result s) (error s))) Hinv Hp _ _ _);
      cbn; naive_solver.
  - destruct Hok as (P1 & P2 & P3 & P4 & P5).
    eapply inv_write_step; eauto; cbn; try done; [intros t' c' Hne; split; congruence|].
    unfold data_ok in I3. rewrite P3 in I3. destruct I3 as (t0 & c0 & Hc & ex & Hex & Hf).
    cbn. split; [done|]. rewrite Hex. apply Forall2_app; [done|]. constructor; [|constructor].
    rewrite P2 in Hc. injection Hc as <- <-. subst. done.
  - split.
    + cbn. intros t' q Hq. apply lookup_delete_Some in Hq as [Hne Hq].
      apply (pc_ok_same (with_lock s None)); try done. eapply pc_ok_frame; [by apply I1|by eapply other_lock|done].
    + unfold stack_ok in *. cbn. rewrite Hok in I2. destruct (stack_pc s); naive_solver.
    + apply (data_same s); try done. by right.
    + done.
    + intros t' c Hc. cbn in Hc |- *. destruct (I5 t' c Hc) as (q & Hq & Hw). exists q. split; [|done].
      rewrite lookup_delete_ne; [done|]. intros <-. rewrite Hp in Hq. injection Hq as <-. done.
    + done.
Qed.

(** A step of the stack: the threads' knowledge survives it. *)
Lemma inv_stack w s s' :
  inv w s -> pcs s' = pcs s -> caller s' = caller s ->
  (forall t p, pc_ok s t p -> pc_ok s' t p) ->
  (forall t, lock s' = Some (App t) -> lock s = Some (App t)) ->
  stack_ok s' -> data_ok s' -> runs w (executed s') (world s') -> inv w s'.
Proof.
  intros [I1 I2 I3 I4 I5 I6] E1 E2 Hpc Hl Hst Hd Hr. split; try done; rewrite ?E1, ?E2; auto.
  intros t p Hp. apply Hpc. by apply I1.
Qed.

Definition quiet (p : spc) : Prop := match p with SError _ _ | SStatus _ => False | _ => True end.

Lemma data_quiet s s' :
  data_ok s -> status s' = status s -> caller s' = caller s -> executed s' = executed s ->
  returned s' = returned s -> result s' = result s -> error s' = error s -> ops s' = ops s ->
  args s' = args s -> quiet (stack_pc s) -> quiet (stack_pc s') -> data_ok s'.
Proof.
  intros Hd E1 E2 E3 E4 E5 E6 E7 E8 Q1 Q2. unfold data_ok, late in *.
  rewrite E1, E2, E3, E4, E5, E6, E7, E8. destruct (status s); try done.
  by destruct (stack_pc s), (stack_pc s').
Qed.

Lemma stack_step_inv w s : inv w s -> inv w (stack_step h s).
Proof.
  intros Hinv. pose proof Hinv as [I1 I2 I3 I4 I5 I6]. unfold stack_step.
  destruct (stack_pc s) as [| | | |e f|f|] eqn:Hsp; unfold stack_ok in I2; rewrite Hsp in I2.
  - case_decide; [|done]. apply (inv_stack w s); try done.
    + apply (data_quiet s); try done; by rewrite Hsp.
  - destruct (lock s) as [o|] eqn:Hl.
    + apply (inv_stack w s); try done.
      * unfold stack_ok. cbn. by rewrite Hl.
      * apply (data_quiet s); try done; by rewrite Hsp.
    + apply (inv_stack w s); try done.
      * intros t p Hp. eapply pc_ok_frame; [exact Hp|congruence|done].
      * apply (data_quiet s); try done; by rewrite Hsp.
  - case_decide as Hreq.
    + apply (inv_stack w s); try done.
      * apply (data_quiet s); try done; by rewrite Hsp.
    + apply (inv_stack w s); try done.
      * apply (data_quiet s); try done; by rewrite Hsp.
  - destruct I2 as [Hl Hreq]. unfold data_ok in I3. rewrite Hreq, Hsp in I3.
    destruct I3 as (t & c & Hc & Ho & Ha & Hpl & Hf).
    destruct (h (world s) (ops s) (args s)) as [[[w1 r] e] f] eqn:Hh. rewrite Hc.
    apply (inv_stack w s); try done.
    + intros t' p Hp. eapply pc_ok_frame; [exact Hp|congruence|done].
    + unfold data_ok. cbn. rewrite Hreq. exists t, c. do 4 (split; [done|]). by exists (executed s).
    + cbn. apply (runs_snoc w (executed s) (world s) (mk_done t c r e) w1 f); [done|]. cbn. by rewrite <- Ho, <- Ha.
  - destruct I2 as [Hl Hreq]. unfold data_ok in I3. rewrite Hreq, Hsp in I3.
    apply (inv_stack w s); try done.
    + intros t' p Hp. eapply pc_ok_frame; [exact Hp|congruence|done].
    + unfold data_ok. cbn. rewrite Hreq. done.
  - destruct I2 as [Hl Hreq]. unfold data_ok in I3. rewrite Hreq, Hsp in I3.
    destruct I3 as (t & c & Hc & Ho & Ha & Hpl & Hlate). unfold plain in Hpl. rewrite Ho, Hpl. cbn [andb].
    apply (inv_stack w s); try done.
    + intros t' p Hp. eapply pc_ok_frame; [exact Hp|congruence|done].
    + unfold data_ok. cbn. by exists t, c.
  - apply (inv_stack w s); try done.
    + intros t' p Hp. eapply pc_ok_frame; [exact Hp|congruence|done].
    + apply (data_quiet s); try done; by rewrite Hsp.
Qed.

Definition plain_move (m : move) : Prop := match m with Call _ c => plain c | _ => True end.

Lemma rstep_inv w s m : inv w s -> plain_move m -> inv w (rstep h s m).
Proof.
  intros Hinv Hm. destruct m as [t c|t|]; cbn [rstep].
  - destruct (pcs s !! t) as [p|] eqn:Hp; [done|]. destruct Hinv as [I1 I2 I3 I4 I5 I6].
    assert (lock s <> Some (App t)) as Hl by (intros Hl; destruct (I4 t Hl) as (q & Hq & _); congruence).
    split; try done.
    + cbn. intros t' q Hq. apply lookup_insert_Some in Hq as [[<- <-]|[Hne Hq]]; [exact Hm|].
      apply (pc_ok_same s); try done. by apply I1.
    + intros t' Ht'. cbn in *. rewrite lookup_insert_ne by congruence. by apply I4.
    + intros t' c' Hc. cbn in *. destruct (I5 t' c' Hc) as (q & Hq & Hw). exists q.
      rewrite lookup_insert_ne by congruence. done.
  - destruct (pcs s !! t) as [p|] eqn:Hp; [|done]. by apply app_step_inv.
  - by apply stack_step_inv.
Qed.

Lemma rrun_inv w s ms : inv w s -> Forall plain_move ms -> inv w (rrun h s ms).
Proof.
  revert s. induction ms as [|m ms IH]; intros s Hinv Hms; [done|].
  apply Forall_cons in Hms as [Hm Hms]. cbn. apply IH; [|done]. by apply rstep_inv.
Qed.

(** ** Calls complete *)

Definition call_of (p : pc) : option call :=
  match p with
  | ASpin c | ALock c | ACheck c | AUnlock c | AOps c | AArgs c | AReq c => Some c
  | _ => waits p
  end.

(** From [s] to [s'] every call is still under way or has returned. *)
Definition carries_on s s' : Prop :=
  exists extra, returned s' = returned s ++ extra /\
    forall t p c, pcs s !! t = Some p -> call_of p = Some c ->
      (exists p', pcs s' !! t = Some p' /\ call_of p' = Some c) \/
      exists r, r ∈ extra /\ r_thread r = t /\ r_call r = c.

Lemma carries_on_refl s : carries_on s s.
Proof. exists []. rewrite app_nil_r. split; [done|]. intros t p c Hp Hc. left. eauto. Qed.

Lemma carries_on_trans s1 s2 s3 : carries_on s1 s2 -> carries_on s2 s3 -> carries_on s1 s3.
Proof.
  intros (e1 & R1 & C1) (e2 & R2 & C2). exists (e1 ++ e2). rewrite R2, R1, <- app_assoc. split; [done|].
  intros t p c Hp Hc. destruct (C1 t p c Hp Hc) as [(p' & Hp' & Hc')|(r & Hr & Ht & Hrc)].
  - destruct (C2 t p' c Hp' Hc') as [?|(r & Hr & Ht & Hrc)]; [by left|].
    right. exists r. split; [|done]. apply elem_of_app. by right.
  - right. exists r. split; [|done]. apply elem_of_app. by left.
Qed.

(** Moving a thread on within its call. *)
Lemma carries_on_goto s s1 t p p' :
  pcs s !! t = Some p -> pcs s1 = pcs s -> returned s1 = returned s -> call_of p' = call_of p ->
  carries_on s (goto s1 t p').
Proof.
  intros Hp Hpcs Hr Hc. exists []. cbn. rewrite app_nil_r. split; [done|].
  intros t' q c Hq Hqc. left. rewrite Hpcs. destruct (decide (t' = t)) as [->|Hne].
  - exists p'. rewrite lookup_insert_eq. split; [done|]. congruence.
  - exists q. by rewrite lookup_insert_ne.
Qed.

Lemma carries_on_step s m : (forall t c, m <> Call t c) -> carries_on s (rstep h s m).
Proof.
  intros Hm. destruct m as [t c|t|]; cbn [rstep]; [by destruct (Hm t c)| |].
  - destruct (pcs s !! t) as [p|] eqn:Hp; [|apply carries_on_refl].
    destruct p; cbn [app_step]; repeat case_decide; repeat case_match; try apply carries_on_refl;
      try (by eapply carries_on_goto).
    + exists [mk_ret t c ret0 errno]. cbn. split; [done|]. intros t' q c' Hq Hqc.
      destruct (decide (t' = t)) as [->|Hne].
      * right. exists (mk_ret t c ret0 errno). split; [left|]. rewrite Hp in Hq. injection Hq as <-.
        cbn in Hqc. by injection Hqc as <-.
      * left. exists q. by rewrite lookup_insert_ne.
    + exists []. cbn. rewrite app_nil_r. split; [done|]. intros t' q c' Hq Hqc. left. exists q.
      rewrite lookup_delete_ne; [done|]. intros ->. rewrite Hp in Hq. by injection Hq as <-.
  - exists []. split.
    + rewrite app_nil_r. unfold stack_step. by repeat case_match.
    + intros t p c Hp Hc. left. exists p. split; [|done]. unfold stack_step. by repeat case_match.
Qed.

(** *** A measure
    The calls not posted yet, then the status, then the distance to the next
    change of the two: with the lock taken, that of its owner; with the lock
    free, that of the thread the status waits for. *)

Definition unposted (p : pc) : bool :=
  match p with
  | ASpin _ | ALock _ | ACheck _ | AUnlock _ | AOps _ | AArgs _ | AReq _ => true
  | _ => false
  end.

Definition at_lock (p : pc) : bool := match p with ALock _ => true | _ => false end.

Definition unposted_calls (m : gmap nat pc) : nat :=
  size (dom (filter (fun kv : nat * pc => unposted kv.2 = true) m)).

Definition status_rank (x : FF_SO_CONTEXT_STATUS) : Z :=
  match x with FF_SC_IDLE => 0 | FF_SC_REP => 1 | FF_SC_REQ => 2 end.

Definition owner_rank (x : FF_SO_CONTEXT_STATUS) (p : pc) : Z :=
  match x, p with
  | FF_SC_IDLE, ACheck _ => 34 | FF_SC_IDLE, AOps _ => 33
  | FF_SC_IDLE, AArgs _ => 32 | FF_SC_IDLE, AReq _ => 31
  | FF_SC_REP, BCheck _ => 18 | FF_SC_REP, BResult _ => 17
  | FF_SC_REP, BError _ _ => 16 | FF_SC_REP, BIdle _ _ _ => 15
  | _, ACheck _ | _, BCheck _ => 61
  | _, _ => 60
  end.

Definition serving_rank (x : FF_SO_CONTEXT_STATUS) (p : spc) : Z :=
  match x, p with
  | FF_SC_REQ, SCheck => 18 | FF_SC_REQ, SHandle => 17
  | FF_SC_REQ, SError _ _ => 16 | FF_SC_REQ, SStatus _ => 15
  | _, SCheck => 61
  | _, _ => 60
  end.

Definition free_rank s : Z :=
  match status s with
  | FF_SC_REQ => match stack_pc s with SRead => 20 | _ => 19 end
  | FF_SC_REP =>
      match caller s with
      | Some (t, _) => match pcs s !! t with Some (BSpin _) => 20 | _ => 19 end
      | None => 0
      end
  | FF_SC_IDLE => if decide (map_Exists (fun _ p => at_lock p = true) (pcs s)) then 50 else 51
  end.

Definition local_rank s : Z :=
  match lock s with
  | Some Stack => serving_rank (status s) (stack_pc s)
  | Some (App t) => match pcs s !! t with Some p => owner_rank (status s) p | None => 0 end
  | None => free_rank s
  end.

Definition measure s : Z :=
  1000 * Z.of_nat (unposted_calls (pcs s)) + 100 * status_rank (status s) + local_rank s.

Lemma free_rank_le s : 0 <= free_rank s <= 51.
Proof. unfold free_rank. repeat case_match; lia. Qed.

Lemma owner_rank_le x p : 0 <= owner_rank x p <= 61.
Proof. destruct x, p; cbn; lia. Qed.

Lemma unposted_same m t p p' :
  m !! t = Some p -> unposted p' = unposted p -> unposted_calls (<[t := p']> m) = unposted_calls m.
Proof.
  intros Hp Hu. unfold unposted_calls. f_equal. apply set_eq. intros k.
  rewrite !elem_of_dom. unfold is_Some. setoid_rewrite map_lookup_filter_Some. cbn.
  destruct (decide (k = t)) as [->|Hne].
  - rewrite lookup_insert_eq, Hp. split; intros (q & [=<-] & Hq); eexists; split; try done; congruence.
  - by setoid_rewrite lookup_insert_ne.
Qed.

Lemma unposted_less m t p p' :
  m !! t = Some p -> unposted p = true -> unposted p' = false ->
  unposted_calls m = S (unposted_calls (<[t := p']> m)).
Proof.
  intros Hp Hu Hu'. unfold unposted_calls.
  assert (E : dom (filter (fun kv : nat * pc => unposted kv.2 = true) m) =
    {[t]} ∪ dom (filter (fun kv : nat * pc => unposted kv.2 = true) (<[t := p']> m))).
  { apply set_eq. intros k. rewrite elem_of_union, elem_of_singleton, !elem_of_dom. unfold is_Some.
    setoid_rewrite map_lookup_filter_Some. cbn. destruct (decide (k = t)) as [->|Hne].
    - rewrite Hp. split; [by left|]. intros _. by exists p.
    - setoid_rewrite lookup_insert_ne; [|done]. naive_solver. }
  rewrite E, size_union, size_singleton; [done|]. apply disjoint_singleton_l.
  rewrite elem_of_dom. intros (q & Hq). apply map_lookup_filter_Some in Hq as [Hq Hb].
  rewrite lookup_insert_eq in Hq. injection Hq as <-. cbn in Hb. congruence.
Qed.

Lemma unposted_gone m t p :
  m !! t = Some p -> unposted p = false -> unposted_calls (delete t m) = unposted_calls m.
Proof.
  intros Hp Hu. unfold unposted_calls. f_equal. apply set_eq. intros k.
  rewrite !elem_of_dom. unfold is_Some. setoid_rewrite map_lookup_filter_Some. cbn.
  destruct (decide (k = t)) as [->|Hne].
  - rewrite lookup_delete_eq, Hp. split; intros (q & Hq & Hb); [done|]. injection Hq as <-. congruence.
  - by setoid_rewrite lookup_delete_ne.
Qed.

Lemma measure_nonneg s : 0 <= measure s.
Proof.
  unfold measure, local_rank. pose proof (free_rank_le s).
  assert (0 <= status_rank (status s)) by (destruct (status s); cbn; lia).
  assert (0 <= serving_rank (status s) (stack_pc s)) by (destruct (status s), (stack_pc s); cbn; lia).
  repeat case_match; try lia. pose proof (owner_rank_le (status s) p). lia.
Qed.

(** With the lock taken, its owner gets on. *)
Lemma owner_moves w s t :
  inv w s -> lock s = Some (App t) -> measure (rstep h s (Go t)) < measure s.
Proof.
  intros [I1 I2 I3 I4 I5 I6] Hl. destruct (I4 t Hl) as (p & Hp & Hh). pose proof (I1 t p Hp) as Hok.
  unfold measure. cbn [rstep]. rewrite Hp. unfold local_rank at 2. rewrite Hl, Hp.
  destruct p; try done; cbn [app_step]; cbn in Hok;
    repeat match goal with H : _ /\ _ |- _ => destruct H end;
    repeat case_decide; cbn [goto leave with_lock with_status with_ops with_args with_returned pcs status];
    try (erewrite unposted_same by done); try (erewrite unposted_gone by done).
  all: try (unfold local_rank; cbn; rewrite Hl, lookup_insert_eq; try destruct (status s); simplify_eq; cbn; lia).
  all: try (unfold local_rank; cbn [goto leave lock with_lock];
    match goal with |- context [free_rank ?s1] => pose proof (free_rank_le s1) end; destruct (status s); cbn; lia).
  - rewrite (unposted_less (pcs s) t (AReq c) (ARelease c)) by done.
    unfold local_rank; cbn. rewrite Hl, lookup_insert_eq.
    replace (status s) with FF_SC_IDLE by done. cbn. lia.
Qed.

Lemma stack_moves w s :
  inv w s -> lock s = Some Stack -> measure (rstep h s Serve) < measure s.
Proof.
  intros [I1 I2 I3 I4 I5 I6] Hl. unfold stack_ok in I2. unfold data_ok in I3.
  unfold measure. cbn [rstep]. unfold stack_step. unfold local_rank at 2. rewrite Hl.
  destruct (stack_pc s) eqn:Hp; try done.
  - case_decide; unfold local_rank; cbn; rewrite Hl; destruct (status s); cbn; try done; lia.
  - destruct I2 as [_ Hst]. destruct (h _ _ _) as [[[w1 r] e] f].
    unfold local_rank; cbn; rewrite Hl, Hst; cbn; lia.
  - destruct I2 as [_ Hst]. unfold local_rank; cbn; rewrite ?Hl, ?Hst; cbn; lia.
  - destruct I2 as [_ Hst]. rewrite Hst in I3. destruct I3 as (t & c & _ & Ho & _ & Hpl & _).
    rewrite Ho, Hpl. unfold local_rank; cbn; rewrite ?Hl, ?Hst; cbn; lia.
  - unfold local_rank. cbn [stack_to with_lock lock pcs status].
    match goal with |- context [free_rank ?s1] => pose proof (free_rank_le s1) end.
    destruct (status s); cbn; lia.
Qed.

(** With the lock free, the thread the status waits for gets on. *)
Lemma free_moves w s :
  inv w s -> lock s = None -> pcs s <> ∅ ->
  exists m, (forall t c, m <> Call t c) /\ measure (rstep h s m) < measure s.
Proof.
  intros [I1 I2 I3 I4 I5 I6] Hl Hne. unfold stack_ok in I2. unfold data_ok in I3.
  unfold measure. destruct (status s) eqn:Hst.
  - destruct (decide (map_Exists (fun _ p => at_lock p = true) (pcs s))) as [HA|HA].
    + pose proof HA as (t & p & Hp & Ha). destruct p; try done. exists (Go t). split; [done|].
      cbn [rstep]. rewrite Hp. cbn [app_step]. rewrite Hl. cbn. rewrite (unposted_same _ _ (ALock c)) by done.
      unfold local_rank. cbn. rewrite ?Hl, lookup_insert_eq. unfold free_rank. rewrite ?Hst. cbn.
      rewrite decide_True by done. lia.
    + apply map_choose in Hne as (t & p & Hp). pose proof (I1 t p Hp) as Hok. cbn in Hok.
      exists (Go t). split; [done|]. cbn [rstep]. rewrite Hp.
      destruct p; cbn in Hok; try (exfalso; naive_solver).
      2: { destruct HA. exists t, (ALock c). done. }
      cbn [app_step]. rewrite decide_False by (rewrite Hst; naive_solver). cbn.
      rewrite (unposted_same _ _ (ASpin c)) by done. unfold local_rank, free_rank. cbn. rewrite ?Hl, ?Hst. cbn.
      rewrite decide_True, decide_False; [lia|done|]. exists t, (ALock c). by rewrite lookup_insert_eq.
  - exists Serve. split; [done|]. cbn [rstep]. unfold stack_step, local_rank, free_rank.
    destruct (stack_pc s) eqn:Hs; try (exfalso; naive_solver); rewrite ?Hst, ?Hl.
    + rewrite decide_True by done. cbn. rewrite Hl, Hst. cbn. lia.
    + cbn. rewrite Hst. cbn. lia.
  - destruct I3 as (t & c & Hc & _). destruct (I5 t c Hc) as (p & Hp & Hw). pose proof (I1 t p Hp) as Hok.
    exists (Go t). split; [done|]. cbn [rstep]. rewrite Hp.
    destruct p; try done; cbn in Hok; try (exfalso; naive_solver); cbn [app_step].
    + rewrite decide_False by (rewrite Hst; naive_solver). cbn. rewrite (unposted_same _ _ (BSpin c0)) by done.
      unfold local_rank, free_rank. cbn. rewrite ?Hl, ?Hst, Hc, lookup_insert_eq, Hp. cbn. lia.
    + rewrite Hl. cbn. rewrite (unposted_same _ _ (BLock c0)) by done.
      unfold local_rank, free_rank. cbn. rewrite ?Hl, ?Hst, Hc, lookup_insert_eq, Hp. cbn. lia.
Qed.

(** Some thread gets on, as long as there is a call. *)
Lemma someone_moves w s :
  inv w s -> pcs s <> ∅ ->
  exists m, (forall t c, m <> Call t c) /\ measure (rstep h s m) < measure s.
Proof.
  intros Hi Hne. destruct (lock s) as [[t|]|] eqn:Hl.
  - exists (Go t). split; [done|]. by apply (owner_moves w).
  - exists Serve. split; [done|]. by apply (stack_moves w).
  - by apply (free_moves w).
Qed.

Lemma rrun_app s ms ms' : rrun h s (ms ++ ms') = rrun h (rrun h s ms) ms'.
Proof. apply fold_left_app. Qed.

Definition no_new_call (m : move) : Prop := forall t c, m <> Call t c.

Lemma no_new_call_plain m : no_new_call m -> plain_move m.
Proof. destruct m as [t c| |]; intros H; [by destruct (H t c)|done|done]. Qed.

Lemma settles w n s :
  inv w s -> measure s < Z.of_nat n ->
  exists ms, Forall no_new_call ms /\ pcs (rrun h s ms) = ∅ /\ carries_on s (rrun h s ms).
Proof.
  revert s. induction n as [|n IH]; intros s Hi Hn; [pose proof (measure_nonneg s); lia|].
  destruct (decide (pcs s = ∅)) as [He|He].
  { exists []. split; [done|]. split; [done|]. apply carries_on_refl. }
  destruct (someone_moves w s Hi He) as (m & Hm & Hlt).
  destruct (IH (rstep h s m)) as (ms & Hms & Hend & Hc); [|lia|].
  { apply rstep_inv; [done|]. by apply no_new_call_plain. }
  exists (m :: ms). split; [by constructor|]. split; [done|].
  apply (carries_on_trans _ (rstep h s m)); [|done]. by apply carries_on_step.
Qed.

(** ** Properties *)

(** C5: whatever the interleaving of any number of application threads with
    the stack's thread, of calls that do not wait for events, the stack runs
    the posted calls one after the other,
    and the returns to the application are these runs, in their order and
    each once: the thread that posted the call gets the result of its own
    call, and its [errno] exactly if the result is negative.  At most one run,
    the last, has not returned yet. *)
Theorem rpc_calls_once w ms :
  Forall plain_move ms ->
  let s := rrun h (rinit w) ms in
  runs w (executed s) (world s) /\
  exists ex, Forall2 hands ex (returned s) /\ (executed s = ex \/ exists d, executed s = ex ++ [d]).
Proof.
  intros Hms s. assert (inv w s) as Hi by (apply rrun_inv; [apply rpc_inv_init|done]).
  split; [apply Hi|]. pose proof (i_data w s Hi) as Hd. unfold data_ok, late in Hd.
  destruct (status s), (stack_pc s); naive_solver.
Qed.

(** C37: no deadlock: after any interleaving of calls that do not wait for
    events the calls under way can all be
    completed by steps of their threads and the stack alone, and each of
    them then has returned, to the thread that made it. *)
Theorem rpc_settles w ms :
  Forall plain_move ms ->
  let s := rrun h (rinit w) ms in
  exists ms' extra, Forall no_new_call ms' /\
    pcs (rrun h s ms') = ∅ /\ returned (rrun h s ms') = returned s ++ extra /\
    forall t p c, pcs s !! t = Some p -> call_of p = Some c ->
      exists r, r ∈ extra /\ r_thread r = t /\ r_call r = c.
Proof.
  intros Hms s. assert (inv w s) as Hi by (apply rrun_inv; [apply rpc_inv_init|done]).
  destruct (settles w (Z.to_nat (measure s + 1)) s Hi) as (ms' & Hn & Hend & extra & Hr & Hall);
    [pose proof (measure_nonneg s); lia|].
  exists ms', extra. split; [done|]. split; [done|]. split; [done|].
  intros t p c Hp Hc. destruct (Hall t p c Hp Hc) as [(p' & Hp' & _)|?]; [|done].
  by rewrite Hend in Hp'.
Qed.
End Rpc.

(** ** Witnesses *)

(** A handler that counts its calls; two threads that interleave. *)
Definition count_handler (w : Z) (o : FF_SOCKET_OPS) (a : Z) : Z * Z * Z * Z := (w + 1, a - 1, 11, 0).

Definition two_threads : list move :=
  [Call 1 (mk_call (FF_SO_OTHER 3) 0); Call 2 (mk_call (FF_SO_OTHER 4) 7); Go 1; Go 2; Go 2; Go 1;
   Go 2; Serve; Go 2; Go 2; Go 2; Serve; Serve; Go 2; Serve; Serve; Serve; Serve].

Lemma rpc_calls_once_witness :
  Forall plain_move two_threads /\
  exists ex, Forall2 hands ex (returned (rrun count_handler (rinit 0) two_threads)) /\
    (executed (rrun count_handler (rinit 0) two_threads) = ex \/
     exists d, executed (rrun count_handler (rinit 0) two_threads) = ex ++ [d]).
Proof.
  assert (Forall plain_move two_threads) as H by (repeat constructor).
  split; [exact H|]. exact (proj2 (rpc_calls_once count_handler 0 two_threads H)).
Defined.

Lemma rpc_settles_witness :
  Forall plain_move two_threads /\
  exists ms', pcs (rrun count_handler (rrun count_handler (rinit 0) two_threads) ms') = ∅.
Proof.
  assert (Forall plain_move two_threads) as H by (repeat constructor).
  split; [exact H|]. destruct (rpc_settles count_handler 0 two_threads H) as (ms' & extra & _ & He & _).
  exists ms'. exact He.
Defined.
