(* ===== verification/Toeplitz.v ===== *)
(** * Receive side scaling: the hash and the queue of a connection

    With several queues the NIC spreads packets by a Toeplitz hash of the
    addresses and ports and an indirection table.  A stack that opens a
    connection chooses a local port whose answers come to its own queue, so it
    computes the same hash.  This file has the hash of [ff_dpdk_if.c]
    ([toeplitz_hash]), that of DPDK ([rte_softrss]), the indirection table
    ([set_rss_table]) and the queue tests ([ff_rss_check], [ff_rss_check6]).

    Addresses and ports are in network byte order in memory, and integers are
    little-endian, as on the x86 machines the code is built for. *)

From S2P Require Import Prelude.

Module Toeplitz.

(** ** Memory images of integers *)

(** The [n] bytes of [z]. *)
Fixpoint le_bytes (n : nat) (z : Z) : list Z :=
  match n with
  | O => []
  | S n => z mod 256 :: le_bytes n (z / 256)
  end.

Definition htons (x : Z) : Z := (x mod 256) * 256 + x / 256.
Definition ntohs (x : Z) : Z := htons x.

(** ** The hash of F-Stack *)

(** [for (b = 0; b < 8; b++)] of [toeplitz_hash], [k] rounds from [b] on: the
    hash and [v]. *)
Fixpoint hash_bits (k : nat) (b : Z) (keylen : Z) (key : list Z) (i d : Z) (hash v : Z) : res (Z * Z) :=
  match k with
  | O => Ok (hash, v)
  | S k =>
      let hash := if negb (Z.land d (Z.shiftl 1 (7 - b)) =? 0) then Z.lxor hash v else hash in
      let v := u32 (Z.shiftl v 1) in
      let* v :=
        if u32 (i + 4) <? keylen then
          let* x := array_get key (i + 4) in
          if negb (Z.land x (Z.shiftl 1 (7 - b)) =? 0) then Ok (Z.lor v 1) else Ok v
        else Ok v in
      hash_bits k (b + 1) keylen key i d hash v
  end.

(** [for (i = 0; i < datalen; i++)]. *)
Fixpoint hash_bytes (keylen : Z) (key : list Z) (i : Z) (data : list Z) (hash v : Z) : res Z :=
  match data with
  | [] => Ok hash
  | d :: data =>
      let* (hash, v) := hash_bits 8 0 keylen key i d hash v in
      hash_bytes keylen key (i + 1) data hash v
  end.

(** [key] is the whole array; a null pointer is the empty one. *)
Definition toeplitz_hash (keylen : Z) (key : list Z) (data : list Z) : res Z :=
  let* k0 := array_get key 0 in
  let* k1 := array_get key 1 in
  let* k2 := array_get key 2 in
  let* k3 := array_get key 3 in
  let v := u32 (Z.shiftl k0 24 + Z.shiftl k1 16 + Z.shiftl k2 8 + k3) in
  hash_bytes keylen key 0 data 0 v.

(** ** The hash of DPDK *)

(** The number of the lowest bit set. *)
Definition rte_bsf32 (v : Z) : Z := Z.log2 (Z.land v (- v)).

(** The big-endian word at byte [i]. *)
Definition be32_at (l : list Z) (i : Z) : res Z :=
  let* b0 := array_get l i in
  let* b1 := array_get l (i + 1) in
  let* b2 := array_get l (i + 2) in
  let* b3 := array_get l (i + 3) in
  Ok (Z.lor (Z.shiftl b0 24) (Z.lor (Z.shiftl b1 16) (Z.lor (Z.shiftl b2 8) b3))).

(** [for (map = input_tuple[j]; map; map &= (map - 1))]. *)
Fixpoint softrss_bits (fuel : nat) (w0 w1 map ret : Z) : res Z :=
  if map =? 0 then Ok ret
  else
    match fuel with
    | O => NoFuel
    | S fuel =>
        let i := rte_bsf32 map in
        let ret := Z.lxor ret (Z.lor (u32 (Z.shiftl w0 (31 - i))) (Z.shiftr w1 (i + 1))) in
        softrss_bits fuel w0 w1 (Z.land map (map - 1)) ret
    end.

Fixpoint softrss_words (key : list Z) (j : Z) (input : list Z) (ret : Z) : res Z :=
  match input with
  | [] => Ok ret
  | map :: input =>
      if map =? 0 then softrss_words key (j + 1) input ret
      else
        let* w0 := be32_at key (4 * j) in
        let* w1 := be32_at key (4 * j + 4) in
        let* ret := softrss_bits 32 w0 w1 map ret in
        softrss_words key (j + 1) input ret
  end.

(** The words of a tuple, each [rte_be_to_cpu_32] of four bytes. *)
Fixpoint be_words (l : list Z) : list Z :=
  match l with
  | b0 :: b1 :: b2 :: b3 :: l =>
      Z.lor (Z.shiftl b0 24) (Z.lor (Z.shiftl b1 16) (Z.lor (Z.shiftl b2 8) b3)) :: be_words l
  | _ => []
  end.

Definition rte_softrss (input_tuple rss_key : list Z) : res Z := softrss_words rss_key 0 input_tuple 0.

(** ** Keys *)

Definition default_rsskey_40bytes : list Z :=
  [0xd1; 0x81; 0xc6; 0x2c; 0xf7; 0xf4; 0xdb; 0x5b;
   0x19; 0x83; 0xa2; 0xfc; 0x94; 0x3e; 0x1a; 0xdb;
   0xd9; 0x38; 0x9e; 0x6b; 0xd1; 0x03; 0x9c; 0x2c;
   0xa7; 0x44; 0x99; 0xad; 0x59; 0x3d; 0x56; 0xd9;
   0xf3; 0x25; 0x3c; 0x06; 0x2a; 0xdc; 0x1f; 0xfc].

Definition default_rsskey_52bytes : list Z :=
  [0x44; 0x39; 0x79; 0x6b; 0xb5; 0x4c; 0x50; 0x23;
   0xb6; 0x75; 0xea; 0x5b; 0x12; 0x4f; 0x9f; 0x30;
   0xb8; 0xa2; 0xc0; 0x3d; 0xdf; 0xdc; 0x4d; 0x02;
   0xa0; 0x8c; 0x9b; 0x33; 0x4a; 0xf6; 0x4a; 0x4c;
   0x05; 0xc6; 0xfa; 0x34; 0x39; 0x58; 0xd8; 0x55;
   0x7d; 0x99; 0x58; 0x3a; 0xe1; 0x38; 0xc9; 0x2e;
   0x81; 0x15; 0x03; 0x66].

Definition symmetric_rsskey : list Z :=
  [0x6d; 0x5a; 0x6d; 0x5a; 0x6d; 0x5a; 0x6d; 0x5a;
   0x6d; 0x5a; 0x6d; 0x5a; 0x6d; 0x5a; 0x6d; 0x5a;
   0x6d; 0x5a; 0x6d; 0x5a; 0x6d; 0x5a; 0x6d; 0x5a;
   0x6d; 0x5a; 0x6d; 0x5a; 0x6d; 0x5a; 0x6d; 0x5a;
   0x6d; 0x5a; 0x6d; 0x5a; 0x6d; 0x5a; 0x6d; 0x5a;
   0x6d; 0x5a; 0x6d; 0x5a; 0x6d; 0x5a; 0x6d; 0x5a;
   0x6d; 0x5a; 0x6d; 0x5a].

(** [rsskey] and [rsskey_len] as [init_port_start] sets them, by the length
    of the NIC's key and the [symmetric_rss] option. *)
Definition choose_rsskey (hash_key_size : Z) (symmetric_rss : bool) : list Z * Z :=
  let '(rsskey, rsskey_len) :=
    if hash_key_size =? 40 then (default_rsskey_40bytes, 40)
    else if hash_key_size =? 52 then (default_rsskey_52bytes, 52)
    else ([], 0) in
  if symmetric_rss && negb (hash_key_size =? 0) then (symmetric_rsskey, rsskey_len)
  else (rsskey, rsskey_len).

(** ** The indirection table *)

Definition RTE_ETH_RETA_GROUP_SIZE : Z := 64.

(** [for (j = 0; j < RTE_ETH_RETA_GROUP_SIZE; j++)]: a group from [hash]
    on. *)
Definition reta_group (nb_queues hash : Z) : list Z :=
  (fun j => u16 (u32 (hash + j) mod nb_queues)) <$> seqZ 0 RTE_ETH_RETA_GROUP_SIZE.

(** The groups given to the NIC. *)
Definition set_rss_table (reta_size nb_queues : Z) : list (list Z) :=
  if reta_size =? 0 then []
  else
    let reta_conf_size := Z.max 1 (reta_size / RTE_ETH_RETA_GROUP_SIZE) in
    (fun i => reta_group nb_queues (i * RTE_ETH_RETA_GROUP_SIZE)) <$> seqZ 0 reta_conf_size.

(** ** The queue of a connection *)

(** What a thread knows of a port: the number of queues, the size of the
    indirection table and its own queue. *)
Record rss_port := mk_rss_port { nb_queues : Z; reta_size : Z; queueid : Z }.

Record rss_env := mk_rss_env {
  rsskey : list Z;
  rsskey_len : Z;
  rss_ports : Z -> rss_port
}.

(** The bytes hashed. *)
Definition tuple4 (saddr daddr sport dport : Z) : list Z :=
  le_bytes 4 saddr ++ le_bytes 4 daddr ++ le_bytes 2 sport ++ le_bytes 2 dport.
Definition tuple6 (saddr6 daddr6 : list Z) (sport dport : Z) : list Z :=
  saddr6 ++ daddr6 ++ le_bytes 2 sport ++ le_bytes 2 dport.

Definition check_queue (env : rss_env) (p : rss_port) (data : list Z) : res bool :=
  let* hash := toeplitz_hash (rsskey_len env) (rsskey env) data in
  Ok (Z.land hash (u32 (reta_size p - 1)) mod nb_queues p =? queueid p).

Definition ff_rss_check (env : rss_env) (port_id saddr daddr sport dport : Z) : res bool :=
  let p := rss_ports env port_id in
  if nb_queues p <=? 1 then Ok true else check_queue env p (tuple4 saddr daddr sport dport).

Definition ff_rss_check6 (env : rss_env) (port_id : Z) (saddr6 daddr6 : list Z) (sport dport : Z) : res bool :=
  let p := rss_ports env port_id in
  if nb_queues p <=? 1 then Ok true else check_queue env p (tuple6 saddr6 daddr6 sport dport).
End Toeplitz.
