(* ===== verification/ToeplitzProofs.v ===== *)
(** * Proofs about the hash and the queue of a connection

    The two hashes are the Toeplitz hash of the RSS specification, the queue
    test says where the NIC puts the packet, and with the symmetric key both
    directions of a connection have the same hash. *)

From S2P Require Import Prelude Toeplitz.

Import Toeplitz.

(** ** The reference

    Bits of a byte string are numbered from the highest bit of the first
    byte on; the hash is the exclusive or, over the set bits of the data, of
    the 32 bits of the key from the same place on. *)

Definition bit_of (l : list Z) (n : nat) : bool :=
  match l !! (n / 8)%nat with
  | Some x => Z.testbit x (Z.of_nat (7 - n mod 8))
  | None => false
  end.

Definition window (key : list Z) (n : nat) : Z :=
  foldl (fun v j => 2 * v + Z.b2z (bit_of key (n + j))) 0 (seq 0 32).

Definition xor_list (l : list Z) : Z := foldr Z.lxor 0 l.

Definition toeplitz (key data : list Z) : Z :=
  xor_list ((fun n => if bit_of data n then window key n else 0) <$> seq 0 (8 * length data)).

Definition byte (x : Z) : Prop := 0 <= x < 256.

(** ** Exclusive or of a list *)

Lemma xor_list_app l k : xor_list (l ++ k) = Z.lxor (xor_list l) (xor_list k).
Proof.
  induction l as [|x l IH]; cbn; [by rewrite Z.lxor_0_l|]. fold (xor_list (l ++ k)). fold (xor_list l).
  by rewrite IH, Z.lxor_assoc.
Qed.

#[export] Instance xor_list_perm : Proper (Permutation ==> eq) xor_list.
Proof.
  intros l k H. induction H as [|x l k _ IH|x y l|l1 l2 l3 _ IH1 _ IH2]; cbn; [done| | |congruence].
  - fold (xor_list l). fold (xor_list k). by rewrite IH.
  - rewrite <- !Z.lxor_assoc. f_equal. apply Z.lxor_comm.
Qed.

Lemma xor_list_zero {A} (f : A -> Z) l : (forall x, x ∈ l -> f x = 0) -> xor_list (f <$> l) = 0.
Proof.
  induction l as [|x l IH]; intros H; cbn; [done|]. rewrite (H x) by left. rewrite Z.lxor_0_l.
  apply IH. intros y Hy. apply H. by right.
Qed.

Lemma xor_list_ext {A} (f g : A -> Z) l :
  (forall x, x ∈ l -> f x = g x) -> xor_list (f <$> l) = xor_list (g <$> l).
Proof. intros H. f_equal. apply list_fmap_ext. intros i x Hi. apply H. by eapply list_elem_of_lookup_2. Qed.

(** Bit by bit. *)
Lemma xor_list_lxor {A} (f g : A -> Z) l :
  xor_list ((fun x => Z.lxor (f x) (g x)) <$> l) = Z.lxor (xor_list (f <$> l)) (xor_list (g <$> l)).
Proof.
  induction l as [|x l IH]; [done|]. cbn. cbn in IH. unfold xor_list in IH. rewrite IH. bitwise.
Qed.

(** ** Windows of the key *)

Lemma window_foldl key n k j :
  0 <= j ->
  Z.testbit (foldl (fun v j => 2 * v + Z.b2z (bit_of key (n + j))) 0 (seq 0 k)) j =
  (j <? Z.of_nat k) && bit_of key (n + k - 1 - Z.to_nat j).
Proof.
  revert j. induction k as [|k IH]; intros j Hj.
  - cbn [seq foldl]. rewrite Z.bits_0. destruct (Z.ltb_spec j (Z.of_nat 0)); [lia|done].
  - rewrite seq_S, foldl_app. cbn [foldl].
    set (v := foldl _ 0 (seq 0 k)) in *. destruct (decide (j = 0)) as [->|Hne].
    + rewrite Z.add_comm, Z.add_b2z_double_bit0. destruct (Z.ltb_spec 0 (Z.of_nat (S k))); [|lia].
      cbn [andb]. f_equal. lia.
    + rewrite Z.add_comm. replace j with (Z.succ (j - 1)) at 1 by lia.
      rewrite <- Z.div2_bits, Z.add_b2z_double_div2 by lia.
      rewrite IH by lia.
      destruct (Z.ltb_spec (j - 1) (Z.of_nat k)), (Z.ltb_spec j (Z.of_nat (S k))); try lia.
      all: cbn [andb]; try done; f_equal; lia.
Qed.

Lemma window_testbit key n j :
  0 <= j -> Z.testbit (window key n) j = (j <? 32) && bit_of key (n + 31 - Z.to_nat j).
Proof. intros Hj. unfold window. rewrite window_foldl by done. do 2 f_equal. lia. Qed.

Lemma window_eq key n v :
  0 <= v < 2 ^ 32 ->
  (forall j, 0 <= j < 32 -> Z.testbit v j = bit_of key (n + 31 - Z.to_nat j)) -> window key n = v.
Proof.
  intros Hv H. apply Z.bits_inj'. intros j Hj. rewrite window_testbit by done.
  destruct (Z.ltb_spec j 32); cbn.
  - symmetry. apply H. lia.
  - symmetry. destruct (decide (v = 0)) as [->|Hne]; [apply Z.bits_0|]. apply Z.bits_above_log2; [lia|].
    pose proof (Z.log2_lt_pow2 v 32). lia.
Qed.

Lemma window_range key n : 0 <= window key n < 2 ^ 32.
Proof.
  unfold window. change 32 with (Z.of_nat 32). generalize 32%nat. intros k.
  induction k as [|k IH]; [cbn; lia|]. rewrite seq_S, foldl_app, Nat2Z.inj_succ, Z.pow_succ_r by lia.
  cbn [foldl]. destruct (bit_of key _); cbn [Z.b2z]; lia.
Qed.

(** A window depends on 32 bits of the key only. *)
Lemma window_ext key key' n n' :
  (forall j, (j < 32)%nat -> bit_of key (n + j) = bit_of key' (n' + j)) -> window key n = window key' n'.
Proof.
  intros H. apply window_eq; [apply window_range|]. intros j Hj. rewrite window_testbit by lia.
  destruct (Z.ltb_spec j 32); [|lia]. cbn. replace (n' + 31 - Z.to_nat j)%nat with (n' + (31 - Z.to_nat j))%nat by lia.
  replace (n + 31 - Z.to_nat j)%nat with (n + (31 - Z.to_nat j))%nat by lia. symmetry. apply H. lia.
Qed.

Lemma bit_of_app_l l k n : (n < 8 * length l)%nat -> bit_of (l ++ k) n = bit_of l n.
Proof.
  intros Hn. unfold bit_of. rewrite lookup_app_l; [done|]. apply Nat.Div0.div_lt_upper_bound. lia.
Qed.

Lemma bit_of_app_r l k n : bit_of (l ++ k) (8 * length l + n) = bit_of k n.
Proof.
  unfold bit_of. replace (8 * length l + n)%nat with (n + length l * 8)%nat by lia.
  rewrite Nat.div_add, Nat.Div0.mod_add, lookup_app_r by lia. replace (n / 8 + length l - length l)%nat with (n / 8)%nat by lia.
  done.
Qed.

(** ** Linearity *)

(** The hash of the data from bit [n] on. *)
Definition toeplitz_at (key : list Z) (n : nat) (data : list Z) : Z :=
  xor_list ((fun i => if bit_of data i then window key (n + i) else 0) <$> seq 0 (8 * length data)).

Lemma toeplitz_at_0 key data : toeplitz key data = toeplitz_at key 0 data.
Proof. done. Qed.

Lemma toeplitz_at_app key n l k :
  toeplitz_at key n (l ++ k) = Z.lxor (toeplitz_at key n l) (toeplitz_at key (n + 8 * length l) k).
Proof.
  unfold toeplitz_at. rewrite length_app, Nat.mul_add_distr_l, seq_app, fmap_app, xor_list_app. f_equal.
  - apply xor_list_ext. intros i Hi. apply elem_of_seq in Hi. rewrite bit_of_app_l by lia. done.
  - rewrite Nat.add_0_l, <- (Nat.add_0_r (8 * length l)) at 1. rewrite <- fmap_add_seq, <- list_fmap_compose. apply xor_list_ext.
    intros i _. cbn. rewrite bit_of_app_r. by rewrite Nat.add_assoc.
Qed.

Lemma toeplitz_at_ext key key' n n' data :
  (forall i, (i < 8 * length data + 31)%nat -> bit_of key (n + i) = bit_of key' (n' + i)) ->
  toeplitz_at key n data = toeplitz_at key' n' data.
Proof.
  intros H. apply xor_list_ext. intros i Hi. apply elem_of_seq in Hi.
  destruct (bit_of data i); [|done]. apply window_ext. intros j Hj.
  rewrite <- !Nat.add_assoc. apply H. lia.
Qed.

Lemma toeplitz_lxor key a b :
  length a = length b ->
  toeplitz key (zip_with Z.lxor a b) = Z.lxor (toeplitz key a) (toeplitz key b).
Proof.
  intros Hl. unfold toeplitz. rewrite length_zip_with, <- Hl, Nat.min_id, <- xor_list_lxor.
  apply xor_list_ext. intros n Hn. apply elem_of_seq in Hn. unfold bit_of. rewrite lookup_zip_with.
  assert (n / 8 < length a)%nat as Hlt by (apply Nat.Div0.div_lt_upper_bound; lia).
  destruct (lookup_lt_is_Some_2 a (n / 8)) as [x ->]; [lia|].
  destruct (lookup_lt_is_Some_2 b (n / 8)) as [y ->]; [lia|]. cbn.
  rewrite Z.lxor_spec. destruct (Z.testbit x _), (Z.testbit y _); cbn; bitwise.
Qed.

(** ** The hash of F-Stack *)

Lemma test_bit x p : 0 <= p -> negb (Z.land x (Z.shiftl 1 p) =? 0) = Z.testbit x p.
Proof.
  intros Hp. rewrite Z.shiftl_1_l. destruct (Z.testbit x p) eqn:E.
  - destruct (Z.eqb_spec (Z.land x (2 ^ p)) 0) as [H|]; [|done].
    assert (Z.testbit (Z.land x (2 ^ p)) p = true) as H2 by (rewrite Z.land_spec, E, Z.pow2_bits_true; done).
    rewrite H, Z.bits_0 in H2. done.
  - replace (Z.land x (2 ^ p)) with 0; [done|]. symmetry. apply Z.bits_inj'. intros q Hq.
    rewrite Z.land_spec, Z.bits_0, Z.pow2_bits_eqb by done. destruct (Z.eqb_spec p q) as [<-|]; [by rewrite E|].
    by rewrite andb_false_r.
Qed.

Lemma bit_of_byte l (i : nat) b : (b < 8)%nat ->
  bit_of l (8 * i + b) = match l !! i with Some x => Z.testbit x (7 - Z.of_nat b) | None => false end.
Proof.
  intros Hb. unfold bit_of. replace (8 * i + b)%nat with (b + i * 8)%nat by lia.
  rewrite Nat.div_add, Nat.Div0.mod_add, Nat.div_small, Nat.mod_small by lia. cbn.
  destruct (l !! i); [|done]. f_equal. lia.
Qed.

(** One bit further. *)
Lemma window_shift K n :
  window K (S n) = Z.lor (u32 (Z.shiftl (window K n) 1)) (Z.b2z (bit_of K (n + 32))).
Proof.
  assert (forall j, 0 <= j -> Z.testbit (Z.b2z (bit_of K (n + 32))) j = (j =? 0) && bit_of K (n + 32)) as Hb.
  { intros j Hj. destruct (bit_of K _); cbn; [|by rewrite Z.bits_0, andb_false_r].
    destruct (Z.eqb_spec j 0) as [->|]; [done|]. change 1 with (2 ^ 0). rewrite Z.pow2_bits_false; lia || done. }
  apply Z.bits_inj'. intros j Hj. rewrite window_testbit, Z.lor_spec, Hb by done. unfold wrapu.
  destruct (Z.ltb_spec j 32).
  - rewrite Z.mod_pow2_bits_low, Z.shiftl_spec, andb_true_l by lia. destruct (Z.eqb_spec j 0) as [->|].
    + rewrite Z.testbit_neg_r by lia. cbn. f_equal. lia.
    + rewrite window_testbit by lia. destruct (Z.ltb_spec (j - 1) 32); [|lia]. cbn. rewrite orb_false_r. f_equal. lia.
  - rewrite Z.mod_pow2_bits_high by lia. destruct (Z.eqb_spec j 0); [lia|done].
Qed.

Lemma concat_bits w a b j :
  0 <= w -> 0 <= b < 2 ^ w -> 0 <= j ->
  Z.testbit (a * 2 ^ w + b) j = if j <? w then Z.testbit b j else Z.testbit a (j - w).
Proof.
  intros Hw Hb Hj. destruct (Z.ltb_spec j w).
  - rewrite <- (Z.mod_pow2_bits_low _ w j) by lia.
    rewrite Z.add_comm, Z_mod_plus_full, Z.mod_small by lia. done.
  - replace j with (j - w + w) at 1 by lia. rewrite <- Z.div_pow2_bits by lia.
    by rewrite Z.div_add_l, (Z.div_small b), Z.add_0_r by lia.
Qed.

Lemma concat_testbit a b j :
  0 <= b < 256 -> 0 <= j ->
  Z.testbit (a * 256 + b) j = if j <? 8 then Z.testbit b j else Z.testbit a (j - 8).
Proof. intros. by apply (concat_bits 8). Qed.

(** Four bytes of the key, as a number. *)
Lemma window_bytes K (i : nat) k0 k1 k2 k3 :
  Forall byte [k0; k1; k2; k3] ->
  K !! i = Some k0 -> K !! (i + 1)%nat = Some k1 -> K !! (i + 2)%nat = Some k2 -> K !! (i + 3)%nat = Some k3 ->
  window K (8 * i) = u32 (k0 * 2 ^ 24 + k1 * 2 ^ 16 + k2 * 2 ^ 8 + k3).
Proof.
  intros Hb H0 H1 H2 H3. unfold byte in Hb.
  repeat match goal with H : Forall _ (_ :: _) |- _ => apply Forall_cons in H as [? H] end.
  rewrite (wrapu_small 32) by lia. apply window_eq; [lia|]. intros j Hj.
  replace (k0 * 2 ^ 24 + k1 * 2 ^ 16 + k2 * 2 ^ 8 + k3) with (((k0 * 256 + k1) * 256 + k2) * 256 + k3) by lia.
  assert (forall (n : nat) x, K !! (i + n)%nat = Some x -> forall b, (b < 8)%nat ->
    bit_of K (8 * i + (8 * n + b)) = Z.testbit x (7 - Z.of_nat b)) as HK.
  { intros n x Hx b Hb8. replace (8 * i + (8 * n + b))%nat with (8 * (i + n) + b)%nat by lia.
    rewrite bit_of_byte, Hx by done. done. }
  rewrite concat_testbit by lia. destruct (Z.ltb_spec j 8); [|rewrite concat_testbit by lia;
    destruct (Z.ltb_spec (j - 8) 8); [|rewrite concat_testbit by lia; destruct (Z.ltb_spec (j - 8 - 8) 8)]].
  - replace (8 * i + 31 - Z.to_nat j)%nat with (8 * i + (8 * 3 + (7 - Z.to_nat j)))%nat by lia.
    rewrite (HK 3%nat k3) by lia || done. f_equal. lia.
  - replace (8 * i + 31 - Z.to_nat j)%nat with (8 * i + (8 * 2 + (15 - Z.to_nat j)))%nat by lia.
    rewrite (HK 2%nat k2) by lia || done. f_equal. lia.
  - replace (8 * i + 31 - Z.to_nat j)%nat with (8 * i + (8 * 1 + (23 - Z.to_nat j)))%nat by lia.
    rewrite (HK 1%nat k1) by lia || done. f_equal. lia.
  - replace (8 * i + 31 - Z.to_nat j)%nat with (8 * i + (8 * 0 + (31 - Z.to_nat j)))%nat by lia.
    rewrite (HK 0%nat k0) by (rewrite ?Nat.add_0_r; lia || done). f_equal. lia.
Qed.

Section Hash.
Variables (keylen : Z) (key : list Z).
Hypothesis Hlen : 4 <= keylen <= Z.of_nat (length key).
Hypothesis Hkey : Forall byte key.

Let K := take (Z.to_nat keylen) key.

Lemma key_bit (i b : nat) : (b < 8)%nat -> Z.of_nat i + 4 < 2 ^ 32 -> forall v,
  (if u32 (Z.of_nat i + 4) <? keylen then
     let* x := array_get key (Z.of_nat i + 4) in
     if negb (Z.land x (Z.shiftl 1 (7 - Z.of_nat b)) =? 0) then Ok (Z.lor v 1) else Ok v
   else Ok v) = Ok (Z.lor v (Z.b2z (bit_of K (8 * i + b + 32)))).
Proof.
  intros Hb Hi v. rewrite (wrapu_small 32) by lia.
  replace (8 * i + b + 32)%nat with (8 * (i + 4) + b)%nat by lia. rewrite bit_of_byte by done. unfold K.
  destruct (Z.ltb_spec (Z.of_nat i + 4) keylen).
  - destruct (array_get_lt key (Z.of_nat i + 4)) as (x & -> & Hx); [lia|]. cbn [res_bind].
    rewrite test_bit by lia. rewrite lookup_take_lt by lia.
    replace (Z.to_nat (Z.of_nat i + 4)) with (i + 4)%nat in Hx by lia. rewrite Hx.
    destruct (Z.testbit x _); [done|]. cbn. by rewrite Z.lor_0_r.
  - rewrite lookup_take_ge by lia. cbn. by rewrite Z.lor_0_r.
Qed.

Lemma hash_bits_spec k (i b : nat) d hash :
  (b + k = 8)%nat -> Z.of_nat i + 4 < 2 ^ 32 ->
  hash_bits k (Z.of_nat b) keylen key (Z.of_nat i) d hash (window K (8 * i + b)) =
  Ok (Z.lxor hash (xor_list ((fun j => if Z.testbit d (7 - Z.of_nat j) then window K (8 * i + j) else 0)
        <$> seq b k)), window K (8 * i + 8)).
Proof.
  revert b hash. induction k as [|k IH]; intros b hash Hk Hi.
  - replace b with 8%nat by lia. cbn. by rewrite Z.lxor_0_r.
  - cbn [hash_bits]. rewrite test_bit by lia. rewrite key_bit by lia. cbn [res_bind].
    rewrite <- window_shift. replace (S (8 * i + b)) with (8 * i + S b)%nat by lia.
    replace (Z.of_nat b + 1) with (Z.of_nat (S b)) by lia. rewrite IH by lia. cbn [seq fmap list_fmap].
    unfold xor_list. cbn [foldr]. do 2 f_equal. destruct (Z.testbit d _); [by rewrite Z.lxor_assoc|].
    by rewrite Z.lxor_0_l.
Qed.

Lemma hash_bytes_spec data (i : nat) hash :
  Z.of_nat i + Z.of_nat (length data) + 4 < 2 ^ 32 ->
  hash_bytes keylen key (Z.of_nat i) data hash (window K (8 * i)) =
  Ok (Z.lxor hash (toeplitz_at K (8 * i) data)).
Proof.
  revert i hash. induction data as [|d data IH]; intros i hash Hi; cbn [hash_bytes].
  - unfold toeplitz_at. cbn. by rewrite Z.lxor_0_r.
  - cbn [length] in Hi. replace (8 * i)%nat with (8 * i + 0)%nat at 1 by lia. change 0 with (Z.of_nat 0) at 1.
    rewrite hash_bits_spec by lia. cbn [res_bind].
    replace (8 * i + 8)%nat with (8 * S i)%nat by lia. replace (Z.of_nat i + 1) with (Z.of_nat (S i)) by lia.
    rewrite IH by lia. change (d :: data) with ([d] ++ data). rewrite toeplitz_at_app, Z.lxor_assoc.
    replace (8 * i + 8 * length [d])%nat with (8 * S i)%nat by (cbn [length]; lia). do 3 f_equal.
Qed.

Lemma toeplitz_hash_spec data :
  Z.of_nat (length data) + 4 < 2 ^ 32 -> toeplitz_hash keylen key data = Ok (toeplitz K data).
Proof.
  intros Hd. unfold toeplitz_hash.
  destruct (array_get_lt key 0) as (k0 & -> & H0); [lia|]. destruct (array_get_lt key 1) as (k1 & -> & H1); [lia|].
  destruct (array_get_lt key 2) as (k2 & -> & H2); [lia|]. destruct (array_get_lt key 3) as (k3 & -> & H3); [lia|].
  cbn [res_bind]. rewrite !Z.shiftl_mul_pow2 by lia.
  assert (Forall byte [k0; k1; k2; k3]) as Hb.
  { repeat apply Forall_cons_2; [..|done]; eapply Forall_lookup_1; eauto. }
  rewrite <- (window_bytes K 0 k0 k1 k2 k3); [|done|..].
  - rewrite (hash_bytes_spec data 0) by lia. by rewrite Z.lxor_0_l.
  - unfold K. by rewrite lookup_take_lt by lia.
  - unfold K. by rewrite lookup_take_lt by lia.
  - unfold K. by rewrite lookup_take_lt by lia.
  - unfold K. by rewrite lookup_take_lt by lia.
Qed.
End Hash.

(** ** Loops over the bits of a word *)

Lemma odd_part v : 0 < v -> exists i q, 0 <= i /\ 0 <= q /\ v = (2 * q + 1) * 2 ^ i.
Proof.
  intros Hv. assert (0 <= v) as H0 by lia. revert Hv. pattern v. apply Z_lt_induction; [|done].
  clear v H0. intros v IH Hv. destruct (Z.Even_or_Odd v) as [[k Hk]|[k Hk]].
  - destruct (IH k) as (i & q & Hi & Hq & E); [lia|lia|]. exists (Z.succ i), q.
    rewrite Z.pow_succ_r by done. lia.
  - exists 0, k. lia.
Qed.

(** [v - 1] turns the lowest bit set off, and those below on. *)
Lemma pred_testbit i q j :
  0 <= i -> 0 <= j ->
  Z.testbit ((2 * q + 1) * 2 ^ i - 1) j = if j <? i then true else if j =? i then false else
    Z.testbit ((2 * q + 1) * 2 ^ i) j.
Proof.
  intros Hi Hj. pose proof (Z.pow_pos_nonneg 2 i ltac:(lia) Hi).
  replace ((2 * q + 1) * 2 ^ i - 1) with ((2 * q) * 2 ^ i + (2 ^ i - 1)) by lia.
  rewrite concat_bits by lia. destruct (Z.ltb_spec j i).
  - replace (2 ^ i - 1) with (Z.ones i) by (rewrite Z.ones_equiv; lia). by rewrite Z.ones_spec_low by lia.
  - rewrite <- (Z.add_0_r ((2 * q + 1) * 2 ^ i)), concat_bits by lia.
    destruct (Z.ltb_spec j i); [lia|]. destruct (Z.eqb_spec j i) as [->|].
    + rewrite Z.sub_diag. apply Z.testbit_even_0.
    + replace (j - i) with (Z.succ (j - i - 1)) by lia.
      by rewrite Z.testbit_even_succ, Z.testbit_odd_succ by lia.
Qed.

Lemma low_testbit i q j :
  0 <= i -> 0 <= j <= i -> Z.testbit ((2 * q + 1) * 2 ^ i) j = (j =? i).
Proof.
  intros Hi Hj. rewrite <- (Z.add_0_r ((2 * q + 1) * 2 ^ i)), concat_bits by lia.
  destruct (Z.ltb_spec j i), (Z.eqb_spec j i); try lia; [apply Z.bits_0|].
  subst. rewrite Z.sub_diag. apply Z.testbit_odd_0.
Qed.

Lemma bsf_odd_part i q : 0 <= i -> 0 <= q -> rte_bsf32 ((2 * q + 1) * 2 ^ i) = i.
Proof.
  intros Hi Hq. unfold rte_bsf32. set (v := (2 * q + 1) * 2 ^ i).
  replace (- v) with (Z.lnot (v - 1)) by (unfold Z.lnot; lia).
  replace (Z.land v (Z.lnot (v - 1))) with (2 ^ i); [by apply Z.log2_pow2|].
  apply Z.bits_inj'. intros j Hj. rewrite Z.land_spec, Z.lnot_spec, Z.pow2_bits_eqb by done.
  unfold v. rewrite pred_testbit by done. destruct (Z.eqb_spec i j) as [<-|Hne].
  - destruct (Z.ltb_spec i i); [lia|]. rewrite Z.eqb_refl, low_testbit, Z.eqb_refl by lia. done.
  - destruct (Z.ltb_spec j i); cbn; [by rewrite andb_false_r|]. destruct (Z.eqb_spec j i); [lia|].
    by destruct (Z.testbit _ j).
Qed.

(** The numbers of the bits set in a word. *)
Definition set_bits (v : Z) : list Z := filter (fun j => Z.testbit v j = true) (seqZ 0 32).

Lemma elem_of_set_bits v j : j ∈ set_bits v <-> 0 <= j < 32 /\ Z.testbit v j = true.
Proof. unfold set_bits. rewrite list_elem_of_filter, elem_of_seqZ. naive_solver lia. Qed.

Lemma set_bits_NoDup v : NoDup (set_bits v).
Proof. apply NoDup_filter, NoDup_seqZ. Qed.

Lemma set_bits_length v : (length (set_bits v) <= 32)%nat.
Proof. unfold set_bits. rewrite length_filter. done. Qed.

Lemma set_bits_step v :
  0 < v < 2 ^ 32 ->
  set_bits v ≡ₚ rte_bsf32 v :: set_bits (Z.land v (v - 1)) /\ 0 <= Z.land v (v - 1) < 2 ^ 32 /\
  0 <= rte_bsf32 v < 32.
Proof.
  intros Hv. destruct (odd_part v) as (i & q & Hi & Hq & E); [lia|].
  assert (rte_bsf32 v = i) as Hb by (rewrite E; by apply bsf_odd_part).
  assert (i < 32) as Hi32.
  { apply (Z.pow_lt_mono_r_iff 2); [lia|lia|]. pose proof (Z.pow_pos_nonneg 2 i). nia. }
  rewrite Hb. split; [|split; [|lia]].
  - apply NoDup_Permutation; [apply set_bits_NoDup| |].
    + constructor; [|apply set_bits_NoDup]. rewrite elem_of_set_bits, Z.land_spec, E, pred_testbit by done.
      destruct (Z.ltb_spec i i); [lia|]. rewrite Z.eqb_refl, andb_false_r. naive_solver.
    + intros j. rewrite elem_of_cons, !elem_of_set_bits, Z.land_spec, E. split.
      * intros [Hj Ht]. destruct (decide (j = i)) as [->|Hne]; [by left|]. right. split; [done|].
        rewrite Ht, pred_testbit by lia. destruct (Z.ltb_spec j i); [done|]. by destruct (Z.eqb_spec j i).
      * intros [->|[Hj Ht]]; [|apply andb_true_iff in Ht; naive_solver].
        split; [lia|]. rewrite low_testbit, Z.eqb_refl by lia. done.
  - replace (Z.land v (v - 1)) with (Z.land v (v - 1) mod 2 ^ 32); [apply Z.mod_pos_bound; lia|].
    rewrite <- Z.land_ones, (Z.land_comm v), <- Z.land_assoc, Z.land_ones by lia.
    rewrite (Z.mod_small v) by lia. done.
Qed.

Lemma set_bits_nil v : 0 <= v < 2 ^ 32 -> set_bits v = [] -> v = 0.
Proof.
  intros Hv Hs. destruct (decide (v = 0)) as [|Hne]; [done|].
  destruct (set_bits_step v) as (Hp & _); [lia|]. rewrite Hs in Hp. by apply Permutation_nil_cons in Hp.
Qed.

(** ** The hash of DPDK *)

Lemma softrss_bits_spec w0 w1 fuel v ret :
  0 <= v < 2 ^ 32 -> (length (set_bits v) <= fuel)%nat ->
  softrss_bits fuel w0 w1 v ret =
  Ok (Z.lxor ret (xor_list ((fun i => Z.lor (u32 (Z.shiftl w0 (31 - i))) (Z.shiftr w1 (i + 1))) <$> set_bits v))).
Proof.
  revert v ret. induction fuel as [|fuel IH]; intros v ret Hv Hf.
  - assert (v = 0) as -> by (apply set_bits_nil; [done|]; destruct (set_bits v); [done|cbn in Hf; lia]).
    cbn. by rewrite Z.lxor_0_r.
  - cbn [softrss_bits]. destruct (Z.eqb_spec v 0) as [->|Hne]; [cbn; by rewrite Z.lxor_0_r|].
    destruct (set_bits_step v) as (Hp & Hr & _); [lia|]. rewrite IH; [|done|].
    + rewrite Hp. unfold xor_list. cbn [fmap list_fmap foldr]. by rewrite Z.lxor_assoc.
    + apply Permutation_length in Hp. cbn in Hp. lia.
Qed.

(** The two words of the key around a bit make up its window. *)
Lemma softrss_window key n i :
  0 <= i < 32 ->
  Z.lor (u32 (Z.shiftl (window key n) (31 - i))) (Z.shiftr (window key (n + 32)) (i + 1)) =
  window key (n + Z.to_nat (31 - i)).
Proof.
  intros Hi. symmetry. apply Z.bits_inj'. intros j Hj. unfold wrapu.
  rewrite window_testbit, Z.lor_spec, Z.shiftr_spec, window_testbit by lia. destruct (Z.ltb_spec j 32).
  - rewrite Z.mod_pow2_bits_low, Z.shiftl_spec by lia. cbn [andb]. destruct (Z.ltb_spec (j + (i + 1)) 32).
    + rewrite (Z.testbit_neg_r _ (j - _)) by lia. cbn. f_equal. lia.
    + rewrite window_testbit by lia. destruct (Z.ltb_spec (j - (31 - i)) 32); [|lia]. cbn. rewrite orb_false_r.
      f_equal. lia.
  - rewrite Z.mod_pow2_bits_high by lia. destruct (Z.ltb_spec (j + (i + 1)) 32); [lia|done].
Qed.

Lemma lor_bytes b0 b1 b2 b3 :
  Forall byte [b0; b1; b2; b3] ->
  Z.lor (Z.shiftl b0 24) (Z.lor (Z.shiftl b1 16) (Z.lor (Z.shiftl b2 8) b3)) =
  window [b0; b1; b2; b3] 0.
Proof.
  intros Hb. rewrite (window_bytes _ 0 b0 b1 b2 b3) by done. unfold byte in Hb.
  repeat match goal with H : Forall _ (_ :: _) |- _ => apply Forall_cons in H as [? H] end.
  rewrite (wrapu_small 32) by lia. apply Z.bits_inj'. intros j Hj.
  replace (b0 * 2 ^ 24 + b1 * 2 ^ 16 + b2 * 2 ^ 8 + b3) with (((b0 * 256 + b1) * 256 + b2) * 256 + b3) by lia.
  rewrite !Z.lor_spec, !Z.shiftl_spec by done.
  assert (forall b k, 0 <= b < 256 -> 8 <= k -> Z.testbit b k = false) as Hhi.
  { intros b k Hb8 Hk. destruct (decide (b = 0)) as [->|]; [apply Z.bits_0|].
    apply Z.bits_above_log2; [lia|]. pose proof (Z.log2_lt_pow2 b 8). lia. }
  rewrite concat_testbit by lia. destruct (Z.ltb_spec j 8).
  { rewrite !(Z.testbit_neg_r _ (j - _)) by lia. done. }
  rewrite concat_testbit, (Hhi b3) by lia. destruct (Z.ltb_spec (j - 8) 8).
  { rewrite !(Z.testbit_neg_r _ (j - _)) by lia. cbn. by rewrite orb_false_r. }
  rewrite concat_testbit, (Hhi b2) by lia. destruct (Z.ltb_spec (j - 8 - 8) 8).
  { rewrite (Z.testbit_neg_r _ (j - 24)) by lia. cbn. rewrite orb_false_r. f_equal. lia. }
  rewrite (Hhi b1) by lia. cbn. rewrite !orb_false_r. f_equal. lia.
Qed.

Lemma be32_at_spec key (i : nat) :
  Forall byte key -> (i + 4 <= length key)%nat -> be32_at key (Z.of_nat i) = Ok (window key (8 * i)).
Proof.
  intros Hk Hi. unfold be32_at.
  destruct (array_get_lt key (Z.of_nat i)) as (b0 & -> & H0); [lia|].
  destruct (array_get_lt key (Z.of_nat i + 1)) as (b1 & -> & H1); [lia|].
  destruct (array_get_lt key (Z.of_nat i + 2)) as (b2 & -> & H2); [lia|].
  destruct (array_get_lt key (Z.of_nat i + 3)) as (b3 & -> & H3); [lia|].
  assert (Forall byte [b0; b1; b2; b3]) as Hb.
  { repeat apply Forall_cons_2; [..|done]; eapply Forall_lookup_1; eauto. }
  cbn [res_bind]. f_equal. rewrite lor_bytes by done.
  rewrite (window_bytes key i b0 b1 b2 b3), (window_bytes _ 0 b0 b1 b2 b3); try done.
  - rewrite <- H0. f_equal. lia.
  - rewrite <- H1. f_equal. lia.
  - rewrite <- H2. f_equal. lia.
  - rewrite <- H3. f_equal. lia.
Qed.

(** The hash of one word. *)
Lemma toeplitz_at_word key n b0 b1 b2 b3 :
  toeplitz_at key n [b0; b1; b2; b3] =
  xor_list ((fun i => window key (n + Z.to_nat (31 - i))) <$> set_bits (window [b0; b1; b2; b3] 0)).
Proof.
  set (l := [b0; b1; b2; b3]).
  assert (forall f v, xor_list (f <$> set_bits v) =
    xor_list ((fun i => if Z.testbit v i then f i else 0) <$> seqZ 0 32)) as Hf.
  { intros f v. unfold set_bits. induction (seqZ 0 32) as [|x xs IH]; [done|].
    rewrite filter_cons. case_decide as Hx.
    - unfold xor_list in *. cbn. rewrite Hx. f_equal. apply IH.
    - unfold xor_list in *. cbn. apply not_true_is_false in Hx. rewrite Hx, Z.lxor_0_l. apply IH. }
  rewrite Hf. change (seqZ 0 32) with (reverse ((fun i => 31 - Z.of_nat i) <$> seq 0 32)).
  rewrite <- fmap_reverse, <- list_fmap_compose, fmap_reverse.
  rewrite (reverse_Permutation (_ <$> _)). unfold toeplitz_at. change (8 * length l)%nat with 32%nat.
  apply xor_list_ext. intros i Hi. apply elem_of_seq in Hi. cbn [compose].
  rewrite window_testbit by lia. destruct (Z.ltb_spec (31 - Z.of_nat i) 32); [|lia]. cbn [andb].
  replace (0 + 31 - Z.to_nat (31 - Z.of_nat i))%nat with i by lia.
  by replace (n + Z.to_nat (31 - (31 - Z.of_nat i)))%nat with (n + i)%nat by lia.
Qed.

Lemma softrss_words_spec key data m (j : nat) ret :
  length data = (4 * m)%nat -> Forall byte data -> Forall byte key ->
  (4 * (j + m) + 4 <= length key)%nat ->
  softrss_words key (Z.of_nat j) (be_words data) ret = Ok (Z.lxor ret (toeplitz_at key (32 * j) data)).
Proof.
  revert data j ret. induction m as [|m IH]; intros data j ret Hl Hd Hk Hkl.
  { destruct data; [|done]. unfold toeplitz_at. cbn. by rewrite Z.lxor_0_r. }
  destruct data as [|b0 [|b1 [|b2 [|b3 data]]]]; try (cbn in Hl; lia).
  change (b0 :: b1 :: b2 :: b3 :: data) with ([b0; b1; b2; b3] ++ data) in *.
  apply Forall_app in Hd as [Hb Hd]. rewrite toeplitz_at_app, toeplitz_at_word. cbn [be_words app softrss_words].
  rewrite lor_bytes by done. replace (Z.of_nat j + 1) with (Z.of_nat (S j)) by lia.
  replace (32 * j + 8 * length [b0; b1; b2; b3])%nat with (32 * S j)%nat by (cbn [length]; lia).
  assert (0 <= window [b0; b1; b2; b3] 0 < 2 ^ 32) as Hw by apply window_range.
  generalize dependent (window [b0; b1; b2; b3] 0). intros w Hw.
  destruct (Z.eqb_spec w 0) as [->|Hne].
  { rewrite IH; try done; try (cbn in Hl; lia). }
  replace (4 * Z.of_nat j) with (Z.of_nat (4 * j)) by lia.
  replace (Z.of_nat (4 * j) + 4) with (Z.of_nat (4 * j + 4)) by lia.
  rewrite !be32_at_spec by (done || lia). cbn [res_bind].
  rewrite softrss_bits_spec by (done || apply set_bits_length). cbn [res_bind].
  rewrite IH; try done; try (cbn in Hl; lia). rewrite Z.lxor_assoc. do 3 f_equal.
  apply xor_list_ext. intros i Hi. apply elem_of_set_bits in Hi as [Hi _].
  replace (8 * (4 * j + 4))%nat with (8 * (4 * j) + 32)%nat by lia.
  replace (32 * j)%nat with (8 * (4 * j))%nat by lia. by apply softrss_window.
Qed.

Lemma rte_softrss_spec key data m :
  length data = (4 * m)%nat -> Forall byte data -> Forall byte key -> (length data + 4 <= length key)%nat ->
  rte_softrss (be_words data) key = Ok (toeplitz key data).
Proof.
  intros Hl Hd Hk Hkl. unfold rte_softrss. pose proof (softrss_words_spec key data m 0 0) as H.
  rewrite Z.lxor_0_l in H. apply H; try done. lia.
Qed.

(** ** The indirection table *)

Definition reta_entry (conf : list (list Z)) (i : nat) : option Z :=
  g ← conf !! (i / 64)%nat; g !! (i mod 64)%nat.

(** What the NIC does with a packet: the entry of the table that the low bits
    of the hash select. *)
Definition nic_queue (conf : list (list Z)) (size : Z) (key tuple : list Z) : option Z :=
  reta_entry conf (Z.to_nat (Z.land (toeplitz key tuple) (size - 1))).

Lemma reta_entry_spec r nb i :
  0 <= r <= 15 -> 0 < nb < 2 ^ 16 -> 0 <= i < 2 ^ r ->
  reta_entry (set_rss_table (2 ^ r) nb) (Z.to_nat i) = Some (i mod nb).
Proof.
  intros Hr Hnb Hi. unfold reta_entry, set_rss_table, RTE_ETH_RETA_GROUP_SIZE.
  destruct (Z.eqb_spec (2 ^ r) 0); [lia|].
  assert (i / 64 < Z.max 1 (2 ^ r / 64)) as Hdiv.
  { destruct (decide (r < 6)).
    - assert (2 ^ r <= 2 ^ 5) by (apply Z.pow_le_mono_r; lia). change (2 ^ 5) with 32 in *.
      rewrite Z.div_small by lia. lia.
    - replace r with (r - 6 + 6) in * by lia. rewrite Z.pow_add_r in * by lia. change (2 ^ 6) with 64 in *.
      rewrite Z.div_mul by lia. apply Z.lt_le_trans with (2 ^ (r - 6)); [|lia].
      apply Z.div_lt_upper_bound; lia. }
  assert (2 ^ r <= 2 ^ 15) by (apply Z.pow_le_mono_r; lia). change (2 ^ 15) with 32768 in *.
  pose proof (Z.div_mod i 64 ltac:(lia)) as Hdm. pose proof (Z.mod_pos_bound i 64 ltac:(lia)).
  assert (0 <= i / 64) by (apply Z.div_pos; lia).
  replace (Z.to_nat i / 64)%nat with (Z.to_nat (i / 64)) by (rewrite Z2Nat.inj_div by lia; done).
  replace (Z.to_nat i `mod` 64)%nat with (Z.to_nat (i mod 64)) by (rewrite Z2Nat.inj_mod by lia; done).
  rewrite list_lookup_fmap, lookup_seqZ_lt by lia. cbn [fmap option_fmap option_map mbind option_bind].
  unfold reta_group, RTE_ETH_RETA_GROUP_SIZE. rewrite list_lookup_fmap, lookup_seqZ_lt by lia. cbn [fmap option_fmap option_map].
  rewrite !Z2Nat.id by lia. f_equal. rewrite (wrapu_small 32) by lia.
  replace ((0 + i / 64) * 64 + (0 + i mod 64)) with i by lia.
  pose proof (Z.mod_pos_bound i nb ltac:(lia)). apply wrapu_small. lia.
Qed.

Lemma le_bytes_length n z : length (le_bytes n z) = n.
Proof. revert z. induction n as [|n IH]; intros z; [done|]. cbn. by rewrite IH. Qed.

Lemma le_bytes_byte n z : Forall byte (le_bytes n z).
Proof.
  revert z. induction n as [|n IH]; intros z; [done|]. cbn. constructor; [|apply IH].
  unfold byte. apply Z.mod_pos_bound. lia.
Qed.

(** ** Configurations of a running stack *)

Record rss_ok (env : rss_env) (port : Z) : Prop := {
  ro_len : 4 <= rsskey_len env <= Z.of_nat (length (rsskey env));
  ro_key : Forall byte (rsskey env);
  ro_reta : exists r, 0 <= r <= 15 /\ reta_size (rss_ports env port) = 2 ^ r;
  ro_queues : 0 < nb_queues (rss_ports env port) < 2 ^ 16;
  ro_queue : 0 <= queueid (rss_ports env port) < nb_queues (rss_ports env port)
}.

(** The key the NIC is given. *)
Definition nic_key (env : rss_env) : list Z := take (Z.to_nat (rsskey_len env)) (rsskey env).

Definition nic_conf (p : rss_port) : list (list Z) := set_rss_table (reta_size p) (nb_queues p).

Lemma land_hash_range h size r : 0 <= r -> size = 2 ^ r -> 0 <= Z.land h (size - 1) < size.
Proof. intros Hr ->. rewrite land_mask by done. apply Z.mod_pos_bound. lia. Qed.

(** Both queue tests, once their nearby cases are out of the way. *)
Lemma check_queue_nic env port data :
  rss_ok env port -> Z.of_nat (length data) + 4 < 2 ^ 32 ->
  let p := rss_ports env port in
  check_queue env p data = Ok (bool_decide (nic_queue (nic_conf p) (reta_size p) (nic_key env) data = Some (queueid p))).
Proof.
  intros [Hl Hk (r & Hr & Er) Hq Hid] Hd p. unfold check_queue. fold p in Er, Hq, Hid.
  rewrite toeplitz_hash_spec by done. cbn [res_bind]. f_equal. unfold nic_queue, nic_conf. rewrite Er.
  fold (nic_key env). assert (2 ^ r <= 2 ^ 15) by (apply Z.pow_le_mono_r; lia).
  rewrite (wrapu_small 32) by lia.
  rewrite reta_entry_spec; [|lia|lia|apply (land_hash_range _ _ r); [lia|done]].
  case_bool_decide as Hb; [|destruct (Z.eqb_spec (Z.land (toeplitz (nic_key env) data) (2 ^ r - 1) mod nb_queues p) (queueid p)); congruence].
  injection Hb as ->. apply Z.eqb_refl.
Qed.

Lemma nic_one_queue p size key data r :
  0 <= r <= 15 -> size = 2 ^ r -> nb_queues p = 1 -> reta_size p = size ->
  nic_queue (nic_conf p) size key data = Some 0.
Proof.
  intros Hr -> Hq Hs. unfold nic_queue, nic_conf. rewrite Hs, Hq, reta_entry_spec; [|lia|lia|apply (land_hash_range _ _ r); [lia|done]].
  by rewrite Z.mod_1_r.
Qed.

(** The NIC puts the packets with [tuple] on the thread's own queue. *)
Definition nic_owns (env : rss_env) (port : Z) (tuple : list Z) : bool :=
  let p := rss_ports env port in
  bool_decide (nic_queue (nic_conf p) (reta_size p) (nic_key env) tuple = Some (queueid p)).

Lemma queue_test_nic env port data :
  rss_ok env port -> Z.of_nat (length data) + 4 < 2 ^ 32 ->
  let p := rss_ports env port in
  (if nb_queues p <=? 1 then Ok true else check_queue env p data) = Ok (nic_owns env port data).
Proof.
  intros Hok Hd p. pose proof Hok as [_ _ (r & Hr & Er) Hq Hid]. fold p in Er, Hq, Hid.
  destruct (Z.leb_spec (nb_queues p) 1); [|by apply check_queue_nic].
  unfold nic_owns. fold p. rewrite (nic_one_queue p _ _ _ r) by (done || lia).
  replace (queueid p) with 0 by lia. by rewrite bool_decide_true.
Qed.

Lemma rss_check_nic env port saddr daddr sport dport :
  rss_ok env port ->
  ff_rss_check env port saddr daddr sport dport = Ok (nic_owns env port (tuple4 saddr daddr sport dport)).
Proof. intros Hok. apply queue_test_nic; [done|]. unfold tuple4. rewrite !length_app, !le_bytes_length. lia. Qed.

Lemma rss_check6_nic env port saddr6 daddr6 sport dport :
  rss_ok env port -> length saddr6 = 16%nat -> length daddr6 = 16%nat ->
  ff_rss_check6 env port saddr6 daddr6 sport dport = Ok (nic_owns env port (tuple6 saddr6 daddr6 sport dport)).
Proof. intros Hok H1 H2. apply queue_test_nic; [done|]. unfold tuple6. rewrite !length_app, !le_bytes_length. lia. Qed.

(** ** The symmetric key *)

Lemma symmetric_period (i : nat) : (i < 50)%nat -> symmetric_rsskey !! (i + 2)%nat = symmetric_rsskey !! i.
Proof. intros Hi. do 50 (destruct i as [|i]; [reflexivity|]). lia. Qed.

Section Symmetric.
Variable len : nat.
Hypothesis Hlen : (len <= 52)%nat.
Let K := take len symmetric_rsskey.

Lemma symmetric_bits k n : (n + 16 * k < 8 * len)%nat -> bit_of K (n + 16 * k) = bit_of K n.
Proof.
  revert n. induction k as [|k IH]; intros n Hn; [f_equal; lia|].
  replace (n + 16 * S k)%nat with ((n + 16) + 16 * k)%nat by lia. rewrite IH by lia.
  unfold bit_of, K. replace (n + 16)%nat with (n + 2 * 8)%nat by lia.
  rewrite Nat.div_add, Nat.Div0.mod_add by lia.
  assert (n / 8 + 2 < len)%nat as Hd.
  { assert (n / 8 < len - 2)%nat; [|lia]. apply Nat.Div0.div_lt_upper_bound. lia. }
  rewrite !lookup_take_lt by lia. by rewrite symmetric_period by lia.
Qed.

Lemma symmetric_at k n data :
  (n + 16 * k + 8 * length data + 31 <= 8 * len)%nat ->
  toeplitz_at K (n + 16 * k) data = toeplitz_at K n data.
Proof.
  intros Hn. apply toeplitz_at_ext. intros i Hi.
  replace (n + 16 * k + i)%nat with (n + i + 16 * k)%nat by lia. apply symmetric_bits. lia.
Qed.

(** Swapping addresses of [2 * a] bytes and ports of two. *)
Lemma symmetric_swap a s d sp dp :
  length s = (2 * a)%nat -> length d = (2 * a)%nat -> length sp = 2%nat -> length dp = 2%nat ->
  (32 * a + 63 <= 8 * len)%nat ->
  toeplitz K (s ++ d ++ sp ++ dp) = toeplitz K (d ++ s ++ dp ++ sp).
Proof.
  intros Hs Hd Hsp Hdp Hk. rewrite !toeplitz_at_0, !toeplitz_at_app, Hs, Hd, Hsp, Hdp.
  replace (0 + 8 * (2 * a))%nat with (0 + 16 * a)%nat by lia.
  replace (0 + 16 * a + 8 * (2 * a) + 8 * 2)%nat with (0 + 16 * a + 8 * (2 * a) + 16 * 1)%nat by lia.
  rewrite !(symmetric_at a 0) by lia. rewrite !(symmetric_at 1) by lia. bitwise.
Qed.
End Symmetric.

(** ** Properties *)

(** C26: the hash F-Stack computes and the one DPDK computes are both the
    Toeplitz hash of the RSS specification, for every key and every tuple of
    whole words the key is long enough for. *)
Theorem toeplitz_hashes_agree keylen key data m :
  keylen <= Z.of_nat (length key) -> Forall byte key -> Forall byte data ->
  length data = (4 * m)%nat -> Z.of_nat (length data) + 4 <= keylen < 2 ^ 31 ->
  let K := take (Z.to_nat keylen) key in
  toeplitz_hash keylen key data = Ok (toeplitz K data) /\ rte_softrss (be_words data) K = Ok (toeplitz K data).
Proof.
  intros Hl Hk Hd Hm Hkl K. split; [apply toeplitz_hash_spec; lia || done|].
  apply (rte_softrss_spec _ _ m); [done|done|by apply Forall_take|].
  unfold K. rewrite length_take. lia.
Qed.

(** C18: [ff_rss_check] and [ff_rss_check6] tell where the NIC puts the
    packets of a connection: with the key and the indirection table the stack
    gives to the NIC, they say yes exactly if the entry the NIC selects is
    the queue of the thread, whatever the number of queues. *)
Theorem rss_check_matches_nic env port saddr daddr saddr6 daddr6 sport dport :
  rss_ok env port -> length saddr6 = 16%nat -> length daddr6 = 16%nat ->
  ff_rss_check env port saddr daddr sport dport = Ok (nic_owns env port (tuple4 saddr daddr sport dport)) /\
  ff_rss_check6 env port saddr6 daddr6 sport dport = Ok (nic_owns env port (tuple6 saddr6 daddr6 sport dport)).
Proof. intros Hok H1 H2. split; [by apply rss_check_nic|by apply rss_check6_nic]. Qed.

(** With the [symmetric_rss] option, on NICs with keys of 40 or 52
    bytes, both directions of every connection, over IPv4 and IPv6, belong to
    the same queue. *)
Theorem symmetric_rss_directions env port size saddr daddr saddr6 daddr6 sport dport :
  size = 40 \/ size = 52 -> (rsskey env, rsskey_len env) = choose_rsskey size true ->
  length saddr6 = 16%nat -> length daddr6 = 16%nat ->
  ff_rss_check env port saddr daddr sport dport = ff_rss_check env port daddr saddr dport sport /\
  ff_rss_check6 env port saddr6 daddr6 sport dport = ff_rss_check6 env port daddr6 saddr6 dport sport.
Proof.
  intros Hsize Hkey H1 H2.
  assert (rsskey env = symmetric_rsskey /\ rsskey_len env = size) as [Ek El].
  { destruct Hsize as [-> | ->]; injection Hkey as -> ->; done. }
  assert (Forall byte symmetric_rsskey) as Hb by (unfold byte; repeat (constructor; [lia|]); constructor).
  unfold ff_rss_check, ff_rss_check6, check_queue. rewrite Ek, El.
  assert (length symmetric_rsskey = 52%nat) as Hlen by done.
  assert (forall data, length data = 12%nat \/ length data = 36%nat ->
    toeplitz_hash size symmetric_rsskey data = Ok (toeplitz (take (Z.to_nat size) symmetric_rsskey) data)) as Hh.
  { intros data Hd. apply toeplitz_hash_spec; [lia|done|lia]. }
  destruct (nb_queues _ <=? 1); [done|].
  rewrite !Hh by (unfold tuple4, tuple6; rewrite !length_app, !le_bytes_length; lia). cbn [res_bind].
  unfold tuple4, tuple6.
  rewrite (symmetric_swap (Z.to_nat size) ltac:(lia) 2 (le_bytes 4 saddr)) by (rewrite ?le_bytes_length; lia).
  rewrite (symmetric_swap (Z.to_nat size) ltac:(lia) 8 saddr6) by (rewrite ?le_bytes_length; lia).
  done.
Qed.

(** ** Witnesses *)

Definition demo_tuple : list Z := tuple4 0x0100007f 0x0200007f 0x5000 0x3930.

Lemma toeplitz_hashes_agree_witness :
  Forall byte default_rsskey_40bytes /\
  toeplitz_hash 40 default_rsskey_40bytes demo_tuple = Ok (toeplitz default_rsskey_40bytes demo_tuple).
Proof.
  assert (Forall byte default_rsskey_40bytes) as Hk by (unfold byte; repeat (constructor; [lia|]); constructor).
  split; [exact Hk|].
  refine (proj1 (toeplitz_hashes_agree 40 default_rsskey_40bytes demo_tuple 3 _ Hk _ _ _)).
  - cbn. lia.
  - unfold demo_tuple, tuple4. rewrite !Forall_app. repeat split; apply le_bytes_byte.
  - reflexivity.
  - cbn. lia.
Defined.

Definition demo_env : rss_env := mk_rss_env symmetric_rsskey 40 (fun _ => mk_rss_port 3 128 1).

Lemma demo_env_ok : rss_ok demo_env 0.
Proof.
  split; cbn; [lia|unfold byte; repeat (constructor; [lia|]); constructor|exists 7; lia|lia|lia].
Qed.

Lemma rss_check_matches_nic_witness :
  rss_ok demo_env 0 /\
  ff_rss_check demo_env 0 0x0100007f 0x0200007f 0x5000 0x3930 =
  Ok (nic_owns demo_env 0 demo_tuple).
Proof.
  split; [exact demo_env_ok|].
  exact (proj1 (rss_check_matches_nic demo_env 0 0x0100007f 0x0200007f (replicate 16 1) (replicate 16 2)
    0x5000 0x3930 demo_env_ok eq_refl eq_refl)).
Defined.

Lemma symmetric_rss_directions_witness :
  (rsskey demo_env, rsskey_len demo_env) = choose_rsskey 40 true /\
  ff_rss_check demo_env 0 0x0100007f 0x0200007f 0x5000 0x3930 =
  ff_rss_check demo_env 0 0x0200007f 0x0100007f 0x3930 0x5000.
Proof.
  split; [reflexivity|].
  exact (proj1 (symmetric_rss_directions demo_env 0 40 0x0100007f 0x0200007f (replicate 16 1) (replicate 16 2)
    0x5000 0x3930 (or_introl eq_refl) eq_refl eq_refl eq_refl)).
Defined.

(** The first test vector of the RSS specification. *)
Example toeplitz_test_vector :
  toeplitz
    [0x6d; 0x5a; 0x56; 0xda; 0x25; 0x5b; 0x0e; 0xc2; 0x41; 0x67; 0x25; 0x3d; 0x43; 0xa3; 0x8f; 0xb0;
     0xd0; 0xca; 0x2b; 0xcb; 0xae; 0x7b; 0x30; 0xb4; 0x77; 0xcb; 0x2d; 0xa3; 0x80; 0x30; 0xf2; 0x0c;
     0x6a; 0x42; 0xb7; 0x3b; 0xbe; 0xac; 0x01; 0xfa]
    [66; 9; 149; 187; 161; 142; 100; 80; 2794 / 256; 2794 mod 256; 1766 / 256; 1766 mod 256] = 0x51ccc178.
Proof. vm_compute. reflexivity. Qed.
