(* ===== verification/Gf2.v ===== *)
(** * Polynomials over the field of two elements

    A polynomial is the number whose bits are its coefficients: [N.lxor] is its
    addition and [clmul] its multiplication.  The file has the division with
    remainder, irreducible polynomials and what is needed of them: an ideal
    that has an irreducible polynomial and a smaller one has all polynomials.
    Sequences that obey a linear recurrence, and the field of the polynomials
    modulo an irreducible one, are built on that. *)

From Stdlib Require Import NArith Ring.
From S2P Require Import Prelude.

Local Open Scope N_scope.

Fixpoint pclmul (a : positive) (b : N) : N :=
  match a with
  | xH => b
  | xO a => N.double (pclmul a b)
  | xI a => N.lxor b (N.double (pclmul a b))
  end.

Definition clmul (a b : N) : N := match a with 0 => 0 | Npos a => pclmul a b end.

(** ** The ring *)

Lemma double_lxor a b : N.double (N.lxor a b) = N.lxor (N.double a) (N.double b).
Proof. by destruct a, b. Qed.

Lemma succ_double_lxor a : N.succ_double a = N.lxor 1 (N.double a).
Proof. by destruct a. Qed.

Lemma clmul_double_l a b : clmul (N.double a) b = N.double (clmul a b).
Proof. by destruct a. Qed.

Lemma clmul_succ_double_l a b : clmul (N.succ_double a) b = N.lxor b (N.double (clmul a b)).
Proof. destruct a; [|done]. cbn. by rewrite N.lxor_0_r. Qed.

Lemma lxor4 a b c d : N.lxor (N.lxor a b) (N.lxor c d) = N.lxor (N.lxor a c) (N.lxor b d).
Proof. by rewrite !N.lxor_assoc, <- (N.lxor_assoc b), (N.lxor_comm b c), N.lxor_assoc. Qed.

Lemma clmul_0_r a : clmul a 0 = 0.
Proof.
  induction a as [|a IH|a IH] using N.binary_ind; [done| |].
  - by rewrite clmul_double_l, IH.
  - by rewrite clmul_succ_double_l, IH.
Qed.

Lemma clmul_lxor_r a b c : clmul a (N.lxor b c) = N.lxor (clmul a b) (clmul a c).
Proof.
  induction a as [|a IH|a IH] using N.binary_ind; [done| |].
  - by rewrite !clmul_double_l, IH, double_lxor.
  - rewrite !clmul_succ_double_l, IH, double_lxor. apply lxor4.
Qed.

Lemma clmul_double_r a b : clmul a (N.double b) = N.double (clmul a b).
Proof.
  induction a as [|a IH|a IH] using N.binary_ind; [done| |].
  - by rewrite !clmul_double_l, IH.
  - by rewrite !clmul_succ_double_l, IH, double_lxor.
Qed.

Lemma clmul_1_r a : clmul a 1 = a.
Proof.
  induction a as [|a IH|a IH] using N.binary_ind; [done| |].
  - by rewrite clmul_double_l, IH.
  - by rewrite clmul_succ_double_l, IH, succ_double_lxor.
Qed.

Lemma clmul_comm a b : clmul a b = clmul b a.
Proof.
  induction b as [|b IH|b IH] using N.binary_ind; [apply clmul_0_r| |].
  - by rewrite clmul_double_r, clmul_double_l, IH.
  - by rewrite clmul_succ_double_l, succ_double_lxor, clmul_lxor_r, clmul_1_r, clmul_double_r, IH.
Qed.

Lemma clmul_lxor_l a b c : clmul (N.lxor a b) c = N.lxor (clmul a c) (clmul b c).
Proof. by rewrite !(clmul_comm _ c), clmul_lxor_r. Qed.

Lemma clmul_assoc a b c : clmul a (clmul b c) = clmul (clmul a b) c.
Proof.
  induction a as [|a IH|a IH] using N.binary_ind; [done| |].
  - by rewrite !clmul_double_l, IH.
  - by rewrite !clmul_succ_double_l, IH, clmul_lxor_l, clmul_double_l.
Qed.

(** Its constants are the bits, so that [ring] knows that twice is none. *)
Definition of_bit (b : bool) : N := if b then 1 else 0.

Lemma gf2_ring : ring_theory 0 1 N.lxor clmul N.lxor id eq.
Proof.
  split.
  - apply N.lxor_0_l.
  - apply N.lxor_comm.
  - intros x y z. by rewrite N.lxor_assoc.
  - done.
  - apply clmul_comm.
  - apply clmul_assoc.
  - apply clmul_lxor_l.
  - done.
  - apply N.lxor_nilpotent.
Qed.

Lemma gf2_morph : ring_morph 0 1 N.lxor clmul N.lxor id eq false true xorb andb xorb id Bool.eqb of_bit.
Proof. split; try done; by intros [] []. Qed.

Ltac bit_const t := match t with 0%N => constr:(false) | 1%N => constr:(true) | _ => constr:(InitialRing.NotConstant) end.
Add Ring gf2 : gf2_ring (morphism gf2_morph, constants [bit_const]).

Lemma square_lxor a b : clmul (N.lxor a b) (N.lxor a b) = N.lxor (clmul a a) (clmul b b).
Proof. ring. Qed.

(** ** Degrees *)

Lemma log2_double a : a <> 0 -> N.log2 (N.double a) = N.succ (N.log2 a).
Proof. intros Ha. rewrite N.double_spec. apply N.log2_double. lia. Qed.

Lemma lxor_neq_0 a b : a <> b -> N.lxor a b <> 0.
Proof. intros Hne H. by apply N.lxor_eq in H. Qed.

(** The larger degree is that of the sum. *)
Lemma log2_lxor_lt a b : a <> 0 -> (b = 0 \/ N.log2 b < N.log2 a) -> N.lxor a b <> 0 /\ N.log2 (N.lxor a b) = N.log2 a.
Proof.
  intros Ha [->|Hlt]; [by rewrite N.lxor_0_r|].
  assert (N.testbit (N.lxor a b) (N.log2 a) = true) as Hbit.
  { rewrite N.lxor_spec, N.bit_log2, (N.bits_above_log2 b) by lia. done. }
  split; [intros E; by rewrite E in Hbit|]. apply N.le_antisymm.
  - etransitivity; [apply N.log2_lxor|]. lia.
  - destruct (N.le_gt_cases (N.log2 a) (N.log2 (N.lxor a b))) as [|Hgt]; [done|]. by rewrite N.bits_above_log2 in Hbit.
Qed.

Lemma clmul_degree a b :
  a <> 0 -> b <> 0 -> clmul a b <> 0 /\ N.log2 (clmul a b) = N.log2 a + N.log2 b.
Proof.
  intros Ha Hb. induction a as [|a IH|a IH] using N.binary_ind; [done| |].
  - assert (a <> 0) as Ha0 by (intros ->; done). destruct (IH Ha0) as [H0 Hl]. rewrite clmul_double_l.
    rewrite !log2_double, Hl by done. split; [|lia]. destruct (clmul a b); done.
  - rewrite clmul_succ_double_l. destruct (decide (a = 0)) as [->|Ha0]; [cbn; by rewrite N.lxor_0_r|].
    destruct (IH Ha0) as [H0 Hl]. rewrite N.lxor_comm. rewrite N.succ_double_spec, N.log2_succ_double by lia.
    destruct (log2_lxor_lt (N.double (clmul a b)) b) as [H1 H2].
    { destruct (clmul a b); done. }
    { right. rewrite log2_double, Hl by done. lia. }
    split; [done|]. rewrite H2, log2_double, Hl by done. lia.
Qed.

Lemma clmul_eq_0 a b : clmul a b = 0 -> a = 0 \/ b = 0.
Proof. intros H. destruct (decide (a = 0)), (decide (b = 0)); auto. by destruct (clmul_degree a b). Qed.

(** Smaller than [d], as polynomials. *)
Definition less (a d : N) : Prop := a = 0 \/ N.log2 a < N.log2 d.

Lemma less_lxor a b d : less a d -> less b d -> less (N.lxor a b) d.
Proof.
  unfold less. intros Ha Hb. destruct (decide (N.lxor a b = 0)); [by left|]. right.
  assert (N.log2 (N.lxor a b) <= N.max (N.log2 a) (N.log2 b)) as Hm by apply N.log2_lxor.
  destruct Ha as [->|Ha], Hb as [->|Hb]; rewrite ?N.lxor_0_l, ?N.lxor_0_r in *; try done; cbn in *; lia.
Qed.

Lemma less_pow a d n : N.log2 d = n -> (n <> 0) -> (less a d <-> a < 2 ^ n).
Proof.
  unfold less. intros <- Hn. destruct (decide (a = 0)) as [->|Ha].
  - split; [intros _; apply N.neq_0_lt_0, N.pow_nonzero; done|by left].
  - rewrite <- N.log2_lt_pow2 by lia. split; [intros [?|?]; [done|done]|by right].
Qed.

(** ** Division *)

Definition divides (d a : N) : Prop := exists q, a = clmul q d.

Lemma divides_lxor d a b : divides d a -> divides d b -> divides d (N.lxor a b).
Proof. intros [p ->] [q ->]. exists (N.lxor p q). ring. Qed.

Lemma divides_mul d a b : divides d a -> divides d (clmul b a).
Proof. intros [p ->]. exists (clmul b p). ring. Qed.

Lemma divides_less d a : divides d a -> less a d -> a = 0.
Proof.
  intros [q ->] [?|Hl]; [done|]. destruct (decide (q = 0)) as [->|Hq]; [done|].
  destruct (decide (d = 0)) as [->|Hd]; [apply clmul_0_r|]. destruct (clmul_degree q d Hq Hd). lia.
Qed.

(** The remainder: [k] places from the top. *)
Fixpoint rem_loop (k : nat) (a d n : N) : N :=
  match k with
  | O => a
  | S k => rem_loop k (if N.testbit a (n + N.of_nat k) then N.lxor a (N.shiftl d (N.of_nat k)) else a) d n
  end.

Definition gf2_rem (a d : N) : N := rem_loop (N.to_nat (N.size a)) a d (N.log2 d).

Lemma shiftl_clmul d k : N.shiftl d k = clmul (N.shiftl 1 k) d.
Proof.
  induction k as [|k IH] using N.peano_ind; [by rewrite !N.shiftl_0_r|].
  assert (forall a, N.shiftl a (N.succ k) = N.double (N.shiftl a k)) as Hs.
  { intros a. rewrite !N.shiftl_mul_pow2, (N.double_spec (a * 2 ^ k)), N.pow_succ_r'. lia. }
  by rewrite !Hs, clmul_double_l, IH.
Qed.

Lemma less_than_pow a n : (forall i, n <= i -> N.testbit a i = false) -> a < 2 ^ n.
Proof.
  intros H. destruct (decide (a = 0)) as [->|Ha]; [apply N.neq_0_lt_0, N.pow_nonzero; done|].
  apply N.log2_lt_pow2; [lia|]. destruct (N.lt_ge_cases (N.log2 a) n) as [|Hge]; [done|].
  specialize (H _ Hge). by rewrite N.bit_log2 in H.
Qed.

Lemma rem_step (k : nat) a d :
  d <> 0 -> a < 2 ^ (N.log2 d + N.of_nat (S k)) ->
  let a' := if N.testbit a (N.log2 d + N.of_nat k) then N.lxor a (N.shiftl d (N.of_nat k)) else a in
  a' < 2 ^ (N.log2 d + N.of_nat k) /\ divides d (N.lxor a a').
Proof.
  intros Hd Ha. set (n := N.log2 d) in *. intros a'. split.
  - apply less_than_pow. intros i Hi. assert (n + N.of_nat k = i \/ n + N.of_nat k + 1 <= i) as [<-|Hgt] by lia.
    + unfold a'. destruct (N.testbit a _) eqn:E; [|done]. rewrite N.lxor_spec, E, N.shiftl_spec_high' by lia.
      replace (n + N.of_nat k - N.of_nat k) with n by lia. unfold n. by rewrite N.bit_log2.
    + assert (N.testbit a i = false) as E.
      { destruct (decide (a = 0)) as [->|]; [apply N.bits_0|]. apply N.bits_above_log2.
        apply N.lt_le_trans with (n + N.of_nat (S k)); [|lia]. apply N.log2_lt_pow2; [lia|done]. }
      unfold a'. destruct (N.testbit a (n + N.of_nat k)); [|done]. rewrite N.lxor_spec, E, N.shiftl_spec_high' by lia.
      rewrite N.bits_above_log2; [done|]. fold n. lia.
  - unfold a'. destruct (N.testbit a _); [|exists 0; apply N.lxor_nilpotent].
    exists (N.shiftl 1 (N.of_nat k)). rewrite shiftl_clmul. ring.
Qed.

Lemma rem_loop_spec k a d :
  d <> 0 -> a < 2 ^ (N.log2 d + N.of_nat k) ->
  rem_loop k a d (N.log2 d) < 2 ^ N.log2 d /\ divides d (N.lxor a (rem_loop k a d (N.log2 d))).
Proof.
  intros Hd. revert a. induction k as [|k IH]; intros a Ha; cbn [rem_loop].
  - rewrite N.add_0_r in Ha. split; [done|]. exists 0. apply N.lxor_nilpotent.
  - destruct (rem_step k a d Hd Ha) as [Hlt Hdv]. set (a' := if N.testbit a _ then _ else _) in *.
    destruct (IH a' Hlt) as [H1 H2]. split; [done|].
    replace (N.lxor a (rem_loop k a' d (N.log2 d))) with (N.lxor (N.lxor a a') (N.lxor a' (rem_loop k a' d (N.log2 d)))) by ring.
    by apply divides_lxor.
Qed.

Lemma gf2_rem_spec a d :
  d <> 0 -> gf2_rem a d < 2 ^ N.log2 d /\ divides d (N.lxor a (gf2_rem a d)).
Proof.
  intros Hd. apply rem_loop_spec; [done|]. rewrite N2Nat.id. apply N.lt_le_trans with (2 ^ N.size a); [apply N.size_gt|].
  apply N.pow_le_mono_r; lia.
Qed.

(** ** Irreducible polynomials *)

Definition irreducible (d : N) : Prop := 1 < d /\ forall a b, clmul a b = d -> a = 1 \/ b = 1.

(** An ideal with an irreducible polynomial and a smaller one has all. *)
Lemma ideal_unit (I : N -> Prop) d :
  (forall a b, I a -> I b -> I (N.lxor a b)) -> (forall a b, I b -> I (clmul a b)) ->
  irreducible d -> I d -> forall q, I q -> q <> 0 -> less q d -> I 1.
Proof.
  intros Hadd Hmul [Hd1 Hirr] HD q. induction (N.lt_wf_0 q) as [q _ IH]. intros Hq Hq0 Hless.
  destruct (decide (q = 1)) as [->|Hq1]; [done|].
  destruct (gf2_rem_spec d q Hq0) as [Hr [a Ha]]. set (r := gf2_rem d q) in *.
  assert (r = N.lxor d (clmul a q)) as Er by (rewrite <- Ha; ring).
  assert (I r) as HIr by (rewrite Er; by apply Hadd; [|apply Hmul]).
  destruct (decide (r = 0)) as [Hr0|Hr0].
  - rewrite Hr0, N.lxor_0_r in Ha. symmetry in Ha. destruct (Hirr a q Ha) as [->|]; [|done].
    cbn in Ha. subst q. destruct Hless; [done|lia].
  - assert (r < q) as Hrq.
    { apply N.lt_le_trans with (2 ^ N.log2 q); [done|]. apply N.log2_spec. lia. }
    apply (IH r Hrq HIr Hr0). right. destruct Hless as [|Hless]; [done|].
    apply N.le_lt_trans with (N.log2 q); [|done]. apply N.log2_le_mono. lia.
Qed.

(** Trial division by all polynomials of at most half the degree. *)
Definition irreducibleb (d : N) : bool :=
  (1 <? d) && forallb (fun q => negb (gf2_rem d q =? 0)) (N.of_nat <$> seq 2 (N.to_nat (2 ^ (N.log2 d / 2 + 1)) - 2)).

Lemma rem_divides a d : d <> 0 -> divides d a -> N.log2 d <> 0 -> gf2_rem a d = 0.
Proof.
  intros Hd Ha Hl. destruct (gf2_rem_spec a d Hd) as [Hr Hdv]. apply (divides_less d); [|by apply (less_pow _ d _ eq_refl)].
  replace (gf2_rem a d) with (N.lxor a (N.lxor a (gf2_rem a d))) by ring. by apply divides_lxor.
Qed.

Lemma irreducible_check d : irreducibleb d = true -> irreducible d.
Proof.
  unfold irreducibleb. rewrite andb_true_iff, N.ltb_lt, forallb_forall. intros [Hd H]. split; [done|].
  assert (forall a b, clmul a b = d -> b <> 1 -> N.log2 d / 2 < N.log2 b) as Hbig.
  { intros a b E Hb. destruct (N.lt_ge_cases (N.log2 d / 2) (N.log2 b)) as [|Hge]; [done|].
    assert (b <> 0) as Hb0 by (intros ->; rewrite clmul_0_r in E; lia).
    assert (N.log2 b <> 0) as Hl. { intros Hl. apply N.log2_null in Hl. lia. }
    exfalso. assert (b < 2 ^ (N.log2 d / 2 + 1)) as Hlt by (apply N.log2_lt_pow2; lia).
    specialize (H b). rewrite (rem_divides d b) in H by (done || by exists a). cbn in H.
    assert (false = true) as ?; [apply H|done]. apply list_elem_of_In, list_elem_of_fmap. exists (N.to_nat b).
    split; [lia|]. apply elem_of_seq. lia. }
  intros a b E. destruct (decide (a = 1)) as [|Ha]; [by left|]. destruct (decide (b = 1)) as [|Hb]; [by right|].
  pose proof (Hbig a b E Hb). pose proof (Hbig b a ltac:(by rewrite clmul_comm) Ha).
  destruct (clmul_degree a b) as [_ Hdeg]; [intros ->; cbn in E; lia|intros ->; rewrite clmul_0_r in E; lia|].
  rewrite E in Hdeg. pose proof (N.div_mod (N.log2 d) 2). pose proof (N.mod_lt (N.log2 d) 2). lia.
Qed.

(** ** Linear recurrences *)

(** The sum of [u (t + k)] over the coefficients [k] of a polynomial. *)
Fixpoint pact (q : positive) (u : nat -> bool) (t : nat) : bool :=
  match q with
  | xH => u t
  | xO q => pact q u (S t)
  | xI q => xorb (u t) (pact q u (S t))
  end.

Definition act (q : N) (u : nat -> bool) (t : nat) : bool := match q with 0 => false | Npos q => pact q u t end.

Lemma act_double q u t : act (N.double q) u t = act q u (S t).
Proof. by destruct q. Qed.

Lemma act_succ_double q u t : act (N.succ_double q) u t = xorb (u t) (act q u (S t)).
Proof. destruct q; [|done]. cbn. by destruct (u t). Qed.

Lemma act_lxor a b u t : act (N.lxor a b) u t = xorb (act a u t) (act b u t).
Proof.
  revert b t. induction a as [|a IH|a IH] using N.binary_ind; intros b t; [rewrite N.lxor_0_l; by destruct (act b u t)| |];
    destruct b as [|b _|b _] using N.binary_ind; rewrite ?N.lxor_0_r.
  - by destruct (act (N.double a) u t).
  - by rewrite <- double_lxor, !act_double, IH.
  - assert (N.lxor (N.double a) (N.succ_double b) = N.succ_double (N.lxor a b)) as -> by (by destruct a, b).
    rewrite act_double, !act_succ_double, IH. by destruct (u t), (act a u (S t)), (act b u (S t)).
  - by destruct (act (N.succ_double a) u t).
  - assert (N.lxor (N.succ_double a) (N.double b) = N.succ_double (N.lxor a b)) as -> by (by destruct a, b).
    rewrite act_double, !act_succ_double, IH. by destruct (u t), (act a u (S t)), (act b u (S t)).
  - assert (N.lxor (N.succ_double a) (N.succ_double b) = N.double (N.lxor a b)) as -> by (by destruct a, b).
    rewrite act_double, !act_succ_double, IH. by destruct (u t), (act a u (S t)), (act b u (S t)).
Qed.

Lemma act_clmul a q u t : act (clmul a q) u t = act a (act q u) t.
Proof.
  revert t. induction a as [|a IH|a IH] using N.binary_ind; intros t; [done| |].
  - by rewrite clmul_double_l, !act_double, IH.
  - by rewrite clmul_succ_double_l, act_lxor, act_double, act_succ_double, IH.
Qed.

Lemma act_shift q u t m : act q (fun i => u (m + i)%nat) t = act q u (m + t)%nat.
Proof.
  revert t. induction q as [|q IH|q IH] using N.binary_ind; intros t; [done| |].
  - by rewrite !act_double, IH, Nat.add_succ_r.
  - by rewrite !act_succ_double, IH, Nat.add_succ_r.
Qed.

(** Only as many elements count as the polynomial has coefficients. *)
Lemma act_ext q u v t (r : nat) :
  q < 2 ^ N.of_nat r -> (forall k, (k < r)%nat -> u (t + k)%nat = v (t + k)%nat) -> act q u t = act q v t.
Proof.
  revert q t. induction r as [|r IH]; intros q t Hq Hu; [assert (q = 0) as -> by (cbn in Hq; lia); done|].
  assert (forall p, p < 2 ^ N.of_nat r -> act p u (S t) = act p v (S t)) as Hn.
  { intros p Hp. apply IH; [done|]. intros k Hk. replace (S t + k)%nat with (t + S k)%nat by lia. apply Hu. lia. }
  rewrite Nat2N.inj_succ, N.pow_succ_r' in Hq. pose proof (Hu 0%nat ltac:(lia)) as H0. rewrite Nat.add_0_r in H0.
  destruct q as [|q _|q _] using N.binary_ind; [done| |].
  - rewrite !act_double. apply Hn. lia.
  - rewrite !act_succ_double, H0. f_equal. apply Hn. lia.
Qed.

Lemma act_zero q u t (r : nat) :
  q < 2 ^ N.of_nat r -> (forall k, (k < r)%nat -> u (t + k)%nat = false) -> act q u t = false.
Proof.
  intros Hq Hu. rewrite (act_ext q u (fun _ => false) t r Hq Hu). clear Hq Hu. revert t.
  induction q as [|q IH|q IH] using N.binary_ind; intros t; [done| |].
  - by rewrite act_double.
  - by rewrite act_succ_double, IH.
Qed.

Lemma act_pow (r : nat) u t : act (2 ^ N.of_nat r) u t = u (t + r)%nat.
Proof.
  revert t. induction r as [|r IH]; intros t; [cbn; by rewrite Nat.add_0_r|].
  rewrite Nat2N.inj_succ, N.pow_succ_r', <- N.double_spec, act_double, IH. f_equal. lia.
Qed.

Lemma foldl_ext_in {A B} (f g : A -> B -> A) l a :
  (forall a x, x ∈ l -> f a x = g a x) -> foldl f a l = foldl g a l.
Proof.
  revert a. induction l as [|x l IH]; intros a H; [done|]. cbn. rewrite (H a x) by left. apply IH. intros b y Hy. apply H. by right.
Qed.

Lemma act_bits (n : nat) q u t b :
  q < 2 ^ N.of_nat n ->
  foldl (fun p j => xorb p (N.testbit q (N.of_nat j) && u (t + j)%nat)) b (seq 0 n) = xorb b (act q u t).
Proof.
  revert q t b. induction n as [|n IH]; intros q t b Hq; [assert (q = 0) as -> by (cbn in Hq; lia); by destruct b|].
  cbn [seq]. rewrite <- (fmap_S_seq 0 n). cbn [foldl]. rewrite foldl_fmap, Nat.add_0_r.
  rewrite Nat2N.inj_succ, N.pow_succ_r' in Hq.
  assert (forall p c, p < 2 ^ N.of_nat n -> (forall j, N.testbit q (N.succ (N.of_nat j)) = N.testbit p (N.of_nat j)) ->
    foldl (fun a j => xorb a (N.testbit q (N.of_nat (S j)) && u (t + S j)%nat)) c (seq 0 n) = xorb c (act p u (S t))) as Hrest.
  { intros p c Hp Hbits. rewrite <- IH by done. apply foldl_ext_in. intros a j _.
    rewrite Nat2N.inj_succ, Hbits. by replace (t + S j)%nat with (S t + j)%nat by lia. }
  destruct q as [|q _|q _] using N.binary_ind.
  - rewrite (Hrest 0) by (done || lia || apply N.neq_0_lt_0, N.pow_nonzero; done). cbn. by destruct b.
  - rewrite (Hrest q); [|lia|intros j; rewrite N.double_spec; apply N.testbit_even_succ; lia].
    change (N.of_nat 0) with 0. rewrite act_double. replace (N.testbit (N.double q) 0) with false by (by destruct q). cbn. by destruct b.
  - rewrite (Hrest q); [|lia|intros j; rewrite N.succ_double_spec; apply N.testbit_odd_succ; lia].
    change (N.of_nat 0) with 0. rewrite act_succ_double. replace (N.testbit (N.succ_double q) 0) with true by (by destruct q).
    cbn [andb]. apply xorb_assoc.
Qed.

(** A sequence that obeys an irreducible recurrence and a shorter one is zero. *)
Lemma recurrence_zero d u q :
  irreducible d -> (forall t, act d u t = false) -> q <> 0 -> less q d -> (forall t, act q u t = false) ->
  forall t, u t = false.
Proof.
  intros Hirr Hd Hq0 Hq Hz. change (forall t, act 1 u t = false).
  apply (ideal_unit (fun q => forall t, act q u t = false) d) with (q := q); try done.
  - intros a b Ha Hb t. by rewrite act_lxor, Ha, Hb.
  - intros a b Hb t. rewrite act_clmul. apply (act_zero _ _ _ (N.to_nat (N.size a))); [|intros k _; apply Hb].
    rewrite N2Nat.id. apply N.size_gt.
Qed.

Lemma irreducible_odd d : irreducible d -> d <> 2 -> exists p, d = N.succ_double p.
Proof.
  intros [Hd Hirr] H2. destruct d as [|d _|d _] using N.binary_ind; [done| |by exists d].
  destruct (Hirr 2 d) as [| ->]; [by destruct d|done|done].
Qed.

(** As many zeros in a row as the recurrence is long are enough, wherever they
    are. *)
Lemma recurrence_window p (r : nat) u q m :
  (2 <= r)%nat -> p < 2 ^ N.of_nat r -> irreducible (N.lxor (2 ^ N.of_nat r) p) ->
  (forall t, u (t + r)%nat = act p u t) -> q <> 0 -> q < 2 ^ N.of_nat r ->
  (forall i, (i < r)%nat -> act q u (m + i)%nat = false) -> forall t, u t = false.
Proof.
  intros Hr Hp Hirr Hrec Hq0 Hq Hwin. set (d := N.lxor (2 ^ N.of_nat r) p) in *.
  assert (forall t, act d u t = false) as Hd.
  { intros t. unfold d. rewrite act_lxor, act_pow, Hrec. apply xorb_nilpotent. }
  assert (N.log2 d = N.of_nat r) as Hlog.
  { unfold d. rewrite (proj2 (log2_lxor_lt (2 ^ N.of_nat r) p (N.pow_nonzero 2 _ ltac:(lia))
      ltac:(rewrite N.log2_pow2 by lia; destruct (decide (p = 0)); [by left|right; apply N.log2_lt_pow2; [lia|done]]))).
    apply N.log2_pow2. lia. }
  assert (forall t, act q u (t + r)%nat = act p (act q u) t) as Hv.
  { intros t. rewrite <- act_clmul, clmul_comm, act_clmul. replace (t + r)%nat with (r + t)%nat by lia. rewrite <- act_shift.
    apply (act_ext _ _ _ _ r Hq). intros k _. rewrite <- Hrec. f_equal. lia. }
  assert (forall t, act q u (m + t)%nat = false) as Hq'.
  { intros t. induction (lt_wf t) as [t _ IH]. destruct (decide (t < r)%nat); [by apply Hwin|].
    replace (m + t)%nat with (m + (t - r) + r)%nat by lia. rewrite Hv. apply (act_zero _ _ _ r Hp). intros k Hk.
    rewrite <- Nat.add_assoc. apply IH. lia. }
  assert (forall t, u (m + t)%nat = false) as Htail.
  { apply (recurrence_zero d (fun i => u (m + i)%nat) q Hirr).
    - intros t. rewrite act_shift. apply Hd.
    - done.
    - apply (less_pow _ _ _ Hlog); [lia|done].
    - intros t. rewrite act_shift. apply Hq'. }
  destruct (irreducible_odd d Hirr) as [p' Ep]; [intros E; rewrite E in Hlog; cbn in Hlog; lia|].
  intros t. destruct (decide (m <= t)%nat) as [Hm|Hm]; [replace t with (m + (t - m))%nat by lia; apply Htail|].
  remember (m - t)%nat as k eqn:Ek. revert t Hm Ek. induction (lt_wf k) as [k _ IH]. intros t Hm Ek.
  specialize (Hd t). rewrite Ep, act_succ_double in Hd. rewrite (act_zero p' u (S t) (N.to_nat (N.size p'))) in Hd.
  - by rewrite xorb_false_r in Hd.
  - rewrite N2Nat.id. apply N.size_gt.
  - intros j _. destruct (decide (m <= S t + j)%nat).
    + replace (S t + j)%nat with (m + (S t + j - m))%nat by lia. apply Htail.
    + apply (IH (m - (S t + j))%nat); lia.
Qed.
