(* ===== verification/Gf2Field.v ===== *)
(** * The field of the polynomials modulo an irreducible one

    [cong] is equality in the field.  The product of the factors of an element
    and its conjugates, its squares of squares, is a polynomial over two
    elements again, and irreducible: this is how [rte_thash] finds its
    polynomials. *)

From Stdlib Require Import NArith Permutation Ring.
From S2P Require Import Prelude Gf2.

Local Open Scope N_scope.

Add Ring gf2_field : gf2_ring (morphism gf2_morph, constants [bit_const]).

(** ** Evaluation *)

Fixpoint eval (p : list N) (z : N) : N :=
  match p with [] => 0 | c :: p => N.lxor c (clmul z (eval p z)) end.

(** A polynomial over two elements, at [z]. *)
Fixpoint pev (p : positive) (z : N) : N :=
  match p with
  | xH => 1
  | xO p => clmul z (pev p z)
  | xI p => N.lxor 1 (clmul z (pev p z))
  end.

Definition ev (p z : N) : N := match p with 0 => 0 | Npos p => pev p z end.

Lemma ev_double p z : ev (N.double p) z = clmul z (ev p z).
Proof. destruct p; [|done]. cbn. by rewrite clmul_0_r. Qed.

Lemma ev_succ_double p z : ev (N.succ_double p) z = N.lxor 1 (clmul z (ev p z)).
Proof. destruct p; [|done]. cbn. by rewrite clmul_0_r. Qed.

Lemma ev_lxor a b z : ev (N.lxor a b) z = N.lxor (ev a z) (ev b z).
Proof.
  revert b. induction a as [|a IH|a IH] using N.binary_ind; intros b; [by rewrite !N.lxor_0_l| |];
    destruct b as [|b _|b _] using N.binary_ind; rewrite ?N.lxor_0_r; try done.
  - rewrite <- double_lxor, !ev_double, IH. ring.
  - assert (N.lxor (N.double a) (N.succ_double b) = N.succ_double (N.lxor a b)) as -> by (by destruct a, b).
    rewrite ev_double, !ev_succ_double, IH. ring.
  - assert (N.lxor (N.succ_double a) (N.double b) = N.succ_double (N.lxor a b)) as -> by (by destruct a, b).
    rewrite ev_double, !ev_succ_double, IH. ring.
  - assert (N.lxor (N.succ_double a) (N.succ_double b) = N.double (N.lxor a b)) as -> by (by destruct a, b).
    rewrite ev_double, !ev_succ_double, IH. ring.
Qed.

Lemma ev_clmul a b z : ev (clmul a b) z = clmul (ev a z) (ev b z).
Proof.
  induction a as [|a IH|a IH] using N.binary_ind; [done| |].
  - rewrite clmul_double_l, !ev_double, IH. ring.
  - rewrite clmul_succ_double_l, ev_lxor, ev_double, ev_succ_double, IH. ring.
Qed.

Lemma ev_square p z : ev p (clmul z z) = clmul (ev p z) (ev p z).
Proof.
  induction p as [|p IH|p IH] using N.binary_ind; [done| |].
  - rewrite !ev_double, IH. ring.
  - rewrite !ev_succ_double, IH. ring.
Qed.

(** The coefficients of a polynomial over two elements, and back. *)
Fixpoint pdigits (p : positive) : list N :=
  match p with xH => [1] | xO p => 0 :: pdigits p | xI p => 1 :: pdigits p end.

Definition digits (p : N) : list N := match p with 0 => [] | Npos p => pdigits p end.

Fixpoint undigits (cs : list N) : N := match cs with [] => 0 | c :: cs => N.lxor c (N.double (undigits cs)) end.

Lemma eval_digits p z : eval (digits p) z = ev p z.
Proof.
  destruct p as [|p]; [done|]. cbn. induction p as [p IH|p IH|]; cbn; rewrite ?IH; [done|done|by rewrite clmul_0_r].
Qed.

Lemma length_digits p : p <> 0 -> length (digits p) = S (N.to_nat (N.log2 p)).
Proof.
  induction p as [|p IH|p IH] using N.binary_ind; intros Hp; [done| |].
  - assert (p <> 0) as Hp0 by (intros ->; done). rewrite log2_double by done.
    replace (digits (N.double p)) with (0 :: digits p) by (by destruct p). cbn [length]. rewrite IH by done. lia.
  - replace (digits (N.succ_double p)) with (1 :: digits p) by (by destruct p). cbn [length].
    destruct (decide (p = 0)) as [->|Hp0]; [done|]. rewrite IH, N.succ_double_spec, N.log2_succ_double by lia. lia.
Qed.

Lemma digits_one p : p <> 0 -> 1 ∈ digits p.
Proof. destruct p as [|p]; [done|]. intros _. cbn. induction p as [p IH|p IH|]; cbn; [left|by right|left]. Qed.

Definition is_bit (c : N) : Prop := c = 0 \/ c = 1.

Lemma ev_undigits cs z : Forall is_bit cs -> ev (undigits cs) z = eval cs z.
Proof.
  induction 1 as [|c cs [->| ->] _ IH]; [done| |]; cbn [undigits eval].
  - by rewrite ev_lxor, ev_double, IH.
  - by rewrite ev_lxor, ev_double, IH.
Qed.

Lemma log2_undigits cs :
  Forall is_bit cs -> last cs = Some 1 -> undigits cs <> 0 /\ S (N.to_nat (N.log2 (undigits cs))) = length cs.
Proof.
  induction 1 as [|c cs Hc _ IH]; [done|]. cbn [undigits length]. destruct cs as [|c' cs]; [by intros [= ->]|].
  rewrite last_cons_cons. intros Hl. destruct (IH Hl) as [H0 <-]. set (u := undigits (c' :: cs)) in *.
  assert (N.lxor c (N.double u) = 2 * u + c) as ->; [destruct Hc as [->| ->], u; done|].
  destruct Hc as [->| ->].
  - rewrite N.add_0_r, N.log2_double by lia. split; [lia|]. lia.
  - rewrite N.log2_succ_double by lia. split; [lia|]. lia.
Qed.

(** ** Products *)

(** The list times the variable plus [a], and [k] more. *)
Fixpoint mr (k a : N) (c : list N) : list N :=
  match c with [] => [k] | x :: c => N.lxor k (clmul a x) :: mr x a c end.

Definition product (rs : list N) : list N := foldl (fun c a => mr 0 a c) [1] rs.

Lemma eval_mr k a c z : eval (mr k a c) z = N.lxor k (clmul (N.lxor z a) (eval c z)).
Proof. revert k. induction c as [|x c IH]; intros k; cbn [mr eval]; [|rewrite IH]; ring. Qed.

Lemma mr_comm p p' q a b c :
  N.lxor p (clmul a q) = N.lxor p' (clmul b q) -> mr p a (mr q b c) = mr p' b (mr q a c).
Proof.
  revert p p' q. induction c as [|x c IH]; intros p p' q H; cbn [mr]; [by rewrite H|].
  f_equal.
  - transitivity (N.lxor (N.lxor p (clmul a q)) (clmul a (clmul b x))); [ring|]. rewrite H. ring.
  - apply IH. ring.
Qed.

Lemma product_perm rs rs' : Permutation rs rs' -> product rs = product rs'.
Proof.
  unfold product. generalize [1]. intros c Hp. revert c.
  induction Hp as [|x l l' _ IH|x y l|l1 l2 l3 _ IH1 _ IH2]; intros c; cbn [foldl]; [done|apply IH| |by rewrite IH1].
  f_equal. apply mr_comm. by rewrite !clmul_0_r.
Qed.

Definition square (a : N) : N := clmul a a.

Lemma mr_square k a c : square <$> mr k a c = mr (square k) (square a) (square <$> c).
Proof.
  revert k. induction c as [|x c IH]; intros k; cbn [mr fmap list_fmap]; [done|].
  f_equal; [unfold square; ring|apply IH].
Qed.

Lemma product_square rs : square <$> product rs = product (square <$> rs).
Proof.
  unfold product. assert (forall c c', square <$> c = c' ->
    square <$> foldl (fun c a => mr 0 a c) c rs = foldl (fun c a => mr 0 a c) c' (square <$> rs)) as H; [|by apply H].
  induction rs as [|a rs IH]; intros c c' E; cbn [foldl fmap list_fmap]; [done|]. apply IH. by rewrite mr_square, E.
Qed.

Lemma eval_product_root r rs : eval (product (r :: rs)) r = 0.
Proof.
  unfold product. cbn [foldl]. assert (eval (mr 0 r [1]) r = 0) as H by (rewrite eval_mr; ring).
  revert H. generalize (mr 0 r [1]). induction rs as [|a rs IH]; intros c H; cbn [foldl]; [done|].
  apply IH. rewrite eval_mr, H. ring.
Qed.

Lemma length_mr k a c : length (mr k a c) = S (length c).
Proof. revert k. induction c as [|x c IH]; intros k; cbn; [done|]. by rewrite IH. Qed.

Lemma last_mr k a c x : last c = Some x -> last (mr k a c) = Some x.
Proof.
  revert k. induction c as [|y c IH]; intros k Hl; [done|]. cbn [mr]. destruct c as [|y' c]; [cbn in *; congruence|].
  rewrite last_cons_cons in Hl. rewrite <- (IH y Hl). cbn [mr]. by rewrite last_cons_cons.
Qed.

Lemma product_shape rs : length (product rs) = S (length rs) /\ last (product rs) = Some 1.
Proof.
  unfold product. assert (forall c, last c = Some 1 -> let p := foldl (fun c a => mr 0 a c) c rs in
    length p = (length rs + length c)%nat /\ last p = Some 1) as H.
  { induction rs as [|a rs IH]; intros c Hl; cbn [foldl]; [done|].
    destruct (IH (mr 0 a c) (last_mr _ _ _ _ Hl)) as [-> ->]. rewrite length_mr. split; [cbn; lia|done]. }
  destruct (H [1] eq_refl) as [-> ->]. split; [cbn; lia|done].
Qed.

(** ** Squares of squares *)

Definition frob (k : nat) (a : N) : N := Nat.iter k square a.

Lemma frob_S k a : frob (S k) a = square (frob k a).
Proof. done. Qed.

Lemma frob_0 k : frob k 0 = 0.
Proof. induction k as [|k IH]; [done|]. by rewrite frob_S, IH. Qed.

Lemma frob_1 k : frob k 1 = 1.
Proof. induction k as [|k IH]; [done|]. by rewrite frob_S, IH. Qed.

Lemma frob_lxor k a b : frob k (N.lxor a b) = N.lxor (frob k a) (frob k b).
Proof. induction k as [|k IH]; [done|]. rewrite !frob_S, IH. unfold square. ring. Qed.

Lemma frob_clmul k a b : frob k (clmul a b) = clmul (frob k a) (frob k b).
Proof. induction k as [|k IH]; [done|]. rewrite !frob_S, IH. unfold square. ring. Qed.

Lemma frob_add k j a : frob (k + j) a = frob k (frob j a).
Proof. apply Nat.iter_add. Qed.

Lemma ev_frob p k z : ev p (frob k z) = frob k (ev p z).
Proof. induction k as [|k IH]; [done|]. rewrite !frob_S. unfold square. by rewrite ev_square, IH. Qed.

(** ** The field *)

Section Field.
Variable d : N.
Hypothesis Hirr : irreducible d.

Definition cong (a b : N) : Prop := divides d (N.lxor a b).
Local Infix "==" := cong (at level 70).

#[local] Instance cong_equiv : Equivalence cong.
Proof.
  split.
  - intros a. exists 0. apply N.lxor_nilpotent.
  - intros a b H. unfold cong. by rewrite N.lxor_comm.
  - intros a b c H1 H2. unfold cong. replace (N.lxor a c) with (N.lxor (N.lxor a b) (N.lxor b c)) by ring.
    by apply divides_lxor.
Qed.

#[local] Instance lxor_cong : Proper (cong ==> cong ==> cong) N.lxor.
Proof. intros a a' Ha b b' Hb. unfold cong. rewrite lxor4. by apply divides_lxor. Qed.

#[local] Instance clmul_cong : Proper (cong ==> cong ==> cong) clmul.
Proof.
  intros a a' Ha b b' Hb. unfold cong.
  replace (N.lxor (clmul a b) (clmul a' b')) with (N.lxor (clmul b (N.lxor a a')) (clmul a' (N.lxor b b'))) by ring.
  apply divides_lxor; by apply divides_mul.
Qed.

#[local] Instance square_cong : Proper (cong ==> cong) square.
Proof. intros a b H. unfold square. by rewrite H. Qed.

Lemma d_nonzero : d <> 0.
Proof. destruct Hirr. lia. Qed.

Lemma log2_d : N.log2 d <> 0.
Proof. destruct Hirr as [H _]. pose proof (N.log2_pos d H). lia. Qed.

Lemma cong_rem a : gf2_rem a d == a.
Proof. unfold cong. rewrite N.lxor_comm. apply gf2_rem_spec, d_nonzero. Qed.

Lemma cong_less a b : a == b -> less a d -> less b d -> a = b.
Proof. intros H Ha Hb. apply N.lxor_eq. apply (divides_less d); [done|by apply less_lxor]. Qed.

Lemma less_bit c : is_bit c -> less c d.
Proof. intros [->| ->]; [by left|right]. pose proof log2_d. cbn. lia. Qed.

Lemma one_not_zero : ~ 1 == 0.
Proof. intros H. assert (1 = 0) as ?; [|done]. apply (cong_less _ _ H); apply less_bit; [by right|by left]. Qed.

(** A product is zero only if a factor is. *)
Lemma domain a b : clmul a b == 0 -> a == 0 \/ b == 0.
Proof.
  intros H. unfold cong in *. rewrite !N.lxor_0_r in *. pose proof d_nonzero as Hd.
  destruct (gf2_rem_spec a d Hd) as [Hlt Hdv]. set (r := gf2_rem a d) in *.
  destruct (decide (r = 0)) as [E|Hr]; [left; by rewrite E, N.lxor_0_r in Hdv|right].
  change b with (clmul 1 b). apply (ideal_unit (fun c => divides d (clmul c b)) d) with (q := r).
  - intros x y Hx Hy. rewrite clmul_lxor_l. by apply divides_lxor.
  - intros x y Hy. rewrite <- clmul_assoc. by apply divides_mul.
  - done.
  - exists b. apply clmul_comm.
  - replace (clmul r b) with (N.lxor (clmul a b) (clmul b (N.lxor a r))) by ring.
    apply divides_lxor; [done|]. by apply divides_mul.
  - done.
  - by apply (less_pow _ _ _ eq_refl log2_d).
Qed.

Lemma lxor_zero a b : N.lxor a b == 0 <-> a == b.
Proof. unfold cong. by rewrite N.lxor_0_r. Qed.

Lemma cong_of_zero a b : N.lxor a b == 0 -> a == b.
Proof. apply lxor_zero. Qed.

Lemma square_inj a b : square a == square b -> a == b.
Proof.
  intros H. apply lxor_zero in H. replace (N.lxor (square a) (square b)) with (clmul (N.lxor a b) (N.lxor a b)) in H
    by (unfold square; ring). apply domain in H as [H|H]; by apply lxor_zero.
Qed.

Lemma frob_inj k a b : frob k a == frob k b -> a == b.
Proof. induction k as [|k IH]; [done|]. rewrite !frob_S. intros H%square_inj. by apply IH. Qed.

(** The elements with square themselves are 0 and 1. *)
Lemma square_fixed c : less c d -> square c == c -> is_bit c.
Proof.
  intros Hl H. apply lxor_zero in H.
  replace (N.lxor (square c) c) with (clmul c (N.lxor c 1)) in H by (unfold square; ring).
  apply domain in H as [H|H%cong_of_zero].
  - left. apply (cong_less _ _ H Hl). by left.
  - right. apply (cong_less _ _ H Hl). apply less_bit. by right.
Qed.

(** ** Roots *)

Fixpoint quot (p : list N) (a : N) : list N :=
  match p with
  | [] => []
  | c :: p => match p with [] => [] | _ => eval p a :: quot p a end
  end.

Lemma quot_spec p a z : N.lxor (eval p z) (eval p a) = clmul (N.lxor z a) (eval (quot p a) z).
Proof.
  induction p as [|c p IH]; [by rewrite clmul_0_r|]. destruct p as [|c' p]; [cbn; ring|].
  change (quot (c :: c' :: p) a) with (eval (c' :: p) a :: quot (c' :: p) a).
  set (p' := c' :: p) in *. cbn [eval].
  transitivity (N.lxor (clmul z (N.lxor (eval p' z) (eval p' a))) (clmul (N.lxor z a) (eval p' a))); [ring|].
  rewrite IH. ring.
Qed.

Lemma length_quot p a : length (quot p a) = pred (length p).
Proof.
  induction p as [|c p IH]; [done|]. destruct p as [|c' p]; [done|].
  change (quot (c :: c' :: p) a) with (eval (c' :: p) a :: quot (c' :: p) a). cbn [length pred] in *. by rewrite IH.
Qed.

Lemma quot_zero p a : Forall (fun c => c == 0) (quot p a) -> eval p a == 0 -> Forall (fun c => c == 0) p.
Proof.
  induction p as [|c p IH]; [done|]. destruct p as [|c' p].
  - cbn. rewrite clmul_0_r, N.lxor_0_r. auto.
  - change (quot (c :: c' :: p) a) with (eval (c' :: p) a :: quot (c' :: p) a). set (p' := c' :: p) in *. cbn [eval].
    rewrite Forall_cons. intros [H1 H2] H. constructor; [|by apply IH].
    rewrite H1, clmul_0_r, N.lxor_0_r in H. exact H.
Qed.

(** A polynomial with as many roots as coefficients is zero. *)
Lemma roots_bound rs p :
  ForallOrdPairs (fun a b => ~ a == b) rs -> (length p <= length rs)%nat ->
  Forall (fun a => eval p a == 0) rs -> Forall (fun c => c == 0) p.
Proof.
  intros Hd. revert p. induction Hd as [|a rs Ha _ IH]; intros p Hl Hr; [destruct p; [done|cbn in Hl; lia]|].
  apply Forall_cons in Hr as [H0 Hr]. apply quot_zero with a; [|done]. apply IH.
  - rewrite length_quot. cbn in Hl. lia.
  - rewrite Forall_forall in *. intros b Hb. specialize (Ha b Hb). specialize (Hr b Hb).
    assert (clmul (N.lxor b a) (eval (quot p a) b) == 0) as H by (rewrite <- quot_spec, H0, Hr; done).
    apply domain in H as [H%cong_of_zero|H]; [|done]. by symmetry in H.
Qed.

(** ** Conjugates *)

Lemma mr_cong k k' a a' c c' : k == k' -> a == a' -> Forall2 cong c c' -> Forall2 cong (mr k a c) (mr k' a' c').
Proof.
  intros Hk Ha Hc. revert k k' Hk. induction Hc as [|x x' c c' Hx _ IH]; intros k k' Hk; cbn [mr]; [by repeat constructor|].
  constructor; [by rewrite Hk, Ha, Hx|by apply IH].
Qed.

Lemma product_cong rs rs' c c' :
  Forall2 cong rs rs' -> Forall2 cong c c' ->
  Forall2 cong (foldl (fun c a => mr 0 a c) c rs) (foldl (fun c a => mr 0 a c) c' rs').
Proof.
  intros Hr. revert c c'. induction Hr as [|a a' rs rs' Ha _ IH]; intros c c' Hc; cbn [foldl]; [done|].
  apply IH. by apply mr_cong.
Qed.

Variable n : nat.
Hypothesis Hn : N.log2 d = N.of_nat n.
Hypothesis Hfrob : frob n 2 == 2.

(** [n] squares give every element back. *)
Lemma frob_n a : frob n a == a.
Proof.
  induction a as [|a IH|a IH] using N.binary_ind; [by rewrite frob_0| |].
  - replace (N.double a) with (clmul 2 a) by (by destruct a). by rewrite frob_clmul, Hfrob, IH.
  - rewrite succ_double_lxor. replace (N.double a) with (clmul 2 a) by (by destruct a).
    by rewrite frob_lxor, frob_1, frob_clmul, Hfrob, IH.
Qed.

Variable rho : N.
Hypothesis Horbit : forall i, (0 < i < n)%nat -> ~ frob i rho == rho.

Definition conjugates : list N := (fun i => frob i rho) <$> seq 0 n.

Lemma conjugates_distinct : ForallOrdPairs (fun a b => ~ a == b) conjugates.
Proof.
  unfold conjugates. assert (forall m i, (i + m <= n)%nat ->
    ForallOrdPairs (fun a b => ~ a == b) ((fun i => frob i rho) <$> seq i m)) as H; [|apply H; lia].
  induction m as [|m IH]; intros i Hi; cbn [seq fmap list_fmap]; constructor.
  - apply Forall_fmap, Forall_forall. intros j Hj%elem_of_seq Hc. cbn in Hc. apply (Horbit (j - i)%nat); [lia|].
    symmetry. apply (frob_inj i). rewrite <- frob_add. replace (i + (j - i))%nat with j by lia. done.
  - apply IH. lia.
Qed.

(** A polynomial over two elements with the root [rho] is of the degree of the
    field. *)
Lemma root_degree p : p <> 0 -> ev p rho == 0 -> (n <= N.to_nat (N.log2 p))%nat.
Proof.
  intros Hp H. destruct (decide (n <= N.to_nat (N.log2 p))%nat) as [|Hlt]; [done|]. exfalso. apply one_not_zero.
  assert (Forall (fun c => c == 0) (digits p)) as Hz.
  { apply (roots_bound conjugates); [exact conjugates_distinct| |].
    - rewrite length_digits by done. unfold conjugates. rewrite length_fmap, length_seq. lia.
    - unfold conjugates. apply Forall_fmap, Forall_forall. intros i _. cbn. rewrite eval_digits, ev_frob.
      apply (frob_inj 0). cbn. assert (forall k a, a == 0 -> frob k a == 0) as Hk; [|by apply Hk].
      induction k as [|k IH]; intros a Ha; [done|]. rewrite frob_S, (IH a Ha). done. }
  assert (1 ∈ digits p) as Hin; [|rewrite Forall_forall in Hz; by apply Hz].
  by apply digits_one.
Qed.

Lemma conjugates_squared : Forall2 cong (square <$> product conjugates) (product conjugates).
Proof.
  rewrite product_square. unfold conjugates. pose proof log2_d as Hd.
  assert (exists m, n = S m) as [m En] by (exists (pred n); rewrite Hn in Hd; lia). rewrite En.
  rewrite (product_perm ((fun i => frob i rho) <$> seq 0 (S m)) ((fun i => frob i rho) <$> (seq 1 m ++ [0%nat]))).
  2: { apply fmap_Permutation. cbn [seq]. apply Permutation_cons_append. }
  replace (seq 0 (S m)) with (seq 0 m ++ [m]) by (rewrite seq_S; done).
  rewrite !fmap_app. cbn [fmap list_fmap]. apply product_cong; [|by repeat constructor].
  apply Forall2_app.
  - rewrite <- list_fmap_compose, <- (fmap_S_seq 0 m), <- list_fmap_compose. apply Forall2_fmap_2.
    apply Forall_Forall2_diag, Forall_forall. intros i _. done.
  - constructor; [|done]. rewrite <- frob_S, <- En. apply frob_n.
Qed.

(** The product over the conjugates has coefficients 0 and 1, and is
    irreducible. *)
Lemma conjugates_irreducible cs :
  Forall2 cong cs (product conjugates) -> Forall (fun c => less c d) cs ->
  Forall is_bit cs /\ length cs = S n /\ last cs = Some 1 /\ irreducible (undigits cs).
Proof.
  intros Hcs Hl. assert (Forall is_bit cs) as Hbits.
  { pose proof conjugates_squared as Hsq. apply Forall_lookup. intros i c Hc. apply square_fixed.
    - by eapply Forall_lookup_1 in Hl.
    - destruct (Forall2_lookup_l _ _ _ _ _ Hcs Hc) as (x & Hx & Hcx).
      assert ((square <$> product conjugates) !! i = Some (square x)) as Hx2 by (by rewrite list_lookup_fmap, Hx).
      destruct (Forall2_lookup_l _ _ _ _ _ Hsq Hx2) as (y & Hy & Hxy). rewrite Hx in Hy. injection Hy as <-.
      by rewrite Hcx. }
  destruct (product_shape conjugates) as [Plen Plast]. unfold conjugates in Plen. rewrite length_fmap, length_seq in Plen. fold conjugates in Plen.
  assert (length cs = S n) as Hlen by (rewrite <- Plen; by eapply Forall2_length).
  assert (last cs = Some 1) as Hlast.
  { rewrite last_lookup in *. rewrite Plen in Plast. rewrite Hlen. cbn [pred] in *.
    destruct (Forall2_lookup_r _ _ _ _ _ Hcs Plast) as (c & Hc & Hc1). rewrite Hc. f_equal.
    apply (cong_less _ _ Hc1); [by eapply Forall_lookup_1 in Hl|apply less_bit; by right]. }
  split; [done|]. split; [done|]. split; [done|].
  destruct (log2_undigits cs Hbits Hlast) as [H0 Hlog]. rewrite Hlen in Hlog. set (p := undigits cs) in *.
  pose proof log2_d as Hd. rewrite Hn in Hd.
  assert (ev p rho == 0) as Hroot.
  { unfold p. rewrite ev_undigits by done. transitivity (eval (product conjugates) rho).
    - clear -Hcs. induction Hcs as [|x y l l' H _ IH]; cbn; [done|]. by rewrite H, IH.
    - unfold conjugates. assert (n = S (pred n)) as -> by lia. cbn [seq fmap list_fmap]. rewrite (eval_product_root (frob 0 rho)). done. }
  split.
  - assert (N.log2 p <> 0) by lia. destruct (N.lt_ge_cases 1 p) as [|Hge]; [done|].
    assert (p = 1) as E by lia. rewrite E in *. done.
  - assert (forall a b, clmul a b = p -> ev a rho == 0 -> b = 1) as Hone.
    { intros a b E Ha. assert (a <> 0 /\ b <> 0) as [Ha0 Hb0].
      { split; intros ->; [done|]. by rewrite clmul_0_r in E. }
      destruct (clmul_degree a b Ha0 Hb0) as [_ Hdeg]. rewrite E in Hdeg. pose proof (root_degree a Ha0 Ha).
      assert (N.log2 b = 0) as Hb by lia. apply N.log2_null in Hb. lia. }
    intros a b E. rewrite <- E, ev_clmul in Hroot. apply domain in Hroot as [Ha|Hb].
    + right. by apply (Hone a b).
    + left. apply (Hone b a); [by rewrite clmul_comm|done].
Qed.
End Field.
