(* ===== verification/ThashPoly.v ===== *)
(** * Random polynomials ([dpdk/lib/hash/rte_thash_gf2_poly_math.c])

    The shift registers of [Thash] need irreducible polynomials over the field
    of two elements.  For small degrees they come from a table; for the others
    one is calculated as the product over a random element of a field and its
    conjugates.  A polynomial [poly] of [degree] is without its highest
    coefficient.

    Random numbers are the results of [rte_rand], in order.  The degrees are
    those of [rte_thash_init_ctx], up to 16: above, [1 << i] in [gf2_mul] is
    not a shift of an [int] any more. *)

From S2P Require Import Prelude Toeplitz.

Module ThashPoly.
Import Toeplitz.

Definition irreducible_poly_table : list (list Z) :=
  [ [0; 0; 0]; [0x1; 0x1; 0x1]; [0x3; 0x3; 0x3]; [0x3; 0x5; 0x3]; [0x3; 0x9; 0x3]; [0x5; 0xf; 0x17];
    [0x3; 0x27; 0x1b] ].

(** From degree 7 on. *)
Definition default_irreducible_poly : list Z :=
  [ 0x3; 0x1b; 0x3; 0x9; 0x5; 0x9; 0x1b; 0x33; 0x3; 0x2b; 0x9; 0x9; 0x27; 0x9; 0x5; 0x3; 0x21; 0x1b; 0x9; 0x1b;
    0x27; 0x3; 0x5; 0x3; 0x9; 0x8d ].

(** The small divisors of [2 ^ degree - 1]. *)
Definition divisors : list (list Z) :=
  [ [];
    [3; 5; 15; 17; 51; 85];
    [7; 73];
    [3; 11; 31; 33; 93; 341];
    [23; 89];
    [3; 5; 7; 9; 13; 15; 21; 35; 39; 45; 63; 65; 91; 105; 117; 195; 273; 315; 455];
    [];
    [3; 43; 127; 129; 381];
    [7; 31; 151; 217];
    [3; 5; 15; 17; 51; 85; 255; 257];
    [];
    [3; 7; 9; 19; 21; 27; 57; 63; 73; 133; 171; 189; 219; 399];
    [];
    [3; 5; 11; 15; 25; 31; 33; 41; 55; 75; 93; 123; 155; 165; 205; 275; 341; 451; 465];
    [7; 49; 127; 337];
    [3; 23; 69; 89; 267];
    [47];
    [3; 5; 7; 9; 13; 15; 17; 21; 35; 39; 45; 51; 63; 65; 85; 91; 105; 117; 119; 153; 195; 221; 241; 255; 273; 315;
     357; 455];
    [31];
    [3];
    [7; 73];
    [3; 5; 15; 29; 43; 87; 113; 127; 129; 145; 215; 339; 381; 435];
    [233];
    [3; 7; 9; 11; 21; 31; 33; 63; 77; 93; 99; 151; 217; 231; 279; 331; 341; 453];
    [];
    [3; 5; 15; 17; 51; 85; 255; 257] ].

(** ** Multiplication *)

(** [for (; b; b &= (b - 1))]: a word has 32 bits at most. *)
Fixpoint mul_loop (k : nat) (a b product : Z) : Z :=
  match k with
  | O => product
  | S k =>
      if b =? 0 then product
      else mul_loop k a (Z.land b (b - 1)) (Z.lxor product (u64 (Z.shiftl a (rte_bsf32 b))))
  end.

(** [for (int i = degree * 2 - 1; i >= degree; i--)], [k] rounds; [1 << i] is
    an [int]. *)
Fixpoint reduce_loop (k : nat) (degree i r_poly product : Z) : Z :=
  match k with
  | O => product
  | S k =>
      let product :=
        if negb (Z.land product (s32 (Z.shiftl 1 i)) =? 0) then Z.lxor product (u64 (Z.shiftl r_poly (i - degree)))
        else product in
      reduce_loop k degree (i - 1) r_poly product
  end.

Definition gf2_mul (a b r degree : Z) : Z :=
  let product := mul_loop 32 a b 0 in
  let r_poly := Z.lor r (Z.shiftl 1 degree) in
  u32 (reduce_loop (Z.to_nat degree) degree (degree * 2 - 1) r_poly product).

(** [for (i = 0; i < 32 - rte_clz32(pow); i++)], [k] rounds. *)
Fixpoint pow_loop (k : nat) (i a pow result r degree : Z) : Z :=
  match k with
  | O => result
  | S k =>
      let result := if Z.testbit pow i then gf2_mul result a r degree else result in
      pow_loop k (i + 1) (gf2_mul a a r degree) pow result r degree
  end.

(** [pow] is not 0. *)
Definition gf2_pow (a pow r degree : Z) : Z :=
  pow_loop (Z.to_nat (Z.log2 pow + 1)) 0 a pow 1 r degree.

(** ** A random polynomial *)

Definition ROOT_POLY_MSK : Z := 0x10116.

Definition rte_popcount32 (v : Z) : Z := Z.of_nat (length (filter (fun j => Z.testbit v j = true) (seqZ 0 32))).

(** [do ... while ((rnd == 0) || (rnd == 1))]. *)
Fixpoint rand_element (mask : Z) (rnd : list Z) : res (Z * list Z) :=
  match rnd with
  | [] => NoFuel
  | x :: rnd =>
      let v := Z.land x mask in
      if (v =? 0) || (v =? 1) then rand_element mask rnd else Ok (v, rnd)
  end.

(** [for (i = 1; i < poly_degree; i++)], [k] rounds: [roots] from [i] on, and
    [short_orbit]. *)
Fixpoint roots_loop (k : nat) (root0 prev r degree : Z) (short_orbit : bool) : list Z * bool :=
  match k with
  | O => ([], short_orbit)
  | S k =>
      let root := gf2_pow prev 2 r degree in
      let '(roots, short_orbit) := roots_loop k root0 root r degree (short_orbit || (root =? root0)) in
      (root :: roots, short_orbit)
  end.

(** [do ... while (short_orbit)]: the roots, or [None] for a return with the
    default polynomial.  A round takes at least one random number. *)
Fixpoint choose_roots (fuel : nat) (r degree : Z) (rnd : list Z) : res (option (list Z) * list Z) :=
  match fuel with
  | O => NoFuel
  | S fuel =>
      let* (v, rnd) := rand_element (Z.shiftl 1 degree - 1) rnd in
      if (rte_popcount32 v =? 1) && negb (Z.land v ROOT_POLY_MSK =? 0) then Ok (None, rnd)
      else
        let '(roots, short_orbit) := roots_loop (Z.to_nat (degree - 1)) v v r degree false in
        if short_orbit then choose_roots fuel r degree rnd else Ok (Some (v :: roots), rnd)
  end.

(** [for (j = i; j >= 0; j--)]: [poly_coefficients[j + 1] = poly_coefficients[j]],
    [k] rounds from [j = k - 1] on. *)
Fixpoint shift_loop (k : nat) (c : list Z) : res (list Z) :=
  match k with
  | O => Ok c
  | S k =>
      let* x := array_get c (Z.of_nat k) in
      let* c := array_set c (Z.of_nat k + 1) x in
      shift_loop k c
  end.

(** [for (j = 0; j <= i; j++)], [k] rounds. *)
Fixpoint root_loop (k : nat) (j : Z) (c : list Z) (root r degree : Z) : res (list Z) :=
  match k with
  | O => Ok c
  | S k =>
      let* x := array_get c j in
      let* y := array_get c (j + 1) in
      let* c := array_set c j (Z.lxor x (gf2_mul y root r degree)) in
      root_loop k (j + 1) c root r degree
  end.

(** [for (i = 0; i < poly_degree; i++)] over the [roots] from [i] on. *)
Fixpoint coefficients (i : nat) (roots c : list Z) (r degree : Z) : res (list Z) :=
  match roots with
  | [] => Ok c
  | root :: roots =>
      let* c := shift_loop (S i) c in
      let* c := array_set c 0 0 in
      let* c := root_loop (S i) 0 c root r degree in
      coefficients (S i) roots c r degree
  end.

(** The last loop: [ret_poly], without the highest coefficient. *)
Definition poly_of (c : list Z) (degree : Z) : Z :=
  foldl (fun ret i => if negb (default 0 (c !! Z.to_nat i) =? 0) then Z.lor ret (Z.shiftl 1 i) else ret) 0 (seqZ 0 degree).

Definition __thash_get_rand_poly (poly_degree : Z) (rnd : list Z) : res (Z * list Z) :=
  if poly_degree <? 7 then
    match rnd with
    | [] => NoFuel
    | x :: rnd =>
        let* row := array_get irreducible_poly_table poly_degree in
        let* p := array_get row (x mod 3) in
        Ok (p, rnd)
    end
  else
    let* r := array_get default_irreducible_poly (poly_degree - 7) in
    let* (o, rnd) := choose_roots (S (length rnd)) r poly_degree rnd in
    match o with
    | None => Ok (r, rnd)
    | Some roots =>
        let* c := coefficients 0 roots (1 :: replicate (Z.to_nat poly_degree) 0) r poly_degree in
        Ok (poly_of c poly_degree, rnd)
    end.

(** Whether the order is one of the small divisors. *)
Definition thash_test_poly_order (poly degree : Z) : bool :=
  if degree <? 7 then false
  else
    match divisors !! Z.to_nat (degree - 7) with
    | Some div_arr => existsb (fun x => gf2_pow 0x2 x poly degree =? 1) div_arr
    | None => false
    end.

(** [do ... while (thash_test_poly_order(...))]. *)
Fixpoint rand_poly_loop (fuel : nat) (poly_degree : Z) (rnd : list Z) : res (Z * list Z) :=
  match fuel with
  | O => NoFuel
  | S fuel =>
      let* (ret_poly, rnd) := __thash_get_rand_poly poly_degree rnd in
      if thash_test_poly_order ret_poly poly_degree then rand_poly_loop fuel poly_degree rnd else Ok (ret_poly, rnd)
  end.

Definition thash_get_rand_poly (poly_degree : Z) (rnd : list Z) : res (Z * list Z) :=
  if 32 <? poly_degree then Ok (0, rnd) else rand_poly_loop (S (length rnd)) poly_degree rnd.
End ThashPoly.
