(* ===== verification/ThashPolyProofs.v ===== *)
(** * Proofs about the random polynomials

    Every polynomial [thash_get_rand_poly] comes up with is irreducible: those
    of the tables by trial division, the calculated ones by the theory of
    [Gf2Field]. *)

From Stdlib Require Import NArith Permutation Ring.
From S2P Require Import Prelude Toeplitz ToeplitzProofs Gf2 Gf2Field ThashPoly.

Import Toeplitz ThashPoly.

Add Ring gf2_poly : gf2_ring (morphism gf2_morph, constants [bit_const]).

(** ** Words and polynomials *)

Lemma to_N_lxor a b : 0 <= a -> 0 <= b -> Z.to_N (Z.lxor a b) = N.lxor (Z.to_N a) (Z.to_N b).
Proof. destruct a as [|p|p], b as [|q|q]; intros; try lia; try done. apply N2Z.id. Qed.

Lemma to_N_testbit a i : 0 <= a -> N.testbit (Z.to_N a) i = Z.testbit a (Z.of_N i).
Proof. intros Ha. rewrite <- (Z2N.id a) at 2 by done. by rewrite Z.testbit_of_N. Qed.

Lemma to_N_shiftl a i : 0 <= a -> 0 <= i -> Z.to_N (Z.shiftl a i) = N.shiftl (Z.to_N a) (Z.to_N i).
Proof. intros Ha Hi. by rewrite Z.shiftl_mul_pow2, N.shiftl_mul_pow2, Z2N.inj_mul, Z2N.inj_pow by (try apply Z.pow_nonneg; lia). Qed.

Lemma to_N_pow i : 0 <= i -> Z.to_N (2 ^ i) = (2 ^ Z.to_N i)%N.
Proof. intros Hi. by rewrite Z2N.inj_pow by lia. Qed.

Lemma to_N_lt a n : 0 <= a -> 0 <= n -> (a < 2 ^ n <-> (Z.to_N a < 2 ^ Z.to_N n)%N).
Proof. intros Ha Hn. rewrite <- to_N_pow by done. pose proof (Z.pow_nonneg 2 n). lia. Qed.

(** Without its lowest bit. *)
Lemma low_bit_split v : 0 < v < 2 ^ 32 -> Z.lxor (Z.land v (v - 1)) (Z.shiftl 1 (rte_bsf32 v)) = v.
Proof.
  intros Hv. destruct (odd_part v) as (i & q & Hi & Hq & E); [lia|].
  assert (rte_bsf32 v = i) as -> by (rewrite E; by apply bsf_odd_part).
  apply Z.bits_inj'. intros j Hj. rewrite Z.lxor_spec, Z.land_spec, Z.shiftl_1_l, Z.pow2_bits_eqb by done.
  rewrite E, pred_testbit by done. destruct (Z.eqb_spec i j) as [<-|Hne].
  - destruct (Z.ltb_spec i i); [lia|]. rewrite Z.eqb_refl, low_testbit, Z.eqb_refl by lia. done.
  - destruct (Z.ltb_spec j i).
    + rewrite low_testbit by lia. by destruct (Z.eqb_spec j i).
    + destruct (Z.eqb_spec j i); [lia|]. by destruct (Z.testbit _ j).
Qed.

(** ** Multiplication *)

Lemma mul_loop_spec k a b product :
  0 <= a < 2 ^ 32 -> 0 <= b < 2 ^ 32 -> 0 <= product -> (length (set_bits b) <= k)%nat ->
  0 <= mul_loop k a b product /\ Z.to_N (mul_loop k a b product) = N.lxor (Z.to_N product) (clmul (Z.to_N b) (Z.to_N a)).
Proof.
  intros Ha. revert b product. induction k as [|k IH]; intros b product Hb Hp Hk; cbn [mul_loop].
  - assert (b = 0) as -> by (apply set_bits_nil; [done|]; destruct (set_bits b); [done|cbn in Hk; lia]). cbn. by rewrite N.lxor_0_r.
  - destruct (Z.eqb_spec b 0) as [->|Hne]; [cbn; by rewrite N.lxor_0_r|].
    destruct (set_bits_step b) as (Hperm & Hr & Hbsf); [lia|]. apply Permutation_length in Hperm. cbn in Hperm.
    assert (0 <= Z.shiftl a (rte_bsf32 b) < 2 ^ 64) as Hs.
    { rewrite Z.shiftl_mul_pow2 by lia. assert (2 ^ rte_bsf32 b <= 2 ^ 31) by (apply Z.pow_le_mono_r; lia).
      pose proof (Z.pow_pos_nonneg 2 (rte_bsf32 b)). nia. }
    rewrite (wrapu_small 64) by done. assert (0 <= Z.lxor product (Z.shiftl a (rte_bsf32 b))) as Hx by (apply Z.lxor_nonneg; lia).
    destruct (IH (Z.land b (b - 1)) (Z.lxor product (Z.shiftl a (rte_bsf32 b))) Hr Hx) as [H0 ->]; [lia|]. split; [done|].
    rewrite to_N_lxor, to_N_shiftl, shiftl_clmul by lia.
    pose proof (f_equal Z.to_N (low_bit_split b ltac:(lia))) as E.
    rewrite to_N_lxor, to_N_shiftl in E by (try apply Z.shiftl_nonneg; lia). rewrite <- E. change (Z.to_N 1) with 1%N. ring.
Qed.

Lemma land_pow2 p i : 0 <= i -> (Z.land p (2 ^ i) =? 0) = negb (Z.testbit p i).
Proof.
  intros Hi. assert (Z.land p (2 ^ i) = if Z.testbit p i then 2 ^ i else 0) as ->.
  { apply Z.bits_inj'. intros j Hj. rewrite Z.land_spec, Z.pow2_bits_eqb by done.
    destruct (Z.eqb_spec i j) as [<-|]; destruct (Z.testbit p i) eqn:E; rewrite ?Z.pow2_bits_eqb, ?Z.bits_0, ?E, ?andb_false_r by done;
      try done; by rewrite ?Z.eqb_refl; try (symmetry; apply Z.eqb_neq). }
  pose proof (Z.pow_pos_nonneg 2 i). destruct (Z.testbit p i); [|done]. apply Z.eqb_neq. lia.
Qed.

(** The test of bit [i] with [1 << i], of 31 bits at most. *)
Lemma int_bit p i : 0 <= p < 2 ^ 31 -> 0 <= i <= 31 -> negb (Z.land p (s32 (Z.shiftl 1 i)) =? 0) = Z.testbit p i.
Proof.
  intros Hp Hi. rewrite Z.shiftl_1_l. destruct (decide (i = 31)) as [->|].
  - change (s32 (2 ^ 31)) with (- 2 ^ 31). assert (Z.land p (- 2 ^ 31) = 0) as ->.
    { replace (- 2 ^ 31) with (Z.lnot (Z.ones 31)) by done. apply Z.bits_inj'. intros j Hj. rewrite Z.land_spec, Z.lnot_spec, Z.bits_0 by done.
      destruct (Z.ltb_spec j 31); [rewrite Z.ones_spec_low by lia; by rewrite andb_false_r|].
      rewrite (Z.bits_above_log2 p); [done|lia|]. destruct (decide (p = 0)) as [->|]; [cbn; lia|].
      apply Z.lt_le_trans with 31; [apply Z.log2_lt_pow2; lia|done]. }
    symmetry. destruct (decide (p = 0)) as [->|]; [done|]. apply Z.bits_above_log2; [lia|]. apply Z.log2_lt_pow2; lia.
  - assert (2 ^ i <= 2 ^ 30) by (apply Z.pow_le_mono_r; lia). pose proof (Z.pow_pos_nonneg 2 i).
    rewrite (wraps_small 32) by lia. by rewrite land_pow2, negb_involutive by lia.
Qed.

(** The loop is the division with remainder. *)
Lemma reduce_loop_spec k degree d product :
  0 <= degree <= 16 -> Z.of_nat k <= degree -> 2 ^ degree <= d < 2 ^ (degree + 1) ->
  0 <= product < 2 ^ 31 -> product < 2 ^ (degree + Z.of_nat k) ->
  let p := reduce_loop k degree (degree + Z.of_nat k - 1) d product in
  0 <= p /\ Z.to_N p = rem_loop k (Z.to_N product) (Z.to_N d) (N.log2 (Z.to_N d)).
Proof.
  intros Hd Hk Hr. pose proof (Z.pow_pos_nonneg 2 degree ltac:(lia) ltac:(lia)).
  assert (N.log2 (Z.to_N d) = Z.to_N degree) as El.
  { apply N.log2_unique; [lia|]. rewrite <- N.add_1_r. change 1%N with (Z.to_N 1). rewrite <- Z2N.inj_add, <- !to_N_pow by lia. lia. }
  revert Hk product. induction k as [|k IH]; intros Hk product Hp31 Hp; cbn [reduce_loop rem_loop]; [split; [lia|done]|].
  replace (degree + Z.of_nat (S k) - 1) with (degree + Z.of_nat k) by lia.
  rewrite int_bit by lia. replace (degree + Z.of_nat k - degree) with (Z.of_nat k) by lia.
  destruct (rem_step k (Z.to_N product) (Z.to_N d)) as [Hlt _]; [lia| |].
  { rewrite El. replace (Z.to_N degree + N.of_nat (S k))%N with (Z.to_N (degree + Z.of_nat (S k))) by lia. apply to_N_lt; lia. }
  rewrite El, to_N_testbit in * by lia. replace (Z.of_N (Z.to_N degree + N.of_nat k)) with (degree + Z.of_nat k) in * by lia.
  set (q := if Z.testbit product _ then Z.lxor product _ else product).
  assert (0 <= q /\ Z.to_N q = if Z.testbit product (degree + Z.of_nat k) then
    N.lxor (Z.to_N product) (N.shiftl (Z.to_N d) (N.of_nat k)) else Z.to_N product) as [Hq Eq].
  { unfold q. destruct (Z.testbit product _); [|split; [lia|done]].
    assert (0 <= Z.shiftl d (Z.of_nat k)) by (apply Z.shiftl_nonneg; lia).
    rewrite (wrapu_small 64).
    - split; [apply Z.lxor_nonneg; lia|]. rewrite to_N_lxor, to_N_shiftl by lia. do 2 f_equal. lia.
    - split; [done|]. rewrite Z.shiftl_mul_pow2 by lia. apply Z.lt_le_trans with (2 ^ (degree + 1) * 2 ^ Z.of_nat k).
      + pose proof (Z.pow_pos_nonneg 2 (Z.of_nat k)). nia.
      + rewrite <- Z.pow_add_r by lia. apply Z.pow_le_mono_r; lia. }
  rewrite <- Eq in *. replace (Z.to_N degree + N.of_nat k)%N with (Z.to_N (degree + Z.of_nat k)) in Hlt by lia.
  apply to_N_lt in Hlt; [|lia|lia]. apply IH; [lia| |done]. split; [done|].
  destruct (Z.testbit product (degree + Z.of_nat k)) eqn:Eb; unfold q in *; [|lia].
  apply Z.lt_le_trans with (2 ^ (degree + Z.of_nat k)); [done|]. apply Z.pow_le_mono_r; lia.
Qed.

(** ** The field of a polynomial *)

(** The whole polynomial. *)
Definition whole (poly degree : Z) : N := N.lxor (2 ^ Z.to_N degree) (Z.to_N poly).

Definition element (degree a : Z) : Prop := 0 <= a < 2 ^ degree.

Lemma whole_or poly degree :
  0 <= degree -> element degree poly ->
  Z.to_N (Z.lor poly (Z.shiftl 1 degree)) = whole poly degree /\
  2 ^ degree <= Z.lor poly (Z.shiftl 1 degree) < 2 ^ (degree + 1).
Proof.
  unfold element. intros Hd Hp. rewrite Z.shiftl_1_l. pose proof (Z.pow_pos_nonneg 2 degree ltac:(lia) Hd).
  assert (Z.land poly (2 ^ degree) = 0) as Hl.
  { apply Z.eqb_eq. rewrite land_pow2 by done. apply negb_true_iff.
    destruct (decide (poly = 0)) as [->|]; [apply Z.bits_0|]. apply Z.bits_above_log2; [lia|]. apply Z.log2_lt_pow2; lia. }
  rewrite <- Z.lxor_lor, <- Z.add_nocarry_lxor by done. split.
  - rewrite Z.add_nocarry_lxor by done. unfold whole. by rewrite to_N_lxor, to_N_pow, N.lxor_comm by lia.
  - rewrite Z.pow_add_r by lia. lia.
Qed.

(** ** The number of a list of coefficients *)

Lemma undigits_testbit cs (i : nat) :
  Forall is_bit cs -> N.testbit (undigits cs) (N.of_nat i) = (default 0 (cs !! i) =? 1)%N.
Proof.
  intros Hb. revert i. induction Hb as [|c cs Hc _ IH]; intros i; [by rewrite N.bits_0|]. cbn [undigits].
  assert (N.lxor c (N.double (undigits cs)) = 2 * undigits cs + c)%N as ->; [destruct Hc as [->| ->], (undigits cs); done|].
  destruct i as [|i].
  - destruct Hc as [->| ->]; [rewrite N.add_0_r; apply N.testbit_even_0|apply N.testbit_odd_0].
  - rewrite Nat2N.inj_succ. cbn [lookup list_lookup]. rewrite <- IH.
    destruct Hc as [->| ->]; [rewrite N.add_0_r; apply N.testbit_even_succ; lia|apply N.testbit_odd_succ; lia].
Qed.

Lemma poly_of_testbit c degree j :
  0 <= j -> Z.testbit (poly_of c degree) j = (j <? degree) && negb (default 0 (c !! Z.to_nat j) =? 0).
Proof.
  intros Hj. unfold poly_of. assert (forall l acc, Forall (fun i => 0 <= i) l -> Z.testbit
    (foldl (fun ret i => if negb (default 0 (c !! Z.to_nat i) =? 0) then Z.lor ret (Z.shiftl 1 i) else ret) acc l) j =
    Z.testbit acc j || (bool_decide (j ∈ l) && negb (default 0 (c !! Z.to_nat j) =? 0))) as H.
  { intros l acc Hl. revert acc. induction Hl as [|i l Hi _ IH]; intros acc; cbn [foldl].
    - rewrite bool_decide_false by apply not_elem_of_nil. by rewrite orb_false_r.
    - rewrite IH. destruct (decide (j = i)) as [->|Hne].
      + rewrite (bool_decide_true (i ∈ i :: l)) by left. destruct (default 0 (c !! Z.to_nat i) =? 0); cbn [negb andb]; [by rewrite !andb_false_r|].
        rewrite Z.lor_spec, Z.shiftl_1_l, Z.pow2_bits_true by done. by rewrite !orb_true_r.
      + rewrite (bool_decide_ext (j ∈ i :: l) (j ∈ l)) by (rewrite elem_of_cons; naive_solver). f_equal.
        destruct (default 0 (c !! Z.to_nat i) =? 0); cbn [negb]; [done|].
        rewrite Z.lor_spec, Z.shiftl_1_l, Z.pow2_bits_false by lia. by rewrite orb_false_r. }
  rewrite H, Z.bits_0. cbn [orb]. { f_equal. destruct (Z.ltb_spec j degree); [apply bool_decide_true|apply bool_decide_false]; rewrite elem_of_seqZ; lia. }
  apply Forall_forall. intros i Hi%elem_of_seqZ. lia.
Qed.

Lemma poly_of_spec c degree :
  1 <= degree -> Forall is_bit (Z.to_N <$> c) -> length (Z.to_N <$> c) = S (Z.to_nat degree) -> last (Z.to_N <$> c) = Some 1%N ->
  Forall (fun x => 0 <= x) c ->
  element degree (poly_of c degree) /\ whole (poly_of c degree) degree = undigits (Z.to_N <$> c).
Proof.
  intros Hd Hb Hlen Hlast Hpos. assert (0 <= poly_of c degree) as H0.
  { apply Z.bits_iff_nonneg_ex. exists degree. intros j Hj. rewrite poly_of_testbit by lia. destruct (Z.ltb_spec j degree); [lia|done]. }
  assert (poly_of c degree < 2 ^ degree) as Hlt.
  { destruct (decide (poly_of c degree = 0)) as [->|Hne]; [apply Z.pow_pos_nonneg; lia|].
    apply Z.log2_lt_pow2; [lia|]. destruct (decide (Z.log2 (poly_of c degree) < degree)) as [|Hge]; [done|].
    pose proof (Z.bit_log2 (poly_of c degree) ltac:(lia)) as Hbit. rewrite poly_of_testbit in Hbit by apply Z.log2_nonneg.
    destruct (Z.ltb_spec (Z.log2 (poly_of c degree)) degree); [lia|done]. }
  split; [done|]. apply N.bits_inj. intros i. rewrite <- (N2Nat.id i) at 2. rewrite undigits_testbit by done.
  unfold whole. rewrite N.lxor_spec, N.pow2_bits_eqb, to_N_testbit, poly_of_testbit by lia.
  replace (Z.to_nat (Z.of_N i)) with (N.to_nat i) by lia. rewrite list_lookup_fmap.
  rewrite last_lookup, Hlen in Hlast. cbn [pred] in Hlast. rewrite list_lookup_fmap in Hlast.
  destruct (N.eqb_spec (Z.to_N degree) i) as [<-|Hne].
  - destruct (Z.ltb_spec (Z.of_N (Z.to_N degree)) degree); [lia|]. cbn [andb xorb].
    replace (N.to_nat (Z.to_N degree)) with (Z.to_nat degree) by lia. by rewrite Hlast.
  - rewrite xorb_false_l. destruct (Z.ltb_spec (Z.of_N i) degree).
    + destruct (lookup_lt_is_Some_2 c (N.to_nat i)) as [x Hx]; [rewrite length_fmap in Hlen; lia|]. rewrite Hx. cbn.
      pose proof (Forall_lookup_1 _ _ _ _ Hpos Hx) as Hx0. cbn in Hx0. rewrite Forall_fmap in Hb.
      pose proof (Forall_lookup_1 _ _ _ _ Hb Hx) as Hxb. unfold is_bit in Hxb. cbn in Hxb.
      assert (x = 0 \/ x = 1) as [->| ->] by lia; done.
    + cbn [andb]. rewrite (lookup_ge_None_2 c) by (rewrite length_fmap in Hlen; lia). done.
Qed.

Section Element.
Variables r degree : Z.
Hypothesis Hdeg : 1 <= degree <= 16.
Hypothesis Hr : element degree r.

Let d := whole r degree.

Lemma log2_whole : d <> 0%N /\ N.log2 d = Z.to_N degree.
Proof.
  unfold d. destruct (whole_or r degree ltac:(lia) Hr) as [<- Hb]. pose proof (Z.pow_pos_nonneg 2 degree ltac:(lia) ltac:(lia)).
  split; [lia|]. apply N.log2_unique; [lia|].
  rewrite <- N.add_1_r. change 1%N with (Z.to_N 1). rewrite <- Z2N.inj_add, <- !to_N_pow by lia. lia.
Qed.

Lemma element_less a : 0 <= a -> (element degree a <-> less (Z.to_N a) d).
Proof.
  intros Ha. destruct log2_whole as [_ Hl]. rewrite (less_pow _ d _ Hl) by lia. unfold element.
  rewrite <- to_N_lt by lia. lia.
Qed.

(** [gf2_mul] is the multiplication of the field. *)
Lemma gf2_mul_spec a b :
  element degree a -> element degree b ->
  element degree (gf2_mul a b r degree) /\
  cong d (Z.to_N (gf2_mul a b r degree)) (clmul (Z.to_N a) (Z.to_N b)).
Proof.
  intros Ha Hb. unfold element in *. assert (2 ^ degree <= 2 ^ 16) by (apply Z.pow_le_mono_r; lia).
  destruct (whole_or r degree ltac:(lia) Hr) as [Ew Hw]. fold d in Ew. destruct log2_whole as [Hd0 Hl].
  destruct (mul_loop_spec 32 a b 0) as [Hp Ep]; [lia|lia|done|apply set_bits_length|]. rewrite N.lxor_0_l in Ep.
  unfold gf2_mul. set (product := mul_loop 32 a b 0) in *.
  assert (product < 2 ^ (2 * degree - 1)) as Hlt.
  { apply to_N_lt; [done|lia|]. rewrite Ep. destruct (decide (clmul (Z.to_N b) (Z.to_N a) = 0%N)) as [->|Hne].
    - apply N.neq_0_lt_0, N.pow_nonzero. done.
    - assert (Z.to_N b <> 0%N /\ Z.to_N a <> 0%N) as [Hb0 Ha0].
      { split; intros E; rewrite E in Hne; [done|]. by rewrite clmul_0_r in Hne. }
      destruct (clmul_degree _ _ Hb0 Ha0) as [_ E]. apply N.log2_lt_pow2; [lia|]. rewrite E.
      assert (N.log2 (Z.to_N b) < Z.to_N degree)%N by (apply N.log2_lt_pow2; [lia|]; apply to_N_lt; lia).
      assert (N.log2 (Z.to_N a) < Z.to_N degree)%N by (apply N.log2_lt_pow2; [lia|]; apply to_N_lt; lia). lia. }
  destruct (reduce_loop_spec (Z.to_nat degree) degree (Z.lor r (Z.shiftl 1 degree)) product) as [H0 E]; [lia|lia|done| | |].
  { split; [done|]. apply Z.lt_le_trans with (2 ^ (2 * degree - 1)); [done|]. apply Z.pow_le_mono_r; lia. }
  { apply Z.lt_le_trans with (2 ^ (2 * degree - 1)); [done|]. apply Z.pow_le_mono_r; lia. }
  replace (degree + Z.of_nat (Z.to_nat degree) - 1) with (degree * 2 - 1) in * by lia. set (p := reduce_loop _ _ _ _ _) in *.
  rewrite Ew in E. destruct (rem_loop_spec (Z.to_nat degree) (Z.to_N product) d Hd0) as [Hrem Hdiv].
  { rewrite Hl. replace (Z.to_N degree + N.of_nat (Z.to_nat degree))%N with (Z.to_N (2 * degree)) by lia.
    apply to_N_lt; [done|lia|]. apply Z.lt_le_trans with (2 ^ (2 * degree - 1)); [done|]. apply Z.pow_le_mono_r; lia. }
  rewrite <- E, Hl in *. apply to_N_lt in Hrem; [|done|lia]. rewrite (wrapu_small 32) by lia. split; [done|].
  unfold cong. by rewrite N.lxor_comm, (clmul_comm (Z.to_N a)), <- Ep.
Qed.

Lemma element_1 : element degree 1.
Proof. unfold element. assert (2 ^ 1 <= 2 ^ degree) by (apply Z.pow_le_mono_r; lia). lia. Qed.

Hypothesis Hirr : irreducible d.

#[local] Existing Instance cong_equiv.
#[local] Existing Instance lxor_cong.
#[local] Existing Instance clmul_cong.
#[local] Existing Instance square_cong.

(** ** Roots *)

Lemma gf2_square a :
  element degree a ->
  element degree (gf2_pow a 2 r degree) /\ cong d (Z.to_N (gf2_pow a 2 r degree)) (square (Z.to_N a)).
Proof.
  intros Ha. change (gf2_pow a 2 r degree) with (gf2_mul 1 (gf2_mul a a r degree) r degree).
  destruct (gf2_mul_spec a a Ha Ha) as [H1 C1]. destruct (gf2_mul_spec 1 _ element_1 H1) as [H2 C2].
  split; [done|]. rewrite C2, C1. change (clmul (Z.to_N 1)) with (clmul 1). unfold square. by cbn.
Qed.

Lemma frob_cong j a b : cong d a b -> cong d (frob j a) (frob j b).
Proof. induction j as [|j IH]; intros Hab; [done|]. rewrite !frob_S. by rewrite (IH Hab). Qed.

Lemma roots_loop_short k root0 prev short roots :
  roots_loop k root0 prev r degree short = (roots, false) -> short = false.
Proof.
  revert prev short roots. induction k as [|k IH]; intros prev short roots; cbn [roots_loop]; [by intros [= _ ->]|].
  destruct (roots_loop k root0 (gf2_pow prev 2 r degree) r degree _) as [? s] eqn:E. intros [= _ ->].
  apply IH in E. by apply orb_false_iff in E as [-> _].
Qed.

Lemma roots_loop_spec k root0 prev short roots short' :
  element degree prev -> roots_loop k root0 prev r degree short = (roots, short') ->
  Forall (element degree) roots /\ Forall2 (cong d) (Z.to_N <$> roots) ((fun i => frob i (Z.to_N prev)) <$> seq 1 k) /\
  (short' = false -> Forall (fun x => x <> root0) roots).
Proof.
  revert prev short roots short'. induction k as [|k IH]; intros prev short roots short' Hp; cbn [roots_loop].
  - intros [= <- <-]. done.
  - destruct (gf2_square prev Hp) as [Hx Cx]. set (x := gf2_pow prev 2 r degree) in *.
    destruct (roots_loop k root0 x r degree (short || (x =? root0))) as [roots1 short1] eqn:E. intros [= <- <-].
    destruct (IH _ _ _ _ Hx E) as (H1 & H2 & H3). split; [by constructor|]. split.
    + cbn [seq fmap list_fmap]. constructor; [exact Cx|]. etransitivity; [exact H2|].
      rewrite <- (fmap_S_seq 1 k), <- list_fmap_compose. apply Forall2_fmap_2, Forall_Forall2_diag, Forall_forall.
      intros i _. cbn. rewrite (frob_cong i _ _ Cx). unfold frob. by rewrite Nat.iter_swap.
    + intros ->. constructor; [|by apply H3]. intros Ex. apply roots_loop_short in E.
      apply orb_false_iff in E as [_ E]. lia.
Qed.

(** ** Coefficients *)

(** A round of [coefficients] on the coefficients so far. *)
Fixpoint times_root (k root : Z) (c : list Z) : list Z :=
  match c with [] => [k] | x :: c => Z.lxor k (gf2_mul x root r degree) :: times_root x root c end.

Lemma shift_loop_spec c y tl :
  shift_loop (length c) (c ++ y :: tl) = Ok (take 1 (c ++ [y]) ++ c ++ tl).
Proof.
  revert y tl. induction c as [|x c IH] using rev_ind; intros y tl; [done|].
  rewrite length_app. cbn [length]. rewrite Nat.add_1_r. cbn [shift_loop].
  rewrite (array_get_nat _ _ x). 2: { rewrite <- app_assoc, lookup_app_r, Nat.sub_diag by lia. done. }
  cbn [res_bind]. rewrite array_set_lt by (rewrite !length_app; cbn; lia). cbn [res_bind].
  replace (Z.to_nat (Z.of_nat (length c) + 1)) with (length (c ++ [x]) + 0)%nat by (rewrite length_app; cbn; lia).
  rewrite insert_app_r. cbn [insert list_insert]. rewrite <- app_assoc. cbn [app]. rewrite IH. f_equal.
  rewrite <- !app_assoc. by destruct c.
Qed.

Lemma root_loop_spec c pre k root tl :
  root_loop (length c) (Z.of_nat (length pre)) (pre ++ k :: c ++ tl) root r degree = Ok (pre ++ times_root k root c ++ tl).
Proof.
  revert pre k. induction c as [|x c IH]; intros pre k; [done|]. cbn [length root_loop times_root].
  rewrite (array_get_nat _ _ k) by (by rewrite lookup_app_r, Nat.sub_diag by lia). cbn [res_bind].
  replace (Z.of_nat (length pre) + 1) with (Z.of_nat (length pre + 1)) by lia.
  rewrite (array_get_nat _ _ x) by (rewrite lookup_app_r by lia; by replace (length pre + 1 - length pre)%nat with 1%nat by lia).
  cbn [res_bind]. rewrite array_set_lt by (rewrite length_app; cbn; lia). cbn [res_bind].
  rewrite Nat2Z.id, insert_app_r_alt, Nat.sub_diag by lia. cbn [insert list_insert app].
  specialize (IH (pre ++ [Z.lxor k (gf2_mul x root r degree)]) x). rewrite length_app, <- !app_assoc in IH. cbn [length app] in IH.
  exact IH.
Qed.

Lemma times_root_spec k root c k' c' :
  element degree root -> element degree k -> Forall (element degree) c ->
  cong d (Z.to_N k) k' -> Forall2 (cong d) (Z.to_N <$> c) c' ->
  Forall (element degree) (times_root k root c) /\
  Forall2 (cong d) (Z.to_N <$> times_root k root c) (mr k' (Z.to_N root) c').
Proof.
  intros Hroot Hk Hc. revert k k' c' Hk. induction Hc as [|x c Hx Hc IH]; intros k k' c' Hk Ck Cc; cbn [times_root mr].
  - apply Forall2_nil_inv_l in Cc as ->. split; [by constructor|]. by repeat constructor.
  - apply Forall2_cons_inv_l in Cc as (y & l' & Cx & Cc & ->).
    destruct (gf2_mul_spec x root Hx Hroot) as [Hm Cm]. destruct (IH x y l' Hx) as [H1 H2]; [done|done|].
    split; constructor; try done.
    + destruct Hk, Hm. split; [apply Z.lxor_nonneg; lia|]. apply element_less; [apply Z.lxor_nonneg; lia|].
      rewrite to_N_lxor by done. apply less_lxor; by apply element_less.
    + rewrite to_N_lxor by (apply Hk || apply Hm). by rewrite Ck, Cm, (clmul_comm (Z.to_N x)), Cx.
Qed.

Lemma length_times_root k root c : length (times_root k root c) = S (length c).
Proof. revert k. induction c as [|x c IH]; intros k; cbn; [done|]. by rewrite IH. Qed.

Lemma coefficients_spec roots c p :
  Forall (element degree) roots -> Forall (element degree) c -> c <> [] -> Forall2 (cong d) (Z.to_N <$> c) p ->
  exists c', coefficients (pred (length c)) roots (c ++ replicate (length roots) 0) r degree = Ok c' /\
    Forall (element degree) c' /\ Forall2 (cong d) (Z.to_N <$> c') (foldl (fun c a => mr 0 a c) p (Z.to_N <$> roots)).
Proof.
  intros Hroots. revert c p. induction Hroots as [|root roots Hroot _ IH]; intros c p Hc Hne Cc; cbn [coefficients length replicate].
  - exists c. rewrite app_nil_r. done.
  - assert (S (pred (length c)) = length c) as El by (destruct c; [done|cbn; lia]). rewrite El.
    rewrite shift_loop_spec. cbn [res_bind]. destruct c as [|x c]; [done|]. cbn [app take].
    rewrite array_set_lt by (cbn; lia). change (Z.to_nat 0) with 0%nat. cbn [res_bind insert list_insert take app].
    pose proof (root_loop_spec (x :: c) [] 0 root (replicate (length roots) 0)) as Hl. cbn [app length] in Hl. change (Z.of_nat 0) with 0 in Hl. cbn [length].
    match goal with |- context [root_loop _ _ ?l] => change l with (0 :: x :: c ++ replicate (length roots) 0) end.
    rewrite Hl. cbn [res_bind].
    destruct (times_root_spec 0 root (x :: c) 0%N p) as [H1 H2]; try done; [unfold element; pose proof (Z.pow_pos_nonneg 2 degree); lia|].
    specialize (IH (times_root 0 root (x :: c)) _ H1 ltac:(by cbn) H2). rewrite length_times_root in IH. cbn [length pred] in IH |- *.
    exact IH.
Qed.

(** ** The calculated polynomial *)

Hypothesis Hfrob : cong d (frob (Z.to_nat degree) 2) 2.

Lemma calculated_spec v roots :
  element degree v -> roots_loop (Z.to_nat (degree - 1)) v v r degree false = (roots, false) ->
  exists c, coefficients 0 (v :: roots) (1 :: replicate (Z.to_nat degree) 0) r degree = Ok c /\
    element degree (poly_of c degree) /\ irreducible (whole (poly_of c degree) degree).
Proof.
  intros Hv E. destruct (roots_loop_spec _ _ _ _ _ _ Hv E) as (H1 & H2 & H3). specialize (H3 eq_refl).
  pose proof (Forall2_length _ _ _ H2) as Hl. rewrite !length_fmap, length_seq in Hl.
  destruct log2_whole as [_ Hlog].
  destruct (coefficients_spec (v :: roots) [1] [1%N]) as (c & Hc & Ec & Cc); [by constructor| |done|by repeat constructor|].
  { constructor; [apply element_1|done]. }
  cbn [length pred app] in Hc. replace (S (length roots)) with (Z.to_nat degree) in Hc by lia. exists c. split; [done|].
  assert (seq 0 (Z.to_nat degree) = 0%nat :: seq 1 (length roots)) as Eseq.
  { replace (Z.to_nat degree) with (S (length roots)) by lia. done. }
  destruct (conjugates_irreducible d Hirr (Z.to_nat degree) ltac:(lia) Hfrob (Z.to_N v)) with (cs := Z.to_N <$> c) as (Hb & Hlen & Hlast & Hi).
  - intros i Hi Hcong. assert (exists x, roots !! (i - 1)%nat = Some x) as [x Hx] by (apply lookup_lt_is_Some_2; lia).
    assert (((fun i => frob i (Z.to_N v)) <$> seq 1 (Z.to_nat (degree - 1))) !! (i - 1)%nat = Some (frob i (Z.to_N v))) as Hf.
    { rewrite list_lookup_fmap, lookup_seq_lt by lia. cbn [fmap option_fmap option_map]. by replace (1 + (i - 1))%nat with i by lia. }
    assert ((Z.to_N <$> roots) !! (i - 1)%nat = Some (Z.to_N x)) as Hx' by (by rewrite list_lookup_fmap, Hx).
    pose proof (Forall2_lookup_lr _ _ _ _ _ _ H2 Hx' Hf) as Hxf.
    pose proof (Forall_lookup_1 _ _ _ _ H1 Hx) as Hex. apply (Forall_lookup_1 _ _ _ _ H3 Hx).
    apply Z2N.inj; [apply Hex|apply Hv|]. apply (cong_less d); [by rewrite Hxf|apply element_less; [apply Hex|done]|apply element_less; [apply Hv|done]].
  - etransitivity; [exact Cc|]. unfold product, conjugates. apply product_cong; [|by repeat constructor].
    rewrite Eseq. cbn [fmap list_fmap]. constructor; [done|]. replace (length roots) with (Z.to_nat (degree - 1)) by lia. exact H2.
  - apply Forall_fmap. eapply Forall_impl; [exact Ec|]. intros x Hx. cbn. apply element_less; [apply Hx|done].
  - destruct (poly_of_spec c degree) as [Hp ->]; [lia|done|done|done| |done].
    eapply Forall_impl; [exact Ec|]. intros x Hx. apply Hx.
Qed.
End Element.

(** ** The tables *)

(** Squares of squares modulo [d], for the tests. *)
Definition frob_mod (k : nat) (d a : N) : N := Nat.iter k (fun x => gf2_rem (clmul x x) d) a.

Lemma frob_mod_cong k d a : irreducible d -> cong d (frob_mod k d a) (frob k a).
Proof.
  intros Hd. pose proof (cong_equiv d). pose proof (square_cong d). induction k as [|k IH]; [reflexivity|].
  rewrite frob_S. change (frob_mod (S k) d a) with (gf2_rem (square (frob_mod k d a)) d).
  rewrite cong_rem by done. by rewrite IH.
Qed.

Definition poly_ok (degree poly : Z) : bool :=
  (0 <=? poly) && (poly <? 2 ^ degree) && irreducibleb (whole poly degree).

Definition default_ok (degree poly : Z) : bool :=
  poly_ok degree poly && (frob_mod (Z.to_nat degree) (whole poly degree) 2 =? 2)%N.

Lemma poly_ok_spec degree poly : poly_ok degree poly = true -> element degree poly /\ irreducible (whole poly degree).
Proof. unfold poly_ok, element. rewrite !andb_true_iff. intros [[? ?] ?%irreducible_check]. split; [lia|done]. Qed.

Lemma tables_checked :
  forallb (fun p => forallb (poly_ok p.1) p.2) (drop 2 (zip (seqZ 0 7) irreducible_poly_table)) &&
  forallb (fun p => default_ok p.1 p.2) (zip (seqZ 7 10) default_irreducible_poly) = true.
Proof. vm_compute. reflexivity. Qed.

Lemma irreducible_table degree row p :
  2 <= degree < 7 -> array_get irreducible_poly_table degree = Ok row -> p ∈ row ->
  element degree p /\ irreducible (whole p degree).
Proof.
  intros Hd [_ Hrow]%array_get_Ok Hp. apply poly_ok_spec. pose proof tables_checked as [Ht _]%andb_true_iff.
  rewrite forallb_forall in Ht. specialize (Ht (degree, row)). cbn [fst snd] in Ht. rewrite forallb_forall in Ht.
  apply Ht; [|by apply list_elem_of_In]. apply list_elem_of_In, list_elem_of_lookup. exists (Z.to_nat degree - 2)%nat.
  rewrite lookup_drop. replace (2 + (Z.to_nat degree - 2))%nat with (Z.to_nat degree) by lia.
  apply lookup_zip_with_Some. exists degree, row. split; [done|]. split; [|done]. rewrite lookup_seqZ_lt by lia. f_equal. lia.
Qed.

Lemma default_table degree r :
  7 <= degree <= 16 -> array_get default_irreducible_poly (degree - 7) = Ok r ->
  element degree r /\ irreducible (whole r degree) /\ cong (whole r degree) (frob (Z.to_nat degree) 2) 2.
Proof.
  intros Hd [_ Hr]%array_get_Ok. pose proof tables_checked as [_ Ht]%andb_true_iff. rewrite forallb_forall in Ht.
  specialize (Ht (degree, r)). cbn [fst snd] in Ht. unfold default_ok in Ht. rewrite andb_true_iff in Ht.
  destruct Ht as [[He Hi]%poly_ok_spec Hf%N.eqb_eq].
  - apply list_elem_of_In, list_elem_of_lookup. exists (Z.to_nat (degree - 7)).
    apply lookup_zip_with_Some. exists degree, r. split; [done|]. split; [|done]. rewrite lookup_seqZ_lt by lia. f_equal. lia.
  - split; [done|]. split; [done|]. pose proof (frob_mod_cong (Z.to_nat degree) _ 2 Hi) as Hc. rewrite Hf in Hc.
    by apply (@symmetry _ _ (@Equivalence_Symmetric _ _ (cong_equiv _))).
Qed.

(** ** All polynomials *)

(** A polynomial of the degree that is irreducible; or there are not enough
    random numbers. *)
Definition good_poly (degree : Z) (r : res (Z * list Z)) : Prop :=
  match r with
  | Ok (p, _) => element degree p /\ irreducible (whole p degree)
  | NoFuel => True
  | Panic => False
  end.

Lemma rand_element_spec mask rnd :
  match rand_element mask rnd with Ok (v, _) => exists x, v = Z.land x mask | NoFuel => True | Panic => False end.
Proof.
  induction rnd as [|x rnd IH]; [done|]. cbn [rand_element].
  destruct ((Z.land x mask =? 0) || (Z.land x mask =? 1)); [exact IH|by exists x].
Qed.

Lemma choose_roots_spec fuel r degree rnd :
  0 <= degree ->
  match choose_roots fuel r degree rnd with
  | Ok (Some roots, _) => exists v roots', roots = v :: roots' /\ element degree v /\
      roots_loop (Z.to_nat (degree - 1)) v v r degree false = (roots', false)
  | Ok (None, _) | NoFuel => True
  | Panic => False
  end.
Proof.
  intros Hd. revert rnd. induction fuel as [|fuel IH]; intros rnd; [done|]. cbn [choose_roots].
  pose proof (rand_element_spec (Z.shiftl 1 degree - 1) rnd) as Hv. destruct (rand_element _ rnd) as [[v rnd']| |]; [|done|done].
  cbn [res_bind]. destruct Hv as [x ->]. set (v := Z.land x _). destruct (_ && _); [done|].
  destruct (roots_loop _ v v r degree false) as [roots short] eqn:E. destruct short; [apply IH|]. exists v, roots.
  split; [done|]. split; [|done]. unfold element, v. rewrite Z.shiftl_1_l, land_mask by done.
  apply Z.mod_pos_bound, Z.pow_pos_nonneg; lia.
Qed.

Lemma small_poly degree x rnd :
  2 <= degree < 7 ->
  exists p, __thash_get_rand_poly degree (x :: rnd) = Ok (p, rnd) /\ element degree p /\ irreducible (whole p degree).
Proof.
  intros Hd. unfold __thash_get_rand_poly. destruct (Z.ltb_spec degree 7); [|lia].
  destruct (array_get_lt irreducible_poly_table degree) as (row & Hrow & Hlk); [cbn; lia|].
  rewrite Hrow. cbn [res_bind]. assert (length row = 3%nat) as Hl3.
  { assert (Forall (fun l => length l = 3%nat) irreducible_poly_table) as Hall by (repeat constructor).
    by apply (Forall_lookup_1 _ _ _ _ Hall Hlk). }
  destruct (array_get_lt row (x mod 3)) as (p & -> & Hp); [pose proof (Z.mod_pos_bound x 3); lia|]. cbn [res_bind]. exists p.
  split; [done|]. apply (irreducible_table degree row); [lia|done|]. by eapply list_elem_of_lookup_2.
Qed.

(** The polynomial of a round that came to an end. *)
Definition round_poly (r degree : Z) (o : option (list Z)) : res Z :=
  match o with
  | None => Ok r
  | Some roots =>
      let* c := coefficients 0 roots (1 :: replicate (Z.to_nat degree) 0) r degree in
      Ok (poly_of c degree)
  end.

Lemma round_poly_spec r degree fuel rnd o l :
  7 <= degree <= 16 -> array_get default_irreducible_poly (degree - 7) = Ok r -> choose_roots fuel r degree rnd = Ok (o, l) ->
  exists p, round_poly r degree o = Ok p /\ element degree p /\ irreducible (whole p degree).
Proof.
  intros Hd Hr E. destruct (default_table degree r Hd Hr) as (He & Hi & Hf).
  pose proof (choose_roots_spec fuel r degree rnd ltac:(lia)) as Hc. rewrite E in Hc. destruct o as [roots|]; [|by exists r].
  destruct Hc as (v & roots' & -> & Hv & El). cbn [round_poly].
  destruct (calculated_spec r degree ltac:(lia) He Hi Hf v roots' Hv El) as (c & -> & Hp & Hirr). cbn [res_bind]. by eexists.
Qed.

Lemma large_poly degree r rnd :
  7 <= degree -> array_get default_irreducible_poly (degree - 7) = Ok r ->
  __thash_get_rand_poly degree rnd =
    let* (o, l) := choose_roots (S (length rnd)) r degree rnd in let* p := round_poly r degree o in Ok (p, l).
Proof.
  intros Hd Hr. unfold __thash_get_rand_poly. destruct (Z.ltb_spec degree 7); [lia|]. rewrite Hr. cbn [res_bind].
  destruct (choose_roots _ r degree rnd) as [[[roots|] l]| |]; cbn [res_bind round_poly]; try done.
  by destruct (coefficients 0 roots _ r degree).
Qed.

Lemma rand_poly_once degree rnd : 2 <= degree <= 16 -> good_poly degree (__thash_get_rand_poly degree rnd).
Proof.
  intros Hd. destruct (decide (degree < 7)) as [Hs|Hs].
  - destruct rnd as [|x rnd]; [unfold __thash_get_rand_poly; destruct (Z.ltb_spec degree 7); [done|lia]|].
    by destruct (small_poly degree x rnd) as (p & -> & Hp); [lia|].
  - destruct (array_get_lt default_irreducible_poly (degree - 7)) as (r & Hr & _); [cbn; lia|].
    rewrite (large_poly degree r rnd) by (done || lia).
    pose proof (choose_roots_spec (S (length rnd)) r degree rnd ltac:(lia)) as Hc.
    destruct (choose_roots _ r degree rnd) as [[o l]| |] eqn:E; cbn [res_bind]; [|done|done].
    destruct (round_poly_spec r degree _ rnd o l ltac:(lia) Hr E) as (p & -> & Hp). done.
Qed.

Lemma rand_poly_good degree rnd : 2 <= degree <= 16 -> good_poly degree (thash_get_rand_poly degree rnd).
Proof.
  intros Hd. unfold thash_get_rand_poly. destruct (Z.ltb_spec 32 degree); [lia|].
  generalize (S (length rnd)) as fuel. intros fuel. revert rnd. induction fuel as [|fuel IH]; intros rnd; [done|]. cbn [rand_poly_loop].
  pose proof (rand_poly_once degree rnd Hd) as Hg. destruct (__thash_get_rand_poly degree rnd) as [[p rnd']| |]; [|done|done].
  cbn [res_bind]. destruct (thash_test_poly_order p degree); [apply IH|done].
Qed.

(** ** Random numbers

    A number that ends a round, whatever comes before it. *)

Section Rounds.
Variables (degree r v : Z) (rest : list Z).

Lemma rand_element_prefix mask pre :
  Z.land v mask <> 0 -> Z.land v mask <> 1 ->
  exists x l, rand_element mask (pre ++ v :: rest) = Ok (x, l) /\
    ((exists pre', l = pre' ++ v :: rest /\ (length pre' < length pre)%nat) \/ (l = rest /\ x = Z.land v mask)).
Proof.
  intros H0 H1. induction pre as [|y pre IH]; cbn [app rand_element].
  - destruct (Z.eqb_spec (Z.land v mask) 0), (Z.eqb_spec (Z.land v mask) 1); try done. cbn [orb]. eexists _, _. split; [done|]. by right.
  - destruct ((Z.land y mask =? 0) || (Z.land y mask =? 1)).
    + destruct IH as (x & l & -> & [(pre' & -> & Hl)|Hr]); eexists _, _; (split; [done|]); [left|by right].
      exists pre'. split; [done|]. cbn. lia.
    + eexists _, _. split; [done|]. left. exists pre. split; [done|]. cbn. lia.
Qed.

(** What a round makes of an element. *)
Definition outcome (x : Z) : option (option (list Z)) :=
  if (rte_popcount32 x =? 1) && negb (Z.land x ROOT_POLY_MSK =? 0) then Some None
  else
    let '(roots, short_orbit) := roots_loop (Z.to_nat (degree - 1)) x x r degree false in
    if short_orbit then None else Some (Some (x :: roots)).

Lemma choose_roots_prefix o fuel pre :
  let mask := Z.shiftl 1 degree - 1 in
  Z.land v mask <> 0 -> Z.land v mask <> 1 -> outcome (Z.land v mask) = Some o -> (length pre < fuel)%nat ->
  exists o' l, choose_roots fuel r degree (pre ++ v :: rest) = Ok (o', l) /\
    ((exists pre', l = pre' ++ v :: rest /\ (length pre' < length pre)%nat) \/ (l = rest /\ o' = o)).
Proof.
  intros mask H0 H1 Ho. revert pre. induction fuel as [|fuel IH]; intros pre Hf; [lia|]. cbn [choose_roots]. fold mask.
  destruct (rand_element_prefix mask pre H0 H1) as (x & l & -> & Hl). cbn [res_bind].
  destruct Hl as [(pre' & -> & Hlt)|[-> ->]].
  - destruct (_ && _); [eexists _, _; split; [done|]; left; eauto|].
    destruct (roots_loop _ x x r degree false) as [roots [|]]; [|eexists _, _; split; [done|]; left; eauto].
    destruct (IH pre' ltac:(lia)) as (o' & l & -> & [(pre2 & -> & Hl2)|Hr]); eexists _, _; (split; [done|]); [left|by right].
    exists pre2. split; [done|]. lia.
  - unfold outcome in Ho. destruct (_ && _); [injection Ho as <-; eexists _, _; split; [done|]; by right|].
    destruct (roots_loop _ _ _ r degree false) as [roots [|]]; [done|]. injection Ho as <-. eexists _, _. split; [done|]. by right.
Qed.
End Rounds.

(** [v] ends the loops, of any degree from 7 on. *)
Definition ends_rounds (degree r v : Z) : bool :=
  let x := Z.land v (Z.shiftl 1 degree - 1) in
  negb (x =? 0) && negb (x =? 1) &&
  match outcome degree r x with
  | Some o => match round_poly r degree o with Ok p => negb (thash_test_poly_order p degree) | _ => false end
  | None => false
  end.

Lemma eleven_ends_rounds :
  forallb (fun p => ends_rounds p.1 p.2 11) (zip (seqZ 7 10) default_irreducible_poly) = true.
Proof. vm_compute. reflexivity. Qed.

Lemma eleven_ends degree r : 7 <= degree <= 16 -> array_get default_irreducible_poly (degree - 7) = Ok r -> ends_rounds degree r 11 = true.
Proof.
  intros Hd [_ Hr]%array_get_Ok. pose proof eleven_ends_rounds as H. rewrite forallb_forall in H. apply (H (degree, r)).
  apply list_elem_of_In, list_elem_of_lookup. exists (Z.to_nat (degree - 7)).
  apply lookup_zip_with_Some. exists degree, r. split; [done|]. split; [|done]. rewrite lookup_seqZ_lt by lia. f_equal. lia.
Qed.

Lemma rand_poly_prefix degree pre rest :
  2 <= degree <= 16 ->
  exists p l, __thash_get_rand_poly degree (pre ++ 11 :: rest) = Ok (p, l) /\
    ((exists pre', l = pre' ++ 11 :: rest /\ (length pre' < length pre)%nat) \/ thash_test_poly_order p degree = false).
Proof.
  intros Hd. destruct (decide (degree < 7)) as [Hs|Hs].
  - assert (exists x l, pre ++ 11 :: rest = x :: l) as (x & l & ->) by (destruct pre; by do 2 eexists).
    destruct (small_poly degree x l) as (p & -> & _); [lia|]. exists p, l. split; [done|]. right.
    unfold thash_test_poly_order. destruct (Z.ltb_spec degree 7); [done|lia].
  - destruct (array_get_lt default_irreducible_poly (degree - 7)) as (r & Hr & _); [cbn; lia|].
    rewrite (large_poly degree r) by (done || lia).
    pose proof (eleven_ends degree r ltac:(lia) Hr) as He. unfold ends_rounds in He. rewrite !andb_true_iff, !negb_true_iff in He.
    destruct He as [[H0 H1] He]. destruct (outcome degree r _) as [o|] eqn:Eo; [|done].
    destruct (choose_roots_prefix degree r 11 rest o (S (length (pre ++ 11 :: rest))) pre) as (o' & l & Ec & Hl);
      [lia|lia|exact Eo|rewrite length_app; cbn; lia|].
    rewrite Ec. cbn [res_bind]. destruct (round_poly_spec r degree _ _ o' l ltac:(lia) Hr Ec) as (p & Ep & _). rewrite Ep. cbn [res_bind].
    exists p, l. split; [done|]. destruct Hl as [Hl|[-> ->]]; [by left|right]. rewrite Ep in He. by apply negb_true_iff.
Qed.

Lemma rand_poly_returns degree rnd rest :
  2 <= degree <= 16 -> exists p l, thash_get_rand_poly degree (rnd ++ 11 :: rest) = Ok (p, l).
Proof.
  intros Hd. unfold thash_get_rand_poly. destruct (Z.ltb_spec 32 degree); [lia|].
  assert (forall fuel pre, (length pre < fuel)%nat -> exists p l, rand_poly_loop fuel degree (pre ++ 11 :: rest) = Ok (p, l)) as Hloop.
  { induction fuel as [|fuel IH]; intros pre Hf; [lia|]. cbn [rand_poly_loop].
    destruct (rand_poly_prefix degree pre rest Hd) as (p & l & -> & Hl). cbn [res_bind].
    destruct (thash_test_poly_order p degree) eqn:Et; [|by exists p, l].
    destruct Hl as [(pre' & -> & Hlt)|]; [|done]. apply IH. lia. }
  apply Hloop. rewrite length_app. cbn. lia.
Qed.

(** ** Properties *)

(** C39: [thash_get_rand_poly] of a degree from 2 to 16 does not read outside of
    its tables and arrays, and the polynomial it returns is of the degree and
    irreducible over the field of two elements, whether it comes from a table
    or is calculated from a random element and its conjugates, and whatever
    the random numbers are.  It returns: one number, 11, ends its loops
    whenever it comes up. *)
Theorem rand_poly_irreducible degree rnd rest :
  2 <= degree <= 16 ->
  good_poly degree (thash_get_rand_poly degree rnd) /\
  exists p l, thash_get_rand_poly degree (rnd ++ 11 :: rest) = Ok (p, l).
Proof. intros Hd. split; [by apply rand_poly_good|by apply rand_poly_returns]. Qed.

(** ** Witnesses *)

Lemma rand_poly_irreducible_witness :
  thash_get_rand_poly 7 [0; 1; 5; 6] = Ok (0x7d, [6]) /\ element 7 0x7d /\ irreducible (whole 0x7d 7).
Proof.
  destruct (rand_poly_irreducible 7 [0; 1; 5; 6] [] ltac:(lia)) as [H _].
  assert (E : thash_get_rand_poly 7 [0; 1; 5; 6] = Ok (0x7d, [6])) by (vm_compute; reflexivity).
  rewrite E in H. split; [exact E|]. exact H.
Defined.
