(* ===== verification/Thash.v ===== *)
(** * Choosing the hash of a connection ([dpdk/lib/hash/rte_thash.c])

    [rte_thash] rewrites a part of the hash key with the sequence of a linear
    feedback shift register, such that the low bits of the hash can be given
    any value by changing a few bits of the tuple; a table says which.
    F-Stack uses it to find a local port for its own queue.

    Modelled are the shift register (its polynomial is that of [ThashPoly]), the
    context with the one helper F-Stack adds to it, the table, and [rte_thash_adjust_tuple] with its accesses to
    single bits of the tuple; the hash is the software one (no GFNI
    matrices). *)

From S2P Require Import Prelude Toeplitz ThashPoly.

Module Thash.
Import Toeplitz ThashPoly.

Definition CHAR_BIT : Z := 8.
Definition TOEPLITZ_HASH_LEN : Z := 32.
Definition RTE_THASH_RETA_SZ_MIN : Z := 2.
Definition RTE_THASH_RETA_SZ_MAX : Z := 16.
Definition RTE_THASH_IGNORE_PERIOD_OVERFLOW : Z := 1.
Definition RTE_THASH_MINIMAL_SEQ : Z := 2.

(** ** The shift register *)

Record thash_lfsr := mk_lfsr {
  poly : Z;
  rev_poly : Z;
  state : Z;
  rev_state : Z;
  deg : Z;
  bits_cnt : Z
}.

(** The parity of the low 32 bits. *)
Definition parity32 (v : Z) : Z :=
  foldl (fun p j => if Z.testbit v j then 1 - p else p) 0 (seqZ 0 32).

Definition get_bit_lfsr (l : thash_lfsr) : thash_lfsr * Z :=
  let bit := parity32 (Z.land (state l) (poly l)) in
  let ret := Z.land (state l) 1 in
  let st := Z.land (Z.lor (Z.shiftr (state l) 1) (u32 (Z.shiftl bit (deg l - 1))))
              (Z.shiftl 1 (deg l) - 1) in
  (mk_lfsr (poly l) (rev_poly l) st (rev_state l) (deg l) (u32 (bits_cnt l + 1)), ret).

Definition get_rev_bit_lfsr (l : thash_lfsr) : thash_lfsr * Z :=
  let bit := parity32 (Z.land (rev_state l) (rev_poly l)) in
  let ret := Z.land (rev_state l) (Z.shiftl 1 (deg l - 1)) in
  let st := Z.land (Z.lor (u32 (Z.shiftl (rev_state l) 1)) bit) (Z.shiftl 1 (deg l) - 1) in
  (mk_lfsr (poly l) (rev_poly l) (state l) st (deg l) (u32 (bits_cnt l + 1)), ret).

Definition get_rev_poly (poly degree : Z) : Z :=
  let rev :=
    foldl (fun r i => Z.lor r (u32 (Z.shiftl (Z.land (Z.shiftr poly i) 1) (degree - i)))) 1
      (seqZ 1 (degree - 1)) in
  Z.land rev (Z.shiftl 1 degree - 1).

(** [do ... while (lfsr->state == 0)]. *)
Fixpoint rand_state (mask : Z) (rnd : list Z) : res Z :=
  match rnd with
  | [] => NoFuel
  | r :: rnd => if Z.land r mask =? 0 then rand_state mask rnd else Ok (Z.land r mask)
  end.

(** [rnd] are the results of [rte_rand]. *)
Definition alloc_lfsr (poly_degree : Z) (rnd : list Z) : res (option thash_lfsr) :=
  if (32 <? poly_degree) || (poly_degree =? 0) then Ok None
  else
    let* (poly, rnd) := thash_get_rand_poly poly_degree rnd in
    let* st := rand_state (Z.shiftl 1 poly_degree - 1) rnd in
    let l := mk_lfsr poly (get_rev_poly poly poly_degree) st st poly_degree 0 in
    let l := Nat.iter (S (Z.to_nat poly_degree)) (fun l => fst (get_rev_bit_lfsr l)) l in
    Ok (Some (mk_lfsr (Thash.poly l) (rev_poly l) (state l) (rev_state l) (deg l) 0)).

(** ** Contexts and helpers *)

(** [hash_key] is the memory from the key on. *)
Record rte_thash_ctx := mk_ctx {
  key_len : Z;
  reta_sz_log : Z;
  flags : Z;
  hash_key : list Z
}.

Record rte_thash_subtuple_helper := mk_helper {
  h_offset : Z;
  h_len : Z;
  tuple_offset : Z;
  tuple_len : Z;
  lsb_msk : Z;
  compl_table : list Z
}.

(** A new context with a copy of the key; the memory is there and the name is
    new.  [pad] is what is behind the key in the block allocated. *)
Definition rte_thash_init_ctx (key_len reta_sz : Z) (key : list Z) (flags : Z) (pad : list Z) :
    option rte_thash_ctx :=
  if (key_len =? 0) || (reta_sz <? RTE_THASH_RETA_SZ_MIN) || (RTE_THASH_RETA_SZ_MAX <? reta_sz) then None
  else Some (mk_ctx key_len reta_sz flags (take (Z.to_nat key_len) key ++ pad)).

Definition set_bit (ptr : list Z) (bit pos : Z) : res (list Z) :=
  let byte_idx := pos / CHAR_BIT in
  let bit_idx := (CHAR_BIT - 1) - Z.land pos (CHAR_BIT - 1) in
  let* tmp := array_get ptr byte_idx in
  let tmp := Z.ldiff tmp (Z.shiftl 1 bit_idx) in
  let tmp := u8 (Z.lor tmp (Z.shiftl bit bit_idx)) in
  array_set ptr byte_idx tmp.

(** [for (i = start; i <= end; i++)], [k] rounds. *)
Fixpoint subkey_loop (k : nat) (key : list Z) (l : thash_lfsr) (i : Z) : res (list Z * thash_lfsr) :=
  match k with
  | O => Ok (key, l)
  | S k =>
      let '(l, bit) := get_bit_lfsr l in
      let* key := set_bit key bit i in
      subkey_loop k key l (i + 1)
  end.

(** [for (i = end; i >= start; i--)]. *)
Fixpoint subkey_rev_loop (fuel : nat) (key : list Z) (l : thash_lfsr) (i start : Z) :
    res (list Z * thash_lfsr) :=
  if i <? start then Ok (key, l)
  else
    match fuel with
    | O => NoFuel
    | S fuel =>
        let '(l, bit) := get_rev_bit_lfsr l in
        let* key := set_bit key bit i in
        subkey_rev_loop fuel key l (u32 (i - 1)) start
    end.

(** The key from [start] to [stop]; [None] is [-ENOSPC]. *)
Definition generate_subkey (ctx : rte_thash_ctx) (l : thash_lfsr) (start stop : Z) :
    res (option (rte_thash_ctx * thash_lfsr)) :=
  let req_bits := (if start <? stop then stop - start else start - stop) + 1 in
  if (Z.shiftl 1 (deg l) - 1 <? u32 (bits_cnt l + req_bits)) &&
     negb (flag_is_set (flags ctx) RTE_THASH_IGNORE_PERIOD_OVERFLOW)
  then Ok None
  else
    let* (key, l) :=
      if start <? stop then subkey_loop (Z.to_nat (stop - start + 1)) (hash_key ctx) l start
      else subkey_rev_loop (Z.to_nat (key_len ctx * CHAR_BIT) + 1) (hash_key ctx) l stop start in
    Ok (Some (mk_ctx (key_len ctx) (reta_sz_log ctx) (flags ctx) key, l)).

(** ** The complement table *)

Definition get_subvalue (ctx : rte_thash_ctx) (offset : Z) : res Z :=
  let* val := be32_at (hash_key ctx) (Z.shiftr offset 3) in
  let val := Z.shiftr val (TOEPLITZ_HASH_LEN - (Z.land offset (CHAR_BIT - 1) + reta_sz_log ctx)) in
  Ok (Z.land val (Z.shiftl 1 (reta_sz_log ctx) - 1)).

(** [for (j = i; j; j &= (j - 1))]. *)
Fixpoint compl_value (fuel : nat) (ctx : rte_thash_ctx) (start j val : Z) : res Z :=
  if j =? 0 then Ok val
  else
    match fuel with
    | O => NoFuel
    | S fuel =>
        let k := rte_bsf32 j in
        let* v := get_subvalue ctx (u32 (start - k + reta_sz_log ctx - 1)) in
        compl_value fuel ctx start (Z.land j (j - 1)) (Z.lxor val v)
    end.

(** [for (i = 1; i < (1 << reta_sz_log); i++)], [k] rounds. *)
Fixpoint compl_loop (k : nat) (ctx : rte_thash_ctx) (start i : Z) (table : list Z) : res (list Z) :=
  match k with
  | O => Ok table
  | S k =>
      let* val := compl_value 32 ctx start i 0 in
      let* table := array_set table val i in
      compl_loop k ctx start (i + 1) table
  end.

Definition generate_complement_table (ctx : rte_thash_ctx) (h : rte_thash_subtuple_helper) :
    res rte_thash_subtuple_helper :=
  let start := u32 (h_offset h + h_len h - (2 * reta_sz_log ctx - 1)) in
  let* table :=
    compl_loop (Z.to_nat (Z.shiftl 1 (reta_sz_log ctx) - 1)) ctx start 1 (compl_table h) in
  Ok (mk_helper (h_offset h) (h_len h) (tuple_offset h) (tuple_len h) (lsb_msk h) table).

(** The new helper, with an empty table. *)
Definition new_helper (ctx : rte_thash_ctx) (len offset : Z) : rte_thash_subtuple_helper :=
  let stop := offset + len + TOEPLITZ_HASH_LEN - 1 in
  let start :=
    if flag_is_set (flags ctx) RTE_THASH_MINIMAL_SEQ then stop - (2 * reta_sz_log ctx - 1) else offset in
  mk_helper start (stop - start) offset len (Z.shiftl 1 (reta_sz_log ctx) - 1)
    (replicate (Z.to_nat (Z.shiftl 1 (reta_sz_log ctx))) 0).

(** The end of [rte_thash_add_helper], for a helper whose bits no other
    helper has. *)
Definition add_nonoverlapping (ctx : rte_thash_ctx) (ent : rte_thash_subtuple_helper) (rnd : list Z) :
    res (option (rte_thash_ctx * rte_thash_subtuple_helper)) :=
  let* lfsr := alloc_lfsr (reta_sz_log ctx) rnd in
  match lfsr with
  | None => Ok None
  | Some lfsr =>
      let* gen := generate_subkey ctx lfsr (h_offset ent) (h_offset ent + h_len ent - 1) in
      match gen with
      | None => Ok None
      | Some (ctx, _) =>
          let* ent := generate_complement_table ctx ent in
          Ok (Some (ctx, ent))
      end
  end.

(** [rte_thash_add_helper] on a context without helpers, where its loop over
    them does nothing: the context with the new key and the helper, or [None]
    for an error. *)
Definition rte_thash_add_helper (ctx : rte_thash_ctx) (len offset : Z) (rnd : list Z) :
    res (option (rte_thash_ctx * rte_thash_subtuple_helper)) :=
  if (len <? reta_sz_log ctx) || (key_len ctx * CHAR_BIT <? offset + len + TOEPLITZ_HASH_LEN - 1) then Ok None
  else add_nonoverlapping ctx (new_helper ctx len offset) rnd.

Definition rte_thash_get_complement (h : rte_thash_subtuple_helper) (hash desired_hash : Z) : res Z :=
  array_get (compl_table h) (Z.land (Z.lxor hash desired_hash) (lsb_msk h)).

(** ** Bits of the tuple

    [ptr] is the memory from the tuple on. *)

Definition read_unaligned_byte (ptr : list Z) (offset : Z) : res Z :=
  let* ret := array_get ptr (offset / CHAR_BIT) in
  if offset mod CHAR_BIT =? 0 then Ok ret
  else
    let ret := u8 (Z.shiftl ret (offset mod CHAR_BIT)) in
    let* next := array_get ptr (offset / CHAR_BIT + 1) in
    Ok (Z.lor ret (Z.shiftr next (CHAR_BIT - offset mod CHAR_BIT))).

(** [while (len > 0)]: the value and what is left of [len]. *)
Fixpoint read_loop (fuel : nat) (ptr : list Z) (len offset ret : Z) : res (Z * Z) :=
  if len <=? 0 then Ok (ret, len)
  else
    match fuel with
    | O => NoFuel
    | S fuel =>
        let* b := read_unaligned_byte ptr offset in
        read_loop fuel ptr (len - CHAR_BIT) (offset + CHAR_BIT) (Z.lor (u32 (Z.shiftl ret CHAR_BIT)) b)
    end.

Definition read_unaligned_bits (ptr : list Z) (len offset : Z) : res Z :=
  let len := Z.min (Z.max len 0) 32 in
  let* (ret, len) := read_loop 4 ptr len offset 0 in
  let shift := if len =? 0 then 0 else CHAR_BIT - (len + CHAR_BIT) mod CHAR_BIT in
  Ok (Z.shiftr ret shift).

Definition get_bits_mask (len offset : Z) : Z :=
  let offset := offset mod CHAR_BIT in
  let last_bit := Z.min CHAR_BIT (offset + len) in
  u8 (Z.lxor (Z.shiftl 1 (CHAR_BIT - offset) - 1) (Z.shiftl 1 (CHAR_BIT - last_bit) - 1)).

Definition write_unaligned_byte (ptr : list Z) (len offset val : Z) : res (list Z) :=
  let* tmp := array_get ptr (offset / CHAR_BIT) in
  let tmp := Z.ldiff tmp (get_bits_mask len offset) in
  let tmp := u8 (Z.lor tmp (Z.shiftr (Z.shiftl val (CHAR_BIT - len)) (offset mod CHAR_BIT))) in
  let* ptr := array_set ptr (offset / CHAR_BIT) tmp in
  if negb ((offset + len) / CHAR_BIT =? offset / CHAR_BIT) then
    let rest_len := (offset + len) mod CHAR_BIT in
    let* tmp := array_get ptr ((offset + len) / CHAR_BIT) in
    let tmp := Z.ldiff tmp (get_bits_mask rest_len 0) in
    let tmp := u8 (Z.lor tmp (Z.shiftl val (CHAR_BIT - rest_len))) in
    array_set ptr ((offset + len) / CHAR_BIT) tmp
  else Ok ptr.

Fixpoint write_loop (fuel : nat) (ptr : list Z) (len offset val : Z) : res (list Z) :=
  if len <=? 0 then Ok ptr
  else
    match fuel with
    | O => NoFuel
    | S fuel =>
        let part_len := Z.min CHAR_BIT len in
        let tmp := Z.land (u8 val) (Z.shiftl 1 part_len - 1) in
        let* ptr := write_unaligned_byte ptr part_len (offset + len - part_len) tmp in
        write_loop fuel ptr (len - CHAR_BIT) offset (Z.shiftr val CHAR_BIT)
    end.

Definition write_unaligned_bits (ptr : list Z) (len offset val : Z) : res (list Z) :=
  write_loop 4 ptr (Z.min (Z.max len 0) 32) offset val.

(** ** Adjusting a tuple *)

Section Adjust.
(** The check of the caller, if there is one. *)
Variable fn : option (list Z -> bool).

(** Attempt [i] of [attempts] and those after it, [k] in all: whether the
    result is 0, and the tuple. *)
Fixpoint adjust_loop (k : nat) (ctx : rte_thash_ctx) (h : rte_thash_subtuple_helper)
    (tuple : list Z) (len desired : Z) (i attempts : Z) (ok : bool) : res (bool * list Z) :=
  match k with
  | O => Ok (ok, tuple)
  | S k =>
      let* hash := rte_softrss (be_words (take (Z.to_nat len) tuple)) (hash_key ctx) in
      let* adj_bits := rte_thash_get_complement h hash desired in
      let offset := tuple_offset h + tuple_len h - reta_sz_log ctx in
      let* tmp := read_unaligned_bits tuple (reta_sz_log ctx) offset in
      let* tuple := write_unaligned_bits tuple (reta_sz_log ctx) offset (Z.lxor tmp adj_bits) in
      match fn with
      | None => Ok (true, tuple)
      | Some fn =>
          if fn (take (Z.to_nat len) tuple) then Ok (true, tuple)
          else
            let* tuple :=
              if i <? attempts - 1 then
                let tmp_len := Z.min 32 (tuple_len h - reta_sz_log ctx) in
                let offset := offset - tmp_len in
                let* tmp := read_unaligned_bits tuple tmp_len offset in
                let tmp := Z.land (u32 (tmp + 1)) (Z.shiftl 1 tmp_len - 1) in
                write_unaligned_bits tuple tmp_len offset tmp
              else Ok tuple in
            adjust_loop k ctx h tuple len desired (i + 1) attempts false
      end
  end.

(** [None] is [-EINVAL]. *)
Definition rte_thash_adjust_tuple (ctx : rte_thash_ctx) (h : rte_thash_subtuple_helper)
    (tuple : list Z) (len desired attempts : Z) : res (option (bool * list Z)) :=
  if negb (len mod 4 =? 0) || (attempts <=? 0) then Ok None
  else
    let attempts := Z.min attempts (Z.shiftl 1 (tuple_len h - reta_sz_log ctx)) in
    let* r := adjust_loop (Z.to_nat attempts) ctx h tuple len desired 0 attempts true in
    Ok (Some r).
End Adjust.
End Thash.
