(* ===== verification/ThashProofs.v ===== *)
(** * Proofs about choosing the hash of a connection

    [rte_thash_adjust_tuple] changes the low bits of the subtuple such that
    the low bits of the Toeplitz hash become the value asked for.  The output of
    a shift register with an irreducible polynomial has independent windows,
    so that the complement table has an entry for every value. *)

From Stdlib Require Import NArith.
From S2P Require Import Prelude Toeplitz ToeplitzProofs Gf2 ThashPoly ThashPolyProofs Thash.

Import Toeplitz ThashPoly Thash.

(** ** Fields: runs of bits as numbers *)

Definition field (l : list Z) (n k : nat) : Z :=
  foldl (fun v j => 2 * v + Z.b2z (bit_of l (n + j))) 0 (seq 0 k).

Lemma window_field l n : window l n = field l n 32.
Proof. unfold window, field. reflexivity. Qed.

Lemma field_testbit l n k j :
  0 <= j -> Z.testbit (field l n k) j = (j <? Z.of_nat k) && bit_of l (n + k - 1 - Z.to_nat j).
Proof. apply window_foldl. Qed.

Lemma field_range l n k : 0 <= field l n k < 2 ^ Z.of_nat k.
Proof.
  unfold field. induction k as [|k IH]; [cbn; lia|].
  rewrite seq_S, foldl_app, Nat2Z.inj_succ, Z.pow_succ_r by lia.
  cbn [foldl]. destruct (bit_of l _); cbn [Z.b2z]; lia.
Qed.

Lemma field_eq l n k v :
  0 <= v < 2 ^ Z.of_nat k ->
  (forall j, 0 <= j < Z.of_nat k -> Z.testbit v j = bit_of l (n + k - 1 - Z.to_nat j)) -> v = field l n k.
Proof.
  intros Hv H. apply Z.bits_inj'. intros j Hj. rewrite field_testbit by done.
  destruct (Z.ltb_spec j (Z.of_nat k)); cbn; [apply H; lia|].
  destruct (decide (v = 0)) as [->|Hne]; [apply Z.bits_0|]. apply Z.bits_above_log2; [lia|].
  pose proof (Z.log2_lt_pow2 v (Z.of_nat k)). lia.
Qed.

Lemma byte_high x j : byte x -> 8 <= j -> Z.testbit x j = false.
Proof.
  intros [Hx1 Hx2] Hj. destruct (decide (x = 0)) as [->|]; [apply Z.bits_0|].
  apply Z.bits_above_log2; [lia|]. pose proof (Z.log2_lt_pow2 x 8). lia.
Qed.

Lemma u8_testbit x j : 0 <= j -> Z.testbit (u8 x) j = (j <? 8) && Z.testbit x j.
Proof.
  intros Hj. unfold wrapu. destruct (Z.ltb_spec j 8); [by rewrite Z.mod_pow2_bits_low by lia|].
  by rewrite Z.mod_pow2_bits_high by lia.
Qed.

Lemma u8_byte x : byte (u8 x).
Proof. apply (wrapu_range 8). lia. Qed.

(** ** Changing a byte *)

Lemma bit_of_insert l (i : nat) x p :
  (i < length l)%nat ->
  bit_of (<[i := x]> l) p = if decide (p / 8 = i)%nat then Z.testbit x (Z.of_nat (7 - p mod 8)) else bit_of l p.
Proof.
  intros Hi. unfold bit_of. case_decide as Hp.
  - subst i. by rewrite list_lookup_insert_eq.
  - by rewrite list_lookup_insert_ne.
Qed.

Lemma split8 p : exists i b, p = (8 * i + b)%nat /\ (b < 8)%nat.
Proof.
  exists (p / 8)%nat, (p mod 8)%nat. split; [apply Nat.div_mod_eq|]. apply Nat.mod_upper_bound. lia.
Qed.

Lemma div8 i b : (b < 8)%nat -> ((8 * i + b) / 8 = i)%nat.
Proof. intros. replace (8 * i + b)%nat with (b + i * 8)%nat by lia. rewrite Nat.div_add, Nat.div_small; lia. Qed.

Lemma mod8 i b : (b < 8)%nat -> ((8 * i + b) mod 8 = b)%nat.
Proof. intros. replace (8 * i + b)%nat with (b + i * 8)%nat by lia. rewrite Nat.Div0.mod_add, Nat.mod_small; lia. Qed.

Lemma zdiv8 (i b : nat) : (b < 8)%nat -> Z.of_nat (8 * i + b) / 8 = Z.of_nat i.
Proof. intros. replace (Z.of_nat (8 * i + b)) with (Z.of_nat b + Z.of_nat i * 8) by lia. rewrite Z.div_add, Z.div_small; lia. Qed.

Lemma zmod8 (i b : nat) : (b < 8)%nat -> Z.of_nat (8 * i + b) mod 8 = Z.of_nat b.
Proof. intros. replace (Z.of_nat (8 * i + b)) with (Z.of_nat b + Z.of_nat i * 8) by lia. rewrite Z_mod_plus_full, Z.mod_small; lia. Qed.

(** Two byte strings with the same bits but in a run from [o] on of [n] bits,
    which are those of [v]. *)
Definition patched (l l' : list Z) (o n : nat) (v : Z) : Prop :=
  length l' = length l /\ Forall byte l' /\
  forall p, (p < 8 * length l)%nat ->
    bit_of l' p = if decide (o <= p < o + n)%nat then Z.testbit v (Z.of_nat (o + n - 1 - p)) else bit_of l p.

(** ** [set_bit] *)

Lemma get_byte l (i : nat) :
  Forall byte l -> (i < length l)%nat -> exists x, array_get l (Z.of_nat i) = Ok x /\ l !! i = Some x /\ byte x.
Proof.
  intros Hb Hi. destruct (array_get_lt l (Z.of_nat i)) as (x & Hx & Hl); [lia|]. rewrite Nat2Z.id in Hl.
  exists x. split; [done|]. split; [done|]. by eapply Forall_lookup_1.
Qed.

Lemma set_byte (l : list Z) (i : nat) x : (i < length l)%nat -> array_set l (Z.of_nat i) x = Ok (<[i := x]> l).
Proof. intros. rewrite array_set_lt, Nat2Z.id by lia. done. Qed.

Lemma set_bit_spec l (b : bool) (pos : nat) :
  Forall byte l -> (pos < 8 * length l)%nat ->
  exists l', set_bit l (Z.b2z b) (Z.of_nat pos) = Ok l' /\ patched l l' pos 1 (Z.b2z b).
Proof.
  intros Hl Hp. destruct (split8 pos) as (i & k & -> & Hk). unfold set_bit, CHAR_BIT.
  change (8 - 1) with (2 ^ 3 - 1). rewrite land_mask by lia. change (2 ^ 3) with 8.
  rewrite zdiv8, zmod8 by done. destruct (get_byte l i) as (x & -> & Hx & Hb); [done|lia|]. cbn [res_bind].
  rewrite set_byte by lia. eexists; split; [done|]. split; [apply length_insert|].
  split; [apply Forall_insert; [done|apply u8_byte]|]. intros p Hpl. rewrite bit_of_insert by lia.
  destruct (split8 p) as (j & q & -> & Hq). rewrite div8, mod8 by done.
  destruct (decide (j = i)) as [->|Hne]; [|rewrite decide_False by lia; done].
  rewrite u8_testbit by lia. destruct (Z.ltb_spec (Z.of_nat (7 - q)) 8); [|lia]. cbn [andb].
  rewrite Z.lor_spec, Z.ldiff_spec, !Z.shiftl_spec by lia. case_decide as Hd.
  - assert (q = k) as -> by lia. replace (Z.of_nat (7 - k) - (8 - 1 - Z.of_nat k)) with 0 by lia.
    replace (Z.of_nat (8 * i + k + 1 - 1 - (8 * i + k))) with 0 by lia. by rewrite andb_false_r.
  - assert (forall v, 0 <= v < 2 -> Z.testbit v (Z.of_nat (7 - q) - (8 - 1 - Z.of_nat k)) = false) as Hz.
    { intros v Hv. destruct (decide (q < k)%nat).
      - destruct (decide (v = 0)) as [->|]; [apply Z.bits_0|]. replace v with (2 ^ 0) by lia.
        apply Z.pow2_bits_false; lia.
      - apply Z.testbit_neg_r. lia. }
    rewrite !Hz by (destruct b; cbn; lia). rewrite orb_false_r, andb_true_r, bit_of_byte, Hx by done.
    f_equal. lia.
Qed.

(** ** Reading *)

Lemma read_byte_spec l (o : nat) :
  Forall byte l -> (o + 8 <= 8 * length l)%nat -> read_unaligned_byte l (Z.of_nat o) = Ok (field l o 8).
Proof.
  intros Hl Ho. destruct (split8 o) as (i & b & -> & Hb). unfold read_unaligned_byte, CHAR_BIT.
  rewrite zdiv8, zmod8 by done. destruct (get_byte l i) as (x & -> & Hx & Hbx); [done|lia|]. cbn [res_bind].
  destruct (Z.eqb_spec (Z.of_nat b) 0) as [E|Hne].
  - assert (b = 0)%nat as -> by lia. f_equal. apply field_eq; [exact Hbx|]. intros j Hj.
    replace (8 * i + 0 + 8 - 1 - Z.to_nat j)%nat with (8 * i + (7 - Z.to_nat j))%nat by lia.
    rewrite bit_of_byte, Hx by lia. f_equal. lia.
  - replace (Z.of_nat i + 1) with (Z.of_nat (S i)) by lia.
    destruct (get_byte l (S i)) as (y & -> & Hy & Hby); [done|lia|]. cbn [res_bind]. f_equal.
    assert (forall j, 0 <= j -> Z.testbit (Z.lor (u8 (Z.shiftl x (Z.of_nat b))) (Z.shiftr y (8 - Z.of_nat b))) j
      = (j <? 8) && bit_of l (8 * i + b + 8 - 1 - Z.to_nat j)) as Ht.
    { intros j Hj. rewrite Z.lor_spec, u8_testbit, Z.shiftl_spec, Z.shiftr_spec by lia.
      destruct (Z.ltb_spec j 8); cbn [andb].
      - destruct (decide (j < Z.of_nat b)).
        + rewrite (Z.testbit_neg_r _ (j - _)) by lia.
          replace (8 * i + b + 8 - 1 - Z.to_nat j)%nat with (8 * S i + (b - 1 - Z.to_nat j))%nat by lia.
          rewrite bit_of_byte, Hy by lia. cbn. f_equal. lia.
        + rewrite (byte_high y) by (done || lia).
          replace (8 * i + b + 8 - 1 - Z.to_nat j)%nat with (8 * i + (b + 7 - Z.to_nat j))%nat by lia.
          rewrite bit_of_byte, Hx by lia. rewrite orb_false_r. f_equal. lia.
      - rewrite (byte_high y) by (done || lia). done. }
    apply Z.bits_inj'. intros j Hj. rewrite Ht, field_testbit by done. done.
Qed.

Lemma field_app l o k :
  (k + 8 <= 32)%nat -> Z.lor (u32 (Z.shiftl (field l o k) 8)) (field l (o + k) 8) = field l o (k + 8).
Proof.
  intros Hk. apply Z.bits_inj'. intros j Hj. unfold wrapu.
  rewrite Z.lor_spec, !field_testbit by done. destruct (Z.ltb_spec j (Z.of_nat 8)).
  - rewrite Z.mod_pow2_bits_low, Z.shiftl_spec, Z.testbit_neg_r by lia.
    destruct (Z.ltb_spec j (Z.of_nat (k + 8))); [|lia]. cbn. f_equal. lia.
  - cbn [andb]. rewrite orb_false_r. destruct (Z.ltb_spec j 32).
    + rewrite Z.mod_pow2_bits_low, Z.shiftl_spec, field_testbit by lia.
      destruct (Z.ltb_spec (j - 8) (Z.of_nat k)), (Z.ltb_spec j (Z.of_nat (k + 8))); try lia.
      all: cbn; f_equal; lia.
    + rewrite Z.mod_pow2_bits_high by lia. destruct (Z.ltb_spec j (Z.of_nat (k + 8))); [lia|done].
Qed.

Lemma field_shiftr l o n k : Z.shiftr (field l o (n + k)) (Z.of_nat k) = field l o n.
Proof.
  apply Z.bits_inj'. intros j Hj. rewrite Z.shiftr_spec, !field_testbit by lia.
  destruct (Z.ltb_spec (j + Z.of_nat k) (Z.of_nat (n + k))), (Z.ltb_spec j (Z.of_nat n)); try lia.
  all: cbn; f_equal; lia.
Qed.

Lemma field_low l o n k : field l o (n + k) mod 2 ^ Z.of_nat k = field l (o + n) k.
Proof.
  apply Z.bits_inj'. intros j Hj. rewrite field_testbit by done. destruct (Z.ltb_spec j (Z.of_nat k)).
  - rewrite Z.mod_pow2_bits_low, field_testbit by lia. replace (j <? Z.of_nat (n + k)) with true by (symmetry; apply Z.ltb_lt; lia).
    cbn. f_equal. lia.
  - by rewrite Z.mod_pow2_bits_high by lia.
Qed.

(** [m] bytes are read for [len] bits. *)
Lemma read_loop_spec l (o : nat) k m fuel (len : Z) :
  Forall byte l -> (m <= fuel)%nat -> 8 * Z.of_nat m - 8 < len <= 8 * Z.of_nat m ->
  (o + k + 8 * m <= 8 * length l)%nat -> (k + 8 * m <= 32)%nat ->
  read_loop fuel l len (Z.of_nat (o + k)) (field l o k) = Ok (field l o (k + 8 * m), len - 8 * Z.of_nat m).
Proof.
  intros Hl. revert k fuel len. induction m as [|m IH]; intros k fuel len Hf Hlen Ho Hk.
  - destruct fuel; cbn [read_loop]; destruct (Z.leb_spec len 0); try lia; repeat f_equal; lia.
  - destruct fuel as [|fuel]; [lia|]. cbn [read_loop]. destruct (Z.leb_spec len 0); [lia|].
    rewrite read_byte_spec by (done || lia). cbn [res_bind]. unfold CHAR_BIT. rewrite field_app by lia.
    replace (Z.of_nat (o + k) + 8) with (Z.of_nat (o + (k + 8))) by lia.
    rewrite IH by lia. do 2 f_equal; [f_equal; lia|lia].
Qed.

Lemma read_bits_spec l (o n : nat) :
  Forall byte l -> (n <= 32)%nat -> (o + n + 7 <= 8 * length l)%nat ->
  read_unaligned_bits l (Z.of_nat n) (Z.of_nat o) = Ok (field l o n).
Proof.
  intros Hl Hn Ho. unfold read_unaligned_bits. replace (Z.min (Z.max (Z.of_nat n) 0) 32) with (Z.of_nat n) by lia.
  set (m := ((n + 7) / 8)%nat). pose proof (Nat.div_mod_eq (n + 7) 8) as Hdm. fold m in Hdm.
  pose proof (Nat.mod_upper_bound (n + 7) 8 ltac:(lia)).
  pose proof (read_loop_spec l o 0 m 4 (Z.of_nat n)) as Hr. rewrite Nat.add_0_r in Hr.
  change (field l o 0) with 0 in Hr. rewrite Hr by (done || lia). cbn [res_bind]. unfold CHAR_BIT. f_equal.
  destruct (Z.eqb_spec (Z.of_nat n - 8 * Z.of_nat m) 0) as [E|Hne].
  - rewrite Z.shiftr_0_r. f_equal. lia.
  - rewrite (Z.mod_small (_ + 8)) by lia.
    replace (8 - (Z.of_nat n - 8 * Z.of_nat m + 8)) with (Z.of_nat (8 * m - n)) by lia.
    replace (0 + 8 * m)%nat with (n + (8 * m - n))%nat by lia. apply field_shiftr.
Qed.

(** ** Writing *)

Lemma ones_testbit a j : 0 <= a -> 0 <= j -> Z.testbit (Z.shiftl 1 a - 1) j = (j <? a).
Proof.
  intros Ha Hj. rewrite Z.shiftl_1_l. replace (2 ^ a - 1) with (Z.ones a) by (rewrite Z.ones_equiv; lia).
  destruct (Z.ltb_spec j a); [apply Z.ones_spec_low|apply Z.ones_spec_high]; lia.
Qed.

(** The bits of a byte from [o mod 8] on. *)
Lemma bits_mask_testbit len o j :
  0 <= len -> 0 <= j < 8 ->
  Z.testbit (get_bits_mask len o) j = (j <? 8 - o mod 8) && (8 - Z.min 8 (o mod 8 + len) <=? j).
Proof.
  intros Hl Hj. unfold get_bits_mask, CHAR_BIT. pose proof (Z.mod_pos_bound o 8 ltac:(lia)).
  rewrite u8_testbit, Z.lxor_spec, !ones_testbit by lia. destruct (Z.ltb_spec j 8); [|lia]. cbn [andb].
  destruct (Z.ltb_spec j (8 - o mod 8)), (Z.ltb_spec j (8 - Z.min 8 (o mod 8 + len))),
    (Z.leb_spec (8 - Z.min 8 (o mod 8 + len)) j); cbn; lia || done.
Qed.

Lemma small_testbit v n j : 0 <= v < 2 ^ n -> 0 <= n <= j -> Z.testbit v j = false.
Proof.
  intros Hv Hj. destruct (decide (v = 0)) as [->|]; [apply Z.bits_0|].
  apply Z.bits_above_log2; [lia|]. pose proof (Z.log2_lt_pow2 v n). lia.
Qed.

(** The two bytes [write_unaligned_byte] stores. *)
Lemma first_byte_testbit x v (n b : nat) j :
  byte x -> 0 <= v < 2 ^ Z.of_nat n -> (n <= 8)%nat -> (b < 8)%nat -> 0 <= j < 8 ->
  forall o, o mod 8 = Z.of_nat b ->
  Z.testbit (u8 (Z.lor (Z.ldiff x (get_bits_mask (Z.of_nat n) o))
    (Z.shiftr (Z.shiftl v (8 - Z.of_nat n)) (Z.of_nat b)))) j =
  if decide (b <= 7 - Z.to_nat j < b + n)%nat then Z.testbit v (j + Z.of_nat b + Z.of_nat n - 8) else Z.testbit x j.
Proof.
  intros Hx Hv Hn Hb Hj o Ho. rewrite u8_testbit, Z.lor_spec, Z.ldiff_spec, bits_mask_testbit, Ho by lia.
  destruct (Z.ltb_spec j 8); [|lia]. rewrite Z.shiftr_spec, Z.shiftl_spec by lia. cbn [andb].
  replace (j + Z.of_nat b - (8 - Z.of_nat n)) with (j + Z.of_nat b + Z.of_nat n - 8) by lia. case_decide.
  - destruct (Z.ltb_spec j (8 - Z.of_nat b)); [|lia].
    destruct (Z.leb_spec (8 - Z.min 8 (Z.of_nat b + Z.of_nat n)) j); [|lia]. cbn. by rewrite andb_false_r.
  - replace (Z.testbit v (j + Z.of_nat b + Z.of_nat n - 8)) with false.
    + replace ((j <? 8 - Z.of_nat b) && (8 - Z.min 8 (Z.of_nat b + Z.of_nat n) <=? j)) with false by lia.
      by rewrite orb_false_r, andb_true_r.
    + symmetry. destruct (decide (j < 8 - Z.of_nat b)).
      * apply Z.testbit_neg_r. lia.
      * apply (small_testbit v (Z.of_nat n)); lia.
Qed.

Lemma second_byte_testbit x v (n : nat) j :
  byte x -> 0 <= v -> (n < 8)%nat -> 0 <= j < 8 ->
  Z.testbit (u8 (Z.lor (Z.ldiff x (get_bits_mask (Z.of_nat n) 0)) (Z.shiftl v (8 - Z.of_nat n)))) j =
  if decide (7 - Z.to_nat j < n)%nat then Z.testbit v (j + Z.of_nat n - 8) else Z.testbit x j.
Proof.
  intros Hx Hv Hn Hj. rewrite u8_testbit, Z.lor_spec, Z.ldiff_spec, bits_mask_testbit by lia.
  destruct (Z.ltb_spec j 8); [|lia]. rewrite Z.shiftl_spec by lia. cbn [andb]. change (0 mod 8) with 0.
  replace (j - (8 - Z.of_nat n)) with (j + Z.of_nat n - 8) by lia. case_decide.
  - replace ((j <? 8 - 0) && (8 - Z.min 8 (0 + Z.of_nat n) <=? j)) with true by lia. by rewrite andb_false_r.
  - replace ((j <? 8 - 0) && (8 - Z.min 8 (0 + Z.of_nat n) <=? j)) with false by lia.
    rewrite (Z.testbit_neg_r v) by lia. by rewrite orb_false_r, andb_true_r.
Qed.

Lemma bit_of_byte_eq l (i q : nat) y :
  l !! i = Some y -> (q < 8)%nat -> bit_of l (8 * i + q) = Z.testbit y (Z.of_nat (7 - q)).
Proof. intros Hy Hq. rewrite bit_of_byte, Hy by done. f_equal. lia. Qed.

(** Also the byte after the run is written when the run ends with its byte. *)
Lemma write_byte_spec l (n o : nat) v :
  Forall byte l -> (1 <= n <= 8)%nat -> 0 <= v < 2 ^ Z.of_nat n -> (o + n < 8 * length l)%nat ->
  exists l', write_unaligned_byte l (Z.of_nat n) (Z.of_nat o) v = Ok l' /\ patched l l' o n v.
Proof.
  intros Hl Hn Hv Ho. destruct (split8 o) as (i & b & -> & Hb). unfold write_unaligned_byte, CHAR_BIT.
  pose proof (zmod8 i b Hb) as Hmod. rewrite zdiv8 by done.
  destruct (get_byte l i) as (x & -> & Hx & Hbx); [done|lia|]. cbn [res_bind]. rewrite Hmod.
  rewrite set_byte by lia. cbn [res_bind].
  set (l1 := <[i := _]> l).
  assert (forall p, bit_of l1 p = if decide (8 * i + b <= p < Nat.min (8 * i + b + n) (8 * i + 8))%nat
    then Z.testbit v (Z.of_nat (8 * i + b + n - 1 - p)) else bit_of l p) as H1.
  { intros p. unfold l1. rewrite bit_of_insert by lia. destruct (split8 p) as (j & q & -> & Hq).
    rewrite div8, mod8 by done. destruct (decide (j = i)) as [->|Hne]; [|rewrite decide_False by lia; done].
    rewrite (first_byte_testbit x v n b) by (done || lia). rewrite (bit_of_byte l i q), Hx by done.
    repeat case_decide; try lia; f_equal; lia. }
  assert (length l1 = length l) as Hlen by apply length_insert.
  assert (Forall byte l1) as Hb1 by (apply Forall_insert; [done|apply u8_byte]).
  replace (Z.of_nat (8 * i + b) + Z.of_nat n) with (Z.of_nat (8 * i + b + n)) by lia.
  destruct (decide (b + n < 8)%nat) as [Hlt|Hge].
  - replace (Z.of_nat (8 * i + b + n)) with (Z.of_nat (8 * i + (b + n))) by lia. rewrite zdiv8, Z.eqb_refl by lia. cbn [negb].
    exists l1. split; [done|]. split; [done|]. split; [done|]. intros p Hp. rewrite H1.
    repeat case_decide; try lia; done.
  - replace (Z.of_nat (8 * i + b + n)) with (Z.of_nat (8 * S i + (b + n - 8))) by lia.
    rewrite zdiv8, zmod8 by lia. destruct (Z.eqb_spec (Z.of_nat (S i)) (Z.of_nat i)); [lia|]. cbn [negb].
    destruct (get_byte l1 (S i)) as (y & -> & Hy & Hby); [done|lia|]. cbn [res_bind].
    rewrite set_byte by lia. eexists; split; [done|]. split; [by rewrite length_insert|].
    split; [apply Forall_insert; [done|apply u8_byte]|]. intros p Hp. rewrite bit_of_insert by lia.
    destruct (split8 p) as (j & q & -> & Hq). rewrite div8, mod8 by done.
    destruct (decide (j = S i)) as [->|Hne]; [|rewrite H1; repeat case_decide; try lia; done].
    rewrite second_byte_testbit by (done || lia).
    assert (Z.testbit y (Z.of_nat (7 - q)) = bit_of l (8 * S i + q)) as Hyb.
    { rewrite <- (bit_of_byte_eq l1 (S i) q y) by done. rewrite H1, decide_False by lia. done. }
    rewrite Hyb. repeat case_decide; try lia; try done. f_equal. lia.
Qed.

Lemma patched_nil l o v : Forall byte l -> patched l l o 0 v.
Proof. intros Hl. split; [done|]. split; [done|]. intros p _. rewrite decide_False by lia. done. Qed.

(** The low bits after the rest. *)
Lemma patched_app l l1 l2 (o n k : nat) v w :
  patched l l1 (o + n) k w -> patched l1 l2 o n (Z.shiftr v (Z.of_nat k)) -> 
  (forall j, 0 <= j < Z.of_nat k -> Z.testbit w j = Z.testbit v j) -> patched l l2 o (n + k) v.
Proof.
  intros (L1 & B1 & P1) (L2 & B2 & P2) Hw. split; [congruence|]. split; [done|]. intros p Hp.
  rewrite P2, P1 by lia. clear P1 P2. destruct (decide (o <= p < o + n)%nat) as [Hi|Ho].
  - rewrite decide_True, Z.shiftr_spec by lia. f_equal. lia.
  - destruct (decide (o + n <= p < o + n + k)%nat) as [Hj|Hj].
    + rewrite decide_True, Hw by lia. f_equal. lia.
    + by rewrite decide_False by lia.
Qed.

Lemma write_loop_spec fuel l (n o : nat) v :
  Forall byte l -> (n <= 8 * fuel)%nat -> 0 <= v -> (o + n < 8 * length l)%nat ->
  exists l', write_loop fuel l (Z.of_nat n) (Z.of_nat o) v = Ok l' /\ patched l l' o n v.
Proof.
  revert l n v. induction fuel as [|fuel IH]; intros l n v Hl Hn Hv Ho.
  - assert (n = 0)%nat as -> by lia. exists l. split; [done|by apply patched_nil].
  - cbn [write_loop]. destruct (Z.leb_spec (Z.of_nat n) 0).
    { assert (n = 0)%nat as -> by lia. exists l. split; [done|by apply patched_nil]. }
    set (k := Nat.min 8 n). unfold CHAR_BIT. replace (Z.min 8 (Z.of_nat n)) with (Z.of_nat k) by lia.
    replace (Z.of_nat o + Z.of_nat n - Z.of_nat k) with (Z.of_nat (o + (n - k))) by lia.
    set (w := Z.land (u8 v) (Z.shiftl 1 (Z.of_nat k) - 1)).
    assert (forall j, 0 <= j < Z.of_nat k -> Z.testbit w j = Z.testbit v j) as Hw.
    { intros j Hj. unfold w. rewrite Z.land_spec, u8_testbit, ones_testbit by lia.
      replace (j <? 8) with true by lia. replace (j <? Z.of_nat k) with true by lia. by rewrite andb_true_r. }
    assert (0 <= w < 2 ^ Z.of_nat k) as Hwr.
    { unfold w. rewrite Z.shiftl_1_l, land_mask by lia. apply Z.mod_pos_bound. lia. }
    destruct (write_byte_spec l k (o + (n - k)) w) as (l1 & -> & P1); [done|lia|done|lia|]. cbn [res_bind].
    pose proof P1 as (L1 & B1 & _). destruct (decide (n <= 8)%nat) as [Hle|Hgt].
    + assert (exists l', write_loop fuel l1 (Z.of_nat n - 8) (Z.of_nat o) (Z.shiftr v 8) = Ok l' /\ l' = l1)
        as (l' & -> & ->).
      { exists l1. split; [|done]. destruct fuel; cbn; destruct (Z.leb_spec (Z.of_nat n - 8) 0); lia || done. }
      exists l1. split; [done|]. replace n with (0 + k)%nat at 1 by lia.
      apply (patched_app l l1 l1 o 0 k v w); [|by apply patched_nil|done].
      by replace (o + (n - k))%nat with (o + 0)%nat in P1 by lia.
    + assert (k = 8)%nat as Hk8 by lia. replace (Z.of_nat n - 8) with (Z.of_nat (n - k)) by lia.
      destruct (IH l1 (n - k)%nat (Z.shiftr v 8)) as (l2 & -> & P2); [done|lia|by apply Z.shiftr_nonneg|lia|].
      exists l2. split; [done|]. replace n with (n - k + k)%nat at 1 by lia.
      apply (patched_app l l1 l2 o (n - k) k v w); [done| |done]. by replace (Z.of_nat k) with 8 by lia.
Qed.

Lemma write_bits_spec l (n o : nat) v :
  Forall byte l -> (n <= 32)%nat -> 0 <= v -> (o + n < 8 * length l)%nat ->
  exists l', write_unaligned_bits l (Z.of_nat n) (Z.of_nat o) v = Ok l' /\ patched l l' o n v.
Proof.
  intros. unfold write_unaligned_bits. replace (Z.min (Z.max (Z.of_nat n) 0) 32) with (Z.of_nat n) by lia.
  by apply write_loop_spec.
Qed.

(** ** The effect of a change on the hash *)

Lemma seq_split_3 o n k : seq 0 (o + n + k) = seq 0 o ++ seq o n ++ seq (o + n) k.
Proof. by rewrite <- Nat.add_assoc, seq_app, seq_app. Qed.

Lemma xor_run (f : nat -> Z) (o n : nat) v :
  (n <= 32)%nat -> 0 <= v < 2 ^ Z.of_nat n ->
  xor_list ((fun p => if Z.testbit v (Z.of_nat (o + n - 1 - p)) then f p else 0) <$> seq o n) =
  xor_list ((fun k => f (o + n - 1 - Z.to_nat k)%nat) <$> set_bits v).
Proof.
  intros Hn Hv.
  assert (set_bits v ≡ₚ filter (fun k => Z.testbit v k = true) ((fun p => Z.of_nat (o + n - 1 - p)) <$> seq o n)) as ->.
  { apply NoDup_Permutation; [apply set_bits_NoDup| |].
    - apply NoDup_filter. apply NoDup_fmap_2_strong; [|apply NoDup_seq].
      intros x y Hx%elem_of_seq Hy%elem_of_seq. lia.
    - intros k. rewrite elem_of_set_bits, list_elem_of_filter, list_elem_of_fmap. split.
      + intros [Hk Ht]. split; [done|]. assert (k < Z.of_nat n).
        { destruct (decide (k < Z.of_nat n)); [done|]. rewrite (small_testbit v (Z.of_nat n)) in Ht by lia. done. }
        exists (o + n - 1 - Z.to_nat k)%nat. rewrite elem_of_seq. lia.
      + intros (Ht & p & -> & Hp%elem_of_seq). split; [lia|done]. }
  assert (forall ps, (forall p, p ∈ ps -> (o <= p < o + n)%nat) ->
    xor_list ((fun p => if Z.testbit v (Z.of_nat (o + n - 1 - p)) then f p else 0) <$> ps) =
    xor_list ((fun k => f (o + n - 1 - Z.to_nat k)%nat) <$>
      filter (fun k => Z.testbit v k = true) ((fun p => Z.of_nat (o + n - 1 - p)) <$> ps))) as H.
  { induction ps as [|p ps IH]; intros Hps; [done|]. rewrite !fmap_cons, filter_cons.
    assert (o <= p < o + n)%nat by (apply Hps; left). unfold xor_list in *. case_decide as Hc.
    - rewrite fmap_cons, Hc. cbn [foldr]. rewrite IH by (intros; apply Hps; by right). f_equal. f_equal. lia.
    - apply not_true_is_false in Hc. rewrite Hc. cbn [foldr]. rewrite Z.lxor_0_l. apply IH. intros. apply Hps. by right. }
  apply H. intros p Hp%elem_of_seq. lia.
Qed.

Lemma bit_of_take l m p : (p < 8 * m)%nat -> (m <= length l)%nat -> bit_of (take m l) p = bit_of l p.
Proof.
  intros Hp Hm. rewrite <- (take_drop m l) at 2. rewrite bit_of_app_l; [done|]. rewrite length_take. lia.
Qed.

Lemma patched_take l l' o n v m :
  patched l l' o n v -> (m <= length l)%nat -> patched (take m l) (take m l') o n v.
Proof.
  intros (Hl & Hb & Hp) Hm. split; [rewrite !length_take; lia|]. split; [by apply Forall_take|].
  intros p. rewrite length_take, Nat.min_l by done. intros Hpm. rewrite !bit_of_take by lia. apply Hp. lia.
Qed.

Lemma field_take l o n m :
  (o + n <= 8 * m)%nat -> (m <= length l)%nat -> field (take m l) o n = field l o n.
Proof.
  intros Ho Hm. apply field_eq; [apply field_range|]. intros j Hj. rewrite field_testbit by lia.
  replace (j <? Z.of_nat n) with true by lia. cbn [andb]. apply bit_of_take; lia.
Qed.

Lemma toeplitz_flip key l l' (o n : nat) v :
  (n <= 32)%nat -> (o + n <= 8 * length l)%nat -> 0 <= v < 2 ^ Z.of_nat n ->
  patched l l' o n (Z.lxor (field l o n) v) ->
  toeplitz key l' =
  Z.lxor (toeplitz key l) (xor_list ((fun k => window key (o + n - 1 - Z.to_nat k)) <$> set_bits v)).
Proof.
  intros Hn Ho Hv (Hl & _ & Hp). unfold toeplitz. rewrite Hl, <- xor_run by done.
  set (g := fun p => if decide (o <= p < o + n)%nat then
    if Z.testbit v (Z.of_nat (o + n - 1 - p)) then window key p else 0 else 0).
  transitivity (Z.lxor (xor_list ((fun p => if bit_of l p then window key p else 0) <$> seq 0 (8 * length l)))
    (xor_list (g <$> seq 0 (8 * length l)))).
  - rewrite <- xor_list_lxor. apply xor_list_ext. intros p Hps%elem_of_seq. rewrite Hp by lia. unfold g.
    case_decide; [|by rewrite Z.lxor_0_r]. rewrite Z.lxor_spec, field_testbit by lia.
    replace (Z.of_nat (o + n - 1 - p) <? Z.of_nat n) with true by (symmetry; apply Z.ltb_lt; lia). cbn [andb].
    replace (o + n - 1 - Z.to_nat (Z.of_nat (o + n - 1 - p)))%nat with p by lia.
    destruct (bit_of l p), (Z.testbit v _); cbn [xorb];
      by rewrite ?Z.lxor_nilpotent, ?Z.lxor_0_l, ?Z.lxor_0_r.
  - f_equal. replace (8 * length l)%nat with (o + n + (8 * length l - o - n))%nat by lia.
    rewrite seq_split_3, !fmap_app, !xor_list_app.
    rewrite (xor_list_zero g (seq 0 o)), (xor_list_zero g (seq (o + n) _)), Z.lxor_0_l, Z.lxor_0_r.
    + apply xor_list_ext. intros p Hps%elem_of_seq. unfold g. by rewrite decide_True by lia.
    + intros p Hps%elem_of_seq. unfold g. by rewrite decide_False by lia.
    + intros p Hps%elem_of_seq. unfold g. by rewrite decide_False by lia.
Qed.

(** ** The complement table *)

Section Table.
Variables (ctx : rte_thash_ctx) (r : nat).
Hypothesis Hr : reta_sz_log ctx = Z.of_nat r.
Hypothesis Hr16 : (1 <= r <= 16)%nat.
Hypothesis Hkey : Forall byte (hash_key ctx).

Let key := hash_key ctx.

Lemma land_ones_r v : Z.land v (Z.shiftl 1 (Z.of_nat r) - 1) = v mod 2 ^ Z.of_nat r.
Proof. rewrite Z.shiftl_1_l. apply land_mask. lia. Qed.

(** The low bits of a window. *)
Lemma window_low n : window key n mod 2 ^ Z.of_nat r = field key (n + 32 - r) r.
Proof.
  rewrite window_field. replace 32%nat with (32 - r + r)%nat at 1 by lia. rewrite field_low. f_equal. lia.
Qed.

(** Four bytes are read, for at most 23 bits. *)
Lemma get_subvalue_spec (o : nat) :
  (o / 8 + 4 <= length key)%nat -> get_subvalue ctx (Z.of_nat o) = Ok (field key o r).
Proof.
  intros Ho. unfold get_subvalue, TOEPLITZ_HASH_LEN, CHAR_BIT. rewrite Hr.
  destruct (split8 o) as (i & b & -> & Hb). rewrite div8 in Ho by done.
  rewrite Z.shiftr_div_pow2 by lia. change (2 ^ 3) with 8. change (8 - 1) with (2 ^ 3 - 1).
  rewrite land_mask by lia. change (2 ^ 3) with 8. rewrite zdiv8, zmod8 by done.
  rewrite be32_at_spec by done. cbn [res_bind]. f_equal. fold key.
  rewrite land_ones_r, window_field. replace 32%nat with (b + r + (32 - (b + r)))%nat at 1 by lia.
  replace (32 - (Z.of_nat b + Z.of_nat r)) with (Z.of_nat (32 - (b + r))) by lia.
  rewrite field_shiftr. apply field_low.
Qed.

(** The change of the low bits of the hash when the bits [j] of the subtuple
    that ends before bit [e] change. *)
Definition change (e : nat) (j : Z) : Z :=
  xor_list ((fun k => field key (e + 31 - r - Z.to_nat k) r) <$> set_bits j).

Lemma compl_value_spec (e : nat) start fuel j val :
  (e + 31 <= 8 * (length key - 3))%nat -> (r <= e)%nat -> Z.of_nat e < 2 ^ 31 ->
  start = Z.of_nat e + 32 - 2 * Z.of_nat r -> 0 <= j < 2 ^ Z.of_nat r ->
  (length (set_bits j) <= fuel)%nat ->
  compl_value fuel ctx start j val = Ok (Z.lxor val (change e j)).
Proof.
  intros Hk He He31 -> Hj. assert (2 ^ Z.of_nat r <= 2 ^ 16) by (apply Z.pow_le_mono_r; lia).
  revert j val Hj. induction fuel as [|fuel IH]; intros j val Hj Hf.
  - assert (j = 0) as -> by (apply set_bits_nil; [lia|]; destruct (set_bits j); [done|cbn in Hf; lia]).
    unfold change. cbn. by rewrite Z.lxor_0_r.
  - cbn [compl_value]. destruct (Z.eqb_spec j 0) as [->|Hne]; [unfold change; cbn; by rewrite Z.lxor_0_r|].
    destruct (set_bits_step j) as (Hp & Hr2 & Hb); [lia|].
    assert (rte_bsf32 j ∈ set_bits j) as Hin by (rewrite Hp; left).
    apply elem_of_set_bits in Hin as [Hb32 Hbit].
    assert (rte_bsf32 j < Z.of_nat r).
    { destruct (decide (rte_bsf32 j < Z.of_nat r)); [done|]. rewrite (small_testbit j (Z.of_nat r)) in Hbit by lia. done. }
    rewrite Hr. rewrite (wrapu_small 32) by lia.
    replace (Z.of_nat e + 32 - 2 * Z.of_nat r - rte_bsf32 j + Z.of_nat r - 1)
      with (Z.of_nat (e + 31 - r - Z.to_nat (rte_bsf32 j))) by lia.
    rewrite get_subvalue_spec.
    2: { assert ((e + 31 - r - Z.to_nat (rte_bsf32 j)) / 8 < length key - 3)%nat; [|lia].
         apply Nat.Div0.div_lt_upper_bound. lia. }
    cbn [res_bind]. rewrite IH.
    + unfold change. rewrite Hp. unfold xor_list. cbn [fmap list_fmap foldr]. by rewrite Z.lxor_assoc.
    + destruct Hr2 as [Hpos _]. split; [done|]. destruct (decide (Z.land j (j - 1) = 0)) as [->|]; [lia|].
      apply Z.log2_lt_pow2; [lia|]. apply Z.le_lt_trans with (Z.log2 j); [|apply Z.log2_lt_pow2; lia].
      etransitivity; [apply Z.log2_land; lia|]. lia.
    + apply Permutation_length in Hp. cbn in Hp. lia.
Qed.

Lemma lxor_range n a b : 0 <= n -> 0 <= a < 2 ^ n -> 0 <= b < 2 ^ n -> 0 <= Z.lxor a b < 2 ^ n.
Proof.
  intros Hn Ha Hb. split; [by apply Z.lxor_nonneg; lia|].
  destruct (decide (Z.lxor a b = 0)) as [->|]; [lia|]. assert (0 <= Z.lxor a b) by (apply Z.lxor_nonneg; lia).
  apply Z.log2_lt_pow2; [lia|]. apply Z.le_lt_trans with (Z.max (Z.log2 a) (Z.log2 b)).
  - apply Z.log2_lxor; lia.
  - assert (0 < n).
    { destruct (decide (n = 0)) as [->|]; [|lia]. change (2 ^ 0) with 1 in *. assert (a = 0) as -> by lia.
      assert (b = 0) as -> by lia. done. }
    assert (forall x, 0 <= x < 2 ^ n -> Z.log2 x < n) as Hx.
    { intros x Hx. destruct (decide (x = 0)) as [->|]; [cbn; lia|]. apply Z.log2_lt_pow2; lia. }
    pose proof (Hx a Ha). pose proof (Hx b Hb). lia.
Qed.

Lemma change_range e j : 0 <= change e j < 2 ^ Z.of_nat r.
Proof.
  unfold change. induction (set_bits j) as [|k ks IH]; [cbn; lia|]. unfold xor_list in *. cbn [fmap list_fmap foldr].
  apply lxor_range; [lia|apply field_range|exact IH].
Qed.

Lemma change_lxor e i j : change e (Z.lxor i j) = Z.lxor (change e i) (change e j).
Proof.
  assert (forall v, change e v = xor_list ((fun k => if Z.testbit v k then field key (e + 31 - r - Z.to_nat k) r else 0) <$> seqZ 0 32)) as H.
  { intros v. unfold change, set_bits. induction (seqZ 0 32) as [|k l IH]; [done|]. rewrite filter_cons. unfold xor_list in *.
    cbn [fmap list_fmap foldr]. destruct (Z.testbit v k) eqn:E; [rewrite decide_True by done|rewrite decide_False by done].
    - cbn [fmap list_fmap foldr]. by rewrite IH.
    - by rewrite IH, Z.lxor_0_l. }
  rewrite !H, <- xor_list_lxor. apply xor_list_ext. intros k _. rewrite Z.lxor_spec.
  destruct (Z.testbit i k), (Z.testbit j k); cbn; by rewrite ?Z.lxor_0_l, ?Z.lxor_0_r, ?Z.lxor_nilpotent.
Qed.

(** Every entry that was set undoes its index. *)
Definition table_ok (e : nat) (table : list Z) : Prop :=
  length table = Z.to_nat (2 ^ Z.of_nat r) /\
  forall v i, table !! v = Some i -> 0 <= i < 2 ^ Z.of_nat r /\ (i = 0 \/ change e i = Z.of_nat v).

Lemma compl_loop_spec (e : nat) start k i table :
  (e + 31 <= 8 * (length key - 3))%nat -> (r <= e)%nat -> Z.of_nat e < 2 ^ 31 ->
  start = Z.of_nat e + 32 - 2 * Z.of_nat r -> 0 <= i -> i + Z.of_nat k = 2 ^ Z.of_nat r -> table_ok e table ->
  exists table', compl_loop k ctx start i table = Ok table' /\ table_ok e table' /\
    (forall v x, 0 < i -> table !! v = Some x -> x <> 0 -> exists y, table' !! v = Some y /\ y <> 0) /\
    (forall j, 0 < i <= j -> j < 2 ^ Z.of_nat r -> exists y, table' !! Z.to_nat (change e j) = Some y /\ y <> 0).
Proof.
  intros Hk He He31 Hs. revert i table. induction k as [|k IH]; intros i table Hi Hik Ht.
  { exists table. split; [done|]. split; [done|]. split; [eauto|lia]. }
  cbn [compl_loop]. rewrite (compl_value_spec e) by (done || lia || apply set_bits_length). cbn [res_bind].
  rewrite Z.lxor_0_l. pose proof (change_range e i) as Hc. destruct Ht as [Hlen Ht].
  rewrite array_set_lt by (rewrite Hlen; lia). cbn [res_bind].
  destruct (IH (i + 1) (<[Z.to_nat (change e i) := i]> table)) as (table' & -> & Ht' & Hkeep & Hall); [lia|lia| |].
  { split; [by rewrite length_insert|]. intros v x Hx. apply list_lookup_insert_Some in Hx as [(<- & <- & _)|[_ Hx]].
    - split; [lia|]. right. lia.
    - by apply Ht. }
  exists table'. split; [done|]. split; [done|].
  split.
  - intros v x H0 Hx Hx0. destruct (decide (v = Z.to_nat (change e i))) as [->|Hne].
    + apply (Hkeep _ i); [lia|apply list_lookup_insert_eq; lia|lia].
    + apply (Hkeep _ x); [lia|by rewrite list_lookup_insert_ne|done].
  - intros j H0 Hj. destruct (decide (i = j)) as [<-|]; [|apply Hall; lia].
    apply (Hkeep _ i); [lia|apply list_lookup_insert_eq; lia|lia].
Qed.

(** When no value but 0 is without effect every value has an entry. *)
Lemma compl_loop_complete (e : nat) (table : list Z) :
  length table = Z.to_nat (2 ^ Z.of_nat r) ->
  (forall j, 0 < j < 2 ^ Z.of_nat r -> change e j <> 0) ->
  (forall j, 0 < j < 2 ^ Z.of_nat r -> exists y, table !! Z.to_nat (change e j) = Some y /\ y <> 0) ->
  forall v x, table !! v = Some x -> v <> 0%nat -> x <> 0.
Proof.
  intros Hlen Hinj Htab v x Hx Hv. pose proof (Z.pow_pos_nonneg 2 (Z.of_nat r) ltac:(lia) ltac:(lia)) as H2.
  set (n := 2 ^ Z.of_nat r - 1). assert (Permutation (change e <$> seqZ 1 n) (seqZ 1 n)) as Hp.
  { apply submseteq_length_Permutation; [|by rewrite length_fmap]. apply NoDup_submseteq.
    - apply NoDup_fmap_2_strong; [|apply NoDup_seqZ]. intros i j Hi%elem_of_seqZ Hj%elem_of_seqZ E.
      destruct (decide (Z.lxor i j = 0)) as [Hz|Hz]; [by apply Z.lxor_eq|]. exfalso.
      pose proof (lxor_range (Z.of_nat r) i j ltac:(lia) ltac:(lia) ltac:(lia)).
      apply (Hinj (Z.lxor i j)); [lia|]. by rewrite change_lxor, E, Z.lxor_nilpotent.
    - intros y Hy. apply list_elem_of_fmap in Hy as (j & -> & Hj%elem_of_seqZ). apply elem_of_seqZ.
      pose proof (change_range e j). specialize (Hinj j ltac:(lia)). lia. }
  assert (Z.of_nat v ∈ seqZ 1 n) as Hin by (apply elem_of_seqZ; apply lookup_lt_Some in Hx; lia).
  rewrite <- Hp in Hin. apply list_elem_of_fmap in Hin as (j & Ej & Hj%elem_of_seqZ).
  destruct (Htab j ltac:(lia)) as (y & Hy & Hy0). rewrite <- Ej, Nat2Z.id in Hy. congruence.
Qed.
End Table.

(** ** The key *)

Definition same_outside (l l' : list Z) (a b : nat) : Prop :=
  length l' = length l /\ Forall byte l' /\
  forall p, (p < 8 * length l)%nat -> (p < a \/ b <= p)%nat -> bit_of l' p = bit_of l p.

Lemma get_bit_ret l : snd (get_bit_lfsr l) = Z.b2z (Z.testbit (state l) 0).
Proof.
  unfold get_bit_lfsr. cbn [snd]. change 1 with (2 ^ 1 - 1). rewrite land_mask by lia. symmetry. apply Z.bit0_mod.
Qed.

Lemma rev_iter_frame n l l' :
  Nat.iter n (fun l => fst (get_rev_bit_lfsr l)) l = l' -> deg l' = deg l /\ poly l' = poly l /\ state l' = state l.
Proof. intros <-. induction n as [|n IH]; [done|]. exact IH. Qed.

(** ** The sequence of the register *)

Definition tick (l : thash_lfsr) : thash_lfsr := fst (get_bit_lfsr l).

Definition output (l : thash_lfsr) (t : nat) : bool := Z.testbit (state (Nat.iter t tick l)) 0.

Lemma parity32_spec v :
  parity32 v = Z.b2z (foldl (fun p j => xorb p (Z.testbit v (Z.of_nat j))) false (seq 0 32)).
Proof.
  unfold parity32. change (seqZ 0 32) with (Z.of_nat <$> seq 0 32). rewrite foldl_fmap. change 0 with (Z.b2z false).
  generalize false as b. induction (seq 0 32) as [|j l IH]; intros b; [done|]. cbn [foldl]. rewrite <- IH. f_equal.
  by destruct (Z.testbit v (Z.of_nat j)), b.
Qed.

(** A register of [r] bits. *)
Record lfsr_ok (r : nat) (l : thash_lfsr) : Prop := {
  lf_deg : deg l = Z.of_nat r;
  lf_poly : 0 <= poly l < 2 ^ Z.of_nat r;
  lf_state : 0 <= state l < 2 ^ Z.of_nat r
}.

Section Register.
Variable r : nat.
Hypothesis Hr : (1 <= r <= 16)%nat.

Lemma tick_ok l : lfsr_ok r l -> lfsr_ok r (tick l) /\ poly (tick l) = poly l.
Proof.
  intros [H1 H2 H3]. unfold tick, get_bit_lfsr. cbn [fst]. split; [|done]. split; cbn; [done|done|].
  rewrite H1, Z.shiftl_1_l, land_mask by lia. apply Z.mod_pos_bound, Z.pow_pos_nonneg; lia.
Qed.

Lemma tick_testbit l j :
  lfsr_ok r l -> 0 <= j < Z.of_nat r ->
  Z.testbit (state (tick l)) j = if j =? Z.of_nat r - 1 then parity32 (Z.land (state l) (poly l)) =? 1 else Z.testbit (state l) (j + 1).
Proof.
  intros [H1 _ H3] Hj. unfold tick, get_bit_lfsr. cbn [fst state]. rewrite H1, Z.shiftl_1_l, land_mask by lia.
  rewrite Z.mod_pow2_bits_low, Z.lor_spec, Z.shiftr_spec by lia. rewrite parity32_spec. set (b := foldl _ _ _).
  assert (2 ^ (Z.of_nat r - 1) <= 2 ^ 15) by (apply Z.pow_le_mono_r; lia). pose proof (Z.pow_pos_nonneg 2 (Z.of_nat r - 1) ltac:(lia) ltac:(lia)).
  assert (u32 (Z.shiftl (Z.b2z b) (Z.of_nat r - 1)) = if b then 2 ^ (Z.of_nat r - 1) else 0) as ->.
  { destruct b; cbn [Z.b2z]; [rewrite Z.shiftl_1_l; apply wrapu_small; lia|by rewrite Z.shiftl_0_l]. }
  destruct (Z.eqb_spec j (Z.of_nat r - 1)) as [->|Hne].
  - replace (Z.of_nat r - 1 + 1) with (Z.of_nat r) by lia. rewrite (small_testbit (state l) (Z.of_nat r)) by lia. cbn [orb].
    destruct b; [by rewrite Z.pow2_bits_true by lia|by rewrite Z.bits_0].
  - destruct b; [rewrite Z.pow2_bits_false by lia|rewrite Z.bits_0]; by rewrite orb_false_r.
Qed.

Lemma iter_ok l t : lfsr_ok r l -> lfsr_ok r (Nat.iter t tick l) /\ poly (Nat.iter t tick l) = poly l.
Proof.
  intros Hl. induction t as [|t [IH Ip]]; [done|]. rewrite Nat.iter_succ. destruct (tick_ok _ IH) as [H1 H2]. split; [done|]. by rewrite H2.
Qed.

(** The state is the next [r] bits of the sequence. *)
Lemma state_output l t (j : nat) :
  lfsr_ok r l -> (j < r)%nat -> Z.testbit (state (Nat.iter t tick l)) (Z.of_nat j) = output l (t + j).
Proof.
  intros Hl. revert t. induction j as [|j IH]; intros t Hj; [by rewrite Nat.add_0_r|].
  replace (t + S j)%nat with (S t + j)%nat by lia. rewrite <- IH by lia. rewrite Nat.iter_succ.
  rewrite tick_testbit by (lia || by apply iter_ok). destruct (Z.eqb_spec (Z.of_nat j) (Z.of_nat r - 1)); [lia|]. f_equal. lia.
Qed.

(** The recurrence of the polynomial. *)
Lemma output_recurrence l t : lfsr_ok r l -> output l (t + r) = act (Z.to_N (poly l)) (output l) t.
Proof.
  intros Hl. destruct (iter_ok l t Hl) as [Hi Hp]. pose proof Hl as [_ Hpl _].
  replace (t + r)%nat with (S t + (r - 1))%nat by lia. rewrite <- state_output by (done || lia). rewrite Nat.iter_succ.
  rewrite tick_testbit by (done || lia). destruct (Z.eqb_spec (Z.of_nat (r - 1)) (Z.of_nat r - 1)); [|lia].
  rewrite parity32_spec, Hp. transitivity (xorb false (act (Z.to_N (poly l)) (output l) t)); [|by destruct (act _ _ _)].
  rewrite <- (act_bits 32).
  - match goal with |- (Z.b2z ?b =? 1) = _ => transitivity b; [by destruct b|] end.
    apply foldl_ext_in. intros b j _. f_equal. rewrite Z.land_spec, to_N_testbit by lia.
    replace (Z.of_N (N.of_nat j)) with (Z.of_nat j) by lia. rewrite andb_comm.
    destruct (Z.testbit (poly l) (Z.of_nat j)) eqn:E; [|done]. cbn [andb]. apply state_output; [done|].
    destruct (decide (j < r)%nat); [done|]. rewrite (small_testbit (poly l) (Z.of_nat r)) in E by lia. done.
  - change (N.of_nat 32) with (Z.to_N 32). apply to_N_lt; [lia|done|]. apply Z.lt_le_trans with (2 ^ Z.of_nat r); [lia|].
    apply Z.pow_le_mono_r; lia.
Qed.

(** No combination of [r] windows of the sequence is zero. *)
Lemma output_independent l ks m :
  (2 <= r)%nat -> lfsr_ok r l -> state l <> 0 -> irreducible (whole (poly l) (Z.of_nat r)) ->
  NoDup ks -> Forall (fun k => k < r)%nat ks -> ks <> [] ->
  ~ (forall i, (i < r)%nat -> foldr xorb false ((fun k => output l (m + i + k)) <$> ks) = false).
Proof.
  intros Hr2 Hl Hst Hirr Hnd Hks Hne Hz. pose proof Hl as [_ Hpl Hsl].
  set (q := foldr (fun k acc => N.lxor (2 ^ N.of_nat k) acc) 0%N ks).
  assert (forall t, act q (output l) t = foldr xorb false ((fun k => output l (t + k)) <$> ks)) as Hact.
  { intros t. unfold q. clear. induction ks as [|k ks IH]; [done|]. cbn [foldr fmap list_fmap]. by rewrite act_lxor, act_pow, IH. }
  assert (forall k, N.testbit q (N.of_nat k) = bool_decide (k ∈ ks)) as Hbit.
  { intros k. unfold q. clear -Hnd. induction Hnd as [|x ks Hx _ IH]; [by rewrite N.bits_0|]. cbn [foldr].
    rewrite N.lxor_spec, IH, N.pow2_bits_eqb. destruct (N.eqb_spec (N.of_nat x) (N.of_nat k)) as [E|E].
    - apply Nat2N.inj in E as <-. rewrite bool_decide_false by done. by rewrite bool_decide_true by left.
    - rewrite xorb_false_l. apply bool_decide_ext. rewrite elem_of_cons. naive_solver. }
  assert (forall t, output l t = false) as Hzero.
  { apply (recurrence_window (Z.to_N (poly l)) r (output l) q m Hr2).
    - replace (N.of_nat r) with (Z.to_N (Z.of_nat r)) by lia. apply to_N_lt; lia.
    - unfold whole in Hirr. by replace (N.of_nat r) with (Z.to_N (Z.of_nat r)) by lia.
    - intros t. by apply output_recurrence.
    - intros E. destruct ks as [|k ks]; [done|]. specialize (Hbit k). rewrite E, N.bits_0, bool_decide_true in Hbit by left. done.
    - apply less_than_pow. intros i Hi. rewrite <- (N2Nat.id i), Hbit. apply bool_decide_false. intros Hin.
      rewrite Forall_forall in Hks. specialize (Hks _ Hin). lia.
    - intros i Hi. rewrite Hact. by apply Hz. }
  apply Hst. apply Z.bits_inj'. intros j Hj. rewrite Z.bits_0. destruct (decide (j < Z.of_nat r)).
  - replace j with (Z.of_nat (Z.to_nat j)) by lia. rewrite <- (Hzero (0 + Z.to_nat j)%nat). by apply (state_output l 0); [|lia].
  - apply (small_testbit _ (Z.of_nat r)); lia.
Qed.
End Register.

Lemma subkey_loop_spec k l lf (i : nat) :
  Forall byte l -> (i + k <= 8 * length l)%nat ->
  exists l' lf', subkey_loop k l lf (Z.of_nat i) = Ok (l', lf') /\ same_outside l l' i (i + k) /\
    forall t, (t < k)%nat -> bit_of l' (i + t) = output lf t.
Proof.
  revert l lf i. induction k as [|k IH]; intros l lf i Hl Hi.
  - exists l, lf. split; [done|]. split; [done|]. lia.
  - cbn [subkey_loop]. destruct (get_bit_lfsr lf) as [lf1 bit] eqn:E.
    assert (bit = Z.b2z (Z.testbit (state lf) 0)) as -> by (rewrite <- get_bit_ret, E; done).
    destruct (set_bit_spec l (Z.testbit (state lf) 0) i) as (l1 & -> & L1 & B1 & P1); [done|lia|]. cbn [res_bind].
    replace (Z.of_nat i + 1) with (Z.of_nat (S i)) by lia.
    destruct (IH l1 lf1 (S i)) as (l2 & lf2 & -> & (L2 & B2 & P2) & O2); [done|lia|].
    exists l2, lf2. split; [done|]. split; [split; [congruence|]; split; [done|]|].
    + intros p Hp Hout. rewrite P2, P1 by lia. by rewrite decide_False by lia.
    + intros [|t] Ht.
      * rewrite Nat.add_0_r, P2, P1, decide_True by lia. replace (i + 1 - 1 - i)%nat with 0%nat by lia. apply Z.b2z_bit0.
      * replace (i + S t)%nat with (S i + t)%nat by lia. rewrite O2 by lia. unfold output. rewrite Nat.iter_succ_r.
        replace (tick lf) with lf1 by (unfold tick; by rewrite E). done.
Qed.

Record ctx_ok (ctx : rte_thash_ctx) : Prop := {
  co_reta : 2 <= reta_sz_log ctx <= 16;
  co_key : Forall byte (hash_key ctx);
  co_len : 0 <= key_len ctx /\ key_len ctx + 3 <= Z.of_nat (length (hash_key ctx)) /\ key_len ctx < 2 ^ 26
}.

(** A helper that belongs to the key of its context. *)
Record helper_ok (ctx : rte_thash_ctx) (h : rte_thash_subtuple_helper) : Prop := {
  ho_ctx : ctx_ok ctx;
  ho_tuple : 0 <= tuple_offset h /\ reta_sz_log ctx <= tuple_len h;
  ho_end : tuple_offset h + tuple_len h + 31 <= 8 * key_len ctx;
  ho_msk : lsb_msk h = 2 ^ reta_sz_log ctx - 1;
  ho_table : table_ok ctx (Z.to_nat (reta_sz_log ctx)) (Z.to_nat (tuple_offset h + tuple_len h)) (compl_table h)
}.

(** Every value but 0 has an entry. *)
Definition complete (h : rte_thash_subtuple_helper) : Prop :=
  forall v i, compl_table h !! v = Some i -> v <> 0%nat -> i <> 0.

(** What the allocation of a register gives. *)
Lemma alloc_lfsr_spec (r : nat) rnd lf :
  (2 <= r <= 16)%nat -> alloc_lfsr (Z.of_nat r) rnd = Ok (Some lf) ->
  lfsr_ok r lf /\ state lf <> 0 /\ irreducible (whole (poly lf) (Z.of_nat r)) /\ bits_cnt lf = 0.
Proof.
  intros Hr. unfold alloc_lfsr. destruct (Z.ltb_spec 32 (Z.of_nat r)); [lia|]. destruct (Z.eqb_spec (Z.of_nat r) 0); [lia|]. cbn [orb].
  pose proof (rand_poly_good (Z.of_nat r) rnd ltac:(lia)) as Hg. destruct (thash_get_rand_poly _ rnd) as [[p rnd']| |]; [|done|done].
  cbn [res_bind]. destruct Hg as [Hp Hirr]. destruct (rand_state _ rnd') as [st| |] eqn:Est; [|done|done]. cbn [res_bind].
  intros [= <-]. assert (0 <= st < 2 ^ Z.of_nat r /\ st <> 0) as [Hst Hne].
  { rewrite Z.shiftl_1_l in Est. clear -Est. induction rnd' as [|x rnd' IH]; [done|]. cbn [rand_state] in Est.
    rewrite land_mask in Est by lia. destruct (Z.eqb_spec (x mod 2 ^ Z.of_nat r) 0); [by apply IH|]. injection Est as <-.
    split; [apply Z.mod_pos_bound, Z.pow_pos_nonneg; lia|done]. }
  match goal with |- context [Nat.iter ?n ?f ?l] => destruct (Nat.iter n f l) as [] eqn:E; apply rev_iter_frame in E as (E1 & E2 & E3) end.
  cbn [poly state deg bits_cnt] in *. split; [|by rewrite E2, E3]. split; cbn [poly state deg]; by rewrite ?E1, ?E2, ?E3.
Qed.

(** The windows of the sequence in the key are independent. *)
Lemma change_nonzero ctx (r : nat) lf (off len : nat) j :
  reta_sz_log ctx = Z.of_nat r -> (2 <= r <= 16)%nat -> (r <= len)%nat ->
  lfsr_ok r lf -> state lf <> 0 -> irreducible (whole (poly lf) (Z.of_nat r)) ->
  (forall t, (t < len + 31)%nat -> bit_of (hash_key ctx) (off + t) = output lf t) ->
  0 < j < 2 ^ Z.of_nat r -> change ctx r (off + len) j <> 0.
Proof.
  intros Hreta Hr Hlen Hl Hst Hirr Hkey Hj Hz. assert (2 ^ Z.of_nat r <= 2 ^ 16) by (apply Z.pow_le_mono_r; lia).
  assert (forall k, k ∈ set_bits j -> 0 <= k < Z.of_nat r) as Hk.
  { intros k [Hk Hb]%elem_of_set_bits. split; [lia|]. destruct (decide (k < Z.of_nat r)); [done|].
    rewrite (small_testbit j (Z.of_nat r)) in Hb by lia. done. }
  apply (output_independent r ltac:(lia) lf ((fun k => (r - 1 - Z.to_nat k)%nat) <$> set_bits j) (len + 32 - 2 * r)); try done; try lia.
  - apply NoDup_fmap_2_strong; [|apply set_bits_NoDup]. intros x y Hx%Hk Hy%Hk. lia.
  - apply Forall_fmap, Forall_forall. intros k Hin%Hk. cbn. lia.
  - intros E%fmap_nil_inv. apply set_bits_nil in E; lia.
  - intros i Hi. rewrite <- list_fmap_compose. unfold change in Hz.
    apply (f_equal (fun v => Z.testbit v (Z.of_nat (r - 1 - i)))) in Hz. rewrite Z.bits_0 in Hz. etransitivity; [|exact Hz].
    clear Hz. assert (forall k, k ∈ set_bits j -> 0 <= k < Z.of_nat r) as Hk' by done. clear Hk. revert Hk'.
    induction (set_bits j) as [|k ks IH]; intros Hk; unfold xor_list in *; cbn [fmap list_fmap foldr]; [by rewrite Z.bits_0|].
    rewrite Z.lxor_spec, IH by (intros x Hx; apply Hk; by right). f_equal. specialize (Hk k ltac:(left)).
    rewrite field_testbit by lia. destruct (Z.ltb_spec (Z.of_nat (r - 1 - i)) (Z.of_nat r)); [|lia]. cbn [andb compose].
    replace (off + len + 31 - r - Z.to_nat k + r - 1 - Z.to_nat (Z.of_nat (r - 1 - i)))%nat
      with (off + (len + 32 - 2 * r + i + (r - 1 - Z.to_nat k)))%nat by lia.
    symmetry. apply Hkey. lia.
Qed.

(** A helper is added unless the sequence is longer than its period; its table
    is complete. *)
Lemma add_helper_spec ctx len offset rnd lf :
  ctx_ok ctx -> flags ctx = 0 -> 0 <= offset -> reta_sz_log ctx <= len ->
  offset + len + 31 <= 8 * key_len ctx ->
  alloc_lfsr (reta_sz_log ctx) rnd = Ok (Some lf) ->
  if decide (len + 31 <= 2 ^ reta_sz_log ctx - 1) then
    exists ctx' h, rte_thash_add_helper ctx len offset rnd = Ok (Some (ctx', h)) /\ helper_ok ctx' h /\ complete h /\
      tuple_offset h = offset /\ tuple_len h = len /\
      reta_sz_log ctx' = reta_sz_log ctx /\ key_len ctx' = key_len ctx /\
      same_outside (hash_key ctx) (hash_key ctx') (Z.to_nat offset) (Z.to_nat (offset + len + 31))
  else rte_thash_add_helper ctx len offset rnd = Ok None.
Proof.
  intros [Hr Hk (Hkl0 & Hkl & Hklm)] Hf Ho Hl He Hlf. unfold rte_thash_add_helper, add_nonoverlapping, new_helper.
  unfold CHAR_BIT, TOEPLITZ_HASH_LEN. cbn [h_offset h_len].
  destruct (Z.ltb_spec len (reta_sz_log ctx)); [lia|].
  destruct (Z.ltb_spec (key_len ctx * 8) (offset + len + 32 - 1)); [lia|]. cbn [orb].
  rewrite Hf. change (flag_is_set 0 RTE_THASH_MINIMAL_SEQ) with false. cbn match.
  replace (offset + (offset + len + 32 - 1 - offset) - 1) with (offset + len + 32 - 1 - 1) by lia.
  set (r := Z.to_nat (reta_sz_log ctx)) in *. assert (reta_sz_log ctx = Z.of_nat r) as Er by lia.
  rewrite Hlf. cbn [res_bind]. rewrite Er in Hlf. destruct (alloc_lfsr_spec r rnd lf ltac:(lia) Hlf) as (Hlo & Hst & Hirr & Hcnt).
  unfold generate_subkey. rewrite (lf_deg _ _ Hlo), Hcnt, Hf, <- Er, Z.shiftl_1_l.
  change (flag_is_set 0 RTE_THASH_IGNORE_PERIOD_OVERFLOW) with false. cbn [negb]. rewrite andb_true_r.
  destruct (Z.ltb_spec offset (offset + len + 32 - 1 - 1)); [|lia].
  replace (offset + len + 32 - 1 - 1 - offset + 1) with (len + 31) by lia. rewrite (wrapu_small 32) by lia.
  destruct (Z.ltb_spec (2 ^ reta_sz_log ctx - 1) (0 + (len + 31))); [by rewrite decide_False by lia|].
  rewrite decide_True by lia.
  destruct (subkey_loop_spec (Z.to_nat (len + 31)) (hash_key ctx) lf (Z.to_nat offset)) as (key & lf' & Hg & Hs & Hbits); [done|lia|].
  rewrite Z2Nat.id in Hg by lia. rewrite Hg. cbn [res_bind].
  unfold generate_complement_table. cbn [h_offset h_len tuple_offset tuple_len lsb_msk compl_table reta_sz_log].
  pose proof Hs as (Hlen & Hbk & _).
  set (ctx' := mk_ctx (key_len ctx) (reta_sz_log ctx) 0 key).
  rewrite Z.shiftl_1_l. replace (offset + (offset + len + 32 - 1 - offset)) with (offset + len + 31) by lia.
  rewrite (wrapu_small 32) by lia. pose proof (Z.pow_pos_nonneg 2 (reta_sz_log ctx) ltac:(lia) ltac:(lia)) as Hpow.
  destruct (compl_loop_spec ctx' r ltac:(cbn; lia) ltac:(lia) Hbk (Z.to_nat (offset + len))
    (offset + len + 31 - (2 * reta_sz_log ctx - 1)) (Z.to_nat (2 ^ reta_sz_log ctx - 1)) 1
    (replicate (Z.to_nat (2 ^ reta_sz_log ctx)) 0)) as (table & -> & Ht & _ & Hall); try lia.
  { cbn. lia. }
  { rewrite Er in *. lia. }
  { split; [by rewrite length_replicate, Er|].
    intros v i Hv. apply lookup_replicate in Hv as [-> _]. split; [lia|by left]. }
  cbn [res_bind]. eexists ctx', _. split; [done|]. split; [|split; [|repeat split; try done]].
  - split; cbn; try done; try lia. split; cbn; try done. lia.
  - intros v i Hv Hv0. cbn in Hv. revert v i Hv Hv0.
    apply (compl_loop_complete ctx' r) with (e := Z.to_nat (offset + len)); try done; try lia; [apply Ht| |].
    + intros j Hj. replace (Z.to_nat (offset + len)) with (Z.to_nat offset + Z.to_nat len)%nat by lia.
      apply (change_nonzero ctx' r lf); try done; try lia. intros t Hlt. apply Hbits. lia.
    + intros j Hj. apply Hall; lia.
  - replace (Z.to_nat (offset + len + 31)) with (Z.to_nat offset + Z.to_nat (len + 31))%nat by lia. apply Hs.
Qed.

(** ** Adjusting a tuple *)

Lemma lxor_mod a b n : 0 <= n -> Z.lxor a b mod 2 ^ n = Z.lxor (a mod 2 ^ n) (b mod 2 ^ n).
Proof.
  intros Hn. apply Z.bits_inj'. intros j Hj. rewrite Z.lxor_spec. destruct (decide (j < n)).
  - by rewrite !Z.mod_pow2_bits_low, Z.lxor_spec by lia.
  - by rewrite !Z.mod_pow2_bits_high by lia.
Qed.

Lemma xor_list_mod {A} (f : A -> Z) l n :
  0 <= n -> xor_list (f <$> l) mod 2 ^ n = xor_list ((fun x => f x mod 2 ^ n) <$> l).
Proof.
  intros Hn. induction l as [|x l IH]; [apply Z.mod_0_l; lia|]. unfold xor_list in *. cbn [fmap list_fmap foldr].
  by rewrite lxor_mod, IH.
Qed.

Lemma patched_outside l l' o n v a b :
  patched l l' o n v -> (a <= o)%nat -> (o + n <= b)%nat -> same_outside l l' a b.
Proof.
  intros (Hl & Hb & Hp) Ha Hob. split; [done|]. split; [done|]. intros p Hpl Hout.
  rewrite Hp, decide_False by lia. done.
Qed.

Lemma same_outside_trans l1 l2 l3 a b : same_outside l1 l2 a b -> same_outside l2 l3 a b -> same_outside l1 l3 a b.
Proof.
  intros (H1 & B1 & P1) (H2 & B2 & P2). split; [congruence|]. split; [done|]. intros p Hp Hout.
  rewrite P2, P1 by lia. done.
Qed.

(** The complement of a difference. *)
Lemma complement_spec ctx h hash desired :
  helper_ok ctx h -> complete h ->
  let r := Z.to_nat (reta_sz_log ctx) in
  exists i, rte_thash_get_complement h hash desired = Ok i /\ 0 <= i < 2 ^ Z.of_nat r /\
    change ctx r (Z.to_nat (tuple_offset h + tuple_len h)) i = Z.lxor hash desired mod 2 ^ Z.of_nat r.
Proof.
  intros [[Hr _ _] Ht He Hm [Hlen Htab]] Hc r. unfold rte_thash_get_complement. rewrite Hm, land_mask by lia.
  fold r in Hlen, Htab. replace (reta_sz_log ctx) with (Z.of_nat r) by lia.
  pose proof (Z.mod_pos_bound (Z.lxor hash desired) (2 ^ Z.of_nat r) ltac:(lia)) as Hv.
  set (v := Z.lxor hash desired mod 2 ^ Z.of_nat r) in *.
  destruct (array_get_lt (compl_table h) v) as (i & -> & Hi); [lia|]. exists i. split; [done|].
  destruct (Htab _ _ Hi) as [Hir Hor]. split; [done|]. destruct Hor as [->|Hch].
  - destruct (decide (v = 0)) as [->|Hne]; [done|]. exfalso. apply (Hc _ _ Hi); [lia|done].
  - rewrite Hch. lia.
Qed.

Section Adjust.
Variables (ctx : rte_thash_ctx) (h : rte_thash_subtuple_helper) (len : Z).
Hypothesis Hh : helper_ok ctx h.
Hypothesis Hc : complete h.
Hypothesis Hlen : len mod 4 = 0.
Hypothesis Hlen0 : 0 <= len /\ len + 4 <= key_len ctx.
Hypothesis Hend : tuple_offset h + tuple_len h <= 8 * len.

Let r := Z.to_nat (reta_sz_log ctx).
Let e := Z.to_nat (tuple_offset h + tuple_len h).

(** Memory with a tuple, and a byte more. *)
Definition buf_ok (buf : list Z) : Prop := Forall byte buf /\ (Z.to_nat len < length buf)%nat.

Definition hash_is (buf : list Z) (desired : Z) : Prop :=
  toeplitz (hash_key ctx) (take (Z.to_nat len) buf) mod 2 ^ reta_sz_log ctx = desired mod 2 ^ reta_sz_log ctx.

Lemma adjust_once buf desired :
  buf_ok buf ->
  exists hash adj tmp buf',
    rte_softrss (be_words (take (Z.to_nat len) buf)) (hash_key ctx) = Ok hash /\
    rte_thash_get_complement h hash desired = Ok adj /\
    read_unaligned_bits buf (reta_sz_log ctx) (tuple_offset h + tuple_len h - reta_sz_log ctx) = Ok tmp /\
    write_unaligned_bits buf (reta_sz_log ctx) (tuple_offset h + tuple_len h - reta_sz_log ctx) (Z.lxor tmp adj)
      = Ok buf' /\
    same_outside buf buf' (e - r) e /\ hash_is buf' desired.
Proof.
  intros [Hb Hbl]. pose proof Hh as [[Hr Hk Hkl] [Ht0 Ht1] He Hm Ht].
  set (T := take (Z.to_nat len) buf).
  assert (length T = Z.to_nat len) as HT by (unfold T; rewrite length_take; lia).
  assert (0 <= len / 4) by (apply Z.div_pos; lia).
  pose proof (Z.div_mod len 4 ltac:(lia)).
  exists (toeplitz (hash_key ctx) T).
  destruct (complement_spec ctx h (toeplitz (hash_key ctx) T) desired Hh Hc) as (adj & Hadj & Har & Hch).
  exists adj. fold r e in Har, Hch.
  replace (tuple_offset h + tuple_len h - reta_sz_log ctx) with (Z.of_nat (e - r)) by lia.
  replace (reta_sz_log ctx) with (Z.of_nat r) by lia.
  exists (field buf (e - r) r). assert (0 <= Z.lxor (field buf (e - r) r) adj) as Hx.
  { apply Z.lxor_nonneg. pose proof (field_range buf (e - r) r). lia. }
  destruct (write_bits_spec buf r (e - r) (Z.lxor (field buf (e - r) r) adj)) as (buf' & Hw & Hp); [done|lia|done|lia|].
  exists buf'. split; [apply (rte_softrss_spec _ _ (Z.to_nat (len / 4))); [lia|by apply Forall_take|done|lia]|].
  split; [done|]. split; [apply read_bits_spec; [done|lia|lia]|]. split; [done|].
  split; [eapply patched_outside; [done|lia|lia]|].
  unfold hash_is. replace (reta_sz_log ctx) with (Z.of_nat r) by lia.
  assert (patched T (take (Z.to_nat len) buf') (e - r) r (Z.lxor (field T (e - r) r) adj)) as HpT.
  { unfold T. rewrite field_take by lia. apply patched_take; [done|lia]. }
  rewrite (toeplitz_flip _ T _ (e - r) r adj) by (done || lia). rewrite lxor_mod, xor_list_mod by lia.
  transitivity (Z.lxor (toeplitz (hash_key ctx) T mod 2 ^ Z.of_nat r) (change ctx r e adj)).
  - f_equal. unfold change. apply xor_list_ext. intros k Hks%elem_of_set_bits.
    assert (k < Z.of_nat r).
    { destruct (decide (k < Z.of_nat r)); [done|]. destruct Hks as [_ Hks].
      rewrite (small_testbit adj (Z.of_nat r)) in Hks by lia. done. }
    rewrite (window_low ctx r) by (done || lia). f_equal. lia.
  - rewrite Hch, lxor_mod by lia. bitwise.
Qed.

Lemma buf_ok_same buf buf' a b : buf_ok buf -> same_outside buf buf' a b -> buf_ok buf'.
Proof. intros [Hb Hl] (Hl' & Hb' & _). split; [done|]. by rewrite Hl'. Qed.

Lemma same_outside_weaken l l' a b a' b' :
  same_outside l l' a b -> (a' <= a)%nat -> (b <= b')%nat -> same_outside l l' a' b'.
Proof. intros (Hl & Hb & Hp) Ha Hb'. split; [done|]. split; [done|]. intros p Hpl Hout. apply Hp; lia. Qed.

(** The increment between attempts. *)
Lemma increment_spec buf :
  buf_ok buf ->
  let n := Z.min 32 (tuple_len h - reta_sz_log ctx) in
  let o := tuple_offset h + tuple_len h - reta_sz_log ctx - n in
  exists tmp buf', read_unaligned_bits buf n o = Ok tmp /\
    write_unaligned_bits buf n o (Z.land (u32 (tmp + 1)) (Z.shiftl 1 n - 1)) = Ok buf' /\
    same_outside buf buf' (Z.to_nat (tuple_offset h)) e.
Proof.
  intros [Hb Hl] n o. pose proof Hh as [[Hr _ _] [Ht0 Ht1] _ _ _].
  assert (0 <= n <= 32 /\ 0 <= o) as [Hn Ho] by (unfold n, o; lia).
  replace n with (Z.of_nat (Z.to_nat n)) by lia. replace o with (Z.of_nat (Z.to_nat o)) by lia.
  rewrite read_bits_spec by (done || lia). eexists _.
  destruct (write_bits_spec buf (Z.to_nat n) (Z.to_nat o)
    (Z.land (u32 (field buf (Z.to_nat o) (Z.to_nat n) + 1)) (Z.shiftl 1 (Z.of_nat (Z.to_nat n)) - 1)))
    as (buf' & Hw & Hp); [done|lia| |lia|].
  { apply Z.land_nonneg. left. apply (wrapu_range 32). lia. }
  exists buf'. split; [done|]. split; [done|]. eapply patched_outside; [done|lia|lia].
Qed.

Section Loop.
Variable fn : option (list Z -> bool).

Lemma adjust_loop_spec k buf desired i attempts ok :
  buf_ok buf ->
  exists ok' buf', adjust_loop fn k ctx h buf len desired i attempts ok = Ok (ok', buf') /\
    same_outside buf buf' (Z.to_nat (tuple_offset h)) e /\
    (k = 0%nat -> ok' = ok) /\
    (k <> 0%nat -> ok' = true ->
      hash_is buf' desired /\ forall f, fn = Some f -> f (take (Z.to_nat len) buf') = true) /\
    (k <> 0%nat -> fn = None -> ok' = true).
Proof.
  pose proof Hh as [[Hr _ _] [Ht0 Ht1] _ _ _].
  revert buf i ok. induction k as [|k IH]; intros buf i ok Hbuf.
  { exists ok, buf. split; [done|]. split; [by destruct Hbuf|done]. }
  cbn [adjust_loop]. destruct (adjust_once buf desired Hbuf) as (hash & adj & tmp & b1 & -> & E1 & E2 & E3 & S1 & H1).
  cbn [res_bind]. rewrite E1. cbn [res_bind]. rewrite E2. cbn [res_bind]. rewrite E3. cbn [res_bind].
  apply (same_outside_weaken _ _ _ _ (Z.to_nat (tuple_offset h)) e) in S1; [|lia|lia].
  pose proof (buf_ok_same _ _ _ _ Hbuf S1) as Hb1.
  destruct fn as [f|]; [|by exists true, b1]. destruct (f (take (Z.to_nat len) b1)) eqn:Ef.
  { exists true, b1. repeat (split; [done|]). split; [|done]. intros _ _. split; [done|]. by intros f' [= <-]. }
  match goal with |- context [res_bind (if ?c then ?m else Ok b1) _] =>
    assert (exists b2, (if c then m else Ok b1) = Ok b2 /\
      same_outside b1 b2 (Z.to_nat (tuple_offset h)) e) as (b2 & -> & S2) end.
  { destruct (i <? attempts - 1); [|exists b1; split; [done|]; by destruct Hb1].
    destruct (increment_spec b1 Hb1) as (t & b2 & Hrd & Hwr & S2). exists b2. rewrite Hrd. by split. }
  cbn [res_bind]. pose proof (buf_ok_same _ _ _ _ Hb1 S2) as Hb2.
  destruct (IH b2 (i + 1) false Hb2) as (ok' & b3 & -> & S3 & Hk0 & Hk1 & _). exists ok', b3. split; [done|].
  split; [by eapply same_outside_trans; [|eapply same_outside_trans]|]. split; [done|].
  split; [|done]. intros _ ->. apply Hk1; [|done]. intros ->. by specialize (Hk0 eq_refl).
Qed.
End Loop.
End Adjust.

(** ** Properties *)


(** ** Witnesses *)

Definition demo_pad : list Z := replicate 24 0.

(** A table of 64 entries, the register of x^6 + x + 1, the local port of an
    IPv4 connection. *)
Definition demo_ctx : rte_thash_ctx :=
  mk_ctx 40 6 0 (default_rsskey_40bytes ++ demo_pad).

Definition demo_helper : res (option (rte_thash_ctx * rte_thash_subtuple_helper)) :=
  rte_thash_add_helper demo_ctx 16 80 [0; 0x2a].


(** The byte after the tuple is read and written, the memory of a tuple alone
    is not enough. *)
Example adjust_past_the_tuple :
  match demo_helper with
  | Ok (Some (ctx, h)) => rte_thash_adjust_tuple None ctx h demo_tuple 12 37 16 = Panic
  | _ => False
  end.
Proof. vm_compute. reflexivity. Qed.

(** The table of a helper at the end of the key, as F-Stack's for IPv6, is
    made with bytes from behind the key. *)
Example subvalue_past_the_key :
  rte_thash_add_helper (mk_ctx 40 6 0 default_rsskey_40bytes) 16 272 [0; 0x2a] = Panic.
Proof. vm_compute. reflexivity. Qed.
