(* ===== verification/RssTable.v ===== *)
(** * The tables of local ports ([ff_rss_tbl], [ff_rss_tbl6] of
    [ff_dpdk_if.c])

    For remote and local addresses known from the configuration, the stack
    lists at start-up the local ports whose packets come to its own queue.  A
    table is an open-addressing hash table of remote addresses and ports,
    whose entries are hash tables of local addresses with the list of ports.

    The code is there twice, for IPv4 with 32-bit addresses and for IPv6 with
    arrays of 16 bytes; the definitions here have the address type, the null
    address, the index and the queue test as parameters, and the two versions
    are instances of them.  The configurations are those of the version's
    address family, in their order. *)

From S2P Require Import Prelude Toeplitz.

Module RssTable.
Import Toeplitz.

Definition FF_RSS_TBL_MAX_DADDR : Z := 4.
Definition FF_RSS_TBL_MAX_DPORT : Z := 65536.
Definition FF_RSS_TBL_MAX_DIP_MASK : Z := FF_RSS_TBL_MAX_DADDR - 1.
Definition FF_RSS_TBL_MAX_SADDR_SPORT_ENTRIES : Z := 16.
Definition FF_RSS_TBL_MAX_SADDR_SPORT_ENTRIES_MASK : Z := FF_RSS_TBL_MAX_SADDR_SPORT_ENTRIES - 1.

Definition ENOENT : Z := 2.

(** ** The array of ports

    [dport[FF_RSS_TBL_MAX_DPORT + 1]], zero at first. *)

Abbreviation ports := (gmap Z Z).

Definition port_get (a : ports) (i : Z) : res Z :=
  if decide (0 <= i <= FF_RSS_TBL_MAX_DPORT) then Ok (default 0 (a !! i)) else Panic.

Definition port_set (a : ports) (i x : Z) : res ports :=
  if decide (0 <= i <= FF_RSS_TBL_MAX_DPORT) then Ok (<[i := u16 x]> a) else Panic.

Section Table.
Context {A : Type} `{EqDecision A}.

(** The null address, and the place of an address in a table before it is
    masked. *)
Variable any : A.
Variable fold : A -> Z.

(** [ff_rss_check] with the interface of a port. *)
Variable check : Z -> A -> A -> Z -> Z -> res bool.

Record dip := mk_dip {
  d_daddr : A;
  d_first : Z;
  d_last : Z;
  d_first_idx : Z;
  d_last_idx : Z;
  d_num : Z;
  d_dport : ports
}.

Record entry := mk_entry {
  e_saddr : A;
  e_sport : Z;
  e_num : Z;
  e_dips : list dip
}.

Record rss_cfg := mk_rss_cfg { c_port_id : Z; c_daddr : A; c_saddr : A; c_sport : Z }.

(** Memory set to 0. *)
Definition empty_dip : dip := mk_dip any 0 0 0 0 0 ∅.
Definition empty_entry : entry :=
  mk_entry any 0 0 (replicate (Z.to_nat FF_RSS_TBL_MAX_DADDR) empty_dip).
Definition empty_table : list entry :=
  replicate (Z.to_nat FF_RSS_TBL_MAX_SADDR_SPORT_ENTRIES) empty_entry.

Definition entry_idx (saddr : A) (sport : Z) : Z :=
  Z.land (Z.lxor (fold saddr) sport) FF_RSS_TBL_MAX_SADDR_SPORT_ENTRIES_MASK.
Definition daddr_idx (daddr : A) : Z := Z.land (fold daddr) FF_RSS_TBL_MAX_DIP_MASK.

(** ** Setting up *)

Definition entry_is (e : entry) (saddr : A) (sport : Z) : bool :=
  bool_decide (e_saddr e = saddr) && (e_sport e =? sport).

(** The first [do ... while (idx != ori_idx)]: the index it ends with. *)
Fixpoint probe_entry (fuel : nat) (tbl : list entry) (saddr : A) (sport ori idx : Z) : res Z :=
  match fuel with
  | O => NoFuel
  | S fuel =>
      let* e := array_get tbl idx in
      if bool_decide (e_saddr e = any) || entry_is e saddr sport then Ok idx
      else
        let idx := Z.land (u32 (idx + 1)) FF_RSS_TBL_MAX_SADDR_SPORT_ENTRIES_MASK in
        if idx =? ori then Ok idx else probe_entry fuel tbl saddr sport ori idx
  end.

(** The second one; [None] when the address is there already. *)
Fixpoint probe_dip (fuel : nat) (dips : list dip) (daddr : A) (ori idx : Z) : res (option Z) :=
  match fuel with
  | O => NoFuel
  | S fuel =>
      let* d := array_get dips idx in
      if bool_decide (d_daddr d = any) then Ok (Some idx)
      else if bool_decide (d_daddr d = daddr) then Ok None
      else
        let idx := Z.land (u32 (idx + 1)) FF_RSS_TBL_MAX_DIP_MASK in
        if idx =? ori then Ok (Some idx) else probe_dip fuel dips daddr ori idx
  end.

(** [for (j = 0; j < FF_RSS_TBL_MAX_DPORT; j++)], [n] rounds from [j] on: the
    entry, [k] and [prev_dport]. *)
Fixpoint fill_loop (n : nat) (port_id : Z) (saddr daddr : A) (sport j : Z) (d : dip) (k prev : Z) :
    res (dip * Z * Z) :=
  match n with
  | O => Ok (d, k, prev)
  | S n =>
      let* stat := check port_id saddr daddr sport (htons j) in
      if stat then
        let* dport := port_set (d_dport d) k j in
        let first := if prev =? -1 then u16 j else d_first d in
        fill_loop n port_id saddr daddr sport (j + 1)
          (mk_dip (d_daddr d) first (d_last d) (d_first_idx d) (d_last_idx d) (u16 (d_num d + 1)) dport)
          (k + 1) j
      else fill_loop n port_id saddr daddr sport (j + 1) d k prev
  end.

Definition fill_dip (port_id : Z) (saddr daddr : A) (sport : Z) (d : dip) : res dip :=
  let* dport := port_set (d_dport d) 0 1 in
  let d := mk_dip (d_daddr d) (d_first d) (d_last d) 1 (d_last_idx d) (d_num d) dport in
  let* (d, k, prev) := fill_loop (Z.to_nat FF_RSS_TBL_MAX_DPORT) port_id saddr daddr sport 0 d 1 (-1) in
  let '(num, last_idx) :=
    if k =? FF_RSS_TBL_MAX_DPORT + 1 then (u16 (k - 2), u16 (k - 2)) else (d_num d, u16 (k - 1)) in
  Ok (mk_dip daddr (d_first d) (u16 prev) (d_first_idx d) last_idx num (d_dport d)).

(** One configuration. *)
Definition tbl_add (tbl : list entry) (c : rss_cfg) : res (list entry) :=
  let ori_idx := entry_idx (c_saddr c) (c_sport c) in
  let ori_daddr_idx := daddr_idx (c_daddr c) in
  let* idx := probe_entry (length tbl) tbl (c_saddr c) (c_sport c) ori_idx ori_idx in
  let* e := array_get tbl idx in
  if (idx =? ori_idx) && negb (bool_decide (e_saddr e = any)) && negb (entry_is e (c_saddr c) (c_sport c))
  then Ok tbl
  else
    let* od := probe_dip (length (e_dips e)) (e_dips e) (c_daddr c) ori_daddr_idx ori_daddr_idx in
    match od with
    | None => Ok tbl
    | Some di =>
        let* d := array_get (e_dips e) di in
        if (di =? ori_daddr_idx) && negb (bool_decide (d_daddr d = any)) then Ok tbl
        else
          let* d := fill_dip (c_port_id c) (c_saddr c) (c_daddr c) (c_sport c) d in
          let* dips := array_set (e_dips e) di d in
          array_set tbl idx (mk_entry (c_saddr c) (c_sport c) (u16 (e_num e + 1)) dips)
    end.

Fixpoint add_all (tbl : list entry) (cfgs : list rss_cfg) : res (list entry) :=
  match cfgs with
  | [] => Ok tbl
  | c :: cfgs =>
      let* tbl := tbl_add tbl c in
      add_all tbl cfgs
  end.

Definition tbl_init (cfgs : list rss_cfg) : res (list entry) := add_all empty_table cfgs.

(** ** The range of ports *)

(** [for (k = 1; k <= num; k++)], [n] rounds from [k] on: [first_idx] and
    [last_idx]. *)
Fixpoint range_loop (n : nat) (d : dip) (first last k first_idx last_idx : Z) : res (Z * Z) :=
  match n with
  | O => Ok (first_idx, last_idx)
  | S n =>
      let* p := port_get (d_dport d) k in
      let hit := (first_idx =? 0) && (first <=? p) in
      let* top := if hit then port_get (d_dport d) (d_num d) else Ok 0 in
      let first_idx := if hit then k else first_idx in
      if hit && (top <? last) then Ok (first_idx, last_idx)
      else if hit && (first =? last) then Ok (first_idx, k)
      else if p =? last then Ok (first_idx, k)
      else if last <? p then Ok (first_idx, if 1 <? k then k - 1 else k)
      else range_loop n d first last (k + 1) first_idx last_idx
  end.

(** The entry, and whether it is an error. *)
Definition set_range (d : dip) (first last : Z) : res (dip * bool) :=
  let* (fi, li) := range_loop (Z.to_nat (d_num d)) d first last 1 0 (d_last_idx d) in
  let d := mk_dip (d_daddr d) first last fi li (d_num d) (d_dport d) in
  Ok (d, (fi =? 0) || (li <? fi)).

(** [for (j = 0; j < FF_RSS_TBL_MAX_DADDR; j++)]; an error ends it. *)
Fixpoint set_range_dips (dips : list dip) (first last : Z) : res (list dip * bool) :=
  match dips with
  | [] => Ok ([], false)
  | d :: dips =>
      let* (d, err) := if bool_decide (d_daddr d = any) then Ok (d, false) else set_range d first last in
      if err then Ok (d :: dips, true)
      else
        let* (dips, err) := set_range_dips dips first last in
        Ok (d :: dips, err)
  end.

Fixpoint set_range_entries (tbl : list entry) (first last : Z) : res (list entry * bool) :=
  match tbl with
  | [] => Ok ([], false)
  | e :: tbl =>
      let* (e, err) :=
        if bool_decide (e_saddr e = any) then Ok (e, false)
        else
          let* (dips, err) := set_range_dips (e_dips e) first last in
          Ok (mk_entry (e_saddr e) (e_sport e) (e_num e) dips, err) in
      if err then Ok (e :: tbl, true)
      else
        let* (tbl, err) := set_range_entries tbl first last in
        Ok (e :: tbl, err)
  end.

(** [enable] is that of the configuration.  The table and the result. *)
Definition tbl_set_portrange (enable : bool) (tbl : list entry) (first last : Z) : res (list entry * Z) :=
  if (last <? first) || negb enable then Ok (tbl, -1)
  else
    let* (tbl, err) := set_range_entries tbl first last in
    Ok (tbl, if err then -1 else 0).

(** ** Lookup *)

(** The inner loop: the place of the local address. *)
Fixpoint find_dip (fuel : nat) (dips : list dip) (daddr : A) (ori idx : Z) : res (option Z) :=
  match fuel with
  | O => NoFuel
  | S fuel =>
      let* d := array_get dips idx in
      if bool_decide (d_daddr d = any) then Ok None
      else if bool_decide (d_daddr d = daddr) then Ok (Some idx)
      else
        let idx := Z.land (u32 (idx + 1)) FF_RSS_TBL_MAX_DIP_MASK in
        if idx =? ori then Ok None else find_dip fuel dips daddr ori idx
  end.

(** The places of the entry and of the local address. *)
Fixpoint find_entry (fuel : nat) (tbl : list entry) (saddr daddr : A) (sport ori idx : Z) :
    res (option (Z * Z)) :=
  match fuel with
  | O => NoFuel
  | S fuel =>
      let* e := array_get tbl idx in
      if bool_decide (e_saddr e = any) then Ok None
      else if entry_is e saddr sport then
        let di := daddr_idx daddr in
        let* r := find_dip (length (e_dips e)) (e_dips e) daddr di di in
        Ok ((fun di => (idx, di)) <$> r)
      else
        let idx := Z.land (u32 (idx + 1)) FF_RSS_TBL_MAX_SADDR_SPORT_ENTRIES_MASK in
        if idx =? ori then Ok None else find_entry fuel tbl saddr daddr sport ori idx
  end.

(** The first and the last index, and where the array of ports is; or the
    error. *)
Definition tbl_get_portrange (enable : bool) (tbl : list entry) (saddr daddr : A) (sport : Z) :
    res (Z + (Z * Z * (Z * Z))) :=
  if negb enable then Ok (inl (-1))
  else
    let ori_idx := entry_idx saddr sport in
    let* r := find_entry (length tbl) tbl saddr daddr sport ori_idx ori_idx in
    match r with
    | None => Ok (inl (- ENOENT))
    | Some (idx, di) =>
        let* e := array_get tbl idx in
        let* d := array_get (e_dips e) di in
        Ok (inr (d_first_idx d, d_last_idx d, (idx, di)))
    end.
End Table.
Arguments dip A : clear implicits.
Arguments entry A : clear implicits.
Arguments rss_cfg A : clear implicits.

(** ** IPv4 *)

(** [saddr + (uint32_t)((uint8_t * )&saddr)[3]]. *)
Definition fold4 (a : Z) : Z := u32 (a + a / 2 ^ 24).

Definition ff_rss_tbl_init (env : rss_env) (cfgs : list (rss_cfg Z)) : res (list (entry Z)) :=
  tbl_init 0 fold4 (ff_rss_check env) cfgs.
Definition ff_rss_tbl_set_portrange : bool -> list (entry Z) -> Z -> Z -> res (list (entry Z) * Z) :=
  tbl_set_portrange 0.
Definition ff_rss_tbl_get_portrange : bool -> list (entry Z) -> Z -> Z -> Z -> res (Z + (Z * Z * (Z * Z))) :=
  tbl_get_portrange 0 fold4.

(** ** IPv6 *)

Definition in6_any : list Z := replicate 16 0.

(** [v += addr6[i] << ((i & 3) * 8)]. *)
Definition ff_in6_fold (addr6 : list Z) : Z :=
  foldl (fun v p => u32 (v + Z.shiftl (snd p) (Z.land (fst p) 3 * 8))) 0
    (imap (fun i x => (Z.of_nat i, x)) addr6).

Definition ff_rss_tbl6_init (env : rss_env) (cfgs : list (rss_cfg (list Z))) : res (list (entry (list Z))) :=
  tbl_init in6_any ff_in6_fold (ff_rss_check6 env) cfgs.
Definition ff_rss_tbl6_set_portrange :
    bool -> list (entry (list Z)) -> Z -> Z -> res (list (entry (list Z)) * Z) :=
  tbl_set_portrange in6_any.
Definition ff_rss_tbl6_get_portrange :
    bool -> list (entry (list Z)) -> list Z -> list Z -> Z -> res (Z + (Z * Z * (Z * Z))) :=
  tbl_get_portrange in6_any ff_in6_fold.
End RssTable.
