(* ===== verification/RssTableProofs.v ===== *)
(** * Proofs about the tables of local ports

    A table answers for exactly the configurations it had room for, with
    exactly the local ports of the thread's own queue, and a range of ports
    cuts the list down to the ports in the range. *)

From stdpp Require Import sorting.
From S2P Require Import Prelude Toeplitz ToeplitzProofs RssTable.

Import Toeplitz RssTable.

(** ** Open addressing

    Slots are searched from the home of a key on, cyclically, up to the first
    one that is free or has the key. *)

(** The first of [n] indices from [i] on, modulo [m], that satisfies [P]. *)
Fixpoint scan (m : nat) (P : nat -> bool) (n i : nat) : option nat :=
  match n with
  | O => None
  | S n => if P i then Some i else scan m P n (S i mod m)%nat
  end.

Lemma scan_ext m P Q n i : (forall x, P x = Q x) -> scan m P n i = scan m Q n i.
Proof. intros H. revert i. induction n as [|n IH]; intros i; cbn; [done|]. by rewrite H, IH. Qed.

Lemma scan_true m P n i j : scan m P n i = Some j -> P j = true.
Proof.
  revert i. induction n as [|n IH]; intros i; cbn; [done|]. destruct (P i) eqn:E; [by intros [= <-]|apply IH].
Qed.

Lemma scan_lt m P n i j : (i < m)%nat -> scan m P n i = Some j -> (j < m)%nat.
Proof.
  revert i. induction n as [|n IH]; intros i Hi; cbn; [done|]. destruct (P i); [by intros [= <-]|].
  apply IH. apply Nat.mod_upper_bound. lia.
Qed.

(** Indices before the result do not matter as long as they stay no hits. *)
Lemma scan_agree m P Q n i j :
  scan m P n i = Some j -> (forall x, x <> j -> P x = false -> Q x = false) -> Q j = true ->
  scan m Q n i = Some j.
Proof.
  intros Hs HQ Hj. revert i Hs. induction n as [|n IH]; intros i; cbn; [done|].
  destruct (P i) eqn:E; [intros [= <-]; by rewrite Hj|]. intros Hs.
  destruct (decide (i = j)) as [->|Hne]; [by rewrite Hj|]. rewrite HQ by done. by apply IH.
Qed.

Lemma scan_None m P n i : scan m P n i = None -> forall d, (d < n)%nat -> (i < m)%nat -> P ((i + d) mod m)%nat = false.
Proof.
  revert i. induction n as [|n IH]; intros i Hs d Hd Hi; [lia|]. cbn in Hs.
  destruct (P i) eqn:E; [done|]. destruct d as [|d].
  - rewrite Nat.add_0_r, Nat.mod_small by done. done.
  - assert (S i mod m < m)%nat by (apply Nat.mod_upper_bound; lia).
    specialize (IH _ Hs d ltac:(lia) ltac:(done)).
    rewrite Nat.Div0.add_mod_idemp_l in IH. by replace (i + S d)%nat with (S i + d)%nat by lia.
Qed.

Lemma scan_None_all m P i : (i < m)%nat -> scan m P m i = None -> forall j, (j < m)%nat -> P j = false.
Proof.
  intros Hi Hs j Hj. destruct (decide (i <= j)%nat).
  - pose proof (scan_None _ _ _ _ Hs (j - i) ltac:(lia) Hi) as H.
    replace (i + (j - i))%nat with j in H by lia. by rewrite Nat.mod_small in H.
  - pose proof (scan_None _ _ _ _ Hs (m + j - i) ltac:(lia) Hi) as H.
    replace (i + (m + j - i))%nat with (j + 1 * m)%nat in H by lia.
    by rewrite Nat.Div0.mod_add, Nat.mod_small in H.
Qed.

Section OpenAddressing.
Context {S K : Type} `{EqDecision K}.
Variables (slot : S -> option K) (home : K -> nat) (m : nat).
Hypothesis Hhome : forall k, (home k < m)%nat.

(** A slot ends the search for [k]: it is free or has the key. *)
Definition stops (l : list S) (k : K) (i : nat) : bool :=
  match l !! i with
  | Some s => match slot s with None => true | Some k' => bool_decide (k' = k) end
  | None => false
  end.

Definition find (l : list S) (k : K) : option nat := scan m (stops l k) m (home k).

(** Every key is found where it is. *)
Definition oa (l : list S) : Prop :=
  length l = m /\ forall i s k, l !! i = Some s -> slot s = Some k -> find l k = Some i.

Lemma find_slot l k i :
  oa l -> find l k = Some i -> exists s, l !! i = Some s /\ (slot s = None \/ slot s = Some k).
Proof.
  intros Hl Hf. apply scan_true in Hf. unfold stops in Hf. destruct (l !! i) as [s|] eqn:E; [|done].
  exists s. split; [done|]. destruct (slot s); [|by left]. case_bool_decide; [|done]. subst. by right.
Qed.

Lemma find_present l k : oa l -> k ∈ omap slot l -> exists i s, find l k = Some i /\ l !! i = Some s /\ slot s = Some k.
Proof.
  intros [Hl Ho] Hk. apply list_elem_of_omap in Hk as (s & Hs & Hk).
  apply list_elem_of_lookup_1 in Hs as [i Hi]. exists i, s. split; [by eapply Ho|done].
Qed.

Lemma find_absent l k :
  oa l -> k ∉ omap slot l ->
  match find l k with
  | Some i => exists s, l !! i = Some s /\ slot s = None
  | None => length (omap slot l) = m
  end.
Proof.
  intros Hl Hk. destruct (find l k) as [i|] eqn:Hf.
  - destruct (find_slot l k i Hl Hf) as (s & Hs & [Hn|Hn]); [by exists s|]. exfalso. apply Hk.
    apply list_elem_of_omap. exists s. split; [by eapply list_elem_of_lookup_2|done].
  - destruct Hl as [Hl _]. rewrite <- Hl. assert (forall s, s ∈ l -> is_Some (slot s)) as Hall.
    { intros s [i Hi]%list_elem_of_lookup_1.
      pose proof (scan_None_all _ _ _ (Hhome k) Hf i) as H. unfold stops in H. rewrite Hi in H.
      destruct (slot s); [done|]. apply lookup_lt_Some in Hi. rewrite Hl in Hi. by specialize (H Hi). }
    clear -Hall. induction l as [|s l IH]; [done|]. destruct (Hall s) as [k Hk]; [left|].
    cbn. rewrite Hk. cbn. f_equal. apply IH. intros s' Hs'. apply Hall. by right.
Qed.

Lemma omap_insert_perm l i s s' k :
  l !! i = Some s -> slot s = None -> slot s' = Some k -> omap slot (<[i := s']> l) ≡ₚ k :: omap slot l.
Proof.
  intros Hi Hs Hs'. rewrite <- (take_drop_middle l i s Hi) at 2. apply lookup_lt_Some in Hi.
  rewrite insert_take_drop, !omap_app by done. cbn. rewrite Hs, Hs'. cbn. solve_Permutation.
Qed.

Lemma omap_free_lt l i s : l !! i = Some s -> slot s = None -> (length (omap slot l) < length l)%nat.
Proof.
  intros Hi Hs. assert (forall l', length (omap slot l') <= length l')%nat as Hle.
  { intros l'. induction l' as [|x l' IH]; [done|]. cbn. destruct (slot x); cbn; lia. }
  rewrite <- (take_drop_middle l i s Hi), omap_app, !length_app. cbn. rewrite Hs.
  pose proof (Hle (take i l)). pose proof (Hle (drop (Datatypes.S i) l)). lia.
Qed.

Lemma oa_insert l k i s s' :
  oa l -> find l k = Some i -> l !! i = Some s -> slot s = None -> slot s' = Some k -> oa (<[i := s']> l).
Proof.
  intros [Hl Ho] Hf Hi Hs Hs'. split; [by rewrite length_insert|].
  assert (forall k' x, stops (<[i := s']> l) k' x = if decide (x = i) then bool_decide (k = k') else stops l k' x) as Hst.
  { intros k' x. unfold stops. case_decide as Hx.
    - subst x. rewrite list_lookup_insert_eq by (by eapply lookup_lt_Some). by rewrite Hs'.
    - by rewrite list_lookup_insert_ne by done. }
  intros j t k' Hj Hk'. apply list_lookup_insert_Some in Hj as [(-> & <- & _)|[Hne Hj]].
  - assert (k' = k) as -> by congruence. apply (scan_agree _ _ _ _ _ _ Hf).
    + intros x Hx Hx'. rewrite Hst, decide_False by done. done.
    + rewrite Hst, decide_True by done. by apply bool_decide_true.
  - specialize (Ho j t k' Hj Hk'). apply (scan_agree _ _ _ _ _ _ Ho).
    + intros x Hx Hx'. rewrite Hst. case_decide; [|done]. subst x. apply bool_decide_false. intros <-.
      unfold stops in Hx'. rewrite Hi, Hs in Hx'. done.
    + rewrite Hst, decide_False by done. by eapply scan_true.
Qed.

Lemma oa_update l i s s' :
  oa l -> l !! i = Some s -> slot s' = slot s -> oa (<[i := s']> l) /\ omap slot (<[i := s']> l) = omap slot l.
Proof.
  intros [Hl Ho] Hi Hs. assert (forall k x, stops (<[i := s']> l) k x = stops l k x) as Hst.
  { intros k x. unfold stops. destruct (decide (x = i)) as [->|Hx].
    - rewrite list_lookup_insert_eq by (by eapply lookup_lt_Some). by rewrite Hi, Hs.
    - by rewrite list_lookup_insert_ne by done. }
  split.
  - split; [by rewrite length_insert|]. intros j t k Hj Hk. unfold find. rewrite (scan_ext _ _ _ _ _ (Hst k)).
    apply list_lookup_insert_Some in Hj as [(-> & <- & _)|[Hne Hj]]; [|by eapply Ho].
    eapply Ho; [done|]. congruence.
  - rewrite <- (take_drop_middle l i s Hi) at 2. apply lookup_lt_Some in Hi.
    rewrite insert_take_drop, !omap_app by done. cbn. by rewrite Hs.
Qed.

(** Slots may change as long as they keep their keys. *)
Lemma oa_same l l' : Forall2 (fun s s' => slot s' = slot s) l l' -> oa l -> oa l' /\ omap slot l' = omap slot l.
Proof.
  intros Hl [Hlen Ho]. assert (forall k x, stops l' k x = stops l k x) as Hst.
  { intros k x. unfold stops. destruct (l !! x) as [s|] eqn:E.
    - destruct (Forall2_lookup_l _ _ _ _ _ Hl E) as (s' & -> & ->). done.
    - apply lookup_ge_None in E. rewrite (Forall2_length _ _ _ Hl) in E. by apply lookup_ge_None in E as ->. }
  split.
  - split; [by rewrite <- (Forall2_length _ _ _ Hl)|]. intros i s' k Hi Hk.
    destruct (Forall2_lookup_r _ _ _ _ _ Hl Hi) as (s & Hs & Heq). unfold find. rewrite (scan_ext _ _ _ _ _ (Hst k)).
    eapply Ho; [done|]. congruence.
  - clear -Hl. induction Hl as [|s s' l l' Hs _ IH]; [done|]. cbn. by rewrite Hs, IH.
Qed.

(** A table of free slots. *)
Lemma oa_empty s : slot s = None -> oa (replicate m s) /\ omap slot (replicate m s) = [].
Proof.
  intros Hs. split.
  - split; [apply length_replicate|]. intros i t k [-> _]%lookup_replicate Hk. congruence.
  - clear -Hs. induction m as [|n IH]; [done|]. cbn. rewrite Hs. exact IH.
Qed.
End OpenAddressing.

(** ** The loops of the code *)


Lemma next_idx (m : nat) b i :
  m = (2 ^ b)%nat -> (b <= 4)%nat -> (i < m)%nat ->
  Z.land (u32 (Z.of_nat i + 1)) (Z.of_nat m - 1) = Z.of_nat (S i mod m).
Proof.
  intros -> Hb Hi. assert (2 ^ b <= 2 ^ 4)%nat by (apply Nat.pow_le_mono_r; lia). change (2 ^ 4)%nat with 16%nat in *.
  rewrite (wrapu_small 32) by lia. rewrite Nat2Z.inj_pow, land_mask by lia.
  rewrite Nat2Z.inj_mod, Nat2Z.inj_pow. f_equal. lia.
Qed.

(** The last step of a cyclic search comes back to its start. *)
Lemma cycle_end m n i ori :
  (0 < n <= m)%nat -> (i < m)%nat -> ((i + n) mod m = ori)%nat -> (S i mod m = ori)%nat -> n = 1%nat.
Proof.
  intros Hn Hi <- H. destruct (decide (n = 1%nat)) as [|Hne]; [done|]. exfalso.
  destruct (decide (S i < m)%nat).
  - rewrite (Nat.mod_small (S i)) in H by done. destruct (decide (i + n < m)%nat).
    + rewrite Nat.mod_small in H by done. lia.
    + replace (i + n)%nat with ((i + n - m) + 1 * m)%nat in H by lia.
      rewrite Nat.Div0.mod_add, Nat.mod_small in H by lia. lia.
  - assert (S i = m) as <- by lia. rewrite Nat.Div0.mod_same in H.
    replace (i + n)%nat with ((n - 1) + 1 * S i)%nat in H by lia.
    rewrite Nat.Div0.mod_add, Nat.mod_small in H by lia. lia.
Qed.

(** A step of a cyclic search: it is the last, or the rest is a search. *)
Lemma cycle_step m n i ori :
  (0 < S n <= m)%nat -> (i < m)%nat -> ((i + S n) mod m = ori)%nat ->
  ((S i mod m = ori)%nat -> n = 0%nat) /\
  ((S i mod m <> ori)%nat -> (0 < n <= m)%nat /\ (S i mod m < m)%nat /\ ((S i mod m + n) mod m = ori)%nat).
Proof.
  intros Hn Hi Ho. split; intros E.
  - assert (S n = 1%nat) by (by apply (cycle_end m (S n) i ori)). lia.
  - split; [|split; [apply Nat.mod_upper_bound; lia|]].
    + destruct n; [|lia]. exfalso. apply E. by replace (S i) with (i + 1)%nat by lia.
    + rewrite Nat.Div0.add_mod_idemp_l. by replace (S i + n)%nat with (i + S n)%nat by lia.
Qed.

Section Loops.
Context {A : Type} `{EqDecision A}.
Variables (any : A) (fold : A -> Z).
Implicit Types (d : dip A) (e : entry A).

Definition eslot e : option (A * Z) := if decide (e_saddr e = any) then None else Some (e_saddr e, e_sport e).
Definition dslot d : option A := if decide (d_daddr d = any) then None else Some (d_daddr d).
Definition ehome (k : A * Z) : nat := Z.to_nat (entry_idx fold k.1 k.2).
Definition dhome (a : A) : nat := Z.to_nat (daddr_idx fold a).

Lemma ehome_lt k : (ehome k < 16)%nat.
Proof.
  unfold ehome, entry_idx. change FF_RSS_TBL_MAX_SADDR_SPORT_ENTRIES_MASK with (2 ^ 4 - 1).
  rewrite land_mask by lia. pose proof (Z.mod_pos_bound (Z.lxor (fold k.1) k.2) (2 ^ 4)). lia.
Qed.

Lemma ehome_idx saddr sport : entry_idx fold saddr sport = Z.of_nat (ehome (saddr, sport)).
Proof.
  unfold ehome. cbn. unfold entry_idx. change FF_RSS_TBL_MAX_SADDR_SPORT_ENTRIES_MASK with (2 ^ 4 - 1).
  rewrite land_mask by lia. pose proof (Z.mod_pos_bound (Z.lxor (fold saddr) sport) (2 ^ 4)). lia.
Qed.

Lemma dhome_lt a : (dhome a < 4)%nat.
Proof.
  unfold dhome, daddr_idx. change FF_RSS_TBL_MAX_DIP_MASK with (2 ^ 2 - 1).
  rewrite land_mask by lia. pose proof (Z.mod_pos_bound (fold a) (2 ^ 2)). lia.
Qed.

Lemma dhome_idx a : daddr_idx fold a = Z.of_nat (dhome a).
Proof.
  unfold dhome. unfold daddr_idx. change FF_RSS_TBL_MAX_DIP_MASK with (2 ^ 2 - 1).
  rewrite land_mask by lia. pose proof (Z.mod_pos_bound (fold a) (2 ^ 2)). lia.
Qed.

Abbreviation efind := (find eslot ehome 16).
Abbreviation dfind := (find dslot dhome 4).

Lemma entry_stops e saddr sport :
  bool_decide (e_saddr e = any) || entry_is e saddr sport =
  match eslot e with None => true | Some k' => bool_decide (k' = (saddr, sport)) end.
Proof.
  unfold eslot, entry_is. case_decide as Ha; [by rewrite bool_decide_true|]. rewrite bool_decide_false by done. cbn.
  apply eq_true_iff_eq. rewrite andb_true_iff, !bool_decide_eq_true, Z.eqb_eq. naive_solver.
Qed.

Lemma probe_entry_loop tbl saddr sport n i ori :
  length tbl = 16%nat -> (0 < n <= 16)%nat -> (i < 16)%nat -> ((i + n) mod 16 = ori)%nat ->
  probe_entry any n tbl saddr sport (Z.of_nat ori) (Z.of_nat i) =
  Ok (Z.of_nat (default ori (scan 16 (stops eslot tbl (saddr, sport)) n i))).
Proof.
  intros Hl. revert i. induction n as [|n IH]; intros i Hn Hi Ho; [lia|]. cbn [probe_entry scan].
  destruct (array_get_lt tbl (Z.of_nat i)) as (e & -> & He); [lia|]. rewrite Nat2Z.id in He. cbn [res_bind].
  unfold stops at 1. rewrite He, entry_stops. case_match; [done|].
  change FF_RSS_TBL_MAX_SADDR_SPORT_ENTRIES_MASK with (Z.of_nat 16 - 1). rewrite (next_idx 16 4) by (done || lia).
  destruct (Z.eqb_spec (Z.of_nat (S i mod 16)) (Z.of_nat ori)) as [E|E].
  - rewrite (proj1 (cycle_step 16 n i ori Hn Hi Ho)) by lia. by rewrite ?E.
  - destruct (proj2 (cycle_step 16 n i ori Hn Hi Ho)) as (H1 & H2 & H3); [lia|]. by apply IH.
Qed.

Lemma probe_entry_spec tbl saddr sport :
  length tbl = 16%nat ->
  let ori := entry_idx fold saddr sport in
  probe_entry any (length tbl) tbl saddr sport ori ori =
  Ok (Z.of_nat (default (ehome (saddr, sport)) (efind tbl (saddr, sport)))).
Proof.
  intros Hl ori. unfold ori. rewrite ehome_idx, Hl. pose proof (ehome_lt (saddr, sport)).
  apply probe_entry_loop; [done|lia|done|].
  rewrite <- (Nat.mul_1_l 16) at 1. by rewrite Nat.Div0.mod_add, Nat.mod_small.
Qed.

Lemma dip_stops d daddr :
  match dslot d with None => true | Some k' => bool_decide (k' = daddr) end =
  bool_decide (d_daddr d = any) || bool_decide (d_daddr d = daddr).
Proof. unfold dslot. case_decide; [by rewrite bool_decide_true|]. by rewrite (bool_decide_false (d_daddr d = any)). Qed.

(** What the two loops over local addresses make of the search. *)
Definition probe_result (dips : list (dip A)) (ori : nat) (o : option nat) : option Z :=
  match o with
  | None => Some (Z.of_nat ori)
  | Some i => match dips !! i ≫= dslot with None => Some (Z.of_nat i) | Some _ => None end
  end.
Definition find_result (dips : list (dip A)) (o : option nat) : option Z :=
  match o with
  | None => None
  | Some i => match dips !! i ≫= dslot with None => None | Some _ => Some (Z.of_nat i) end
  end.

Lemma dip_loops dips daddr n i ori :
  length dips = 4%nat -> (0 < n <= 4)%nat -> (i < 4)%nat -> ((i + n) mod 4 = ori)%nat ->
  let o := scan 4 (stops dslot dips daddr) n i in
  probe_dip any n dips daddr (Z.of_nat ori) (Z.of_nat i) = Ok (probe_result dips ori o) /\
  find_dip any n dips daddr (Z.of_nat ori) (Z.of_nat i) = Ok (find_result dips o).
Proof.
  intros Hl. revert i. induction n as [|n IH]; intros i Hn Hi Ho; [lia|]. cbn [probe_dip find_dip scan].
  destruct (array_get_lt dips (Z.of_nat i)) as (d & -> & Hd); [lia|]. rewrite Nat2Z.id in Hd. cbn [res_bind].
  assert (stops dslot dips daddr i = bool_decide (d_daddr d = any) || bool_decide (d_daddr d = daddr)) as ->
    by (unfold stops; by rewrite Hd, dip_stops).
  case_bool_decide as Ha; cbn [orb].
  { assert (dips !! i ≫= dslot = None) as E by (rewrite Hd; cbn; unfold dslot; by rewrite decide_True).
    unfold probe_result, find_result. by rewrite E. }
  case_bool_decide as Hk.
  { assert (dips !! i ≫= dslot = Some (d_daddr d)) as E by (rewrite Hd; cbn; unfold dslot; by rewrite decide_False).
    unfold probe_result, find_result. by rewrite E. }
  change FF_RSS_TBL_MAX_DIP_MASK with (Z.of_nat 4 - 1). rewrite (next_idx 4 2) by (done || lia).
  destruct (Z.eqb_spec (Z.of_nat (S i mod 4)) (Z.of_nat ori)) as [E|E].
  - rewrite (proj1 (cycle_step 4 n i ori Hn Hi Ho)) by lia. by rewrite ?E.
  - destruct (proj2 (cycle_step 4 n i ori Hn Hi Ho)) as (H1 & H2 & H3); [lia|]. by apply IH.
Qed.

Lemma dip_search dips daddr :
  length dips = 4%nat ->
  let ori := daddr_idx fold daddr in
  probe_dip any (length dips) dips daddr ori ori = Ok (probe_result dips (dhome daddr) (dfind dips daddr)) /\
  find_dip any (length dips) dips daddr ori ori = Ok (find_result dips (dfind dips daddr)).
Proof.
  intros Hl ori. unfold ori. rewrite dhome_idx, Hl. pose proof (dhome_lt daddr).
  apply dip_loops; [done|lia|done|].
  rewrite <- (Nat.mul_1_l 4) at 1. by rewrite Nat.Div0.mod_add, Nat.mod_small.
Qed.

Lemma find_entry_loop tbl saddr daddr sport n i ori :
  length tbl = 16%nat -> Forall (fun e => length (e_dips e) = 4%nat) tbl ->
  (0 < n <= 16)%nat -> (i < 16)%nat -> ((i + n) mod 16 = ori)%nat ->
  find_entry any fold n tbl saddr daddr sport (Z.of_nat ori) (Z.of_nat i) =
  Ok (match scan 16 (stops eslot tbl (saddr, sport)) n i with
      | None => None
      | Some j =>
          e ← tbl !! j; k ← eslot e;
          (fun di => (Z.of_nat j, di)) <$> find_result (e_dips e) (dfind (e_dips e) daddr)
      end).
Proof.
  intros Hl Hd. revert i. induction n as [|n IH]; intros i Hn Hi Ho; [lia|]. cbn [find_entry scan].
  destruct (array_get_lt tbl (Z.of_nat i)) as (e & -> & He); [lia|]. rewrite Nat2Z.id in He. cbn [res_bind].
  unfold stops at 1. rewrite He, <- entry_stops. case_bool_decide as Ha; cbn [orb].
  { rewrite He. cbn. unfold eslot. by rewrite decide_True. }
  destruct (entry_is e saddr sport) eqn:Hk.
  { rewrite He. cbn [mbind option_bind]. unfold eslot at 1. rewrite decide_False by done. cbn [mbind option_bind].
    rewrite (proj2 (dip_search (e_dips e) daddr (Forall_lookup_1 _ _ _ _ Hd He))). done. }
  change FF_RSS_TBL_MAX_SADDR_SPORT_ENTRIES_MASK with (Z.of_nat 16 - 1). rewrite (next_idx 16 4) by (done || lia).
  destruct (Z.eqb_spec (Z.of_nat (S i mod 16)) (Z.of_nat ori)) as [E|E].
  - rewrite (proj1 (cycle_step 16 n i ori Hn Hi Ho)) by lia. by rewrite ?E.
  - destruct (proj2 (cycle_step 16 n i ori Hn Hi Ho)) as (H1 & H2 & H3); [lia|]. by apply IH.
Qed.
End Loops.

(** ** The list of ports *)

Definition ports_are (a : ports) (l : list Z) : Prop :=
  forall i x, l !! i = Some x -> a !! (Z.of_nat i + 1) = Some x.

(** The part of the array between two indices. *)
Definition ports_between (a : ports) (i j : Z) : list Z :=
  (fun k => default 0 (a !! k)) <$> seqZ i (j - i + 1).

Lemma ports_between_take a l (n : nat) :
  ports_are a l -> (n <= length l)%nat -> ports_between a 1 (Z.of_nat n) = take n l.
Proof.
  intros Ha Hn. apply list_eq. intros i. unfold ports_between. rewrite list_lookup_fmap.
  destruct (decide (i < n)%nat) as [Hi|Hi].
  - rewrite lookup_seqZ_lt, lookup_take_lt by lia. cbn. destruct (lookup_lt_is_Some_2 l i) as [x Hx]; [lia|].
    rewrite Hx. replace (1 + Z.of_nat i) with (Z.of_nat i + 1) by lia. by rewrite (Ha i x Hx).
  - rewrite lookup_seqZ_ge, lookup_take_ge by lia. done.
Qed.

Section Fill.
Context {A : Type} `{EqDecision A}.
Variable any : A.
Variable check : Z -> A -> A -> Z -> Z -> res bool.

Definition owns (p : Z) (saddr daddr : A) (sport j : Z) : bool :=
  match check p saddr daddr sport (htons j) with Ok b => b | _ => false end.

(** The thread's own ports, in order. *)
Definition own_ports (p : Z) (saddr daddr : A) (sport : Z) : list Z :=
  filter (fun j => owns p saddr daddr sport j = true) (seqZ 0 65536).

(** What an entry has for them. *)
Record filled (d : dip A) (daddr : A) (l : list Z) : Prop := {
  f_daddr : d_daddr d = daddr;
  f_first : d_first_idx d = 1;
  f_last : d_last_idx d = Z.min (Z.of_nat (length l)) 65535;
  f_num : d_num d = Z.min (Z.of_nat (length l)) 65535;
  f_ports : ports_are (d_dport d) l
}.

Lemma filter_seqZ_length (P : Z -> bool) n : 0 <= n ->
  Z.of_nat (length (filter (fun j => P j = true) (seqZ 0 n))) <= n.
Proof.
  intros Hn. pose proof (length_filter (fun j => P j = true) (seqZ 0 n)) as H. rewrite length_seqZ in H. lia.
Qed.

Lemma own_ports_length p saddr daddr sport : Z.of_nat (length (own_ports p saddr daddr sport)) <= 65536.
Proof. apply (filter_seqZ_length (owns p saddr daddr sport)). lia. Qed.

Lemma fill_loop_spec p saddr daddr sport n j d k prev :
  (forall dp, exists b, check p saddr daddr sport dp = Ok b) ->
  0 <= j -> j + Z.of_nat n = 65536 ->
  let l := filter (fun x => owns p saddr daddr sport x = true) (seqZ 0 j) in
  ports_are (d_dport d) l -> k = Z.of_nat (length l) + 1 -> d_num d = u16 (Z.of_nat (length l)) ->
  let l' := own_ports p saddr daddr sport in
  exists d' prev', fill_loop check n p saddr daddr sport j d k prev = Ok (d', Z.of_nat (length l') + 1, prev') /\
    ports_are (d_dport d') l' /\ d_num d' = u16 (Z.of_nat (length l')) /\ d_first_idx d' = d_first_idx d.
Proof.
  intros check_ok. revert j d k prev. induction n as [|n IH]; intros j d k prev Hj Hn l Hp -> Hnum l'.
  { assert (j = 65536) as -> by lia. exists d, prev. cbn [fill_loop]. unfold l', own_ports. unfold l in Hp, Hnum |- *. auto. }
  cbn [fill_loop]. destruct (check_ok (htons j)) as [b Hb]. rewrite Hb. cbn [res_bind].
  assert (filter (fun x => owns p saddr daddr sport x = true) (seqZ 0 (j + 1)) =
    l ++ if b then [j] else []) as Hl.
  { replace (j + 1) with (Z.of_nat (S (Z.to_nat j))) by lia. rewrite seqZ_S, filter_app, filter_cons, filter_nil.
    rewrite Z2Nat.id by lia. unfold l. f_equal.
    rewrite Z.add_0_l. assert (owns p saddr daddr sport j = b) as -> by (unfold owns; by rewrite Hb). by destruct b. }
  pose proof (filter_seqZ_length (owns p saddr daddr sport) j Hj) as Hlen. fold l in Hlen.
  destruct b.
  - unfold port_set. rewrite decide_True by (unfold FF_RSS_TBL_MAX_DPORT; lia). cbn [res_bind].
    match goal with |- context [fill_loop _ n _ _ _ _ _ ?d1 _ _] => apply (IH (j + 1) d1) end;
      [lia|lia|..]; rewrite Hl; cbn [d_dport d_num].
    + intros i x Hx. rewrite (wrapu_small 16) by lia. apply lookup_app_Some in Hx as [Hx|[Hi Hx]].
      * rewrite lookup_insert_ne; [by apply Hp|]. apply lookup_lt_Some in Hx. lia.
      * apply list_lookup_singleton_Some in Hx as [Hi0 <-]. replace i with (length l) by lia. apply lookup_insert_eq.
    + rewrite length_app. cbn. lia.
    + rewrite Hnum, length_app. cbn [length]. unfold wrapu. rewrite Zplus_mod_idemp_l. f_equal. lia.
  - apply IH; [lia|lia|..]; rewrite Hl, app_nil_r; done.
Qed.

Lemma fill_dip_spec p saddr daddr sport d :
  (forall dp, exists b, check p saddr daddr sport dp = Ok b) -> d_num d = 0 ->
  exists d', fill_dip check p saddr daddr sport d = Ok d' /\ filled d' daddr (own_ports p saddr daddr sport).
Proof.
  intros check_ok Hd. unfold fill_dip, port_set. rewrite decide_True by (unfold FF_RSS_TBL_MAX_DPORT; lia). cbn [res_bind].
  destruct (fill_loop_spec p saddr daddr sport (Z.to_nat FF_RSS_TBL_MAX_DPORT) 0
    (mk_dip (d_daddr d) (d_first d) (d_last d) 1 (d_last_idx d) (d_num d) (<[0 := u16 1]> (d_dport d))) 1 (-1))
    as (d' & prev & -> & Hp & Hn & Hf).
  - exact check_ok.
  - lia.
  - done.
  - intros i x Hx. done.
  - done.
  - cbn. by rewrite Hd.
  - cbn [res_bind]. pose proof (own_ports_length p saddr daddr sport) as Hl. unfold FF_RSS_TBL_MAX_DPORT.
    set (l := own_ports p saddr daddr sport) in *. cbn [d_first_idx] in Hf.
    destruct (Z.eqb_spec (Z.of_nat (length l) + 1) (65536 + 1)); eexists; (split; [done|]); split; cbn; try done.
    + rewrite (wrapu_small 16); lia.
    + rewrite (wrapu_small 16); lia.
    + rewrite (wrapu_small 16); lia.
    + rewrite Hn, (wrapu_small 16); lia.
Qed.
End Fill.

(** ** Refinement

    The specification of a table: for a remote address and port, the local
    addresses and their interfaces, as many as there is room for. *)

Section Refine.
Context {A : Type} `{Countable A}.
Variables (any : A) (fold : A -> Z).
Variable check : Z -> A -> A -> Z -> Z -> res bool.

Abbreviation spec := (gmap (A * Z) (gmap A Z)).

Definition spec_add (s : spec) (c : rss_cfg A) : spec :=
  let k := (c_saddr c, c_sport c) in
  match s !! k with
  | None => if decide (size s < 16)%nat then <[k := {[c_daddr c := c_port_id c]}]> s else s
  | Some ds =>
      match ds !! c_daddr c with
      | Some _ => s
      | None => if decide (size ds < 4)%nat then <[k := <[c_daddr c := c_port_id c]> ds]> s else s
      end
  end.

(** A configuration the table can take: the addresses are not null, and the
    queue test has an answer. *)
Record cfg_ok (c : rss_cfg A) : Prop := {
  c_saddr_ok : c_saddr c <> any;
  c_daddr_ok : c_daddr c <> any;
  c_check_ok : forall dp, exists b, check (c_port_id c) (c_saddr c) (c_daddr c) (c_sport c) dp = Ok b
}.

Definition spec_lookup (s : spec) (saddr daddr : A) (sport : Z) : option Z :=
  ds ← s !! (saddr, sport); ds !! daddr.

(** What is known of the entry of local address [a] with the interface [p],
    below [k]. *)
Definition dip_prop := Z -> A * Z -> A -> dip A -> Prop.

Definition filled_prop : dip_prop := fun p k a d => filled d a (own_ports check p k.1 a k.2).

Record dips_rel (F : dip_prop) (dips : list (dip A)) (k : A * Z) (ds : gmap A Z) : Prop := {
  dr_oa : oa (dslot any) (dhome fold) 4 dips;
  dr_dom : omap (dslot any) dips ≡ₚ elements (dom ds);
  dr_dips : forall i d, dips !! i = Some d ->
    match dslot any d with
    | None => d = empty_dip any
    | Some a => exists p, ds !! a = Some p /\ F p k a d
    end
}.

Record tbl_rel (F : dip_prop) (tbl : list (entry A)) (s : spec) : Prop := {
  tr_oa : oa (eslot any) (ehome fold) 16 tbl;
  tr_dom : omap (eslot any) tbl ≡ₚ elements (dom s);
  tr_entries : forall i e, tbl !! i = Some e ->
    match eslot any e with
    | None => e_dips e = replicate 4 (empty_dip any)
    | Some k => exists ds, s !! k = Some ds /\ dips_rel F (e_dips e) k ds
    end
}.

Lemma size_perm `{Countable B} {C} (m : gmap B C) l : l ≡ₚ elements (dom m) -> size m = length l.
Proof. intros Hl. rewrite <- size_dom. symmetry. by apply Permutation_length. Qed.

Lemma dom_insert_perm `{Countable B} {C} (m : gmap B C) b c l :
  m !! b = None -> l ≡ₚ elements (dom m) -> b :: l ≡ₚ elements (dom (<[b := c]> m)).
Proof.
  intros Hb Hl. rewrite dom_insert, elements_union_singleton by (by apply not_elem_of_dom). by rewrite Hl.
Qed.

Lemma dslot_empty : dslot any (empty_dip any) = None.
Proof. unfold dslot. by rewrite decide_True. Qed.

Lemma dips_rel_empty F k : dips_rel F (replicate 4 (empty_dip any)) k ∅.
Proof.
  destruct (oa_empty (dslot any) (dhome fold) 4 (empty_dip any) dslot_empty) as [Ho Hm]. split; [done| |].
  - by rewrite Hm, dom_empty_L, elements_empty.
  - intros i d [-> _]%lookup_replicate. by rewrite dslot_empty.
Qed.

(** Adding a local address. *)
Lemma dips_add dips k ds daddr p :
  dips_rel filled_prop dips k ds -> daddr <> any ->
  let r := probe_dip any (length dips) dips daddr (daddr_idx fold daddr) (daddr_idx fold daddr) in
  match ds !! daddr with
  | Some _ => r = Ok None
  | None =>
      if decide (size ds < 4)%nat then
        exists i, r = Ok (Some (Z.of_nat i)) /\ dips !! i = Some (empty_dip any) /\
          forall d', filled d' daddr (own_ports check p k.1 daddr k.2) ->
            dips_rel filled_prop (<[i := d']> dips) k (<[daddr := p]> ds)
      else
        r = Ok (Some (daddr_idx fold daddr)) /\
        forall d, dips !! dhome fold daddr = Some d -> d_daddr d <> any
  end.
Proof.
  intros Hd Ha r. pose proof Hd as [Ho Hp Hs]. pose proof Ho as [Hlen _].
  unfold r. rewrite (proj1 (dip_search any fold dips daddr Hlen)).
  pose proof (size_perm ds _ Hp) as Hsz. destruct (ds !! daddr) as [q|] eqn:E.
  - assert (daddr ∈ omap (dslot any) dips) as Hin by (rewrite Hp, elem_of_elements; by eapply elem_of_dom_2).
    destruct (find_present _ _ _ _ _ Ho Hin) as (i & d & -> & Hi & Hk).
    unfold probe_result. rewrite Hi. cbn [mbind option_bind]. by rewrite Hk.
  - assert (daddr ∉ omap (dslot any) dips) as Hin by (rewrite Hp, elem_of_elements; by apply not_elem_of_dom).
    pose proof (find_absent _ _ _ (dhome_lt fold) _ _ Ho Hin) as Hf.
    destruct (find (dslot any) (dhome fold) 4 dips daddr) as [i|] eqn:Ef.
    + destruct Hf as (d & Hi & Hk). pose proof (Hs i d Hi) as Hd0. rewrite Hk in Hd0. subst d.
      assert (size ds < 4)%nat as Hlt.
      { rewrite Hsz, <- Hlen. by eapply omap_free_lt. }
      rewrite decide_True by done. exists i. split; [unfold probe_result; rewrite Hi; cbn [mbind option_bind]; by rewrite Hk|]. split; [done|]. intros d' Hfill.
      assert (dslot any d' = Some daddr) as Hk'.
      { unfold dslot. rewrite (f_daddr _ _ _ Hfill). by rewrite decide_False. }
      split.
      * by eapply oa_insert.
      * rewrite (omap_insert_perm _ _ _ _ _ daddr Hi Hk Hk'). by apply dom_insert_perm.
      * intros j x Hj. apply list_lookup_insert_Some in Hj as [(<- & <- & _)|[Hne Hj]].
        -- rewrite Hk'. exists p. by rewrite lookup_insert_eq.
        -- pose proof (Hs j x Hj) as Hx. destruct (dslot any x) as [a|] eqn:Ex; [|done].
           destruct Hx as (q & Hq & Hfq). exists q. split; [|done]. rewrite lookup_insert_ne; [done|]. congruence.
    + rewrite decide_False by lia. cbn. split; [by rewrite dhome_idx|]. intros d Hdh Hany.
      pose proof (scan_None_all _ _ _ (dhome_lt fold daddr) Ef (dhome fold daddr) (dhome_lt fold daddr)) as Hst.
      unfold stops in Hst. rewrite Hdh in Hst. unfold dslot in Hst. by rewrite decide_True in Hst.
Qed.

(** The last part of [tbl_add]: the local address in the entry found. *)
Lemma tbl_add_entry tbl c i e ds :
  tbl !! i = Some e -> probe_entry any (length tbl) tbl (c_saddr c) (c_sport c)
    (entry_idx fold (c_saddr c) (c_sport c)) (entry_idx fold (c_saddr c) (c_sport c)) = Ok (Z.of_nat i) ->
  e_saddr e = any \/ entry_is e (c_saddr c) (c_sport c) = true ->
  dips_rel filled_prop (e_dips e) (c_saddr c, c_sport c) ds -> cfg_ok c ->
  match ds !! c_daddr c with
  | Some _ => tbl_add any fold check tbl c = Ok tbl
  | None =>
      if decide (size ds < 4)%nat then
        exists e', tbl_add any fold check tbl c = Ok (<[i := e']> tbl) /\
          e_saddr e' = c_saddr c /\ e_sport e' = c_sport c /\
          dips_rel filled_prop (e_dips e') (c_saddr c, c_sport c) (<[c_daddr c := c_port_id c]> ds)
      else tbl_add any fold check tbl c = Ok tbl
  end.
Proof.
  intros Hi Hpr He Hd [_ Ha check_ok]. unfold tbl_add. rewrite Hpr. cbn [res_bind].
  assert (Hlt : (i < length tbl)%nat) by (by eapply lookup_lt_Some).
  rewrite (array_get_nat tbl i e Hi). cbn [res_bind].
  replace (_ && negb (bool_decide (e_saddr e = any)) && negb (entry_is e (c_saddr c) (c_sport c))) with false.
  2: { destruct He as [He| ->]; [rewrite bool_decide_true by done|]; by rewrite !andb_false_r. }
  pose proof (dips_add (e_dips e) _ ds (c_daddr c) (c_port_id c) Hd Ha) as Hp. cbn zeta in Hp.
  destruct (ds !! c_daddr c); [by rewrite Hp|]. case_decide as Hsz.
  - destruct Hp as (j & -> & Hj & Hfill). cbn [res_bind].
    assert (Hjl : (j < length (e_dips e))%nat) by (by eapply lookup_lt_Some).
    rewrite (array_get_nat (e_dips e) j _ Hj). cbn [res_bind].
    rewrite bool_decide_true by done. rewrite andb_false_r.
    destruct (fill_dip_spec check (c_port_id c) (c_saddr c) (c_daddr c) (c_sport c) (empty_dip any) check_ok eq_refl)
      as (d' & -> & Hd'). cbn [res_bind].
    rewrite array_set_lt, Nat2Z.id by lia. cbn [res_bind]. rewrite array_set_lt, Nat2Z.id by lia.
    eexists. split; [done|]. cbn. split; [done|]. split; [done|]. by apply Hfill.
  - destruct Hp as [-> Hf]. cbn [res_bind]. pose proof (dhome_lt fold (c_daddr c)). destruct (dr_oa _ _ _ _ Hd) as [Hlen _].
    rewrite dhome_idx. destruct (array_get_lt (e_dips e) (Z.of_nat (dhome fold (c_daddr c)))) as (d & -> & Hdd); [lia|].
    rewrite Nat2Z.id in Hdd. cbn [res_bind]. rewrite Z.eqb_refl, bool_decide_false by (by apply Hf). done.
Qed.

Lemma eslot_Some e k : eslot any e = Some k -> e_saddr e <> any /\ entry_is e k.1 k.2 = true /\ k = (e_saddr e, e_sport e).
Proof.
  unfold eslot, entry_is. case_decide; [done|]. intros [= <-]. cbn. split; [done|]. split; [|done].
  by rewrite bool_decide_true, Z.eqb_refl.
Qed.

Lemma tbl_rel_insert tbl s i e k ds :
  tbl_rel filled_prop tbl s -> eslot any e = Some k -> dips_rel filled_prop (e_dips e) k ds ->
  match s !! k with
  | Some _ => exists e0, tbl !! i = Some e0 /\ eslot any e0 = Some k
  | None => exists e0, tbl !! i = Some e0 /\ eslot any e0 = None /\ find (eslot any) (ehome fold) 16 tbl k = Some i
  end -> tbl_rel filled_prop (<[i := e]> tbl) (<[k := ds]> s).
Proof.
  intros [Ho Hp He] Hk Hd Hi.
  assert (oa (eslot any) (ehome fold) 16 (<[i := e]> tbl) /\
    omap (eslot any) (<[i := e]> tbl) ≡ₚ elements (dom (<[k := ds]> s)) /\
    (forall j e', j <> i -> tbl !! j = Some e' -> eslot any e' <> Some k)) as (H1 & H2 & H3).
  { destruct (s !! k) as [ds0|] eqn:E.
    - destruct Hi as (e0 & Hi & Hk0). destruct (oa_update _ _ _ _ _ _ e Ho Hi) as [H1 H2]; [congruence|].
      split; [done|]. split.
      + rewrite H2, dom_insert_lookup_L by (by eexists). done.
      + intros j e' Hj Hje Hk'. destruct Ho as [_ Ho]. pose proof (Ho j e' k Hje Hk'). pose proof (Ho i e0 k Hi Hk0).
        congruence.
    - destruct Hi as (e0 & Hi & Hk0 & Hf). split; [by eapply oa_insert|]. split.
      + rewrite (omap_insert_perm _ _ _ _ _ k Hi Hk0 Hk). by apply dom_insert_perm.
      + intros j e' Hj Hje Hk'. pose proof (He j e' Hje) as Hx. rewrite Hk' in Hx. destruct Hx as (? & ? & _). congruence. }
  split; [done|done|]. intros j x Hj. apply list_lookup_insert_Some in Hj as [(<- & <- & _)|[Hne Hj]].
  - rewrite Hk. exists ds. by rewrite lookup_insert_eq.
  - pose proof (He j x Hj) as Hx. specialize (H3 j x). destruct (eslot any x) as [k'|]; [|done].
    destruct Hx as (ds' & Hds' & Hr). exists ds'. split; [|done]. rewrite lookup_insert_ne; [done|].
    intros ->. by apply H3.
Qed.

Lemma tbl_add_refines tbl s c :
  tbl_rel filled_prop tbl s -> cfg_ok c ->
  exists tbl', tbl_add any fold check tbl c = Ok tbl' /\ tbl_rel filled_prop tbl' (spec_add s c).
Proof.
  intros Hr Hc. pose proof (c_saddr_ok _ Hc) as Hsa. pose proof Hr as [Ho Hp He]. pose proof (proj1 Ho) as Hlen.
  set (k := (c_saddr c, c_sport c)). pose proof (probe_entry_spec any fold tbl (c_saddr c) (c_sport c) Hlen) as Hpr.
  cbn zeta in Hpr. fold k in Hpr. pose proof (size_perm s _ Hp) as Hsz.
  assert (forall e', e_saddr e' = c_saddr c -> e_sport e' = c_sport c -> eslot any e' = Some k) as Hek.
  { intros e' H1 H2. unfold eslot. rewrite H1, H2. by rewrite decide_False. }
  unfold spec_add. fold k. destruct (s !! k) as [ds|] eqn:E.
  - assert (k ∈ omap (eslot any) tbl) as Hin by (rewrite Hp, elem_of_elements; by eapply elem_of_dom_2).
    destruct (find_present _ _ _ _ _ Ho Hin) as (i & e & Hf & Hi & Hk). rewrite Hf in Hpr. cbn in Hpr.
    pose proof (He i e Hi) as Hx. rewrite Hk in Hx. destruct Hx as (ds' & Hds & Hd). rewrite E in Hds. injection Hds as <-.
    destruct (eslot_Some e k Hk) as (_ & Hent & _).
    pose proof (tbl_add_entry tbl c i e ds Hi Hpr (or_intror Hent) Hd Hc) as Ht.
    destruct (ds !! c_daddr c); [by exists tbl|]. case_decide; [|by exists tbl].
    destruct Ht as (e' & -> & H1 & H2 & Hd'). eexists. split; [done|]. apply tbl_rel_insert; [done|by apply Hek|done|].
    rewrite E. by exists e.
  - assert (k ∉ omap (eslot any) tbl) as Hin by (rewrite Hp, elem_of_elements; by apply not_elem_of_dom).
    pose proof (find_absent _ _ _ (ehome_lt fold) _ _ Ho Hin) as Hf.
    destruct (find (eslot any) (ehome fold) 16 tbl k) as [i|] eqn:Ef.
    + destruct Hf as (e & Hi & Hk). cbn in Hpr. pose proof (omap_free_lt _ _ _ _ Hi Hk).
      rewrite decide_True by lia. pose proof (He i e Hi) as Hx. rewrite Hk in Hx.
      pose proof (dips_rel_empty filled_prop k) as Hd. rewrite <- Hx in Hd.
      assert (e_saddr e = any) as Hany by (unfold eslot in Hk; by case_decide).
      pose proof (tbl_add_entry tbl c i e ∅ Hi Hpr (or_introl Hany) Hd Hc) as Ht.
      rewrite lookup_empty, map_size_empty in Ht. rewrite decide_True in Ht by lia.
      destruct Ht as (e' & -> & H1 & H2 & Hd'). eexists. split; [done|]. apply tbl_rel_insert; [done|by apply Hek|done|].
      rewrite E. by exists e.
    + rewrite decide_False by lia. exists tbl. split; [|done]. unfold tbl_add. rewrite Hpr. cbn [default res_bind].
      pose proof (ehome_lt fold k). destruct (array_get_lt tbl (Z.of_nat (ehome fold k))) as (e & -> & Hi); [lia|].
      rewrite Nat2Z.id in Hi. cbn [res_bind].
      pose proof (scan_None_all _ _ _ (ehome_lt fold k) Ef (ehome fold k) (ehome_lt fold k)) as Hst.
      unfold stops in Hst. rewrite Hi in Hst. unfold k in Hst. rewrite <- (entry_stops any fold) in Hst. apply orb_false_iff in Hst as [-> ->].
      fold k. rewrite ehome_idx, Z.eqb_refl. done.
Qed.

Lemma tbl_rel_empty F : tbl_rel F (empty_table any) ∅.
Proof.
  assert (eslot any (empty_entry any) = None) as He by (unfold eslot; by rewrite decide_True).
  destruct (oa_empty (eslot any) (ehome fold) 16 (empty_entry any) He) as [Ho Hm]. split; [done| |].
  - change (empty_table any) with (replicate 16 (empty_entry any)). by rewrite Hm, dom_empty_L, elements_empty.
  - intros i e [-> _]%lookup_replicate. by rewrite He.
Qed.

Lemma tbl_init_refines cfgs :
  Forall cfg_ok cfgs -> exists tbl, tbl_init any fold check cfgs = Ok tbl /\ tbl_rel filled_prop tbl (foldl spec_add ∅ cfgs).
Proof.
  unfold tbl_init. intros Hc. generalize (tbl_rel_empty filled_prop). generalize (empty_table any) (∅ : spec).
  induction Hc as [|c cfgs Hc _ IH]; intros tbl s Hr; [by exists tbl|]. cbn [add_all foldl].
  destruct (tbl_add_refines tbl s c Hr Hc) as (tbl' & -> & Hr'). by apply IH.
Qed.

(** The entry at a place. *)
Definition dip_at (tbl : list (entry A)) (place : Z * Z) : option (dip A) :=
  e ← tbl !! Z.to_nat place.1; e_dips e !! Z.to_nat place.2.

Lemma dfind_refines F dips k ds daddr :
  dips_rel F dips k ds ->
  match ds !! daddr with
  | None => find_result any dips (find (dslot any) (dhome fold) 4 dips daddr) = None
  | Some p => exists i d, find_result any dips (find (dslot any) (dhome fold) 4 dips daddr) = Some (Z.of_nat i) /\
      dips !! i = Some d /\ F p k daddr d
  end.
Proof.
  intros [Ho Hp Hs]. destruct (ds !! daddr) as [p|] eqn:E.
  - assert (daddr ∈ omap (dslot any) dips) as Hin by (rewrite Hp, elem_of_elements; by eapply elem_of_dom_2).
    destruct (find_present _ _ _ _ _ Ho Hin) as (i & d & -> & Hi & Hk). exists i, d.
    unfold find_result. rewrite Hi. cbn [mbind option_bind]. rewrite Hk. split; [done|]. split; [done|].
    pose proof (Hs i d Hi) as Hx. rewrite Hk in Hx. destruct Hx as (q & Hq & HF). congruence.
  - assert (daddr ∉ omap (dslot any) dips) as Hin by (rewrite Hp, elem_of_elements; by apply not_elem_of_dom).
    pose proof (find_absent _ _ _ (dhome_lt fold) _ _ Ho Hin) as Hf.
    destruct (find _ _ _ _ _) as [i|]; [|done]. destruct Hf as (d & Hi & Hk).
    unfold find_result. rewrite Hi. cbn [mbind option_bind]. by rewrite Hk.
Qed.

Lemma get_refines F tbl s saddr daddr sport :
  tbl_rel F tbl s ->
  let r := tbl_get_portrange any fold true tbl saddr daddr sport in
  match spec_lookup s saddr daddr sport with
  | None => r = Ok (inl (- ENOENT))
  | Some p => exists place d, r = Ok (inr (d_first_idx d, d_last_idx d, place)) /\
      dip_at tbl place = Some d /\ F p (saddr, sport) daddr d
  end.
Proof.
  intros [Ho Hp He] r. pose proof (proj1 Ho) as Hlen. unfold r, tbl_get_portrange, spec_lookup. cbn [negb].
  pose proof (ehome_lt fold (saddr, sport)). rewrite ehome_idx, Hlen.
  rewrite find_entry_loop; [|done| |lia|done|by rewrite <- (Nat.mul_1_l 16) at 1; rewrite Nat.Div0.mod_add, Nat.mod_small].
  2: { apply Forall_lookup_2. intros i e Hi. pose proof (He i e Hi) as Hx.
       destruct (eslot any e); [|by rewrite Hx]. destruct Hx as (ds & _ & Hd). apply (dr_oa _ _ _ _ Hd). }
  change (scan 16 (stops (eslot any) tbl (saddr, sport)) 16 (ehome fold (saddr, sport)))
    with (find (eslot any) (ehome fold) 16 tbl (saddr, sport)). cbn [res_bind].
  destruct (s !! (saddr, sport)) as [ds|] eqn:E; cbn [mbind option_bind].
  - assert ((saddr, sport) ∈ omap (eslot any) tbl) as Hin by (rewrite Hp, elem_of_elements; by eapply elem_of_dom_2).
    destruct (find_present _ _ _ _ _ Ho Hin) as (i & e & -> & Hi & Hk). rewrite Hi. cbn [mbind option_bind].
    rewrite Hk. cbn [mbind option_bind]. pose proof (He i e Hi) as Hx. rewrite Hk in Hx.
    destruct Hx as (ds' & Hds & Hd). assert (ds' = ds) as -> by congruence.
    pose proof (dfind_refines F (e_dips e) _ ds daddr Hd) as Hf. destruct (ds !! daddr) as [p|]; [|by rewrite Hf].
    destruct Hf as (j & d & -> & Hj & HF). exists (Z.of_nat i, Z.of_nat j), d. cbn [fmap option_fmap option_map].
    rewrite (array_get_nat tbl i e Hi). cbn [res_bind]. rewrite (array_get_nat _ j d Hj). split; [done|]. split; [|done].
    unfold dip_at. cbn. rewrite !Nat2Z.id, Hi. done.
  - assert ((saddr, sport) ∉ omap (eslot any) tbl) as Hin by (rewrite Hp, elem_of_elements; by apply not_elem_of_dom).
    pose proof (find_absent _ _ _ (ehome_lt fold) _ _ Ho Hin) as Hf.
    destruct (find _ _ _ _ _) as [i|]; [|done]. destruct Hf as (e & Hi & Hk). rewrite Hi. cbn [mbind option_bind].
    rewrite Hk. done.
Qed.

(** Setting the range changes the entries one by one. *)
Section SetRange.
Variables (F F' : dip_prop) (s : spec) (first last : Z).
Hypothesis step : forall k ds a p d, s !! k = Some ds -> ds !! a = Some p -> F p k a d ->
  exists d', set_range d first last = Ok (d', false) /\ d_daddr d' = d_daddr d /\ F' p k a d'.

Lemma set_range_dips_refines dips k ds :
  s !! k = Some ds -> dips_rel F dips k ds ->
  exists dips', set_range_dips any dips first last = Ok (dips', false) /\ dips_rel F' dips' k ds.
Proof.
  intros Hk [Ho Hp Hd].
  assert (exists dips', set_range_dips any dips first last = Ok (dips', false) /\
    Forall2 (fun d d' => dslot any d' = dslot any d /\ match dslot any d with
      | None => d' = empty_dip any
      | Some a => exists p, ds !! a = Some p /\ F' p k a d' end) dips dips') as (dips' & Hset & Hall).
  { clear Ho Hp. induction dips as [|d dips IH]; [by exists []|]. cbn [set_range_dips].
    destruct IH as (dips' & Hset & Hall); [intros i d' Hi; by apply (Hd (S i))|].
    specialize (Hd 0%nat d eq_refl). unfold dslot in Hd at 1. case_bool_decide as Ha; cbn [res_bind].
    - rewrite decide_True in Hd by done. rewrite Hset. cbn [res_bind]. eexists. split; [done|]. constructor; [|done].
      split; [done|]. unfold dslot at 1. by rewrite decide_True.
    - rewrite decide_False in Hd by done. destruct Hd as (p & Hdp & HF).
      destruct (step _ _ _ _ _ Hk Hdp HF) as (d' & -> & Hd' & HF'). cbn [res_bind]. rewrite Hset. cbn [res_bind].
      eexists. split; [done|]. constructor; [|done]. unfold dslot. rewrite Hd'. rewrite decide_False by done.
      split; [done|]. by exists p. }
  exists dips'. split; [done|]. destruct (oa_same (dslot any) (dhome fold) 4 dips dips') as [Ho' Hm]; [|done|].
  { by eapply Forall2_impl; [exact Hall|]; cbn; intros ? ? [? _]. }
  split; [done|by rewrite Hm|]. intros i d' Hi.
  destruct (Forall2_lookup_r _ _ _ _ _ Hall Hi) as (d & _ & -> & Hx). done.
Qed.

Lemma set_range_refines tbl :
  tbl_rel F tbl s ->
  exists tbl', set_range_entries any tbl first last = Ok (tbl', false) /\ tbl_rel F' tbl' s.
Proof.
  intros [Ho Hp He].
  assert (exists tbl', set_range_entries any tbl first last = Ok (tbl', false) /\
    Forall2 (fun e e' => eslot any e' = eslot any e /\ match eslot any e with
      | None => e_dips e' = replicate 4 (empty_dip any)
      | Some k => exists ds, s !! k = Some ds /\ dips_rel F' (e_dips e') k ds end) tbl tbl') as (tbl' & Hset & Hall).
  { clear Ho Hp. induction tbl as [|e tbl IH]; [by exists []|]. cbn [set_range_entries].
    destruct IH as (tbl' & Hset & Hall); [intros i e' Hi; by apply (He (S i))|].
    specialize (He 0%nat e eq_refl). unfold eslot in He at 1. case_bool_decide as Ha; cbn [res_bind].
    - rewrite decide_True in He by done. rewrite Hset. cbn [res_bind]. eexists. split; [done|]. constructor; [|done].
      split; [done|]. unfold eslot at 1. by rewrite decide_True.
    - rewrite decide_False in He by done. destruct He as (ds & Hds & Hd).
      destruct (set_range_dips_refines _ _ _ Hds Hd) as (dips' & -> & Hd'). cbn [res_bind]. rewrite Hset. cbn [res_bind].
      eexists. split; [done|]. constructor; [|done]. unfold eslot. cbn. rewrite decide_False by done.
      split; [done|]. by exists ds. }
  exists tbl'. split; [done|]. destruct (oa_same (eslot any) (ehome fold) 16 tbl tbl') as [Ho' Hm]; [|done|].
  { by eapply Forall2_impl; [exact Hall|]; cbn; intros ? ? [? _]. }
  split; [done|by rewrite Hm|]. intros i e' Hi.
  destruct (Forall2_lookup_r _ _ _ _ _ Hall Hi) as (e & _ & -> & Hx). done.
Qed.
End SetRange.
End Refine.

(** ** The range of a list of ports *)

Definition below (x : Z) (l : list Z) : nat := length (filter (fun p => p < x) l).

Lemma below_split x l1 l2 : Forall (fun p => p < x) l1 -> Forall (fun p => x <= p) l2 -> below x (l1 ++ l2) = length l1.
Proof.
  intros H1 H2. unfold below. rewrite filter_app, length_app, (filter_all _ _ H1), filter_none; [cbn; lia|].
  eapply Forall_impl; [exact H2|]. cbn. lia.
Qed.

(** A sorted list is split by every number. *)
Lemma sorted_split x l :
  StronglySorted Z.lt l ->
  l = filter (fun p => p < x) l ++ filter (fun p => x <= p) l.
Proof.
  induction 1 as [|y l Hs IH Hy]; [done|]. destruct (decide (y < x)).
  - rewrite filter_cons_True, (filter_cons_False (fun p => x <= p)) by lia. cbn. by f_equal.
  - assert (Forall (fun p => x <= p) (y :: l)) as Hall.
    { constructor; [lia|]. eapply Forall_impl; [exact Hy|]. cbn. lia. }
    rewrite (filter_all (fun p => x <= p)), filter_none; [done| |done]. eapply Forall_impl; [exact Hall|]. cbn. lia.
Qed.

Lemma sorted_below x l : StronglySorted Z.lt l ->
  take (below x l) l = filter (fun p => p < x) l /\ drop (below x l) l = filter (fun p => x <= p) l.
Proof.
  intros Hs. pose proof (sorted_split x l Hs) as E. unfold below.
  set (l1 := filter (fun p => p < x) l) in *. set (l2 := filter (fun p => x <= p) l) in *. clearbody l1 l2. rewrite E.
  by rewrite take_app_length, drop_app_length.
Qed.

Lemma StronglySorted_filter (P : Z -> Prop) `{forall x, Decision (P x)} l :
  StronglySorted Z.lt l -> StronglySorted Z.lt (filter P l).
Proof.
  induction 1 as [|x l _ IH Hx]; [constructor|]. rewrite filter_cons. case_decide; [|done]. constructor; [done|].
  apply Forall_forall. intros y [_ Hy]%list_elem_of_filter. by eapply Forall_forall in Hx.
Qed.

Lemma below_range first last l :
  StronglySorted Z.lt l -> first <= last ->
  drop (below first l) (take (below (last + 1) l) l) = filter (fun p => first <= p <= last) l.
Proof.
  intros Hs Hle. rewrite (proj1 (sorted_below (last + 1) l Hs)).
  assert (below first l = below first (filter (fun p => p < last + 1) l)) as ->.
  { unfold below. f_equal. symmetry. apply list_filter_filter_l. lia. }
  rewrite (proj2 (sorted_below first _ (StronglySorted_filter _ _ Hs))), list_filter_filter.
  apply list_filter_iff. lia.
Qed.

Lemma ports_between_slice a l (i j : nat) :
  ports_are a l -> (j <= length l)%nat -> ports_between a (Z.of_nat i + 1) (Z.of_nat j) = drop i (take j l).
Proof.
  intros Ha Hj. apply list_eq. intros x. unfold ports_between. rewrite list_lookup_fmap, lookup_drop.
  destruct (decide (i + x < j)%nat) as [Hi|Hi].
  - rewrite lookup_seqZ_lt, lookup_take_lt by lia. cbn. destruct (lookup_lt_is_Some_2 l (i + x)) as [y Hy]; [lia|].
    rewrite Hy. replace (Z.of_nat i + 1 + Z.of_nat x) with (Z.of_nat (i + x) + 1) by lia. by rewrite (Ha _ y Hy).
  - rewrite lookup_seqZ_ge, lookup_take_ge by lia. done.
Qed.

Section Range.
Context {A : Type}.
Variables (d : dip A) (l : list Z) (first last : Z).
Hypothesis Hports : ports_are (d_dport d) l.
Hypothesis Hnum : d_num d = Z.of_nat (length l).
Hypothesis Hlen : Z.of_nat (length l) <= 65535.
Hypothesis Hsort : StronglySorted Z.lt l.
Hypothesis Hle : first <= last.

Lemma range_port l1 p l2 : l = l1 ++ p :: l2 -> port_get (d_dport d) (Z.of_nat (length l1) + 1) = Ok p.
Proof.
  intros E. unfold port_get. assert (length l1 < length l)%nat by (rewrite E, length_app; cbn; lia).
  rewrite decide_True by (unfold FF_RSS_TBL_MAX_DPORT; lia). rewrite (Hports (length l1) p); [done|].
  rewrite E. by apply list_lookup_middle.
Qed.

Lemma range_rest l1 p l2 : l = l1 ++ p :: l2 -> Forall (fun q => p < q) l2.
Proof.
  intros E. rewrite E in Hsort. apply StronglySorted_app_1_r in Hsort. by inversion Hsort.
Qed.

(** Counting at the place of [p]. *)
Lemma below_here x l1 p l2 :
  l = l1 ++ p :: l2 -> Forall (fun q => q < x) l1 -> x <= p -> below x l = length l1.
Proof.
  intros E H1 Hp. rewrite E. apply below_split; [done|]. constructor; [done|].
  eapply Forall_impl; [exact (range_rest _ _ _ E)|]. cbn. lia.
Qed.

Lemma below_next l1 p l2 : l = l1 ++ p :: l2 -> Forall (fun q => q < p) l1 -> below (p + 1) l = S (length l1).
Proof.
  intros E H1. rewrite E. replace (l1 ++ p :: l2) with ((l1 ++ [p]) ++ l2) by (by rewrite <- app_assoc).
  rewrite below_split; [rewrite length_app; cbn; lia| |].
  - apply Forall_app. split; [|repeat constructor; lia]. eapply Forall_impl; [exact H1|]. cbn. lia.
  - eapply Forall_impl; [exact (range_rest _ _ _ E)|]. cbn. lia.
Qed.

(** With the first index found and a port at or above [last] to come. *)
Lemma range_loop_last f l0 l1 l2 :
  l = l1 ++ l2 -> Forall (fun q => q < last) l1 -> l1 <> [] -> Exists (fun q => last <= q) l2 -> f <> 0 ->
  range_loop (length l2) d first last (Z.of_nat (length l1) + 1) f l0 = Ok (f, Z.of_nat (below (last + 1) l)).
Proof.
  intros E H1 Hne Hex Hf. revert l1 E H1 Hne. induction l2 as [|p l2 IH]; intros l1 E H1 Hne; [by inversion Hex|].
  cbn [length range_loop]. rewrite (range_port _ _ _ E). cbn [res_bind].
  destruct (Z.eqb_spec f 0) as [|_]; [done|]. cbn [andb res_bind].
  destruct (Z.eqb_spec p last) as [->|Hp]; [by rewrite (below_next _ _ _ E H1), Nat2Z.inj_succ|].
  destruct (Z.ltb_spec last p).
  - rewrite (below_here (last + 1) _ _ _ E); [| |lia].
    2: { eapply Forall_impl; [exact H1|]. cbn. lia. }
    destruct l1; [done|]. cbn [length]. destruct (Z.ltb_spec 1 (Z.of_nat (S (length l1)) + 1)); [|lia].
    do 2 f_equal. lia.
  - assert (l = (l1 ++ [p]) ++ l2) as E' by (by rewrite <- app_assoc).
    replace (Z.of_nat (length l1) + 1 + 1) with (Z.of_nat (length (l1 ++ [p])) + 1) by (rewrite length_app; cbn; lia).
    apply IH; [|done| |by destruct l1].
    + apply Exists_cons in Hex as [?|?]; [lia|done].
    + apply Forall_app. split; [done|]. repeat constructor. lia.
Qed.

Lemma range_top : l <> [] -> exists p, port_get (d_dport d) (d_num d) = Ok p /\ Forall (fun q => q <= p) l /\ p ∈ l.
Proof.
  intros Hl. destruct (exists_last Hl) as (l1 & p & E). exists p. split; [|split].
  - rewrite Hnum, <- (range_port l1 p [] E). f_equal. rewrite E, length_app. cbn. lia.
  - rewrite E. apply Forall_app. split; [|repeat constructor; lia]. apply Forall_forall. intros q Hq.
    rewrite E in Hsort. enough (q < p) by lia. eapply (StronglySorted_app_1_elem_of _ l1 [p]); [done|done|by left].
  - rewrite E. apply elem_of_app. right. by left.
Qed.

Lemma range_loop_first l1 l2 :
  l = l1 ++ l2 -> Forall (fun q => q < first) l1 -> Exists (fun q => first <= q <= last) l2 ->
  range_loop (length l2) d first last (Z.of_nat (length l1) + 1) 0 (Z.of_nat (length l)) =
  Ok (Z.of_nat (below first l) + 1, Z.of_nat (below (last + 1) l)).
Proof.
  intros E H1 Hex. revert l1 E H1. induction l2 as [|p l2 IH]; intros l1 E H1; [by inversion Hex|].
  cbn [length range_loop]. rewrite (range_port _ _ _ E). cbn [res_bind Z.eqb andb].
  assert (l = (l1 ++ [p]) ++ l2) as E' by (by rewrite <- app_assoc).
  assert (Z.of_nat (length l1) + 1 + 1 = Z.of_nat (length (l1 ++ [p])) + 1) as En by (rewrite length_app; cbn; lia).
  pose proof (range_rest _ _ _ E) as Hrest. rewrite Forall_forall in Hrest.
  destruct (Z.leb_spec first p).
  - rewrite (below_here first _ _ _ E H1) by done.
    assert (p <= last) as Hpl.
    { apply Exists_cons in Hex as [?|Hex]; [lia|]. apply Exists_exists in Hex as (q & Hq & ?). specialize (Hrest q Hq). lia. }
    destruct range_top as (top & -> & Htop & Hin); [rewrite E; by destruct l1|]. cbn [res_bind].
    assert (Forall (fun q => q < p) l1) as H1p by (eapply Forall_impl; [exact H1|]; cbn; lia).
    destruct (Z.ltb_spec top last).
    { do 2 f_equal. unfold below. rewrite filter_all; [done|]. eapply Forall_impl; [exact Htop|]. cbn. lia. }
    destruct (Z.eqb_spec first last) as [Heq|Hneq].
    { assert (p = last) as <- by lia. rewrite (below_next _ _ _ E H1p). do 2 f_equal. lia. }
    destruct (Z.eqb_spec p last) as [<-|Hp]; [rewrite (below_next _ _ _ E H1p); do 2 f_equal; lia|].
    destruct (Z.ltb_spec last p); [lia|]. rewrite En. apply range_loop_last; [done| |by destruct l1| |lia].
    + apply Forall_app. split; [|repeat constructor; lia]. eapply Forall_impl; [exact H1|]. cbn. lia.
    + apply Exists_exists. exists top. split; [|done]. rewrite E in Hin.
      apply elem_of_app in Hin as [Hin|Hin]; [rewrite Forall_forall in H1; specialize (H1 _ Hin); lia|].
      apply elem_of_cons in Hin as [->|Hin]; [lia|done].
  - cbn [res_bind]. destruct (Z.eqb_spec p last); [lia|]. destruct (Z.ltb_spec last p); [lia|]. rewrite En.
    apply IH; [|done|].
    + apply Exists_cons in Hex as [?|?]; [lia|done].
    + apply Forall_app. split; [done|]. repeat constructor. lia.
Qed.
End Range.

Lemma seqZ_sorted n m : StronglySorted Z.lt (seqZ m (Z.of_nat n)).
Proof.
  revert m. induction n as [|n IH]; intros m; [constructor|]. rewrite seqZ_cons by lia.
  replace (Z.pred (Z.of_nat (S n))) with (Z.of_nat n) by lia. constructor; [apply IH|].
  apply Forall_forall. intros x Hx%elem_of_seqZ. lia.
Qed.

Lemma sorted_take n l : StronglySorted Z.lt l -> StronglySorted Z.lt (take n l).
Proof. rewrite <- (take_drop n l) at 1. apply StronglySorted_app_1_l. Qed.

(** ** The two operations together *)

Section Table.
Context {A : Type} `{Countable A}.
Variables (any : A) (fold : A -> Z).
Variable check : Z -> A -> A -> Z -> Z -> res bool.

(** The ports an entry counts: [num] is a number of 16 bits. *)
Definition usable (p : Z) (saddr daddr : A) (sport : Z) : list Z := take (Z.to_nat 65535) (own_ports check p saddr daddr sport).

Definition spec_ports (cfgs : list (rss_cfg A)) (saddr daddr : A) (sport : Z) : option (list Z) :=
  (fun p => usable p saddr daddr sport) <$> spec_lookup (foldl spec_add ∅ cfgs) saddr daddr sport.

(** What a lookup gives: the ports between the two indices of the place. *)
Definition answers (tbl : list (entry A)) (r : res (Z + (Z * Z * (Z * Z)))) (o : option (list Z)) : Prop :=
  match o with
  | None => r = Ok (inl (- ENOENT))
  | Some l => exists first_idx last_idx place d, r = Ok (inr (first_idx, last_idx, place)) /\
      dip_at tbl place = Some d /\ ports_between (d_dport d) first_idx last_idx = l
  end.

Lemma usable_sorted p saddr daddr sport : StronglySorted Z.lt (usable p saddr daddr sport).
Proof. apply sorted_take, StronglySorted_filter. rewrite <- (Z2Nat.id 65536) by lia. apply seqZ_sorted. Qed.

Lemma usable_length p saddr daddr sport :
  Z.of_nat (length (usable p saddr daddr sport)) = Z.min (Z.of_nat (length (own_ports check p saddr daddr sport))) 65535.
Proof. unfold usable. rewrite length_take. lia. Qed.

Lemma ports_are_take a l n : ports_are a l -> ports_are a (take n l).
Proof. intros Ha i x Hx. apply lookup_take_Some in Hx as [Hx _]. by apply Ha. Qed.

Lemma init_get cfgs :
  Forall (cfg_ok any check) cfgs ->
  exists tbl, tbl_init any fold check cfgs = Ok tbl /\ tbl_rel any fold (filled_prop check) tbl (foldl spec_add ∅ cfgs) /\
    forall saddr daddr sport,
      answers tbl (tbl_get_portrange any fold true tbl saddr daddr sport) (spec_ports cfgs saddr daddr sport).
Proof.
  intros Hc. destruct (tbl_init_refines any fold check cfgs Hc) as (tbl & Hi & Hr). exists tbl. split; [done|].
  split; [done|]. intros saddr daddr sport. unfold spec_ports.
  pose proof (get_refines any fold (filled_prop check) tbl _ saddr daddr sport Hr) as Hg.
  destruct (spec_lookup _ _ _ _) as [p|]; [|done]. destruct Hg as (place & d & Hg & Hp & [Ha Hf Hl Hn Hd]).
  exists (d_first_idx d), (d_last_idx d), place, d. split; [done|]. split; [done|]. cbn in Hl, Hd. rewrite Hf, Hl.
  rewrite <- usable_length, (ports_between_take _ (usable p saddr daddr sport)); [|by apply ports_are_take|done].
  by apply take_ge.
Qed.

(** An entry with its range. *)
Definition ranged_prop (first last : Z) : dip_prop (A := A) := fun p k a d =>
  let l := usable p k.1 a k.2 in
  d_first_idx d = Z.of_nat (below first l) + 1 /\ d_last_idx d = Z.of_nat (below (last + 1) l) /\
  ports_are (d_dport d) l.

Lemma set_range_spec first last p k a d :
  filled_prop check p k a d -> first <= last ->
  Exists (fun q => first <= q <= last) (usable p k.1 a k.2) ->
  exists d', set_range d first last = Ok (d', false) /\ d_daddr d' = d_daddr d /\ ranged_prop first last p k a d'.
Proof.
  intros [Ha Hf Hl Hn Hd] Hle Hex. rewrite <- usable_length in Hl, Hn. unfold set_range. rewrite Hn, Nat2Z.id.
  set (l := usable p k.1 a k.2) in *. pose proof (usable_sorted p k.1 a k.2) as Hs. fold l in Hs.
  pose proof (usable_length p k.1 a k.2) as Hlen. fold l in Hlen.
  pose proof (range_loop_first d l first last (ports_are_take _ _ _ Hd) Hn ltac:(lia) Hs Hle [] l eq_refl (Forall_nil_2 _) Hex) as Hloop.
  change (Z.of_nat (length []) + 1) with 1 in Hloop. rewrite Hl, Hloop.
  cbn [res_bind]. eexists. split; [do 2 f_equal|split; [done|]].
  - apply orb_false_iff. split; [apply Z.eqb_neq; lia|]. apply Z.ltb_ge.
    pose proof (below_range first last l Hs Hle) as Hb. apply (f_equal length) in Hb. rewrite length_drop, length_take in Hb.
    apply Exists_exists in Hex as (q & Hq & Hrange).
    assert (q ∈ filter (fun p => first <= p <= last) l) as Hin by (by apply list_elem_of_filter).
    destruct (filter (fun p => first <= p <= last) l); [by apply not_elem_of_nil in Hin|]. cbn in Hb. lia.
  - unfold ranged_prop. fold l. cbn. split; [done|]. split; [done|]. by apply ports_are_take.
Qed.

(** Every connection the table answers for has a port in the range. *)
Definition range_served (cfgs : list (rss_cfg A)) (first last : Z) : Prop :=
  forall saddr daddr sport l, spec_ports cfgs saddr daddr sport = Some l -> Exists (fun q => first <= q <= last) l.

Lemma init_set_get cfgs first last :
  Forall (cfg_ok any check) cfgs -> first <= last -> range_served cfgs first last ->
  exists tbl tbl', tbl_init any fold check cfgs = Ok tbl /\ tbl_set_portrange any true tbl first last = Ok (tbl', 0) /\
    forall saddr daddr sport,
      answers tbl' (tbl_get_portrange any fold true tbl' saddr daddr sport)
        (filter (fun p => first <= p <= last) <$> spec_ports cfgs saddr daddr sport).
Proof.
  intros Hc Hle Hser. destruct (tbl_init_refines any fold check cfgs Hc) as (tbl & Hi & Hr). exists tbl.
  destruct (set_range_refines any fold (filled_prop check) (ranged_prop first last) (foldl spec_add ∅ cfgs) first last)
    with (tbl := tbl) as (tbl' & Hset & Hr'); [|done|].
  { intros [saddr sport] ds a p d Hk Ha HF. apply set_range_spec; [done|done|]. apply (Hser saddr a sport).
    unfold spec_ports, spec_lookup. rewrite Hk. cbn [mbind option_bind]. by rewrite Ha. }
  exists tbl'. split; [done|]. split.
  { unfold tbl_set_portrange. destruct (Z.ltb_spec last first); [lia|]. cbn [orb negb]. by rewrite Hset. }
  intros saddr daddr sport. unfold spec_ports.
  pose proof (get_refines any fold (ranged_prop first last) tbl' _ saddr daddr sport Hr') as Hg.
  destruct (spec_lookup _ _ _ _) as [p|]; [|done]. destruct Hg as (place & d & Hg & Hp & Hf & Hl & Hd).
  exists (d_first_idx d), (d_last_idx d), place, d. split; [done|]. split; [done|]. cbn in Hf, Hl, Hd. rewrite Hf, Hl.
  rewrite (ports_between_slice _ _ _ _ Hd).
  - rewrite below_range; [done|apply usable_sorted|done].
  - unfold below. apply length_filter.
Qed.
End Table.

(** ** The ports in terms of the NIC *)

(** The local ports whose packets the NIC puts on the thread's queue. *)
Definition nic_ports (env : rss_env) (port : Z) (tuple : Z -> list Z) : list Z :=
  take (Z.to_nat 65535) (filter (fun j => nic_owns env port (tuple (htons j)) = true) (seqZ 0 65536)).

Section Nic.
Context {A : Type} `{Countable A}.
Variables (any : A) (check : Z -> A -> A -> Z -> Z -> res bool).
Variables (env : rss_env) (tuple : A -> A -> Z -> Z -> list Z).

(** The table answers for configurations only. *)
Lemma spec_lookup_cfg (cfgs : list (rss_cfg A)) (s : gmap (A * Z) (gmap A Z)) saddr daddr sport p :
  spec_lookup (foldl spec_add s cfgs) saddr daddr sport = Some p ->
  spec_lookup s saddr daddr sport = Some p \/ mk_rss_cfg p daddr saddr sport ∈ cfgs.
Proof.
  revert s. induction cfgs as [|c cfgs IH]; intros s Hl; [by left|].
  destruct (IH _ Hl) as [Hl'|]; [|right; by right]. destruct c as [cp cd cs csp]. unfold spec_add, spec_lookup in Hl'.
  cbn in Hl'. destruct (decide ((cs, csp) = (saddr, sport))) as [[= -> ->]|Hne].
  - destruct (s !! (saddr, sport)) as [ds|] eqn:Hs.
    + unfold spec_lookup. rewrite Hs. cbn. destruct (ds !! cd) eqn:Hd; [left; by rewrite Hs in Hl'|].
      case_decide; [|left; by rewrite Hs in Hl']. rewrite lookup_insert_eq in Hl'. cbn in Hl'.
      apply lookup_insert_Some in Hl' as [[-> ->]|[_ Hl']]; [right; by left|by left].
    + case_decide; [|by rewrite Hs in Hl']. rewrite lookup_insert_eq in Hl'. cbn in Hl'.
      apply lookup_singleton_Some in Hl' as [-> ->]. right. by left.
  - left. unfold spec_lookup. repeat case_match; try done; by rewrite lookup_insert_ne in Hl'.
Qed.

Definition nic_spec (cfgs : list (rss_cfg A)) (saddr daddr : A) (sport : Z) : option (list Z) :=
  (fun p => nic_ports env p (tuple saddr daddr sport)) <$> spec_lookup (foldl spec_add ∅ cfgs) saddr daddr sport.

(** A configuration of a NIC that is set up. *)
Definition nic_cfg (c : rss_cfg A) : Prop :=
  c_saddr c <> any /\ c_daddr c <> any /\
  forall dp, check (c_port_id c) (c_saddr c) (c_daddr c) (c_sport c) dp =
    Ok (nic_owns env (c_port_id c) (tuple (c_saddr c) (c_daddr c) (c_sport c) dp)).

Lemma nic_cfg_ok cfgs : Forall nic_cfg cfgs -> Forall (cfg_ok any check) cfgs.
Proof. intros Hc. eapply Forall_impl; [exact Hc|]. intros c (H1 & H2 & H3). split; [done|done|]. intros dp. eauto. Qed.

Lemma nic_spec_ports cfgs saddr daddr sport :
  Forall nic_cfg cfgs -> spec_ports check cfgs saddr daddr sport = nic_spec cfgs saddr daddr sport.
Proof.
  intros Hc. unfold spec_ports, nic_spec. destruct (spec_lookup _ _ _ _) as [p|] eqn:E; [|done]. cbn. f_equal.
  unfold usable, own_ports, nic_ports. f_equal. apply list_filter_iff. intros j.
  apply spec_lookup_cfg in E as [E|E]; [done|]. rewrite Forall_forall in Hc. destruct (Hc _ E) as (_ & _ & Hn).
  cbn in Hn. unfold owns. by rewrite Hn.
Qed.
End Nic.

(** Ports below the last one are never cut off. *)
Lemma nic_ports_elem env port tuple j :
  0 <= j < 65535 -> nic_owns env port (tuple (htons j)) = true -> j ∈ nic_ports env port tuple.
Proof.
  intros Hj Hn. unfold nic_ports. set (P j := nic_owns env port (tuple (htons j))) in *.
  change 65536 with (Z.of_nat (S (Z.to_nat 65535))). rewrite seqZ_S, filter_app, Z2Nat.id by lia.
  pose proof (length_filter (fun j => P j = true) (seqZ 0 65535)) as Hl. rewrite length_seqZ in Hl.
  rewrite take_app_ge by exact Hl. apply elem_of_app. left. apply list_elem_of_filter. split; [done|]. apply elem_of_seqZ. lia.
Qed.

Definition cfg4 (env : rss_env) (c : rss_cfg Z) : Prop :=
  rss_ok env (c_port_id c) /\ c_saddr c <> 0 /\ c_daddr c <> 0.
Definition cfg6 (env : rss_env) (c : rss_cfg (list Z)) : Prop :=
  rss_ok env (c_port_id c) /\ c_saddr c <> in6_any /\ c_daddr c <> in6_any /\
  length (c_saddr c) = 16%nat /\ length (c_daddr c) = 16%nat.

Lemma cfg4_nic env cfgs : Forall (cfg4 env) cfgs -> Forall (nic_cfg 0 (ff_rss_check env) env tuple4) cfgs.
Proof.
  intros Hc. eapply Forall_impl; [exact Hc|]. intros c (Hok & H1 & H2). split; [done|]. split; [done|].
  intros dp. by apply rss_check_nic.
Qed.

Lemma cfg6_nic env cfgs : Forall (cfg6 env) cfgs -> Forall (nic_cfg in6_any (ff_rss_check6 env) env tuple6) cfgs.
Proof.
  intros Hc. eapply Forall_impl; [exact Hc|]. intros c (Hok & H1 & H2 & H3 & H4). split; [done|]. split; [done|].
  intros dp. by apply rss_check6_nic.
Qed.

(** ** Properties *)

(** C6: the table of local ports, for IPv4 and for IPv6: after
    [ff_rss_tbl_init] a lookup finds exactly the addresses the table had room
    for (16 remote addresses and ports, 4 local addresses each, the first
    interface configured for them), and gives for them the ports whose
    packets the NIC puts on the thread's own queue, in order; all other
    lookups are [-ENOENT]. *)
Theorem rss_tbl_refines env cfgs cfgs6 :
  Forall (cfg4 env) cfgs -> Forall (cfg6 env) cfgs6 ->
  (exists tbl, ff_rss_tbl_init env cfgs = Ok tbl /\ forall saddr daddr sport,
    answers tbl (ff_rss_tbl_get_portrange true tbl saddr daddr sport) (nic_spec env tuple4 cfgs saddr daddr sport)) /\
  (exists tbl, ff_rss_tbl6_init env cfgs6 = Ok tbl /\ forall saddr6 daddr6 sport,
    answers tbl (ff_rss_tbl6_get_portrange true tbl saddr6 daddr6 sport) (nic_spec env tuple6 cfgs6 saddr6 daddr6 sport)).
Proof.
  intros H4%cfg4_nic H6%cfg6_nic. split.
  - destruct (init_get 0 fold4 _ cfgs (nic_cfg_ok _ _ _ _ _ H4)) as (tbl & Hi & _ & Hg). exists tbl. split; [done|].
    intros saddr daddr sport. by rewrite <- (nic_spec_ports _ _ _ _ _ _ _ _ H4).
  - destruct (init_get in6_any ff_in6_fold _ cfgs6 (nic_cfg_ok _ _ _ _ _ H6)) as (tbl & Hi & _ & Hg). exists tbl.
    split; [done|]. intros saddr daddr sport. by rewrite <- (nic_spec_ports _ _ _ _ _ _ _ _ H6).
Qed.

(** The range of ports: if every configuration in the table has a port
    of its own between [first] and [last], then [ff_rss_tbl_set_portrange]
    succeeds, and lookups give exactly the own ports in the range, for IPv4
    and for IPv6. *)
Theorem rss_portrange_correct env cfgs cfgs6 first last :
  Forall (cfg4 env) cfgs -> Forall (cfg6 env) cfgs6 -> first <= last ->
  (forall saddr daddr sport l, nic_spec env tuple4 cfgs saddr daddr sport = Some l -> Exists (fun q => first <= q <= last) l) ->
  (forall saddr daddr sport l, nic_spec env tuple6 cfgs6 saddr daddr sport = Some l -> Exists (fun q => first <= q <= last) l) ->
  (exists tbl tbl', ff_rss_tbl_init env cfgs = Ok tbl /\ ff_rss_tbl_set_portrange true tbl first last = Ok (tbl', 0) /\
    forall saddr daddr sport, answers tbl' (ff_rss_tbl_get_portrange true tbl' saddr daddr sport)
      (filter (fun p => first <= p <= last) <$> nic_spec env tuple4 cfgs saddr daddr sport)) /\
  (exists tbl tbl', ff_rss_tbl6_init env cfgs6 = Ok tbl /\ ff_rss_tbl6_set_portrange true tbl first last = Ok (tbl', 0) /\
    forall saddr6 daddr6 sport, answers tbl' (ff_rss_tbl6_get_portrange true tbl' saddr6 daddr6 sport)
      (filter (fun p => first <= p <= last) <$> nic_spec env tuple6 cfgs6 saddr6 daddr6 sport)).
Proof.
  intros H4%cfg4_nic H6%cfg6_nic Hle Hs4 Hs6. split.
  - destruct (init_set_get 0 fold4 _ cfgs first last (nic_cfg_ok _ _ _ _ _ H4) Hle) as (tbl & tbl' & Hi & Hset & Hg).
    + intros saddr daddr sport l. rewrite (nic_spec_ports _ _ _ _ _ _ _ _ H4). apply Hs4.
    + exists tbl, tbl'. split; [done|]. split; [done|]. intros saddr daddr sport.
      by rewrite <- (nic_spec_ports _ _ _ _ _ _ _ _ H4).
  - destruct (init_set_get in6_any ff_in6_fold _ cfgs6 first last (nic_cfg_ok _ _ _ _ _ H6) Hle)
      as (tbl & tbl' & Hi & Hset & Hg).
    + intros saddr daddr sport l. rewrite (nic_spec_ports _ _ _ _ _ _ _ _ H6). apply Hs6.
    + exists tbl, tbl'. split; [done|]. split; [done|]. intros saddr daddr sport.
      by rewrite <- (nic_spec_ports _ _ _ _ _ _ _ _ H6).
Qed.

(** ** Witnesses *)

Definition demo_cfg : rss_cfg Z := mk_rss_cfg 0 0x0200007f 0x0100007f 0x5000.
Definition demo_cfg6 : rss_cfg (list Z) := mk_rss_cfg 0 (replicate 16 2) (replicate 16 1) 0x5000.

Lemma demo_cfgs_ok : Forall (cfg4 demo_env) [demo_cfg] /\ Forall (cfg6 demo_env) [demo_cfg6].
Proof.
  split; apply Forall_singleton; (split; [exact demo_env_ok|]); [by split|]. by repeat (split; [done|]).
Qed.

Lemma demo_served saddr daddr sport l :
  nic_spec demo_env tuple4 [demo_cfg] saddr daddr sport = Some l -> Exists (fun q => 1000 <= q <= 1010) l.
Proof.
  unfold nic_spec. intros (p & Hp & ->)%fmap_Some. apply spec_lookup_cfg in Hp as [Hp|Hp]; [done|].
  apply list_elem_of_singleton in Hp. injection Hp as -> -> -> ->. apply Exists_exists. exists 1001.
  split; [|lia]. apply nic_ports_elem; [lia|]. vm_compute. reflexivity.
Qed.

Lemma demo_served6 saddr daddr sport l :
  nic_spec demo_env tuple6 [demo_cfg6] saddr daddr sport = Some l -> Exists (fun q => 1000 <= q <= 1010) l.
Proof.
  unfold nic_spec. intros (p & Hp & ->)%fmap_Some. apply spec_lookup_cfg in Hp as [Hp|Hp]; [done|].
  apply list_elem_of_singleton in Hp. injection Hp as -> -> -> ->. apply Exists_exists. exists 1001.
  split; [|lia]. apply nic_ports_elem; [lia|]. vm_compute. reflexivity.
Qed.

Lemma rss_tbl_refines_witness :
  exists tbl, ff_rss_tbl_init demo_env [demo_cfg] = Ok tbl /\
    answers tbl (ff_rss_tbl_get_portrange true tbl 0x0100007f 0x0200007f 0x5000)
      (Some (nic_ports demo_env 0 (tuple4 0x0100007f 0x0200007f 0x5000))) /\
    ff_rss_tbl_get_portrange true tbl 0x0100007f 0x0300007f 0x5000 = Ok (inl (- ENOENT)).
Proof.
  destruct (proj1 (rss_tbl_refines demo_env [demo_cfg] [demo_cfg6] (proj1 demo_cfgs_ok) (proj2 demo_cfgs_ok)))
    as (tbl & Hi & Hg).
  exists tbl. split; [exact Hi|]. split; [exact (Hg 0x0100007f 0x0200007f 0x5000)|exact (Hg 0x0100007f 0x0300007f 0x5000)].
Defined.

Lemma rss_portrange_correct_witness :
  exists tbl tbl', ff_rss_tbl_init demo_env [demo_cfg] = Ok tbl /\
    ff_rss_tbl_set_portrange true tbl 1000 1010 = Ok (tbl', 0) /\
    answers tbl' (ff_rss_tbl_get_portrange true tbl' 0x0100007f 0x0200007f 0x5000)
      (Some (filter (fun p => 1000 <= p <= 1010) (nic_ports demo_env 0 (tuple4 0x0100007f 0x0200007f 0x5000)))).
Proof.
  destruct (proj1 (rss_portrange_correct demo_env [demo_cfg] [demo_cfg6] 1000 1010 (proj1 demo_cfgs_ok)
    (proj2 demo_cfgs_ok) ltac:(lia) demo_served demo_served6)) as (tbl & tbl' & Hi & Hs & Hg).
  exists tbl, tbl'. split; [exact Hi|]. split; [exact Hs|]. exact (Hg 0x0100007f 0x0200007f 0x5000).
Defined.

(** Without a port of its own in the range an entry can end up with a port
    outside of it: the only port here is 100, the range is 10 to 20. *)
Example range_without_ports :
  exists d, set_range (mk_dip 1 100 100 1 1 1 {[1 := 100]}) 10 20 = Ok (d, false) /\
    ports_between (d_dport d) (d_first_idx d) (d_last_idx d) = [100].
Proof. eexists. split; [vm_compute; reflexivity|]. vm_compute. reflexivity. Qed.
