(* ===== verification/Ini.v ===== *)
(** * The configuration file parser ([ff_ini_parser.c])

    The parser reads a stream line by line with [fgets], and calls a handler
    for every [name = value] pair, with the section it is in.  A C string is
    the list of its characters up to the [NUL]; the stream is the list of its
    bytes.  Cutting a string in place is taking a prefix of it. *)

From S2P Require Import Prelude CString.

Module Ini.

Definition INI_MAX_LINE : Z := 2048.
Definition MAX_SECTION : Z := 50.
Definition MAX_NAME : Z := 50.

(** Characters. *)
Definition ch_newline : Z := 10.
Definition ch_hash : Z := 35.
Definition ch_colon : Z := 58.
Definition ch_semicolon : Z := 59.
Definition ch_equals : Z := 61.
Definition ch_open : Z := 91.
Definition ch_close : Z := 93.

Definition INI_INLINE_COMMENT_PREFIXES : cstr := [ch_semicolon].

(** ** The stream *)

(** The characters up to the first [NUL]. *)
Fixpoint until_nul (s : list Z) : cstr :=
  match s with
  | [] => []
  | c :: s => if c =? 0 then [] else c :: until_nul s
  end.

(** At most [n] characters, up to the end of the line: those, and the rest. *)
Fixpoint take_line (n : nat) (s : list Z) : list Z * list Z :=
  match n, s with
  | O, _ | _, [] => ([], s)
  | S n, c :: s =>
      if c =? ch_newline then ([c], s)
      else let '(l, r) := take_line n s in (c :: l, r)
  end.

(** [fgets(line, num, stream)]. *)
Definition fgets (num : Z) (s : list Z) : option (cstr * list Z) :=
  match s with
  | [] => None
  | _ => let '(l, r) := take_line (Z.to_nat (num - 1)) s in Some (until_nul l, r)
  end.

(** ** Strings *)

(** The loop from the end of the string on. *)
Definition rstrip (s : cstr) : cstr := reverse (skip_space (reverse s)).

Definition lskip (s : cstr) : cstr := skip_space s.

Definition in_chars (chars : option cstr) (c : Z) : bool :=
  match chars with
  | None => false
  | Some l => match strchr l c with Some _ => true | None => false end
  end.

(** What is before the place found, and the string from there on. *)
Fixpoint find_from (was_space : bool) (chars : option cstr) (s : cstr) : cstr * cstr :=
  match s with
  | [] => ([], [])
  | c :: s' =>
      if in_chars chars c || (was_space && in_chars (Some INI_INLINE_COMMENT_PREFIXES) c) then ([], s)
      else let '(a, b) := find_from (isspace c) chars s' in (c :: a, b)
  end.

Definition find_chars_or_comment (s : cstr) (chars : option cstr) : cstr * cstr := find_from false chars s.

(** [strncpy0(dest, src, size)]: the string in [dest]. *)
Definition strncpy0 (src : cstr) (size : Z) : cstr := take (Z.to_nat (size - 1)) src.

(** ** Parsing *)

Section Parse.
Context {U : Type}.

(** The handler: the new user data, and whether it is fine. *)
Variable handler : U -> cstr -> cstr -> cstr -> U * bool.

Record pstate := mk_pstate {
  p_user : U;
  p_section : cstr;
  p_prev_name : cstr;
  p_lineno : Z;
  p_error : Z
}.

Definition set_error (s : pstate) (u : U) (ok : bool) : pstate :=
  mk_pstate u (p_section s) (p_prev_name s) (p_lineno s)
    (if negb ok && (p_error s =? 0) then p_lineno s else p_error s).

(** The byte order mark. *)
Definition skip_bom (lineno : Z) (line : cstr) : cstr :=
  match line with
  | a :: b :: c :: rest =>
      if (lineno =? 1) && (a =? 0xEF) && (b =? 0xBB) && (c =? 0xBF) then rest else line
  | _ => line
  end.

(** A [name[=:]value] line. *)
Definition parse_pair (s : pstate) (start : cstr) : pstate :=
  let '(before, from) := find_chars_or_comment start (Some [ch_equals; ch_colon]) in
  match from with
  | c :: value =>
      if (c =? ch_equals) || (c =? ch_colon) then
        let name := rstrip before in
        let '(value, _) := find_chars_or_comment value None in
        let value := rstrip (lskip value) in
        let s := mk_pstate (p_user s) (p_section s) (strncpy0 name MAX_NAME) (p_lineno s) (p_error s) in
        let '(u, ok) := handler (p_user s) (p_section s) name value in
        set_error s u ok
      else set_error s (p_user s) false
  | [] => set_error s (p_user s) false
  end.

(** A [[section]] line, from behind the bracket on. *)
Definition parse_section (s : pstate) (rest : cstr) : pstate :=
  let '(before, from) := find_chars_or_comment rest (Some [ch_close]) in
  match from with
  | c :: _ =>
      if c =? ch_close then
        mk_pstate (p_user s) (strncpy0 before MAX_SECTION) [] (p_lineno s) (p_error s)
      else set_error s (p_user s) false
  | [] => set_error s (p_user s) false
  end.

(** The line from its first character on; [moved] is [start > line]. *)
Definition parse_start (s : pstate) (moved : bool) (start : cstr) : pstate :=
  match start with
  | [] => s
  | c :: rest =>
      if (c =? ch_semicolon) || (c =? ch_hash) then s
      else if negb (bool_decide (p_prev_name s = [])) && moved then
        let '(u, ok) := handler (p_user s) (p_section s) (p_prev_name s) start in
        set_error s u ok
      else if c =? ch_open then parse_section s rest
      else parse_pair s start
  end.

(** The body of the loop. *)
Definition parse_line (s : pstate) (line : cstr) : pstate :=
  let lineno := s32 (p_lineno s + 1) in
  let s := mk_pstate (p_user s) (p_section s) (p_prev_name s) lineno (p_error s) in
  let start := lskip (rstrip (skip_bom lineno line)) in
  parse_start s (negb (Nat.eqb (length start) (length (rstrip line)))) start.

(** [while (reader(line, INI_MAX_LINE, stream) != NULL)], which stops at the
    first error. *)
Fixpoint parse_lines (fuel : nat) (stream : list Z) (s : pstate) : res pstate :=
  match fuel with
  | O => NoFuel
  | S fuel =>
      match fgets INI_MAX_LINE stream with
      | None => Ok s
      | Some (line, stream) =>
          let s := parse_line s line in
          if negb (p_error s =? 0) then Ok s else parse_lines fuel stream s
      end
  end.

(** The user data and the result. *)
Definition ini_parse_stream (stream : list Z) (u : U) : res (U * Z) :=
  let* s := parse_lines (S (length stream)) stream (mk_pstate u [] [] 0 0) in
  Ok (p_user s, p_error s).

Definition ini_parse_file (file : option (list Z)) (u : U) : res (U * Z) :=
  match file with
  | None => Ok (u, -1)
  | Some stream => ini_parse_stream stream u
  end.

(** [file] is what [fopen] gives. *)
Definition ini_parse (file : option (list Z)) (u : U) : res (U * Z) :=
  match file with
  | None => Ok (u, -1)
  | Some _ => ini_parse_file file u
  end.
End Parse.
End Ini.
