(* ===== verification/IniProofs.v ===== *)
(** * Proofs about the configuration file parser

    A document is a list of lines, each with its layout; printing it and
    parsing the result calls the handler on exactly its entries. *)

From stdpp Require Import strings.
From S2P Require Import Prelude CString Ini.

Import Ini.

(** ** Strings *)

Definition spaces (s : cstr) : Prop := Forall (fun c => isspace c = true) s.

(** The string does not begin, or does not end, with white space. *)
Definition solid_head (s : cstr) : Prop := match head s with Some c => isspace c = false | None => True end.
Definition solid_last (s : cstr) : Prop := match last s with Some c => isspace c = false | None => True end.

Lemma skip_spaces ws s : spaces ws -> skip_space (ws ++ s) = skip_space s.
Proof. induction 1 as [|c ws Hc _ IH]; [done|]. cbn. by rewrite Hc. Qed.

Lemma skip_solid s : solid_head s -> skip_space s = s.
Proof. destruct s as [|c s]; [done|]. unfold solid_head. cbn. by intros ->. Qed.

Lemma rstrip_app a b : solid_last a -> rstrip (a ++ b) = a ++ rstrip b.
Proof.
  intros Ha. unfold rstrip. induction b as [|c b IH] using rev_ind.
  - rewrite app_nil_r. cbn [reverse rev_append]. rewrite app_nil_r, skip_solid, reverse_involutive; [done|].
    unfold solid_head, solid_last in *. by rewrite head_reverse.
  - rewrite app_assoc, !reverse_snoc. cbn [skip_space]. destruct (isspace c); [exact IH|].
    by rewrite !reverse_cons, !reverse_involutive, app_assoc.
Qed.

Lemma rstrip_spaces ws : spaces ws -> rstrip ws = [].
Proof.
  intros Hw. unfold rstrip. rewrite <- (app_nil_r (reverse ws)), skip_spaces; [done|].
  unfold spaces. by rewrite Forall_reverse.
Qed.

Lemma rstrip_solid a ws : solid_last a -> spaces ws -> rstrip (a ++ ws) = a.
Proof. intros Ha Hw. by rewrite rstrip_app, rstrip_spaces, app_nil_r. Qed.

Lemma rstrip_id a : solid_last a -> rstrip a = a.
Proof. intros Ha. rewrite <- (app_nil_r a) at 1. apply rstrip_solid; [done|constructor]. Qed.

Lemma solid_last_app a b : b <> [] -> solid_last b -> solid_last (a ++ b).
Proof. unfold solid_last. intros Hb. rewrite last_app. by destruct (last b) eqn:E; [|apply last_None in E]. Qed.

Lemma solid_last_snoc a c : isspace c = false -> solid_last (a ++ [c]).
Proof. intros Hc. by apply solid_last_app. Qed.

Lemma solid_head_app a b : a <> [] -> solid_head a -> solid_head (a ++ b).
Proof. by destruct a. Qed.

(** ** The search *)

(** Whether the character before position [i] is white space. *)
Definition after_space (w : bool) (s : cstr) (i : nat) : bool :=
  match i with
  | O => w
  | S j => match s !! j with Some c => isspace c | None => false end
  end.

(** No semicolon follows white space, so there is no comment. *)
Definition quiet (w : bool) (s : cstr) : Prop :=
  forall i, s !! i = Some ch_semicolon -> after_space w s i = false.

Definition ends_space (w : bool) (s : cstr) : bool :=
  match last s with Some c => isspace c | None => w end.

Lemma quiet_cons w c s : quiet w (c :: s) <-> (c = ch_semicolon -> w = false) /\ quiet (isspace c) s.
Proof.
  split.
  - intros Hq. split; [intros ->; exact (Hq 0%nat eq_refl)|]. intros [|i] Hi; exact (Hq (S _) Hi).
  - intros [Hc Hq] [|i] Hi; [injection Hi as ->; by apply Hc|]. specialize (Hq i Hi). by destruct i.
Qed.

Lemma ends_space_cons w c s : ends_space w (c :: s) = ends_space (isspace c) s.
Proof. unfold ends_space. rewrite last_cons. by destruct (last s). Qed.

Lemma quiet_app w a b : quiet w (a ++ b) <-> quiet w a /\ quiet (ends_space w a) b.
Proof.
  revert w. induction a as [|c a IH]; intros w; [split; [intros; split; [by intros ?|done]|by intros [_ ?]]|].
  cbn [app]. rewrite !quiet_cons, IH, ends_space_cons. tauto.
Qed.

Lemma quiet_spaces w s : spaces s -> quiet w s.
Proof.
  intros Hs i Hi. eapply Forall_lookup_1 in Hs; [|exact Hi]. done.
Qed.

(** Where the search stops. *)
Definition stops_at (chars : option cstr) (w : bool) (s : cstr) : Prop :=
  match s with
  | [] => True
  | c :: _ => in_chars chars c = true \/ (w = true /\ c = ch_semicolon)
  end.

Lemma find_split chars w a b :
  Forall (fun c => in_chars chars c = false) a -> quiet w a -> stops_at chars (ends_space w a) b ->
  find_from w chars (a ++ b) = (a, b).
Proof.
  revert w. induction a as [|c a IH]; intros w Ha Hq Hb.
  - destruct b as [|c b]; [done|]. cbn. cbn in Hb. destruct Hb as [->|[-> ->]]; [done|]. by rewrite orb_true_r.
  - apply Forall_cons in Ha as [Hc Ha]. apply quiet_cons in Hq as [Hw Hq]. rewrite ends_space_cons in Hb.
    cbn [app find_from]. rewrite Hc. cbn [orb].
    assert (w && in_chars (Some INI_INLINE_COMMENT_PREFIXES) c = false) as ->.
    { unfold in_chars, INI_INLINE_COMMENT_PREFIXES, strchr. destruct (Z.eqb_spec ch_semicolon c) as [<-|]; cbn; [|by rewrite andb_false_r].
      by rewrite Hw. }
    by rewrite IH.
Qed.

(** ** The stream *)

Definition plain (s : cstr) : Prop := Forall (fun c => c <> 0 /\ c <> ch_newline) s.

Lemma until_nul_id s : Forall (fun c => c <> 0) s -> until_nul s = s.
Proof. induction 1 as [|c s Hc _ IH]; [done|]. cbn. destruct (Z.eqb_spec c 0); [done|]. by rewrite IH. Qed.

Lemma take_line_line n l rest :
  (length l < n)%nat -> plain l -> take_line n (l ++ ch_newline :: rest) = (l ++ [ch_newline], rest).
Proof.
  revert n. induction l as [|c l IH]; intros [|n] Hn Hl; cbn in Hn; try lia; [done|].
  apply Forall_cons in Hl as [[H0 H1] Hl]. cbn [app take_line]. destruct (Z.eqb_spec c ch_newline); [done|].
  rewrite IH by (done || lia). done.
Qed.

Lemma fgets_line l rest :
  (length l <= 2046)%nat -> plain l -> fgets INI_MAX_LINE (l ++ ch_newline :: rest) = Some (l ++ [ch_newline], rest).
Proof.
  intros Hn Hl. unfold fgets. rewrite take_line_line; [|unfold INI_MAX_LINE; lia|done].
  rewrite until_nul_id; [by destruct l|]. apply Forall_app. split; [|by repeat constructor].
  eapply Forall_impl; [exact Hl|]. by intros c [? _].
Qed.

(** ** Documents *)

(** A line with its layout: white space, a comment, a section with anything
    behind it, an entry with the space around its separator and its value and
    a comment, or the continuation of the last entry. *)
Inductive item :=
| Blank (ws : cstr)
| Comment (ws : cstr) (mark : Z) (text : cstr)
| Section (name tail : cstr)
| Entry (name sp1 : cstr) (sep : Z) (sp2 value sp3 : cstr) (comment : option cstr)
| Continue (ws text : cstr).

Definition print_comment (o : option cstr) : cstr :=
  match o with None => [] | Some t => ch_semicolon :: t end.

Definition print_item (it : item) : cstr :=
  match it with
  | Blank ws => ws
  | Comment ws mark text => ws ++ mark :: text
  | Section name tail => ch_open :: name ++ ch_close :: tail
  | Entry name sp1 sep sp2 value sp3 comment =>
      name ++ sp1 ++ sep :: sp2 ++ value ++ sp3 ++ print_comment comment
  | Continue ws text => ws ++ text
  end.

Definition BOM : cstr := [0xEF; 0xBB; 0xBF].

Definition print_lines (doc : list item) : list Z := concat ((fun it => print_item it ++ [ch_newline]) <$> doc).
Definition print_doc (bom : bool) (doc : list item) : list Z := (if bom then BOM else []) ++ print_lines doc.

(** A string without its separators, comments and outer white space. *)
Definition word (chars : option cstr) (s : cstr) : Prop :=
  Forall (fun c => in_chars chars c = false) s /\ quiet true s /\ solid_head s /\ solid_last s.

Definition starts_line (s : cstr) : Prop :=
  match head s with Some c => c <> ch_semicolon /\ c <> ch_hash | None => False end.

(** [prev] says whether there is an entry to continue. *)
Definition item_ok (prev : bool) (it : item) : Prop :=
  plain (print_item it) /\ (length (print_item it) <= 2046)%nat /\
  match it with
  | Blank ws => spaces ws
  | Comment ws mark text => spaces ws /\ (mark = ch_semicolon \/ mark = ch_hash)
  | Section name tail =>
      Forall (fun c => c <> ch_close) name /\ quiet false name /\ (length name <= 49)%nat
  | Entry name sp1 sep sp2 value sp3 comment =>
      word (Some [ch_equals; ch_colon]) name /\ starts_line name /\ head name <> Some ch_open /\ spaces sp1 /\
      (sep = ch_equals \/ sep = ch_colon) /\ spaces sp2 /\ word None value /\ spaces sp3 /\
      (is_Some comment -> sp3 <> [])
  | Continue ws text =>
      prev = true /\ spaces ws /\ ws <> [] /\ solid_head text /\ solid_last text /\ starts_line text
  end.

Definition next_prev (prev : bool) (it : item) : bool :=
  match it with Entry _ _ _ _ _ _ _ => true | Section _ _ => false | _ => prev end.

Fixpoint doc_ok (prev : bool) (doc : list item) : Prop :=
  match doc with
  | [] => True
  | it :: doc => item_ok prev it /\ doc_ok (next_prev prev it) doc
  end.

(** The calls of the handler: the line, the section, the name and the
    value. *)
Fixpoint events (line : Z) (section prev : cstr) (doc : list item) : list (Z * cstr * cstr * cstr) :=
  match doc with
  | [] => []
  | Blank _ :: doc | Comment _ _ _ :: doc => events (line + 1) section prev doc
  | Section name _ :: doc => events (line + 1) name [] doc
  | Entry name _ _ _ value _ _ :: doc =>
      (line, section, name, value) :: events (line + 1) section (take 49 name) doc
  | Continue _ text :: doc => (line, section, prev, text) :: events (line + 1) section prev doc
  end.

(** Calling the handler up to its first refusal. *)
Fixpoint feed {U} (handler : U -> cstr -> cstr -> cstr -> U * bool) (u : U)
    (l : list (Z * cstr * cstr * cstr)) : U * Z :=
  match l with
  | [] => (u, 0)
  | (line, section, name, value) :: l =>
      let '(u, ok) := handler u section name value in
      if ok then feed handler u l else (u, line)
  end.

Section Lines.
Context {U : Type}.
Variable handler : U -> cstr -> cstr -> cstr -> U * bool.
Implicit Types (s : pstate (U := U)).

(** What a line does. *)
Definition item_effect s (it : item) : pstate :=
  match it with
  | Blank _ | Comment _ _ _ => s
  | Section name _ => mk_pstate (p_user s) name [] (p_lineno s) (p_error s)
  | Entry name _ _ _ value _ _ =>
      let s := mk_pstate (p_user s) (p_section s) (take 49 name) (p_lineno s) (p_error s) in
      let '(u, ok) := handler (p_user s) (p_section s) name value in
      set_error s u ok
  | Continue _ text =>
      let '(u, ok) := handler (p_user s) (p_section s) (p_prev_name s) text in
      set_error s u ok
  end.

Lemma space_newline : isspace ch_newline = true.
Proof. done. Qed.

Lemma spaces_newline ws : spaces ws -> spaces (ws ++ [ch_newline]).
Proof. intros Hw. apply Forall_app. split; [done|]. by repeat constructor. Qed.

Lemma in_chars_cons c d l : in_chars (Some (c :: l)) d = (c =? d) || in_chars (Some l) d.
Proof. unfold in_chars. cbn [strchr]. destruct (c =? d); [done|]. by destruct (strchr l d). Qed.

(** The value with what is around it. *)
Lemma value_part sp2 value sp3 comment :
  spaces sp2 -> word None value -> spaces sp3 -> (is_Some comment -> sp3 <> []) ->
  rstrip (lskip (find_chars_or_comment
    (rstrip (sp2 ++ value ++ sp3 ++ print_comment comment ++ [ch_newline])) None).1) = value.
Proof.
  intros H2 (_ & Hq & Hh & Hl) H3 Hc. unfold find_chars_or_comment, lskip.
  assert (Forall (fun c => in_chars None c = false) (sp2 ++ value ++ sp3)) as Hn by (by apply Forall_true).
  assert (forall w, quiet w value) as Hqw.
  { intros w [|i] Hi; [|exact (Hq (S i) Hi)]. by specialize (Hq 0%nat Hi). }
  assert (rstrip (skip_space (sp2 ++ value ++ sp3)) = value) as Hv.
  { rewrite skip_spaces by done. destruct value as [|v value].
    - cbn [app]. rewrite <- (app_nil_r sp3), skip_spaces by done. done.
    - rewrite skip_solid by (by apply solid_head_app). by apply rstrip_solid. }
  destruct comment as [t|]; cbn [print_comment].
  - replace (sp2 ++ value ++ sp3 ++ (ch_semicolon :: t) ++ [ch_newline])
      with (((sp2 ++ value ++ sp3) ++ [ch_semicolon]) ++ t ++ [ch_newline]) by (by rewrite <- !app_assoc).
    rewrite rstrip_app by (by apply solid_last_snoc). rewrite <- app_assoc, find_split; [done|done| |].
    + rewrite !quiet_app. split; [by apply quiet_spaces|]. split; [apply Hqw|by apply quiet_spaces].
    + right. split; [|done]. assert (sp3 <> []) as Hne by (by apply Hc). destruct (exists_last Hne) as (l & c & ->).
      unfold ends_space. rewrite !app_assoc, last_snoc. apply Forall_app in H3 as [_ H3]. by inversion H3.
  - cbn [app]. destruct value as [|v value].
    + rewrite (rstrip_spaces (sp2 ++ [] ++ sp3 ++ [ch_newline])); [done|]. apply Forall_app. split; [done|]. by apply spaces_newline.
    + rewrite app_assoc, rstrip_solid; [|apply solid_last_app; done|by apply spaces_newline].
      rewrite <- (app_nil_r (sp2 ++ _)), find_split; [|by apply Forall_true| |done].
      * cbn [fst]. rewrite skip_spaces, skip_solid by done.
        by apply rstrip_id.
      * rewrite quiet_app. split; [by apply quiet_spaces|apply Hqw].
Qed.

Lemma plain_app a b : plain (a ++ b) <-> plain a /\ plain b.
Proof. apply Forall_app. Qed.

(** The part of the body behind the line's white space. *)
Lemma parse_entry s name sp1 sep sp2 value sp3 comment prev :
  item_ok prev (Entry name sp1 sep sp2 value sp3 comment) ->
  let it := Entry name sp1 sep sp2 value sp3 comment in
  let line := rstrip (print_item it ++ [ch_newline]) in
  lskip line = line /\ parse_start handler s false line = item_effect s it.
Proof.
  intros (_ & _ & (Hn & Hq & Hh & Hl) & Hs & Ho & H1 & Hsep & H2 & Hv & H3 & Hc) it line.
  assert (isspace sep = false) as Hsp by (by destruct Hsep as [-> | ->]).
  assert (line = name ++ sp1 ++ sep :: rstrip (sp2 ++ value ++ sp3 ++ print_comment comment ++ [ch_newline])) as Eline.
  { unfold line. cbn [print_item it].
    replace ((name ++ sp1 ++ sep :: sp2 ++ value ++ sp3 ++ print_comment comment) ++ [ch_newline])
      with (((name ++ sp1) ++ [sep]) ++ sp2 ++ value ++ sp3 ++ print_comment comment ++ [ch_newline])
      by (by rewrite <- !app_assoc; cbn; rewrite <- !app_assoc).
    rewrite rstrip_app by (by apply solid_last_snoc). by rewrite <- !app_assoc. }
  destruct name as [|c name]; [done|]. cbn in Hs, Ho. destruct Hs as [Hs1 Hs2].
  rewrite Eline. clear Eline line. split; [by apply skip_solid|].
  pose proof (value_part sp2 value sp3 comment H2 Hv H3 Hc) as Hval.
  set (r := rstrip (sp2 ++ _)) in *. cbn [app parse_start].
  destruct (Z.eqb_spec c ch_semicolon); [done|]. destruct (Z.eqb_spec c ch_hash); [done|]. cbn [orb].
  rewrite andb_false_r. destruct (Z.eqb_spec c ch_open); [congruence|].
  unfold parse_pair. change (c :: name ++ sp1 ++ sep :: r) with ((c :: name) ++ sp1 ++ sep :: r).
  unfold find_chars_or_comment at 1. rewrite app_assoc, find_split.
  - assert ((sep =? ch_equals) || (sep =? ch_colon) = true) as -> by (by destruct Hsep as [-> | ->]).
    rewrite rstrip_solid by done. destruct (find_chars_or_comment r None) as [v0 v1]. cbn [fst] in Hval.
    rewrite Hval. done.
  - apply Forall_app. split; [done|]. eapply Forall_impl; [exact H1|]. intros x Hx.
    rewrite !in_chars_cons. destruct (Z.eqb_spec ch_equals x) as [<-|_]; [done|].
    destruct (Z.eqb_spec ch_colon x) as [<-|_]; done.
  - rewrite quiet_app. split; [|by apply quiet_spaces]. intros [|i] Hi; [done|exact (Hq (S i) Hi)].
  - left. rewrite !in_chars_cons. by destruct Hsep as [-> | ->].
Qed.

Lemma parse_item s prev it moved :
  item_ok prev it -> (p_prev_name s <> [] -> prev = true) -> (prev = true -> p_prev_name s <> []) ->
  let line := rstrip (print_item it ++ [ch_newline]) in
  (p_prev_name s = [] \/ moved = negb (Nat.eqb (length (lskip line)) (length line))) ->
  parse_start handler s moved (lskip line) = item_effect s it.
Proof.
  intros Hok Hp1 Hp2 line Hm. pose proof Hok as (_ & _ & Hit). destruct it as [ws|ws mark text|name tail|name sp1 sep sp2 value sp3 comment|ws text].
  - unfold line. cbn [print_item]. rewrite rstrip_spaces by (by apply spaces_newline). done.
  - destruct Hit as [Hw Hmark]. unfold line. cbn [print_item].
    replace ((ws ++ mark :: text) ++ [ch_newline]) with ((ws ++ [mark]) ++ text ++ [ch_newline]) by (by rewrite <- !app_assoc).
    rewrite rstrip_app by (apply solid_last_snoc; by destruct Hmark as [-> | ->]). rewrite <- app_assoc.
    unfold lskip. rewrite skip_spaces, skip_solid; [|by destruct Hmark as [-> | ->]|done]. cbn [app parse_start].
    by destruct Hmark as [-> | ->].
  - destruct Hit as (Hcl & Hq & Hlen). unfold line in *. cbn [print_item] in *.
    replace ((ch_open :: name ++ ch_close :: tail) ++ [ch_newline])
      with (((ch_open :: name) ++ [ch_close]) ++ tail ++ [ch_newline]) in * by (by cbn; rewrite <- !app_assoc).
    rewrite rstrip_app in * by (by apply solid_last_snoc). rewrite <- app_assoc in *. cbn [app] in *.
    unfold lskip in *. rewrite skip_solid in * by done. rewrite Nat.eqb_refl in Hm. cbn [negb] in Hm.
    cbn [parse_start Z.eqb Pos.eqb ch_open ch_semicolon ch_hash orb].
    assert (negb (bool_decide (p_prev_name s = [])) && moved = false) as ->.
    { destruct Hm as [Hm| ->]; [by rewrite bool_decide_true|by rewrite andb_false_r]. }
    unfold parse_section, find_chars_or_comment. rewrite find_split; [| |done|by left].
    + cbn. unfold strncpy0. rewrite take_ge; [done|]. unfold MAX_SECTION. lia.
    + eapply Forall_impl; [exact Hcl|]. intros x Hx. rewrite in_chars_cons. destruct (Z.eqb_spec ch_close x) as [<-|_]; done.
  - destruct (parse_entry s _ _ _ _ _ _ _ prev Hok) as [Hl Hp]. fold line in Hl, Hp. rewrite Hl in *.
    rewrite Nat.eqb_refl in Hm. cbn [negb] in Hm. rewrite <- Hp.
    destruct Hm as [Hm| ->]; [|done]. unfold parse_start. rewrite Hm, bool_decide_true by done. by cbn [negb andb].
  - destruct Hit as (Hpr & Hw & Hne & Hh & Hl & Hs). unfold line in *. cbn [print_item] in *. rewrite <- app_assoc in *.
    assert (text <> []) as Htx by (by destruct text).
    assert (rstrip (ws ++ text ++ [ch_newline]) = ws ++ text) as E.
    { rewrite app_assoc. apply rstrip_solid; [by apply solid_last_app|]. by repeat constructor. }
    rewrite E in *. unfold lskip in *. rewrite skip_spaces, skip_solid in * by done.
    assert (moved = true) as ->.
    { destruct Hm as [Hm| ->]; [by destruct (Hp2 Hpr)|]. apply negb_true_iff, Nat.eqb_neq. rewrite length_app.
      destruct ws; [done|]. cbn. lia. }
    destruct text as [|c text]; [done|]. cbn in Hs. destruct Hs as [Hs1 Hs2]. cbn [parse_start].
    destruct (Z.eqb_spec c ch_semicolon); [done|]. destruct (Z.eqb_spec c ch_hash); [done|]. cbn [orb].
    rewrite bool_decide_false by (by apply Hp2). done.
Qed.

Definition has_bom (l : cstr) : bool := bool_decide (take 3 l = BOM).

Lemma skip_bom_not n l : n <> 1 \/ has_bom l = false -> skip_bom n l = l.
Proof.
  intros Hn. destruct l as [|a [|b [|c l]]]; [done..|]. unfold has_bom in Hn. cbn in Hn |- *.
  destruct (Z.eqb_spec n 1) as [->|]; [|done]. destruct Hn as [|Hn]; [done|]. apply bool_decide_eq_false in Hn.
  destruct (Z.eqb_spec a 0xEF) as [->|]; [|done]. destruct (Z.eqb_spec b 0xBB) as [->|]; [|done].
  by destruct (Z.eqb_spec c 0xBF) as [->|].
Qed.

Lemma has_bom_line l rest : plain l -> has_bom (l ++ ch_newline :: rest) = has_bom (l ++ [ch_newline]).
Proof.
  intros _. unfold has_bom. destruct l as [|a [|b [|c l]]]; try done; apply bool_decide_ext; cbn;
    destruct rest as [|x [|y rest]]; done.
Qed.

(** The state at the next line. *)
Definition next_line s : pstate := mk_pstate (p_user s) (p_section s) (p_prev_name s) (s32 (p_lineno s + 1)) (p_error s).

Definition tracks (prev : bool) s : Prop := p_prev_name s = [] <-> prev = false.

Lemma tracks_spec prev s : tracks prev s -> (p_prev_name s <> [] -> prev = true) /\ (prev = true -> p_prev_name s <> []).
Proof. unfold tracks. intros Ht. destruct prev; split; try done; intros H; [by rewrite Ht|]. destruct H. by rewrite Ht. Qed.

Lemma parse_item_line s prev it :
  item_ok prev it -> tracks prev s ->
  s32 (p_lineno s + 1) <> 1 \/ has_bom (print_item it ++ [ch_newline]) = false ->
  parse_line handler s (print_item it ++ [ch_newline]) = item_effect (next_line s) it.
Proof.
  intros Hok [H1 H2]%tracks_spec Hb. unfold parse_line. rewrite skip_bom_not by done.
  apply (parse_item (next_line s) prev it); [done|done|done|by right].
Qed.

Lemma parse_bom_line s it :
  item_ok false it -> p_lineno s = 0 -> p_prev_name s = [] ->
  parse_line handler s (BOM ++ print_item it ++ [ch_newline]) = item_effect (next_line s) it.
Proof.
  intros Hok H0 Hp. unfold parse_line. rewrite H0. change (s32 (0 + 1)) with 1. cbn [app BOM skip_bom Z.eqb Pos.eqb andb].
  assert (next_line s = mk_pstate (p_user s) (p_section s) (p_prev_name s) 1 (p_error s)) as <- by (unfold next_line; by rewrite H0).
  apply (parse_item (next_line s) false it); [done|by cbn; rewrite Hp|done|by left].
Qed.

Lemma tracks_next prev it s : item_ok prev it -> tracks prev s -> tracks (next_prev prev it) (item_effect s it).
Proof.
  intros (_ & _ & Hit) Ht. destruct it as [ws|ws mark text|name tail|name sp1 sep sp2 value sp3 comment|ws text]; cbn; try done.
  - destruct Hit as (_ & Hs & _). destruct (handler _ _ _ _) as [u ok]. unfold tracks. cbn. by destruct name.
  - by destruct (handler _ _ _ _) as [u ok].
Qed.

(** The user data and the error a line leaves. *)
Lemma effect_events s it doc k :
  p_error s = 0 -> p_lineno s = k -> 0 < k ->
  let s' := item_effect s it in
  p_lineno s' = k /\
  feed handler (p_user s) (events k (p_section s) (p_prev_name s) (it :: doc)) =
  (if p_error s' =? 0 then feed handler (p_user s') (events (k + 1) (p_section s') (p_prev_name s') doc)
   else (p_user s', p_error s')).
Proof.
  intros He <- Hk s'. unfold s'.
  destruct it as [ws|ws mark text|name tail|name sp1 sep sp2 value sp3 comment|ws text]; cbn [item_effect events feed];
    cbn [p_user p_section p_prev_name p_lineno p_error]; rewrite ?He; try done.
  all: destruct (handler _ _ _ _) as [u [|]]; unfold set_error; cbn; rewrite ?He; [done|]; cbn.
  all: destruct (Z.eqb_spec (p_lineno s) 0); [lia|done].
Qed.

(** What the loop comes to behind the lines. *)
Definition done_with (fuel : nat) (stream : list Z) s (r : U * Z) (line : Z) (rest : list Z) : Prop :=
  if r.2 =? 0 then
    exists fuel' s', parse_lines handler fuel stream s = parse_lines handler fuel' rest s' /\
      (length rest < fuel')%nat /\ p_user s' = r.1 /\ p_error s' = 0 /\ p_lineno s' = line
  else exists s', parse_lines handler fuel stream s = Ok s' /\ p_user s' = r.1 /\ p_error s' = r.2.

Lemma parse_doc fuel doc rest s prev :
  doc_ok prev doc -> tracks prev s -> p_error s = 0 -> 0 <= p_lineno s ->
  p_lineno s + Z.of_nat (length doc) < 2 ^ 31 ->
  0 < p_lineno s \/ has_bom (print_lines doc ++ rest) = false ->
  (length (print_lines doc ++ rest) < fuel)%nat ->
  done_with fuel (print_lines doc ++ rest) s
    (feed handler (p_user s) (events (p_lineno s + 1) (p_section s) (p_prev_name s) doc))
    (p_lineno s + Z.of_nat (length doc)) rest.
Proof.
  revert fuel s prev. induction doc as [|it doc IH]; intros fuel s prev Hd Ht He Hk Hlen Hb Hf.
  { unfold done_with. cbn. exists fuel, s. rewrite Z.add_0_r. done. }
  destruct Hd as [Hit Hd]. pose proof Hit as (Hpl & Hl & _).
  replace (print_lines (it :: doc) ++ rest) with (print_item it ++ ch_newline :: print_lines doc ++ rest) in *
    by (unfold print_lines; cbn; by rewrite <- !app_assoc).
  rewrite has_bom_line in Hb by done. rewrite length_app in Hf. cbn [length] in Hf, Hlen.
  assert (s32 (p_lineno s + 1) = p_lineno s + 1) as Es by (apply (wraps_small 32); lia).
  destruct fuel as [|fuel]; [lia|]. unfold done_with. cbn [parse_lines]. rewrite fgets_line by done.
  rewrite (parse_item_line s prev it Hit Ht) by (rewrite Es; destruct Hb; [left; lia|by right]).
  destruct (effect_events (next_line s) it doc (p_lineno s + 1)) as [Hln Hfd]; [done|exact Es|lia|].
  cbn [next_line p_user p_section p_prev_name] in Hfd. rewrite Hfd. clear Hfd.
  set (s' := item_effect (next_line s) it) in *. destruct (Z.eqb_spec (p_error s') 0) as [He'|He']; cbn [negb].
  - specialize (IH fuel s' (next_prev prev it) Hd). rewrite Hln in IH.
    cbn [length]. replace (p_lineno s + Z.of_nat (S (length doc))) with (p_lineno s + 1 + Z.of_nat (length doc)) by lia.
    apply IH; [by apply tracks_next|done|lia|lia|left; lia|lia].
  - cbn [fst snd]. destruct (Z.eqb_spec (p_error s') 0); [done|]. by exists s'.
Qed.

Lemma parse_lines_end fuel s : (0 < fuel)%nat -> parse_lines handler fuel [] s = Ok s.
Proof. by destruct fuel; [lia|]. Qed.

(** ** Malformed lines *)

Lemma find_from_app w chars l a b : find_from w chars l = (a, b) -> l = a ++ b.
Proof.
  revert w a b. induction l as [|c l IH]; intros w a b Hf; [by injection Hf as <- <-|]. cbn in Hf.
  case_match; [by injection Hf as <- <-|]. destruct (find_from (isspace c) chars l) as [a' b'] eqn:E.
  injection Hf as <- <-. cbn. f_equal. by eapply IH.
Qed.

(** A section without its bracket, or a line without separator. *)
Definition bad_line (l : cstr) : Prop :=
  plain l /\ (length l <= 2046)%nat /\ solid_head l /\ starts_line l /\
  match l with
  | c :: rest =>
      if c =? ch_open then Forall (fun x => x <> ch_close) rest
      else Forall (fun x => x <> ch_equals /\ x <> ch_colon) l
  | [] => False
  end.

Lemma rstrip_prefix l : exists ws, l = rstrip l ++ ws /\ spaces ws.
Proof.
  induction l as [|c l IH] using rev_ind; [by exists []; split; [|constructor]|]. unfold rstrip. rewrite reverse_snoc. cbn [skip_space].
  destruct (isspace c) eqn:Hc.
  - destruct IH as (ws & E & Hw). exists (ws ++ [c]). split; [rewrite app_assoc; by f_equal|].
    apply Forall_app. split; [done|]. by repeat constructor.
  - exists []. rewrite reverse_cons, reverse_involutive, app_nil_r. split; [done|constructor].
Qed.

Lemma bad_line_error s l :
  bad_line l -> p_error s = 0 -> s32 (p_lineno s + 1) <> 0 ->
  s32 (p_lineno s + 1) <> 1 \/ has_bom (l ++ [ch_newline]) = false ->
  let s' := parse_line handler s (l ++ [ch_newline]) in p_error s' = s32 (p_lineno s + 1) /\ p_user s' = p_user s.
Proof.
  intros (Hpl & Hl & Hh & Hs & Hbad) He Hn Hb s'. unfold s', parse_line. rewrite skip_bom_not by done.
  destruct l as [|c l]; [done|]. unfold solid_head in Hh. cbn in Hh. destruct Hs as [Hs1 Hs2].
  change ((c :: l) ++ [ch_newline]) with ([c] ++ l ++ [ch_newline]). rewrite rstrip_app by done.
  unfold lskip. rewrite skip_solid by done. rewrite Nat.eqb_refl. cbn [negb app parse_start].
  destruct (Z.eqb_spec c ch_semicolon); [done|]. destruct (Z.eqb_spec c ch_hash); [done|]. cbn [orb].
  rewrite andb_false_r. destruct (rstrip_prefix (l ++ [ch_newline])) as (ws & E & _).
  set (r := rstrip (l ++ [ch_newline])) in *.
  assert (forall P : Z -> Prop, P ch_newline -> Forall P l -> Forall P r) as Hsub.
  { intros P Hnl Hall. assert (Forall P (l ++ [ch_newline])) as Hx by (apply Forall_app; split; [done|by repeat constructor]).
    rewrite E in Hx. by apply Forall_app in Hx as [Hx _]. }
  destruct (Z.eqb_spec c ch_open) as [->|].
  - apply Hsub in Hbad; [|done]. unfold parse_section, find_chars_or_comment.
    destruct (find_from false (Some [ch_close]) r) as [a b] eqn:Ef. apply find_from_app in Ef.
    rewrite Ef in Hbad. apply Forall_app in Hbad as [_ Hbad]. destruct b as [|x b]; [cbn; by rewrite He|].
    apply Forall_cons in Hbad as [Hx _]. destruct (Z.eqb_spec x ch_close); [done|]. cbn. by rewrite He.
  - apply Forall_cons in Hbad as [Hc Hbad]. apply Hsub in Hbad; [|done]. unfold parse_pair, find_chars_or_comment.
    destruct (find_from false (Some [ch_equals; ch_colon]) (c :: r)) as [a b] eqn:Ef. apply find_from_app in Ef.
    assert (Forall (fun x => x <> ch_equals /\ x <> ch_colon) (c :: r)) as Hall by (by constructor).
    rewrite Ef in Hall. apply Forall_app in Hall as [_ Hall]. destruct b as [|x b]; [cbn; by rewrite He|].
    apply Forall_cons in Hall as [[Hx1 Hx2] _]. destruct (Z.eqb_spec x ch_equals); [done|].
    destruct (Z.eqb_spec x ch_colon); [done|]. cbn. by rewrite He.
Qed.

(** A document from its beginning. *)
Lemma parse_from_start doc rest u :
  doc_ok false doc -> Z.of_nat (length doc) < 2 ^ 31 -> has_bom (print_lines doc ++ rest) = false ->
  done_with (S (length (print_lines doc ++ rest))) (print_lines doc ++ rest) (mk_pstate u [] [] 0 0)
    (feed handler u (events 1 [] [] doc)) (Z.of_nat (length doc)) rest.
Proof. intros Hd Hlen Hb. apply (parse_doc _ doc rest (mk_pstate u [] [] 0 0) false); cbn; auto; done || lia. Qed.

(** The result, when nothing is left. *)
Lemma done_result fuel stream u r k :
  done_with fuel stream u r k [] ->
  (let* s := parse_lines handler fuel stream u in Ok (p_user s, p_error s)) = Ok r.
Proof.
  unfold done_with. destruct r as [u' e]. cbn. destruct (Z.eqb_spec e 0) as [->|].
  - intros (fuel' & s' & -> & Hf & <- & He & _). rewrite parse_lines_end by lia. cbn. by rewrite He.
  - by intros (s' & -> & <- & <-).
Qed.

Lemma parse_bom_doc it doc u :
  doc_ok false (it :: doc) -> Z.of_nat (length (it :: doc)) < 2 ^ 31 -> (length (print_item it) <= 2043)%nat ->
  ini_parse_stream handler (print_doc true (it :: doc)) u = Ok (feed handler u (events 1 [] [] (it :: doc))).
Proof.
  intros [Hit Hd] Hlen Hl. unfold ini_parse_stream, print_doc.
  replace (BOM ++ print_lines (it :: doc)) with ((BOM ++ print_item it) ++ ch_newline :: print_lines doc)
    by (unfold print_lines; cbn; by rewrite <- !app_assoc).
  set (fuel := length _). cbn [parse_lines]. set (s0 := mk_pstate u [] [] 0 0).
  rewrite fgets_line; [|rewrite length_app; cbn; lia|apply plain_app; split; [by repeat constructor|apply Hit]].
  rewrite <- app_assoc, (parse_bom_line s0 it Hit) by done.
  destruct (effect_events (next_line s0) it doc 1) as [Hln Hfd]; [done|done|lia|].
  cbn [next_line s0 p_user p_section p_prev_name] in Hfd. rewrite Hfd. clear Hfd.
  set (s' := item_effect (next_line s0) it) in *. destruct (Z.eqb_spec (p_error s') 0) as [He'|He']; cbn [negb]; [|done].
  pose proof (parse_doc fuel doc [] s' (next_prev false it) Hd) as Hp. rewrite Hln, app_nil_r in Hp.
  apply (done_result _ _ _ _ (1 + Z.of_nat (length doc))). apply Hp; [by apply tracks_next|done|lia| |left; lia|].
  - cbn [length] in Hlen. lia.
  - unfold fuel. rewrite !length_app. cbn. lia.
Qed.

(** ** Properties *)

(** C24: printing a document of sections, entries, continuation lines,
    comments and blank lines, in any layout the format allows and with or
    without a byte order mark, and parsing the result calls the handler on
    exactly the entries of the document, in order, each with its section, name
    and value; it stops at the first refusal and returns its line, or 0. *)
Theorem ini_roundtrip (bom : bool) doc u :
  doc_ok false doc -> Z.of_nat (length doc) < 2 ^ 31 ->
  (if bom then Forall (fun it : item => (length (print_item it) <= 2043)%nat) (take 1 doc)
   else has_bom (print_lines doc) = false) ->
  ini_parse_stream handler (print_doc bom doc) u = Ok (feed handler u (events 1 [] [] doc)).
Proof.
  intros Hd Hlen Hb. destruct bom.
  - destruct doc as [|it doc]; [vm_compute; reflexivity|]. cbn [take] in Hb. apply Forall_cons in Hb as [Hl _].
    by apply parse_bom_doc.
  - unfold print_doc. cbn [app]. rewrite <- (app_nil_r (print_lines doc)) in *.
    pose proof (parse_from_start doc [] u Hd Hlen Hb) as Hp. by apply done_result in Hp.
Qed.

(** After a document whose entries the handler accepts, a line that is
    malformed - a section without its closing bracket, or a line without [=]
    and [:] - ends the parsing with the number of that line; nothing behind it
    is looked at. *)
Theorem ini_first_error doc bad rest u u' :
  doc_ok false doc -> Z.of_nat (length doc) + 1 < 2 ^ 31 -> bad_line bad ->
  has_bom (print_lines doc ++ bad ++ ch_newline :: rest) = false ->
  feed handler u (events 1 [] [] doc) = (u', 0) ->
  ini_parse_stream handler (print_lines doc ++ bad ++ ch_newline :: rest) u = Ok (u', Z.of_nat (length doc) + 1).
Proof.
  intros Hd Hlen Hbad Hb Hf. pose proof Hbad as (Hpl & Hl & _).
  pose proof (parse_from_start doc (bad ++ ch_newline :: rest) u Hd ltac:(lia) Hb) as Hp.
  unfold done_with in Hp. rewrite Hf in Hp. cbn [fst snd Z.eqb] in Hp. destruct Hp as (fuel & s & Hp & Hfu & Hu & He & Hk).
  unfold ini_parse_stream. rewrite Hp. destruct fuel as [|fuel]; [lia|]. cbn [parse_lines].
  rewrite fgets_line by done. assert (s32 (p_lineno s + 1) = Z.of_nat (length doc) + 1) as Es.
  { rewrite Hk. apply (wraps_small 32); lia. }
  destruct (bad_line_error s bad Hbad He) as [He' Hu']; [lia| |].
  - destruct doc as [|it doc]; [right|left; cbn in *; lia]. cbn [print_lines concat fmap list_fmap app] in Hb.
    by rewrite has_bom_line in Hb.
  - rewrite He', Es. destruct (Z.eqb_spec (Z.of_nat (length doc) + 1) 0); [lia|]. cbn. by rewrite He', Es, Hu', Hu.
Qed.
End Lines.

(** ** Witnesses *)

(** A handler that notes its calls, and refuses the name [bad]. *)
Definition note_handler (u : list (cstr * cstr * cstr)) (section name value : cstr) : list (cstr * cstr * cstr) * bool :=
  if decide (name = str "bad") then (u, false) else (u ++ [(section, name, value)], true).

Definition demo_doc : list item :=
  [Comment [] ch_semicolon (str " F-Stack");
   Section (str "dpdk") [];
   Entry (str "lcore_mask") [32] ch_equals [32] (str "1") [32; 9] (Some (str " one core"));
   Blank [32];
   Section (str "port0") (str " the first");
   Entry (str "addr") [] ch_colon [] (str "192.168.1.2") [] None;
   Continue [9] (str "192.168.1.3")].

Ltac quiet_tac :=
  match goal with
  | |- quiet _ [] => by intros ? ?
  | |- quiet _ (_ :: _) => apply quiet_cons; split; [done|quiet_tac]
  end.

Ltac item_tac :=
  repeat match goal with
  | |- _ /\ _ => split
  | |- Forall _ [] => constructor
  | |- Forall _ (_ :: _) => constructor
  | |- quiet _ _ => quiet_tac
  | |- word _ _ => unfold word
  | |- spaces _ => unfold spaces
  | |- plain _ => unfold plain
  | |- is_Some _ -> _ => intros [? ?]
  | |- _ \/ _ => by (left + right)
  | |- _ => done || (cbn; lia)
  end.

Lemma demo_doc_ok : doc_ok false demo_doc.
Proof. unfold demo_doc. cbn -[Nat.le]. unfold item_ok. cbn. item_tac. Qed.

Lemma ini_roundtrip_witness :
  ini_parse_stream note_handler (print_doc true demo_doc) [] =
  Ok ([(str "dpdk", str "lcore_mask", str "1"); (str "port0", str "addr", str "192.168.1.2");
       (str "port0", str "addr", str "192.168.1.3")], 0).
Proof.
  rewrite (ini_roundtrip note_handler true demo_doc [] demo_doc_ok).
  - vm_compute. reflexivity.
  - reflexivity.
  - cbn. repeat constructor; lia.
Defined.

Lemma ini_first_error_witness :
  ini_parse_stream note_handler (print_lines demo_doc ++ str "[port1" ++ ch_newline :: str "x=1") [] =
  Ok ([(str "dpdk", str "lcore_mask", str "1"); (str "port0", str "addr", str "192.168.1.2");
       (str "port0", str "addr", str "192.168.1.3")], 8).
Proof.
  apply (ini_first_error note_handler demo_doc (str "[port1") (str "x=1") []).
  - exact demo_doc_ok.
  - reflexivity.
  - match goal with |- bad_line ?l => let l' := eval vm_compute in l in change (bad_line l') end.
    unfold bad_line. cbn. item_tac.
  - reflexivity.
  - vm_compute. reflexivity.
Defined.
