(* ===== verification/Config.v ===== *)
(** * The configuration ([ff_config.c])

    The mask of cores, lists of numbers and ranges, 16-bit numbers, and the
    check of the configuration that was read.  Strings are those of
    [CString]; an access outside of an array is [Panic].  The numbers of cores
    and ports DPDK is built for are parameters. *)

From stdpp Require Import strings sorting.
From S2P Require Import Prelude CString.

Module Config.

(** ** Characters *)

Definition isupper (c : Z) : bool := (65 <=? c) && (c <=? 90).
Definition isxdigit (c : Z) : bool := isdigit c || ((65 <=? c) && (c <=? 70)) || ((97 <=? c) && (c <=? 102)).
Definition isblank (c : Z) : bool := (c =? 32) || (c =? 9).
Definition tolower (c : Z) : Z := if isupper c then c + 32 else c.

Definition strcasecmp_eq (a b : cstr) : bool := bool_decide (tolower <$> a = tolower <$> b).

Definition xdigit2val (c : Z) : Z :=
  if isdigit c then c - 48 else if isupper c then c - 65 + 10 else c - 97 + 10.

(** ** The mask of cores *)

Definition BITS_PER_HEX : Z := 4.

Record lcores := mk_lcores {
  proc_id : Z;
  proc_lcore : list Z;
  proc_mask : option cstr;
  nb_procs : Z
}.

Fixpoint skip_blank (s : cstr) : cstr :=
  match s with
  | c :: s' => if isblank c then skip_blank s' else s
  | [] => []
  end.

Definition skip_0x (s : cstr) : cstr :=
  match s with
  | a :: b :: s' => if (a =? 48) && ((b =? 120) || (b =? 88)) then s' else s
  | _ => s
  end.

(** The first [i] characters, without blanks at their end, from the last one
    on. *)
Definition digits_back (s : cstr) : cstr := skip_blank (reverse s).

Section Lcores.
Variable RTE_MAX_LCORE : Z.

(** The mask of one core: a digit and its zeros. *)
Definition core_mask (idx : Z) : cstr :=
  let zero_num := Z.shiftr idx 2 in
  let shift := Z.land idx 3 in
  take (Z.to_nat (RTE_MAX_LCORE - 2)) ((48 + Z.shiftl 1 shift) :: replicate (Z.to_nat zero_num) 48).

(** [for (j = 0; j < BITS_PER_HEX && idx < RTE_MAX_LCORE; j++, idx++)], [k]
    rounds from [j] on: the state, [idx] and [count]. *)
Fixpoint mask_bits (k : nat) (j val : Z) (s : lcores) (idx count : Z) : res (lcores * Z * Z) :=
  match k with
  | O => Ok (s, idx, count)
  | S k =>
      if idx <? RTE_MAX_LCORE then
        if negb (Z.land (Z.shiftl 1 j) val =? 0) then
          let* l := array_set (proc_lcore s) count idx in
          let mask := if proc_id s =? count then Some (core_mask idx) else proc_mask s in
          mask_bits k (j + 1) val (mk_lcores (proc_id s) l mask (nb_procs s)) (idx + 1) (count + 1)
        else mask_bits k (j + 1) val s (idx + 1) count
      else Ok (s, idx, count)
  end.

(** The digits from the last one on: the state, the digits left and [count];
    an error has no digits. *)
Fixpoint mask_digits (ds : cstr) (s : lcores) (idx count : Z) : res (lcores * option (cstr * Z)) :=
  match ds with
  | [] => Ok (s, Some ([], count))
  | c :: ds' =>
      if idx <? RTE_MAX_LCORE then
        if negb (isxdigit c) then Ok (s, None)
        else
          let* (s, idx, count) := mask_bits 4 0 (xdigit2val c) s idx count in
          mask_digits ds' s idx count
      else Ok (s, Some (ds, count))
  end.

(** The result and the new state. *)
Definition parse_lcore_mask (s : lcores) (coremask : cstr) : res (Z * lcores) :=
  let s := mk_lcores (proc_id s) (replicate (Z.to_nat RTE_MAX_LCORE) 0) (proc_mask s) (nb_procs s) in
  let ds := digits_back (skip_0x (skip_blank coremask)) in
  if bool_decide (ds = []) then Ok (0, s)
  else
    let* (s, o) := mask_digits ds s 0 0 in
    match o with
    | None => Ok (0, s)
    | Some (rest, count) =>
        if negb (forallb (fun c => c =? 48) rest) then Ok (0, s)
        else if count <=? proc_id s then Ok (0, s)
        else Ok (1, mk_lcores (proc_id s) (proc_lcore s) (proc_mask s) count)
    end.
End Lcores.

(** ** Searching and sorting *)

(** The recursion is on a part of the array that gets shorter. *)
Fixpoint uint16_binary_search (fuel : nat) (arr : list Z) (l r x : Z) : res Z :=
  match fuel with
  | O => NoFuel
  | S fuel =>
      if l <=? r then
        let mid := l + Z.quot (r - l) 2 in
        let* v := array_get arr mid in
        if v =? x then Ok mid
        else if x <? v then uint16_binary_search fuel arr l (mid - 1) x
        else uint16_binary_search fuel arr (mid + 1) r x
      else Ok (-1)
  end.

(** [qsort] of the first [n] elements. *)
Definition sort_uint16_array (arr : list Z) (n : Z) : list Z :=
  merge_sort Z.le (take (Z.to_nat n) arr) ++ drop (Z.to_nat n) arr.

(** ** Lists of numbers and ranges *)

Fixpoint skip_sp (s : cstr) : cstr :=
  match s with
  | c :: s' => if c =? 32 then skip_sp s' else s
  | [] => []
  end.

Definition strstrip (s : cstr) : cstr := reverse (skip_sp (reverse (skip_sp s))).

(** Up to the first [c], and what is behind it. *)
Fixpoint cut_at (c : Z) (s : cstr) : cstr * option cstr :=
  match s with
  | [] => ([], None)
  | x :: s' =>
      if x =? c then ([], Some s')
      else let '(a, r) := cut_at c s' in (x :: a, r)
  end.

(** [rte_strsplit] of a whole string: the tokens.  The last one that fits in
    [tokens] is not cut off at the next [delim], unless it is empty. *)
Fixpoint rte_strsplit (maxtokens : nat) (delim : Z) (s : cstr) : list cstr :=
  match maxtokens, s with
  | O, _ | _, [] => []
  | S O, c :: _ => [if c =? delim then [] else s]
  | S n, _ =>
      let '(tok, rest) := cut_at delim s in
      tok :: match rest with Some r => rte_strsplit n delim r | None => [] end
  end.

Fixpoint skip_digits (s : cstr) : cstr :=
  match s with
  | c :: s' => if isdigit c then skip_digits s' else s
  | [] => []
  end.

(** [endptr] of [strtol(s, &endptr, 10)]. *)
Definition strtol_end (s : cstr) : cstr :=
  let t := skip_space s in
  let t := match t with c :: t' => if (c =? 45) || (c =? 43) then t' else t | [] => [] end in
  match t with
  | c :: _ => if isdigit c then skip_digits t else s
  | [] => s
  end.

(** A number that is all of a string. *)
Definition whole_number (s : cstr) : option Z :=
  match strtol_end s with [] => Some (strtol10 s) | _ => None end.

(** [arr[nr_ele++] = (uint16_t)v], with the test before it; [None] is the
    error. *)
Definition put_ele (arr : list Z) (nr_ele max_ele v : Z) : res (option (list Z)) :=
  if max_ele <? nr_ele then Ok None
  else
    let* arr := array_set arr nr_ele (u16 v) in
    Ok (Some arr).

(** [for (j = lv; j <= rv; ++j)]. *)
Fixpoint put_range (fuel : nat) (arr : list Z) (nr_ele max_ele j rv : Z) : res (option (list Z * Z)) :=
  match fuel with
  | O => NoFuel
  | S fuel =>
      if j <=? rv then
        let* o := put_ele arr nr_ele max_ele j in
        match o with
        | None => Ok None
        | Some arr => put_range fuel arr (nr_ele + 1) max_ele (s32 (j + 1)) rv
        end
      else Ok (Some (arr, nr_ele))
  end.

Definition put_token (arr : list Z) (nr_ele max_ele : Z) (tok : cstr) : res (option (list Z * Z)) :=
  match cut_at 45 tok with
  | (_, None) =>
      match whole_number (strstrip tok) with
      | None => Ok None
      | Some v =>
          let* o := put_ele arr nr_ele max_ele v in
          Ok ((fun arr => (arr, nr_ele + 1)) <$> o)
      end
  | (lo, Some hi) =>
      match whole_number (strstrip lo), whole_number (strstrip hi) with
      | Some lv, Some rv => put_range (length arr + 2) arr nr_ele max_ele (s32 lv) rv
      | _, _ => Ok None
      end
  end.

Fixpoint put_tokens (arr : list Z) (nr_ele max_ele : Z) (toks : list cstr) : res (option (list Z * Z)) :=
  match toks with
  | [] => Ok (Some (arr, nr_ele))
  | tok :: toks =>
      let* o := put_token arr nr_ele max_ele tok in
      match o with
      | None => Ok None
      | Some (arr, nr_ele) => put_tokens arr nr_ele max_ele toks
      end
  end.

(** The result, the array and [*sz]; after an error the array does not
    matter.  A value of 4,095 characters or more has a copy without end. *)
Definition parse_config_list (arr : list Z) (sz : Z) (value : cstr) : res (Z * list Z * Z) :=
  if 4095 <=? Z.of_nat (length value) then Panic
  else
    let* o := put_tokens arr 0 sz (rte_strsplit 128 44 value) in
    match o with
    | None => Ok (0, arr, sz)
    | Some (arr, nr_ele) =>
        if nr_ele <=? 0 then Ok (1, arr, sz)
        else Ok (1, sort_uint16_array arr nr_ele, nr_ele)
    end.

Definition DPDK_MAX_LCORE : Z := 128.
Definition DPDK_MAX_VLAN_FILTER : Z := 128.

(** [lcore_list] and [nb_lcores]. *)
Definition parse_port_lcore_list (lcore_list : list Z) (v_str : cstr) : res (Z * list Z * Z) :=
  parse_config_list lcore_list DPDK_MAX_LCORE v_str.

Definition parse_vlan_filter_list (vlan_filter_id : list Z) (v_str : cstr) : res (Z * list Z * Z) :=
  parse_config_list vlan_filter_id DPDK_MAX_VLAN_FILTER v_str.

(** [portid_list] and [max_portid]; [ports] is the array on the stack as it
    happens to be. *)
Definition parse_port_list (ports : list Z) (v_str : cstr) : res (Z * option (list Z * Z)) :=
  let* (r, ports, sz) := parse_config_list ports (Z.of_nat (length ports)) v_str in
  if r =? 0 then Ok (r, None)
  else
    let portid_list := take (Z.to_nat sz) ports in
    let* max_portid := array_get portid_list (sz - 1) in
    Ok (r, Some (portid_list, max_portid)).

(** ** Numbers *)

Definition ULONG_MAX : Z := 18446744073709551615.

(** [strtoul(s, NULL, 10)], and whether it sets [errno]. *)
Definition strtoul10 (s : cstr) : Z * bool :=
  let s := skip_space s in
  let '(neg, v) :=
    match s with
    | c :: s' =>
        if c =? 45 then (true, dec_value 0 s')
        else if c =? 43 then (false, dec_value 0 s')
        else (false, dec_value 0 s)
    | [] => (false, 0)
    end in
  if ULONG_MAX <? v then (ULONG_MAX, true) else (u64 (if neg then - v else v), false).

(** The number, when it is one between [min] and [max]. *)
Definition ff_parse_u16 (value : cstr) (min max : Z) : option Z :=
  match value with
  | [] => None
  | _ =>
      let '(v, err) := strtoul10 value in
      match strtol_end value with
      | [] => if err || (v <? min) || (max <? v) then None else Some v
      | _ => None
      end
  end.

Definition is_integer (s : cstr) : bool :=
  let s := match s with c :: s' => if (c =? 45) || (c =? 43) then s' else s | [] => [] end in
  match s with
  | c :: s' => isdigit c && bool_decide (skip_digits s' = [])
  | [] => false
  end.

Inductive ff_mbuf_mode := FF_MBUF_MODE_LARGE | FF_MBUF_MODE_SCATTER.

#[export] Instance ff_mbuf_mode_eq_dec : EqDecision ff_mbuf_mode.
Proof. solve_decision. Defined.

Definition ff_parse_mbuf_mode (value : cstr) : option ff_mbuf_mode :=
  if bool_decide (value = str "large") then Some FF_MBUF_MODE_LARGE
  else if bool_decide (value = str "scatter") then Some FF_MBUF_MODE_SCATTER
  else None.

(** ** The check *)

Definition FF_MTU_MIN : Z := 68.
Definition FF_MTU_DEFAULT : Z := 1500.
Definition PCAP_SNAP_MINLEN : Z := 94.
Definition PCAP_SAVE_MINLEN : Z := Z.shiftl 2 22.
Definition UINT16_MAX : Z := 65535.

Record port_cfg := mk_port_cfg {
  pc_addr : option cstr;
  pc_netmask : option cstr;
  pc_broadcast : option cstr;
  pc_gateway : option cstr;
  pc_nb_lcores : Z;
  pc_lcore_list : list Z;
  pc_mtu : Z
}.

(** The fields of [struct ff_config] the check uses; [nb_ports] is the
    length of [portid_list], and [port_cfgs] is empty while it is [NULL]. *)
Record config := mk_config {
  kni_enable : bool;
  kni_method : option cstr;
  kni_action : option cstr;
  kni_owner_proc_id : Z;
  pcap_save_len : Z;
  pcap_snap_len : Z;
  pcap_save_path : option cstr;
  cores : lcores;
  nb_threads : Z;
  lcore_mask : option cstr;
  proc_type : cstr;
  primary_slim : bool;
  thread_mode : bool;
  portid_list : list Z;
  port_cfgs : list port_cfg;
  mtu_enable : bool;
  max_mtu : Z;
  mbuf_mode : ff_mbuf_mode
}.

Definition is_primary (c : config) : bool := bool_decide (proc_type c = str "primary").

(** [for (j = 0; j < pc->nb_lcores; j++) if (pc->lcore_list[j] == x)], [k]
    rounds from [j] on. *)
Fixpoint lcore_in (k : nat) (j : Z) (l : list Z) (x : Z) : res bool :=
  match k with
  | O => Ok false
  | S k =>
      let* v := array_get l j in
      if v =? x then Ok true else lcore_in k (j + 1) l x
  end.

(** Whether every core of the port is one of the processes'. *)
Fixpoint lcores_enabled (k : nat) (j : Z) (l : list Z) (c : lcores) : res bool :=
  match k with
  | O => Ok true
  | S k =>
      let* lcore_id := array_get l j in
      let* i := uint16_binary_search (S (length (proc_lcore c))) (proc_lcore c) 0 (nb_procs c - 1) lcore_id in
      if i <? 0 then Ok false else lcores_enabled k (j + 1) l c
  end.

Definition is_set (o : option cstr) : bool := match o with Some _ => true | None => false end.

(** The body of the loop over the ports: whether it goes on. *)
Definition check_port (c : config) (pc : port_cfg) : res bool :=
  if negb (is_set (pc_addr pc) && is_set (pc_netmask pc) && is_set (pc_broadcast pc) && is_set (pc_gateway pc))
  then Ok false
  else
    let n := Z.to_nat (pc_nb_lcores pc) in
    let* enabled := lcores_enabled n 0 (pc_lcore_list pc) (cores c) in
    if negb enabled then Ok false
    else
      let* slim :=
        if primary_slim c && is_primary c then
          let* prim_lcore := array_get (proc_lcore (cores c)) (proc_id (cores c)) in
          let* found := lcore_in n 0 (pc_lcore_list pc) prim_lcore in
          Ok (negb found)
        else Ok true in
      if negb slim then Ok false
      else
        let* owner :=
          if primary_slim c && kni_enable c then
            let* owner_lcore := array_get (proc_lcore (cores c)) (kni_owner_proc_id c) in
            lcore_in n 0 (pc_lcore_list pc) owner_lcore
          else Ok true in
        if negb owner then Ok false
        else if kni_enable c && negb (primary_slim c) && is_primary c then
          let* lcore_id := array_get (proc_lcore (cores c)) (proc_id (cores c)) in
          lcore_in n 0 (pc_lcore_list pc) lcore_id
        else Ok true.

(** [for (i = 0; i < cfg->dpdk.nb_ports; i++)] with a test of the port. *)
Fixpoint check_ports (test : port_cfg -> res bool) (pcs : list port_cfg) (ids : list Z) : res bool :=
  match ids with
  | [] => Ok true
  | portid :: ids =>
      let* pc := array_get pcs portid in
      let* ok := test pc in
      if ok then check_ports test pcs ids else Ok false
  end.

(** [(room + 63) & ~(size_t)63]. *)
Definition large_room (max_mtu : Z) : Z := Z.ldiff (128 + max_mtu + 26 + 63) 63.

Definition mtu_in_range (c : config) (pc : port_cfg) : res bool :=
  Ok (negb ((pc_mtu pc <? FF_MTU_MIN) || (max_mtu c <? pc_mtu pc))).
Definition mtu_default (pc : port_cfg) : res bool := Ok (negb (FF_MTU_DEFAULT <? pc_mtu pc)).

Definition check_mtu (c : config) : res bool :=
  if mtu_enable c then
    if max_mtu c <? FF_MTU_DEFAULT then Ok false
    else if bool_decide (mbuf_mode c = FF_MBUF_MODE_LARGE) && (UINT16_MAX <? large_room (max_mtu c)) then Ok false
    else check_ports (mtu_in_range c) (port_cfgs c) (portid_list c)
  else check_ports mtu_default (port_cfgs c) (portid_list c).

Definition method_ok (o : option cstr) : bool :=
  match o with
  | Some m => strcasecmp_eq m (str "accept") || strcasecmp_eq m (str "reject")
  | None => true
  end.

Definition action_ok (o : option cstr) : bool :=
  match o with
  | Some a => strcasecmp_eq a (str "alltokni") || strcasecmp_eq a (str "alltoff") || strcasecmp_eq a (str "default")
  | None => true
  end.

(** The lengths and the path of the packet capture. *)
Definition with_pcap (c : config) : config :=
  mk_config (kni_enable c) (kni_method c) (kni_action c) (kni_owner_proc_id c)
    (if pcap_save_len c <? PCAP_SAVE_MINLEN then PCAP_SAVE_MINLEN else pcap_save_len c)
    (if pcap_snap_len c <? PCAP_SNAP_MINLEN then PCAP_SNAP_MINLEN else pcap_snap_len c)
    (match pcap_save_path c with None | Some [] => Some (str ".") | p => p end)
    (cores c) (nb_threads c) (lcore_mask c) (proc_type c) (primary_slim c) (thread_mode c)
    (portid_list c) (port_cfgs c) (mtu_enable c) (max_mtu c) (mbuf_mode c).

(** One process with a thread for each core. *)
Definition with_threads (c : config) : config :=
  mk_config (kni_enable c) (kni_method c) (kni_action c) (kni_owner_proc_id c)
    (pcap_save_len c) (pcap_snap_len c) (pcap_save_path c)
    (mk_lcores 0 (proc_lcore (cores c))
      (match lcore_mask c with Some m => Some m | None => proc_mask (cores c) end) 1)
    (nb_procs (cores c)) (lcore_mask c) (str "primary") (primary_slim c) (thread_mode c)
    (portid_list c) (port_cfgs c) (mtu_enable c) (max_mtu c) (mbuf_mode c).

(** The configuration and the result. *)
Definition ff_check_config (c : config) : res (config * Z) :=
  if kni_enable c && negb (is_set (kni_method c)) then Ok (c, -1)
  else if negb (method_ok (kni_method c)) then Ok (c, -1)
  else if negb (action_ok (kni_action c)) then Ok (c, -1)
  else
    let c := with_pcap c in
    let* ports := check_ports (check_port c) (port_cfgs c) (portid_list c) in
    if negb ports then Ok (c, -1)
    else
      let* mtu := check_mtu c in
      if negb mtu then Ok (c, -1)
      else if primary_slim c && thread_mode c then Ok (c, -1)
      else if primary_slim c && (nb_procs (cores c) <? 2) then Ok (c, -1)
      else if thread_mode c then
        if bool_decide (proc_type c = str "secondary") then Ok (c, -1)
        else Ok (with_threads c, 0)
      else Ok (c, 0).
End Config.
