(* ===== verification/ConfigProofs.v ===== *)
(** * Proofs about the configuration

    The mask of cores is read as the set of its bits, lists and ranges as the
    sorted list of their numbers, and the check accepts exactly the
    configurations that are consistent. *)

From stdpp Require Import strings sorting.
From S2P Require Import Prelude CString Config.

Import Config.

(** ** The mask of cores *)

(** The bits of [v] below [n], in order. *)
Definition bits_below (v n : Z) : list Z := filter (fun i => Z.testbit v i = true) (seqZ 0 n).

(** The value of hexadecimal digits, the first one lowest. *)
Fixpoint hex_le (ds : cstr) : Z :=
  match ds with
  | [] => 0
  | c :: ds => xdigit2val c + 16 * hex_le ds
  end.

Definition hex_value (ds : cstr) : Z := hex_le (reverse ds).

Definition hex_digits (ds : cstr) : Prop := Forall (fun c => isxdigit c = true) ds.

Lemma xdigit_range c : isxdigit c = true -> 0 <= xdigit2val c < 16.
Proof. unfold isxdigit, xdigit2val, isdigit, isupper. intros H. repeat case_match; lia. Qed.

Lemma xdigit_zero c : isxdigit c = true -> xdigit2val c = 0 <-> c = 48.
Proof. unfold isxdigit, xdigit2val, isdigit, isupper. intros H. repeat case_match; lia. Qed.

Lemma hex_le_nonneg ds : hex_digits ds -> 0 <= hex_le ds.
Proof. induction 1 as [|c ds Hc _ IH]; cbn; [lia|]. apply xdigit_range in Hc. lia. Qed.

Lemma hex_le_zero ds : hex_digits ds -> forallb (fun c => c =? 48) ds = true <-> hex_le ds = 0.
Proof.
  induction 1 as [|c ds Hc Hd IH]; [done|]. cbn [forallb hex_le].
  pose proof (xdigit_range c Hc). pose proof (xdigit_zero c Hc) as Hz. pose proof (hex_le_nonneg ds Hd).
  rewrite andb_true_iff, Z.eqb_eq, IH. split; [intros [-> ?]|]; [|intros; split]; try (apply Hz); lia || (rewrite (proj2 Hz); lia).
Qed.

Lemma bits_below_S v n : 0 <= n -> bits_below v (n + 1) = bits_below v n ++ if Z.testbit v n then [n] else [].
Proof.
  intros Hn. unfold bits_below. replace (n + 1) with (Z.of_nat (S (Z.to_nat n))) by lia.
  rewrite seqZ_S, Z2Nat.id, filter_app, Z.add_0_l by lia. f_equal. rewrite filter_cons, filter_nil.
  by destruct (Z.testbit v n).
Qed.

Lemma bits_below_length v n : 0 <= n -> Z.of_nat (length (bits_below v n)) <= n.
Proof.
  intros Hn. pose proof (length_filter (fun i => Z.testbit v i = true) (seqZ 0 n)) as H.
  rewrite length_seqZ in H. unfold bits_below. lia.
Qed.

Lemma bits_below_high v n m : 0 <= n <= m -> v / 2 ^ n = 0 -> bits_below v m = bits_below v n.
Proof.
  intros Hn Hv. unfold bits_below. rewrite <- (Zplus_minus n m), seqZ_app, filter_app by lia.
  assert (filter (fun i => Z.testbit v i = true) (seqZ (0 + n) (m - n)) = []) as ->; [|apply app_nil_r].
  apply filter_none, Forall_forall. intros i Hi%elem_of_seqZ.
  rewrite <- (Z.sub_add n i), <- Z.div_pow2_bits, Hv, Z.bits_0 by lia. done.
Qed.

Lemma land_bit j v : 0 <= j -> negb (Z.land (Z.shiftl 1 j) v =? 0) = Z.testbit v j.
Proof.
  intros Hj. rewrite Z.shiftl_1_l, Z.land_comm.
  destruct (Z.testbit v j) eqn:E; [apply negb_true_iff, Z.eqb_neq|apply negb_false_iff, Z.eqb_eq].
  - intros H. apply (f_equal (fun x => Z.testbit x j)) in H. rewrite Z.land_spec, E, Z.pow2_bits_true, Z.bits_0 in H by lia. done.
  - apply Z.bits_inj'. intros k Hk. rewrite Z.land_spec, Z.bits_0, Z.pow2_bits_eqb by lia.
    destruct (Z.eqb_spec j k) as [<-|]; [by rewrite E|by rewrite andb_false_r].
Qed.

Section Mask.
Variables (RTE_MAX_LCORE M : Z).
Hypothesis Hmax : RTE_MAX_LCORE = 4 * M.
Hypothesis Hpos : 0 < M.

(** The mask of the process: that of its core, when it has one. *)
Definition own_mask (pid : Z) (old : option cstr) (l : list Z) : option cstr :=
  if decide (0 <= pid) then
    match l !! Z.to_nat pid with Some i => Some (core_mask RTE_MAX_LCORE i) | None => old end
  else old.

(** The state when the bits of [v] below [idx] have been read. *)
Definition cores_read (v idx : Z) (s0 s : lcores) (count : Z) : Prop :=
  let l := bits_below v idx in
  count = Z.of_nat (length l) /\
  s = mk_lcores (proc_id s0) (l ++ replicate (Z.to_nat RTE_MAX_LCORE - length l) 0)
        (own_mask (proc_id s0) (proc_mask s0) l) (nb_procs s0).

Lemma own_mask_snoc pid old l i :
  (if pid =? Z.of_nat (length l) then Some (core_mask RTE_MAX_LCORE i) else own_mask pid old l) =
  own_mask pid old (l ++ [i]).
Proof.
  unfold own_mask. destruct (Z.eqb_spec pid (Z.of_nat (length l))) as [->|Hne].
  - rewrite decide_True by lia. by rewrite Nat2Z.id, lookup_app_r, Nat.sub_diag by done.
  - case_decide; [|done]. destruct (decide (Z.to_nat pid < length l)%nat).
    + by rewrite lookup_app_l.
    + rewrite !(lookup_ge_None_2 _ (Z.to_nat pid)); [done| |]; rewrite ?length_app; cbn; lia.
Qed.

Lemma mask_bits_spec v val base s0 k j s count :
  0 <= base -> base + 4 <= RTE_MAX_LCORE -> 0 <= j -> j + Z.of_nat k = 4 ->
  (forall i, 0 <= i < 4 -> Z.testbit v (base + i) = Z.testbit val i) ->
  cores_read v (base + j) s0 s count ->
  exists s' count', mask_bits RTE_MAX_LCORE k j val s (base + j) count = Ok (s', base + 4, count') /\
    cores_read v (base + 4) s0 s' count'.
Proof.
  intros Hb Hm. revert j s count. induction k as [|k IH]; intros j s count Hj Hk Hv Hr.
  { assert (j = 4) as -> by lia. by exists s, count. }
  cbn [mask_bits]. destruct (Z.ltb_spec (base + j) RTE_MAX_LCORE); [|lia]. rewrite land_bit by done.
  pose proof (bits_below_S v (base + j) ltac:(lia)) as HS. rewrite Hv in HS by lia.
  pose proof (bits_below_length v (base + j) ltac:(lia)) as Hlen. destruct Hr as [-> ->]. cbn [proc_lcore proc_id proc_mask nb_procs].
  replace (base + j + 1) with (base + (j + 1)) in * by lia. destruct (Z.testbit val j).
  - rewrite array_set_lt by (rewrite length_app, length_replicate; lia). cbn [res_bind].
    rewrite Nat2Z.id, insert_app_r_alt, Nat.sub_diag by lia.
    destruct (Z.to_nat RTE_MAX_LCORE - length (bits_below v (base + j)))%nat as [|n] eqn:En; [lia|].
    cbn [replicate insert list_insert]. apply IH; [lia|lia|done|]. unfold cores_read. rewrite HS, length_app.
    cbn [length]. split; [lia|]. f_equal.
    + rewrite <- app_assoc. cbn [app]. do 2 f_equal. f_equal. lia.
    + by rewrite own_mask_snoc.
  - rewrite app_nil_r in HS. apply IH; [lia|lia|done|]. unfold cores_read. by rewrite HS.
Qed.

Lemma mask_digits_spec v s0 ds n s count :
  hex_digits ds -> 0 <= n -> n <= M -> 0 <= v -> v / 2 ^ (4 * n) = hex_le ds ->
  cores_read v (4 * n) s0 s count ->
  exists s' rest, let count' := Z.of_nat (length (bits_below v RTE_MAX_LCORE)) in
    mask_digits RTE_MAX_LCORE ds s (4 * n) count = Ok (s', Some (rest, count')) /\
    cores_read v RTE_MAX_LCORE s0 s' count' /\ hex_digits rest /\ hex_le rest = v / 2 ^ RTE_MAX_LCORE.
Proof.
  intros Hd. revert n s count. induction Hd as [|c ds Hc Hd IH]; intros n s count Hn Hnm Hv Hdiv Hr.
  - cbn in Hdiv. pose proof (bits_below_high v (4 * n) RTE_MAX_LCORE ltac:(lia) Hdiv) as Hb.
    exists s, []. cbn. rewrite Hb. split; [by destruct Hr as [-> _]|]. split; [|split; [constructor|]].
    + unfold cores_read in *. rewrite Hb. split; [done|]. by destruct Hr as [_ ->].
    + symmetry. apply Z.div_small. apply Z.div_small_iff in Hdiv; [|lia].
      assert (2 ^ (4 * n) <= 2 ^ RTE_MAX_LCORE) by (apply Z.pow_le_mono_r; lia). lia.
  - cbn [mask_digits]. destruct (Z.ltb_spec (4 * n) RTE_MAX_LCORE).
    + rewrite Hc. cbn [negb]. pose proof (xdigit_range c Hc) as Hx. cbn [hex_le] in Hdiv.
      destruct (mask_bits_spec v (xdigit2val c) (4 * n) s0 4 0 s count) as (s' & count' & Hmb & Hr'); try lia.
      * intros i Hi. rewrite Z.add_comm, <- Z.div_pow2_bits, Hdiv by lia. rewrite Z.add_comm.
        replace (16 * hex_le ds + xdigit2val c) with (xdigit2val c + hex_le ds * 2 ^ 4) by lia.
        rewrite <- (Z.mod_pow2_bits_low _ 4) by lia. rewrite Z.mod_add, Z.mod_pow2_bits_low by lia. done.
      * by rewrite Z.add_0_r.
      * rewrite Z.add_0_r in Hmb. rewrite Hmb. cbn [res_bind].
        replace (4 * n + 4) with (4 * (n + 1)) in * by lia. apply IH; [lia|lia|done| |done].
        replace (4 * (n + 1)) with (4 * n + 4) by lia. rewrite Z.pow_add_r, <- Z.div_div, Hdiv by lia.
        change (2 ^ 4) with 16. rewrite (Z.mul_comm 16), Z.div_add, Z.div_small by lia. lia.
    + assert (4 * n = RTE_MAX_LCORE) as E by lia. rewrite E in *. exists s, (c :: ds). cbn zeta.
      pose proof Hr as [-> _]. split; [done|]. split; [done|]. split; [by constructor|done].
Qed.

(** The mask of a core is the number with its bit. *)
Lemma hex_le_zeros n ds : hex_le (replicate n 48 ++ ds) = 16 ^ Z.of_nat n * hex_le ds.
Proof.
  induction n as [|n IH]; [cbn; lia|]. cbn [replicate app hex_le]. rewrite IH. change (xdigit2val 48) with 0.
  rewrite Nat2Z.inj_succ, Z.pow_succ_r by lia. lia.
Qed.

Lemma core_mask_value i : 0 <= i < RTE_MAX_LCORE -> hex_value (core_mask RTE_MAX_LCORE i) = 2 ^ i.
Proof.
  intros Hi. unfold core_mask. rewrite Z.shiftr_div_pow2 by lia. change (2 ^ 2) with 4. change 3 with (2 ^ 2 - 1).
  rewrite land_mask by lia. change (2 ^ 2) with 4. pose proof (Z.mod_pos_bound i 4). pose proof (Z.div_mod i 4).
  assert (0 <= i / 4 < M) by (split; [apply Z.div_pos; lia|apply Z.div_lt_upper_bound; lia]).
  rewrite take_ge by (cbn; rewrite length_replicate; lia). unfold hex_value.
  rewrite reverse_cons, reverse_replicate, hex_le_zeros, Z2Nat.id by lia. cbn [hex_le].
  rewrite Z.shiftl_1_l. replace (2 ^ i) with (16 ^ (i / 4) * 2 ^ (i mod 4)).
  - f_equal. rewrite Z.mul_0_r, Z.add_0_r. assert (i mod 4 = 0 \/ i mod 4 = 1 \/ i mod 4 = 2 \/ i mod 4 = 3) as Hm by lia.
    by destruct Hm as [-> | [-> | [-> | ->]]].
  - change 16 with (2 ^ 4). rewrite <- Z.pow_mul_r, <- Z.pow_add_r by lia. f_equal. lia.
Qed.

Definition blanks (s : cstr) : Prop := Forall (fun c => isblank c = true) s.

Lemma skip_blanks b s : blanks b -> skip_blank (b ++ s) = skip_blank s.
Proof. induction 1 as [|c b Hc _ IH]; [done|]. cbn. by rewrite Hc. Qed.

Lemma xdigit_not c : isxdigit c = true -> isblank c = false /\ c <> 120 /\ c <> 88.
Proof. unfold isxdigit, isdigit, isblank. lia. Qed.

Lemma skip_to_digits b1 pre ds b2 :
  blanks b1 -> blanks b2 -> pre ∈ [[]; [48; 120]; [48; 88]] -> ds <> [] -> hex_digits ds ->
  digits_back (skip_0x (skip_blank (b1 ++ pre ++ ds ++ b2))) = reverse ds.
Proof.
  intros H1 H2 Hp Hne Hd. rewrite skip_blanks by done.
  assert (skip_0x (skip_blank (pre ++ ds ++ b2)) = ds ++ b2) as ->.
  { destruct ds as [|c ds]; [done|]. apply Forall_cons in Hd as [Hc Hd].
    destruct (xdigit_not c Hc) as [Hb Hx]. rewrite !elem_of_cons, elem_of_nil in Hp.
    destruct Hp as [-> | [-> | [-> |[]]]]; [|done|done]. cbn [app skip_blank]. rewrite Hb. cbn [skip_0x].
    destruct (ds ++ b2) as [|c' r] eqn:E; [done|]. assert (c' <> 120 /\ c' <> 88) as [E1 E2].
    { destruct ds as [|c'' ds]; cbn in E.
      - destruct b2 as [|x b2]; [done|]. injection E as -> _. apply Forall_cons in H2 as [Hx' _]. unfold isblank in Hx'. lia.
      - injection E as -> _. apply Forall_cons in Hd as [Hc' _]. apply xdigit_not, Hc'. }
    destruct (Z.eqb_spec c' 120); [done|]. destruct (Z.eqb_spec c' 88); [done|]. cbn. by rewrite andb_false_r. }
  unfold digits_back. rewrite reverse_app, skip_blanks by (unfold blanks; by rewrite Forall_reverse).
  destruct (exists_last Hne) as (l & c & ->). rewrite reverse_snoc. cbn. apply Forall_app in Hd as [_ Hd].
  apply Forall_cons in Hd as [Hc _]. by rewrite (proj1 (xdigit_not c Hc)).
Qed.

Lemma bits_below_lt v n i c : 0 <= n -> bits_below v n !! i = Some c -> 0 <= c < n.
Proof. intros Hn Hi. apply list_elem_of_lookup_2, list_elem_of_filter in Hi as [_ Hi%elem_of_seqZ]. lia. Qed.

Lemma bits_below_sorted v n : 0 <= n -> StronglySorted Z.le (bits_below v n).
Proof.
  intros Hn. pattern n. apply natlike_ind; [constructor| |done]. clear n Hn. intros n Hn IH.
  unfold Z.succ. rewrite bits_below_S by done. apply StronglySorted_app_2; [|done|by destruct (Z.testbit v n); repeat constructor].
  intros x y [i Hx]%list_elem_of_lookup Hy. apply (bits_below_lt v n i x Hn) in Hx.
  destruct (Z.testbit v n); [apply list_elem_of_singleton in Hy as ->; lia|by apply elem_of_nil in Hy].
Qed.

(** When the mask is accepted. *)
Definition mask_ok (pid v : Z) : Prop :=
  v < 2 ^ RTE_MAX_LCORE /\ pid < Z.of_nat (length (bits_below v RTE_MAX_LCORE)).

Lemma parse_mask_spec s b1 pre ds b2 :
  blanks b1 -> blanks b2 -> pre ∈ [[]; [48; 120]; [48; 88]] -> ds <> [] -> hex_digits ds ->
  let v := hex_value ds in
  let cores := bits_below v RTE_MAX_LCORE in
  exists r s', parse_lcore_mask RTE_MAX_LCORE s (b1 ++ pre ++ ds ++ b2) = Ok (r, s') /\
    ((r = 1 /\ mask_ok (proc_id s) v) \/ (r = 0 /\ ~ mask_ok (proc_id s) v)) /\
    (r = 1 -> s' = mk_lcores (proc_id s) (cores ++ replicate (Z.to_nat RTE_MAX_LCORE - length cores) 0)
      (own_mask (proc_id s) (proc_mask s) cores) (Z.of_nat (length cores))).
Proof.
  intros H1 H2 Hp Hne Hd v cores. unfold parse_lcore_mask. rewrite skip_to_digits by done.
  rewrite bool_decide_false by (intros E; apply Hne; by rewrite <- (reverse_involutive ds), E).
  assert (hex_digits (reverse ds)) as Hdr by (unfold hex_digits; by rewrite Forall_reverse).
  assert (0 <= v) as Hv by (by apply hex_le_nonneg).
  set (s0 := mk_lcores _ _ _ _).
  destruct (mask_digits_spec v s0 (reverse ds) 0 s0 0 Hdr) as (s' & rest & Hmd & [_ Hs'] & Hrd & Hrest); try lia.
  - rewrite Z.mul_0_r, Z.pow_0_r, Z.div_1_r. done.
  - unfold cores_read, own_mask, s0. cbn. rewrite Nat.sub_0_r. split; [done|]. by case_decide.
  - cbn zeta in Hmd. rewrite Z.mul_0_r in Hmd. rewrite Hmd. cbn [res_bind]. fold cores in Hs' |- *.
    pose proof (hex_le_zero rest Hrd) as Hz. rewrite Hrest in Hz.
    assert (0 < 2 ^ RTE_MAX_LCORE) by (apply Z.pow_pos_nonneg; lia).
    assert (v / 2 ^ RTE_MAX_LCORE = 0 <-> v < 2 ^ RTE_MAX_LCORE) as Hdv by (rewrite Z.div_small_iff by lia; lia).
    subst s'. cbn [proc_id proc_lcore proc_mask nb_procs s0]. unfold mask_ok. fold cores.
    destruct (forallb _ rest) eqn:Ef; cbn [negb].
    + destruct (Z.leb_spec (Z.of_nat (length cores)) (proc_id s)).
      * eexists 0, _. split; [done|]. split; [right; split; [done|lia]|done].
      * eexists 1, _. split; [done|]. split; [left; split; [done|]; split; [|lia]|done]. by apply Hdv, Hz.
    + eexists 0, _. split; [done|]. split; [|done]. right. split; [done|]. intros [Hlt _].
      apply Hdv, Hz in Hlt. congruence.
Qed.
End Mask.

(** ** Searching *)

Lemma binary_search_spec n fuel arr l r x :
  StronglySorted Z.le (take n arr) -> (n <= length arr)%nat ->
  0 <= l <= r + 1 -> r < Z.of_nat n -> r - l + 1 < Z.of_nat fuel ->
  exists i, uint16_binary_search fuel arr l r x = Ok i /\
    ((l <= i <= r /\ arr !! Z.to_nat i = Some x) \/
     (i = -1 /\ forall j, l <= j <= r -> arr !! Z.to_nat j <> Some x)).
Proof.
  intros Hs Hn. revert l r. induction fuel as [|fuel IH]; intros l r Hl Hr Hf.
  { lia. }
  cbn [uint16_binary_search]. destruct (Z.leb_spec l r) as [Hlr|Hlr].
  2: { exists (-1). split; [done|]. right. split; [done|]. lia. }
  rewrite Z.quot_div_nonneg by lia. set (mid := l + (r - l) / 2).
  assert (l <= mid <= r) as Hmid.
  { unfold mid. pose proof (Z.div_pos (r - l) 2 ltac:(lia) ltac:(lia)). pose proof (Z.div_le_upper_bound (r - l) 2 (r - l)). lia. }
  destruct (array_get_lt arr mid) as (v & -> & Hv); [lia|]. cbn [res_bind].
  assert (forall i j a b, (i <= j < n)%nat -> arr !! i = Some a -> arr !! j = Some b -> a <= b) as Hsort.
  { intros i j a b Hij Ha Hb. destruct (decide (i = j)) as [->|]; [assert (a = b) by congruence; lia|].
    eapply (StronglySorted_app_1_elem_of Z.le (take j (take n arr)) (drop j (take n arr))).
    - by rewrite take_drop.
    - apply (list_elem_of_lookup_2 _ i). by rewrite !lookup_take_lt by lia.
    - apply (list_elem_of_lookup_2 _ 0%nat). by rewrite lookup_drop, Nat.add_0_r, lookup_take_lt by lia. }
  destruct (Z.eqb_spec v x) as [->|Hne]; [exists mid; split; [done|by left]|].
  destruct (Z.ltb_spec x v).
  - destruct (IH l (mid - 1)) as (i & Hi & Hc); [lia|lia|lia|]. exists i. split; [done|].
    destruct Hc as [[? ?]|[-> Hno]]; [left; split; [lia|done]|right]. split; [done|]. intros j Hj Hx.
    destruct (decide (j <= mid - 1)); [apply (Hno j); [lia|done]|]. assert (Z.to_nat mid <= Z.to_nat j < n)%nat as Hij by lia. specialize (Hsort _ _ _ _ Hij Hv Hx). lia.
  - destruct (IH (mid + 1) r) as (i & Hi & Hc); [lia|lia|lia|]. exists i. split; [done|].
    destruct Hc as [[? ?]|[-> Hno]]; [left; split; [lia|done]|right]. split; [done|]. intros j Hj Hx.
    destruct (decide (mid + 1 <= j)); [apply (Hno j); [lia|done]|]. assert (Z.to_nat j <= Z.to_nat mid < n)%nat as Hij by lia. specialize (Hsort _ _ _ _ Hij Hx Hv). lia.
Qed.

(** ** Lists of numbers and ranges *)

Definition sps (s : cstr) : Prop := Forall (fun c => c = 32) s.

(** A number or a range, with the spaces around its numbers. *)
Inductive list_item :=
| Single (l : cstr) (n : Z) (r : cstr)
| Range (l1 : cstr) (a : Z) (r1 l2 : cstr) (b : Z) (r2 : cstr).

Definition print_item (it : list_item) : cstr :=
  match it with
  | Single l n r => l ++ show_dec n ++ r
  | Range l1 a r1 l2 b r2 => (l1 ++ show_dec a ++ r1) ++ 45 :: l2 ++ show_dec b ++ r2
  end.

Definition numbers (it : list_item) : list Z :=
  match it with
  | Single _ n _ => [n]
  | Range _ a _ _ b _ => seqZ a (b - a + 1)
  end.

Definition item_ok (it : list_item) : Prop :=
  match it with
  | Single l n r => sps l /\ sps r /\ 0 <= n < 2 ^ 16
  | Range l1 a r1 l2 b r2 => sps l1 /\ sps r1 /\ sps l2 /\ sps r2 /\ 0 <= a < 2 ^ 16 /\ 0 <= b < 2 ^ 16
  end.

Fixpoint join (toks : list cstr) : cstr :=
  match toks with
  | [] => []
  | [t] => t
  | t :: ts => t ++ 44 :: join ts
  end.

Definition print_list (items : list list_item) : cstr := join (print_item <$> items).

Lemma cut_at_none c s : Forall (fun x => x <> c) s -> cut_at c s = (s, None).
Proof. induction 1 as [|x s Hx _ IH]; [done|]. cbn. destruct (Z.eqb_spec x c); [done|]. by rewrite IH. Qed.

Lemma cut_at_some c s r : Forall (fun x => x <> c) s -> cut_at c (s ++ c :: r) = (s, Some r).
Proof.
  induction 1 as [|x s Hx _ IH]; cbn; [by rewrite Z.eqb_refl|]. destruct (Z.eqb_spec x c); [done|]. by rewrite IH.
Qed.

Lemma strsplit_join n toks :
  Forall (fun t => t <> [] /\ Forall (fun x => x <> 44) t) toks -> (length toks <= n)%nat ->
  rte_strsplit n 44 (join toks) = toks.
Proof.
  revert n. induction toks as [|t toks IH]; intros n Ht Hn; [by destruct n as [|[|n]]|].
  apply Forall_cons in Ht as [[Hne Hc] Ht]. cbn [length] in Hn. destruct n as [|n]; [lia|].
  destruct toks as [|t' toks].
  - cbn [join]. destruct t as [|x t]; [done|]. cbn [rte_strsplit]. destruct n as [|n].
    + apply Forall_cons in Hc as [Hx _]. by destruct (Z.eqb_spec x 44).
    + by rewrite cut_at_none.
  - destruct n as [|n]; [cbn in Hn; lia|]. change (join (t :: t' :: toks)) with (t ++ 44 :: join (t' :: toks)).
    specialize (IH (S n) Ht ltac:(cbn in *; lia)). remember (join (t' :: toks)) as rest eqn:Er.
    remember (S n) as n' eqn:En. destruct t as [|x t]; [done|]. cbn [rte_strsplit app]. rewrite En at 1.
    change (x :: t ++ 44 :: rest) with ((x :: t) ++ 44 :: rest). rewrite cut_at_some by done. by rewrite IH.
Qed.

Lemma skip_sps a s : sps a -> skip_sp (a ++ s) = skip_sp s.
Proof. induction 1 as [|c a -> _ IH]; [done|]. exact IH. Qed.

Lemma digits_ends s : s <> [] -> Forall (fun c => isdigit c = true) s -> skip_sp s = s.
Proof.
  intros Hne Hd. destruct s as [|c s]; [done|]. apply Forall_cons in Hd as [Hc _]. cbn.
  destruct (Z.eqb_spec c 32) as [->|]; done.
Qed.

Lemma strstrip_number l n r : 0 <= n -> sps l -> sps r -> strstrip (l ++ show_dec n ++ r) = show_dec n.
Proof.
  intros Hn Hl Hr. pose proof (show_dec_digits n Hn) as Hd. pose proof (show_dec_nonempty n) as Hne.
  unfold strstrip. rewrite skip_sps by done.
  assert (skip_sp (show_dec n ++ r) = show_dec n ++ r) as ->.
  { destruct (show_dec n) as [|c s]; [done|]. apply Forall_cons in Hd as [Hc _]. cbn.
    destruct (Z.eqb_spec c 32) as [->|]; done. }
  rewrite reverse_app, skip_sps by (unfold sps; by rewrite Forall_reverse).
  rewrite digits_ends, reverse_involutive; [done| |by rewrite Forall_reverse].
  intros E. apply Hne. by rewrite <- (reverse_involutive (show_dec n)), E.
Qed.

Lemma skip_all_digits s : Forall (fun c => isdigit c = true) s -> skip_digits s = [].
Proof. induction 1 as [|c s Hc _ IH]; [done|]. cbn. by rewrite Hc. Qed.

Lemma whole_number_show n : 0 <= n < 2 ^ 31 -> whole_number (show_dec n) = Some n.
Proof.
  intros Hn. pose proof (show_dec_digits n ltac:(lia)) as Hd. pose proof (show_dec_nonempty n) as Hne.
  pose proof (dec_value_show n [] ltac:(lia) I) as Hv. rewrite app_nil_r in Hv.
  unfold whole_number, strtol_end, strtol10. destruct (show_dec n) as [|c s]; [done|].
  pose proof Hd as [Hc _]%Forall_cons. destruct (digit_not_space c Hc) as (Hsp & H1 & H2).
  cbn [skip_space]. rewrite Hsp. destruct (Z.eqb_spec c 45); [done|]. destruct (Z.eqb_spec c 43); [done|]. cbn [orb].
  rewrite Hc, skip_all_digits by done. rewrite Hv. unfold LONG_MIN, LONG_MAX. f_equal. lia.
Qed.

(** Writing behind what is there. *)
Lemma put_ele_spec dn x rest v :
  put_ele (dn ++ x :: rest) (Z.of_nat (length dn)) (Z.of_nat (length (dn ++ x :: rest))) v =
  Ok (Some ((dn ++ [u16 v]) ++ rest)).
Proof.
  unfold put_ele. rewrite length_app. cbn [length]. destruct (Z.ltb_spec (Z.of_nat (length dn + S (length rest))) (Z.of_nat (length dn))); [lia|].
  rewrite array_set_lt by (rewrite length_app; cbn; lia). rewrite Nat2Z.id, insert_app_r_alt, Nat.sub_diag by done.
  by rewrite <- app_assoc.
Qed.

Lemma u16_small v : 0 <= v < 2 ^ 16 -> u16 v = v.
Proof. intros Hv. by apply (wrapu_small 16). Qed.

Lemma put_range_spec k fuel dn rest j b :
  (k <= length rest)%nat -> (k < fuel)%nat -> 0 <= j -> 0 <= b < 2 ^ 16 -> Z.of_nat k = Z.max 0 (b - j + 1) ->
  j <= 2 ^ 16 ->
  put_range fuel (dn ++ rest) (Z.of_nat (length dn)) (Z.of_nat (length (dn ++ rest))) j b =
  Ok (Some (dn ++ seqZ j (Z.of_nat k) ++ drop k rest, Z.of_nat (length dn + k))).
Proof.
  revert fuel dn rest j. induction k as [|k IH]; intros fuel dn rest j Hk Hf Hj Hb Hkb Hj'.
  - destruct fuel as [|fuel]; [lia|]. cbn [put_range]. destruct (Z.leb_spec j b); [lia|].
    cbn [Z.of_nat seqZ]. by rewrite Nat.add_0_r.
  - destruct fuel as [|fuel]; [lia|]. cbn [put_range]. destruct (Z.leb_spec j b); [|lia].
    destruct rest as [|x rest]; [cbn in Hk; lia|]. rewrite put_ele_spec. cbn [res_bind].
    assert (s32 (j + 1) = j + 1) as -> by (apply (wraps_small 32); lia).
    replace (Z.of_nat (length dn) + 1) with (Z.of_nat (length (dn ++ [u16 j]))) by (rewrite length_app; cbn; lia).
    replace (length (dn ++ x :: rest)) with (length ((dn ++ [u16 j]) ++ rest)) by (rewrite !length_app; cbn; lia).
    cbn [length] in Hk. rewrite IH by lia. rewrite u16_small, <- app_assoc, length_app by lia. cbn [length drop].
    rewrite (seqZ_cons j) by lia. cbn [app]. do 4 f_equal; [|lia]. do 4 f_equal; lia.
Qed.

Lemma no_dash l n r : sps l -> sps r -> 0 <= n -> Forall (fun x => x <> 45) (l ++ show_dec n ++ r).
Proof.
  intros Hl Hr Hn. rewrite !Forall_app. split; [|split].
  - eapply Forall_impl; [exact Hl|]. by intros x ->.
  - eapply Forall_impl; [exact (show_dec_digits n Hn)|]. unfold isdigit. cbn. lia.
  - eapply Forall_impl; [exact Hr|]. by intros x ->.
Qed.

Lemma put_token_spec it dn rest :
  item_ok it -> (length (numbers it) <= length rest)%nat ->
  put_token (dn ++ rest) (Z.of_nat (length dn)) (Z.of_nat (length (dn ++ rest))) (print_item it) =
  Ok (Some ((dn ++ numbers it) ++ drop (length (numbers it)) rest, Z.of_nat (length (dn ++ numbers it)))).
Proof.
  intros Hok Hlen. unfold put_token. destruct it as [l n r|l1 a r1 l2 b r2]; cbn [print_item numbers] in *.
  - destruct Hok as (Hl & Hr & Hn). rewrite cut_at_none by (by apply no_dash; [..|lia]).
    rewrite strstrip_number, whole_number_show by (done || lia).
    destruct rest as [|x rest]; [cbn in Hlen; lia|]. rewrite put_ele_spec. cbn [res_bind fmap option_fmap option_map].
    rewrite u16_small, length_app by done. cbn [length drop]. do 4 f_equal. lia.
  - destruct Hok as (H1 & H2 & H3 & H4 & Ha & Hb). rewrite cut_at_some by (by apply no_dash; [..|lia]).
    rewrite !strstrip_number, !whole_number_show by (done || lia).
    assert (s32 a = a) as -> by (apply (wraps_small 32); lia).
    rewrite length_seqZ in *. rewrite (put_range_spec (Z.to_nat (b - a + 1))); [|lia|rewrite length_app; lia|lia|lia|lia|lia].
    rewrite length_app, length_seqZ, <- app_assoc. do 5 f_equal.
    destruct (decide (0 <= b - a + 1)); [by rewrite Z2Nat.id|]. rewrite !seqZ_nil; [done|lia|lia].
Qed.

Lemma put_tokens_spec items dn rest :
  Forall item_ok items -> let nums := concat (numbers <$> items) in
  (length nums <= length rest)%nat ->
  put_tokens (dn ++ rest) (Z.of_nat (length dn)) (Z.of_nat (length (dn ++ rest))) (print_item <$> items) =
  Ok (Some ((dn ++ nums) ++ drop (length nums) rest, Z.of_nat (length (dn ++ nums)))).
Proof.
  intros Hok. revert dn rest. induction Hok as [|it items Hit _ IH]; intros dn rest nums Hlen.
  - cbn. by rewrite app_nil_r.
  - cbn [fmap list_fmap put_tokens]. unfold nums in *. cbn [fmap list_fmap concat] in *. rewrite length_app in Hlen.
    rewrite put_token_spec by (done || lia). cbn [res_bind].
    specialize (IH (dn ++ numbers it) (drop (length (numbers it)) rest)). cbn zeta in IH.
    replace (length (dn ++ rest)) with (length ((dn ++ numbers it) ++ drop (length (numbers it)) rest))
      by (rewrite !length_app, length_drop; lia).
    rewrite IH by (rewrite length_drop; lia). by rewrite drop_drop, <- !app_assoc, !length_app.
Qed.

Lemma sort_spec nums rest :
  exists l, sort_uint16_array (nums ++ rest) (Z.of_nat (length nums)) = l ++ rest /\ l ≡ₚ nums /\ StronglySorted Z.le l.
Proof.
  exists (merge_sort Z.le nums). unfold sort_uint16_array.
  rewrite Nat2Z.id, take_app_length, drop_app_length. split; [done|].
  split; [apply merge_sort_Permutation|]. apply Sorted_StronglySorted, Sorted_merge_sort; typeclasses eauto.
Qed.

Lemma print_item_token it : item_ok it -> print_item it <> [] /\ Forall (fun x => x <> 44) (print_item it).
Proof.
  intros Hok. assert (forall l n r, sps l -> sps r -> 0 <= n -> Forall (fun x => x <> 44) (l ++ show_dec n ++ r)) as Hc.
  { intros l n r Hl Hr Hn. rewrite !Forall_app. split; [|split].
    - eapply Forall_impl; [exact Hl|]. by intros x ->.
    - eapply Forall_impl; [exact (show_dec_digits n Hn)|]. unfold isdigit. cbn. lia.
    - eapply Forall_impl; [exact Hr|]. by intros x ->. }
  destruct it as [l n r|l1 a r1 l2 b r2]; cbn [print_item item_ok] in *.
  - destruct Hok as (Hl & Hr & Hn). split; [|apply Hc; done || lia]. pose proof (show_dec_nonempty n) as Hne.
    destruct l; [|done]. by destruct (show_dec n).
  - destruct Hok as (H1 & H2 & H3 & H4 & Ha & Hb). split; [by destruct (l1 ++ show_dec a ++ r1)|].
    apply Forall_app. split; [apply Hc; done || lia|]. constructor; [done|]. apply Hc; done || lia.
Qed.

(** ** The check *)

(** The cores of the processes. *)
Definition enabled (c : lcores) : list Z := take (Z.to_nat (nb_procs c)) (proc_lcore c).

Record lcores_ok (c : lcores) : Prop := {
  lo_sorted : StronglySorted Z.le (enabled c);
  lo_nb : 0 <= nb_procs c <= Z.of_nat (length (proc_lcore c))
}.

Definition port_lcores (pc : port_cfg) : list Z := take (Z.to_nat (pc_nb_lcores pc)) (pc_lcore_list pc).

Definition port_shape (pc : port_cfg) : Prop := 0 <= pc_nb_lcores pc <= Z.of_nat (length (pc_lcore_list pc)).

Lemma lcore_in_spec k j l x :
  (j + k <= length l)%nat -> lcore_in k (Z.of_nat j) l x = Ok (bool_decide (x ∈ take k (drop j l))).
Proof.
  revert j. induction k as [|k IH]; intros j Hk; [done|]. cbn [lcore_in].
  destruct (array_get_lt l (Z.of_nat j)) as (v & -> & Hv); [lia|]. rewrite Nat2Z.id in Hv. cbn [res_bind].
  rewrite (drop_S l v j Hv). cbn [take]. destruct (Z.eqb_spec v x) as [->|Hne].
  - by rewrite bool_decide_true by (by left).
  - replace (Z.of_nat j + 1) with (Z.of_nat (S j)) by lia. rewrite IH by lia. f_equal. apply bool_decide_ext.
    rewrite elem_of_cons. naive_solver.
Qed.

Lemma port_has pc x :
  port_shape pc -> lcore_in (Z.to_nat (pc_nb_lcores pc)) 0 (pc_lcore_list pc) x = Ok (bool_decide (x ∈ port_lcores pc)).
Proof. intros Hs. apply (lcore_in_spec _ 0). unfold port_shape in Hs. lia. Qed.

Lemma lcores_enabled_spec k j l c :
  lcores_ok c -> (j + k <= length l)%nat ->
  lcores_enabled k (Z.of_nat j) l c = Ok (bool_decide (Forall (fun x => x ∈ enabled c) (take k (drop j l)))).
Proof.
  intros [Hs Hn]. revert j. induction k as [|k IH]; intros j Hk; [by rewrite bool_decide_true by constructor|].
  cbn [lcores_enabled]. destruct (array_get_lt l (Z.of_nat j)) as (v & -> & Hv); [lia|]. rewrite Nat2Z.id in Hv. cbn [res_bind].
  rewrite (drop_S l v j Hv). cbn [take].
  destruct (binary_search_spec (Z.to_nat (nb_procs c)) (S (length (proc_lcore c))) (proc_lcore c) 0 (nb_procs c - 1) v)
    as (i & -> & Hi); [done|lia|lia|lia|lia|]. cbn [res_bind].
  assert (v ∈ enabled c <-> 0 <= i) as Hin.
  { unfold enabled. rewrite list_elem_of_lookup. destruct Hi as [[Hi Hx]|[-> Hno]].
    - split; [lia|]. intros _. exists (Z.to_nat i). by rewrite lookup_take_lt by lia.
    - split; [|lia]. intros (q & Hq). apply lookup_take_Some in Hq as [Hq Hlt].
      destruct (Hno (Z.of_nat q)); [lia|]. by rewrite Nat2Z.id. }
  destruct (Z.ltb_spec i 0).
  - rewrite bool_decide_false; [done|]. intros [Hv' _]%Forall_cons. apply Hin in Hv'. lia.
  - replace (Z.of_nat j + 1) with (Z.of_nat (S j)) by lia. rewrite IH by lia. f_equal. apply bool_decide_ext.
    rewrite Forall_cons. naive_solver.
Qed.

(** What the check asks of a port. *)
Record port_good (c : config) (pc : port_cfg) : Prop := {
  pg_addr : is_Some (pc_addr pc) /\ is_Some (pc_netmask pc) /\ is_Some (pc_broadcast pc) /\ is_Some (pc_gateway pc);
  pg_enabled : Forall (fun x => x ∈ enabled (cores c)) (port_lcores pc);
  pg_slim : primary_slim c = true -> proc_type c = str "primary" ->
    forall x, proc_lcore (cores c) !! Z.to_nat (proc_id (cores c)) = Some x -> x ∉ port_lcores pc;
  pg_owner : primary_slim c = true -> kni_enable c = true ->
    forall x, proc_lcore (cores c) !! Z.to_nat (kni_owner_proc_id c) = Some x -> x ∈ port_lcores pc;
  pg_kni : kni_enable c = true -> primary_slim c = false -> proc_type c = str "primary" ->
    forall x, proc_lcore (cores c) !! Z.to_nat (proc_id (cores c)) = Some x -> x ∈ port_lcores pc
}.

(** The arrays the check reads are there. *)
Record config_shape (c : config) : Prop := {
  cs_cores : lcores_ok (cores c);
  cs_proc_id : 0 <= proc_id (cores c) < Z.of_nat (length (proc_lcore (cores c)));
  cs_owner : 0 <= kni_owner_proc_id c < Z.of_nat (length (proc_lcore (cores c)));
  cs_ports : Forall (fun id => exists pc, 0 <= id /\ port_cfgs c !! Z.to_nat id = Some pc /\ port_shape pc) (portid_list c)
}.

Lemma is_set_Some o : is_set o = true <-> is_Some o.
Proof. destruct o; split; try done; by intros []. Qed.

Lemma check_port_spec c pc :
  config_shape c -> port_shape pc -> exists b, check_port c pc = Ok b /\ (b = true <-> port_good c pc).
Proof.
  intros [Hc Hid Hown _] Hs. unfold check_port.
  destruct (is_set (pc_addr pc) && is_set (pc_netmask pc) && is_set (pc_broadcast pc) && is_set (pc_gateway pc)) eqn:Ha; cbn [negb].
  2: { exists false. split; [done|]. split; [done|]. intros [(H1 & H2 & H3 & H4) _ _ _ _]. exfalso.
       apply is_set_Some in H1, H2, H3, H4. by rewrite H1, H2, H3, H4 in Ha. }
  rewrite !andb_true_iff, !is_set_Some in Ha.
  rewrite (lcores_enabled_spec _ 0) by (done || unfold port_shape in Hs; lia). cbn [res_bind]. fold (port_lcores pc). cbn [drop].
  destruct (array_get_lt (proc_lcore (cores c)) (proc_id (cores c)) Hid) as (own & Ho & Hox).
  destruct (array_get_lt (proc_lcore (cores c)) (kni_owner_proc_id c) Hown) as (ow & Hw & Hwx).
  rewrite Ho, Hw. cbn [res_bind]. rewrite !port_has by done. cbn [res_bind].
  change (take (Z.to_nat (pc_nb_lcores pc)) (pc_lcore_list pc)) with (port_lcores pc).
  case_bool_decide as He; cbn [negb].
  2: { exists false. split; [done|]. split; [done|]. by intros [_ ? _ _ _]. }
  unfold is_primary.
  destruct (primary_slim c) eqn:Es, (kni_enable c) eqn:Ek; repeat (case_bool_decide; cbn [andb negb res_bind]); try done;
    eexists; (split; [reflexivity|]); split; try done; intros Hx;
    lazymatch type of Hx with
    | port_good _ _ => destruct Hx as [_ _ G1 G2 G3]; exfalso; naive_solver
    | _ => split; [tauto|done|..]; intros; simplify_eq; (done || congruence)
    end.
Qed.

(** The ports of the configuration. *)
Definition port_of (c : config) (pc : port_cfg) : Prop :=
  exists id, id ∈ portid_list c /\ port_cfgs c !! Z.to_nat id = Some pc.

Lemma check_ports_spec test c (P : port_cfg -> Prop) :
  config_shape c ->
  (forall pc, port_shape pc -> exists b, test pc = Ok b /\ (b = true <-> P pc)) ->
  exists b, check_ports test (port_cfgs c) (portid_list c) = Ok b /\ (b = true <-> forall pc, port_of c pc -> P pc).
Proof.
  intros [_ _ _ Hp] Ht. unfold port_of. induction Hp as [|id ids (pc & Hid & Hpc & Hs) _ (b & IH & Hb)]; cbn [check_ports].
  { exists true. split; [done|]. split; [|done]. intros _ pc (id & Hid & _). by apply elem_of_nil in Hid. }
  rewrite (proj2 (array_get_Ok _ _ pc) (conj Hid Hpc)). cbn [res_bind]. destruct (Ht pc Hs) as ([] & -> & Hx); cbn [res_bind].
  - exists b. split; [done|]. rewrite Hb. split.
    + intros Hall pc' (id' & [->|Hin]%elem_of_cons & Hl); [|by apply Hall; exists id']. replace pc' with pc by congruence. by apply Hx.
    + intros Hall pc' (id' & Hin & Hl). apply Hall. exists id'. split; [by right|done].
  - exists false. split; [done|]. split; [done|]. intros Hall. apply Hx, Hall. exists id. split; [by left|done].
Qed.

(** The room of a buffer is a multiple of 64 that fits in 16 bits. *)
Lemma large_room_spec m : 0 <= m -> (large_room m <= UINT16_MAX <-> m <= 65318).
Proof.
  intros Hm. unfold large_room, UINT16_MAX. change 63 with (Z.ones 6) at 2.
  rewrite Z.ldiff_ones_r, Z.shiftl_mul_pow2, Z.shiftr_div_pow2 by lia. change (2 ^ 6) with 64.
  pose proof (Z.div_mod (128 + m + 26 + 63) 64) as Hd. pose proof (Z.mod_pos_bound (128 + m + 26 + 63) 64). lia.
Qed.

(** What the check asks of the lengths of frames. *)
Definition mtu_good (c : config) : Prop :=
  if mtu_enable c then
    FF_MTU_DEFAULT <= max_mtu c /\ (mbuf_mode c = FF_MBUF_MODE_LARGE -> max_mtu c <= 65318) /\
    forall pc, port_of c pc -> FF_MTU_MIN <= pc_mtu pc <= max_mtu c
  else forall pc, port_of c pc -> pc_mtu pc <= FF_MTU_DEFAULT.

Lemma check_mtu_spec c :
  config_shape c -> exists b, check_mtu c = Ok b /\ (b = true <-> mtu_good c).
Proof.
  intros Hc. unfold check_mtu, mtu_good. destruct (mtu_enable c).
  2: { apply check_ports_spec; [done|]. intros pc _. eexists. split; [done|]. rewrite negb_true_iff, Z.ltb_ge. done. }
  destruct (Z.ltb_spec (max_mtu c) FF_MTU_DEFAULT) as [Hlt|Hge].
  { exists false. split; [done|]. split; [done|]. lia. }
  assert (0 <= max_mtu c) as H0 by (unfold FF_MTU_DEFAULT in Hge; lia).
  destruct (large_room_spec (max_mtu c) H0) as [Hr1 Hr2].
  destruct (bool_decide (mbuf_mode c = FF_MBUF_MODE_LARGE) && (UINT16_MAX <? large_room (max_mtu c))) eqn:E.
  - rewrite andb_true_iff, bool_decide_eq_true, Z.ltb_lt in E. exists false. split; [done|]. split; [done|].
    intros (_ & Hl & _). destruct E as [El E]. apply Hl, Hr2 in El. lia.
  - rewrite andb_false_iff, bool_decide_eq_false, Z.ltb_ge in E.
    destruct (check_ports_spec (mtu_in_range c) c (fun pc => FF_MTU_MIN <= pc_mtu pc <= max_mtu c) Hc) as (b & Hb & Hi).
    { intros pc _. eexists. split; [done|]. rewrite negb_true_iff, orb_false_iff, !Z.ltb_ge. done. }
    exists b. split; [done|]. rewrite Hi. tauto.
Qed.

(** What the check asks of a configuration. *)
Record config_good (c : config) : Prop := {
  cg_method_set : kni_enable c = true -> is_Some (kni_method c);
  cg_method : forall m, kni_method c = Some m -> strcasecmp_eq m (str "accept") = true \/ strcasecmp_eq m (str "reject") = true;
  cg_action : forall a, kni_action c = Some a ->
    strcasecmp_eq a (str "alltokni") = true \/ strcasecmp_eq a (str "alltoff") = true \/ strcasecmp_eq a (str "default") = true;
  cg_ports : forall pc, port_of c pc -> port_good c pc;
  cg_mtu : mtu_good c;
  cg_slim : primary_slim c = true -> thread_mode c = false /\ 2 <= nb_procs (cores c);
  cg_thread : thread_mode c = true -> proc_type c <> str "secondary"
}.

Definition checked (c : config) : config := if thread_mode c then with_threads (with_pcap c) else with_pcap c.

Lemma method_ok_spec o :
  method_ok o = true <-> forall m, o = Some m -> strcasecmp_eq m (str "accept") = true \/ strcasecmp_eq m (str "reject") = true.
Proof. destruct o as [m|]; cbn [method_ok]; [rewrite orb_true_iff|]; naive_solver. Qed.

Lemma action_ok_spec o :
  action_ok o = true <-> forall a, o = Some a ->
    strcasecmp_eq a (str "alltokni") = true \/ strcasecmp_eq a (str "alltoff") = true \/ strcasecmp_eq a (str "default") = true.
Proof. destruct o as [m|]; cbn [action_ok]; [rewrite !orb_true_iff|]; naive_solver. Qed.

Lemma with_pcap_shape c : config_shape c -> config_shape (with_pcap c).
Proof. by intros []; split. Qed.

Lemma with_pcap_port c pc : port_good (with_pcap c) pc <-> port_good c pc.
Proof. by split; intros []; split. Qed.

Lemma config_list_spec arr items :
  let nums := concat (numbers <$> items) in
  Forall item_ok items -> (length items <= 128)%nat -> Z.of_nat (length (print_list items)) < 4095 ->
  nums <> [] -> (length nums <= length arr)%nat ->
  exists l, l ≡ₚ nums /\ StronglySorted Z.le l /\
    parse_config_list arr (Z.of_nat (length arr)) (print_list items) =
    Ok (1, l ++ drop (length nums) arr, Z.of_nat (length nums)).
Proof.
  intros nums Hok Hn Hlen Hne Hfit. destruct (sort_spec nums (drop (length nums) arr)) as (l & Hl & Hp & Hs).
  exists l. split; [done|]. split; [done|]. unfold parse_config_list.
  destruct (Z.leb_spec 4095 (Z.of_nat (length (print_list items)))); [lia|].
  unfold print_list. rewrite strsplit_join; [|apply Forall_fmap; eapply Forall_impl; [exact Hok|apply print_item_token]|by rewrite length_fmap].
  pose proof (put_tokens_spec items [] arr Hok Hfit) as Ht. cbn [app length] in Ht.
  change (Z.of_nat 0) with 0 in Ht. rewrite Ht. cbn [res_bind]. fold nums.
  destruct (Z.leb_spec (Z.of_nat (length nums)) 0) as [H0|_]; [by destruct nums; cbn in *|]. by rewrite Hl.
Qed.

(** ** Properties *)

(** C38: [parse_lcore_mask] reads a mask of cores, hexadecimal digits with
    blanks around them and with or without [0x], as the set of its bits.  It
    is accepted exactly when no bit is at [RTE_MAX_LCORE] or above and there
    is a core for this process; then [proc_lcore] starts with the cores in
    increasing order, without repetitions, [nb_procs] is their number, the
    rest of the array is 0, and [proc_mask] is a mask with the one core of
    this process. *)
Theorem lcore_mask_correct RTE_MAX_LCORE M s b1 pre ds b2 :
  RTE_MAX_LCORE = 4 * M -> 0 < M -> 0 <= proc_id s ->
  blanks b1 -> blanks b2 -> pre ∈ [[]; [48; 120]; [48; 88]] -> ds <> [] -> hex_digits ds ->
  exists r s', parse_lcore_mask RTE_MAX_LCORE s (b1 ++ pre ++ ds ++ b2) = Ok (r, s') /\
    ((r = 1 /\ mask_ok RTE_MAX_LCORE (proc_id s) (hex_value ds)) \/
     (r = 0 /\ ~ mask_ok RTE_MAX_LCORE (proc_id s) (hex_value ds))) /\
    (r = 1 ->
      proc_id s' = proc_id s /\ Z.of_nat (length (proc_lcore s')) = RTE_MAX_LCORE /\ lcores_ok s' /\ NoDup (enabled s') /\
      (forall i, i ∈ enabled s' <-> 0 <= i < RTE_MAX_LCORE /\ Z.testbit (hex_value ds) i = true) /\
      exists own m, enabled s' !! Z.to_nat (proc_id s) = Some own /\ proc_mask s' = Some m /\ hex_value m = 2 ^ own).
Proof.
  intros HM Hpos Hid H1 H2 Hp Hne Hd.
  destruct (parse_mask_spec RTE_MAX_LCORE M HM Hpos s b1 pre ds b2 H1 H2 Hp Hne Hd) as (r & s' & -> & Hr & Hs).
  exists r, s'. split; [done|]. split; [done|]. intros ->. destruct Hr as [[_ [_ Hlt]]|[? _]]; [|done].
  rewrite (Hs eq_refl). clear Hs. pose proof (bits_below_length (hex_value ds) RTE_MAX_LCORE ltac:(lia)) as Hl.
  set (l := bits_below (hex_value ds) RTE_MAX_LCORE) in *.
  assert (enabled (mk_lcores (proc_id s) (l ++ replicate (Z.to_nat RTE_MAX_LCORE - length l) 0)
    (own_mask RTE_MAX_LCORE (proc_id s) (proc_mask s) l) (Z.of_nat (length l))) = l) as He.
  { unfold enabled. cbn. by rewrite Nat2Z.id, take_app_length. }
  split; [done|]. split; [cbn; rewrite length_app, length_replicate; lia|]. split; [|rewrite He; split; [|split]].
  - split; [rewrite He; apply bits_below_sorted; lia|]. cbn. rewrite length_app. lia.
  - apply NoDup_filter, NoDup_seqZ.
  - intros i. unfold l, bits_below. rewrite list_elem_of_filter, elem_of_seqZ, Z.add_0_l. tauto.
  - destruct (lookup_lt_is_Some_2 l (Z.to_nat (proc_id s)) ltac:(lia)) as [own Ho].
    exists own, (core_mask RTE_MAX_LCORE own). split; [done|]. cbn [proc_mask]. unfold own_mask. rewrite decide_True, Ho by done.
    split; [done|]. eapply core_mask_value; [done..|]. eapply bits_below_lt; [|exact Ho]. lia.
Qed.

(** A list of numbers and ranges reads back: [__parse_config_list] of the text,
    of less than 4095 bytes, of up to 128 items, with spaces around each number,
    leaves in the array exactly the numbers the items stand for, sorted, with
    the rest of the array as it was, and sets the size to their number, if there
    is one at least and they fit in the array. *)
Theorem config_list_correct arr items :
  let nums := concat (numbers <$> items) in
  Forall item_ok items -> (length items <= 128)%nat -> Z.of_nat (length (print_list items)) < 4095 ->
  nums <> [] -> (length nums <= length arr)%nat ->
  exists l, l ≡ₚ nums /\ StronglySorted Z.le l /\
    parse_config_list arr (Z.of_nat (length arr)) (print_list items) =
    Ok (1, l ++ drop (length nums) arr, Z.of_nat (length nums)).
Proof. apply config_list_spec. Qed.

(** C23: [ff_check_config] accepts exactly the consistent configurations: KNI
    with a method, the known methods and actions, every port with its
    addresses and with cores that have a process, the core of the primary
    process (or of the owner of KNI) in or out of the list of each port as
    the mode asks, frame lengths in range and a data room that fits in 16
    bits, and the modes that go together.  An accepted configuration comes
    back with the defaults of the capture filled in and, in thread mode, as
    one process with a thread for each core. *)
Theorem check_config_decides c :
  config_shape c ->
  exists c' r, ff_check_config c = Ok (c', r) /\
    ((r = 0 /\ config_good c /\ c' = checked c) \/ (r = -1 /\ ~ config_good c)).
Proof.
  intros Hc. pose proof (with_pcap_shape c Hc) as Hc'. unfold ff_check_config.
  assert (forall c', ~ config_good c -> exists c'' r, Ok (c', -1) = Ok (c'', r) /\
    ((r = 0 /\ config_good c /\ c'' = checked c) \/ (r = -1 /\ ~ config_good c))) as Hrej by (intros; eauto 6).
  destruct (kni_enable c && negb (is_set (kni_method c))) eqn:E1.
  { apply andb_true_iff in E1 as [E1 E2]. apply Hrej. intros [G _ _ _ _ _ _]. apply G, is_set_Some in E1. by rewrite E1 in E2. }
  destruct (method_ok (kni_method c)) eqn:E2; cbn [negb].
  2: { apply Hrej. intros [_ G _ _ _ _ _]. apply method_ok_spec in G. congruence. }
  destruct (action_ok (kni_action c)) eqn:E3; cbn [negb].
  2: { apply Hrej. intros [_ _ G _ _ _ _]. apply action_ok_spec in G. congruence. }
  destruct (check_ports_spec (check_port (with_pcap c)) (with_pcap c) (port_good c) Hc') as (b & -> & Hb).
  { intros pc Hpc. setoid_rewrite <- with_pcap_port. by apply check_port_spec. }
  destruct (check_mtu_spec (with_pcap c) Hc') as (b' & -> & Hb'). cbn [res_bind].
  destruct b; cbn [negb]. 2: { apply Hrej. intros [_ _ _ G _ _ _]. by apply Hb in G. }
  destruct b'; cbn [negb]. 2: { apply Hrej. intros [_ _ _ _ G _ _]. by apply Hb' in G. }
  change (primary_slim (with_pcap c)) with (primary_slim c). change (thread_mode (with_pcap c)) with (thread_mode c).
  change (cores (with_pcap c)) with (cores c). change (proc_type (with_pcap c)) with (proc_type c).
  destruct (primary_slim c && thread_mode c) eqn:E4.
  { apply andb_true_iff in E4 as [E4 E5]. apply Hrej. intros [_ _ _ _ _ G _]. apply G in E4 as [? _]. congruence. }
  destruct (primary_slim c && (nb_procs (cores c) <? 2)) eqn:E5.
  { apply andb_true_iff in E5 as [E5 E6]. apply Hrej. intros [_ _ _ _ _ G _]. apply G in E5 as [_ ?]. lia. }
  assert ((thread_mode c = true -> proc_type c <> str "secondary") -> config_good c) as Hgood.
  { intros Ht. split; [|by apply method_ok_spec|by apply action_ok_spec|by apply Hb|by apply Hb'| |done]; intros E; rewrite E in *; cbn [andb] in *.
    - apply is_set_Some. by destruct (is_set _).
    - split; [done|lia]. }
  unfold checked in *. destruct (thread_mode c) eqn:E6; [case_bool_decide as E7|].
  - apply Hrej. intros [_ _ _ _ _ _ G]. by apply G in E6.
  - do 2 eexists. split; [done|]. left. split; [done|]. split; [by apply Hgood|done].
  - do 2 eexists. split; [done|]. left. split; [done|]. split; [by apply Hgood|done].
Qed.

(** ** Witnesses *)

Definition no_cores (pid : Z) : lcores := mk_lcores pid [] None 0.

(** The cores 4 to 7; this process has the second of them. *)
Lemma lcore_mask_correct_witness :
  exists s', parse_lcore_mask 128 (no_cores 1) (str " 0xf0 ") = Ok (1, s') /\ NoDup (enabled s') /\ enabled s' = [4; 5; 6; 7].
Proof.
  destruct (lcore_mask_correct 128 32 (no_cores 1) [32] [48; 120] [102; 48] [32]) as (r & s' & Hp & _ & Hok);
    [done|done|done|by repeat constructor|by repeat constructor|by right; left|done|by repeat constructor|].
  assert (Hv : exists m, parse_lcore_mask 128 (no_cores 1) ([32] ++ [48; 120] ++ [102; 48] ++ [32]) =
    Ok (1, mk_lcores 1 ([4; 5; 6; 7] ++ replicate (Z.to_nat 124) 0) m 4)) by (eexists; vm_compute; reflexivity).
  destruct Hv as (m & Hv). rewrite Hv in Hp. injection Hp as <- <-. eexists. split; [exact Hv|].
  destruct (Hok eq_refl) as (_ & _ & _ & Hnd & _). split; [exact Hnd|reflexivity].
Defined.

Definition demo_items : list list_item := [Range [] 4 [] [] 6 []; Single [32] 1 []].

(** [4-6, 1] *)
Lemma config_list_correct_witness :
  exists l, l ≡ₚ [4; 5; 6; 1] /\ parse_config_list [0; 0; 0; 0; 9] 5 (str "4-6, 1") = Ok (1, l ++ [9], 4).
Proof.
  destruct (config_list_correct [0; 0; 0; 0; 9] demo_items) as (l & Hp & _ & Hl).
  - repeat constructor; lia.
  - cbn; lia.
  - vm_compute; reflexivity.
  - done.
  - vm_compute; lia.
  - exists l. split; [exact Hp|exact Hl].
Defined.

Definition demo_port : port_cfg :=
  mk_port_cfg (Some (str "192.168.1.2")) (Some (str "255.255.255.0")) (Some (str "192.168.1.255")) (Some (str "192.168.1.1"))
    2 [1; 2] 1500.

Definition demo_config : config :=
  mk_config true (Some (str "Reject")) None 0 0 0 None (mk_lcores 0 [1; 2; 0; 0] None 2) 0 None (str "primary")
    false false [0] [demo_port] false 1500 FF_MBUF_MODE_SCATTER.

(** Two processes and one port; KNI is on. *)
Lemma check_config_decides_witness :
  config_good demo_config /\ ff_check_config demo_config = Ok (with_pcap demo_config, 0).
Proof.
  assert (Hr : ff_check_config demo_config = Ok (with_pcap demo_config, 0)) by (vm_compute; reflexivity).
  destruct (check_config_decides demo_config) as (c' & r & Hc & [(_ & Hg & _)|(-> & _)]).
  - split; cbn; try lia.
    + split; [repeat constructor; cbn; lia|cbn; lia].
    + repeat constructor. exists demo_port. repeat split; cbn; lia.
  - split; [exact Hg|exact Hr].
  - rewrite Hr in Hc. discriminate Hc.
Defined.

(** ** Lists that do not fit *)

(** The test [nr_ele > max_ele] lets one element more than the array has
    through, which is written behind the array. *)
Example config_list_one_too_many : parse_config_list [0; 0] 2 (str "1,2,3") = Panic.
Proof. reflexivity. Qed.

(** An empty list is reported and accepted, with the size left at that of
    the array: the ports are the ones that happen to be in it. *)
Example empty_port_list : parse_port_list [77; 78] [] = Ok (1, Some ([77; 78], 78)).
Proof. reflexivity. Qed.
