(* ===== verification/Lport.v ===== *)
(** * The choice of a local port ([ff_dpdk_if.c], [in_pcb.c])

    A connection needs a local port whose packets the NIC puts on the
    thread's own queue.  [ff_rss_thash_build_key] makes the key and the
    helpers for it, [ff_rss_adjust_sport] and its IPv6 variant calculate a
    port from them, and [in_pcb_lport_dest] takes a port from the table of
    [RssTable], by calculation, or by trying one port after the other.

    Results of [arc4random] and of the lookups among the sockets are
    arguments. *)

From stdpp Require Import gmap.
From S2P Require Import Prelude Toeplitz Thash RssTable.

Module Lport.
Import Toeplitz Thash RssTable.

Definition FF_RSS_THASH_V4_TUPLE_LEN : Z := 12.
Definition FF_RSS_THASH_V4_SPORT_OFF : Z := 80.
Definition FF_RSS_THASH_SPORT_HELPER_LEN : Z := 16.
Definition FF_RSS_THASH_ADJUST_ATTEMPTS : Z := 16.
Definition FF_RSS_THASH_V6_TUPLE_LEN : Z := 36.
Definition FF_RSS_THASH_V6_SPORT_OFF : Z := 272.

Definition EADDRNOTAVAIL : Z := 49.

(** ** The key *)

(** [while ((reta_size >>= 1) != 0)]. *)
Fixpoint log2_loop (fuel : nat) (reta_size log2 : Z) : res Z :=
  match fuel with
  | O => NoFuel
  | S fuel =>
      let reta_size := Z.shiftr reta_size 1 in
      if reta_size =? 0 then Ok log2 else log2_loop fuel reta_size (log2 + 1)
  end.

Definition ff_rss_reta_log2 (reta_size : Z) : res Z := log2_loop 16 reta_size 0.

(** A context with its helper for the local port, if it is there. *)
Abbreviation thash := (rte_thash_ctx * option rte_thash_subtuple_helper)%type.

(** What a port has: [rss_thash_ready], [rss_thash_ctx] and
    [rss_thash_sport_h], and the same for IPv6; and the key of all ports. *)
Record thash_state := mk_thash_state {
  ready : bool;
  thash4 : option thash;
  ready6 : bool;
  thash6 : option thash;
  key_built : bool;
  ts_rsskey : list Z;
  ts_rsskey_len : Z
}.

(** What is different from process to process and from time to time: the
    memory behind a key, and the random numbers. *)
Record thash_luck := mk_luck { l_pad : list Z; l_rnd : list Z }.

(** [rte_thash_init_ctx] and [rte_thash_add_helper] of the primary process;
    [rte_thash_find_existing] of the others. *)
Definition get_thash (is_primary : bool) (existing : option thash) (luck : thash_luck)
    (key : list Z) (keylen reta_log2 off : Z) : res (option thash) :=
  if is_primary then
    match rte_thash_init_ctx keylen reta_log2 key 0 (l_pad luck) with
    | None => Ok None
    | Some ctx =>
        let* o := rte_thash_add_helper ctx FF_RSS_THASH_SPORT_HELPER_LEN off (l_rnd luck) in
        Ok ((fun p : rte_thash_ctx * rte_thash_subtuple_helper => (fst p, Some (snd p))) <$> o)
    end
  else Ok existing.

(** From [publish] on. *)
Definition publish (s : thash_state) (t4 : thash) (t6 : option thash) (pub_key : list Z) (len : Z) (malloc_ok : bool) :
    thash_state :=
  if malloc_ok then
    mk_thash_state true (Some t4) (match t6 with Some _ => true | None => false end)
      (match t6 with Some _ => t6 | None => thash6 s end) true (take (Z.to_nat len) pub_key) len
  else
    mk_thash_state false (Some t4) false (match t6 with Some _ => t6 | None => thash6 s end)
      (key_built s) (ts_rsskey s) (ts_rsskey_len s).

Definition ff_rss_thash_build_key (is_primary thash_adjust malloc_ok : bool) (existing existing6 : option thash)
    (luck luck6 : thash_luck) (s : thash_state) (reta_size : Z) : res thash_state :=
  let len := ts_rsskey_len s in
  let s := mk_thash_state false (thash4 s) false (thash6 s) (key_built s) (ts_rsskey s) (ts_rsskey_len s) in
  if negb thash_adjust || bool_decide (ts_rsskey s = []) || (len =? 0) then Ok s
  else if (reta_size <? 2) || key_built s then Ok s
  else if 64 <? len then Ok s
  else
    let* reta_log2 := ff_rss_reta_log2 reta_size in
    let* o := get_thash is_primary existing luck (ts_rsskey s) len reta_log2 FF_RSS_THASH_V4_SPORT_OFF in
    match o with
    | Some (ctx, Some h) =>
        let key_v4_buf := take (Z.to_nat len) (hash_key ctx) in
        let* o6 := get_thash is_primary existing6 luck6 key_v4_buf len reta_log2 FF_RSS_THASH_V6_SPORT_OFF in
        match o6 with
        | Some (ctx6, Some h6) => Ok (publish s (ctx, Some h) (Some (ctx6, Some h6)) (hash_key ctx6) len malloc_ok)
        | _ => Ok (publish s (ctx, Some h) None key_v4_buf len malloc_ok)
        end
    | _ => Ok s
    end.

(** ** Calculating a port *)

Section Adjust.
(** The tuple with a local port, its length, and where the port is. *)
Variable tuple : Z -> list Z.
Variables len off : Z.
(** [ff_rss_check] with a local port. *)
Variable check : Z -> res bool.
Variable recheck : bool.
Variables (ctx : rte_thash_ctx) (h : rte_thash_subtuple_helper) (p : rss_port).
Variables first last base : Z.

(** [for (tries = 0; ...)], [k] rounds; [behind] is the memory behind the
    tuple. *)
Fixpoint sport_loop (k : nat) (desired : Z) (behind : list Z) : res (option Z) :=
  match k with
  | O => Ok None
  | S k =>
      let desired := if reta_size p <=? desired then queueid p else desired in
      let* o := rte_thash_adjust_tuple None ctx h (tuple (htons base) ++ behind) len
                  (Z.land desired (reta_size p - 1)) FF_RSS_THASH_ADJUST_ATTEMPTS in
      match o with
      | Some (true, t) =>
          let* b0 := array_get t off in
          let* b1 := array_get t (off + 1) in
          let sport := b0 + 256 * b1 in
          let host_lport := ntohs sport in
          if (host_lport <? first) || (last <? host_lport) then
            sport_loop k (u32 (desired + nb_queues p)) (drop (Z.to_nat len) t)
          else
            let* ok := if recheck then check sport else Ok true in
            if ok then Ok (Some host_lport)
            else sport_loop k (u32 (desired + nb_queues p)) (drop (Z.to_nat len) t)
      | Some (false, t) => sport_loop k (u32 (desired + nb_queues p)) (drop (Z.to_nat len) t)
      | None => sport_loop k (u32 (desired + nb_queues p)) behind
      end
  end.
End Adjust.

(** What is common to [ff_rss_adjust_sport] and [ff_rss_adjust_sport6];
    [None] is the result -1, and [r1] and [r2] are the random numbers. *)
Definition adjust (tuple : Z -> list Z) (len off : Z) (check : Z -> res bool)
    (thash_adjust recheck : bool) (is_ready : bool) (t : option thash) (p : rss_port) (behind : list Z)
    (r1 r2 first last : Z) : res (option Z) :=
  match t with
  | None => Ok None
  | Some (ctx, oh) =>
      if negb is_ready then Ok None
      else if negb thash_adjust then Ok None
      else if nb_queues p <=? 1 then Ok None
      else if last <? first then Ok None
      else
        let base := u16 (Z.ldiff (u32 (first + reta_size p - 1)) (u32 (reta_size p - 1))) in
        if (base <? first) || (last <? u32 (base + reta_size p - 1)) then Ok None
        else
          let nblocks := u16 ((last - base + 1) / reta_size p) in
          if nblocks =? 0 then Ok None
          else
            let block := u16 (r1 mod nblocks) in
            let base := u16 (base + block * reta_size p) in
            let n := (reta_size p + nb_queues p - 1) / nb_queues p in
            let desired := u32 (queueid p + (r2 mod n) * nb_queues p) in
            let desired := if reta_size p <=? desired then queueid p else desired in
            match oh with
            | Some h => sport_loop tuple len off check recheck ctx h p first last base (Z.to_nat n) desired behind
            | None => Panic
            end
  end.

(** The configuration ([rss_check_cfgs]). *)
Record adjust_cfg := mk_adjust_cfg { a_thash_adjust : bool; a_recheck : bool }.

Definition ff_rss_adjust_sport (env : rss_env) (cfg : adjust_cfg) (s : thash_state) (port_id : Z)
    (saddr daddr dport : Z) (behind : list Z) (r1 r2 first last : Z) : res (option Z) :=
  adjust (tuple4 saddr daddr dport) FF_RSS_THASH_V4_TUPLE_LEN 10 (ff_rss_check env port_id saddr daddr dport)
    (a_thash_adjust cfg) (a_recheck cfg) (ready s) (thash4 s) (rss_ports env port_id) behind r1 r2 first last.

Definition ff_rss_adjust_sport6 (env : rss_env) (cfg : adjust_cfg) (s : thash_state) (port_id : Z)
    (saddr6 daddr6 : list Z) (dport : Z) (behind : list Z) (r1 r2 first last : Z) : res (option Z) :=
  adjust (tuple6 saddr6 daddr6 dport) FF_RSS_THASH_V6_TUPLE_LEN 34 (ff_rss_check6 env port_id saddr6 daddr6 dport)
    (a_thash_adjust cfg) (a_recheck cfg) (ready6 s) (thash6 s) (rss_ports env port_id) behind r1 r2 first last.

(** ** Taking a port *)

(** An interface: its [if_softc], if there is one, or else whether it is the
    loopback. *)
Inductive ifnet :=
| Softc (port_id : Z)
| Loopback
| NoSoftc.

Definition softc_port (ifp : ifnet) : res Z :=
  match ifp with Softc port_id => Ok port_id | _ => Panic end.

(** [do ... while (tmpinp != NULL)] over the ports from [first] to [last]:
    [k] rounds, each of which takes one off [count].  [*lastport], and the port
    or the error. *)
Fixpoint scan_range (busy : Z -> res bool) (first last : Z) (k : nat) (lastport : Z) : res (Z * (Z + Z)) :=
  match k with
  | O => Ok (lastport, inl EADDRNOTAVAIL)
  | S k =>
      let lastport := u16 (lastport + 1) in
      let lastport := if (lastport <? first) || (last <? lastport) then first else lastport in
      let lport := htons lastport in
      let* b := busy lport in
      if b then scan_range busy first last k lastport else Ok (lastport, inr lport)
  end.

Section Family.
(** One of the two families, with its functions. *)
Context {A : Type} `{EqDecision A}.
Variables (any : A) (fold : A -> Z).
Variable enable : bool.
Variable saddr daddr : A.
Variable fport : Z.
Variable adjust_sport : Z -> nat -> Z -> Z -> res (option Z).
Variable check : Z -> Z -> res bool.
(** The lookup of the fast path and that of the loop: whether a socket has
    the port. *)
Variables used used_scan : Z -> bool.

(** [rss_tbl_init] and the table. *)
Record tables := mk_tables { t_init : Z; t_tbl : list (entry A) }.

(** [rss_portrange[0]] and [rss_portrange[i]], of the entry at a place. *)
Definition place_dip (tbl : list (entry A)) (place : Z * Z) : res (dip A) :=
  let* e := array_get tbl (fst place) in
  array_get (e_dips e) (snd place).

Definition set_cursor (tbl : list (entry A)) (place : Z * Z) (x : Z) : res (list (entry A)) :=
  let* e := array_get tbl (fst place) in
  let* d := array_get (e_dips e) (snd place) in
  let* dport := port_set (d_dport d) 0 x in
  let* dips := array_set (e_dips e) (snd place)
    (mk_dip (d_daddr d) (d_first d) (d_last d) (d_first_idx d) (d_last_idx d) (d_num d) dport) in
  array_set tbl (fst place) (mk_entry (e_saddr e) (e_sport e) (e_num e) dips).

(** The table: [rss_first], [rss_last] and the place of [rss_portrange] when
    there is a match. *)
Definition rss_lookup (dorandom : bool) (rnd first last : Z) (s : tables) : res (tables * option (Z * Z * (Z * Z))) :=
  let* s :=
    if t_init s =? 0 then
      let* (tbl, ret) := tbl_set_portrange any enable (t_tbl s) first last in
      Ok (mk_tables (if ret <? 0 then -1 else 1) tbl)
    else Ok s in
  if t_init s =? 1 then
    let* g := tbl_get_portrange any fold enable (t_tbl s) saddr daddr fport in
    match g with
    | inl ret => Ok (if ret =? - ENOENT then s else mk_tables (-1) (t_tbl s), None)
    | inr (rss_first, rss_last, place) =>
        let count := rss_last - rss_first + 1 in
        if dorandom then
          if count =? 0 then Panic
          else
            let* tbl := set_cursor (t_tbl s) place (rss_first + rnd mod u32 count) in
            Ok (mk_tables (t_init s) tbl, Some (rss_first, rss_last, place))
        else Ok (s, Some (rss_first, rss_last, place))
    end
  else Ok (s, None).

(** The loop over the ports of an entry. *)
Fixpoint scan_table (rss_first rss_last : Z) (place : Z * Z) (k : nat) (tbl : list (entry A)) (lastport : Z) :
    res (list (entry A) * Z * (Z + Z)) :=
  match k with
  | O => Ok (tbl, lastport, inl EADDRNOTAVAIL)
  | S k =>
      let* d := place_dip tbl place in
      let* c := port_get (d_dport d) 0 in
      let c := u16 (c + 1) in
      let c := if (c <? rss_first) || (rss_last <? c) then rss_first else c in
      let* tbl := set_cursor tbl place c in
      let* d := place_dip tbl place in
      let* lastport := port_get (d_dport d) c in
      let lport := htons lastport in
      if used_scan lport then scan_table rss_first rss_last place k tbl lastport
      else Ok (tbl, lastport, inr lport)
  end.

(** [for (rss_fast = 0; rss_fast < 8; rss_fast++)]. *)
Fixpoint fast_loop (ifp : ifnet) (first last : Z) (k i : nat) : res (option Z) :=
  match k with
  | O => Ok None
  | S k =>
      let* port_id := softc_port ifp in
      let* o := adjust_sport port_id i first last in
      match o with
      | None => Ok None
      | Some rss_sel => if used (htons rss_sel) then fast_loop ifp first last k (S i) else Ok (Some rss_sel)
      end
  end.

(** Whether the loop goes on after [lport] when there is no entry. *)
Definition busy (ifp : ifnet) (lport : Z) : res bool :=
  if used_scan lport then Ok true
  else
    match ifp with
    | Loopback => Ok false
    | _ =>
        let* port_id := softc_port ifp in
        let* ok := check port_id lport in
        Ok (negb ok)
    end.

(** With [INPLOOKUP_LPORT_RSS_CHECK]: the tables, [*lastport], and the port or
    the error.  [ifa_lsa] and [ifa_fsa] are the interfaces [ifa_ifwithnet]
    finds. *)
Definition lport_rss (dorandom : bool) (rnd rnd_last first last : Z) (ifa_lsa ifa_fsa : option ifnet)
    (s : tables) (lastport : Z) : res (tables * Z * (Z + Z)) :=
  let* (s, m) := rss_lookup dorandom rnd first last s in
  match m with
  | Some (rss_first, rss_last, place) =>
      let* (tbl, lastport, r) :=
        scan_table rss_first rss_last place (Z.to_nat (rss_last - rss_first + 2)) (t_tbl s) lastport in
      Ok (mk_tables (t_init s) tbl, lastport, r)
  | None =>
      match (match ifa_lsa with Some ifp => Some ifp | None => ifa_fsa end) with
      | None => Ok (s, lastport, inl EADDRNOTAVAIL)
      | Some ifp =>
          let* fast := match ifp with Loopback => Ok None | _ => fast_loop ifp first last 8 0 end in
          match fast with
          | Some rss_sel => Ok (s, rss_sel, inr (htons rss_sel))
          | None =>
              let lastport := if dorandom then u16 (first + rnd_last mod (last - first)) else lastport in
              let* (lastport, r) := scan_range (busy ifp) first last (Z.to_nat (last - first + 1)) lastport in
              Ok (s, lastport, r)
          end
      end
  end.
End Family.
Arguments tables A : clear implicits.

(** ** [in_pcb_lport_dest] *)

(** The system's settings, the sockets there are, and what is random. *)
Record pcb_env := mk_pcb_env {
  ipport_hifirstauto : Z;
  ipport_hilastauto : Z;
  ipport_lowfirstauto : Z;
  ipport_lowlastauto : Z;
  ipport_firstauto : Z;
  ipport_lastauto : Z;
  ipport_randomized : bool;
  priv_check_cred : Z;
  pcblookup_local : Z -> Z -> bool;
  pcblookup_local6 : Z -> bool;
  pcblookup_conn : Z -> bool;
  rnd_tbl : Z;
  rnd_lastport : Z;
  rnd_adjust : nat -> Z * Z;
  stack_behind : list Z
}.

(** The socket and the arguments: the flags of [inp], those of the lookup,
    and the addresses; [r_fsa] is whether there is a foreign address. *)
Record request := mk_request {
  r_highport : bool;
  r_lowport : bool;
  r_ipv4 : bool;
  r_ipv6 : bool;
  r_rss : bool;
  r_lsa_inet6 : bool;
  r_fsa : bool;
  r_laddr : Z;
  r_faddr : Z;
  r_laddr6 : list Z;
  r_faddr6 : list Z;
  r_fport : Z;
  r_ifa_lsa : option ifnet;
  r_ifa_fsa : option ifnet
}.

(** [pcbinfo] and the tables. *)
Record pcb_state := mk_pcb_state {
  ipi_lasthi : Z;
  ipi_lastlow : Z;
  ipi_lastport : Z;
  tables4 : tables Z;
  tables6 : tables (list Z)
}.

Definition get_lastport (r : request) (s : pcb_state) : Z :=
  if r_highport r then ipi_lasthi s else if r_lowport r then ipi_lastlow s else ipi_lastport s.

Definition set_lastport (r : request) (s : pcb_state) (x : Z) : pcb_state :=
  if r_highport r then mk_pcb_state x (ipi_lastlow s) (ipi_lastport s) (tables4 s) (tables6 s)
  else if r_lowport r then mk_pcb_state (ipi_lasthi s) x (ipi_lastport s) (tables4 s) (tables6 s)
  else mk_pcb_state (ipi_lasthi s) (ipi_lastlow s) x (tables4 s) (tables6 s).

(** [first] and [last], in order. *)
Definition port_range (e : pcb_env) (r : request) : Z * Z :=
  let '(first, last) :=
    if r_highport r then (ipport_hifirstauto e, ipport_hilastauto e)
    else if r_lowport r then (ipport_lowfirstauto e, ipport_lowlastauto e)
    else (ipport_firstauto e, ipport_lastauto e) in
  if last <? first then (last, first) else (first, last).

(** [laddr]: the local address of a socket that is for IPv4 only. *)
Definition laddr_of (r : request) : Z := if r_ipv6 r then 0 else r_laddr r.

(** The lookup of the loop among the sockets with the local address. *)
Definition lookup_local (e : pcb_env) (r : request) (lport : Z) : bool :=
  if r_ipv6 r then pcblookup_local6 e lport || (r_ipv4 r && pcblookup_local e (laddr_of r) lport)
  else pcblookup_local e (laddr_of r) lport.

Section Pcb.
Variables (env : rss_env) (cfg : adjust_cfg) (thash_s : thash_state).
(** [rss_check_cfgs->enable]. *)
Variable enable : bool.

Definition lport_rss4 (e : pcb_env) (r : request) (dorandom : bool) (first last : Z) (s : tables Z) (lastport : Z) :
    res (tables Z * Z * (Z + Z)) :=
  lport_rss 0 fold4 enable (r_faddr r) (r_laddr r) (r_fport r)
    (fun port_id i first last => let '(r1, r2) := rnd_adjust e i in
      ff_rss_adjust_sport env cfg thash_s port_id (r_faddr r) (r_laddr r) (r_fport r) (stack_behind e) r1 r2 first last)
    (fun port_id lport => ff_rss_check env port_id (r_faddr r) (r_laddr r) (r_fport r) lport)
    (pcblookup_local e (r_laddr r)) (lookup_local e r)
    dorandom (rnd_tbl e) (rnd_lastport e) first last (r_ifa_lsa r) (r_ifa_fsa r) s lastport.

Definition lport_rss6 (e : pcb_env) (r : request) (dorandom : bool) (first last : Z) (s : tables (list Z)) (lastport : Z) :
    res (tables (list Z) * Z * (Z + Z)) :=
  lport_rss in6_any ff_in6_fold enable (r_faddr6 r) (r_laddr6 r) (r_fport r)
    (fun port_id i first last => let '(r1, r2) := rnd_adjust e i in
      ff_rss_adjust_sport6 env cfg thash_s port_id (r_faddr6 r) (r_laddr6 r) (r_fport r) (stack_behind e) r1 r2 first last)
    (fun port_id lport => ff_rss_check6 env port_id (r_faddr6 r) (r_laddr6 r) (r_fport r) lport)
    (pcblookup_local6 e) (lookup_local e r)
    dorandom (rnd_tbl e) (rnd_lastport e) first last (r_ifa_lsa r) (r_ifa_fsa r) s lastport.

(** The state, and the port (in network order) or the error.  The addresses
    are there only for the families of the socket. *)
Definition in_pcb_lport_dest (e : pcb_env) (r : request) (s : pcb_state) : res (pcb_state * (Z + Z)) :=
  if negb (r_highport r) && r_lowport r && negb (priv_check_cred e =? 0) then Ok (s, inl (priv_check_cred e))
  else
    let '(first, last) := port_range e r in
    let dorandom := ipport_randomized e && negb (first =? last) in
    if r_rss r then
      if negb (Bool.eqb (r_lsa_inet6 r) (r_ipv6 r)) then Panic
      else if r_ipv6 r then
        let* (t, lastport, ret) := lport_rss6 e r dorandom first last (tables6 s) (get_lastport r s) in
        let s := set_lastport r s lastport in
        Ok (mk_pcb_state (ipi_lasthi s) (ipi_lastlow s) (ipi_lastport s) (tables4 s) t, ret)
      else
        let* (t, lastport, ret) := lport_rss4 e r dorandom first last (tables4 s) (get_lastport r s) in
        let s := set_lastport r s lastport in
        Ok (mk_pcb_state (ipi_lasthi s) (ipi_lastlow s) (ipi_lastport s) t (tables6 s), ret)
    else
      let lastport :=
        if dorandom then u16 (first + rnd_lastport e mod (last - first)) else get_lastport r s in
      let busy lport := Ok (if r_fsa r then pcblookup_conn e lport else lookup_local e r lport) in
      let* (lastport, ret) := scan_range busy first last (Z.to_nat (last - first + 1)) lastport in
      Ok (set_lastport r s lastport, ret).
End Pcb.
End Lport.
