(* ===== verification/LportProofs.v ===== *)
(** * Proofs about the choice of a local port

    The key and the helpers the stack builds let a port be calculated for any
    connection; [in_pcb_lport_dest] gives a free port whose packets come to the
    thread's own queue, of the range of the table for a connection that has an
    entry there and of the range of the request otherwise, and fails only if
    there is none. *)

From stdpp Require Import gmap sorting.
From S2P Require Import Prelude Toeplitz ToeplitzProofs Thash ThashProofs RssTable RssTableProofs Lport.

Import Toeplitz Thash RssTable Lport.

(** ** Bytes and their bits *)

Lemma field_ext l l' n k : (forall p, (n <= p < n + k)%nat -> bit_of l p = bit_of l' p) -> field l n k = field l' n k.
Proof.
  intros H. apply field_eq; [apply field_range|]. intros j Hj. rewrite field_testbit by lia.
  destruct (Z.ltb_spec j (Z.of_nat k)); [|lia]. apply H. lia.
Qed.

Lemma byte_field l (i : nat) x : l !! i = Some x -> byte x -> field l (8 * i) 8 = x.
Proof.
  intros Hx Hb. symmetry. apply field_eq; [exact Hb|]. intros j Hj.
  replace (8 * i + 8 - 1 - Z.to_nat j)%nat with (8 * i + (7 - Z.to_nat j))%nat by lia.
  rewrite bit_of_byte, Hx by lia. f_equal. lia.
Qed.

Lemma bytes_eq l l' (i : nat) x :
  Forall byte l -> Forall byte l' -> length l = length l' -> l !! i = Some x ->
  (forall p, (8 * i <= p < 8 * i + 8)%nat -> bit_of l p = bit_of l' p) -> l' !! i = Some x.
Proof.
  intros Hl Hl' Hlen Hx Hp. destruct (lookup_lt_is_Some_2 l' i) as [y Hy].
  { rewrite <- Hlen. by eapply lookup_lt_Some. }
  rewrite Hy. f_equal. pose proof (field_ext l l' (8 * i) 8 Hp) as Hf.
  rewrite (byte_field l i x Hx (Forall_lookup_1 _ _ _ _ Hl Hx)), (byte_field l' i y Hy (Forall_lookup_1 _ _ _ _ Hl' Hy)) in Hf.
  done.
Qed.

(** A number of two bytes, the high one first. *)
Lemma field_two l (i : nat) a b :
  l !! i = Some a -> l !! S i = Some b -> byte a -> byte b -> field l (8 * i) 16 = 256 * a + b.
Proof.
  intros Ha Hb Ba Bb. pose proof (field_shiftr l (8 * i) 8 8) as H1. pose proof (field_low l (8 * i) 8 8) as H2.
  change (8 + 8)%nat with 16%nat in *. replace (8 * i + 8)%nat with (8 * S i)%nat in H2 by lia.
  rewrite (byte_field l i a) in H1 by done. rewrite (byte_field l (S i) b) in H2 by done.
  rewrite Z.shiftr_div_pow2 in H1 by lia. change (2 ^ Z.of_nat 8) with 256 in *.
  pose proof (Z.div_mod (field l (8 * i) 16) 256). lia.
Qed.

(** A tuple whose last two bytes changed. *)
Lemma take_two_bytes l l' pre rest b0 b1 :
  Forall byte l -> Forall byte l' -> length l' = length l -> l = pre ++ rest ->
  l' !! length pre = Some b0 -> l' !! S (length pre) = Some b1 ->
  (forall p, (p < 8 * length pre)%nat -> bit_of l p = bit_of l' p) ->
  take (length pre + 2) l' = pre ++ [b0; b1].
Proof.
  intros Hl Hl' Hlen E H0 H1 Hp. apply list_eq. intros i.
  assert (i < length pre \/ i = length pre \/ i = S (length pre) \/ length pre + 2 <= i)%nat as [Hi|[-> |[-> |Hi]]] by lia.
  - rewrite lookup_take_lt, lookup_app_l by lia. destruct (lookup_lt_is_Some_2 pre i Hi) as [x Hx]. rewrite Hx.
    apply (bytes_eq l); try done; [by rewrite E, lookup_app_l|]. intros q Hq. apply Hp. lia.
  - by rewrite lookup_take_lt, lookup_app_r, Nat.sub_diag by lia.
  - rewrite lookup_take_lt, lookup_app_r by lia. by replace (S (length pre) - length pre)%nat with 1%nat by lia.
  - rewrite lookup_take_ge, lookup_ge_None_2 by (rewrite ?length_app; cbn; lia). done.
Qed.

(** ** Byte orders *)

Definition word (x : Z) : Prop := 0 <= x < 2 ^ 16.

Lemma htons_bytes a b : byte a -> byte b -> htons (a + 256 * b) = 256 * a + b.
Proof.
  unfold byte, htons. intros Ha Hb. replace ((a + 256 * b) mod 256) with a; [replace ((a + 256 * b) / 256) with b; [lia|]|].
  - symmetry. rewrite Z.mul_comm, Z.div_add, Z.div_small by lia. lia.
  - symmetry. rewrite Z.mul_comm, Z.mod_add, Z.mod_small by lia. lia.
Qed.

Lemma word_split x : word x -> exists a b, byte a /\ byte b /\ x = a + 256 * b.
Proof.
  unfold word, byte. intros Hx. exists (x mod 256), (x / 256). pose proof (Z.mod_pos_bound x 256).
  pose proof (Z.div_mod x 256). assert (0 <= x / 256) by (apply Z.div_pos; lia).
  assert (x / 256 < 256) by (apply Z.div_lt_upper_bound; lia). lia.
Qed.

Lemma le_bytes_word a b : byte a -> byte b -> le_bytes 2 (a + 256 * b) = [a; b].
Proof.
  unfold byte. intros Ha Hb. cbn [le_bytes]. rewrite (Z.mul_comm 256), Z.mod_add, Z.div_add, (Z.mod_small a), (Z.div_small a) by lia.
  cbn. by rewrite Z.mod_small by lia.
Qed.

(** ** Calculating a port *)

Lemma adjust_tuple_once ctx h len buf desired attempts :
  helper_ok ctx h -> complete h -> len mod 4 = 0 -> 0 <= len /\ len + 4 <= key_len ctx ->
  tuple_offset h + tuple_len h <= 8 * len -> buf_ok len buf -> 0 < attempts ->
  let e := Z.to_nat (tuple_offset h + tuple_len h) in
  exists t, rte_thash_adjust_tuple None ctx h buf len desired attempts = Ok (Some (true, t)) /\
    same_outside buf t (e - Z.to_nat (reta_sz_log ctx)) e /\ hash_is ctx len t desired.
Proof.
  intros Hh Hc Hm Hl He Hb Ha e. pose proof Hh as [[Hr _ _] [Ht0 Ht1] _ _ _]. unfold rte_thash_adjust_tuple.
  rewrite Hm, Z.eqb_refl. destruct (Z.leb_spec attempts 0); [lia|]. cbn [negb orb].
  set (m := Z.min attempts _).
  assert (0 < m) by (unfold m; rewrite Z.shiftl_1_l; pose proof (Z.pow_pos_nonneg 2 (tuple_len h - reta_sz_log ctx)); lia).
  destruct (Z.to_nat m) as [|k] eqn:E; [lia|]. cbn [adjust_loop].
  destruct (adjust_once ctx h len Hh Hc Hm Hl He buf desired Hb) as (hash & adj & tmp & t & -> & E1 & E2 & E3 & Hs & Hi).
  cbn [res_bind]. rewrite E1. cbn [res_bind]. rewrite E2. cbn [res_bind]. rewrite E3. cbn [res_bind]. by exists t.
Qed.

(** What is ready for a port, for tuples of [len] bytes that end with the
    local port: the hash of the context is that of the NIC. *)
Definition thash_for (env : rss_env) (port len : Z) (t : option thash) : Prop :=
  exists ctx h, t = Some (ctx, Some h) /\ helper_ok ctx h /\ complete h /\
    tuple_offset h = 8 * len - 16 /\ tuple_len h = 16 /\ len + 4 <= key_len ctx /\
    reta_size (rss_ports env port) = 2 ^ reta_sz_log ctx /\
    forall data, Z.of_nat (length data) = len -> toeplitz (hash_key ctx) data = toeplitz (nic_key env) data.

Section Adjust.
Variables (env : rss_env) (port len : Z) (pre : list Z).
Hypothesis Hok : rss_ok env port.
Hypothesis Hpre : Forall byte pre.
Hypothesis Hlen : Z.of_nat (length pre) = len - 2.
Hypothesis Hmod : len mod 4 = 0.

Variable tuple : Z -> list Z.
Hypothesis Htup : forall sport, tuple sport = pre ++ le_bytes 2 sport.
Let p := rss_ports env port.

Variables (ctx : rte_thash_ctx) (h : rte_thash_subtuple_helper).
Hypothesis Ht : thash_for env port len (Some (ctx, Some h)).

(** One round: the port differs from [base] in the low bits only, and the
    hash is the one asked for. *)
Lemma sport_round base behind desired :
  word base -> base mod reta_size p = 0 -> Forall byte behind -> behind <> [] -> 0 <= desired < reta_size p ->
  exists t b0 b1,
    rte_thash_adjust_tuple None ctx h (tuple (htons base) ++ behind) len (Z.land desired (reta_size p - 1)) FF_RSS_THASH_ADJUST_ATTEMPTS =
      Ok (Some (true, t)) /\
    array_get t (len - 2) = Ok b0 /\ array_get t (len - 2 + 1) = Ok b1 /\ byte b0 /\ byte b1 /\
    base <= 256 * b0 + b1 < base + reta_size p /\
    Z.land (toeplitz (nic_key env) (tuple (b0 + 256 * b1))) (reta_size p - 1) = desired.
Proof.
  intros Hb Hal Hbh Hne Hd. destruct Ht as (ctx' & h' & [= <- <-] & Hh & Hc & Ho & Hl & Hk & Hr & Hhash).
  fold p in Hr. pose proof Hh as [[Hr16 Hkey _] [Ht0 Ht1] _ _ _]. set (r := Z.to_nat (reta_sz_log ctx)) in *.
  assert (reta_size p = 2 ^ Z.of_nat r) as Hrs by (rewrite Hr; f_equal; lia).
  destruct (word_split base Hb) as (lo & hi & Blo & Bhi & ->).
  assert (tuple (htons (lo + 256 * hi)) = pre ++ [hi; lo]) as Etup.
  { rewrite Htup. rewrite htons_bytes by done. f_equal. rewrite Z.add_comm. by apply le_bytes_word. }
  rewrite Etup. set (buf := (pre ++ [hi; lo]) ++ behind).
  assert (Forall byte buf) as Bbuf by (unfold buf; rewrite !Forall_app, !Forall_cons, Forall_nil; tauto).
  assert (length buf = length pre + 2 + length behind)%nat as Lbuf by (unfold buf; rewrite !length_app; cbn; lia).
  destruct (adjust_tuple_once ctx h len buf (Z.land desired (reta_size p - 1)) FF_RSS_THASH_ADJUST_ATTEMPTS) as (t & Et & (Lt & Bt & Pt) & Hi);
    try done; try lia.
  { split; [done|]. destruct behind; [done|]. cbn in Lbuf. lia. }
  exists t. replace (Z.to_nat (tuple_offset h + tuple_len h)) with (8 * (length pre + 2))%nat in Pt by lia. fold r in Pt.
  destruct (get_byte t (length pre)) as (b0 & E0 & L0 & B0); [done|lia|].
  destruct (get_byte t (S (length pre))) as (b1 & E1 & L1 & B1); [done|lia|].
  exists b0, b1. split; [done|]. split; [by rewrite <- Hlen|].
  split; [rewrite <- Hlen; by replace (Z.of_nat (length pre) + 1) with (Z.of_nat (S (length pre))) by lia|].
  split; [done|]. split; [done|]. split.
  - rewrite <- (field_two t (length pre) b0 b1) by done.
    pose proof (field_shiftr t (8 * length pre) (16 - r) r) as S1. pose proof (field_shiftr buf (8 * length pre) (16 - r) r) as S2.
    replace (16 - r + r)%nat with 16%nat in * by lia. rewrite (field_ext t buf (8 * length pre) (16 - r)) in S1 by (intros q Hq; apply Pt; lia).
    rewrite <- S2, (field_two buf (length pre) hi lo) in S1; try done.
    + rewrite !Z.shiftr_div_pow2, <- Hrs in S1 by lia. rewrite (Z.add_comm (256 * hi)) in S1.
      pose proof (Z.div_mod (field t (8 * length pre) 16) (reta_size p)). pose proof (Z.div_mod (lo + 256 * hi) (reta_size p)).
      pose proof (Z.mod_pos_bound (field t (8 * length pre) 16) (reta_size p)). lia.
    + unfold buf. rewrite <- app_assoc. by rewrite lookup_app_r, Nat.sub_diag by lia.
    + unfold buf. rewrite <- app_assoc, lookup_app_r by lia. by replace (S (length pre) - length pre)%nat with 1%nat by lia.
  - assert (take (Z.to_nat len) t = tuple (b0 + 256 * b1)) as Etake.
    { rewrite Htup. rewrite le_bytes_word by done. replace (Z.to_nat len) with (length pre + 2)%nat by lia.
      apply (take_two_bytes buf _ _ ([hi; lo] ++ behind)); try done. { unfold buf. by rewrite <- app_assoc. } intros q Hq. symmetry. apply Pt; lia. }
    unfold hash_is in Hi. rewrite Etake in Hi. rewrite <- Hhash.
    + rewrite Hr, land_mask by lia. rewrite Hi, Hr, land_mask, Z.mod_mod by lia. apply Z.mod_small. lia.
    + rewrite Htup. rewrite length_app, le_bytes_length. lia.
Qed.

Lemma owns_of_hash data d :
  Z.land (toeplitz (nic_key env) data) (reta_size p - 1) = d -> d mod nb_queues p = queueid p -> nic_owns env port data = true.
Proof.
  intros Hd Hq. destruct Hok as [_ _ (r & Hr & Er) Hnb _]. fold p in Er, Hnb. unfold nic_owns, nic_queue, nic_conf. fold p.
  apply bool_decide_eq_true. rewrite Er in *. rewrite reta_entry_spec; [by rewrite Hd, Hq|lia|lia|].
  apply (land_hash_range _ _ r); [lia|done].
Qed.

Variable check : Z -> res bool.
Variable recheck : bool.
Hypothesis Hcheck : forall sport, check sport = Ok (nic_owns env port (tuple sport)).

(** The first round succeeds. *)
Lemma sport_loop_spec first last base k desired behind :
  0 <= first -> last < 2 ^ 16 -> first <= base -> base + reta_size p - 1 <= last -> base mod reta_size p = 0 ->
  Forall byte behind -> behind <> [] -> k <> 0%nat ->
  0 <= desired -> desired mod nb_queues p = queueid p -> queueid p < reta_size p ->
  exists host, sport_loop tuple len (len - 2) check recheck ctx h p first last base k desired behind = Ok (Some host) /\
    first <= host <= last /\ nic_owns env port (tuple (htons host)) = true.
Proof.
  intros Hf Hl Hfb Hbl Hal Hbh Hne Hk Hd0 Hd Hq. destruct k as [|k]; [done|]. cbn [sport_loop].
  pose proof Hok as [_ _ _ Hnb Hqi]. fold p in Hnb, Hqi.
  set (d := if reta_size p <=? desired then queueid p else desired).
  assert (0 <= d < reta_size p /\ d mod nb_queues p = queueid p) as [Hdr Hdq].
  { unfold d. destruct (Z.leb_spec (reta_size p) desired); [|lia]. split; [lia|]. apply Z.mod_small. lia. }
  destruct (sport_round base behind d) as (t & b0 & b1 & -> & E0 & E1 & B0 & B1 & Hr & Hh); try done.
  { unfold word. lia. }
  cbn [res_bind]. rewrite E0. cbn [res_bind]. rewrite E1. cbn [res_bind]. unfold ntohs. rewrite htons_bytes by done.
  destruct (Z.ltb_spec (256 * b0 + b1) first); [lia|]. destruct (Z.ltb_spec last (256 * b0 + b1)); [lia|]. cbn [orb].
  pose proof (owns_of_hash _ _ Hh Hdq) as Ho. rewrite Hcheck, Ho.
  assert (htons (256 * b0 + b1) = b0 + 256 * b1) as Eh by (rewrite Z.add_comm, htons_bytes by done; lia).
  exists (256 * b0 + b1). rewrite Eh. split; [by destruct recheck|]. split; [lia|done].
Qed.
End Adjust.

(** The first block of ports in a range. *)
Lemma block_base first size r :
  0 <= r <= 15 -> size = 2 ^ r -> 0 <= first < 2 ^ 16 ->
  exists q, Z.ldiff (u32 (first + size - 1)) (u32 (size - 1)) = q * size /\ first <= q * size < first + size /\ 0 <= q.
Proof.
  intros Hr -> Hf. assert (2 ^ r <= 2 ^ 15) by (apply Z.pow_le_mono_r; lia).
  assert (0 < 2 ^ r) by (apply Z.pow_pos_nonneg; lia). rewrite !(wrapu_small 32) by lia.
  assert (2 ^ r - 1 = Z.ones r) as -> by (rewrite Z.ones_equiv; lia).
  rewrite Z.ldiff_ones_r, Z.shiftl_mul_pow2, Z.shiftr_div_pow2 by lia.
  exists ((first + 2 ^ r - 1) / 2 ^ r). split; [done|].
  pose proof (Z.div_mod (first + 2 ^ r - 1) (2 ^ r)). pose proof (Z.mod_pos_bound (first + 2 ^ r - 1) (2 ^ r)).
  split; [lia|]. apply Z.div_pos; lia.
Qed.

(** A block of the range, chosen at random. *)
Lemma blocks_spec first last size q r1 :
  4 <= size <= 2 ^ 15 -> 0 <= first <= q * size -> q * size + size - 1 <= last -> last < 2 ^ 16 ->
  let nb := u16 ((last - q * size + 1) / size) in
  let base := u16 (q * size + u16 (r1 mod nb) * size) in
  nb <> 0 /\ first <= base /\ base + size - 1 <= last /\ base mod size = 0.
Proof.
  intros Hs Hf Hq Hl nb base. set (n := (last - q * size + 1) / size).
  assert (1 <= n /\ n * size <= last - q * size + 1) as [H1 H2].
  { split; [apply Z.div_le_lower_bound; lia|]. rewrite Z.mul_comm. apply Z.mul_div_le. lia. }
  assert (nb = n) as -> by (apply (wrapu_small 16); nia). pose proof (Z.mod_pos_bound r1 n ltac:(lia)) as Hr.
  assert (base = (q + r1 mod n) * size) as ->.
  { unfold base. rewrite (wrapu_small 16 (r1 mod n)) by nia. rewrite (wrapu_small 16) by nia. lia. }
  split; [lia|]. split; [nia|]. split; [nia|]. apply Z.mod_mul. lia.
Qed.

(** A place in the indirection table with the own queue, chosen at random. *)
Lemma desired_spec size nb queue r2 :
  0 < size <= 2 ^ 15 -> 0 <= queue < nb -> nb < 2 ^ 16 ->
  let n := (size + nb - 1) / nb in
  let d := u32 (queue + (r2 mod n) * nb) in
  let d := if size <=? d then queue else d in
  Z.to_nat n <> 0%nat /\ 0 <= d /\ d mod nb = queue.
Proof.
  intros Hs Hq Hnb n d0 d. assert (1 <= n) as Hn by (apply Z.div_le_lower_bound; lia).
  assert (n <= size) as Hn2 by (apply Z.div_le_upper_bound; nia). pose proof (Z.mod_pos_bound r2 n ltac:(lia)) as Hr.
  assert (d0 = queue + (r2 mod n) * nb) as E by (apply (wrapu_small 32); nia). split; [lia|]. unfold d. rewrite E.
  destruct (Z.leb_spec size (queue + r2 mod n * nb)); (split; [nia|]); [|rewrite Z.mod_add by lia]; apply Z.mod_small; lia.
Qed.

Section AdjustSpec.
Variables (env : rss_env) (port len : Z) (pre : list Z).
Hypothesis Hok : rss_ok env port.
Hypothesis Hpre : Forall byte pre.
Hypothesis Hlen : Z.of_nat (length pre) = len - 2.
Hypothesis Hmod : len mod 4 = 0.
Variable tuple : Z -> list Z.
Hypothesis Htup : forall sport, tuple sport = pre ++ le_bytes 2 sport.
Let p := rss_ports env port.
Hypothesis Hqueue : queueid p < reta_size p.
Variable check : Z -> res bool.
Hypothesis Hcheck : forall sport, check sport = Ok (nic_owns env port (tuple sport)).
Variables (is_ready : bool) (t : option thash).
Hypothesis Ht : is_ready = true -> thash_for env port len t.

(** What a range needs for a calculation: whole blocks. *)
Definition has_block (first last : Z) : Prop :=
  exists q, first <= q * reta_size p /\ q * reta_size p + reta_size p - 1 <= last.

Lemma adjust_spec thash_adjust recheck behind r1 r2 first last :
  0 <= first <= last -> last < 2 ^ 16 -> Forall byte behind -> behind <> [] ->
  exists o, adjust tuple len (len - 2) check thash_adjust recheck is_ready t p behind r1 r2 first last = Ok o /\
    (forall host, o = Some host -> first <= host <= last /\ nic_owns env port (tuple (htons host)) = true) /\
    (is_ready = true -> thash_adjust = true -> 1 < nb_queues p -> has_block first last -> is_Some o).
Proof.
  intros Hf Hl Hbh Hne. unfold adjust.
  destruct is_ready; [|destruct t as [[]|]; exists None; naive_solver].
  destruct (Ht eq_refl) as (ctx & h & -> & Hrest). assert (thash_for env port len (Some (ctx, Some h))) as Hfor by (by exists ctx, h).
  cbn [negb]. destruct thash_adjust; cbn [negb]; [|exists None; naive_solver].
  destruct (Z.leb_spec (nb_queues p) 1); [exists None; split; [done|]; split; [done|]; lia|].
  destruct (Z.ltb_spec last first); [lia|]. pose proof Hok as [_ _ (r & Hr & Er) Hnb Hqi]. fold p in Er, Hnb, Hqi.
  destruct (block_base first (reta_size p) r Hr Er ltac:(lia)) as (q & -> & Hq & Hq0).
  assert (0 < reta_size p <= 2 ^ 15) as Hsz by (rewrite Er; split; [apply Z.pow_pos_nonneg|apply Z.pow_le_mono_r]; lia).
  assert (has_block first last -> q * reta_size p + reta_size p - 1 <= last) as Hblk.
  { intros (q' & H1 & H2). assert (q <= q') by nia. nia. }
  destruct (decide (q * reta_size p < 2 ^ 16)) as [Hw|Hw].
  2: { assert (u16 (q * reta_size p) < first) as Hlt.
       { replace (q * reta_size p) with ((q * reta_size p - 2 ^ 16) + 1 * 2 ^ 16) by lia. unfold wrapu.
         rewrite Z.mod_add, Z.mod_small by lia. lia. }
       destruct (Z.ltb_spec (u16 (q * reta_size p)) first); [|lia]. exists None. split; [done|]. split; [done|].
       intros _ _ _ Hb%Hblk. lia. }
  rewrite (wrapu_small 16), (wrapu_small 32) by lia. destruct (Z.ltb_spec (q * reta_size p) first); [lia|]. cbn [orb].
  destruct (Z.ltb_spec last (q * reta_size p + reta_size p - 1)); [exists None; split; [done|]; split; [done|]; intros _ _ _ ?%Hblk; lia|].
  assert (4 <= reta_size p) as H4.
  { destruct Hrest as ([[Hr2 _ _] _ _ _ _] & _ & _ & _ & _ & E & _). fold p in E. rewrite E. change 4 with (2 ^ 2).
    apply Z.pow_le_mono_r; lia. }
  destruct (blocks_spec first last (reta_size p) q r1) as (B1 & B2 & B3 & B4); try lia.
  destruct (desired_spec (reta_size p) (nb_queues p) (queueid p) r2) as (D1 & D2 & D3); try lia.
  rewrite (proj2 (Z.eqb_neq _ _) B1).
  destruct (sport_loop_spec env port len pre Hok Hpre Hlen Hmod tuple Htup ctx h Hfor check recheck Hcheck first last _ _ _ behind
    (proj1 Hf) Hl B2 B3 B4 Hbh Hne D1
    D2 D3 Hqueue) as (host & E & Hh & Ho).
  exists (Some host). split; [exact E|]. split; [|done]. by intros ? [= <-].
Qed.
End AdjustSpec.

(** ** The key *)

Lemma reta_log2_spec r : 0 <= r <= 15 -> ff_rss_reta_log2 (2 ^ r) = Ok r.
Proof.
  intros Hr. unfold ff_rss_reta_log2. assert (forall fuel r a, 0 <= r < Z.of_nat fuel -> log2_loop fuel (2 ^ r) a = Ok (a + r)) as H.
  { clear. induction fuel as [|fuel IH]; intros r a Hr; [lia|]. cbn [log2_loop]. rewrite Z.shiftr_div_pow2 by lia.
    destruct (decide (r = 0)) as [->|]; [cbn; f_equal; lia|].
    assert (2 ^ r / 2 ^ 1 = 2 ^ (r - 1)) as -> by (rewrite <- Z.pow_sub_r by lia; done).
    destruct (Z.eqb_spec (2 ^ (r - 1)) 0); [pose proof (Z.pow_pos_nonneg 2 (r - 1)); lia|].
    rewrite IH by lia. f_equal. lia. }
  rewrite H by lia. done.
Qed.

(** There is memory behind the key, and enough random numbers for a register. *)
Definition luck_ok (luck : thash_luck) (r : Z) : Prop :=
  Forall byte (l_pad luck) /\ (3 <= length (l_pad luck))%nat /\ exists lf, alloc_lfsr r (l_rnd luck) = Ok (Some lf).

Lemma new_thash existing luck key len r off :
  luck_ok luck r -> Forall byte key -> len <= Z.of_nat (length key) -> 0 < len <= 64 -> 6 <= r <= 16 ->
  0 <= off -> off + 47 <= 8 * len ->
  exists ctx h, get_thash true existing luck key len r off = Ok (Some (ctx, Some h)) /\ helper_ok ctx h /\ complete h /\
    tuple_offset h = off /\ tuple_len h = 16 /\ reta_sz_log ctx = r /\ key_len ctx = len /\
    same_outside (take (Z.to_nat len) key ++ l_pad luck) (hash_key ctx) (Z.to_nat off) (Z.to_nat (off + 47)).
Proof.
  intros (Hp & Hpl & lf & Hlf) Hk Hkl Hlen Hr Ho He. unfold get_thash, rte_thash_init_ctx.
  unfold RTE_THASH_RETA_SZ_MIN, RTE_THASH_RETA_SZ_MAX, FF_RSS_THASH_SPORT_HELPER_LEN.
  destruct (Z.eqb_spec len 0), (Z.ltb_spec r 2), (Z.ltb_spec 16 r); try lia. cbn [orb].
  set (ctx0 := mk_ctx len r 0 (take (Z.to_nat len) key ++ l_pad luck)).
  assert (ctx_ok ctx0) as Hc.
  { split; cbn; [lia|apply Forall_app; split; [by apply Forall_take|done]|rewrite length_app, length_take; lia]. }
  pose proof (add_helper_spec ctx0 16 off (l_rnd luck) lf Hc eq_refl Ho ltac:(cbn; lia) ltac:(cbn; lia) Hlf) as Ha.
  cbn [reta_sz_log ctx0] in Ha. assert (2 ^ 6 <= 2 ^ r) by (apply Z.pow_le_mono_r; lia).
  rewrite decide_True in Ha by lia. destruct Ha as (ctx & h & -> & Hh & Hco & E1 & E2 & E3 & E4 & Hs).
  exists ctx, h. cbn. split; [done|]. replace (off + 16 + 31) with (off + 47) in Hs by lia. done.
Qed.

Lemma hash_ext key key' data :
  (forall q, (q < 8 * length data + 31)%nat -> bit_of key q = bit_of key' q) -> toeplitz key data = toeplitz key' data.
Proof. intros H. rewrite !toeplitz_at_0. apply toeplitz_at_ext. exact H. Qed.

(** The environment of a stack that uses the key that was built. *)
Definition env_of (s : thash_state) (ports : Z -> rss_port) : rss_env := mk_rss_env (ts_rsskey s) (ts_rsskey_len s) ports.

(** The primary process: one key for the NIC, and a context for each family
    that agrees with it, unless the table is too small. *)
Lemma build_key_spec ex ex6 luck luck6 s r :
  luck_ok luck r -> luck_ok luck6 r -> 6 <= r <= 15 -> key_built s = false ->
  Forall byte (ts_rsskey s) -> 40 <= ts_rsskey_len s <= 64 -> ts_rsskey_len s <= Z.of_nat (length (ts_rsskey s)) ->
  exists s', ff_rss_thash_build_key true true true ex ex6 luck luck6 s (2 ^ r) = Ok s' /\
    ready s' = true /\ ready6 s' = true /\ ts_rsskey_len s' = ts_rsskey_len s /\
    Z.of_nat (length (ts_rsskey s')) = ts_rsskey_len s /\ Forall byte (ts_rsskey s') /\
    forall ports port, reta_size (ports port) = 2 ^ r ->
      thash_for (env_of s' ports) port 12 (thash4 s') /\ thash_for (env_of s' ports) port 36 (thash6 s').
Proof.
  intros Hl Hl6 Hr Hb Hk Hlen Hkl. unfold ff_rss_thash_build_key. cbn [ts_rsskey ts_rsskey_len key_built thash4 thash6].
  set (len := ts_rsskey_len s) in *. set (n := Z.to_nat len).
  rewrite bool_decide_false by (intros E; rewrite E in Hkl; cbn in Hkl; lia).
  assert (2 ^ 6 <= 2 ^ r) by (apply Z.pow_le_mono_r; lia). rewrite Hb.
  destruct (Z.eqb_spec len 0), (Z.ltb_spec (2 ^ r) 2), (Z.ltb_spec 64 len); try lia. cbn [negb orb].
  rewrite reta_log2_spec by lia. cbn [res_bind].
  destruct (new_thash ex luck (ts_rsskey s) len r FF_RSS_THASH_V4_SPORT_OFF) as (ctx & h & -> & Hh & Hco & O1 & O2 & O3 & O4 & Hs);
    [done|done|done|lia|lia|done|unfold FF_RSS_THASH_V4_SPORT_OFF; lia|]. cbn [res_bind].
  destruct Hs as (L4 & B4 & _). fold n in L4. rewrite length_app, length_take in L4.
  destruct Hl as (_ & Hpad & _). assert (n <= length (hash_key ctx))%nat as Hn4 by lia.
  assert (length (take n (hash_key ctx)) = n) as Ln4 by (rewrite length_take; lia).
  destruct (new_thash ex6 luck6 (take n (hash_key ctx)) len r FF_RSS_THASH_V6_SPORT_OFF)
    as (ctx6 & h6 & -> & Hh6 & Hco6 & P1 & P2 & P3 & P4 & (L6 & B6 & S6));
    [done|by apply Forall_take|lia|lia|lia|done|unfold FF_RSS_THASH_V6_SPORT_OFF; lia|]. cbn [res_bind].
  fold n in L6, S6. rewrite length_app, length_take in L6. assert (n <= length (hash_key ctx6))%nat as Hn6 by lia.
  eexists. split; [done|]. cbn [publish ready ready6 ts_rsskey ts_rsskey_len thash4 thash6]. fold n.
  split; [done|]. split; [done|]. split; [done|]. split; [rewrite length_take; lia|]. split; [by apply Forall_take|].
  intros ports port Hreta. unfold nic_key, env_of. cbn [rsskey rsskey_len ts_rsskey ts_rsskey_len]. fold n.
  split; eexists _, _; (split; [done|]); (split; [done|]); (split; [done|]).
  - rewrite O1, O2, O3, O4. split; [done|]. split; [done|]. split; [lia|]. split; [done|]. intros data Hd. apply hash_ext. intros q Hq.
    unfold nic_key. cbn [rsskey rsskey_len]. fold n. rewrite !bit_of_take by (rewrite ?length_take; lia).
    rewrite S6; [|rewrite length_app, length_take; lia|left; unfold FF_RSS_THASH_V6_SPORT_OFF; lia].
    rewrite bit_of_app_l by (rewrite length_take; lia). by rewrite !bit_of_take by (rewrite ?length_take; lia).
  - rewrite P1, P2, P3, P4. split; [done|]. split; [done|]. split; [lia|]. split; [done|]. intros data Hd. apply hash_ext. intros q Hq.
    unfold nic_key. cbn [rsskey rsskey_len]. fold n. by rewrite !bit_of_take by (rewrite ?length_take; lia).
Qed.

(** ** Going round a range *)

(** [++x] and the wrap-around of both loops. *)
Definition next (f l c : Z) : Z :=
  let c := u16 (c + 1) in
  if (c <? f) || (l <? c) then f else c.

Section Round.
Variables f l : Z.
Hypothesis Hf : 0 <= f <= l.
Hypothesis Hl : l < 2 ^ 16.

Lemma next_range c : f <= next f l c <= l.
Proof. unfold next. destruct (Z.ltb_spec (u16 (c + 1)) f), (Z.ltb_spec l (u16 (c + 1))); cbn; lia. Qed.

Lemma next_in c : f <= c <= l -> next f l c = if c =? l then f else c + 1.
Proof.
  intros Hc. unfold next. destruct (Z.eqb_spec c l) as [->|Hne].
  - destruct (decide (l = 65535)) as [->|].
    + change (u16 (65535 + 1)) with 0. destruct (Z.ltb_spec 0 f), (Z.ltb_spec 65535 0); cbn; lia.
    + rewrite (wrapu_small 16) by lia. destruct (Z.ltb_spec (l + 1) f), (Z.ltb_spec l (l + 1)); cbn; lia.
  - rewrite (wrapu_small 16) by lia. destruct (Z.ltb_spec (c + 1) f), (Z.ltb_spec l (c + 1)); cbn; lia.
Qed.

Lemma next_iter j c : f <= c <= l -> Nat.iter j (next f l) c = f + (c - f + Z.of_nat j) mod (l - f + 1).
Proof.
  intros Hc. induction j as [|j IH]; [cbn; rewrite Z.mod_small; lia|]. rewrite Nat.iter_succ, IH.
  set (x := c - f + Z.of_nat j). pose proof (Z.mod_pos_bound x (l - f + 1) ltac:(lia)) as Hm.
  rewrite next_in by lia. replace (c - f + Z.of_nat (S j)) with (x + 1) by lia.
  destruct (Z.eqb_spec (f + x mod (l - f + 1)) l).
  - rewrite <- Z.add_mod_idemp_l by lia. replace (x mod (l - f + 1) + 1) with (l - f + 1) by lia. rewrite Z.mod_same by lia. lia.
  - rewrite <- Z.add_mod_idemp_l by lia. rewrite (Z.mod_small (_ + 1)) by lia. lia.
Qed.

(** Enough rounds come to every number. *)
Lemma next_covers c k x :
  l - f + 1 <= Z.of_nat k -> f <= x <= l -> exists j, (j < k)%nat /\ Nat.iter (S j) (next f l) c = x.
Proof.
  intros Hk Hx. pose proof (next_range c) as Hc. set (v := next f l c) in *.
  exists (Z.to_nat ((x - v) mod (l - f + 1))). pose proof (Z.mod_pos_bound (x - v) (l - f + 1) ltac:(lia)).
  split; [lia|]. rewrite Nat.iter_succ_r. fold v. rewrite next_iter, Z2Nat.id by lia.
  rewrite Z.add_mod_idemp_r by lia. replace (v - f + (x - v)) with (x - f) by lia. rewrite Z.mod_small by lia. lia.
Qed.
End Round.

(** What is answered: a free port among the candidates, or an error when
    there is none. *)
Definition answer (cand : Z -> Prop) (used used_scan : Z -> bool) (r : Z + Z) : Prop :=
  (exists x, cand x /\ r = inr (htons x) /\ used (htons x) = false) \/
  (r = inl EADDRNOTAVAIL /\ forall x, cand x -> used_scan (htons x) = true).

Lemma scan_range_loop test (busy : Z -> bool) f l k c :
  0 <= f <= l -> (forall x, f <= x <= l -> test (htons x) = Ok (busy x)) ->
  exists c' r, scan_range test f l k c = Ok (c', r) /\
    ((exists x, f <= x <= l /\ r = inr (htons x) /\ busy x = false) \/
     (r = inl EADDRNOTAVAIL /\ forall j, (j < k)%nat -> busy (Nat.iter (S j) (next f l) c) = true)).
Proof.
  intros Hf Ht. revert c. induction k as [|k IH]; intros c.
  { exists c, (inl EADDRNOTAVAIL). split; [done|]. right. split; [done|]. lia. }
  cbn [scan_range]. change (if (u16 (c + 1) <? f) || (l <? u16 (c + 1)) then f else u16 (c + 1)) with (next f l c).
  pose proof (next_range f l Hf c) as Hn. rewrite Ht by done. cbn [res_bind]. destruct (busy (next f l c)) eqn:E.
  - destruct (IH (next f l c)) as (c' & r & -> & Hr). exists c', r. split; [done|].
    destruct Hr as [Hr|[-> Hall]]; [by left|]. right. split; [done|]. intros [|j] Hj; [done|].
    rewrite Nat.iter_succ_r. apply Hall. lia.
  - exists (next f l c), (inr (htons (next f l c))). split; [done|]. left. by exists (next f l c).
Qed.

Lemma scan_range_spec test busy f l c :
  0 <= f <= l -> l < 2 ^ 16 -> (forall x, f <= x <= l -> test (htons x) = Ok (busy x)) ->
  exists c' r, scan_range test f l (Z.to_nat (l - f + 1)) c = Ok (c', r) /\
    ((exists x, f <= x <= l /\ r = inr (htons x) /\ busy x = false) \/
     (r = inl EADDRNOTAVAIL /\ forall x, f <= x <= l -> busy x = true)).
Proof.
  intros Hf Hl Ht. destruct (scan_range_loop test busy f l (Z.to_nat (l - f + 1)) c Hf Ht) as (c' & r & Hs & Hr).
  exists c', r. split; [done|]. destruct Hr as [Hr|[-> Hall]]; [by left|]. right. split; [done|]. intros x Hx.
  destruct (next_covers f l Hf Hl c (Z.to_nat (l - f + 1)) x ltac:(lia) Hx) as (j & Hj & <-). by apply Hall.
Qed.

(** ** The cursor of an entry *)

Definition cursor_at {A} (d : dip A) (x : Z) : dip A :=
  mk_dip (d_daddr d) (d_first d) (d_last d) (d_first_idx d) (d_last_idx d) (d_num d) (<[0 := u16 x]> (d_dport d)).

Lemma ports_are_cursor a l x : ports_are a l -> ports_are (<[0 := x]> a) l.
Proof. intros Ha i y Hy. rewrite lookup_insert_ne by lia. by apply Ha. Qed.

Lemma ports_between_cursor a x i j : 1 <= i -> ports_between (<[0 := x]> a) i j = ports_between a i j.
Proof.
  intros Hi. unfold ports_between. apply list_fmap_ext. intros k y Hy. apply lookup_seqZ in Hy as [-> _].
  by rewrite lookup_insert_ne by lia.
Qed.

Section Cursor.
Context {A : Type} `{Countable A}.
Variables (any : A) (fold : A -> Z).

(** The place of an entry in use. *)
Definition place_is (tbl : list (entry A)) (place : Z * Z) (e : entry A) (d : dip A) : Prop :=
  array_get tbl (fst place) = Ok e /\ array_get (e_dips e) (snd place) = Ok d /\ e_saddr e <> any /\ d_daddr d <> any.

Lemma find_dip_some fuel dips daddr ori idx i :
  find_dip any fuel dips daddr ori idx = Ok (Some i) -> exists d, array_get dips i = Ok d /\ d_daddr d <> any.
Proof.
  revert idx. induction fuel as [|fuel IH]; intros idx; [done|]. cbn [find_dip].
  destruct (array_get dips idx) as [d| |] eqn:E; [|done|done]. cbn [res_bind]. case_bool_decide; [done|].
  case_bool_decide; [intros [= <-]; by exists d|]. destruct (_ =? ori); [done|apply IH].
Qed.

Lemma find_entry_some fuel tbl saddr daddr sport ori idx i j :
  find_entry any fold fuel tbl saddr daddr sport ori idx = Ok (Some (i, j)) -> exists e d, place_is tbl (i, j) e d.
Proof.
  revert idx. induction fuel as [|fuel IH]; intros idx; [done|]. cbn [find_entry].
  destruct (array_get tbl idx) as [e| |] eqn:E; [|done|done]. cbn [res_bind]. case_bool_decide as He; [done|].
  destruct (entry_is e saddr sport).
  - destruct (find_dip any _ (e_dips e) daddr _ _) as [[di|]| |] eqn:Ed; try done. cbn. intros [= <- <-].
    destruct (find_dip_some _ _ _ _ _ _ Ed) as (d & Hd & Hda). by exists e, d.
  - destruct (_ =? ori); [done|apply IH].
Qed.

Lemma get_place tbl saddr daddr sport f l place :
  tbl_get_portrange any fold true tbl saddr daddr sport = Ok (inr (f, l, place)) -> exists e d, place_is tbl place e d.
Proof.
  unfold tbl_get_portrange. cbn [negb].
  destruct (find_entry any fold _ tbl saddr daddr sport _ _) as [[[i j]|]| |] eqn:E; try done. cbn [res_bind].
  destruct (find_entry_some _ _ _ _ _ _ _ _ _ E) as (e & d & H1 & H2 & Hr). cbn [fst snd] in H1, H2. rewrite H1. cbn [res_bind]. rewrite H2.
  cbn [res_bind]. intros [= <- <- <-]. by exists e, d.
Qed.

Lemma place_dip_at tbl place e d : place_is tbl place e d -> dip_at tbl place = Some d.
Proof.
  intros ([_ H1]%array_get_Ok & [_ H2]%array_get_Ok & _). unfold dip_at. rewrite H1. done.
Qed.

(** Moving the cursor keeps the table. *)
Lemma set_cursor_spec (F : dip_prop (A := A)) tbl s place e d x :
  (forall p k a d x, F p k a d -> F p k a (cursor_at d x)) ->
  tbl_rel any fold F tbl s -> place_is tbl place e d ->
  exists tbl' e', set_cursor tbl place x = Ok tbl' /\ tbl_rel any fold F tbl' s /\ place_is tbl' place e' (cursor_at d x).
Proof.
  intros HF [Ho Hp He] (H1 & H2 & Hea & Hda). unfold set_cursor. rewrite H1. cbn [res_bind]. rewrite H2. cbn [res_bind].
  unfold port_set, FF_RSS_TBL_MAX_DPORT. rewrite decide_True by lia. cbn [res_bind]. fold (cursor_at d x).
  apply array_get_Ok in H1 as [I1 H1], H2 as [I2 H2]. destruct place as [i j]. cbn [fst snd] in *.
  pose proof (lookup_lt_Some _ _ _ H1) as Li. pose proof (lookup_lt_Some _ _ _ H2) as Lj.
  rewrite (array_set_lt (e_dips e)) by lia. cbn [res_bind]. rewrite array_set_lt by lia.
  set (e' := mk_entry (e_saddr e) (e_sport e) (e_num e) (<[Z.to_nat j := cursor_at d x]> (e_dips e))).
  exists (<[Z.to_nat i := e']> tbl), e'. split; [done|].
  assert (eslot any e' = eslot any e) as Es by done. assert (dslot any (cursor_at d x) = dslot any d) as Ds by done.
  split.
  - destruct (oa_update _ _ _ _ _ _ e' Ho H1 Es) as [Ho' Hm]. split; [done|by rewrite Hm|].
    intros i' e'' Hi'. apply list_lookup_insert_Some in Hi' as [(<- & <- & _)|[_ Hi']]; [|by apply (He i')].
    pose proof (He _ _ H1) as Hx. rewrite Es. unfold eslot in *. rewrite decide_False in * by done.
    destruct Hx as (ds & Hds & [Do Dp Dd]). exists ds. split; [done|].
    destruct (oa_update _ _ _ _ _ _ (cursor_at d x) Do H2 Ds) as [Do' Dm]. split; [done|cbn; by rewrite Dm|].
    intros j' d' Hj'. cbn in Hj'. apply list_lookup_insert_Some in Hj' as [(<- & <- & _)|[_ Hj']]; [|by apply (Dd j')].
    pose proof (Dd _ _ H2) as Hy. rewrite Ds. unfold dslot in *. rewrite decide_False in * by done.
    destruct Hy as (p & Hp' & HFd). exists p. split; [done|by apply HF].
  - split; [apply array_get_Ok; split; [done|]; cbn; by rewrite list_lookup_insert_eq by done|].
    split; [apply array_get_Ok; split; [done|]; cbn; by rewrite list_lookup_insert_eq by done|done].
Qed.
End Cursor.

(** ** One family *)

Section Family.
Context {A : Type} `{Countable A}.
Variables (any : A) (fold : A -> Z).
Variable chk : Z -> A -> A -> Z -> Z -> res bool.
Variables (env : rss_env) (tuple : A -> A -> Z -> Z -> list Z) (cfgs : list (rss_cfg A)).
Hypothesis Hcfgs : Forall (nic_cfg any chk env tuple) cfgs.
Variables first last : Z.
Hypothesis Hfl : 0 <= first <= last.
Hypothesis Hlast : last < 2 ^ 16.
(** The range the table is set to, that of its first connection. *)
Variables tfirst tlast : Z.
Hypothesis Htfl : 0 <= tfirst <= tlast.
Variable enable : bool.
Hypothesis Hserved : forall saddr daddr sport l,
  nic_spec env tuple cfgs saddr daddr sport = Some l -> Exists (fun q => tfirst <= q <= tlast) l.

Let spec := foldl spec_add (∅ : gmap (A * Z) (gmap A Z)) cfgs.

(** The table before and after its range is set, or out of use. *)
Definition tables_ok (s : tables A) : Prop :=
  (t_init s = 0 /\ tbl_rel any fold (filled_prop chk) (t_tbl s) spec) \/
  (t_init s = 1 /\ tbl_rel any fold (ranged_prop chk tfirst tlast) (t_tbl s) spec) \/
  t_init s = -1.

(** The ports the table has for a connection. *)
Definition table_ports (s : tables A) (saddr daddr : A) (fport : Z) : option (list Z) :=
  if enable && negb (t_init s =? -1) then filter (fun p => tfirst <= p <= tlast) <$> nic_spec env tuple cfgs saddr daddr fport
  else None.

Lemma ranged_cursor p k a (d : dip A) x : ranged_prop chk tfirst tlast p k a d -> ranged_prop chk tfirst tlast p k a (cursor_at d x).
Proof. intros (H1 & H2 & H3). split; [done|]. split; [done|]. by apply ports_are_cursor. Qed.

(** The range is set once. *)
Lemma set_once s :
  enable = true -> tables_ok s -> (t_init s = 0 -> (tfirst, tlast) = (first, last)) -> t_init s <> -1 ->
  exists tbl, (if t_init s =? 0 then
      let* (tbl, ret) := tbl_set_portrange any enable (t_tbl s) first last in
      Ok (mk_tables (if ret <? 0 then -1 else 1) tbl)
    else Ok s) = Ok (mk_tables 1 tbl) /\ tbl_rel any fold (ranged_prop chk tfirst tlast) tbl spec.
Proof.
  intros -> [[Hi Hr]|[[Hi Hr]|Hi]] Hrg Hne; [| |done]; rewrite Hi; cbn [Z.eqb].
  - injection (Hrg Hi) as <- <-.
    destruct (set_range_refines any fold (filled_prop chk) (ranged_prop chk tfirst tlast) spec tfirst tlast)
      with (tbl := t_tbl s) as (tbl' & Hset & Hr'); [|done|].
    { intros [saddr sport] ds a p d Hk Ha HF. apply set_range_spec; [done|lia|]. apply (Hserved saddr a sport).
      rewrite <- (nic_spec_ports _ _ _ _ _ _ _ _ Hcfgs). unfold spec_ports, spec_lookup. fold spec. rewrite Hk. cbn. by rewrite Ha. }
    exists tbl'. split; [|done]. unfold tbl_set_portrange. destruct (Z.ltb_spec tlast tfirst); [lia|]. cbn [orb negb].
    by rewrite Hset.
  - exists (t_tbl s). split; [|done]. destruct s as [i tbl]. cbn in *. by rewrite Hi.
Qed.

(** The ports at a place: between two indices of an array that is long
    enough. *)
Definition ports_at (d : dip A) (f l : Z) (ports : list Z) : Prop :=
  1 <= f <= l /\ l <= 65535 /\ ports_between (d_dport d) f l = ports.

Lemma ranged_ports p saddr daddr sport (d : dip A) :
  spec_lookup spec saddr daddr sport = Some p -> ranged_prop chk tfirst tlast p (saddr, sport) daddr d ->
  exists ports, nic_spec env tuple cfgs saddr daddr sport = Some ports /\
    ports_at d (d_first_idx d) (d_last_idx d) (filter (fun q => tfirst <= q <= tlast) ports).
Proof.
  intros Hp (Hf & Hl & Hd). cbn [fst snd] in *. set (l := usable chk p saddr daddr sport) in *. exists l.
  assert (nic_spec env tuple cfgs saddr daddr sport = Some l) as Hspec.
  { rewrite <- (nic_spec_ports _ _ _ _ _ _ _ _ Hcfgs). unfold spec_ports. fold spec. by rewrite Hp. }
  split; [done|]. pose proof (Hserved _ _ _ _ Hspec) as Hex.
  pose proof (below_range tfirst tlast l (usable_sorted chk p saddr daddr sport) ltac:(lia)) as Hb.
  pose proof (usable_length chk p saddr daddr sport) as Hlen. fold l in Hlen.
  assert (below (tlast + 1) l <= length l)%nat as Hle by apply length_filter. unfold ports_at. rewrite Hf, Hl.
  split; [|split; [lia|rewrite (ports_between_slice _ _ _ _ Hd) by done; exact Hb]].
  apply (f_equal length) in Hb. rewrite length_drop, length_take in Hb. apply Exists_exists in Hex as (q & Hq & Hrange).
  assert (q ∈ filter (fun p => tfirst <= p <= tlast) l) as Hin by (by apply list_elem_of_filter).
  destruct (filter (fun p => tfirst <= p <= tlast) l); [by apply not_elem_of_nil in Hin|]. cbn in Hb. lia.
Qed.

Lemma rss_lookup_spec saddr daddr fport dorandom rnd s :
  tables_ok s -> (t_init s = 0 -> (tfirst, tlast) = (first, last)) ->
  exists s' m, rss_lookup any fold enable saddr daddr fport dorandom rnd first last s = Ok (s', m) /\ tables_ok s' /\
    match table_ports s saddr daddr fport with
    | None => m = None
    | Some ports => exists f l place e d, m = Some (f, l, place) /\ t_init s' = 1 /\
        place_is any (t_tbl s') place e d /\ ports_at d f l ports
    end.
Proof.
  intros Hs Hrg. unfold rss_lookup, table_ports.
  destruct enable eqn:Een; cbn [andb].
  2: { unfold tbl_set_portrange, tbl_get_portrange. rewrite orb_true_r. cbn [negb res_bind].
       destruct Hs as [[Hi _]|[[Hi _]|Hi]]; rewrite Hi; cbn [Z.eqb res_bind t_init]; rewrite ?Hi;
         do 2 eexists; (split; [reflexivity|]); (split; [|done]); right; right; done. }
  destruct (Z.eqb_spec (t_init s) (-1)) as [Hm1|Hm1]; cbn [negb].
  { rewrite Hm1. cbn. rewrite Hm1. cbn. exists s, None. split; [done|]. split; [right; by right|done]. }
  destruct (set_once s Een Hs Hrg Hm1) as (tbl & Hset & Hr). rewrite Een in Hset. rewrite Hset. cbn [res_bind t_init t_tbl Z.eqb].
  pose proof (get_refines any fold _ tbl spec saddr daddr fport Hr) as Hg. cbn zeta in Hg.
  destruct (spec_lookup spec saddr daddr fport) as [p|] eqn:Ep.
  2: { rewrite Hg. cbn [res_bind]. rewrite Z.eqb_refl. unfold nic_spec. fold spec. rewrite Ep. cbn. do 2 eexists. split; [done|]. split; [|done].
       right. left. by split. }
  destruct Hg as (place & d & Hg & Hat & HF). rewrite Hg. cbn [res_bind].
  destruct (get_place any fold _ _ _ _ _ _ _ Hg) as (e & d' & Hpl). pose proof (place_dip_at any _ _ _ _ Hpl) as Hat'.
  assert (d' = d) as -> by congruence. destruct (ranged_ports p saddr daddr fport d Ep HF) as (ports & Hsp & Hpo).
  rewrite Hsp. cbn [fmap option_fmap option_map]. destruct dorandom.
  - destruct Hpo as (Hf & Hl & Hb). destruct (Z.eqb_spec (d_last_idx d - d_first_idx d + 1) 0); [lia|].
    destruct (set_cursor_spec any fold _ tbl spec place e d (d_first_idx d + rnd mod u32 (d_last_idx d - d_first_idx d + 1))
      ranged_cursor Hr Hpl) as (tbl' & e' & -> & Hr' & Hpl'). cbn [res_bind]. do 2 eexists. split; [done|].
    split; [right; left; by split|]. do 5 eexists. split; [done|]. split; [done|]. split; [exact Hpl'|].
    split; [done|]. split; [done|]. cbn. by rewrite ports_between_cursor by lia.
  - do 2 eexists. split; [done|]. split; [right; left; by split|]. do 5 eexists. split; [done|]. split; [done|]. by split.
Qed.

(** The loop over the ports of an entry. *)
Lemma scan_table_loop used_scan f l place (pt : Z -> Z) k tbl lp e (d : dip A) c :
  1 <= f <= l -> l <= 65535 ->
  tbl_rel any fold (ranged_prop chk tfirst tlast) tbl spec -> place_is any tbl place e d ->
  (forall i, f <= i <= l -> default 0 (d_dport d !! i) = pt i) -> default 0 (d_dport d !! 0) = c ->
  exists tbl' lp' r, scan_table used_scan f l place k tbl lp = Ok (tbl', lp', r) /\
    tbl_rel any fold (ranged_prop chk tfirst tlast) tbl' spec /\
    ((exists i, f <= i <= l /\ r = inr (htons (pt i)) /\ used_scan (htons (pt i)) = false) \/
     (r = inl EADDRNOTAVAIL /\ forall j, (j < k)%nat -> used_scan (htons (pt (Nat.iter (S j) (next f l) c))) = true)).
Proof.
  intros Hf Hl. revert tbl lp e d c. induction k as [|k IH]; intros tbl lp e d c Hr Hpl Hpt Hc.
  { exists tbl, lp, (inl EADDRNOTAVAIL). split; [done|]. split; [done|]. right. split; [done|]. lia. }
  cbn [scan_table]. unfold place_dip at 1. destruct (Hpl) as (H1 & H2 & _). rewrite H1. cbn [res_bind]. rewrite H2. cbn [res_bind].
  unfold port_get at 1, FF_RSS_TBL_MAX_DPORT. rewrite decide_True, Hc by lia. cbn [res_bind].
  change (if (u16 (c + 1) <? f) || (l <? u16 (c + 1)) then f else u16 (c + 1)) with (next f l c).
  pose proof (next_range f l ltac:(lia) c) as Hn.
  destruct (set_cursor_spec any fold _ tbl spec place e d (next f l c) ranged_cursor Hr Hpl) as (tbl' & e' & -> & Hr' & Hpl').
  cbn [res_bind]. unfold place_dip. destruct (Hpl') as (H1' & H2' & _). rewrite H1'. cbn [res_bind]. rewrite H2'. cbn [res_bind].
  assert (forall i, f <= i <= l -> default 0 (d_dport (cursor_at d (next f l c)) !! i) = pt i) as Hpt'.
  { intros i Hi. cbn. rewrite lookup_insert_ne by lia. by apply Hpt. }
  unfold port_get, FF_RSS_TBL_MAX_DPORT. rewrite decide_True by lia. rewrite Hpt' by done. cbn [res_bind].
  destruct (used_scan (htons (pt (next f l c)))) eqn:E.
  - destruct (IH tbl' (pt (next f l c)) e' (cursor_at d (next f l c)) (next f l c) Hr' Hpl' Hpt') as (tbl2 & lp2 & r & Hs & Hr2 & Hres).
    { cbn. rewrite lookup_insert_eq. cbn. apply (wrapu_small 16). lia. }
    exists tbl2, lp2, r. split; [done|]. split; [done|]. destruct Hres as [Hres|[-> Hall]]; [by left|]. right. split; [done|].
    intros [|j] Hj; [done|]. rewrite Nat.iter_succ_r. apply Hall. lia.
  - do 3 eexists. split; [done|]. split; [done|]. left. by exists (next f l c).
Qed.

Lemma scan_table_spec used_scan f l place ports tbl lp e (d : dip A) :
  tbl_rel any fold (ranged_prop chk tfirst tlast) tbl spec -> place_is any tbl place e d -> ports_at d f l ports ->
  exists tbl' lp' r, scan_table used_scan f l place (Z.to_nat (l - f + 2)) tbl lp = Ok (tbl', lp', r) /\
    tbl_rel any fold (ranged_prop chk tfirst tlast) tbl' spec /\ answer (fun x => x ∈ ports) used_scan used_scan r.
Proof.
  intros Hr Hpl (Hf & Hl & <-).
  destruct (scan_table_loop used_scan f l place (fun i => default 0 (d_dport d !! i)) (Z.to_nat (l - f + 2)) tbl lp e d _
    Hf Hl Hr Hpl (fun _ _ => eq_refl) eq_refl) as (tbl' & lp' & r & Hs & Hr' & Hres).
  exists tbl', lp', r. split; [done|]. split; [done|]. unfold answer, ports_between. destruct Hres as [(i & Hi & -> & Hu)|[-> Hall]].
  - left. eexists. split; [|done]. apply list_elem_of_fmap. exists i. split; [done|]. apply elem_of_seqZ. lia.
  - right. split; [done|]. intros x Hx. apply list_elem_of_fmap in Hx as (i & -> & Hi%elem_of_seqZ).
    destruct (next_covers f l ltac:(lia) ltac:(lia) (default 0 (d_dport d !! 0)) (Z.to_nat (l - f + 2)) i) as (j & Hj & <-); [lia|lia|].
    by apply Hall.
Qed.

(** ** Without an entry *)

Section Scan.
Variables (saddr daddr : A) (fport : Z).
Variable adjust_sport : Z -> nat -> Z -> Z -> res (option Z).
Variables used used_scan : Z -> bool.
Hypothesis Hused : forall lport, used lport = true -> used_scan lport = true.

(** The packets of a connection from port [x] come to the thread. *)
Definition own_port (ifp : ifnet) (x : Z) : Prop :=
  match ifp with
  | Softc port => nic_owns env port (tuple saddr daddr fport (htons x)) = true
  | _ => True
  end.

(** What the calculation and the queue test promise for an interface. *)
Class IfaceOk (ifp : ifnet) : Prop := {
  if_softc : ifp <> NoSoftc;
  if_check : forall port lport, ifp = Softc port ->
    chk port saddr daddr fport lport = Ok (nic_owns env port (tuple saddr daddr fport lport));
  if_adjust : forall port i, ifp = Softc port -> exists o, adjust_sport port i first last = Ok o /\
    forall x, o = Some x -> first <= x <= last /\ own_port ifp x
}.

Lemma fast_loop_spec ifp k i :
  IfaceOk ifp -> ifp <> Loopback ->
  exists o, fast_loop adjust_sport used ifp first last k i = Ok o /\
    forall x, o = Some x -> first <= x <= last /\ own_port ifp x /\ used (htons x) = false.
Proof.
  intros [Hs _ Ha] Hl. destruct ifp as [port| |]; [|done|done]. clear Hs Hl. revert i. induction k as [|k IH]; intros i.
  { by exists None. }
  cbn [fast_loop softc_port res_bind]. destruct (Ha port i eq_refl) as ([x|] & -> & Hx); cbn [res_bind]; [|by exists None].
  destruct (Hx x eq_refl) as [H1 H2]. destruct (used (htons x)) eqn:Eu; [apply IH|].
  exists (Some x). split; [done|]. by intros ? [= <-].
Qed.

Lemma busy_spec ifp lport :
  IfaceOk ifp ->
  exists b, busy (fun port_id lport => chk port_id saddr daddr fport lport) used_scan ifp lport = Ok b /\
    (b = false <-> used_scan lport = false /\ forall port, ifp = Softc port -> nic_owns env port (tuple saddr daddr fport lport) = true).
Proof.
  intros [Hs Hc _]. unfold busy. destruct (used_scan lport); [exists true; naive_solver|].
  destruct ifp as [port| |]; [|exists false; naive_solver|done].
  cbn [softc_port res_bind]. rewrite (Hc port lport eq_refl). cbn [res_bind]. eexists. split; [done|].
  rewrite negb_false_iff. naive_solver.
Qed.

Lemma scan_ports_spec ifp lp :
  IfaceOk ifp ->
  exists lp' r, scan_range (busy (fun port_id lport => chk port_id saddr daddr fport lport) used_scan ifp) first last
      (Z.to_nat (last - first + 1)) lp = Ok (lp', r) /\
    answer (fun x => first <= x <= last /\ own_port ifp x) used used_scan r.
Proof.
  intros Hi. set (test := busy _ used_scan ifp).
  destruct (scan_range_spec test (fun x => match test (htons x) with Ok b => b | _ => false end) first last lp Hfl Hlast)
    as (lp' & r & Hs & Hr).
  { intros x _. unfold test. destruct (busy_spec ifp (htons x) Hi) as (b & -> & _). done. }
  exists lp', r. split; [done|]. unfold answer. destruct Hr as [(x & Hx & -> & Hb)|[-> Hall]].
  - left. exists x. unfold test in Hb. destruct (busy_spec ifp (htons x) Hi) as (b & Eb & Hiff). rewrite Eb in Hb.
    apply Hiff in Hb as [Hu Ho]. split; [|split; [done|]].
    + split; [done|]. destruct ifp; try done. by apply Ho.
    + destruct (used (htons x)) eqn:E; [|done]. apply Hused in E. congruence.
  - right. split; [done|]. intros x [Hx Ho]. specialize (Hall x Hx). unfold test in Hall.
    destruct (busy_spec ifp (htons x) Hi) as (b & Eb & Hiff). rewrite Eb in Hall. subst b.
    destruct (used_scan (htons x)) eqn:E; [done|]. exfalso. assert (true = false) as ?; [|done]. apply Hiff. split; [done|].
    intros port ->. exact Ho.
Qed.

(** The ports a connection may have. *)
Definition candidate (s : tables A) (ifp : option ifnet) (x : Z) : Prop :=
  match table_ports s saddr daddr fport with
  | Some ports => x ∈ ports
  | None => match ifp with Some ifp => first <= x <= last /\ own_port ifp x | None => False end
  end.

Lemma lport_rss_spec dorandom rnd rnd_last ifa_lsa ifa_fsa s lp :
  let ifp := match ifa_lsa with Some ifp => Some ifp | None => ifa_fsa end in
  tables_ok s -> (t_init s = 0 -> (tfirst, tlast) = (first, last)) -> (forall i, ifp = Some i -> IfaceOk i) ->
  exists s' lp' r, lport_rss any fold enable saddr daddr fport adjust_sport
      (fun port_id lport => chk port_id saddr daddr fport lport) used used_scan
      dorandom rnd rnd_last first last ifa_lsa ifa_fsa s lp = Ok (s', lp', r) /\
    tables_ok s' /\ answer (candidate s ifp) used used_scan r.
Proof.
  intros ifp Hs Hrg Hif. unfold lport_rss, candidate. fold ifp.
  destruct (rss_lookup_spec saddr daddr fport dorandom rnd s Hs Hrg) as (s1 & m & -> & Hs1 & Hm). cbn [res_bind].
  destruct (table_ports s saddr daddr fport) as [ports|].
  - destruct Hm as (f & l & place & e & d & -> & Hi & Hpl & Hpo).
    destruct Hs1 as [[? _]|[[_ Hr]|?]]; [congruence| |congruence].
    destruct (scan_table_spec used_scan f l place ports (t_tbl s1) lp e d Hr Hpl Hpo) as (tbl' & lp' & r & -> & Hr' & Ha).
    cbn [res_bind]. do 3 eexists. split; [done|]. split; [right; left; by split|].
    destruct Ha as [(x & Hx & -> & Hu)|Ha]; [left|right; exact Ha]. exists x. split; [done|]. split; [done|].
    destruct (used (htons x)) eqn:E; [|done]. apply Hused in E. congruence.
  - subst m. destruct ifp as [i|]; [|do 3 eexists; split; [done|]; split; [done|]; right; by split].
    specialize (Hif i eq_refl).
    assert (exists o, match i with Loopback => Ok None | _ => fast_loop adjust_sport used i first last 8 0 end = Ok o /\
      forall x, o = Some x -> first <= x <= last /\ own_port i x /\ used (htons x) = false) as (o & -> & Ho).
    { destruct i as [port| |]; [by apply fast_loop_spec|by exists None|by apply fast_loop_spec]. }
    cbn [res_bind]. destruct o as [x|].
    + destruct (Ho x eq_refl) as (H1 & H2 & H3). do 3 eexists. split; [done|]. split; [done|]. left. by exists x.
    + match goal with |- context [scan_range _ _ _ _ ?lp] => destruct (scan_ports_spec i lp Hif) as (lp' & r & -> & Ha) end.
      cbn [res_bind]. by exists s1, lp', r.
Qed.
End Scan.
End Family.

(** ** Both families *)

(** What is ready is for the key of the NIC. *)
Definition thash_ok (env : rss_env) (ts : thash_state) (port : Z) : Prop :=
  (ready ts = true -> thash_for env port 12 (thash4 ts)) /\ (ready6 ts = true -> thash_for env port 36 (thash6 ts)).

(** A port of a NIC with more entries in its table than the thread's queue. *)
Definition queue_ok (env : rss_env) (port : Z) : Prop :=
  rss_ok env port /\ queueid (rss_ports env port) < reta_size (rss_ports env port).

Definition addr6_ok (a : list Z) : Prop := Forall byte a /\ length a = 16%nat.

(** A calculated port, and when there is one. *)
Definition calculated (env : rss_env) (cfg : adjust_cfg) (is_ready : bool) (port : Z) (tuple : Z -> list Z)
    (first last : Z) (r : res (option Z)) : Prop :=
  exists o, r = Ok o /\
    (forall x, o = Some x -> first <= x <= last /\ nic_owns env port (tuple (htons x)) = true) /\
    (is_ready = true -> a_thash_adjust cfg = true -> 1 < nb_queues (rss_ports env port) -> has_block env port first last -> is_Some o).

Lemma adjust4_spec env cfg ts port saddr daddr dport behind r1 r2 first last :
  queue_ok env port -> (ready ts = true -> thash_for env port 12 (thash4 ts)) ->
  0 <= first <= last -> last < 2 ^ 16 -> Forall byte behind -> behind <> [] ->
  calculated env cfg (ready ts) port (tuple4 saddr daddr dport) first last
    (ff_rss_adjust_sport env cfg ts port saddr daddr dport behind r1 r2 first last).
Proof.
  intros [Hok Hq] Ht Hf Hl Hb Hne.
  apply (adjust_spec env port 12 (le_bytes 4 saddr ++ le_bytes 4 daddr ++ le_bytes 2 dport)); try done.
  - rewrite !Forall_app. repeat split; apply le_bytes_byte.
  - intros sport. by apply rss_check_nic.
Qed.

Lemma adjust6_spec env cfg ts port saddr6 daddr6 dport behind r1 r2 first last :
  queue_ok env port -> (ready6 ts = true -> thash_for env port 36 (thash6 ts)) ->
  addr6_ok saddr6 -> addr6_ok daddr6 ->
  0 <= first <= last -> last < 2 ^ 16 -> Forall byte behind -> behind <> [] ->
  calculated env cfg (ready6 ts) port (tuple6 saddr6 daddr6 dport) first last
    (ff_rss_adjust_sport6 env cfg ts port saddr6 daddr6 dport behind r1 r2 first last).
Proof.
  intros [Hok Hq] Ht [Bs Ls] [Bd Ld] Hf Hl Hb Hne.
  apply (adjust_spec env port 36 (saddr6 ++ daddr6 ++ le_bytes 2 dport)); try done.
  - rewrite !Forall_app. repeat split; [done|done|apply le_bytes_byte].
  - rewrite !length_app, le_bytes_length. lia.
  - intros sport. unfold tuple6. by rewrite <- !app_assoc.
  - intros sport. by apply rss_check6_nic.
Qed.

(** The interface of the local address or else of the foreign one. *)
Definition iface (r : request) : option ifnet :=
  match r_ifa_lsa r with Some ifp => Some ifp | None => r_ifa_fsa r end.

Definition ifnet_ok (env : rss_env) (ts : thash_state) (ifp : ifnet) : Prop :=
  match ifp with
  | Softc port => queue_ok env port /\ thash_ok env ts port
  | Loopback => True
  | NoSoftc => False
  end.

Section Dest.
Variables (env : rss_env) (cfg : adjust_cfg) (ts : thash_state) (enable : bool).
Variables (cfgs : list (rss_cfg Z)) (cfgs6 : list (rss_cfg (list Z))).

(** The tables, which were or are going to be set to the ranges [rg4] and [rg6]. *)
Definition both_tables_ok (rg4 rg6 : Z * Z) (s : pcb_state) : Prop :=
  tables_ok 0 fold4 (ff_rss_check env) cfgs rg4.1 rg4.2 (tables4 s) /\
  tables_ok in6_any ff_in6_fold (ff_rss_check6 env) cfgs6 rg6.1 rg6.2 (tables6 s).

(** A range is one of ports, and leaves every entry of the table a port. *)
Definition serves (spec : option (list Z) -> Prop) (rg : Z * Z) : Prop :=
  0 <= rg.1 <= rg.2 /\ forall l, spec (Some l) -> Exists (fun q => rg.1 <= q <= rg.2) l.

(** A stack that is set up, and a request of it for a port between [first] and
    [last].  A table whose range is not set yet gets that of the request. *)
Record lport_ok (e : pcb_env) (r : request) (s : pcb_state) (rg4 rg6 : Z * Z) (first last : Z) : Prop := {
  lo_range : port_range e r = (first, last) /\ 0 <= first <= last /\ last < 2 ^ 16;
  lo_behind : Forall byte (stack_behind e) /\ stack_behind e <> [];
  lo_family : r_rss r = true -> r_lsa_inet6 r = r_ipv6 r;
  lo_addr6 : r_rss r = true -> r_ipv6 r = true -> addr6_ok (r_faddr6 r) /\ addr6_ok (r_laddr6 r);
  lo_cfgs : Forall (cfg4 env) cfgs /\ Forall (cfg6 env) cfgs6;
  lo_served4 : serves (fun o => exists saddr daddr sport, nic_spec env tuple4 cfgs saddr daddr sport = o) rg4;
  lo_served6 : serves (fun o => exists saddr daddr sport, nic_spec env tuple6 cfgs6 saddr daddr sport = o) rg6;
  lo_tables : both_tables_ok rg4 rg6 s;
  lo_unset : (t_init (tables4 s) = 0 -> rg4 = (first, last)) /\ (t_init (tables6 s) = 0 -> rg6 = (first, last));
  lo_iface : forall ifp, iface r = Some ifp -> ifnet_ok env ts ifp
}.

(** The ports the request may have. *)
Definition candidates (e : pcb_env) (r : request) (s : pcb_state) (rg4 rg6 : Z * Z) (first last : Z) : Z -> Prop :=
  if r_rss r then
    if r_ipv6 r then
      candidate env tuple6 cfgs6 first last rg6.1 rg6.2 enable (r_faddr6 r) (r_laddr6 r) (r_fport r) (tables6 s) (iface r)
    else candidate env tuple4 cfgs first last rg4.1 rg4.2 enable (r_faddr r) (r_laddr r) (r_fport r) (tables4 s) (iface r)
  else fun x => first <= x <= last.

(** Whether a port is in use, for one that is given and for one that is
    passed over: a socket for both families looks at both when it tries one
    port after the other. *)
Definition in_use (e : pcb_env) (r : request) : Z -> bool :=
  if r_rss r then if r_ipv6 r then pcblookup_local6 e else pcblookup_local e (r_laddr r)
  else if r_fsa r then pcblookup_conn e else lookup_local e r.

Definition passed_over (e : pcb_env) (r : request) : Z -> bool :=
  if r_rss r then lookup_local e r else if r_fsa r then pcblookup_conn e else lookup_local e r.

Lemma lport_rss4_spec e r s rg4 rg6 first last dorandom lp :
  lport_ok e r s rg4 rg6 first last -> r_ipv6 r = false ->
  exists t lp' ret, lport_rss4 env cfg ts enable e r dorandom first last (tables4 s) lp = Ok (t, lp', ret) /\
    tables_ok 0 fold4 (ff_rss_check env) cfgs rg4.1 rg4.2 t /\
    answer (candidate env tuple4 cfgs first last rg4.1 rg4.2 enable (r_faddr r) (r_laddr r) (r_fport r) (tables4 s) (iface r))
      (pcblookup_local e (r_laddr r)) (lookup_local e r) ret.
Proof.
  intros [(_ & Hf & Hl) [Hb Hne] _ _ [Hc _] [Hg Hs] _ [Ht _] [Hu _] Hif] H6.
  apply lport_rss_spec; [by apply cfg4_nic|done|done|done|naive_solver| |done| |].
  - intros lport ?. unfold lookup_local, laddr_of. by rewrite H6.
  - intros H0. rewrite <- (Hu H0). by destruct rg4.
  - intros ifp Hi. specialize (Hif ifp Hi). destruct ifp as [port| |]; [|by split|done]. destruct Hif as [Hq [H4 _]]. split; [done| |].
    + intros port' lport [= <-]. destruct Hq. by apply rss_check_nic.
    + intros port' i [= <-]. destruct (rnd_adjust e i) as [r1 r2].
      destruct (adjust4_spec env cfg ts port (r_faddr r) (r_laddr r) (r_fport r) (stack_behind e) r1 r2 first last Hq H4 Hf Hl Hb Hne)
        as (o & -> & Ho & _). by exists o.
Qed.

Lemma lport_rss6_spec e r s rg4 rg6 first last dorandom lp :
  lport_ok e r s rg4 rg6 first last -> r_rss r = true -> r_ipv6 r = true ->
  exists t lp' ret, lport_rss6 env cfg ts enable e r dorandom first last (tables6 s) lp = Ok (t, lp', ret) /\
    tables_ok in6_any ff_in6_fold (ff_rss_check6 env) cfgs6 rg6.1 rg6.2 t /\
    answer (candidate env tuple6 cfgs6 first last rg6.1 rg6.2 enable (r_faddr6 r) (r_laddr6 r) (r_fport r) (tables6 s) (iface r))
      (pcblookup_local6 e) (lookup_local e r) ret.
Proof.
  intros [(_ & Hf & Hl) [Hb Hne] _ Ha [_ Hc] _ [Hg Hs] [_ Ht] [_ Hu] Hif] Hr H6. destruct (Ha Hr H6) as [Af Al].
  apply lport_rss_spec; [by apply cfg6_nic|done|done|done|naive_solver| |done| |].
  - intros lport Hl6. unfold lookup_local. by rewrite H6, Hl6.
  - intros H0. rewrite <- (Hu H0). by destruct rg6.
  - intros ifp Hi. specialize (Hif ifp Hi). destruct ifp as [port| |]; [|by split|done]. destruct Hif as [Hq [_ H4]]. split; [done| |].
    + intros port' lport [= <-]. destruct Hq, Af, Al. by apply rss_check6_nic.
    + intros port' i [= <-]. destruct (rnd_adjust e i) as [r1 r2].
      destruct (adjust6_spec env cfg ts port (r_faddr6 r) (r_laddr6 r) (r_fport r) (stack_behind e) r1 r2 first last Hq H4 Af Al Hf Hl Hb Hne)
        as (o & -> & Ho & _). by exists o.
Qed.
End Dest.

Lemma set_lastport_tables r s x : tables4 (set_lastport r s x) = tables4 s /\ tables6 (set_lastport r s x) = tables6 s.
Proof. unfold set_lastport. by destruct (r_highport r), (r_lowport r). Qed.

(** ** Properties *)


(** C16: [in_pcb_lport_dest] on a stack that is set up, its tables before or
    after their ranges are set, returns, with its tables in order, and gives a
    port that is free and that the request may have.  For a connection whose
    remote address has an entry in the table that is one of the entry's ports
    in the range of the table itself, that of the first connection there was; for
    any other connection it is one of the range of the request whose packets the
    NIC puts on the thread's own queue (any of the range on the loopback), and
    without a connection any of the range.  It fails with [EADDRNOTAVAIL] only
    if all of these ports are in use or there is no interface, and otherwise only
    for want of the privilege for low ports.  The range of a table has to leave
    each entry a port, there is memory behind the tuple, and the thread's queue
    is in the indirection table. *)
Theorem lport_dest_correct env cfg ts enable cfgs cfgs6 e r s rg4 rg6 first last :
  lport_ok env ts cfgs cfgs6 e r s rg4 rg6 first last ->
  exists s' ret, in_pcb_lport_dest env cfg ts enable e r s = Ok (s', ret) /\
    both_tables_ok env cfgs cfgs6 rg4 rg6 s' /\
    if negb (r_highport r) && r_lowport r && negb (priv_check_cred e =? 0) then ret = inl (priv_check_cred e)
    else answer (candidates env enable cfgs cfgs6 e r s rg4 rg6 first last) (in_use e r) (passed_over e r) ret.
Proof.
  intros Hok. pose proof Hok as [(Hr & Hf & Hl) _ Hfam _ _ _ _ [H4 H6] _ _]. unfold in_pcb_lport_dest.
  destruct (negb (r_highport r) && r_lowport r && negb (priv_check_cred e =? 0)); [by exists s, (inl (priv_check_cred e))|].
  rewrite Hr. unfold candidates, in_use, passed_over. destruct (r_rss r) eqn:Erss.
  - rewrite (Hfam eq_refl), eqb_reflx. cbn [negb]. destruct (r_ipv6 r) eqn:E6.
    + destruct (lport_rss6_spec env cfg ts enable cfgs cfgs6 e r s rg4 rg6 first last (ipport_randomized e && negb (first =? last))
        (get_lastport r s) Hok Erss E6) as (t & lp & ret & -> & Ht & Ha).
      cbn [res_bind]. do 2 eexists. split; [done|]. split; [|exact Ha]. split; [|done]. cbn. by rewrite (proj1 (set_lastport_tables r s lp)).
    + destruct (lport_rss4_spec env cfg ts enable cfgs cfgs6 e r s rg4 rg6 first last (ipport_randomized e && negb (first =? last))
        (get_lastport r s) Hok E6) as (t & lp & ret & -> & Ht & Ha).
      cbn [res_bind]. do 2 eexists. split; [done|]. split; [|exact Ha]. split; [done|]. cbn. by rewrite (proj2 (set_lastport_tables r s lp)).
  - set (used := if r_fsa r then pcblookup_conn e else lookup_local e r).
    match goal with |- context [scan_range ?t _ _ _ ?lp] =>
      destruct (scan_range_spec t (fun x => used (htons x)) first last lp Hf Hl) as (lp' & ret & -> & Hs) end.
    { intros x _. unfold used. by destruct (r_fsa r). }
    cbn [res_bind]. do 2 eexists. split; [done|]. split; [|exact Hs].
    unfold both_tables_ok. by destruct (set_lastport_tables r s lp') as [-> ->].
Qed.

(** ** Witnesses *)

Definition demo_luck : thash_luck := mk_luck demo_pad [0; 0x2a].
Definition demo_state : thash_state := mk_thash_state false None false None false default_rsskey_40bytes 40.
Definition demo_ports (_ : Z) : rss_port := mk_rss_port 3 64 1.


(** No socket has a port. *)
Definition demo_pcb : pcb_env :=
  mk_pcb_env 0 0 0 0 1000 1010 true 0 (fun _ _ => false) (fun _ => false) (fun _ => false) 5 5 (fun _ => (0, 0)) [0].

Definition demo_request : request :=
  mk_request false false true false true false true 0x0200007f 0x0100007f [] [] 0x5000 (Some (Softc 0)) None.

Definition no_thash : thash_state := mk_thash_state false None false None false [] 0.

(** The first connection to an address that is in the table. *)
Lemma lport_dest_correct_witness :
  exists tbl tbl6 s' x, ff_rss_tbl_init demo_env [demo_cfg] = Ok tbl /\
    in_pcb_lport_dest demo_env (mk_adjust_cfg true true) no_thash true demo_pcb demo_request
      (mk_pcb_state 0 0 0 (mk_tables 0 tbl) (mk_tables 0 tbl6)) = Ok (s', inr (htons x)) /\
    1000 <= x <= 1010 /\ x ∈ nic_ports demo_env 0 (tuple4 0x0100007f 0x0200007f 0x5000).
Proof.
  destruct demo_cfgs_ok as [C4 C6].
  destruct (tbl_init_refines 0 fold4 (ff_rss_check demo_env) [demo_cfg] (nic_cfg_ok _ _ _ _ _ (cfg4_nic _ _ C4))) as (tbl & Hi & Hr).
  destruct (tbl_init_refines in6_any ff_in6_fold (ff_rss_check6 demo_env) [demo_cfg6] (nic_cfg_ok _ _ _ _ _ (cfg6_nic _ _ C6)))
    as (tbl6 & _ & Hr6).
  destruct (lport_dest_correct demo_env (mk_adjust_cfg true true) no_thash true [demo_cfg] [demo_cfg6] demo_pcb demo_request
    (mk_pcb_state 0 0 0 (mk_tables 0 tbl) (mk_tables 0 tbl6)) (1000, 1010) (1000, 1010) 1000 1010) as (s' & ret & Hp & _ & Ha).
  - split.
    + split; [reflexivity|lia].
    + split; [apply Forall_singleton; unfold byte; lia|discriminate].
    + reflexivity.
    + discriminate.
    + split; [exact C4|exact C6].
    + split; [cbn; lia|]. intros l (? & ? & ? & Hl). exact (demo_served _ _ _ _ Hl).
    + split; [cbn; lia|]. intros l (? & ? & ? & Hl). exact (demo_served6 _ _ _ _ Hl).
    + split; left; (split; [reflexivity|assumption]).
    + split; reflexivity.
    + intros ifp [= <-]. split; [split; [exact demo_env_ok|cbn; lia]|]. split; discriminate.
  - assert (Hspec : nic_spec demo_env tuple4 [demo_cfg] 0x0100007f 0x0200007f 0x5000 =
      Some (nic_ports demo_env 0 (tuple4 0x0100007f 0x0200007f 0x5000))) by reflexivity.
    assert (Hcand : forall x, candidates demo_env true [demo_cfg] [demo_cfg6] demo_pcb demo_request
        (mk_pcb_state 0 0 0 (mk_tables 0 tbl) (mk_tables 0 tbl6)) (1000, 1010) (1000, 1010) 1000 1010 x <->
      1000 <= x <= 1010 /\ x ∈ nic_ports demo_env 0 (tuple4 0x0100007f 0x0200007f 0x5000)).
    { intros x. unfold candidates, candidate, table_ports. cbn [r_rss r_ipv6 demo_request t_init tables4 Z.eqb negb andb].
      cbn [r_faddr r_laddr r_fport demo_request]. rewrite Hspec. cbn [fmap option_fmap option_map]. by rewrite list_elem_of_filter. }
    destruct Ha as [(x & Hx & -> & _)|[_ Hall]].
    + exists tbl, tbl6, s', x. split; [exact Hi|]. split; [exact Hp|]. apply Hcand. exact Hx.
    + exfalso. destruct (proj1 (Exists_exists _ _) (demo_served _ _ _ _ Hspec)) as (x & Hin & Hx).
      specialize (Hall x (proj2 (Hcand x) (conj Hx Hin))). discriminate Hall.
Defined.

(** ** A range that is set once

    The ranges of the entries are those of the first connection: later ones
    with another range get a port outside of theirs.  Here the entry has port
    100, and the request asks for one between 1000 and 1010. *)
Definition other_range : list (entry Z) :=
  <[1%nat := mk_entry 1 0 1 (<[1%nat := mk_dip 1 100 100 1 1 1 {[1 := 100]}]> (replicate 4 (empty_dip 0)))]> (empty_table 0).

Example portrange_set_once :
  exists s', in_pcb_lport_dest demo_env (mk_adjust_cfg true true) no_thash true demo_pcb
    (mk_request false false true false true false true 1 1 [] [] 0 (Some (Softc 0)) None)
    (mk_pcb_state 0 0 0 (mk_tables 1 other_range) (mk_tables (-1) [])) = Ok (s', inr (htons 100)).
Proof. eexists. vm_compute. reflexivity. Qed.
