(* ===== verification/Heap.v ===== *)
(** * The heap of the user space threads and its timers

    [src/adapter/micro_thread/heap.h]: a binary minimum heap of pointers with
    room for [_max] of them, positions counted from 1, in which every entry
    knows its own position, so that any entry can be taken out.
    [src/adapter/micro_thread/heap_timer.cpp]: the timers kept in such a heap.

    An entry is the address of a [HeapEntry]; [HeapValue], a virtual method of
    the entries, is an argument.  The [_index] fields of all entries are one
    map, 0 for an entry that was never in the heap. *)

From S2P Require Import Prelude.

Module Heap.

Record heap := mkHeap {
  _list : list (option Z);
  _max : Z;
  _count : Z;
  _index : gmap Z Z
}.

Definition set_list (h : heap) (l : list (option Z)) : heap :=
  mkHeap l (_max h) (_count h) (_index h).
Definition set_count (h : heap) (n : Z) : heap :=
  mkHeap (_list h) (_max h) n (_index h).

Definition GetIndex (h : heap) (e : Z) : Z := default 0 (_index h !! e).
Definition SetIndex (h : heap) (e i : Z) : heap :=
  mkHeap (_list h) (_max h) (_count h) (<[e := i]> (_index h)).

(** The entry [_list[i]] points to; a null pointer is not followed. *)
Definition deref (h : heap) (i : Z) : res Z :=
  let* o := array_get (_list h) i in
  match o with Some e => Ok e | None => Panic end.

(** [HeapList(max)]; the result of [malloc] is not tested before [memset]. *)
Definition HeapList (malloc_ok : bool) (max : Z) (index : gmap Z Z) : res heap :=
  let m := if 0 <? max then max else 100000 in
  if malloc_ok then Ok (mkHeap (replicate (Z.to_nat (m + 1)) None) m 0 index) else Panic.

Definition HeapResize (malloc_ok : bool) (h : heap) (size : Z) : heap * Z :=
  if size <=? _max h then (h, 0)
  else if malloc_ok then
    (mkHeap (_list h ++ replicate (Z.to_nat (size - _max h)) None) size (_count h) (_index h), 0)
  else (h, -1).

Definition HeapTop (h : heap) : res (option Z) :=
  if 0 <? _count h then array_get (_list h) 1 else Ok None.

Definition HeapFull (h : heap) : bool := _max h <=? _count h.
Definition HeapEmpty (h : heap) : bool := _count h =? 0.

Section Values.
Variable HeapValue : Z -> Z.

Definition HeapValueCmp (a b : Z) : Z :=
  if HeapValue a =? HeapValue b then 0
  else if HeapValue b <? HeapValue a then 1 else -1.

(** The exchange of the entries at [pos] and [other], with their indices. *)
Definition HeapSwap (h : heap) (pos other : Z) : res heap :=
  let* tmp := array_get (_list h) other in
  let* p := array_get (_list h) pos in
  let* l := array_set (_list h) other p in
  let* l := array_set l pos tmp in
  let h := set_list h l in
  let* a := deref h pos in
  let h := SetIndex h a pos in
  let* b := deref h other in
  Ok (SetIndex h b other).

Fixpoint HeapUp_loop (fuel : nat) (h : heap) (pos : Z) : res heap :=
  match fuel with
  | O => NoFuel
  | S fuel' =>
      if 0 <? pos then
        if pos / 2 <? 1 then Ok h
        else
          let* a := deref h pos in
          let* b := deref h (pos / 2) in
          if HeapValueCmp a b <? 0 then
            let* h := HeapSwap h pos (pos / 2) in
            HeapUp_loop fuel' h (pos / 2)
          else Ok h
      else Ok h
  end.

Definition HeapUp (h : heap) : res heap := HeapUp_loop (S (Z.to_nat (_count h))) h (_count h).

(** The smaller son of [pos], the left one when both are equal. *)
Definition min_son (h : heap) (pos : Z) : res Z :=
  if s32 (pos * 2) =? _count h then Ok (s32 (pos * 2))
  else
    let* r := deref h (s32 (pos * 2 + 1)) in
    let* l := deref h (s32 (pos * 2)) in
    if HeapValueCmp r l <? 0 then Ok (s32 (pos * 2 + 1)) else Ok (s32 (pos * 2)).

Fixpoint HeapDown_loop (fuel : nat) (h : heap) (pos : Z) : res heap :=
  match fuel with
  | O => NoFuel
  | S fuel' =>
      if pos <=? _count h then
        if _count h <? s32 (pos * 2) then Ok h
        else
          let* son := min_son h pos in
          let* a := deref h pos in
          let* b := deref h son in
          if 0 <? HeapValueCmp a b then
            let* h := HeapSwap h pos son in
            HeapDown_loop fuel' h son
          else Ok h
      else Ok h
  end.

Definition HeapDown (h : heap) (index : Z) : res heap :=
  HeapDown_loop (S (Z.to_nat (_count h))) h index.

Definition HeapPush (h : heap) (item : Z) : res (heap * Z) :=
  if HeapFull h then Ok (h, -1)
  else if negb (GetIndex h item =? 0) then Ok (h, -2)
  else
    let h := set_count h (_count h + 1) in
    let* l := array_set (_list h) (_count h) (Some item) in
    let h := SetIndex (set_list h l) item (_count h) in
    let* h := HeapUp h in
    Ok (h, 0).

Definition HeapPop (h : heap) : res (heap * option Z) :=
  if HeapEmpty h then Ok (h, None)
  else
    let* top := array_get (_list h) 1 in
    let* last := array_get (_list h) (_count h) in
    let* l := array_set (_list h) 1 last in
    let h := set_list h l in
    let* e := deref h 1 in
    let h := SetIndex h e 1 in
    let* l := array_set (_list h) (_count h) None in
    let h := set_count (set_list h l) (_count h - 1) in
    let* h := HeapDown h 1 in
    match top with
    | Some t => Ok (SetIndex h t 0, Some t)
    | None => Panic
    end.

Definition HeapDelete (h : heap) (item : Z) : res (heap * Z) :=
  if HeapEmpty h then Ok (h, -1)
  else
    let pos := GetIndex h item in
    if (_count h <? pos) || (pos <=? 0) then Ok (h, -2)
    else
      let* del := array_get (_list h) pos in
      let* last := array_get (_list h) (_count h) in
      let* l := array_set (_list h) pos last in
      let h := set_list h l in
      let* e := deref h pos in
      let h := SetIndex h e pos in
      let* l := array_set (_list h) (_count h) None in
      let h := set_count (set_list h l) (_count h - 1) in
      let* h := HeapDown h pos in
      match del with
      | Some d => Ok (SetIndex h d 0, 0)
      | None => Panic
      end.

(** What [HeapForeach] prints: the values level by level. *)
Inductive out := Newline | Value (v : Z).

Fixpoint HeapForeach_loop (n : nat) (h : heap) (i per : Z) : res (list out * list Z) :=
  match n with
  | O => Ok ([], [])
  | S n' =>
      let nl := s32 (per * 2) <=? i in
      let per := if nl then s32 (per * 2) else per in
      let* e := deref h i in
      let* (o, es) := HeapForeach_loop n' h (i + 1) per in
      Ok ((if nl then [Newline] else []) ++ Value (HeapValue e) :: o, e :: es)
  end.

Definition HeapForeach (h : heap) : res (list out * list Z) :=
  HeapForeach_loop (Z.to_nat (_count h)) h 1 1.
End Values.

(** ** The timers *)

(** [_heap] of a [CTimerMng], the [_time_expired] fields of all timers and the
    clock [MtFrame::GetLastClock()]. *)
Record timers := mkTimers {
  t_heap : heap;
  t_expired : gmap Z Z;
  t_now : Z
}.

Definition get_expired_time (s : timers) (t : Z) : Z := default 0 (t_expired s !! t).
Definition set_expired_time (s : timers) (t e : Z) : timers :=
  mkTimers (t_heap s) (<[t := e]> (t_expired s)) (t_now s).
Definition set_heap (s : timers) (h : heap) : timers := mkTimers h (t_expired s) (t_now s).

Definition TIMER_MIN : Z := 100000.

Definition CTimerMng (malloc_ok : bool) (max_item now : Z) : res timers :=
  let max_item := if max_item <? TIMER_MIN then TIMER_MIN else max_item in
  let* h := HeapList malloc_ok (s32 max_item) ∅ in
  Ok (mkTimers h ∅ now).

Definition start_timer (s : timers) (t interval : Z) : res (timers * bool) :=
  let s := set_expired_time s t (u64 (t_now s + interval)) in
  let* (h, ret) := HeapPush (get_expired_time s) (t_heap s) t in
  Ok (set_heap s h, negb (ret <? 0)).

Definition stop_timer (s : timers) (t : Z) : res timers :=
  let* (h, _) := HeapDelete (get_expired_time s) (t_heap s) t in
  Ok (set_heap s h).

(** [check_expired]; [timer_notify] is the virtual method of the timers.  The
    second component lists the timers notified, in order.  The clock is read
    once, before the loop. *)
Fixpoint check_expired_loop (timer_notify : timers -> Z -> res timers) (now : Z) (fuel : nat)
    (s : timers) : res (timers * list Z) :=
  match fuel with
  | O => NoFuel
  | S fuel' =>
      let* top := HeapTop (t_heap s) in
      match top with
      | None => Ok (s, [])
      | Some t =>
          if get_expired_time s t <=? now then
            let* s := stop_timer s t in
            let* s := timer_notify s t in
            let* (s, l) := check_expired_loop timer_notify now fuel' s in
            Ok (s, t :: l)
          else Ok (s, [])
      end
  end.

Definition check_expired (timer_notify : timers -> Z -> res timers) (fuel : nat) (s : timers)
  : res (timers * list Z) :=
  check_expired_loop timer_notify (t_now s) fuel s.

End Heap.
