(* ===== verification/HeapProofs.v ===== *)
(** * The heap and the timers: proofs

    A well-formed heap is described by the list of its entries, position by
    position.  Every operation keeps that description; the order is stated on
    it, with the two weaker forms that hold while an entry moves up or down. *)

From Stdlib Require Import Sorting.Sorted.
From S2P Require Import Prelude Heap.
Import Heap.

(** ** The array of a heap *)

Definition lay (m : nat) (es : list Z) : list (option Z) :=
  None :: (Some <$> es) ++ replicate (m - length es) None.

Lemma lay_length m es : (length es <= m)%nat -> length (lay m es) = S m.
Proof. intros. unfold lay. simpl. rewrite length_app, length_fmap, length_replicate. lia. Qed.

Lemma lay_get m es k e :
  es !! k = Some e -> array_get (lay m es) (Z.of_nat (S k)) = Ok (Some e).
Proof.
  intros Hk. apply array_get_nat. unfold lay. simpl.
  apply lookup_app_l_Some. by rewrite list_lookup_fmap, Hk.
Qed.

Lemma lay_set m es k e :
  (k < length es)%nat -> (length es <= m)%nat ->
  array_set (lay m es) (Z.of_nat (S k)) (Some e) = Ok (lay m (<[k := e]> es)).
Proof.
  intros Hk Hm. rewrite array_set_lt by (rewrite lay_length by done; lia).
  rewrite Nat2Z.id. unfold lay. simpl. do 2 f_equal.
  rewrite insert_app_l by (by rewrite length_fmap).
  by rewrite list_fmap_insert, length_insert.
Qed.

Lemma lay_push m es e :
  (length es < m)%nat ->
  array_set (lay m es) (Z.of_nat (S (length es))) (Some e) = Ok (lay m (es ++ [e])).
Proof.
  intros Hm. rewrite array_set_lt by (rewrite lay_length by lia; lia).
  rewrite Nat2Z.id. unfold lay. simpl. do 2 f_equal.
  rewrite insert_app_r_alt, length_fmap, Nat.sub_diag by (rewrite length_fmap; lia).
  destruct (m - length es)%nat eqn:E; [lia|]. simpl.
  rewrite fmap_app, length_app, <- app_assoc. simpl.
  by replace (m - (length es + 1))%nat with n by lia.
Qed.

Lemma lay_pop m es e :
  (length es < m)%nat ->
  array_set (lay m (es ++ [e])) (Z.of_nat (S (length es))) None = Ok (lay m es).
Proof.
  intros Hm. rewrite array_set_lt by (rewrite lay_length; rewrite ?length_app; simpl; lia).
  rewrite Nat2Z.id. unfold lay. simpl. do 2 f_equal.
  rewrite fmap_app, length_app, <- app_assoc. simpl.
  rewrite insert_app_r_alt, length_fmap, Nat.sub_diag by (rewrite length_fmap; lia).
  simpl. f_equal. destruct (m - length es)%nat eqn:E; [lia|]. simpl.
  by replace (m - (length es + 1))%nat with n by lia.
Qed.

(** ** Well-formed heaps

    [rep x h es]: [h] holds the entries [es], in this order, and every entry
    but [x] has its position in its [_index], or 0 when it is not in [es]. *)

Definition rep (x : option Z) (h : heap) (es : list Z) : Prop :=
  _list h = lay (Z.to_nat (_max h)) es /\
  _count h = Z.of_nat (length es) /\
  Z.of_nat (length es) <= _max h < 2 ^ 30 /\
  (forall e, x = Some e -> e ∉ es) /\
  (forall e, x <> Some e -> 0 <= GetIndex h e /\
     forall k, es !! k = Some e <-> GetIndex h e = Z.of_nat (S k)).

Abbreviation wf h es := (rep None h es).

Lemma rep_deref x h es k e :
  rep x h es -> es !! k = Some e -> deref h (Z.of_nat (S k)) = Ok e.
Proof. intros (Hl & _) Hk. unfold deref. by rewrite Hl, (lay_get _ _ _ _ Hk). Qed.

Lemma rep_inj x h es i j e :
  rep x h es -> es !! i = Some e -> es !! j = Some e -> i = j.
Proof.
  intros (_ & _ & _ & Hx & Hi) E1 E2.
  assert (x <> Some e) as Hne
    by (intros ->; apply (Hx e eq_refl); eauto using list_elem_of_lookup_2).
  destruct (Hi e Hne) as [_ Hk]. apply Hk in E1, E2. lia.
Qed.

Lemma rep_NoDup x h es : rep x h es -> NoDup es.
Proof. intros H. apply NoDup_alt. eauto using rep_inj. Qed.

Lemma GetIndex_SetIndex h e i e' :
  GetIndex (SetIndex h e i) e' = if decide (e = e') then i else GetIndex h e'.
Proof.
  unfold GetIndex, SetIndex. simpl.
  case_decide; [subst; by rewrite lookup_insert_eq|by rewrite lookup_insert_ne].
Qed.

(** The exchange of two positions of a list. *)
Definition exchange (es : list Z) (i j : nat) : list Z :=
  match es !! i, es !! j with
  | Some a, Some b => <[i := b]> (<[j := a]> es)
  | _, _ => es
  end.

Lemma exchange_lookup es i j a b k :
  es !! i = Some a -> es !! j = Some b -> i <> j ->
  exchange es i j !! k =
  if decide (k = i) then Some b else if decide (k = j) then Some a else es !! k.
Proof.
  intros Hi Hj Hne. unfold exchange. rewrite Hi, Hj.
  pose proof (lookup_lt_Some _ _ _ Hi). pose proof (lookup_lt_Some _ _ _ Hj).
  repeat case_decide; subst.
  - by rewrite list_lookup_insert_eq by (by rewrite length_insert).
  - by rewrite list_lookup_insert_ne, list_lookup_insert_eq.
  - by rewrite !list_lookup_insert_ne.
Qed.

Lemma exchange_length es i j : length (exchange es i j) = length es.
Proof. unfold exchange. repeat case_match; by rewrite ?length_insert. Qed.

Lemma exchange_perm es i j a b :
  es !! i = Some a -> es !! j = Some b -> i <> j -> NoDup es -> exchange es i j ≡ₚ es.
Proof.
  intros Hi Hj Hne Hnd.
  assert (forall k, exchange es i j !! k =
    es !! (if decide (k = i) then j else if decide (k = j) then i else k)) as Hk.
  { intros k. rewrite (exchange_lookup _ _ _ _ _ _ Hi Hj Hne).
    repeat case_decide; congruence. }
  apply NoDup_Permutation; [|done|].
  - apply NoDup_alt. intros k1 k2 e. rewrite !Hk. intros E1 E2.
    pose proof (proj1 (NoDup_alt es) Hnd _ _ _ E1 E2) as E.
    repeat case_decide; congruence.
  - intros e. rewrite !list_elem_of_lookup. split; intros [k E].
    + rewrite Hk in E. eauto.
    + exists (if decide (k = i) then j else if decide (k = j) then i else k).
      rewrite Hk, <- E. f_equal. repeat case_decide; congruence.
Qed.

Lemma HeapSwap_spec x h es i j a b :
  rep x h es -> es !! i = Some a -> es !! j = Some b -> i <> j ->
  exists h', HeapSwap h (Z.of_nat (S i)) (Z.of_nat (S j)) = Ok h' /\
    rep x h' (exchange es i j) /\ _max h' = _max h.
Proof.
  intros Hr Hi Hj Hne. pose proof (rep_NoDup _ _ _ Hr) as Hnd.
  pose proof (exchange_perm _ _ _ _ _ Hi Hj Hne Hnd) as Hp.
  assert (a <> b) by (intros <-; apply Hne; eauto using rep_inj).
  destruct Hr as (Hl & Hc & Hm & Hx & Hix).
  pose proof (lookup_lt_Some _ _ _ Hi). pose proof (lookup_lt_Some _ _ _ Hj).
  unfold HeapSwap. rewrite Hl, (lay_get _ _ _ _ Hj), (lay_get _ _ _ _ Hi). cbn [res_bind].
  rewrite lay_set by lia. cbn [res_bind]. rewrite lay_set by (rewrite ?length_insert; lia).
  cbn [res_bind]. unfold deref, set_list, SetIndex. cbn [_list _max _count _index].
  assert (<[i:=b]> (<[j:=a]> es) = exchange es i j) as -> by (unfold exchange; by rewrite Hi, Hj).
  pose proof (exchange_lookup _ _ _ _ _ i Hi Hj Hne) as Ei.
  pose proof (exchange_lookup _ _ _ _ _ j Hi Hj Hne) as Ej.
  rewrite decide_True in Ei by done. rewrite decide_False, decide_True in Ej by done.
  rewrite (lay_get _ _ _ _ Ei), (lay_get _ _ _ _ Ej). cbn [res_bind].
  eexists. split; [done|]. split; [|done].
  split; [done|]. split; [by rewrite exchange_length|].
  split; [by rewrite exchange_length|]. split; [by intros e ?; rewrite Hp; apply Hx|].
  intros e He. unfold GetIndex. cbn [_index].
  destruct (Hix e He) as [Hge Hk]. unfold GetIndex in Hge, Hk.
  destruct (decide (e = a)) as [->|Hea]; [|destruct (decide (e = b)) as [->|Heb]].
  - rewrite lookup_insert_eq. simpl. split; [lia|]. intros k.
    rewrite (exchange_lookup _ _ _ _ _ k Hi Hj Hne). apply Hk in Hi.
    repeat case_decide; rewrite ?Hk; split; intros; simplify_eq; try lia. done.
  - rewrite lookup_insert_ne, lookup_insert_eq by done. simpl. split; [lia|]. intros k.
    rewrite (exchange_lookup _ _ _ _ _ k Hi Hj Hne). apply Hk in Hj.
    repeat case_decide; rewrite ?Hk; split; intros; simplify_eq; try lia. done.
  - rewrite !lookup_insert_ne by done. split; [done|]. intros k.
    rewrite (exchange_lookup _ _ _ _ _ k Hi Hj Hne), <- Hk.
    repeat case_decide; subst; split; intros; simplify_eq; congruence.
Qed.

(** ** The order of a heap *)

Definition parent (k : nat) : nat := (k - 1) / 2.

Section Order.
Variable HeapValue : Z -> Z.

Definition edge (es : list Z) (i j : nat) : Prop :=
  forall a b, es !! i = Some a -> es !! j = Some b -> HeapValue a <= HeapValue b.

Definition ordered (es : list Z) : Prop := forall k, (0 < k)%nat -> edge es (parent k) k.

(** All edges but the one above [p]; the sons of [p] are not below its
    parent. *)
Definition ordered_up (es : list Z) (p : nat) : Prop :=
  (forall k, (0 < k)%nat -> k <> p -> edge es (parent k) k) /\
  (forall k, (0 < p)%nat -> (0 < k)%nat -> parent k = p -> edge es (parent p) k).

(** All edges but those below [p]. *)
Definition ordered_down (es : list Z) (p : nat) : Prop :=
  (forall k, (0 < k)%nat -> parent k <> p -> edge es (parent k) k) /\
  (forall k, (0 < p)%nat -> (0 < k)%nat -> parent k = p -> edge es (parent p) k).

Lemma parent_spec k :
  (0 < k)%nat -> k = (2 * parent k + 1)%nat \/ k = (2 * parent k + 2)%nat.
Proof.
  unfold parent. intros. pose proof (Nat.div_mod_eq (k - 1) 2).
  pose proof (Nat.mod_upper_bound (k - 1) 2). lia.
Qed.

Lemma parent_lt k : (0 < k)%nat -> (parent k < k)%nat.
Proof. intros H%parent_spec. lia. Qed.

Lemma ordered_min es k a b :
  ordered es -> es !! 0%nat = Some a -> es !! k = Some b -> HeapValue a <= HeapValue b.
Proof.
  intros Ho Ha. revert b. induction (lt_wf k) as [k _ IH]. intros b Hb.
  destruct (decide (k = 0%nat)) as [->|Hk]; [simplify_eq; lia|].
  pose proof (parent_lt k ltac:(lia)).
  destruct (lookup_lt_is_Some_2 es (parent k)) as [c Hc];
    [pose proof (lookup_lt_Some _ _ _ Hb); lia|].
  specialize (IH (parent k) ltac:(lia) c Hc). specialize (Ho k ltac:(lia) c b Hc Hb). lia.
Qed.

Lemma ordered_up_swap es p a b :
  (0 < p)%nat -> es !! p = Some a -> es !! parent p = Some b -> HeapValue a < HeapValue b ->
  ordered_up es p -> ordered_up (exchange es p (parent p)) (parent p).
Proof.
  intros Hp Ha Hb Hlt [He Hg]. pose proof (parent_lt p Hp) as Hpp.
  assert (p <> parent p) as Hne by lia.
  split.
  - intros k Hk Hkp c d. rewrite !(exchange_lookup _ _ _ _ _ _ Ha Hb Hne).
    pose proof (parent_lt k Hk).
    destruct (decide (k = p)) as [->|Hk2].
    + rewrite decide_False, decide_True by lia. intros; simplify_eq; lia.
    + rewrite (decide_False (P := k = parent p)) by done.
      destruct (decide (parent k = p)) as [E|E].
      * intros ? Hd. simplify_eq. by apply (Hg k Hp Hk eq_refl).
      * destruct (decide (parent k = parent p)) as [E2|E2].
        -- intros ? Hd. simplify_eq. specialize (He k Hk Hk2). rewrite E2 in He.
           specialize (He _ _ Hb Hd). lia.
        -- by apply (He k Hk).
  - intros k Hp2 Hk Hkp c d. rewrite !(exchange_lookup _ _ _ _ _ _ Ha Hb Hne).
    pose proof (parent_lt _ Hp2).
    rewrite (decide_False (P := parent (parent p) = p)), (decide_False (P := parent (parent p) = parent p)) by lia.
    intros Hc. specialize (He (parent p) Hp2 ltac:(lia) c b Hc Hb) as H1.
    destruct (decide (k = p)) as [->|Hk2]; [intros; by simplify_eq|].
    pose proof (parent_lt k Hk). rewrite decide_False by lia. intros Hd.
    specialize (He k Hk Hk2). rewrite Hkp in He. specialize (He _ _ Hb Hd). lia.
Qed.

Lemma ordered_up_done es p a b :
  (0 < p)%nat -> es !! p = Some a -> es !! parent p = Some b -> HeapValue b <= HeapValue a ->
  ordered_up es p -> ordered es.
Proof.
  intros Hp Ha Hb Hle [He _] k Hk. destruct (decide (k = p)) as [->|]; [|by apply He].
  intros c d Hc Hd. by simplify_eq.
Qed.

Lemma ordered_up_root es : ordered_up es 0 -> ordered es.
Proof. intros [He _] k Hk. apply He; lia. Qed.

Lemma ordered_push es e : ordered es -> ordered_up (es ++ [e]) (length es).
Proof.
  intros Ho. split.
  - intros k Hk Hne c d Hc Hd. pose proof (parent_lt k Hk).
    pose proof (lookup_lt_Some _ _ _ Hd) as Hl. rewrite length_app in Hl. simpl in Hl.
    rewrite lookup_app_l in Hc, Hd by lia. by apply (Ho k Hk).
  - intros k Hp Hk Hpk c d _ Hd. pose proof (parent_lt k Hk).
    pose proof (lookup_lt_Some _ _ _ Hd) as Hl. rewrite length_app in Hl. simpl in Hl. lia.
Qed.

Lemma ordered_down_swap es p s a b :
  (0 < s)%nat -> parent s = p -> es !! p = Some a -> es !! s = Some b ->
  (forall k c, (0 < k)%nat -> parent k = p -> es !! k = Some c -> HeapValue b <= HeapValue c) ->
  HeapValue b < HeapValue a ->
  ordered_down es p -> ordered_down (exchange es p s) s.
Proof.
  intros Hs Hps Ha Hb Hmin Hlt [He Hg]. pose proof (parent_lt s Hs) as Hlt2.
  assert (p <> s) as Hne by lia.
  split.
  - intros k Hk Hks c d. rewrite !(exchange_lookup _ _ _ _ _ _ Ha Hb Hne).
    pose proof (parent_lt k Hk).
    rewrite (decide_False (P := parent k = s)) by done.
    destruct (decide (parent k = p)) as [E|E].
    + rewrite (decide_False (P := k = p)) by lia.
      intros ?. destruct (decide (k = s)); [intros; simplify_eq; lia|].
      intros Hd. simplify_eq. eauto.
    + destruct (decide (k = p)) as [->|].
      * intros Hc ?. simplify_eq. by apply (Hg s ltac:(lia) Hs eq_refl).
      * rewrite decide_False by congruence. by apply He.
  - intros k _ Hk Hks c d. rewrite !(exchange_lookup _ _ _ _ _ _ Ha Hb Hne).
    pose proof (parent_lt k Hk).
    rewrite Hps, decide_True, !decide_False by lia. intros ? Hd. simplify_eq.
    specialize (He k Hk ltac:(lia) _ _ Hb Hd). lia.
Qed.

Lemma ordered_down_done es p a :
  es !! p = Some a ->
  (forall k c, (0 < k)%nat -> parent k = p -> es !! k = Some c -> HeapValue a <= HeapValue c) ->
  ordered_down es p -> ordered es.
Proof.
  intros Ha Hmin [He _] k Hk. destruct (decide (parent k = p)) as [<-|]; [|by apply He].
  intros c d Hc Hd. simplify_eq. eauto.
Qed.

Lemma ordered_down_end es p : (length es <= p)%nat -> ordered_down es p -> ordered es.
Proof.
  intros Hp [He _] k Hk. destruct (decide (parent k = p)) as [<-|]; [|by apply He].
  intros c d Hc Hd. apply lookup_lt_Some in Hc. lia.
Qed.
End Order.

(** ** Moving an entry *)

Lemma pos_parent k : (0 < k)%nat -> Z.of_nat (S k) / 2 = Z.of_nat (S (parent k)).
Proof.
  intros H%parent_spec. symmetry. apply (Z.div_unique_pos _ 2 _ (Z.of_nat (S k) - 2 * Z.of_nat (S (parent k)))); lia.
Qed.

Lemma parent_son k s : s = (2 * k + 1)%nat \/ s = (2 * k + 2)%nat -> parent s = k.
Proof. intros Hs. pose proof (parent_spec s ltac:(lia)). lia. Qed.

Lemma son_pos k : Z.of_nat k < 2 ^ 30 - 1 ->
  s32 (Z.of_nat (S k) * 2) = Z.of_nat (S (2 * k + 1)) /\
  s32 (Z.of_nat (S k) * 2 + 1) = Z.of_nat (S (2 * k + 2)).
Proof. intros. split; rewrite wraps_small; lia. Qed.

Section Moves.
Variable HeapValue : Z -> Z.

Lemma HeapValueCmp_neg a b : (HeapValueCmp HeapValue a b <? 0) = (HeapValue a <? HeapValue b).
Proof. unfold HeapValueCmp. repeat case_match; lia. Qed.

Lemma HeapValueCmp_pos a b : (0 <? HeapValueCmp HeapValue a b) = (HeapValue b <? HeapValue a).
Proof. unfold HeapValueCmp. repeat case_match; lia. Qed.

Lemma HeapUp_loop_spec x k : forall fuel h es a,
  rep x h es -> es !! k = Some a -> (k < fuel)%nat ->
  exists h' es', HeapUp_loop HeapValue fuel h (Z.of_nat (S k)) = Ok h' /\
    rep x h' es' /\ es' ≡ₚ es /\ _max h' = _max h /\
    (ordered_up HeapValue es k -> ordered HeapValue es').
Proof.
  induction (lt_wf k) as [k _ IH]. intros [|fuel] h es a Hr Ha Hf; [lia|].
  cbn [HeapUp_loop]. rewrite (proj2 (Z.ltb_lt 0 (Z.of_nat (S k)))) by lia.
  destruct (decide (k = 0%nat)) as [->|Hk].
  { exists h, es. split_and!; try done. apply ordered_up_root. }
  pose proof (parent_lt k ltac:(lia)) as Hp.
  rewrite pos_parent by lia. rewrite (proj2 (Z.ltb_ge _ 1)) by lia.
  destruct (lookup_lt_is_Some_2 es (parent k)) as [b Hb];
    [pose proof (lookup_lt_Some _ _ _ Ha); lia|].
  rewrite (rep_deref _ _ _ _ _ Hr Ha), (rep_deref _ _ _ _ _ Hr Hb). cbn [res_bind].
  rewrite HeapValueCmp_neg. destruct (Z.ltb_spec (HeapValue a) (HeapValue b)) as [Hlt|Hge].
  - destruct (HeapSwap_spec x h es k (parent k) a b Hr Ha Hb ltac:(lia)) as (h1 & -> & Hr1 & Hm1).
    cbn [res_bind].
    destruct (IH (parent k) Hp fuel h1 _ a Hr1) as (h' & es' & -> & Hr' & Hperm & Hm' & Ho).
    { rewrite (exchange_lookup _ _ _ _ _ _ Ha Hb) by lia. by rewrite decide_False, decide_True by lia. }
    { lia. }
    exists h', es'. split; [done|]. split; [done|]. split; [|split; [congruence|]].
    + rewrite Hperm. eapply exchange_perm; eauto using rep_NoDup. lia.
    + intros Hu. apply Ho. eapply ordered_up_swap; eauto. lia.
  - exists h, es. split_and!; try done. eapply ordered_up_done; eauto. lia.
Qed.

Lemma min_son_spec x h es k :
  rep x h es -> (2 * k + 1 < length es)%nat ->
  exists s b, min_son HeapValue h (Z.of_nat (S k)) = Ok (Z.of_nat (S s)) /\
    (s = 2 * k + 1 \/ s = 2 * k + 2)%nat /\ es !! s = Some b /\
    forall j c, (0 < j)%nat -> parent j = k -> es !! j = Some c -> HeapValue b <= HeapValue c.
Proof.
  intros Hr Hlen. pose proof Hr as (_ & Hc & Hm & _).
  destruct (son_pos k) as [E1 E2]; [lia|]. unfold min_son. rewrite E1, E2, Hc.
  destruct (lookup_lt_is_Some_2 es (2 * k + 1)%nat Hlen) as [l Hl].
  destruct (Z.eqb_spec (Z.of_nat (S (2 * k + 1))) (Z.of_nat (length es))) as [E|E].
  { exists (2 * k + 1)%nat, l. split; [done|]. split; [by left|]. split; [done|].
    intros j c Hj Hp Hjc. pose proof (lookup_lt_Some _ _ _ Hjc). pose proof (parent_spec j Hj).
    assert (j = 2 * k + 1)%nat by lia. by simplify_eq. }
  destruct (lookup_lt_is_Some_2 es (2 * k + 2)%nat) as [r Hrr]; [lia|].
  rewrite (rep_deref _ _ _ _ _ Hr Hl), (rep_deref _ _ _ _ _ Hr Hrr). cbn [res_bind].
  rewrite HeapValueCmp_neg.
  assert (forall j c, (0 < j)%nat -> parent j = k -> es !! j = Some c -> c = l \/ c = r) as Hsons.
  { intros j c Hj Hp Hjc. destruct (parent_spec j Hj) as [Ej|Ej]; rewrite Hp in Ej; subst j;
      simplify_eq; auto. }
  destruct (Z.ltb_spec (HeapValue r) (HeapValue l)).
  - exists (2 * k + 2)%nat, r. split_and!; try done; [by right|].
    intros j c Hj Hp Hjc. destruct (Hsons j c Hj Hp Hjc) as [->| ->]; lia.
  - exists (2 * k + 1)%nat, l. split_and!; try done; [by left|].
    intros j c Hj Hp Hjc. destruct (Hsons j c Hj Hp Hjc) as [->| ->]; lia.
Qed.

Lemma HeapDown_loop_spec x fuel : forall h es k,
  rep x h es -> (length es - k < fuel)%nat ->
  exists h' es', HeapDown_loop HeapValue fuel h (Z.of_nat (S k)) = Ok h' /\
    rep x h' es' /\ es' ≡ₚ es /\ _max h' = _max h /\
    (ordered_down HeapValue es k -> ordered HeapValue es') /\
    (forall a, es !! k = Some a ->
       (forall j c, (0 < j)%nat -> parent j = k -> es !! j = Some c -> HeapValue a <= HeapValue c) ->
       es' = es).
Proof.
  induction fuel as [|fuel IH]; intros h es k Hr Hf; [lia|].
  pose proof Hr as (_ & Hc & Hm & _). cbn [HeapDown_loop]. rewrite Hc.
  destruct (Z.leb_spec (Z.of_nat (S k)) (Z.of_nat (length es))) as [Hk|Hk].
  2: { exists h, es. split_and!; try done. apply ordered_down_end. lia. }
  destruct (son_pos k) as [-> _]; [lia|].
  destruct (lookup_lt_is_Some_2 es k) as [a Ha]; [lia|].
  destruct (Z.ltb_spec (Z.of_nat (length es)) (Z.of_nat (S (2 * k + 1)))) as [Hleaf|Hsons].
  { exists h, es. split_and!; try done. apply (ordered_down_done _ _ _ a Ha).
    intros j c Hj Hp Hjc. pose proof (parent_spec j Hj). apply lookup_lt_Some in Hjc. lia. }
  destruct (min_son_spec x h es k Hr) as (s & b & -> & Hs & Hb & Hmin); [lia|].
  assert (parent s = k) as Hps by (by apply parent_son).
  cbn [res_bind]. rewrite (rep_deref _ _ _ _ _ Hr Ha), (rep_deref _ _ _ _ _ Hr Hb). cbn [res_bind].
  rewrite HeapValueCmp_pos. destruct (Z.ltb_spec (HeapValue b) (HeapValue a)) as [Hlt|Hge].
  - destruct (HeapSwap_spec x h es k s a b Hr Ha Hb ltac:(lia)) as (h1 & -> & Hr1 & Hm1).
    cbn [res_bind].
    destruct (IH h1 _ s Hr1) as (h' & es' & -> & Hr' & Hperm & Hm' & Ho & _);
      [rewrite exchange_length; lia|].
    exists h', es'. split_and!; try done; [|congruence| |].
    + rewrite Hperm. eapply exchange_perm; eauto using rep_NoDup. lia.
    + intros Hd. apply Ho. eapply ordered_down_swap; eauto. lia.
    + intros a' Ha' Hmin'. assert (a' = a) as -> by congruence. specialize (Hmin' s b ltac:(lia) Hps Hb). lia.
  - exists h, es. split_and!; try done. apply (ordered_down_done _ _ _ a Ha).
    intros j c Hj Hp Hjc. specialize (Hmin j c Hj Hp Hjc). lia.
Qed.
End Moves.

(** ** The operations *)

Lemma wf_index0 h es e : wf h es -> GetIndex h e = 0 <-> e ∉ es.
Proof.
  intros (_ & _ & _ & _ & Hix). destruct (Hix e ltac:(done)) as [Hge Hk]. split.
  - intros H0 [k Hek]%list_elem_of_lookup. apply Hk in Hek. lia.
  - intros Hin. destruct (decide (GetIndex h e = 0)) as [|Hne]; [done|]. exfalso. apply Hin.
    apply list_elem_of_lookup. exists (Z.to_nat (GetIndex h e) - 1)%nat. apply Hk. lia.
Qed.

Lemma wf_push h es e :
  wf h es -> e ∉ es -> Z.of_nat (length es) < _max h ->
  let n := Z.of_nat (S (length es)) in
  wf (mkHeap (lay (Z.to_nat (_max h)) (es ++ [e])) (_max h) n (<[e := n]> (_index h))) (es ++ [e]).
Proof.
  intros (Hl & Hc & Hm & _ & Hix) Hin Hroom n. unfold rep, GetIndex. cbn [_list _max _count _index].
  split_and!; try done; try (rewrite ?length_app; simpl; lia).
  intros e' _. destruct (decide (e = e')) as [<-|Hne].
  - rewrite lookup_insert_eq. simpl. split; [lia|]. intros k.
    rewrite lookup_app_Some, list_lookup_singleton_Some. split; [|intros ?; right; split; [lia|split; [lia|done]]].
    intros [Hk|[? [? _]]]; [|lia]. destruct Hin. by eapply list_elem_of_lookup_2.
  - rewrite lookup_insert_ne by done. destruct (Hix e' ltac:(done)) as [Hge Hk]. split; [done|].
    intros k. unfold GetIndex in Hk. rewrite <- Hk, lookup_app_Some, list_lookup_singleton_Some.
    naive_solver.
Qed.

Section Operations.
Variable HeapValue : Z -> Z.

Lemma HeapPush_spec h es e :
  wf h es ->
  if decide (Z.of_nat (length es) < _max h) then
    if decide (e ∈ es) then HeapPush HeapValue h e = Ok (h, -2)
    else exists h' es', HeapPush HeapValue h e = Ok (h', 0) /\ wf h' es' /\ _max h' = _max h /\
           (es' ≡ₚ e :: es) /\ (ordered HeapValue es -> ordered HeapValue es')
  else HeapPush HeapValue h e = Ok (h, -1).
Proof.
  intros Hr. pose proof Hr as (Hl & Hc & Hm & _). pose proof (wf_index0 _ _ e Hr) as H0.
  unfold HeapPush, HeapFull.
  case_decide as Hroom; [|by rewrite (proj2 (Z.leb_le _ _)) by lia].
  rewrite (proj2 (Z.leb_gt _ _)) by lia. case_decide as Hin.
  { rewrite (proj2 (Z.eqb_neq _ _)) by tauto. done. }
  rewrite (proj2 H0 Hin). cbn [Z.eqb negb set_count _list _count]. rewrite Hl, Hc.
  replace (Z.of_nat (length es) + 1) with (Z.of_nat (S (length es))) by lia.
  rewrite lay_push by lia. cbn [res_bind]. unfold HeapUp, SetIndex, set_list, set_count.
  cbn [_count _list _max _index].
  destruct (HeapUp_loop_spec HeapValue None (length es) (S (Z.to_nat (Z.of_nat (S (length es))))) _ _ e
    (wf_push h es e Hr Hin Hroom)) as (h' & es' & -> & Hr' & Hp & Hm' & Ho).
  { by rewrite lookup_app_r, Nat.sub_diag by done. }
  { lia. }
  exists h', es'. split_and!; try done; [by rewrite Hp, Permutation_app_comm|].
  intros Hord. by apply Ho, ordered_push.
Qed.

(** The list after the last entry has taken the place of the one at [k]. *)
Lemma fill_hole (init : list Z) last k :
  (k <= length init)%nat -> <[k := last]> (init ++ [last]) = <[k := last]> init ++ [last].
Proof.
  intros Hk. destruct (decide (k = length init)) as [->|].
  - by rewrite insert_app_r_alt, Nat.sub_diag, (list_insert_ge init) by lia.
  - by rewrite insert_app_l by lia.
Qed.

Lemma fill_hole_perm (init : list Z) last k d :
  (init ++ [last]) !! k = Some d -> d :: (<[k := last]> init) ≡ₚ init ++ [last].
Proof.
  intros Hk. rewrite lookup_app_Some, list_lookup_singleton_Some in Hk.
  destruct Hk as [Hk|(Hlen & E & ->)].
  - rewrite <- (take_drop_middle init k d Hk) at 2.
    rewrite insert_take_drop by (by eapply lookup_lt_Some). solve_Permutation.
  - rewrite list_insert_ge by done. solve_Permutation.
Qed.

Lemma wf_hole h init last k d :
  wf h (init ++ [last]) -> (init ++ [last]) !! k = Some d ->
  rep (Some d) (mkHeap (lay (Z.to_nat (_max h)) (<[k := last]> init)) (_max h)
                  (Z.of_nat (length init)) (<[last := Z.of_nat (S k)]> (_index h)))
    (<[k := last]> init).
Proof.
  intros Hr Hd. pose proof (rep_NoDup _ _ _ Hr) as Hnd. pose proof (fill_hole_perm _ _ _ _ Hd) as Hp.
  rewrite <- Hp in Hnd. apply NoDup_cons in Hnd as [Hdin Hnd].
  assert (forall j e, j <> k -> <[k := last]> init !! j = Some e -> e <> last) as Hother.
  { intros j e Hj He ->. rewrite list_lookup_insert_ne in He by done.
    assert ((init ++ [last]) !! j = Some last) as E1 by (by apply lookup_app_l_Some).
    assert ((init ++ [last]) !! length init = Some last) as E2
      by (by rewrite lookup_app_r, Nat.sub_diag by done).
    pose proof (rep_inj _ _ _ _ _ _ Hr E1 E2). apply lookup_lt_Some in He. lia. }
  destruct Hr as (Hl & Hc & Hm & _ & Hix). rewrite length_app in Hc, Hm. simpl in Hc, Hm.
  unfold rep, GetIndex. cbn [_list _max _count _index]. rewrite length_insert.
  split_and!; try done; [lia..|congruence|].
  intros e Hed. assert (d <> e) by congruence.
  destruct (decide (last = e)) as [<-|Hne].
  - rewrite lookup_insert_eq. simpl. split; [lia|]. intros j. split.
    + intros Hj. destruct (decide (j = k)); [lia|]. exfalso. by eapply Hother.
    + intros ?. assert (j = k) as -> by lia. apply list_lookup_insert_eq.
      apply lookup_app_Some in Hd as [Hd|[? Hd]]; [by eapply lookup_lt_Some|].
      apply list_lookup_singleton_Some in Hd. naive_solver.
  - rewrite lookup_insert_ne by done. destruct (Hix e ltac:(done)) as [Hge Hk]. split; [done|].
    intros j. unfold GetIndex in Hk. rewrite <- Hk. rewrite lookup_app_Some, list_lookup_singleton_Some.
    destruct (decide (j = k)) as [->|Hjk].
    + rewrite <- list_lookup_singleton_Some, <- lookup_app_Some, Hd. split; [|congruence].
      intros Hj. apply list_lookup_insert_Some in Hj. naive_solver.
    + rewrite list_lookup_insert_ne by done. naive_solver.
Qed.

Lemma wf_release h es d : rep (Some d) h es -> wf (SetIndex h d 0) es.
Proof.
  intros (Hl & Hc & [Hm1 Hm2] & Hx & Hix). split_and!; try done.
  intros e _. rewrite GetIndex_SetIndex. case_decide as E.
  - subst e. split; [lia|]. intros k. split; [|lia]. intros Hk.
    destruct (Hx d eq_refl). by eapply list_elem_of_lookup_2.
  - apply Hix. congruence.
Qed.

Lemma hole_ordered init last k :
  let es := init ++ [last] in
  ordered HeapValue es ->
  (forall a, (0 < k < length init)%nat -> es !! parent k = Some a -> HeapValue a <= HeapValue last) ->
  ordered_down HeapValue (<[k := last]> init) k.
Proof.
  intros es Ho Hup.
  assert (forall j e, j <> k -> <[k := last]> init !! j = Some e -> es !! j = Some e) as Hlk.
  { intros j e Hj He. rewrite list_lookup_insert_ne in He by done. by apply lookup_app_l_Some. }
  split.
  - intros j Hj Hpj a b Ha Hb. apply Hlk in Ha; [|done].
    destruct (decide (j = k)) as [->|Hjk]; [|by apply (Ho j Hj); auto].
    apply list_lookup_insert_Some in Hb as [(_ & -> & Hlen)|[? _]]; [|done]. apply Hup; [lia|done].
  - intros j Hk Hj Hpj a b Ha Hb. pose proof (parent_lt k Hk). pose proof (parent_lt j Hj).
    apply Hlk in Ha; [|lia]. apply Hlk in Hb; [|lia].
    destruct (lookup_lt_is_Some_2 es k) as [c Hc']; [apply lookup_lt_Some in Hb; lia|].
    specialize (Ho k Hk a c Ha Hc') as H1. specialize (Ho j Hj). rewrite Hpj in Ho.
    specialize (Ho c b Hc' Hb). lia.
Qed.

Lemma hole_broken init last k a :
  let es := init ++ [last] in
  ordered HeapValue es -> (0 < k < length init)%nat -> es !! parent k = Some a ->
  HeapValue last < HeapValue a ->
  (forall j c, (0 < j)%nat -> parent j = k -> <[k := last]> init !! j = Some c ->
     HeapValue last <= HeapValue c) /\
  ~ ordered HeapValue (<[k := last]> init).
Proof.
  intros es Ho Hk Ha Hlt. pose proof (parent_lt k ltac:(lia)) as Hpk. split.
  - intros j c Hj Hpj Hc. pose proof (parent_lt j Hj).
    rewrite list_lookup_insert_ne in Hc by lia.
    destruct (lookup_lt_is_Some_2 es k) as [d Hd]; [unfold es; rewrite length_app; lia|].
    specialize (Ho k ltac:(lia) a d Ha Hd) as H1. specialize (Ho j Hj). rewrite Hpj in Ho.
    specialize (Ho d c Hd (lookup_app_l_Some _ _ _ _ Hc)). lia.
  - intros Ho'. specialize (Ho' k ltac:(lia) a last). rewrite list_lookup_insert_ne in Ho' by lia.
    unfold es in Ha. rewrite lookup_app_l in Ha by lia.
    rewrite list_lookup_insert_eq in Ho' by lia. specialize (Ho' Ha eq_refl). lia.
Qed.

(** Taking the entry at [k] out keeps the order exactly when the last entry,
    which takes its place, is not below the parent of [k]. *)
Definition delete_safe (es : list Z) (k : nat) : Prop :=
  forall a b, (0 < k < length es - 1)%nat -> es !! parent k = Some a -> last es = Some b ->
    HeapValue a <= HeapValue b.

Lemma delete_absent h es e :
  wf h es -> e ∉ es ->
  HeapDelete HeapValue h e = Ok (h, if decide (es = []) then -1 else -2).
Proof.
  intros Hr Hin. apply (wf_index0 _ _ _ Hr) in Hin as H0. pose proof Hr as (_ & Hc & _).
  unfold HeapDelete, HeapEmpty. rewrite Hc, H0. destruct es as [|e0 es]; [done|].
  rewrite (proj2 (Z.eqb_neq _ 0)) by (simpl; lia). cbv zeta. by rewrite orb_true_r.
Qed.

Lemma HeapDelete_spec h es k e :
  wf h es -> es !! k = Some e ->
  exists h' es', HeapDelete HeapValue h e = Ok (h', 0) /\ wf h' es' /\ _max h' = _max h /\
    (e :: es' ≡ₚ es) /\ (ordered HeapValue es -> (ordered HeapValue es' <-> delete_safe es k)).
Proof.
  intros Hr Hk. pose proof Hr as (Hl & Hc & Hm & _ & Hix).
  pose proof (proj1 (proj2 (Hix e ltac:(done)) k) Hk) as Hke.
  destruct es as [|last init _] using rev_ind; [done|].
  pose proof (lookup_lt_Some _ _ _ Hk) as Hlen. pose proof (wf_hole _ _ _ _ _ Hr Hk) as Hh.
  rewrite length_app in Hlen, Hc, Hm. simpl in Hlen, Hc, Hm.
  unfold HeapDelete, HeapEmpty. rewrite Hc, Hke, (proj2 (Z.eqb_neq _ 0)) by lia. cbv zeta.
  rewrite (proj2 (Z.ltb_ge _ _)), (proj2 (Z.leb_gt _ _)) by lia. cbn [orb].
  rewrite Hl, (lay_get _ _ _ _ Hk). cbn [res_bind].
  replace (Z.of_nat (length init + 1)) with (Z.of_nat (S (length init))) by lia.
  rewrite (lay_get _ _ (length init) last) by (by rewrite lookup_app_r, Nat.sub_diag by done).
  cbn [res_bind]. rewrite lay_set by (rewrite length_app; simpl; lia). cbn [res_bind].
  unfold deref, set_list. cbn [_list].
  rewrite (lay_get _ _ k last) by (apply list_lookup_insert_eq; rewrite length_app; simpl; lia).
  cbn [res_bind]. unfold SetIndex, set_count. cbn [_list _max _count _index].
  rewrite fill_hole, Hc by lia.
  replace (Z.of_nat (length init + 1)) with (Z.of_nat (S (length (<[k:=last]> init))))
    by (rewrite length_insert; lia).
  rewrite lay_pop by (rewrite length_insert; lia). cbn [res_bind]. rewrite length_insert.
  replace (Z.of_nat (S (length init)) - 1) with (Z.of_nat (length init)) by lia.
  unfold HeapDown. cbn [_count].
  destruct (HeapDown_loop_spec HeapValue (Some e) (S (Z.to_nat (Z.of_nat (length init)))) _ _ k Hh)
    as (h' & es' & -> & Hr' & Hp & Hm' & Hdown & Hstay); [rewrite length_insert; lia|].
  cbn [res_bind]. exists (SetIndex h' e 0), es'. pose proof (fill_hole_perm _ _ _ _ Hk) as Hperm.
  split_and!; [done|by apply wf_release|done|by rewrite Hp|].
  intros Ho. unfold delete_safe. rewrite length_app, last_snoc. simpl. split.
  - intros Ho' a b Hrange Ha [= <-]. apply Z.nlt_ge. intros Hlt.
    destruct (hole_broken init last k a Ho ltac:(lia) Ha Hlt) as [Hsons Hbad].
    rewrite (Hstay last) in Ho' by (first [apply list_lookup_insert_eq; lia|exact Hsons]). done.
  - intros Hsafe. apply Hdown, hole_ordered; [done|]. intros a Hrange Ha. apply Hsafe; [lia|done..].
Qed.

Lemma HeapTop_spec h es : wf h es -> HeapTop h = Ok (head es).
Proof.
  intros (Hl & Hc & _). unfold HeapTop. rewrite Hc, Hl. destruct es as [|e es]; [done|].
  rewrite (proj2 (Z.ltb_lt 0 _)) by (simpl; lia). by apply (lay_get _ (e :: es) 0 e).
Qed.

(** Taking the first entry out by [HeapPop] is deleting it. *)
Lemma HeapPop_delete h es t :
  wf h es -> head es = Some t ->
  HeapPop HeapValue h = let* (h', _) := HeapDelete HeapValue h t in Ok (h', Some t).
Proof.
  intros Hr Ht. destruct es as [|t' es]; [done|]. injection Ht as ->.
  pose proof Hr as (Hl & Hc & _ & _ & Hix).
  pose proof (proj1 (proj2 (Hix t ltac:(done)) 0%nat) eq_refl) as Hi.
  pose proof (lay_get (Z.to_nat (_max h)) (t :: es) 0 t eq_refl) as Hg.
  change (Z.of_nat 1) with 1 in *.
  unfold HeapPop, HeapDelete, HeapEmpty. rewrite Hi, Hc, (proj2 (Z.eqb_neq _ 0)) by (simpl; lia).
  rewrite (proj2 (Z.ltb_ge _ 1)) by (simpl; lia). change (false || (1 <=? 0)) with false. cbv iota. rewrite Hl, Hg. cbn [res_bind].
  repeat match goal with
         | |- res_bind ?m _ = res_bind (res_bind ?m _) _ => destruct m; cbn [res_bind]; [|done..]
         end. done.
Qed.

Lemma HeapPop_spec h es :
  wf h es ->
  match head es with
  | None => HeapPop HeapValue h = Ok (h, None)
  | Some t =>
      exists h' es', HeapPop HeapValue h = Ok (h', Some t) /\ wf h' es' /\ _max h' = _max h /\
        (t :: es' ≡ₚ es) /\ (ordered HeapValue es -> ordered HeapValue es')
  end.
Proof.
  intros Hr. destruct (head es) as [t|] eqn:Ht.
  - destruct (HeapDelete_spec h es 0 t Hr) as (h' & es' & Hd & Hr' & Hm & Hp & Ho);
      [by destruct es|].
    exists h', es'. rewrite (HeapPop_delete _ _ _ Hr Ht), Hd. split_and!; try done.
    intros Hord. apply (Ho Hord). intros a b Hk. lia.
  - pose proof Hr as (_ & Hc & _). destruct es; [|done]. unfold HeapPop, HeapEmpty. by rewrite Hc.
Qed.
End Operations.

(** ** Sequences of operations *)

Inductive op := OPush (e : Z) | OPop | ODelete (e : Z).
Inductive answer := ARet (r : Z) | AEntry (e : option Z).

Definition heap_step (HeapValue : Z -> Z) (h : heap) (o : op) : res (heap * answer) :=
  match o with
  | OPush e => let* (h, r) := HeapPush HeapValue h e in Ok (h, ARet r)
  | OPop => let* (h, e) := HeapPop HeapValue h in Ok (h, AEntry e)
  | ODelete e => let* (h, r) := HeapDelete HeapValue h e in Ok (h, ARet r)
  end.

Fixpoint heap_run (HeapValue : Z -> Z) (h : heap) (os : list op) : res (heap * list answer) :=
  match os with
  | [] => Ok (h, [])
  | o :: os =>
      let* (h, a) := heap_step HeapValue h o in
      let* (h, al) := heap_run HeapValue h os in
      Ok (h, a :: al)
  end.

(** The abstract queue: a bounded set of entries; with [min], [OPop] gives an
    entry of least value. *)
Inductive pq_step (HeapValue : Z -> Z) (max : Z) (min : bool) : gset Z -> op -> answer -> gset Z -> Prop :=
| pq_full S e : max <= Z.of_nat (size S) -> pq_step HeapValue max min S (OPush e) (ARet (-1)) S
| pq_twice S e : Z.of_nat (size S) < max -> e ∈ S ->
    pq_step HeapValue max min S (OPush e) (ARet (-2)) S
| pq_push S e : Z.of_nat (size S) < max -> e ∉ S ->
    pq_step HeapValue max min S (OPush e) (ARet 0) ({[e]} ∪ S)
| pq_pop_empty : pq_step HeapValue max min ∅ OPop (AEntry None) ∅
| pq_pop S t : t ∈ S -> (min = true -> forall e, e ∈ S -> HeapValue t <= HeapValue e) ->
    pq_step HeapValue max min S OPop (AEntry (Some t)) (S ∖ {[t]})
| pq_delete_empty e : pq_step HeapValue max min ∅ (ODelete e) (ARet (-1)) ∅
| pq_delete_absent S e : S <> ∅ -> e ∉ S -> pq_step HeapValue max min S (ODelete e) (ARet (-2)) S
| pq_delete S e : e ∈ S -> pq_step HeapValue max min S (ODelete e) (ARet 0) (S ∖ {[e]}).

Inductive pq_run (HeapValue : Z -> Z) (max : Z) (min : bool) :
    gset Z -> list op -> list answer -> gset Z -> Prop :=
| pq_nil S : pq_run HeapValue max min S [] [] S
| pq_cons S o a S1 os al S2 :
    pq_step HeapValue max min S o a S1 -> pq_run HeapValue max min S1 os al S2 ->
    pq_run HeapValue max min S (o :: os) (a :: al) S2.

Definition no_delete (o : op) : Prop := match o with ODelete _ => False | _ => True end.

Lemma perm_set (es es' : list Z) : es ≡ₚ es' -> (list_to_set es : gset Z) = list_to_set es'.
Proof. intros Hp. apply set_eq. intros e. by rewrite !elem_of_list_to_set, Hp. Qed.

Lemma perm_set_remove e (es es' : list Z) :
  e :: es' ≡ₚ es -> NoDup es -> (list_to_set es' : gset Z) = list_to_set es ∖ {[e]}.
Proof.
  intros Hp Hnd. rewrite <- Hp in Hnd. apply NoDup_cons in Hnd as [Hin _].
  rewrite <- (perm_set _ _ Hp). set_solver.
Qed.

Lemma heap_step_refines HeapValue min h es o :
  wf h es -> (min = true -> ordered HeapValue es /\ no_delete o) ->
  exists h' es' a, heap_step HeapValue h o = Ok (h', a) /\ wf h' es' /\ _max h' = _max h /\
    (min = true -> ordered HeapValue es') /\
    pq_step HeapValue (_max h) min (list_to_set es) o a (list_to_set es').
Proof.
  intros Hr Hmin. pose proof (rep_NoDup _ _ _ Hr) as Hnd.
  assert (size (list_to_set es : gset Z) = length es) as Hsize by (by apply size_list_to_set).
  destruct o as [e| |e]; cbn [heap_step].
  - pose proof (HeapPush_spec HeapValue h es e Hr) as Hs.
    case_decide; [case_decide|].
    + exists h, es, (ARet (-2)). rewrite Hs. split_and!; try done; [naive_solver|].
      constructor; [lia|by apply elem_of_list_to_set].
    + destruct Hs as (h' & es' & -> & Hr' & Hm & Hp & Ho). exists h', es', (ARet 0).
      split_and!; try done; [naive_solver|]. rewrite (perm_set _ _ Hp). simpl.
      constructor; [lia|by rewrite elem_of_list_to_set].
    + exists h, es, (ARet (-1)). rewrite Hs. split_and!; try done; [naive_solver|].
      constructor. lia.
  - pose proof (HeapPop_spec HeapValue h es Hr) as Hs. destruct (head es) as [t|] eqn:Ht.
    + destruct Hs as (h' & es' & -> & Hr' & Hm & Hp & Ho). exists h', es', (AEntry (Some t)).
      split_and!; try done; [naive_solver|]. rewrite (perm_set_remove _ _ _ Hp Hnd).
      constructor; [apply elem_of_list_to_set; rewrite <- Hp; set_solver|].
      intros Hb e [k Hk]%elem_of_list_to_set%list_elem_of_lookup.
      destruct (Hmin Hb) as [Hord _]. eapply ordered_min; eauto. by destruct es.
    + destruct es; [|done]. exists h, [], (AEntry None). rewrite Hs.
      split_and!; try done. constructor.
  - destruct (decide (e ∈ es)) as [Hin|Hin].
    + pose proof Hin as [k Hk]%list_elem_of_lookup.
      destruct (HeapDelete_spec HeapValue h es k e Hr Hk) as (h' & es' & -> & Hr' & Hm & Hp & _).
      exists h', es', (ARet 0). split_and!; try done; [naive_solver|].
      rewrite (perm_set_remove _ _ _ Hp Hnd). constructor. by apply elem_of_list_to_set.
    + rewrite (delete_absent _ _ _ _ Hr Hin). eexists h, es, _. split_and!; try done; [naive_solver|].
      case_decide; [subst; constructor|]. constructor; [|by rewrite elem_of_list_to_set].
      by destruct es as [|e0 es0]; [|set_solver].
Qed.

(** ** The timers *)

Lemma ordered_ext (f g : Z -> Z) es :
  (forall e, e ∈ es -> f e = g e) -> ordered f es -> ordered g es.
Proof.
  intros Hfg Ho k Hk a b Ha Hb.
  rewrite <- !Hfg by (by eapply list_elem_of_lookup_2). by apply (Ho k).
Qed.

Lemma get_set_expired s t e u :
  get_expired_time (set_expired_time s t e) u = if decide (t = u) then e else get_expired_time s u.
Proof.
  unfold get_expired_time, set_expired_time. simpl.
  case_decide; [subst; by rewrite lookup_insert_eq|by rewrite lookup_insert_ne].
Qed.

(** The timers of a manager are well formed and in order. *)
Definition timers_ok (s : timers) (es : list Z) : Prop :=
  wf (t_heap s) es /\ ordered (get_expired_time s) es /\ 0 <= t_now s.

Definition expired (now : Z) (s : timers) (t : Z) : Prop := get_expired_time s t <= now.
#[export] Instance expired_dec now s t : Decision (expired now s t).
Proof. unfold expired. apply _. Defined.

Lemma start_timer_spec s es t iv :
  timers_ok s es -> t ∉ es -> Z.of_nat (length es) < _max (t_heap s) ->
  0 <= iv -> t_now s + iv < 2 ^ 64 ->
  exists s' es', start_timer s t iv = Ok (s', true) /\ timers_ok s' es' /\ (es' ≡ₚ t :: es) /\
    t_now s' = t_now s /\ _max (t_heap s') = _max (t_heap s) /\
    forall u, get_expired_time s' u = if decide (t = u) then t_now s + iv else get_expired_time s u.
Proof.
  intros (Hr & Ho & Hn) Hin Hroom Hiv Hov. unfold start_timer.
  set (s1 := set_expired_time s t (u64 (t_now s + iv))).
  pose proof (HeapPush_spec (get_expired_time s1) (t_heap s) es t Hr) as Hs.
  rewrite decide_True, decide_False in Hs by done.
  destruct Hs as (h' & es' & Hpush & Hr' & Hm & Hp & Ho'). cbn [t_heap set_expired_time s1].
  rewrite Hpush. cbn [res_bind]. exists (set_heap s1 h'), es'.
  assert (forall u, get_expired_time s1 u =
    if decide (t = u) then t_now s + iv else get_expired_time s u) as Hget.
  { intros u. unfold s1. rewrite get_set_expired, wrapu_small by lia. done. }
  split_and!; try done. split_and!; try done. apply Ho', (ordered_ext (get_expired_time s)); [|done].
  intros e He. rewrite Hget, decide_False; [done|]. by intros ->.
Qed.

(** Callbacks that start their own timer again or leave it stopped, which is
    what [CDestLinks::timer_notify] and [TcpKeepConn::timer_notify] do to the
    timers; [clock t] is the clock when the callback of [t] runs. *)
Definition notify_restart (restart : Z -> option Z) (clock : Z -> Z) (s : timers) (t : Z)
  : res timers :=
  let s := mkTimers (t_heap s) (t_expired s) (clock t) in
  match restart t with
  | None => Ok s
  | Some interval => let* (s, _) := start_timer s t interval in Ok s
  end.

(** One turn of the loop of [check_expired]. *)
Lemma check_expired_turn restart clock s es t :
  timers_ok s es -> head es = Some t -> 0 <= clock t ->
  (forall iv, restart t = Some iv -> 0 <= iv /\ clock t + iv < 2 ^ 64) ->
  exists s' es' rest,
    (let* s := stop_timer s t in notify_restart restart clock s t) = Ok s' /\ timers_ok s' es' /\
    (t :: rest ≡ₚ es) /\ (es' ≡ₚ (if restart t is Some _ then t :: rest else rest)) /\
    forall u, get_expired_time s' u =
      match restart t with
      | Some iv => if decide (t = u) then clock t + iv else get_expired_time s u
      | None => get_expired_time s u
      end.
Proof.
  intros (Hr & Ho & Hn) Ht Hclk Hiv. unfold stop_timer.
  destruct (HeapDelete_spec (get_expired_time s) (t_heap s) es 0 t Hr)
    as (h1 & rest & -> & Hr1 & Hm1 & Hp1 & Ho1); [by destruct es|].
  cbn [res_bind]. unfold notify_restart. cbn [t_heap t_expired set_heap].
  set (s1 := mkTimers h1 (t_expired s) (clock t)).
  assert (timers_ok s1 rest) as Hok.
  { split_and!; try done. apply Ho1; [done|]. intros a b Hk. lia. }
  destruct (restart t) as [iv|] eqn:Er.
  - destruct (Hiv iv eq_refl) as [Hiv0 Hov].
    pose proof (rep_NoDup _ _ _ Hr) as Hnd. pose proof Hr as (_ & _ & Hm & _).
    pose proof (Permutation_length Hp1) as Hlen. simpl in Hlen. rewrite <- Hp1 in Hnd.
    destruct (start_timer_spec s1 rest t iv Hok)
      as (s' & es' & -> & Hok' & Hp' & Hn' & Hm' & Hg'); cbn [t_heap t_now s1]; try lia.
    { by apply NoDup_cons in Hnd as [? _]. }
    exists s', es', rest. by split_and!.
  - exists s1, rest, rest. by split_and!.
Qed.

Lemma filter_ext_in {A} (P Q : A -> Prop) `{forall x, Decision (P x)} `{forall x, Decision (Q x)} (l : list A) :
  (forall x, x ∈ l -> P x <-> Q x) -> filter P l = filter Q l.
Proof.
  induction l as [|x l IH]; intros Hpq; [done|]. rewrite !filter_cons.
  rewrite IH by (intros; apply Hpq; by right). pose proof (Hpq x ltac:(by left)).
  repeat case_decide; tauto.
Qed.

Lemma StronglySorted_weaken {A} (R R' : A -> A -> Prop) (l : list A) :
  (forall a b, a ∈ l -> b ∈ l -> R a b -> R' a b) -> StronglySorted R l -> StronglySorted R' l.
Proof.
  intros Himp. induction 1 as [|a l Hl IH Ha]; constructor.
  - apply IH. intros b c Hb Hc. apply Himp; by right.
  - rewrite Forall_forall in *. intros b Hb. apply Himp; [by left|by right|by apply Ha].
Qed.

Lemma turn_filters now (restart : Z -> option Z) s s' es es' t rest :
  NoDup es -> expired now s t -> (t :: rest ≡ₚ es) ->
  (es' ≡ₚ (if restart t is Some _ then t :: rest else rest)) ->
  (is_Some (restart t) -> ~ expired now s' t) ->
  (forall u, t <> u -> get_expired_time s' u = get_expired_time s u) ->
  (filter (expired now s) es ≡ₚ t :: filter (expired now s') es') /\
  (filter (fun u => ~ expired now s' u) es' ≡ₚ
     filter (fun u => ~ expired now s u) es ++ (if restart t is Some _ then [t] else [])) /\
  (forall u, u ∈ filter (expired now s') es' -> t <> u).
Proof.
  intros Hnd Hex Hp Hp' Hre Hget. rewrite <- Hp in Hnd. apply NoDup_cons in Hnd as [Hin Hnd].
  assert (forall u, u ∈ rest -> expired now s' u <-> expired now s u) as He.
  { intros u Hu. unfold expired. rewrite Hget; [done|]. by intros ->. }
  assert (filter (expired now s') rest = filter (expired now s) rest) as E1 by (by apply filter_ext_in).
  assert (filter (fun u => ~ expired now s' u) rest = filter (fun u => ~ expired now s u) rest) as E2
    by (apply filter_ext_in; intros u Hu; by rewrite He).
  rewrite <- Hp, Hp', filter_cons_True, filter_cons_False by tauto.
  destruct (restart t) as [iv|] eqn:Er.
  - specialize (Hre ltac:(eauto)). rewrite filter_cons_False, filter_cons_True, E1, E2 by done.
    split_and!; [done|by rewrite Permutation_app_comm|].
    by intros u [Hu _]%list_elem_of_filter <-.
  - rewrite E1, E2, app_nil_r. split_and!; try done.
    intros u [_ Hu]%list_elem_of_filter <-. by rewrite Hp' in Hu.
Qed.

Lemma head_expired now s es :
  timers_ok s es -> (0 < length (filter (expired now s) es))%nat ->
  exists t, head es = Some t /\ expired now s t.
Proof.
  intros (_ & Ho & _) Hlen. destruct (filter (expired now s) es) as [|e l] eqn:E; [simpl in Hlen; lia|].
  assert (e ∈ filter (expired now s) es) as [He [k Hk]%list_elem_of_lookup]%list_elem_of_filter
    by (rewrite E; by left).
  destruct es as [|t es]; [done|]. exists t. split; [done|]. unfold expired in *.
  pose proof (ordered_min _ _ _ t e Ho eq_refl Hk). lia.
Qed.

Lemma check_expired_none notify now fuel s es :
  timers_ok s es -> filter (expired now s) es = [] -> (0 < fuel)%nat ->
  check_expired_loop notify now fuel s = Ok (s, []).
Proof.
  intros (Hr & _) Hnone Hf. destruct fuel as [|fuel]; [lia|]. cbn [check_expired_loop].
  rewrite (HeapTop_spec _ _ Hr). cbn [res_bind].
  destruct (head es) as [t|] eqn:Ht; [|done]. apply head_Some_elem_of in Ht.
  rewrite (proj2 (Z.leb_gt _ _)); [done|]. apply Z.nle_gt. intros Hex.
  assert (t ∈ filter (expired now s) es) as Hin by (by apply list_elem_of_filter).
  rewrite Hnone in Hin. set_solver.
Qed.

Lemma check_expired_spec restart clock now n : forall fuel s es,
  timers_ok s es -> 0 <= now -> (forall t, now <= clock t) ->
  (forall t iv, restart t = Some iv -> 0 < iv /\ clock t + iv < 2 ^ 64) ->
  length (filter (expired now s) es) = n -> (n < fuel)%nat ->
  exists s' es' log, check_expired_loop (notify_restart restart clock) now fuel s = Ok (s', log) /\
    timers_ok s' es' /\
    (log ≡ₚ filter (expired now s) es) /\
    StronglySorted (fun a b => get_expired_time s a <= get_expired_time s b) log /\
    (es' ≡ₚ filter (fun t => ~ expired now s t) es ++ filter (fun t => is_Some (restart t)) log) /\
    forall t, get_expired_time s' t =
      if decide (t ∈ log)
      then from_option (fun iv => clock t + iv) (get_expired_time s t) (restart t)
      else get_expired_time s t.
Proof.
  induction n as [|n IH]; intros [|fuel] s es Hok Hnow Hclk Hiv Hlen Hf; [lia| |lia|].
  - apply nil_length_inv in Hlen. exists s, es, [].
    rewrite (check_expired_none _ _ _ _ _ Hok Hlen Hf), Hlen, app_nil_r.
    split_and!; try done; [constructor|]. rewrite filter_all; [done|].
    apply Forall_forall. intros t Ht Hex.
    assert (t ∈ filter (expired now s) es) as Hin by (by apply list_elem_of_filter).
    rewrite Hlen in Hin. set_solver.
  - destruct (head_expired now s es Hok) as (t & Ht & Hex); [lia|]. pose proof Hok as (Hr & Ho & Hn).
    cbn [check_expired_loop]. rewrite (HeapTop_spec _ _ Hr). cbn [res_bind].
    destruct (check_expired_turn restart clock s es t Hok Ht) as (s1 & es1 & rest & Hturn & Hok1 & Hp & Hp1 & Hg1).
    { specialize (Hclk t). lia. }
    { intros iv Hr'. apply Hiv in Hr'. lia. }
    rewrite Ht. unfold expired in Hex. rewrite (proj2 (Z.leb_le _ _)) by done.
    res_inv Hturn. rewrite E. cbn [res_bind]. rewrite Hturn. cbn [res_bind].
    assert (forall u, t <> u -> get_expired_time s1 u = get_expired_time s u) as Hsame.
    { intros u Hu. rewrite Hg1. case_match; [|done]. by rewrite decide_False. }
    destruct (turn_filters now restart s s1 es es1 t rest) as (F1 & F2 & F3); eauto using rep_NoDup.
    { intros [iv Er]. unfold expired. rewrite Hg1, Er, decide_True by done. specialize (Hiv t iv Er). specialize (Hclk t). lia. }
    destruct (IH fuel s1 es1) as (s2 & es2 & log & -> & Hok2 & Hlog & Hsort & Hp2 & Hg2); [done..| |lia|].
    { rewrite F1 in Hlen. simpl in Hlen. lia. }
    exists s2, es2, (t :: log). cbn [res_bind].
    assert (forall u, u ∈ log -> t <> u) as Hne by (intros u Hu; apply F3; by rewrite <- Hlog).
    split_and!; [done..|by rewrite Hlog, F1| | |].
    + constructor.
      * revert Hsort. apply StronglySorted_weaken. intros a b Ha Hb. by rewrite !Hsame by auto.
      * apply Forall_forall. intros u Hu. assert (u ∈ es) as [k Hk]%list_elem_of_lookup.
        { rewrite Hlog in Hu. apply (list_elem_of_filter (expired now s)). rewrite F1. by right. }
        eapply ordered_min; [exact Ho| |exact Hk]. by destruct es.
    + rewrite Hp2, F2, filter_cons, <- app_assoc. case_decide as Hd; destruct (restart t); naive_solver.
    + intros u. rewrite Hg2. destruct (decide (u = t)) as [->|Hu].
      * rewrite (decide_True (P := t ∈ t :: log)) by (by left).
        rewrite decide_False by (intros Hl; by apply (Hne t Hl)). rewrite Hg1.
        destruct (restart t); simpl; [by rewrite decide_True|done].
      * rewrite Hsame by done. apply decide_ext. set_solver.
Qed.

(** ** New heaps *)

Lemma HeapList_wf max index :
  max < 2 ^ 30 -> (forall e, default 0 (index !! e) = 0) ->
  exists h, HeapList true max index = Ok h /\ wf h [] /\
    _max h = if 0 <? max then max else 100000.
Proof.
  intros Hmax Hix. unfold HeapList. eexists. split; [done|]. split; [|done].
  assert (0 <= (if 0 <? max then max else 100000) < 2 ^ 30) as Hm by (case_match; lia).
  unfold rep, GetIndex, lay. cbn [_list _max _count _index length]. split_and!; try done; try lia.
  - rewrite Z2Nat.inj_add, Nat.add_1_r by lia. simpl. by rewrite Nat.sub_0_r.
  - intros e _. rewrite Hix. split; [done|]. intros k. rewrite lookup_nil. split; [done|lia].
Qed.

Lemma HeapResize_wf malloc_ok h es size :
  wf h es -> size < 2 ^ 30 ->
  let '(h', r) := HeapResize malloc_ok h size in
  wf h' es /\ (r = 0 \/ r = -1) /\ (r = 0 -> size <= _max h') /\ _max h <= _max h'.
Proof.
  intros Hr Hs. unfold HeapResize. destruct (Z.leb_spec size (_max h)); [split_and!; auto; lia|].
  destruct malloc_ok; [|split_and!; auto; lia]. cbn [_max]. split_and!; try lia.
  destruct Hr as (Hl & Hc & Hm & Hx & Hix). unfold rep. cbn [_list _max _count].
  split_and!; try done; try lia. rewrite Hl. unfold lay. simpl. f_equal.
  rewrite <- app_assoc, <- replicate_add. do 2 f_equal. lia.
Qed.

Lemma HeapForeach_spec HeapValue h es :
  wf h es -> exists o, HeapForeach HeapValue h = Ok (o, es).
Proof.
  intros Hr. pose proof Hr as (_ & Hc & _). unfold HeapForeach. rewrite Hc, Nat2Z.id.
  change 1 with (Z.of_nat (S 0)) at 1. generalize 1 as per.
  assert (forall n k per, (n + k = length es)%nat ->
    exists o, HeapForeach_loop HeapValue n h (Z.of_nat (S k)) per = Ok (o, drop k es)) as Hloop.
  { induction n as [|n IH]; intros k per Hk; cbn [HeapForeach_loop].
    - rewrite drop_ge by lia. eauto.
    - destruct (lookup_lt_is_Some_2 es k) as [e He]; [lia|].
      rewrite (rep_deref _ _ _ _ _ Hr He). cbn [res_bind].
      replace (Z.of_nat (S k) + 1) with (Z.of_nat (S (S k))) by lia.
      edestruct (IH (S k)) as [o ->]; [lia|]. cbn [res_bind]. rewrite (drop_S _ _ _ He). eauto. }
  intros per. destruct (Hloop (length es) 0%nat per) as [o Ho]; [lia|]. rewrite Ho. eauto.
Qed.

(** ** Properties *)

(** C12: For every sequence of pushes, pops and deletions the heap answers like
    a bounded set of entries, with the error codes of the code for a full heap,
    an entry inserted twice and an entry that is not there; it stays well
    formed, and without deletions every pop gives an entry of least value. *)
Theorem heap_refines_pqueue HeapValue min h es os :
  wf h es -> (min = true -> ordered HeapValue es /\ Forall no_delete os) ->
  exists h' es' al, heap_run HeapValue h os = Ok (h', al) /\ wf h' es' /\
    pq_run HeapValue (_max h) min (list_to_set es) os al (list_to_set es').
Proof.
  revert h es. induction os as [|o os IH]; intros h es Hr Hmin.
  - exists h, es, []. split_and!; try done. constructor.
  - destruct (heap_step_refines HeapValue min h es o Hr) as (h1 & es1 & a & E1 & Hr1 & Hm1 & Ho1 & Hs).
    { intros Hb. destruct (Hmin Hb) as [? Hf]. by apply Forall_cons in Hf as [? _]. }
    destruct (IH h1 es1 Hr1) as (h2 & es2 & al & E2 & Hr2 & Hrun).
    { intros Hb. destruct (Hmin Hb) as [? Hf]. apply Forall_cons in Hf as [_ ?]. auto. }
    exists h2, es2, (a :: al). cbn [heap_run]. rewrite E1. cbn [res_bind]. rewrite E2.
    split_and!; try done. rewrite Hm1 in Hrun. by econstructor.
Qed.

(** Deleting an entry takes exactly this entry out; the heap stays in order
    if and only if the last entry, which fills the hole, is not below the
    parent of the hole. *)
Theorem heap_delete_order HeapValue h es k e :
  wf h es -> ordered HeapValue es -> es !! k = Some e ->
  exists h' es', HeapDelete HeapValue h e = Ok (h', 0) /\ wf h' es' /\ GetIndex h' e = 0 /\
    (e :: es' ≡ₚ es) /\ (ordered HeapValue es' <-> delete_safe HeapValue es k).
Proof.
  intros Hr Ho Hk. destruct (HeapDelete_spec HeapValue h es k e Hr Hk) as (h' & es' & Hd & Hr' & _ & Hp & Hiff).
  exists h', es'. split_and!; try done; [|by apply Hiff..].
  apply (wf_index0 _ _ _ Hr'). pose proof (rep_NoDup _ _ _ Hr) as Hnd. rewrite <- Hp in Hnd.
  by apply NoDup_cons in Hnd as [? _].
Qed.

(** C20: When the timers are in order and callbacks start their own timer again
    in the future at most, [check_expired] ends; it notifies exactly the timers
    that have expired, each once and in the order of their expiry, and leaves
    the others and the restarted ones pending and in order. *)
Theorem check_expired_correct restart clock s es fuel :
  timers_ok s es -> (forall t, t_now s <= clock t) ->
  (forall t iv, restart t = Some iv -> 0 < iv /\ clock t + iv < 2 ^ 64) ->
  (length (filter (expired (t_now s) s) es) < fuel)%nat ->
  exists s' es' log, check_expired (notify_restart restart clock) fuel s = Ok (s', log) /\
    timers_ok s' es' /\ (log ≡ₚ filter (expired (t_now s) s) es) /\
    StronglySorted (fun a b => get_expired_time s a <= get_expired_time s b) log /\
    (es' ≡ₚ filter (fun t => ~ expired (t_now s) s t) es ++ filter (fun t => is_Some (restart t)) log) /\
    Forall (fun t => ~ expired (t_now s) s' t) es'.
Proof.
  intros Hok Hclk Hiv Hf. pose proof Hok as (_ & _ & Hnow).
  destruct (check_expired_spec restart clock (t_now s) _ fuel s es Hok Hnow Hclk Hiv eq_refl Hf)
    as (s' & es' & log & E & Hok' & Hlog & Hsort & Hp & Hg).
  exists s', es', log. split_and!; try done. apply Forall_forall. intros t Ht. rewrite Hp in Ht.
  unfold expired. rewrite Hg.
  apply elem_of_app in Ht as [[Hne Hin]%list_elem_of_filter|[[iv Hr] Hin]%list_elem_of_filter].
  - rewrite decide_False; [done|]. rewrite Hlog. intros [Hex _]%list_elem_of_filter. done.
  - rewrite decide_True, Hr by done. simpl. specialize (Hiv t iv Hr). specialize (Hclk t). lia.
Qed.

(** ** Witnesses *)

Definition empty_heap : heap := mkHeap (replicate 8 None) 7 0 ∅.

Lemma empty_heap_wf : wf empty_heap [].
Proof.
  unfold rep, GetIndex, empty_heap, lay. simpl. split_and!; try done; try lia.
Qed.

Lemma heap_refines_pqueue_witness :
  exists h' al, heap_run (fun e => e) empty_heap [OPush 5; OPush 3; OPush 3; OPop; OPop; OPop] = Ok (h', al) /\
    exists S, pq_run (fun e => e) 7 true ∅ [OPush 5; OPush 3; OPush 3; OPop; OPop; OPop] al S.
Proof.
  destruct (heap_refines_pqueue (fun e => e) true empty_heap []
    [OPush 5; OPush 3; OPush 3; OPop; OPop; OPop] empty_heap_wf) as (h' & es' & al & E & _ & Hrun).
  - intros _. split; [intros k Hk a b Ha; by rewrite lookup_nil in Ha|by repeat constructor].
  - exists h', al. split; [exact E|]. by eexists.
Defined.

Definition two_heap : heap :=
  mkHeap [None; Some 1; Some 2; None; None; None; None; None] 7 2 {[1 := 1; 2 := 2]}.

Lemma two_heap_wf : wf two_heap [1; 2].
Proof.
  unfold rep, GetIndex, two_heap, lay. simpl. split_and!; try done; try lia.
  intros e _. destruct (decide (e = 1)) as [->|]; [|destruct (decide (e = 2)) as [->|]].
  - change (default 0 (_ !! 1)) with 1. split; [done|].
    intros [|[|k]]; simpl; rewrite ?lookup_nil; split; intros; simplify_eq; try lia; done.
  - change (default 0 (_ !! 2)) with 2. split; [done|].
    intros [|[|k]]; simpl; rewrite ?lookup_nil; split; intros; simplify_eq; try lia; done.
  - rewrite lookup_insert_ne, lookup_singleton_ne by done. split; [done|].
    intros [|[|k]]; simpl; rewrite ?lookup_nil; split; intros; simplify_eq; lia.
Qed.

Lemma two_heap_ordered : ordered (fun e => e) [1; 2].
Proof.
  intros [|[|k]] Hk a b Ha Hb; [lia| |]; simpl in *; [simplify_eq; lia|].
  by rewrite lookup_nil in Hb.
Qed.

Lemma heap_delete_order_witness :
  exists h' es', HeapDelete (fun e => e) two_heap 2 = Ok (h', 0) /\ wf h' es' /\ GetIndex h' 2 = 0 /\
    (2 :: es' ≡ₚ [1; 2]) /\ (ordered (fun e => e) es' <-> delete_safe (fun e => e) [1; 2] 1).
Proof. exact (heap_delete_order (fun e => e) two_heap [1; 2] 1 2 two_heap_wf two_heap_ordered eq_refl). Defined.

Definition two_timers : timers := mkTimers two_heap {[1 := 10; 2 := 20]} 15.

Lemma check_expired_correct_witness :
  exists s' log, check_expired (notify_restart (fun _ => Some 60) (fun _ => 16)) 3 two_timers = Ok (s', log) /\
    log ≡ₚ [1].
Proof.
  destruct (check_expired_correct (fun _ => Some 60) (fun _ => 16) two_timers [1; 2] 3)
    as (s' & es' & log & E & _ & Hlog & _).
  - split_and!; [exact two_heap_wf| |done].
    intros [|[|k]] Hk a b Ha Hb; [lia| |]; simpl in *; [by simplify_eq|by rewrite lookup_nil in Hb].
  - done.
  - intros t iv [= <-]. split; [lia|]. done.
  - vm_compute. lia.
  - exists s', log. split; [exact E|]. exact Hlog.
Defined.

(** ** Findings *)

(** A deletion in the middle of the heap can leave an entry below a greater
    one, and later pops are out of order: 5 comes before 3. *)
Example heap_pop_out_of_order :
  match heap_run (fun e => e) empty_heap
    [OPush 1; OPush 10; OPush 2; OPush 11; OPush 12; OPush 5; OPush 3; ODelete 11; OPop; OPop; OPop; OPop] with
  | Ok (_, al) => drop 8 al = [AEntry (Some 1); AEntry (Some 2); AEntry (Some 5); AEntry (Some 3)]
  | _ => False
  end.
Proof. vm_compute. reflexivity. Qed.

(** Starting a timer that is pending is refused, but its expiry has been
    overwritten in place: the timer at the top is late, and keeps the one below
    it from being seen. *)
Example start_timer_pending :
  match (let* (s, ok) := start_timer two_timers 1 1000 in
         let* (s', log) := check_expired (notify_restart (fun _ => None) (fun _ => 25)) 3
                             (mkTimers (t_heap s) (t_expired s) 25) in
         Ok (ok, log)) with
  | Ok (ok, log) => ok = false /\ log = [] /\ get_expired_time two_timers 2 = 20
  | _ => False
  end.
Proof. vm_compute. auto. Qed.
