(* ===== verification/Sched.v ===== *)
(** * The scheduler of the user space threads

    [src/adapter/micro_thread/micro_thread.cpp]: threads that run until they
    give the processor up, the lists they wait in and the pool they come from.

    A thread is the address of a [MicroThread]; [threads] is the memory they
    live in.  The machine context of a thread is not modelled: a switch of
    contexts is the change of [_curr_thread].  The clock is an argument of the
    operations that read it ([GetLastClock]), and so is what [new] returns. *)

From S2P Require Import Prelude Heap.
Import Heap.

Module Sched.

Inductive ThreadType := NORMAL | PRIMORDIAL | DAEMON | SUB_THREAD.
Inductive ThreadState := INITIAL | RUNABLE | RUNNING | SLEEPING | PENDING.

(** [ThreadFlag] *)
Definition NOT_INLIST : Z := 0x0.
Definition FREE_LIST : Z := 0x1.
Definition IO_LIST : Z := 0x2.
Definition SLEEP_LIST : Z := 0x4.
Definition RUN_LIST : Z := 0x8.
Definition PEND_LIST : Z := 0x10.
Definition SUB_LIST : Z := 0x20.

Record MicroThread := mkThread {
  _flag : Z;
  _type : ThreadType;
  _state : ThreadState;
  _wakeup_time : Z;
  _parent : option Z;
  _sub_list : list Z
}.

(** The constructor, and [CleanState] with [Reset]. *)
Definition new_thread (type : ThreadType) : MicroThread :=
  mkThread NOT_INLIST type INITIAL 0 None [].

Definition set_flag (fl : Z) (th : MicroThread) : MicroThread :=
  mkThread (flag_set (_flag th) fl) (_type th) (_state th) (_wakeup_time th) (_parent th) (_sub_list th).
Definition unset_flag (fl : Z) (th : MicroThread) : MicroThread :=
  mkThread (flag_clr (_flag th) fl) (_type th) (_state th) (_wakeup_time th) (_parent th) (_sub_list th).
Definition has_flag (fl : Z) (th : MicroThread) : bool := flag_is_set (_flag th) fl.
Definition set_type (ty : ThreadType) (th : MicroThread) : MicroThread :=
  mkThread (_flag th) ty (_state th) (_wakeup_time th) (_parent th) (_sub_list th).
Definition set_state (st : ThreadState) (th : MicroThread) : MicroThread :=
  mkThread (_flag th) (_type th) st (_wakeup_time th) (_parent th) (_sub_list th).
Definition set_wakeup (w : Z) (th : MicroThread) : MicroThread :=
  mkThread (_flag th) (_type th) (_state th) w (_parent th) (_sub_list th).
Definition set_parent (p : option Z) (th : MicroThread) : MicroThread :=
  mkThread (_flag th) (_type th) (_state th) (_wakeup_time th) p (_sub_list th).
Definition set_subs (l : list Z) (th : MicroThread) : MicroThread :=
  mkThread (_flag th) (_type th) (_state th) (_wakeup_time th) (_parent th) l.

(** [MtFrame] with its [ThreadPool]. *)
Record MtFrame := mkFrame {
  threads : gmap Z MicroThread;
  _runlist : list Z;
  _iolist : list Z;
  _pend_list : list Z;
  _sleeplist : heap;
  _daemon : Z;
  _curr_thread : Z;
  _waitnum : Z;
  _freelist : list Z;
  _total_num : Z;
  _use_num : Z;
  _max_num : Z;
  default_thread_num : Z
}.

Definition with_threads (f : MtFrame) x :=
  mkFrame x (_runlist f) (_iolist f) (_pend_list f) (_sleeplist f) (_daemon f) (_curr_thread f)
    (_waitnum f) (_freelist f) (_total_num f) (_use_num f) (_max_num f) (default_thread_num f).
Definition with_run (f : MtFrame) x n :=
  mkFrame (threads f) x (_iolist f) (_pend_list f) (_sleeplist f) (_daemon f) (_curr_thread f)
    n (_freelist f) (_total_num f) (_use_num f) (_max_num f) (default_thread_num f).
Definition with_io (f : MtFrame) x :=
  mkFrame (threads f) (_runlist f) x (_pend_list f) (_sleeplist f) (_daemon f) (_curr_thread f)
    (_waitnum f) (_freelist f) (_total_num f) (_use_num f) (_max_num f) (default_thread_num f).
Definition with_pend (f : MtFrame) x :=
  mkFrame (threads f) (_runlist f) (_iolist f) x (_sleeplist f) (_daemon f) (_curr_thread f)
    (_waitnum f) (_freelist f) (_total_num f) (_use_num f) (_max_num f) (default_thread_num f).
Definition with_sleep (f : MtFrame) x :=
  mkFrame (threads f) (_runlist f) (_iolist f) (_pend_list f) x (_daemon f) (_curr_thread f)
    (_waitnum f) (_freelist f) (_total_num f) (_use_num f) (_max_num f) (default_thread_num f).
Definition with_curr (f : MtFrame) x :=
  mkFrame (threads f) (_runlist f) (_iolist f) (_pend_list f) (_sleeplist f) (_daemon f) x
    (_waitnum f) (_freelist f) (_total_num f) (_use_num f) (_max_num f) (default_thread_num f).
Definition with_pool (f : MtFrame) free total use dflt :=
  mkFrame (threads f) (_runlist f) (_iolist f) (_pend_list f) (_sleeplist f) (_daemon f)
    (_curr_thread f) (_waitnum f) free total use (_max_num f) dflt.

Definition get_thread (f : MtFrame) (t : Z) : res MicroThread :=
  match threads f !! t with Some th => Ok th | None => Panic end.
Definition upd_thread (f : MtFrame) (t : Z) (g : MicroThread -> MicroThread) : res MtFrame :=
  let* th := get_thread f t in Ok (with_threads f (<[t := g th]> (threads f))).

(** [TAILQ_REMOVE] of an element that is not in the list damages memory. *)
Fixpoint tailq_remove (t : Z) (l : list Z) : res (list Z) :=
  match l with
  | [] => Panic
  | x :: l => if x =? t then Ok l else let* l' := tailq_remove t l in Ok (x :: l')
  end.

Definition HasFlag (f : MtFrame) (t fl : Z) : res bool :=
  let* th := get_thread f t in Ok (has_flag fl th).

(** [MicroThread::HeapValue] *)
Definition HeapValue (ths : gmap Z MicroThread) (t : Z) : Z := from_option _wakeup_time 0 (ths !! t).

(** ** The lists; a failed [ASSERT] has no effect *)

Definition InsertSleep (f : MtFrame) (t : Z) : res MtFrame :=
  let* f := upd_thread f t (set_flag SLEEP_LIST) in
  let* f := upd_thread f t (set_state SLEEPING) in
  let* (h, _) := HeapPush (HeapValue (threads f)) (_sleeplist f) t in
  Ok (with_sleep f h).

Definition RemoveSleep (f : MtFrame) (t : Z) : res MtFrame :=
  let* f := upd_thread f t (unset_flag SLEEP_LIST) in
  let* (h, _) := HeapDelete (HeapValue (threads f)) (_sleeplist f) t in
  Ok (with_sleep f h).

Definition InsertIoWait (f : MtFrame) (t : Z) : res MtFrame :=
  let* f := upd_thread f t (set_flag IO_LIST) in
  InsertSleep (with_io f (_iolist f ++ [t])) t.

Definition RemoveIoWait (f : MtFrame) (t : Z) : res MtFrame :=
  let* f := upd_thread f t (unset_flag IO_LIST) in
  let* l := tailq_remove t (_iolist f) in
  RemoveSleep (with_io f l) t.

Definition InsertRunable (f : MtFrame) (t : Z) : res MtFrame :=
  let* f := upd_thread f t (set_flag RUN_LIST) in
  let* f := upd_thread f t (set_state RUNABLE) in
  Ok (with_run f (_runlist f ++ [t]) (s32 (_waitnum f + 1))).

(** [_runlist.pop()] on an empty queue is undefined. *)
Definition RemoveRunable (f : MtFrame) (t : Z) : res MtFrame :=
  let* f := upd_thread f t (unset_flag RUN_LIST) in
  match _runlist f with
  | [] => Panic
  | _ :: l => Ok (with_run f l (s32 (_waitnum f - 1)))
  end.

Definition InsertPend (f : MtFrame) (t : Z) : res MtFrame :=
  let* f := upd_thread f t (set_flag PEND_LIST) in
  upd_thread (with_pend f (_pend_list f ++ [t])) t (set_state PENDING).

Definition RemovePend (f : MtFrame) (t : Z) : res MtFrame :=
  let* f := upd_thread f t (unset_flag PEND_LIST) in
  let* l := tailq_remove t (_pend_list f) in
  Ok (with_pend f l).

(** ** Switching *)

Definition run_thread (f : MtFrame) (t : Z) : res MtFrame :=
  upd_thread (with_curr f t) t (set_state RUNNING).

Definition ThreadSchdule (f : MtFrame) : res MtFrame :=
  match _runlist f with
  | [] => run_thread f (_daemon f)
  | t :: _ => let* f := RemoveRunable f t in run_thread f t
  end.

(** [Thread::sleep] of the active thread, with [ScheduleSleep]. *)
Definition sleep (f : MtFrame) (now ms : Z) : res MtFrame :=
  let t := _curr_thread f in
  let* f := upd_thread f t (set_wakeup (u64 (now + ms))) in
  let* f := InsertSleep f t in
  ThreadSchdule f.

(** [Thread::Wait], with [SchedulePend]. *)
Definition Wait (f : MtFrame) : res MtFrame :=
  let* f := InsertPend f (_curr_thread f) in
  ThreadSchdule f.

Definition ScheduleUnpend (f : MtFrame) (t : Z) : res MtFrame :=
  let* f := RemovePend f t in
  InsertRunable f t.

(** [WaitNotify]; [KqueueSchedule] waits in the same way. *)
Definition WaitNotify (f : MtFrame) (now timeout : Z) : res MtFrame :=
  let t := _curr_thread f in
  let* f := upd_thread f t (set_wakeup (u64 (timeout + now))) in
  let* f := InsertIoWait f t in
  ThreadSchdule f.

Definition NotifyThread (f : MtFrame) (t : Z) : res MtFrame :=
  let* io := HasFlag f t IO_LIST in
  if io then
    let* f := RemoveIoWait f t in
    if _curr_thread f =? _daemon f then run_thread f t else InsertRunable f t
  else Ok f.

(** [KqueuerObj::InputNotify] and [OutputNotify] of the owner [t]. *)
Definition IoNotify (f : MtFrame) (t : Z) : res MtFrame :=
  let* io := HasFlag f t IO_LIST in
  if io then
    let* f := RemoveIoWait f t in
    InsertRunable f t
  else Ok f.

Definition SwapDaemonThread (f : MtFrame) : res MtFrame :=
  let t := _curr_thread f in
  if t =? _daemon f then Ok f
  else
    let* f := InsertRunable f t in
    run_thread f (_daemon f).

Fixpoint WakeupTimeout_loop (fuel : nat) (f : MtFrame) (now : Z) : res MtFrame :=
  match fuel with
  | O => NoFuel
  | S fuel' =>
      let* top := HeapTop (_sleeplist f) in
      match top with
      | None => Ok f
      | Some t =>
          let* th := get_thread f t in
          if _wakeup_time th <=? now then
            let* f := if has_flag IO_LIST th then RemoveIoWait f t else RemoveSleep f t in
            let* f := InsertRunable f t in
            WakeupTimeout_loop fuel' f now
          else Ok f
      end
  end.

Definition WakeupTimeout (f : MtFrame) (now : Z) : res MtFrame :=
  WakeupTimeout_loop (S (Z.to_nat (_count (_sleeplist f)))) f now.

Definition KqueueGetTimeout (f : MtFrame) (now : Z) : res Z :=
  let* top := HeapTop (_sleeplist f) in
  match top with
  | None => Ok 10
  | Some t =>
      let* th := get_thread f t in
      if _wakeup_time th <? now then Ok 0 else Ok (s32 (u64 (_wakeup_time th - now)))
  end.

(** ** The pool *)

(** [fresh] is the address of the new thread, if memory and stack are there. *)
Definition AllocThread (f : MtFrame) (fresh : option Z) : res (MtFrame * option Z) :=
  match _freelist f with
  | t :: l =>
      let f := with_pool f l (_total_num f) (s32 (_use_num f + 1)) (default_thread_num f) in
      let* f := upd_thread f t (unset_flag FREE_LIST) in
      Ok (f, Some t)
  | [] =>
      if _max_num f <=? _total_num f then Ok (f, None)
      else
        match fresh with
        | None => Ok (f, None)
        | Some t =>
            let f := with_threads f (<[t := new_thread NORMAL]> (threads f)) in
            let use := s32 (_use_num f + 1) in
            let dflt := default_thread_num f in
            let dflt := if (s32 dflt <? use) && (s32 (s32 dflt * 2) <? _max_num f)
                        then u32 (dflt * 2) else dflt in
            Ok (with_pool f [] (s32 (_total_num f + 1)) use dflt, Some t)
        end
  end.

Definition DEFAULT_THREAD_NUM : Z := 5000.

Definition FreeThread (f : MtFrame) (t : Z) : res MtFrame :=
  let* f := upd_thread f t (fun _ => new_thread NORMAL) in
  let use := s32 (_use_num f - 1) in
  let free := _freelist f ++ [t] in
  let* f := upd_thread f t (set_flag FREE_LIST) in
  let dflt := default_thread_num f in
  let free_num := u32 (Z.of_nat (length free)) in
  if (dflt <? free_num) && (1 <? free_num) then
    match free with
    | [] => Panic
    | d :: free' =>
        let f := with_threads f (delete d (threads f)) in
        let dflt' := if DEFAULT_THREAD_NUM <=? dflt / 2 then dflt / 2 else dflt in
        Ok (with_pool f free' (s32 (_total_num f - 1)) use dflt')
    end
  else Ok (with_pool f free (_total_num f) use dflt).

Definition CreateThread (f : MtFrame) (fresh : option Z) (runable : bool) : res (MtFrame * option Z) :=
  let* (f, t) := AllocThread f fresh in
  match t with
  | None => Ok (f, None)
  | Some t =>
      if runable then let* f := InsertRunable f t in Ok (f, Some t) else Ok (f, Some t)
  end.

(** ** Sub threads *)

Definition AddSubThread (f : MtFrame) (p sub : Z) : res MtFrame :=
  let* b := HasFlag f sub SUB_LIST in
  let* f :=
    if b then Ok f
    else
      let* f := upd_thread f p (fun th => set_subs (_sub_list th ++ [sub]) th) in
      upd_thread f sub (set_parent (Some p)) in
  upd_thread f sub (set_flag SUB_LIST).

Definition RemoveSubThread (f : MtFrame) (p sub : Z) : res MtFrame :=
  let* b := HasFlag f sub SUB_LIST in
  let* f :=
    if b then
      let* th := get_thread f p in
      let* l := tailq_remove sub (_sub_list th) in
      let* f := upd_thread f p (set_subs l) in
      upd_thread f sub (set_parent None)
    else Ok f in
  upd_thread f sub (unset_flag SUB_LIST).

Definition HasNoSubThread (f : MtFrame) (p : Z) : res bool :=
  let* th := get_thread f p in Ok (bool_decide (_sub_list th = [])).

Definition WakeupParent (f : MtFrame) (t : Z) : res MtFrame :=
  let* th := get_thread f t in
  match _parent th with
  | Some p =>
      let* f := RemoveSubThread f p t in
      let* b := HasNoSubThread f p in
      if b then ScheduleUnpend f p else Ok f
  | None => Ok f
  end.

(** [MicroThread::Run] after its function has returned: the active thread
    wakes its parent up, goes back to the pool and the next one runs. *)
Definition Run_end (f : MtFrame) : res MtFrame :=
  let t := _curr_thread f in
  let* th := get_thread f t in
  let* f := match _type th with SUB_THREAD => WakeupParent f t | _ => Ok f end in
  let* f := FreeThread f (_curr_thread f) in
  ThreadSchdule f.

(** [mt_exec_all_task]: one sub thread per task, created first and then handed
    to the active thread, which waits for all of them.  [fresh] says what [new]
    returns for each of them. *)
Fixpoint create_subs (f : MtFrame) (fresh : list (option Z)) : res (MtFrame * list Z * bool) :=
  match fresh with
  | [] => Ok (f, [], true)
  | a :: fresh =>
      let* (f, t) := CreateThread f a false in
      match t with
      | None => Ok (f, [], false)
      | Some sub =>
          let* f := upd_thread f sub (set_type SUB_THREAD) in
          let* (f, l, ok) := create_subs f fresh in
          Ok (f, sub :: l, ok)
      end
  end.

Fixpoint start_subs (f : MtFrame) (p : Z) (subs : list Z) : res MtFrame :=
  match subs with
  | [] => Ok f
  | sub :: subs =>
      let* f := AddSubThread f p sub in
      let* f := InsertRunable f sub in
      start_subs f p subs
  end.

Fixpoint free_subs (f : MtFrame) (subs : list Z) : res MtFrame :=
  match subs with
  | [] => Ok f
  | sub :: subs => let* f := FreeThread f sub in free_subs f subs
  end.

(** The second component: [true] when the active thread waits, [false] for a
    return without one. *)
Definition mt_exec_all_task (f : MtFrame) (fresh : list (option Z)) : res (MtFrame * bool) :=
  match fresh with
  | [] => Ok (f, false)
  | _ =>
      let p := _curr_thread f in
      let* (f, subs, ok) := create_subs f fresh in
      if ok then
        let* f := start_subs f p subs in
        let* f := Wait f in
        Ok (f, true)
      else
        let* f := free_subs f subs in
        Ok (f, false)
  end.

(** [GetRootThread]; the chain of parents is followed from the active thread. *)
Fixpoint GetRootThread_loop (fuel : nat) (f : MtFrame) (t : Z) : res Z :=
  match fuel with
  | O => NoFuel
  | S fuel' =>
      let* th := get_thread f t in
      match _type th with
      | SUB_THREAD =>
          match _parent th with
          | None => Ok t
          | Some p => GetRootThread_loop fuel' f p
          end
      | _ => Ok t
      end
  end.

Definition GetRootThread (f : MtFrame) : res Z :=
  GetRootThread_loop (S (size (threads f))) f (_curr_thread f).

(** ** What the running thread and the daemon do *)

Inductive event :=
| ESleep (now ms : Z)
| EWaitNotify (now timeout : Z)
| ENotify (t : Z)
| ESwap
| EStart (fresh : option Z)
| EExecAll (fresh : list (option Z))
| EEnd
| EIo (t : Z)
| EWakeup (now : Z)
| EDaemonSwitch.

Definition sched_step (f : MtFrame) (e : event) : res MtFrame :=
  match e with
  | ESleep now ms => sleep f now ms
  | EWaitNotify now timeout => WaitNotify f now timeout
  | ENotify t => NotifyThread f t
  | ESwap => SwapDaemonThread f
  | EStart fresh => let* (f, _) := CreateThread f fresh true in Ok f
  | EExecAll fresh => let* (f, _) := mt_exec_all_task f fresh in Ok f
  | EEnd => Run_end f
  | EIo t => IoNotify f t
  | EWakeup now => WakeupTimeout f now
  | EDaemonSwitch => ThreadSchdule f
  end.

End Sched.
