(* ===== verification/SchedProofs.v ===== *)
(** * The scheduler of the user space threads: proofs

    The invariant says where the threads are: every thread is in exactly one
    of the run list, the heap of sleepers, the list of waiting parents and the
    pool, or it is the daemon or outside of all lists (the running thread);
    the flags of a thread say the same. *)

From Stdlib Require Import Sorting.Sorted.
From S2P Require Import Prelude Heap HeapProofs Sched.
Import Heap Sched.

(** ** The invariant *)

Definition places (f : MtFrame) (es x : list Z) : list Z :=
  _runlist f ++ es ++ _pend_list f ++ _freelist f ++ _daemon f :: x.

(** The flags of a thread and the lists they stand for. *)
Definition flags_at (f : MtFrame) (es : list Z) (t : Z) (th : MicroThread) : Prop :=
  has_flag RUN_LIST th = bool_decide (t ∈ _runlist f) /\
  has_flag SLEEP_LIST th = bool_decide (t ∈ es) /\
  has_flag IO_LIST th = bool_decide (t ∈ _iolist f) /\
  has_flag PEND_LIST th = bool_decide (t ∈ _pend_list f) /\
  has_flag FREE_LIST th = bool_decide (t ∈ _freelist f) /\
  has_flag SUB_LIST th = bool_decide (is_Some (_parent th)).

(** A thread with a parent is one of its sub threads, and a thread that has sub
    threads waits for them or, in [w], is about to. *)
Definition subs_at (w : list Z) (f : MtFrame) (t : Z) (th : MicroThread) : Prop :=
  NoDup (_sub_list th) /\
  (_sub_list th <> [] -> t ∈ _pend_list f \/ t ∈ w) /\
  (forall c, c ∈ _sub_list th -> exists thc, threads f !! c = Some thc /\ _parent thc = Some t) /\
  (forall p, _parent th = Some p -> _type th = SUB_THREAD /\
     exists thp, threads f !! p = Some thp /\ t ∈ _sub_list thp) /\
  (t ∈ _freelist f -> _parent th = None).

Record core (primo : Z) (w : list Z) (f : MtFrame) (es x : list Z) : Prop := mkCore {
  c_wf : wf (_sleeplist f) es;
  c_nodup : NoDup (places f es x);
  c_dom : forall t, is_Some (threads f !! t) <-> t ∈ places f es x;
  c_io : NoDup (_iolist f) /\ forall t, t ∈ _iolist f -> t ∈ es;
  c_wait : _waitnum f = Z.of_nat (length (_runlist f));
  c_flags : forall t th, threads f !! t = Some th -> flags_at f es t th;
  c_subs : forall t th, threads f !! t = Some th -> subs_at w f t th;
  c_total : Z.of_nat (size (threads f)) = _total_num f + 1;
  c_max : _total_num f <= _max_num f < _max (_sleeplist f);
  c_use : _use_num f = _total_num f - Z.of_nat (length (_freelist f));
  c_primo : is_Some (threads f !! primo) /\ primo ∉ _freelist f
}.

(** The running thread, unless it is the daemon, is in no list. *)
Definition running (f : MtFrame) : list Z :=
  if decide (_curr_thread f = _daemon f) then [] else [_curr_thread f].

Definition frame_ok (primo : Z) (f : MtFrame) : Prop :=
  exists es, core primo [] f es (running f).

Lemma core_perm primo w f es x x' : x ≡ₚ x' -> core primo w f es x -> core primo w f es x'.
Proof.
  intros Hp [? Hnd Hdom ? ? ? ? ? ? ? ?].
  assert (places f es x ≡ₚ places f es x') as Hpl by (unfold places; by rewrite Hp).
  split; try done; [by rewrite <- Hpl|]. intros t. by rewrite Hdom, Hpl.
Qed.

Lemma core_size primo w f es x : core primo w f es x -> size (threads f) = length (places f es x).
Proof.
  intros Hc. rewrite <- (size_dom (D := gset Z)), <- (size_list_to_set (C := gset Z)) by apply Hc.
  f_equal. apply set_eq. intros t. by rewrite elem_of_dom, elem_of_list_to_set, (c_dom _ _ _ _ _ Hc).
Qed.

Lemma core_lookup primo w f es x t :
  core primo w f es x -> t ∈ places f es x -> exists th, threads f !! t = Some th /\ get_thread f t = Ok th.
Proof.
  intros Hc Ht. apply (c_dom _ _ _ _ _ Hc) in Ht as [th Hth]. exists th. split; [done|].
  unfold get_thread. by rewrite Hth.
Qed.

Lemma upd_thread_eq f t g th :
  threads f !! t = Some th -> upd_thread f t g = Ok (with_threads f (<[t := g th]> (threads f))).
Proof. intros Ht. unfold upd_thread, get_thread. by rewrite Ht. Qed.

Lemma tailq_remove_spec t l :
  t ∈ l -> exists l', tailq_remove t l = Ok l' /\ t :: l' ≡ₚ l.
Proof.
  induction l as [|x l IH]; intros Hin; [by apply not_elem_of_nil in Hin|]. cbn [tailq_remove].
  destruct (Z.eqb_spec x t) as [->|Hne]; [by exists l|].
  destruct IH as (l' & -> & Hp); [set_solver|]. exists (x :: l'). split; [done|].
  rewrite <- Hp. apply Permutation_swap.
Qed.

(** One thread [t] changes its place: the other threads see the same lists. *)
Record moved (f f' : MtFrame) (es es' : list Z) (t : Z) (th th' : MicroThread) : Prop := {
  m_threads : threads f' = <[t := th']> (threads f);
  m_at : flags_at f' es' t th';
  m_run u : u <> t -> u ∈ _runlist f' <-> u ∈ _runlist f;
  m_sleep u : u <> t -> u ∈ es' <-> u ∈ es;
  m_io u : u <> t -> u ∈ _iolist f' <-> u ∈ _iolist f;
  m_pend u : u <> t -> u ∈ _pend_list f' <-> u ∈ _pend_list f;
  m_free u : u <> t -> u ∈ _freelist f' <-> u ∈ _freelist f
}.

Lemma moved_flags f f' es es' t th th' u thu :
  moved f f' es es' t th th' -> u <> t -> flags_at f es u thu -> flags_at f' es' u thu.
Proof.
  intros [_ _ Hr Hs Hi Hp Hf] Hu (F1 & F2 & F3 & F4 & F5 & F6).
  unfold flags_at. rewrite F1, F2, F3, F4, F5, F6.
  split_and!; try done; apply bool_decide_ext; symmetry; auto.
Qed.

Lemma core_move_gen primo w f f' es es' x x' t th th' :
  core primo w f es x -> threads f !! t = Some th -> moved f f' es es' t th th' ->
  _parent th' = _parent th -> _sub_list th' = _sub_list th ->
  (_parent th <> None -> _type th' = _type th /\ t ∉ _freelist f') ->
  (_sub_list th <> [] -> t ∈ _pend_list f' \/ t ∈ w) ->
  wf (_sleeplist f') es' -> _max (_sleeplist f') = _max (_sleeplist f) ->
  (places f' es' x' ≡ₚ places f es x) ->
  (NoDup (_iolist f') /\ forall u, u ∈ _iolist f' -> u ∈ es') ->
  _waitnum f' = Z.of_nat (length (_runlist f')) ->
  _total_num f' = _total_num f -> _max_num f' = _max_num f ->
  _use_num f' = _total_num f' - Z.of_nat (length (_freelist f')) -> (t = primo -> t ∉ _freelist f') ->
  core primo w f' es' x'.
Proof.
  intros Hc Ht Hm Hpar Hsub Hty Hpend Hwf Hmax Hpl Hio Hw Htot Hmn Huse Hprimo.
  pose proof (m_threads _ _ _ _ _ _ _ Hm) as Hth.
  assert (forall u, is_Some (threads f' !! u) <-> is_Some (threads f !! u)) as Hsome.
  { intros u. rewrite Hth, lookup_insert_is_Some'. split; [|by right]. intros [<-|]; [by rewrite Ht|done]. }
  split; try done.
  - rewrite Hpl. apply Hc.
  - intros u. rewrite Hsome, Hpl. apply Hc.
  - intros u thu Hu. rewrite Hth, lookup_insert in Hu. case_decide; simplify_eq; [apply Hm|].
    eapply moved_flags; [exact Hm|done|]. by apply (c_flags _ _ _ _ _ Hc).
  - assert (forall u thu, threads f' !! u = Some thu -> exists thu0, threads f !! u = Some thu0 /\
      _parent thu = _parent thu0 /\ _sub_list thu = _sub_list thu0 /\
      (_parent thu0 <> None -> _type thu = _type thu0)) as Hback.
    { intros u thu. rewrite Hth, lookup_insert. case_decide; [intros [= <-]; subst; naive_solver|eauto]. }
    assert (forall u thu, threads f !! u = Some thu -> exists thu1, threads f' !! u = Some thu1 /\
      _parent thu1 = _parent thu /\ _sub_list thu1 = _sub_list thu) as Hfwd.
    { intros u thu. rewrite Hth, lookup_insert. case_decide; [subst; rewrite Ht; intros [= <-]; eauto|eauto]. }
    intros u thu Hu. destruct (Hback u thu Hu) as (thu0 & Hu0 & E1 & E2 & E3).
    destruct (c_subs _ _ _ _ _ Hc u thu0 Hu0) as (S1 & S2 & S3 & S4 & S5).
    unfold subs_at. rewrite E1, E2. split_and!; [done| | | |].
    + intros Hne. destruct (decide (u = t)) as [->|Hut]; [simplify_eq; auto|].
      rewrite (m_pend _ _ _ _ _ _ _ Hm u Hut). auto.
    + intros c Hcin. destruct (S3 c Hcin) as (thc & Hcl & Hcp).
      destruct (Hfwd c thc Hcl) as (thc1 & ? & ? & _). exists thc1. split; congruence.
    + intros p Hp. destruct (S4 p Hp) as (? & thp & Hpl' & Hin).
      split; [by rewrite E3 by congruence|].
      destruct (Hfwd p thp Hpl') as (thp1 & ? & _ & E). exists thp1. by rewrite E.
    + intros Hin. destruct (decide (u = t)) as [->|Hut].
      * rewrite Ht in Hu0. injection Hu0 as <-. destruct (_parent th) eqn:Ep; [|done].
        by destruct Hty as [_ Hno].
      * apply S5. by apply (m_free _ _ _ _ _ _ _ Hm u Hut).
  - rewrite Hth, map_size_insert_Some by eauto. rewrite Htot. apply Hc.
  - rewrite Htot, Hmn, Hmax. apply Hc.
  - destruct (c_primo _ _ _ _ _ Hc) as [Hp1 Hp2]. rewrite Hsome. split; [done|].
    destruct (decide (primo = t)) as [->|Hne]; [auto|]. by rewrite (m_free _ _ _ _ _ _ _ Hm).
Qed.

(** A move that leaves the pool alone. *)
Lemma core_move primo w f f' es es' x x' t th th' :
  core primo w f es x -> threads f !! t = Some th -> moved f f' es es' t th th' ->
  _parent th' = _parent th -> _sub_list th' = _sub_list th -> _type th' = _type th ->
  (_sub_list th <> [] -> t ∈ _pend_list f' \/ t ∈ w) ->
  wf (_sleeplist f') es' -> _max (_sleeplist f') = _max (_sleeplist f) ->
  (places f' es' x' ≡ₚ places f es x) ->
  (NoDup (_iolist f') /\ forall u, u ∈ _iolist f' -> u ∈ es') ->
  _waitnum f' = Z.of_nat (length (_runlist f')) ->
  _total_num f' = _total_num f -> _max_num f' = _max_num f -> _use_num f' = _use_num f ->
  _freelist f' = _freelist f ->
  core primo w f' es' x'.
Proof.
  intros Hc Ht Hm Hpar Hsub Hty Hpend Hwf Hmax Hpl Hio Hw Htot Hmn Huse Hfree.
  destruct (c_subs _ _ _ _ _ Hc t th Ht) as (_ & _ & _ & _ & S5).
  apply (core_move_gen primo w f f' es es' x x' t th th'); try done; rewrite ?Hfree.
  - intros Hne. split; [done|]. intros Hin. by rewrite S5 in Hne.
  - rewrite Huse, Htot. apply Hc.
  - intros ->. apply Hc.
Qed.

(** ** The lists *)

Lemma core_out primo w f es x t :
  core primo w f es (t :: x) ->
  (t ∉ _runlist f) /\ (t ∉ es) /\ (t ∉ _pend_list f) /\ (t ∉ _freelist f) /\ t <> _daemon f /\
  (t ∉ x) /\ (t ∉ _iolist f) /\ exists th, threads f !! t = Some th /\ get_thread f t = Ok th /\ (_sub_list th <> [] -> t ∈ w).
Proof.
  intros Hc. destruct (core_lookup _ _ _ _ _ t Hc) as (th & Ht & Hg).
  { unfold places. set_solver. }
  pose proof (c_nodup _ _ _ _ _ Hc) as Hnd. unfold places in Hnd.
  assert (t ∉ _runlist f ++ es ++ _pend_list f ++ _freelist f ++ [_daemon f] ++ x) as Hout.
  { assert (_runlist f ++ es ++ _pend_list f ++ _freelist f ++ _daemon f :: t :: x ≡ₚ
      t :: (_runlist f ++ es ++ _pend_list f ++ _freelist f ++ [_daemon f] ++ x)) as Hp by (simpl; solve_Permutation).
    rewrite Hp in Hnd. by apply NoDup_cons in Hnd as [? _]. }
  destruct (c_io _ _ _ _ _ Hc) as [_ Hio]. destruct (c_subs _ _ _ _ _ Hc t th Ht) as (_ & Hs & _).
  split_and!; try set_solver.
Qed.

(** [flags_solve] compares the flags of a thread after an operation with the
    lists. *)
Ltac flags_solve :=
  unfold flags_at, has_flag in *; cbn [_flag _parent set_flag unset_flag set_state set_wakeup set_type set_parent set_subs];
  cbn [_runlist _iolist _pend_list _freelist with_run with_io with_pend with_sleep with_curr with_threads with_pool];
  destruct_and?; split_and!; simpl_flags;
  first [ done | assumption
        | symmetry; apply bool_decide_eq_true_2; set_solver
        | symmetry; apply bool_decide_eq_false_2; set_solver
        | etransitivity; [eassumption|]; apply bool_decide_ext; set_solver
        | idtac ].

(** [sched_run Ht] evaluates the changes of the thread looked up by [Ht]. *)
Ltac sched_cbn :=
  cbn [res_bind threads _runlist _iolist _pend_list _sleeplist _daemon _curr_thread _waitnum
       _freelist _total_num _use_num _max_num default_thread_num
       with_threads with_run with_io with_pend with_sleep with_curr with_pool].
Ltac sched_run Ht :=
  repeat (progress (unfold upd_thread, get_thread; sched_cbn;
                    rewrite ?Ht, ?lookup_insert_eq, ?insert_insert_eq)); sched_cbn.

Definition ins_run (f : MtFrame) (t : Z) (th : MicroThread) : MtFrame :=
  with_run (with_threads f (<[t := set_state RUNABLE (set_flag RUN_LIST th)]> (threads f)))
    (_runlist f ++ [t]) (_waitnum f + 1).

Lemma runlist_bound primo w f es x :
  core primo w f es x -> Z.of_nat (length (_runlist f)) < 2 ^ 30 /\ 0 <= _total_num f < 2 ^ 30.
Proof.
  intros Hc. pose proof (core_size _ _ _ _ _ Hc) as Hs. unfold places in Hs. rewrite length_app in Hs.
  rewrite (length_app (_ ++ _)) in Hs || idtac.
  pose proof (c_total _ _ _ _ _ Hc). pose proof (c_max _ _ _ _ _ Hc). pose proof (c_wf _ _ _ _ _ Hc) as (_ & _ & Hm & _).
  rewrite !length_app in Hs. simpl in Hs. lia.
Qed.

Lemma InsertRunable_spec primo w f es x t :
  core primo w f es (t :: x) ->
  exists th, threads f !! t = Some th /\ InsertRunable f t = Ok (ins_run f t th) /\
    core primo w (ins_run f t th) es x.
Proof.
  intros Hc. destruct (core_out _ _ _ _ _ _ Hc) as (H1 & H2 & H3 & H4 & H5 & H6 & H7 & th & Ht & Hg & Hsub).
  exists th. pose proof (runlist_bound _ _ _ _ _ Hc) as [Hb _]. pose proof (c_wait _ _ _ _ _ Hc) as Hw.
  split; [done|]. split.
  - unfold InsertRunable. rewrite (upd_thread_eq _ _ _ _ Ht). cbn [res_bind].
    rewrite (upd_thread_eq _ _ _ (set_flag RUN_LIST th)) by apply lookup_insert_eq. cbn [res_bind].
    unfold ins_run. cbn [threads with_threads _runlist _waitnum]. rewrite insert_insert_eq.
    rewrite wraps_small by lia. done.
  - pose proof (c_flags _ _ _ _ _ Hc t th Ht) as Hf.
    apply (core_move primo w f (ins_run f t th) es es (t :: x) x t th
      (set_state RUNABLE (set_flag RUN_LIST th))); cbn; try done.
    + split; cbn; try done; [|set_solver]. flags_solve.
    + auto.
    + apply (c_wf _ _ _ _ _ Hc).
    + unfold places. cbn. solve_Permutation.
    + apply (c_io _ _ _ _ _ Hc).
    + rewrite length_app, Hw. simpl. lia.
Qed.

Definition ins_sleep (io : bool) (f : MtFrame) (t : Z) (th : MicroThread) (h : heap) : MtFrame :=
  let th' := set_state SLEEPING (set_flag SLEEP_LIST (if io then set_flag IO_LIST th else th)) in
  with_sleep (with_io (with_threads f (<[t := th']> (threads f)))
    (if io then _iolist f ++ [t] else _iolist f)) h.

Lemma HeapValue_ext ths t th th' u :
  ths !! t = Some th -> _wakeup_time th' = _wakeup_time th ->
  HeapValue (<[t := th']> ths) u = HeapValue ths u.
Proof.
  intros Ht Hw. unfold HeapValue. rewrite lookup_insert. case_decide; [|done].
  subst. by rewrite Ht.
Qed.

Lemma core_room primo w f es t x :
  core primo w f es (t :: x) -> Z.of_nat (length es) < _max (_sleeplist f).
Proof.
  intros Hc. pose proof (core_size _ _ _ _ _ Hc) as Hs. unfold places in Hs.
  rewrite !length_app in Hs. simpl in Hs.
  pose proof (c_total _ _ _ _ _ Hc). pose proof (c_max _ _ _ _ _ Hc). lia.
Qed.

Lemma Insert_spec primo w io f es x t :
  core primo w f es (t :: x) ->
  exists th h' es', threads f !! t = Some th /\
    (if io : bool then InsertIoWait f t else InsertSleep f t) = Ok (ins_sleep io f t th h') /\
    (es' ≡ₚ t :: es) /\ core primo w (ins_sleep io f t th h') es' x /\
    (ordered (HeapValue (threads f)) es -> ordered (HeapValue (threads f)) es').
Proof.
  intros Hc. destruct (core_out _ _ _ _ _ _ Hc) as (H1 & H2 & H3 & H4 & H5 & H6 & H7 & th & Ht & Hg & Hsub).
  exists th. set (th1 := if io then set_flag IO_LIST th else th).
  set (th' := set_state SLEEPING (set_flag SLEEP_LIST th1)).
  pose proof (HeapPush_spec (HeapValue (<[t := th']> (threads f))) (_sleeplist f) es t (c_wf _ _ _ _ _ Hc)) as Hpush.
  rewrite decide_True, decide_False in Hpush by (done || by eapply core_room).
  destruct Hpush as (h' & es' & Hpush & Hwf & Hmax & Hp & Hord).
  assert (forall u, HeapValue (<[t := th']> (threads f)) u = HeapValue (threads f) u) as Hval
    by (intros u; apply (HeapValue_ext _ _ _ _ _ Ht); unfold th', th1; by destruct io).
  exists h', es'. split; [done|]. split; [|split; [done|split]].
  - unfold InsertIoWait, InsertSleep. destruct io; sched_run Ht; unfold th', th1 in Hpush;
      rewrite Hpush; done.
  - pose proof (c_flags _ _ _ _ _ Hc t th Ht) as Hf. destruct (c_io _ _ _ _ _ Hc) as [Hio1 Hio2].
    apply (core_move primo w f (ins_sleep io f t th h') es es' (t :: x) x t th th'); try done.
    + split; try done; [|cbn; intros u Hu; rewrite Hp; set_solver|destruct io; cbn; set_solver].
      unfold th', th1. assert (t ∈ es') by (rewrite Hp; by left). destruct io; flags_solve.
    + unfold th', th1. by destruct io.
    + unfold th', th1. by destruct io.
    + unfold th', th1. by destruct io.
    + auto.
    + unfold places. cbn. rewrite Hp. solve_Permutation.
    + cbn. destruct io; (split; [|intros u Hu; rewrite Hp; set_solver]); [|done].
      apply NoDup_app. split_and!; [done|set_solver|apply NoDup_singleton].
    + apply Hc.
  - intros Ho. apply (ordered_ext (HeapValue (<[t := th']> (threads f)))); [auto|].
    apply Hord, (ordered_ext (HeapValue (threads f))); [|done]. intros; symmetry; apply Hval.
Qed.

Lemma delete_safe_ext (g g' : Z -> Z) es k :
  (forall u, g u = g' u) -> delete_safe g es k <-> delete_safe g' es k.
Proof. intros Hg. unfold delete_safe. split; intros H a b; [rewrite <- !Hg|rewrite !Hg]; apply H. Qed.

(** A sleeping thread is in no other list. *)
Lemma core_sleeping primo w f es x t :
  core primo w f es x -> t ∈ es ->
  (t ∉ _runlist f) /\ (t ∉ _pend_list f) /\ (t ∉ _freelist f) /\ t <> _daemon f /\
  exists th, threads f !! t = Some th /\ (_sub_list th <> [] -> t ∈ w).
Proof.
  intros Hc Hin. destruct (core_lookup _ _ _ _ _ t Hc) as (th & Ht & _); [unfold places; set_solver|].
  pose proof (c_nodup _ _ _ _ _ Hc) as Hnd. unfold places in Hnd.
  apply NoDup_app in Hnd as (_ & Hr & Hnd). apply NoDup_app in Hnd as (_ & He & _).
  specialize (He t Hin). destruct (c_subs _ _ _ _ _ Hc t th Ht) as (_ & Hs & _).
  split_and!; [intros Hx; apply (Hr t Hx); set_solver|set_solver..|].
  exists th. split; [done|]. intros Hne. destruct (Hs Hne); [|done]. exfalso. set_solver.
Qed.

Definition rem_sleep (io : bool) (f : MtFrame) (t : Z) (th : MicroThread) (l : list Z) (h : heap) : MtFrame :=
  let th' := unset_flag SLEEP_LIST (if io then unset_flag IO_LIST th else th) in
  with_sleep (with_io (with_threads f (<[t := th']> (threads f))) l) h.

Lemma Remove_spec primo w f es x k t :
  core primo w f es x -> es !! k = Some t ->
  exists th io l h' es', threads f !! t = Some th /\ io = bool_decide (t ∈ _iolist f) /\
    io = has_flag IO_LIST th /\
    (if io then RemoveIoWait f t else RemoveSleep f t) = Ok (rem_sleep io f t th l h') /\
    (t :: es' ≡ₚ es) /\ core primo w (rem_sleep io f t th l h') es' (t :: x) /\
    (ordered (HeapValue (threads f)) es ->
       ordered (HeapValue (threads f)) es' <-> delete_safe (HeapValue (threads f)) es k).
Proof.
  intros Hc Hk. assert (t ∈ es) as Hin by (by eapply list_elem_of_lookup_2).
  destruct (core_lookup _ _ _ _ _ t Hc) as (th & Ht & Hg); [unfold places; set_solver|].
  pose proof (c_flags _ _ _ _ _ Hc t th Ht) as Hf. pose proof (c_nodup _ _ _ _ _ Hc) as Hnd.
  destruct (c_io _ _ _ _ _ Hc) as [Hio1 Hio2].
  set (io := bool_decide (t ∈ _iolist f)).
  assert (exists l, (if io then tailq_remove t (_iolist f) else Ok (_iolist f)) = Ok l /\ NoDup l /\
    forall u, u ∈ l <-> u <> t /\ u ∈ _iolist f) as (l & Hl & Hlnd & Hlin).
  { unfold io. case_bool_decide as E.
    - destruct (tailq_remove_spec t (_iolist f) E) as (l & -> & Hp). exists l. split; [done|].
      rewrite <- Hp in Hio1. apply NoDup_cons in Hio1 as [? ?]. split; [done|].
      intros u. rewrite <- Hp. set_solver.
    - exists (_iolist f). split; [done|]. split; [done|]. set_solver. }
  set (th' := unset_flag SLEEP_LIST (if io then unset_flag IO_LIST th else th)).
  assert (forall u, HeapValue (<[t := th']> (threads f)) u = HeapValue (threads f) u) as Hval
    by (intros u; apply (HeapValue_ext _ _ _ _ _ Ht); unfold th'; by destruct io).
  destruct (HeapDelete_spec (HeapValue (<[t := th']> (threads f))) (_sleeplist f) es k t (c_wf _ _ _ _ _ Hc) Hk)
    as (h' & es' & Hd & Hwf & Hmax & Hp & Hord).
  exists th, io, l, h', es'. split_and!; try done.
  - unfold flags_at in Hf. symmetry. apply Hf.
  - unfold RemoveIoWait, RemoveSleep. revert Hl Hd. unfold th'. destruct io; intros Hl Hd; sched_run Ht.
    + rewrite Hl. sched_run Ht. rewrite Hd. done.
    + injection Hl as <-. rewrite Hd. done.
  - destruct (core_sleeping _ _ _ _ _ _ Hc Hin) as (H1 & H3 & H4 & H5 & th0 & Ht0 & Hsub).
    rewrite Ht in Ht0. injection Ht0 as <-.
    pose proof (rep_NoDup _ _ _ (c_wf _ _ _ _ _ Hc)) as Hes. rewrite <- Hp in Hes.
    apply NoDup_cons in Hes as [Htes _].
    apply (core_move primo w f (rem_sleep io f t th l h') es es' x (t :: x) t th th'); try done.
    + split; try done; [|cbn; intros u Hu; rewrite <- Hp; set_solver|cbn; intros u Hu; rewrite Hlin; tauto].
      assert (t ∉ l) by (rewrite Hlin; tauto).
      unfold th', io. case_bool_decide; flags_solve.
    + unfold th'. by destruct io.
    + unfold th'. by destruct io.
    + unfold th'. by destruct io.
    + auto.
    + unfold places. cbn. rewrite <- Hp. solve_Permutation.
    + cbn. split; [done|]. intros u [Hu Hu2]%Hlin. apply Hio2 in Hu2. rewrite <- Hp in Hu2. set_solver.
    + apply Hc.
  - intros Ho. rewrite <- (delete_safe_ext _ _ _ _ Hval), <- Hord.
    + split; apply ordered_ext; auto.
    + revert Ho. apply ordered_ext. auto.
Qed.

(** ** Switching *)

Lemma core_curr primo w f es x c : core primo w f es x -> core primo w (with_curr f c) es x.
Proof. by intros []. Qed.

(** A change of state or wake-up time moves no thread. *)
Lemma core_touch primo w f es x t th th' :
  core primo w f es x -> threads f !! t = Some th ->
  _flag th' = _flag th -> _parent th' = _parent th -> _sub_list th' = _sub_list th ->
  (_parent th <> None -> _type th' = _type th) ->
  core primo w (with_threads f (<[t := th']> (threads f))) es x.
Proof.
  intros Hc Ht Hfl Hpar Hsub Hty. pose proof (c_flags _ _ _ _ _ Hc t th Ht) as Hf.
  destruct (c_subs _ _ _ _ _ Hc t th Ht) as (_ & S2 & _ & _ & S5).
  apply (core_move_gen primo w f _ es es x x t th th'); try done; try apply Hc.
  - split; try done. unfold flags_at, has_flag in *. by rewrite Hfl, Hpar.
  - intros Hne. split; [auto|]. cbn. intros Hin. by rewrite S5 in Hne.
  - intros ->. apply Hc.
Qed.

Definition run_to (f : MtFrame) (t : Z) (th : MicroThread) : MtFrame :=
  with_threads (with_curr f t) (<[t := set_state RUNNING th]> (threads f)).

Lemma run_thread_spec primo w f es x t th :
  core primo w f es x -> threads f !! t = Some th ->
  run_thread f t = Ok (run_to f t th) /\ core primo w (run_to f t th) es x.
Proof.
  intros Hc Ht. split.
  - unfold run_thread. by sched_run Ht.
  - unfold run_to. by eapply (core_touch primo w (with_curr f t)); [apply core_curr| |..].
Qed.

Lemma RemoveRunable_spec primo w f es x t l :
  core primo w f es x -> _runlist f = t :: l ->
  exists th f', threads f !! t = Some th /\ RemoveRunable f t = Ok f' /\
    f' = with_run (with_threads f (<[t := unset_flag RUN_LIST th]> (threads f))) l (_waitnum f - 1) /\
    core primo w f' es (t :: x).
Proof.
  intros Hc Hl. destruct (core_lookup _ _ _ _ _ t Hc) as (th & Ht & Hg); [unfold places; rewrite Hl; set_solver|].
  pose proof (runlist_bound _ _ _ _ _ Hc) as [Hb _]. pose proof (c_wait _ _ _ _ _ Hc) as Hw.
  rewrite Hl in Hb, Hw. simpl in Hb, Hw.
  eexists th, _. split; [done|]. split; [|split; [reflexivity|]].
  - unfold RemoveRunable. sched_run Ht. rewrite Hl. by rewrite wraps_small by lia.
  - pose proof (c_nodup _ _ _ _ _ Hc) as Hnd. unfold places in Hnd. rewrite Hl in Hnd.
    simpl in Hnd. apply NoDup_cons in Hnd as [Hout _].
    pose proof (c_flags _ _ _ _ _ Hc t th Ht) as Hf. destruct (c_subs _ _ _ _ _ Hc t th Ht) as (_ & Hs & _).
    apply (core_move primo w f _ es es x (t :: x) t th (unset_flag RUN_LIST th)); try done; try apply Hc.
    + split; try done; [|cbn; intros u Hu; rewrite Hl; set_solver].
      unfold flags_at in Hf. rewrite Hl in Hf. flags_solve.
    + unfold places. cbn. rewrite Hl. simpl. solve_Permutation.
    + cbn. lia.
Qed.

(** The next thread: the first of the run list, or the daemon. *)
Lemma ThreadSchdule_spec primo w f es :
  core primo w f es [] ->
  exists f', ThreadSchdule f = Ok f' /\ core primo w f' es (running f') /\
    _curr_thread f' = default (_daemon f) (head (_runlist f)) /\ _daemon f' = _daemon f /\
    _runlist f' = tail (_runlist f) /\ _sleeplist f' = _sleeplist f /\ _pend_list f' = _pend_list f /\
    (forall u, HeapValue (threads f') u = HeapValue (threads f) u).
Proof.
  intros Hc. unfold ThreadSchdule, running. destruct (_runlist f) as [|t l] eqn:Hl.
  - destruct (core_lookup _ _ _ _ _ (_daemon f) Hc) as (th & Ht & _); [unfold places; set_solver|].
    destruct (run_thread_spec _ _ _ _ _ _ _ Hc Ht) as [-> Hc'].
    eexists. split; [done|]. cbn. rewrite decide_True by done.
    split_and!; try done. intros u. by apply (HeapValue_ext _ _ _ _ _ Ht).
  - destruct (RemoveRunable_spec _ _ _ _ _ _ _ Hc Hl) as (th & f1 & Ht & -> & -> & Hc1). cbn [res_bind].
    destruct (core_out _ _ _ _ _ _ Hc1) as (_ & _ & _ & _ & Hd & _).
    destruct (run_thread_spec _ _ _ _ _ t (unset_flag RUN_LIST th) Hc1 ltac:(apply lookup_insert_eq)) as [-> Hc2].
    eexists. split; [done|]. cbn in *. rewrite decide_False by done.
    split_and!; try done. intros u. rewrite insert_insert_eq. by apply (HeapValue_ext _ _ _ _ _ Ht).
Qed.

Lemma core_waits primo w w' f es x :
  (forall u, u ∈ w -> u ∈ w' \/ u ∈ _pend_list f) -> core primo w f es x -> core primo w' f es x.
Proof.
  intros Hw []. split; try done. intros t th Ht.
  destruct (c_subs0 t th Ht) as (S1 & S2 & S3 & S4 & S5). split_and!; try done. naive_solver.
Qed.

Definition ins_pend (f : MtFrame) (t : Z) (th : MicroThread) : MtFrame :=
  with_threads (with_pend f (_pend_list f ++ [t]))
    (<[t := set_state PENDING (set_flag PEND_LIST th)]> (threads f)).

Lemma InsertPend_spec primo w f es x t :
  core primo (t :: w) f es (t :: x) ->
  exists th, threads f !! t = Some th /\ InsertPend f t = Ok (ins_pend f t th) /\
    core primo w (ins_pend f t th) es x.
Proof.
  intros Hc. destruct (core_out _ _ _ _ _ _ Hc) as (H1 & H2 & H3 & H4 & H5 & H6 & H7 & th & Ht & Hg & Hsub).
  exists th. split; [done|]. split.
  - unfold InsertPend. by sched_run Ht.
  - apply (core_waits primo (t :: w)); [cbn; set_solver|].
    pose proof (c_flags _ _ _ _ _ Hc t th Ht) as Hf.
    apply (core_move primo (t :: w) f _ es es (t :: x) x t th (set_state PENDING (set_flag PEND_LIST th)));
      try done; try apply Hc.
    + split; try done; [|cbn; set_solver]. flags_solve.
    + intros _. right. by left.
    + unfold places. cbn. solve_Permutation.
Qed.

Lemma RemovePend_spec primo w f es x t th :
  core primo w f es x -> t ∈ _pend_list f -> threads f !! t = Some th -> _sub_list th = [] ->
  exists l, RemovePend f t = Ok (with_pend (with_threads f (<[t := unset_flag PEND_LIST th]> (threads f))) l) /\
    core primo w (with_pend (with_threads f (<[t := unset_flag PEND_LIST th]> (threads f))) l) es (t :: x).
Proof.
  intros Hc Hin Ht Hsub. destruct (tailq_remove_spec t _ Hin) as (l & Hl & Hp). exists l. split.
  - unfold RemovePend. sched_run Ht. by rewrite Hl.
  - pose proof (c_flags _ _ _ _ _ Hc t th Ht) as Hf.
    pose proof (c_nodup _ _ _ _ _ Hc) as Hnd. unfold places in Hnd. rewrite <- Hp in Hnd.
    assert (t ∉ _runlist f ++ es ++ l ++ _freelist f ++ [_daemon f] ++ x) as Hout.
    { assert (_runlist f ++ es ++ (t :: l) ++ _freelist f ++ _daemon f :: x ≡ₚ
        t :: (_runlist f ++ es ++ l ++ _freelist f ++ [_daemon f] ++ x)) as Hp' by (simpl; solve_Permutation).
      rewrite Hp' in Hnd. by apply NoDup_cons in Hnd as [? _]. }
    apply (core_move primo w f _ es es x (t :: x) t th (unset_flag PEND_LIST th)); try done; try apply Hc.
    + split; try done; [|cbn; intros u Hu; rewrite <- Hp; set_solver].
      destruct (c_io _ _ _ _ _ Hc) as [_ Hio]. flags_solve.
    + unfold places. cbn. rewrite <- Hp. simpl. solve_Permutation.
Qed.

(** ** The operations of the running thread *)

Lemma running_cons f : _curr_thread f <> _daemon f -> running f = [_curr_thread f].
Proof. intros. unfold running. by rewrite decide_False. Qed.

Lemma sleep_spec primo f now ms :
  frame_ok primo f -> _curr_thread f <> _daemon f ->
  exists f', sleep f now ms = Ok f' /\ frame_ok primo f'.
Proof.
  intros [es Hc] Hcur. rewrite running_cons in Hc by done. unfold sleep.
  destruct (core_out _ _ _ _ _ _ Hc) as (_ & _ & _ & _ & _ & _ & _ & th & Ht & _).
  rewrite (upd_thread_eq _ _ _ _ Ht). cbn [res_bind].
  pose proof (core_touch primo [] f es _ _ th (set_wakeup (u64 (now + ms)) th) Hc Ht eq_refl eq_refl eq_refl (fun _ => eq_refl)) as Hc1.
  destruct (Insert_spec primo [] false _ _ _ _ Hc1) as (th1 & h & es' & Ht1 & E & Hp & Hc2 & _).
  rewrite E. cbn [res_bind].
  destruct (ThreadSchdule_spec _ _ _ _ Hc2) as (f' & -> & Hc' & _). exists f'. split; [done|]. by exists es'.
Qed.

Lemma WaitNotify_spec primo f now timeout :
  frame_ok primo f -> _curr_thread f <> _daemon f ->
  exists f', WaitNotify f now timeout = Ok f' /\ frame_ok primo f'.
Proof.
  intros [es Hc] Hcur. rewrite running_cons in Hc by done. unfold WaitNotify.
  destruct (core_out _ _ _ _ _ _ Hc) as (_ & _ & _ & _ & _ & _ & _ & th & Ht & _).
  rewrite (upd_thread_eq _ _ _ _ Ht). cbn [res_bind].
  pose proof (core_touch primo [] f es _ _ th (set_wakeup (u64 (timeout + now)) th) Hc Ht eq_refl eq_refl eq_refl (fun _ => eq_refl)) as Hc1.
  destruct (Insert_spec primo [] true _ _ _ _ Hc1) as (th1 & h & es' & Ht1 & E & Hp & Hc2 & _).
  rewrite E. cbn [res_bind].
  destruct (ThreadSchdule_spec _ _ _ _ Hc2) as (f' & -> & Hc' & _). exists f'. split; [done|]. by exists es'.
Qed.

Lemma running_same f f' :
  _curr_thread f' = _curr_thread f -> _daemon f' = _daemon f -> running f' = running f.
Proof. intros E1 E2. unfold running. by rewrite E1, E2. Qed.

(** A sleeping thread is made runnable, whether it waits for I/O or not. *)
Lemma wake_one primo w f es x k t :
  core primo w f es x -> es !! k = Some t ->
  exists th f1 f' es', threads f !! t = Some th /\
    has_flag IO_LIST th = bool_decide (t ∈ _iolist f) /\
    (if has_flag IO_LIST th then RemoveIoWait f t else RemoveSleep f t) = Ok f1 /\
    InsertRunable f1 t = Ok f' /\ core primo w f' es' x /\ (t :: es' ≡ₚ es) /\
    _runlist f' = _runlist f ++ [t] /\ _curr_thread f' = _curr_thread f /\ _daemon f' = _daemon f /\
    (forall u, HeapValue (threads f') u = HeapValue (threads f) u) /\
    (ordered (HeapValue (threads f)) es -> delete_safe (HeapValue (threads f)) es k ->
     ordered (HeapValue (threads f)) es').
Proof.
  intros Hc Hk. destruct (Remove_spec _ _ _ _ _ _ _ Hc Hk) as (th & io & l & h & es' & Ht & Hio & Hfl & E & Hp & Hc1 & Ho).
  destruct (InsertRunable_spec _ _ _ _ _ _ Hc1) as (th1 & Ht1 & E1 & Hc2).
  exists th. rewrite <- Hfl. eexists _, _, es'. split_and!; try done.
  - intros u. cbn in *. rewrite lookup_insert_eq in Ht1. injection Ht1 as <-.
    rewrite insert_insert_eq. apply (HeapValue_ext _ _ _ _ _ Ht). by destruct io.
  - intros H1 H2. by apply (Ho H1).
Qed.

Lemma core_io primo w f es x t :
  core primo w f es x -> t ∈ _iolist f -> exists k, es !! k = Some t.
Proof. intros Hc Hin. by apply list_elem_of_lookup, (c_io _ _ _ _ _ Hc). Qed.

Lemma IoNotify_spec primo w f es x t :
  core primo w f es x -> is_Some (threads f !! t) ->
  exists f' es', IoNotify f t = Ok f' /\ core primo w f' es' x /\
    _curr_thread f' = _curr_thread f /\ _daemon f' = _daemon f /\
    if decide (t ∈ _iolist f) then (t :: es' ≡ₚ es) /\ _runlist f' = _runlist f ++ [t] else f' = f.
Proof.
  intros Hc [th Ht]. unfold IoNotify, HasFlag, get_thread. rewrite Ht. cbn [res_bind].
  destruct (c_flags _ _ _ _ _ Hc t th Ht) as (_ & _ & Hfl & _).
  case_decide as Hin.
  - destruct (core_io _ _ _ _ _ _ Hc Hin) as [k Hk].
    destruct (wake_one _ _ _ _ _ _ _ Hc Hk) as (th0 & f1 & f' & es' & Ht0 & Hfl0 & E1 & E2 & Hc' & Hp & Hrun & Hcur & Hd & _).
    rewrite Ht in Ht0. injection Ht0 as <-. rewrite bool_decide_eq_true_2 in Hfl by done. rewrite Hfl in E1 |- *.
    rewrite E1. cbn [res_bind]. rewrite E2. exists f', es'. by split_and!.
  - rewrite Hfl, bool_decide_eq_false_2 by done. exists f, es. by split_and!.
Qed.

Lemma NotifyThread_spec primo f t :
  frame_ok primo f -> is_Some (threads f !! t) ->
  exists f', NotifyThread f t = Ok f' /\ frame_ok primo f'.
Proof.
  intros [es Hc] [th Ht]. unfold NotifyThread, HasFlag, get_thread. rewrite Ht. cbn [res_bind].
  destruct (c_flags _ _ _ _ _ Hc t th Ht) as (_ & _ & Hfl & _).
  rewrite Hfl. case_bool_decide as Hin; [|exists f; split; [done|by exists es]].
  destruct (core_io _ _ _ _ _ _ Hc Hin) as [k Hk].
  destruct (Remove_spec _ _ _ _ _ _ _ Hc Hk) as (th1 & io & l & h & es' & Ht1 & Hio & Hfl1 & E & Hp & Hc1 & _).
  rewrite Ht in Ht1. injection Ht1 as <-. rewrite bool_decide_eq_true_2 in Hio by done. rewrite Hio in E, Hc1.
  rewrite E. cbn [res_bind]. cbn [rem_sleep _curr_thread _daemon with_sleep with_io with_threads].
  destruct (core_out _ _ _ _ _ _ Hc1) as (_ & _ & _ & _ & Hd & _ & _ & th2 & Ht2 & _).
  destruct (Z.eqb_spec (_curr_thread f) (_daemon f)) as [Ec|Ec].
  - destruct (run_thread_spec _ _ _ _ _ _ _ Hc1 Ht2) as [-> Hc2]. eexists. split; [done|]. exists es'.
    assert (running f = []) as Er by (unfold running; by rewrite decide_True).
    rewrite Er in Hc2. by rewrite running_cons.
  - destruct (InsertRunable_spec _ _ _ _ _ _ Hc1) as (th3 & Ht3 & -> & Hc2). eexists. split; [done|].
    by exists es'.
Qed.

Lemma SwapDaemonThread_spec primo f :
  frame_ok primo f -> exists f', SwapDaemonThread f = Ok f' /\ frame_ok primo f'.
Proof.
  intros [es Hc]. unfold SwapDaemonThread.
  destruct (Z.eqb_spec (_curr_thread f) (_daemon f)) as [E|E]; [exists f; split; [done|by exists es]|].
  rewrite running_cons in Hc by done.
  destruct (InsertRunable_spec _ _ _ _ _ _ Hc) as (th & Ht & -> & Hc1). cbn [res_bind].
  destruct (core_lookup _ _ _ _ _ (_daemon (ins_run f (_curr_thread f) th)) Hc1)
    as (thd & Hd & _); [unfold places; cbn; set_solver|].
  destruct (run_thread_spec _ _ _ _ _ _ _ Hc1 Hd) as [-> Hc2]. eexists. split; [done|]. exists es.
  unfold running. by rewrite decide_True.
Qed.

(** ** Waking up the sleepers *)

Lemma WakeupTimeout_loop_spec primo w now n : forall fuel f es x,
  core primo w f es x -> length es = n -> (n < fuel)%nat ->
  exists f' es' log, WakeupTimeout_loop fuel f now = Ok f' /\ core primo w f' es' x /\
    _curr_thread f' = _curr_thread f /\ _daemon f' = _daemon f /\
    _runlist f' = _runlist f ++ log /\ (log ++ es' ≡ₚ es) /\
    (forall u, HeapValue (threads f') u = HeapValue (threads f) u) /\
    Forall (fun u => HeapValue (threads f) u <= now) log /\
    (forall u, head es' = Some u -> now < HeapValue (threads f) u) /\
    (ordered (HeapValue (threads f)) es ->
       ordered (HeapValue (threads f)) es' /\
       StronglySorted (fun a b => HeapValue (threads f) a <= HeapValue (threads f) b) log).
Proof.
  induction n as [n IH] using lt_wf_ind. intros [|fuel] f es x Hc Hlen Hf; [lia|]. cbn [WakeupTimeout_loop].
  rewrite (HeapTop_spec _ _ (c_wf _ _ _ _ _ Hc)). cbn [res_bind].
  destruct (head es) as [t|] eqn:Ht.
  2: { exists f, es, []. rewrite app_nil_r. split_and!; try done; [by intros u; rewrite Ht|].
       intros Ho. split; [done|constructor]. }
  assert (es !! 0%nat = Some t) as Hk by (by destruct es).
  destruct (wake_one _ _ _ _ _ _ _ Hc Hk) as (th & f1 & f2 & es1 & Hth & Hfl & E1 & E2 & Hc2 & Hp & Hrun & Hcur & Hd & Hv & Ho1).
  unfold get_thread. rewrite Hth. cbn [res_bind].
  assert (HeapValue (threads f) t = _wakeup_time th) as Hwake by (unfold HeapValue; by rewrite Hth).
  destruct (Z.leb_spec (_wakeup_time th) now) as [Hle|Hgt].
  - rewrite E1. cbn [res_bind]. rewrite E2. cbn [res_bind].
    pose proof (Permutation_length Hp) as Hplen. simpl in Hplen.
    destruct (IH (length es1)) with (fuel := fuel) (f := f2) (es := es1) (x := x)
      as (f' & es' & log & -> & Hc' & Hcur' & Hd' & Hrun' & Hp' & Hv' & Hlog & Hhead & Ho'); try done; try lia.
    exists f', es', (t :: log). split_and!; try done; try congruence.
    + by rewrite Hrun', Hrun, <- app_assoc.
    + simpl. by rewrite Hp', Hp.
    + constructor; [lia|]. eapply Forall_impl; [exact Hlog|]. intros u. simpl. by rewrite Hv.
    + intros u Hu. rewrite <- Hv. auto.
    + intros Ho. assert (ordered (HeapValue (threads f)) es1) as Hoes1 by (apply Ho1; [done|intros a b Hb; lia]).
      destruct Ho' as [Ho' Hs']; [revert Hoes1; apply ordered_ext; auto|].
      split; [revert Ho'; apply ordered_ext; auto|]. constructor.
      * revert Hs'. apply StronglySorted_weaken. intros a b _ _. by rewrite !Hv.
      * apply Forall_forall. intros u Hu.
        assert (u ∈ es) as [j Hj]%list_elem_of_lookup by (rewrite <- Hp, <- Hp'; set_solver).
        exact (ordered_min _ es j t u Ho Hk Hj).
  - exists f, es, []. rewrite app_nil_r. split_and!; try done.
    + intros u. rewrite Ht. intros [= <-]. lia.
    + intros Ho. split; [done|constructor].
Qed.

(** ** The pool *)

Lemma core_fresh primo w f es x t dflt :
  core primo w f es x -> threads f !! t = None -> _total_num f < _max_num f ->
  core primo w (with_pool (with_threads f (<[t := new_thread NORMAL]> (threads f))) (_freelist f)
    (_total_num f + 1) (_use_num f + 1) dflt) es (t :: x).
Proof.
  intros Hc Ht Hroom.
  assert (t ∉ places f es x) as Hout by (rewrite <- (c_dom _ _ _ _ _ Hc), Ht; apply is_Some_None).
  assert (places f es (t :: x) ≡ₚ t :: places f es x) as Hp by (unfold places; solve_Permutation).
  assert (forall u thu, threads f !! u = Some thu -> u <> t) as Hne by (intros u thu Hu ->; congruence).
  unfold places in Hout. destruct (c_io _ _ _ _ _ Hc) as [Hio1 Hio2].
  split; cbn; try apply Hc.
  - change (NoDup (places f es (t :: x))). rewrite Hp. apply NoDup_cons. split; [done|apply Hc].
  - intros u. change (is_Some (<[t:=new_thread NORMAL]> (threads f) !! u) <-> u ∈ places f es (t :: x)).
    rewrite Hp, lookup_insert_is_Some', (c_dom _ _ _ _ _ Hc). set_solver.
  - intros u thu Hu. rewrite lookup_insert in Hu. case_decide as E; [|by apply (c_flags _ _ _ _ _ Hc)].
    injection Hu as <-. subst u. unfold flags_at, has_flag. cbn. rewrite !bool_decide_eq_false_2; try done; set_solver.
  - intros u thu Hu. rewrite lookup_insert in Hu. case_decide as E.
    + injection Hu as <-. unfold subs_at. cbn. split_and!; [apply NoDup_nil_2|done|set_solver|done|done].
    + destruct (c_subs _ _ _ _ _ Hc u thu Hu) as (S1 & S2 & S3 & S4 & S5). unfold subs_at. cbn.
      split_and!; try done.
      * intros c Hcin. destruct (S3 c Hcin) as (thc & Hcl & Hcp). exists thc.
        rewrite lookup_insert_ne; [done|]. intros <-. by apply (Hne t thc).
      * intros p Hpar. destruct (S4 p Hpar) as (? & thp & Hpl & Hin). split; [done|]. exists thp.
        rewrite lookup_insert_ne; [done|]. intros <-. by apply (Hne t thp).
  - rewrite map_size_insert_None by done. pose proof (c_total _ _ _ _ _ Hc). lia.
  - pose proof (c_max _ _ _ _ _ Hc). lia.
  - pose proof (c_use _ _ _ _ _ Hc). lia.
  - destruct (c_primo _ _ _ _ _ Hc) as [Hp1 Hp2]. split; [|done]. rewrite lookup_insert_is_Some'. by right.
Qed.

Lemma core_trim primo w f es x d l dflt :
  core primo w f es x -> _freelist f = d :: l -> d ∉ w ->
  core primo w (with_pool (with_threads f (delete d (threads f))) l
    (_total_num f - 1) (_use_num f) dflt) es x.
Proof.
  intros Hc Hl Hw. destruct (c_io _ _ _ _ _ Hc) as [Hio1 Hio2]. destruct (c_primo _ _ _ _ _ Hc) as [Hp1 Hp2].
  pose proof (c_nodup _ _ _ _ _ Hc) as Hnd.
  assert (places f es x ≡ₚ d :: (_runlist f ++ es ++ _pend_list f ++ l ++ _daemon f :: x)) as Hp
    by (unfold places; rewrite Hl; simpl; solve_Permutation).
  rewrite Hp in Hnd. apply NoDup_cons in Hnd as [Hout Hnd].
  assert (exists thd, threads f !! d = Some thd) as [thd Hd].
  { apply (c_dom _ _ _ _ _ Hc). rewrite Hp. by left. }
  destruct (c_subs _ _ _ _ _ Hc d thd Hd) as (_ & D2 & _ & _ & D5).
  assert (_parent thd = None) as Hdp by (apply D5; rewrite Hl; by left).
  assert (_sub_list thd = []) as Hds.
  { destruct (_sub_list thd); [done|]. destruct D2; [done|set_solver|done]. }
  split; cbn; try apply Hc; try done.
  - intros u. rewrite lookup_delete_is_Some, (c_dom _ _ _ _ _ Hc), Hp. unfold places. cbn. set_solver.
  - intros u thu [Hne Hu]%lookup_delete_Some. pose proof (c_flags _ _ _ _ _ Hc u thu Hu) as Hf.
    unfold flags_at in *. rewrite Hl in Hf. cbn. destruct Hf as (?&?&?&?&Hf&?). split_and!; try done.
    rewrite Hf. apply bool_decide_ext. set_solver.
  - intros u thu [Hne Hu]%lookup_delete_Some.
    destruct (c_subs _ _ _ _ _ Hc u thu Hu) as (S1 & S2 & S3 & S4 & S5). unfold subs_at. cbn.
    split_and!; try done.
    + intros c Hcin. destruct (S3 c Hcin) as (thc & Hcl & Hcp). exists thc.
      rewrite lookup_delete_ne; [done|]. intros <-. congruence.
    + intros p Hpar. destruct (S4 p Hpar) as (? & thp & Hpl & Hin). split; [done|]. exists thp.
      rewrite lookup_delete_ne; [done|]. intros <-. simplify_eq. rewrite Hds in Hin. set_solver.
    + intros Hin. apply S5. rewrite Hl. by right.
  - rewrite map_size_delete_Some by eauto. pose proof (c_total _ _ _ _ _ Hc).
    assert (size (threads f) <> 0%nat) by (rewrite map_size_ne_0_lookup; eauto). lia.
  - pose proof (c_max _ _ _ _ _ Hc). lia.
  - pose proof (c_use _ _ _ _ _ Hc) as Hu. rewrite Hl in Hu. simpl in Hu. lia.
  - split.
    + apply lookup_delete_is_Some. split; [|done]. intros ->. apply Hp2. rewrite Hl. by left.
    + rewrite Hl in Hp2. set_solver.
Qed.

(** Only the pool and the memory of threads change. *)
Definition same_lists (f f' : MtFrame) : Prop :=
  _runlist f' = _runlist f /\ _iolist f' = _iolist f /\ _pend_list f' = _pend_list f /\
  _sleeplist f' = _sleeplist f /\ _daemon f' = _daemon f /\ _curr_thread f' = _curr_thread f.

Lemma same_lists_trans f1 f2 f3 : same_lists f1 f2 -> same_lists f2 f3 -> same_lists f1 f3.
Proof. unfold same_lists. intuition congruence. Qed.

Definition fresh_ok (f : MtFrame) (fresh : option Z) : Prop :=
  forall t, fresh = Some t -> threads f !! t = None.

Lemma core_use_bound primo w f es x :
  core primo w f es x -> 0 <= _use_num f < 2 ^ 30 /\ Z.of_nat (length (_freelist f)) < 2 ^ 30.
Proof.
  intros Hc. pose proof (runlist_bound _ _ _ _ _ Hc) as [_ Hb]. pose proof (c_use _ _ _ _ _ Hc).
  pose proof (core_size _ _ _ _ _ Hc) as Hs. unfold places in Hs. rewrite !length_app in Hs. simpl in Hs.
  pose proof (c_total _ _ _ _ _ Hc). lia.
Qed.

Lemma AllocThread_spec primo w f es x fresh :
  core primo w f es x -> fresh_ok f fresh ->
  exists f' r, AllocThread f fresh = Ok (f', r) /\ same_lists f f' /\
    match r with
    | None => f' = f
    | Some t => core primo w f' es (t :: x) /\
        (exists th, threads f' !! t = Some th /\ _parent th = None) /\
        (t ∈ _freelist f \/ fresh = Some t) /\
        (forall u, u <> t -> threads f' !! u = threads f !! u) /\
        (forall u, u ∈ _freelist f' -> u ∈ _freelist f)
    end.
Proof.
  intros Hc Hfresh. unfold AllocThread. pose proof (core_use_bound _ _ _ _ _ Hc) as [Hub _].
  pose proof (runlist_bound _ _ _ _ _ Hc) as [_ Htb].
  destruct (_freelist f) as [|t l] eqn:Hl.
  - destruct (Z.leb_spec (_max_num f) (_total_num f)); [eexists f, None; by split_and!|].
    destruct fresh as [t|]; [|eexists f, None; by split_and!].
    specialize (Hfresh t eq_refl). eexists _, (Some t). rewrite !wraps_small by (cbn; lia).
    split; [done|]. split; [by split_and!|].
    split_and!; cbn; [|by exists (new_thread NORMAL); rewrite lookup_insert_eq|by right| |set_solver].
    + pose proof (core_fresh primo w f es x t) as Hcf. rewrite Hl in Hcf. by apply Hcf.
    + intros u Hu. by apply lookup_insert_ne.
  - destruct (core_lookup _ _ _ _ _ t Hc) as (th & Ht & Hg); [unfold places; rewrite Hl; set_solver|].
    rewrite wraps_small by lia. sched_run Ht. eexists _, (Some t). split; [done|]. split; [by split_and!|].
    pose proof (c_flags _ _ _ _ _ Hc t th Ht) as Hf.
    destruct (c_subs _ _ _ _ _ Hc t th Ht) as (_ & S2 & _ & _ & S5).
    assert (_parent th = None) as Hpar by (apply S5; rewrite Hl; by left).
    pose proof (c_nodup _ _ _ _ _ Hc) as Hnd.
    assert (places f es x ≡ₚ t :: (_runlist f ++ es ++ _pend_list f ++ l ++ _daemon f :: x)) as Hp
      by (unfold places; rewrite Hl; simpl; solve_Permutation).
    rewrite Hp in Hnd. apply NoDup_cons in Hnd as [Hout Hnd].
    split_and!; cbn; [|exists (unset_flag FREE_LIST th); by rewrite lookup_insert_eq|left; by left
      |intros u Hu; by apply lookup_insert_ne|set_solver].
    destruct (c_io _ _ _ _ _ Hc) as [Hio1 Hio2].
    apply (core_move_gen primo w f _ es es x (t :: x) t th (unset_flag FREE_LIST th)); try done; try apply Hc.
    + split; try done; [|cbn; rewrite Hl; set_solver]. unfold flags_at in Hf. rewrite Hl in Hf. flags_solve.
    + unfold places. cbn. rewrite Hl. simpl. solve_Permutation.
    + cbn. pose proof (c_use _ _ _ _ _ Hc) as Hu. rewrite Hl in Hu. simpl in Hu. lia.
    + intros ->. cbn. set_solver.
Qed.

(** Giving a thread back never destroys the thread itself, whose stack may
    still be in use. *)
Lemma FreeThread_spec primo w f es x t th :
  core primo w f es (t :: x) -> threads f !! t = Some th -> _parent th = None -> t <> primo ->
  (forall u, u ∈ w -> u ∉ t :: _freelist f) ->
  exists f', FreeThread f t = Ok f' /\ core primo w f' es x /\ same_lists f f' /\
    is_Some (threads f' !! t) /\
    (forall u, u <> t -> u ∉ _freelist f -> threads f' !! u = threads f !! u) /\
    (forall u, u ∈ _freelist f' -> u ∈ t :: _freelist f).
Proof.
  intros Hc Ht Hpar Hprimo Hw.
  pose proof (core_use_bound _ _ _ _ _ Hc) as [Hub Hfb]. pose proof (runlist_bound _ _ _ _ _ Hc) as [_ Htb].
  destruct (core_out _ _ _ _ _ _ Hc) as (H1 & H2 & H3 & H4 & H5 & H6 & H7 & th0 & Ht0 & Hg & Hsub).
  rewrite Ht in Ht0. injection Ht0 as <-.
  assert (_sub_list th = []) as Hs.
  { destruct (_sub_list th); [done|]. destruct (Hw t); [by apply Hsub|by left]. }
  assert (0 < _use_num f) as Hu0.
  { pose proof (core_size _ _ _ _ _ Hc) as Hs'. unfold places in Hs'. rewrite !length_app in Hs'. simpl in Hs'.
    pose proof (c_total _ _ _ _ _ Hc). pose proof (c_use _ _ _ _ _ Hc). lia. }
  set (th' := set_flag FREE_LIST (new_thread NORMAL)).
  assert (forall dflt, core primo w (with_pool (with_threads f (<[t := th']> (threads f)))
    (_freelist f ++ [t]) (_total_num f) (_use_num f - 1) dflt) es x) as Hc1.
  { intros dflt. apply (core_move_gen primo w f _ es es (t :: x) x t th th'); try done; try apply Hc.
    - split; try done; [|cbn; set_solver]. unfold flags_at, has_flag. cbn.
      rewrite (bool_decide_eq_true_2 (t ∈ _freelist f ++ [t])) by set_solver.
      rewrite !bool_decide_eq_false_2 by (done || apply is_Some_None). done.
    - unfold places. cbn. solve_Permutation.
    - cbn. rewrite length_app. pose proof (c_use _ _ _ _ _ Hc). simpl. lia. }
  unfold FreeThread. sched_run Ht. rewrite !wraps_small by lia.
  rewrite (wrapu_small 32) by (rewrite length_app; simpl; lia).
  case_match eqn:Ec.
  - apply andb_true_iff in Ec as [_ Ec]. apply Z.ltb_lt in Ec. rewrite length_app in Ec. simpl in Ec.
    destruct (_freelist f) as [|d l] eqn:Hl; [simpl in Ec; lia|]. simpl.
    eexists. split; [done|].
    specialize (Hc1 (default_thread_num f)).
    eapply (core_trim primo w _ es x d (l ++ [t])) in Hc1; [|done|].
    2: { intros Hd. apply (Hw d Hd). right. by left. }
    cbn in Hc1. rewrite ?wraps_small by lia. split; [exact Hc1|]. split; [by split_and!|]. cbn.
    assert (d <> t) as Hdt by set_solver. split_and!.
    + rewrite lookup_delete_ne, lookup_insert_eq by done. eauto.
    + intros u Hu Hul. by rewrite lookup_delete_ne, lookup_insert_ne by set_solver.
    + set_solver.
  - eexists. split; [done|]. split; [apply Hc1|]. split; [by split_and!|]. cbn. split_and!.
    + rewrite lookup_insert_eq. eauto.
    + intros u Hu _. by apply lookup_insert_ne.
    + set_solver.
Qed.

(** ** Sub threads *)

(** The link between a parent [p] and the thread [sub] is made or taken away:
    [m] is the memory with the two threads changed. *)
Section Relink.
Context (primo : Z) (w : list Z) (f : MtFrame) (es x : list Z) (p sub : Z).
Context (thp ths thp' ths' : MicroThread) (m : gmap Z MicroThread).
Hypothesis Hc : core primo w f es x.
Hypothesis Hps : p <> sub.
Hypothesis Hp : threads f !! p = Some thp.
Hypothesis Hs : threads f !! sub = Some ths.
Hypothesis L1 : m !! sub = Some ths'.
Hypothesis L2 : m !! p = Some thp'.
Hypothesis L3 : forall u, u <> sub -> u <> p -> m !! u = threads f !! u.
Hypothesis Hpp : _parent thp' = _parent thp.
Hypothesis Hpt : _type thp' = _type thp.
Hypothesis Hss : _sub_list ths' = _sub_list ths.
Hypothesis Hst : _type ths' = SUB_THREAD.
Hypothesis Hfree : sub ∉ _freelist f.
Hypothesis Hold : _parent ths = None \/ _parent ths = Some p.
Hypothesis Hnew :
  _parent ths' = None /\ sub ∉ _sub_list thp' \/ _parent ths' = Some p /\ sub ∈ _sub_list thp'.
Hypothesis Hnd : NoDup (_sub_list thp').
Hypothesis Hsame : forall u, u <> sub -> u ∈ _sub_list thp' <-> u ∈ _sub_list thp.
Hypothesis Hpend : _sub_list thp' <> [] -> p ∈ _pend_list f \/ p ∈ w.

Lemma relink_parent c thc :
  c <> sub -> threads f !! c = Some thc -> exists thc', m !! c = Some thc' /\ _parent thc' = _parent thc.
Proof.
  intros Hne Hcl. destruct (decide (c = p)) as [->|]; [|rewrite L3 by done; eauto].
  rewrite Hp in Hcl. injection Hcl as <-. eauto.
Qed.

Lemma relink_list q thq c :
  c <> sub -> threads f !! q = Some thq -> c ∈ _sub_list thq ->
  exists thq', m !! q = Some thq' /\ c ∈ _sub_list thq'.
Proof.
  intros Hne Hq Hin. destruct (decide (q = sub)) as [->|];
    [rewrite Hs in Hq; injection Hq as <-; exists ths'; by rewrite Hss|].
  destruct (decide (q = p)) as [->|]; [|rewrite L3 by done; eauto].
  rewrite Hp in Hq. injection Hq as <-. exists thp'. split; [done|]. by apply Hsame.
Qed.

Lemma relink_child u thu c :
  u <> p -> threads f !! u = Some thu -> c ∈ _sub_list thu ->
  exists thc, m !! c = Some thc /\ _parent thc = Some u.
Proof.
  intros Hup Hu Hcin. destruct (c_subs _ _ _ _ _ Hc u thu Hu) as (_ & _ & S3 & _).
  destruct (S3 c Hcin) as (thc & Hcl & Hcp).
  destruct (relink_parent c thc) as (thc' & ? & E); [|done|exists thc'; by rewrite E].
  intros ->. rewrite Hs in Hcl. injection Hcl as <-. naive_solver.
Qed.

Lemma relink_subs u thu : m !! u = Some thu -> subs_at w (with_threads f m) u thu.
Proof.
  intros Hu. unfold subs_at. cbn.
  destruct (decide (u = sub)) as [->|Hus]; [|destruct (decide (u = p)) as [->|Hup]].
  - destruct (c_subs _ _ _ _ _ Hc sub ths Hs) as (Q1 & Q2 & _).
    rewrite L1 in Hu. injection Hu as <-. rewrite Hss. split_and!; try done.
    + intros c. by apply relink_child.
    + intros q Hq. split; [done|]. destruct Hnew as [[E _]|[E Hin]]; [congruence|].
      exists thp'. by rewrite Hq in E; injection E as ->.
  - destruct (c_subs _ _ _ _ _ Hc p thp Hp) as (P1 & P2 & P3 & P4 & P5).
    rewrite L2 in Hu. injection Hu as <-. split_and!; try done.
    + intros c Hcin. destruct (decide (c = sub)) as [->|Hcs].
      * exists ths'. split; [done|]. by destruct Hnew as [[_ ?]|[? _]].
      * apply Hsame in Hcin; [|done]. destruct (P3 c Hcin) as (thc & Hcl & Hcp).
        destruct (relink_parent c thc Hcs Hcl) as (thc' & ? & E). exists thc'. by rewrite E.
    + rewrite Hpp, Hpt. intros q Hq. destruct (P4 q Hq) as (? & thq & Hql & Hin). split; [done|].
      by apply (relink_list q thq p).
    + by rewrite Hpp.
  - rewrite L3 in Hu by done. destruct (c_subs _ _ _ _ _ Hc u thu Hu) as (S1 & S2 & _ & S4 & S5).
    split_and!; try done.
    + intros c. by apply relink_child.
    + intros q Hq. destruct (S4 q Hq) as (? & thq & Hql & Hin). split; [done|].
      by apply (relink_list q thq u).
Qed.
End Relink.

Lemma core_relink primo w f es x p sub thp ths thp' ths' :
  core primo w f es x -> p <> sub ->
  threads f !! p = Some thp -> threads f !! sub = Some ths ->
  _flag thp' = _flag thp -> _parent thp' = _parent thp -> _type thp' = _type thp ->
  flags_at f es sub ths' -> _sub_list ths' = _sub_list ths -> _type ths' = SUB_THREAD ->
  sub ∉ _freelist f ->
  (_parent ths = None \/ _parent ths = Some p) ->
  (_parent ths' = None /\ sub ∉ _sub_list thp' \/ _parent ths' = Some p /\ sub ∈ _sub_list thp') ->
  NoDup (_sub_list thp') -> (forall u, u <> sub -> u ∈ _sub_list thp' <-> u ∈ _sub_list thp) ->
  (_sub_list thp' <> [] -> p ∈ _pend_list f \/ p ∈ w) ->
  core primo w (with_threads f (<[sub := ths']> (<[p := thp']> (threads f)))) es x.
Proof.
  intros Hc Hps Hp Hs Hfl Hpp Hpt Hfs Hss Hst Hfree Hold Hnew Hnd Hsame Hpend.
  set (ths2 := <[sub := ths']> (<[p := thp']> (threads f))).
  assert (ths2 !! sub = Some ths') as L1 by apply lookup_insert_eq.
  assert (ths2 !! p = Some thp') as L2 by (unfold ths2; by rewrite lookup_insert_ne, lookup_insert_eq).
  assert (forall u, u <> sub -> u <> p -> ths2 !! u = threads f !! u) as L3
    by (intros u ? ?; unfold ths2; by rewrite !lookup_insert_ne).
  assert (forall u, is_Some (ths2 !! u) <-> is_Some (threads f !! u)) as Hsome.
  { intros u. destruct (decide (u = sub)) as [->|]; [rewrite L1, Hs; split; eauto|].
    destruct (decide (u = p)) as [->|]; [rewrite L2, Hp; split; eauto|]. by rewrite L3. }
  split; cbn; try apply Hc.
  - intros u. rewrite Hsome. apply Hc.
  - intros u thu Hu. destruct (decide (u = sub)) as [->|]; [by simplify_eq|].
    destruct (decide (u = p)) as [->|]; [|rewrite L3 in Hu by done; by apply (c_flags _ _ _ _ _ Hc)].
    pose proof (c_flags _ _ _ _ _ Hc p thp Hp) as Hfp. simplify_eq.
    unfold flags_at, has_flag in *. by rewrite Hfl, Hpp.
  - intros u thu. apply (relink_subs primo w f es x p sub thp ths thp' ths' ths2); done.
  - unfold ths2. rewrite !map_size_insert_Some; [apply Hc|..]; [by eauto|].
    rewrite lookup_insert_ne by done. eauto.
  - rewrite Hsome. apply Hc.
Qed.

Lemma AddSubThread_spec primo w f es x p sub thp ths :
  core primo (p :: w) f es x -> p <> sub -> threads f !! p = Some thp -> threads f !! sub = Some ths ->
  _parent ths = None -> _type ths = SUB_THREAD -> sub ∉ _freelist f ->
  exists thp' ths', AddSubThread f p sub =
      Ok (with_threads f (<[sub := ths']> (<[p := thp']> (threads f)))) /\
    core primo (p :: w) (with_threads f (<[sub := ths']> (<[p := thp']> (threads f)))) es x.
Proof.
  intros Hc Hne Hp Hs Hpar Hty Hfree.
  pose proof (c_flags _ _ _ _ _ Hc sub ths Hs) as Hf.
  destruct (c_subs _ _ _ _ _ Hc p thp Hp) as (P1 & _ & P3 & _).
  assert (sub ∉ _sub_list thp) as Hnin.
  { intros Hin. destruct (P3 sub Hin) as (thc & Hcl & Hcp). congruence. }
  eexists (set_subs (_sub_list thp ++ [sub]) thp), (set_flag SUB_LIST (set_parent (Some p) ths)). split.
  - unfold AddSubThread, HasFlag. sched_run Hs.
    assert (has_flag SUB_LIST ths = false) as ->.
    { destruct Hf as (_ & _ & _ & _ & _ & ->). rewrite Hpar. apply bool_decide_eq_false_2, is_Some_None. }
    sched_run Hp. rewrite lookup_insert_ne by done. by sched_run Hs.
  - eapply (core_relink primo (p :: w) f es x p sub thp ths); eauto; cbn.
    + unfold flags_at, has_flag in *. cbn. destruct_and?. split_and!; simpl_flags; try done.
    + right. set_solver.
    + apply NoDup_app. split_and!; [done|set_solver|apply NoDup_singleton].
    + set_solver.
    + intros _. right. by left.
Qed.

Lemma RemoveSubThread_spec primo w f es x p sub thp ths :
  core primo w f es x -> p <> sub -> threads f !! p = Some thp -> threads f !! sub = Some ths ->
  _parent ths = Some p -> sub ∉ _freelist f ->
  exists l ths', RemoveSubThread f p sub =
      Ok (with_threads f (<[sub := ths']> (<[p := set_subs l thp]> (threads f)))) /\
    (sub :: l ≡ₚ _sub_list thp) /\ _parent ths' = None /\ p ∈ _pend_list f ++ w /\
    core primo w (with_threads f (<[sub := ths']> (<[p := set_subs l thp]> (threads f)))) es x.
Proof.
  intros Hc Hne Hp Hs Hpar Hfree.
  pose proof (c_flags _ _ _ _ _ Hc sub ths Hs) as Hf.
  destruct (c_subs _ _ _ _ _ Hc p thp Hp) as (P1 & P2 & P3 & _).
  destruct (c_subs _ _ _ _ _ Hc sub ths Hs) as (_ & _ & _ & Q4 & _).
  destruct (Q4 p Hpar) as (Hty & thp0 & Hp0 & Hin). rewrite Hp in Hp0. injection Hp0 as <-.
  destruct (tailq_remove_spec sub _ Hin) as (l & Hl & Hperm).
  assert (p ∈ _pend_list f ++ w) as Hpend.
  { apply elem_of_app. apply P2. intros E. rewrite E in Hin. set_solver. }
  assert (NoDup (sub :: l)) as [Hnin Hnd]%NoDup_cons by (by rewrite Hperm).
  eexists l, (unset_flag SUB_LIST (set_parent None ths)). split; [|split_and!; [done..|]].
  - unfold RemoveSubThread, HasFlag. sched_run Hs.
    assert (has_flag SUB_LIST ths = true) as ->.
    { destruct Hf as (_ & _ & _ & _ & _ & ->). rewrite Hpar. by apply bool_decide_eq_true_2. }
    sched_run Hp. rewrite Hl. sched_run Hp. rewrite lookup_insert_ne by done. by sched_run Hs.
  - eapply (core_relink primo w f es x p sub thp ths); eauto; cbn.
    + unfold flags_at, has_flag in *. cbn. destruct_and?. split_and!; simpl_flags; try done.
    + intros u Hu. rewrite <- Hperm. set_solver.
    + intros _. by apply elem_of_app.
Qed.

(** The parent of the last sub thread becomes runnable. *)
Lemma WakeupParent_spec primo f es x t :
  core primo [] f es (t :: x) ->
  exists f' th', WakeupParent f t = Ok f' /\ core primo [] f' es (t :: x) /\
    threads f' !! t = Some th' /\ _parent th' = None /\
    _curr_thread f' = _curr_thread f /\ _daemon f' = _daemon f /\
    forall th p thp, threads f !! t = Some th -> _parent th = Some p -> threads f !! p = Some thp ->
      exists l, (t :: l ≡ₚ _sub_list thp) /\
        if decide (l = []) then _runlist f' = _runlist f ++ [p]
        else _pend_list f' = _pend_list f /\ _runlist f' = _runlist f /\ p ∈ _pend_list f.
Proof.
  intros Hc. destruct (core_out _ _ _ _ _ _ Hc) as (_ & _ & H3 & H4 & _ & _ & _ & th & Ht & Hg & Hsub).
  unfold WakeupParent. rewrite Hg. cbn [res_bind].
  destruct (_parent th) as [p|] eqn:Hpar.
  2: { exists f, th. split_and!; try done. intros. simplify_eq. }
  destruct (c_subs _ _ _ _ _ Hc t th Ht) as (_ & _ & _ & Q4 & _).
  destruct (Q4 p Hpar) as (_ & thp & Hp & Hin).
  assert (p <> t) as Hne.
  { intros ->. rewrite Ht in Hp. injection Hp as <-. assert (t ∈ []) as []%not_elem_of_nil.
    apply Hsub. intros E. rewrite E in Hin. set_solver. }
  destruct (RemoveSubThread_spec _ _ _ _ _ _ _ _ _ Hc Hne Hp Ht Hpar H4) as (l & ths' & -> & Hperm & Hnone & Hpend & Hc1).
  rewrite app_nil_r in Hpend. cbn [res_bind].
  set (f1 := with_threads f (<[t := ths']> (<[p := set_subs l thp]> (threads f)))) in *.
  assert (threads f1 !! t = Some ths') as L1 by (cbn; apply lookup_insert_eq).
  assert (threads f1 !! p = Some (set_subs l thp)) as L2 by (cbn; by rewrite lookup_insert_ne, lookup_insert_eq by done).
  unfold HasNoSubThread, get_thread. rewrite L2. cbn [res_bind _sub_list set_subs].
  case_bool_decide as El.
  2: { exists f1, ths'. split_and!; try done. intros th0 p0 thp0 E0 E1 E2. simplify_eq. exists l.
       rewrite decide_False by done. by split_and!. }
  destruct (RemovePend_spec _ _ _ _ _ _ _ Hc1 Hpend L2 El) as (l2 & E2 & Hc2).
  unfold ScheduleUnpend. rewrite E2. cbn [res_bind].
  destruct (InsertRunable_spec _ _ _ _ _ _ Hc2) as (th3 & Ht3 & -> & Hc3).
  eexists _, ths'. split; [done|]. split; [done|]. split; [|split_and!; try done].
  - cbn. by rewrite !lookup_insert_ne, lookup_insert_eq by done.
  - intros th0 p0 thp0 E0 E1 E3. simplify_eq. exists []. by rewrite decide_True.
Qed.

Lemma Run_end_spec primo f :
  frame_ok primo f -> _curr_thread f <> _daemon f -> _curr_thread f <> primo ->
  exists f', Run_end f = Ok f' /\ frame_ok primo f'.
Proof.
  intros [es Hc] Hd Hprimo. rewrite running_cons in Hc by done. set (t := _curr_thread f) in *.
  destruct (core_out _ _ _ _ _ _ Hc) as (_ & _ & _ & _ & _ & _ & _ & th & Ht & Hg & _).
  assert (exists f1 th1, (match _type th with SUB_THREAD => WakeupParent f t | _ => Ok f end) = Ok f1 /\
    core primo [] f1 es [t] /\ threads f1 !! t = Some th1 /\ _parent th1 = None /\ _curr_thread f1 = t)
    as (f1 & th1 & E1 & Hc1 & Ht1 & Hn1 & Hcur1).
  { destruct (c_subs _ _ _ _ _ Hc t th Ht) as (_ & _ & _ & Q4 & _).
    destruct (_type th) eqn:Ety.
    4: { destruct (WakeupParent_spec _ _ _ _ _ Hc) as (f1 & th1 & ? & ? & ? & ? & Ecur & _ & _).
         exists f1, th1. by split_and!. }
    all: exists f, th; split_and!; try done; destruct (_parent th) as [p|] eqn:Ep; [|done];
      destruct (Q4 p eq_refl) as [? _]; congruence. }
  unfold Run_end. fold t. rewrite Hg. cbn [res_bind]. rewrite E1. cbn [res_bind]. rewrite Hcur1.
  destruct (FreeThread_spec _ _ _ _ _ _ _ Hc1 Ht1 Hn1 Hprimo) as (f2 & -> & Hc2 & _); [set_solver|].
  cbn [res_bind]. destruct (ThreadSchdule_spec _ _ _ _ Hc2) as (f' & -> & Hc' & _).
  exists f'. split; [done|]. by exists es.
Qed.

Lemma CreateThread_spec primo f fresh :
  frame_ok primo f -> fresh_ok f fresh ->
  exists f' r, CreateThread f fresh true = Ok (f', r) /\ frame_ok primo f'.
Proof.
  intros [es Hc] Hfr. unfold CreateThread.
  destruct (AllocThread_spec _ _ _ _ _ _ Hc Hfr) as (f1 & r & -> & Hsame & Hr). cbn [res_bind].
  destruct r as [t|]; [|subst f1; exists f, None; split; [done|by exists es]].
  destruct Hr as (Hc1 & _). destruct (InsertRunable_spec _ _ _ _ _ _ Hc1) as (th & Ht & -> & Hc2).
  eexists _, _. split; [done|]. exists es. rewrite (running_same f); [done| |]; apply Hsame.
Qed.

(** ** Executing tasks in sub threads *)

Definition fresh_all_ok (f : MtFrame) (fresh : list (option Z)) : Prop :=
  NoDup (omap id fresh) /\ forall t, t ∈ omap id fresh -> threads f !! t = None.

Definition new_sub (primo : Z) (f : MtFrame) (s : Z) : Prop :=
  s <> primo /\ exists th, threads f !! s = Some th /\ _parent th = None /\ _type th = SUB_THREAD.

Lemma new_sub_same primo f f' subs :
  (forall u, u ∈ subs -> threads f' !! u = threads f !! u) ->
  Forall (new_sub primo f) subs -> Forall (new_sub primo f') subs.
Proof.
  intros Hsame Hall. apply Forall_forall. intros s Hs. rewrite Forall_forall in Hall.
  unfold new_sub. rewrite Hsame by done. by apply Hall.
Qed.

Lemma core_distinct primo w f es subs x u :
  core primo w f es (subs ++ x) -> u ∈ subs -> u ∉ x.
Proof.
  intros Hc Hs Hx. pose proof (c_nodup _ _ _ _ _ Hc) as Hnd. unfold places in Hnd.
  apply NoDup_app in Hnd as (_ & _ & Hnd). apply NoDup_app in Hnd as (_ & _ & Hnd).
  apply NoDup_app in Hnd as (_ & _ & Hnd). apply NoDup_app in Hnd as (_ & _ & Hnd).
  apply NoDup_cons in Hnd as [_ Hnd]. apply NoDup_app in Hnd as (_ & Hnd & _). by apply (Hnd u).
Qed.

Lemma core_free_out primo w f es x u : core primo w f es x -> u ∈ x -> u ∉ _freelist f.
Proof.
  intros Hc [l1 [l2 ->]]%list_elem_of_split. apply (core_perm _ _ _ _ _ (u :: l1 ++ l2)) in Hc; [|solve_Permutation].
  apply (core_out _ _ _ _ _ _ Hc).
Qed.

Lemma create_subs_spec primo es fresh : forall f x,
  core primo [] f es x -> fresh_all_ok f fresh ->
  exists f' subs ok, create_subs f fresh = Ok (f', subs, ok) /\ core primo [] f' es (subs ++ x) /\
    same_lists f f' /\ Forall (new_sub primo f') subs /\
    (forall u, u ∈ x -> threads f' !! u = threads f !! u) /\
    (ok = true -> length subs = length fresh).
Proof.
  induction fresh as [|a fresh IH]; intros f x Hc [Hnd Hfr]; cbn [create_subs].
  { exists f, [], true. by split_and!. }
  assert (fresh_ok f a) as Ha.
  { intros t ->. apply Hfr. cbn. by left. }
  unfold CreateThread.
  destruct (AllocThread_spec _ _ _ _ _ _ Hc Ha) as (f1 & r & -> & Hsame & Hr). cbn [res_bind].
  destruct r as [t|].
  2: { subst f1. exists f, [], false. split_and!; try done. }
  destruct Hr as (Hc1 & (th & Ht & Hpar) & Horig & Hoth & Hfree). cbn [res_bind].
  rewrite (upd_thread_eq _ _ _ _ Ht). cbn [res_bind].
  pose proof (core_touch primo [] f1 es _ _ th (set_type SUB_THREAD th) Hc1 Ht eq_refl eq_refl eq_refl
    ltac:(by rewrite Hpar)) as Hc2.
  set (f2 := with_threads f1 (<[t := set_type SUB_THREAD th]> (threads f1))) in *.
  assert (t ∉ x) as Htx by apply (core_out _ _ _ _ _ _ Hc1).
  assert (forall u, u <> t -> threads f2 !! u = threads f !! u) as Hu2
    by (intros u Hu; cbn; rewrite lookup_insert_ne by done; auto).
  destruct (IH f2 (t :: x) Hc2) as (f' & subs & ok & -> & Hc' & Hsame' & Hall & Hx & Hlen).
  { split; [destruct a; cbn in Hnd; [by apply NoDup_cons in Hnd as [_ ?]|done]|].
    intros u Hu. assert (threads f !! u = None) as Hun by (apply Hfr; destruct a; cbn; set_solver).
    rewrite Hu2; [done|]. intros ->. destruct Horig as [Hin|Hnone].
    - assert (is_Some (threads f !! t)) as [? Hsome] by (apply (c_dom _ _ _ _ _ Hc); unfold places; set_solver).
      congruence.
    - subst a. cbn in Hnd. by apply NoDup_cons in Hnd as [? _]. }
  exists f', (t :: subs), ok. split_and!; [done| |exact (same_lists_trans f f2 f' Hsame Hsame')| | |].
  - revert Hc'. apply core_perm. simpl. solve_Permutation.
  - constructor; [|done]. split.
    + intros ->. destruct (c_primo _ _ _ _ _ Hc) as [[? Hp1] Hp2].
      destruct Horig as [?|E]; [done|]. specialize (Ha primo E). congruence.
    + exists (set_type SUB_THREAD th). rewrite Hx by (by left). cbn. by rewrite lookup_insert_eq.
  - intros u Hu. rewrite Hx by (by right). apply Hu2. by intros ->.
  - intros Hok. simpl. by rewrite Hlen.
Qed.

Lemma start_subs_spec primo es p subs : forall f x,
  core primo [p] f es (subs ++ x) -> p ∉ subs -> is_Some (threads f !! p) -> Forall (new_sub primo f) subs ->
  exists f', start_subs f p subs = Ok f' /\ core primo [p] f' es x /\ _runlist f' = _runlist f ++ subs /\
    _curr_thread f' = _curr_thread f /\ _daemon f' = _daemon f.
Proof.
  induction subs as [|s subs IH]; intros f x Hc Hp [thp Hpl] Hall; cbn [start_subs].
  { exists f. rewrite app_nil_r. by split_and!. }
  apply Forall_cons in Hall as [(Hprimo & ths & Hs & Hpar & Hty) Hall]. simpl in Hc.
  apply not_elem_of_cons in Hp as [Hne Hp].
  destruct (core_out _ _ _ _ _ _ Hc) as (_ & _ & _ & Hfree & _ & Hout & _).
  destruct (AddSubThread_spec _ _ _ _ _ _ _ _ _ Hc Hne Hpl Hs Hpar Hty Hfree) as (thp' & ths' & -> & Hc1).
  cbn [res_bind]. destruct (InsertRunable_spec _ _ _ _ _ _ Hc1) as (ths2 & Hs2 & -> & Hc2). cbn [res_bind].
  match type of Hc2 with core _ _ ?g _ _ => set (f2 := g) in * end.
  assert (forall u, u <> s -> u <> p -> threads f2 !! u = threads f !! u) as Hu
    by (intros u ? ?; cbn; by rewrite !lookup_insert_ne).
  destruct (IH f2 x Hc2 Hp) as (f' & -> & Hc' & Hrun & Hcur & Hd).
  - cbn. rewrite !lookup_insert_ne, lookup_insert_eq by done. eauto.
  - revert Hall. apply new_sub_same. intros u Hin. apply Hu; [set_solver|]. by intros ->.
  - exists f'. split_and!; try done. rewrite Hrun. cbn. by rewrite <- app_assoc.
Qed.

Lemma free_subs_spec primo es subs : forall f x,
  core primo [] f es (subs ++ x) -> Forall (new_sub primo f) subs ->
  exists f', free_subs f subs = Ok f' /\ core primo [] f' es x /\ same_lists f f'.
Proof.
  induction subs as [|s subs IH]; intros f x Hc Hall; cbn [free_subs].
  { exists f. by split_and!. }
  apply Forall_cons in Hall as [(Hprimo & ths & Hs & Hpar & _) Hall]. simpl in Hc.
  destruct (FreeThread_spec _ _ _ _ _ _ _ Hc Hs Hpar Hprimo) as (f1 & -> & Hc1 & Hsame & _ & Hu & _);
    [set_solver|]. cbn [res_bind].
  destruct (IH f1 x Hc1) as (f' & -> & Hc' & Hsame').
  - revert Hall. apply new_sub_same. intros u Hin.
    apply Hu; [intros ->; apply (core_distinct _ _ _ _ [s] (subs ++ x) s Hc); set_solver|].
    apply (core_free_out _ _ _ _ _ u Hc). set_solver.
  - exists f'. split_and!; try done. by eapply same_lists_trans.
Qed.

Lemma mt_exec_all_task_spec primo f fresh :
  frame_ok primo f -> _curr_thread f <> _daemon f -> fresh_all_ok f fresh ->
  exists f' b, mt_exec_all_task f fresh = Ok (f', b) /\ frame_ok primo f'.
Proof.
  intros [es Hc] Hd Hfr. unfold mt_exec_all_task.
  destruct fresh as [|a fresh]; [exists f, false; split; [done|by exists es]|].
  pose proof Hc as Hc0. rewrite running_cons in Hc by done. set (p := _curr_thread f) in *.
  destruct (create_subs_spec primo es (a :: fresh) f [p] Hc Hfr)
    as (f1 & subs & ok & -> & Hc1 & Hsame & Hall & Hp & _). cbn [res_bind].
  assert (p ∉ subs) as Hps by (intros Hin; apply (core_distinct _ _ _ _ _ _ _ Hc1 Hin); by left).
  destruct ok.
  - assert (is_Some (threads f1 !! p)) as Hsome.
    { apply (c_dom _ _ _ _ _ Hc1). unfold places. set_solver. }
    apply (core_waits primo [] [p]) in Hc1; [|set_solver].
    destruct (start_subs_spec primo es p subs f1 [p] Hc1 Hps Hsome Hall) as (f2 & -> & Hc2 & _ & Hcur & _).
    cbn [res_bind]. unfold Wait. rewrite Hcur.
    replace (_curr_thread f1) with p by (symmetry; apply Hsame).
    destruct (InsertPend_spec _ _ _ _ _ _ Hc2) as (th & Ht & -> & Hc3). cbn [res_bind].
    destruct (ThreadSchdule_spec _ _ _ _ Hc3) as (f' & -> & Hc' & _).
    exists f', true. split; [done|]. by exists es.
  - destruct (free_subs_spec primo es subs f1 [p] Hc1 Hall) as (f2 & -> & Hc2 & Hsame2).
    exists f2, false. split; [done|]. exists es. pose proof (same_lists_trans _ _ _ Hsame Hsame2) as Hs.
    rewrite (running_same f); [|apply Hs..]. by rewrite running_cons.
Qed.

(** ** Sequences of events *)

(** What the running thread may do: the daemon neither sleeps nor ends nor
    waits for sub threads, the primordial thread does not end, and [new]
    returns memory that is not in use. *)
Definition event_ok (primo : Z) (f : MtFrame) (e : event) : Prop :=
  match e with
  | ESleep _ _ | EWaitNotify _ _ => _curr_thread f <> _daemon f
  | ENotify t | EIo t => is_Some (threads f !! t)
  | ESwap | EWakeup _ => True
  | EStart fresh => fresh_ok f fresh
  | EExecAll fresh => _curr_thread f <> _daemon f /\ fresh_all_ok f fresh
  | EEnd => _curr_thread f <> _daemon f /\ _curr_thread f <> primo
  | EDaemonSwitch => _curr_thread f = _daemon f
  end.

Inductive reach (primo : Z) : MtFrame -> MtFrame -> Prop :=
| reach_refl f : reach primo f f
| reach_step f e f1 f2 :
    event_ok primo f e -> sched_step f e = Ok f1 -> reach primo f1 f2 -> reach primo f f2.

Lemma WakeupTimeout_spec primo w f es x now :
  core primo w f es x ->
  exists f' es' log, WakeupTimeout f now = Ok f' /\ core primo w f' es' x /\
    _curr_thread f' = _curr_thread f /\ _daemon f' = _daemon f /\
    _runlist f' = _runlist f ++ log /\ (log ++ es' ≡ₚ es) /\
    (forall u, HeapValue (threads f') u = HeapValue (threads f) u) /\
    Forall (fun u => HeapValue (threads f) u <= now) log /\
    (forall u, head es' = Some u -> now < HeapValue (threads f) u) /\
    (ordered (HeapValue (threads f)) es ->
       ordered (HeapValue (threads f)) es' /\
       StronglySorted (fun a b => HeapValue (threads f) a <= HeapValue (threads f) b) log).
Proof.
  intros Hc. pose proof (c_wf _ _ _ _ _ Hc) as (_ & Hcount & _). unfold WakeupTimeout.
  apply (WakeupTimeout_loop_spec primo w now (length es)); [done..|]. rewrite Hcount. lia.
Qed.

Lemma sched_step_ok primo f e :
  frame_ok primo f -> event_ok primo f e -> exists f', sched_step f e = Ok f' /\ frame_ok primo f'.
Proof.
  intros Hok He. destruct e; cbn [sched_step event_ok] in *.
  - by apply sleep_spec.
  - by apply WaitNotify_spec.
  - by apply NotifyThread_spec.
  - by apply SwapDaemonThread_spec.
  - destruct (CreateThread_spec _ _ _ Hok He) as (f' & r & -> & Hok'). by exists f'.
  - destruct He as [Hd Hfr]. destruct (mt_exec_all_task_spec _ _ _ Hok Hd Hfr) as (f' & b & -> & Hok').
    by exists f'.
  - destruct He. by apply Run_end_spec.
  - destruct Hok as [es Hc]. destruct (IoNotify_spec _ _ _ _ _ _ Hc He) as (f' & es' & -> & Hc' & Hcur & Hd & _).
    exists f'. split; [done|]. exists es'. by rewrite (running_same f).
  - destruct Hok as [es Hc]. destruct (WakeupTimeout_spec _ _ _ _ _ now Hc) as (f' & es' & log & -> & Hc' & Hcur & Hd & _).
    exists f'. split; [done|]. exists es'. by rewrite (running_same f).
  - destruct Hok as [es Hc]. unfold running in Hc. rewrite decide_True in Hc by done.
    destruct (ThreadSchdule_spec _ _ _ _ Hc) as (f' & -> & Hc' & _). exists f'. split; [done|]. by exists es.
Qed.

(** ** Properties *)

(** C10: However the threads sleep, wait, notify each other, start and join sub
    threads and end, no thread is lost: every thread is in exactly one of the
    run list, the heap of sleepers, the list of waiting parents and the pool,
    or it is the daemon or the running thread; its flags say so; and every
    further operation is again free of invalid memory accesses. *)
Theorem sched_no_thread_lost primo f f' :
  frame_ok primo f -> reach primo f f' ->
  (exists es, wf (_sleeplist f') es /\ NoDup (places f' es (running f')) /\
     forall t, (is_Some (threads f' !! t) <-> t ∈ places f' es (running f')) /\
       forall th, threads f' !! t = Some th -> flags_at f' es t th) /\
  (forall e, event_ok primo f' e -> exists f'', sched_step f' e = Ok f'').
Proof.
  intros Hok Hreach. induction Hreach as [f|f e f1 f2 He Hs _ IH].
  - split.
    + destruct Hok as [es Hc]. exists es. split_and!; [apply Hc..|]. intros t. split; [apply Hc|].
      intros th. apply (c_flags _ _ _ _ _ Hc).
    + intros e He. destruct (sched_step_ok _ _ _ Hok He) as (f' & Hs & _). eauto.
  - destruct (sched_step_ok _ _ _ Hok He) as (f' & Hs' & Hok'). rewrite Hs in Hs'. injection Hs' as <-. auto.
Qed.

(** C32: When the sleepers are in order, [WakeupTimeout] moves exactly the
    threads whose time has come to the end of the run list, the earliest
    first, and the others go on sleeping, in order. *)
Theorem wakeup_timeout_correct primo f es now :
  core primo [] f es (running f) -> ordered (HeapValue (threads f)) es ->
  exists f' es' log, WakeupTimeout f now = Ok f' /\ core primo [] f' es' (running f') /\
    _runlist f' = _runlist f ++ log /\
    (log ≡ₚ filter (fun t => HeapValue (threads f) t <= now) es) /\
    (es' ≡ₚ filter (fun t => ~ HeapValue (threads f) t <= now) es) /\
    StronglySorted (fun a b => HeapValue (threads f) a <= HeapValue (threads f) b) log /\
    ordered (HeapValue (threads f')) es'.
Proof.
  intros Hc Ho. destruct (WakeupTimeout_spec _ _ _ _ _ now Hc)
    as (f' & es' & log & E & Hc' & Hcur & Hd & Hrun & Hp & Hv & Hlog & Hhead & Hord).
  destruct (Hord Ho) as [Ho' Hsort].
  assert (Forall (fun t => ~ HeapValue (threads f) t <= now) es') as Hlate.
  { apply Forall_forall. intros u [k Hk]%list_elem_of_lookup Hle. destruct es' as [|v es']; [done|].
    pose proof (ordered_min _ _ _ v u Ho' eq_refl Hk). specialize (Hhead v eq_refl). lia. }
  exists f', es', log. split_and!; try done.
  - by rewrite (running_same f).
  - rewrite <- Hp, filter_app, (filter_all _ log), (filter_none _ es'), app_nil_r by done. done.
  - rewrite <- Hp, filter_app, (filter_all _ es'), (filter_none _ log); [done| |done].
    eapply Forall_impl; [exact Hlog|]. simpl. lia.
  - revert Ho'. apply ordered_ext. auto.
Qed.

(** C33: When a sub thread ends, its parent waits on if it has other sub
    threads, and is runnable (or runs at once) if this was the last one. *)
Theorem last_sub_wakes_parent primo f th p thp :
  frame_ok primo f -> let t := _curr_thread f in
  t <> _daemon f -> t <> primo -> threads f !! t = Some th -> _type th = SUB_THREAD ->
  _parent th = Some p -> threads f !! p = Some thp ->
  exists f' l, Run_end f = Ok f' /\ (t :: l ≡ₚ _sub_list thp) /\
    if decide (l = []) then p = _curr_thread f' \/ p ∈ _runlist f' else p ∈ _pend_list f'.
Proof.
  intros [es Hc] t Hd Hprimo Ht Hty Hpar Hp. rewrite running_cons in Hc by done. fold t in Hc.
  destruct (WakeupParent_spec _ _ _ _ _ Hc) as (f1 & th1 & E1 & Hc1 & Ht1 & Hn1 & Hcur1 & _ & Hw).
  destruct (Hw th p thp Ht Hpar Hp) as (l & Hl & Hplace).
  destruct (FreeThread_spec _ _ _ _ _ _ _ Hc1 Ht1 Hn1 Hprimo) as (f2 & E2 & Hc2 & Hsame & _); [set_solver|].
  destruct (ThreadSchdule_spec _ _ _ _ Hc2) as (f' & E3 & _ & Hcur & _ & Hrun & _ & Hpend & _).
  exists f', l. split; [|split; [done|]].
  - unfold Run_end, get_thread. fold t. rewrite Ht. cbn [res_bind]. rewrite Hty, E1. cbn [res_bind].
    rewrite Hcur1. fold t. rewrite E2. exact E3.
  - destruct Hsame as (Hsr & _ & Hsp & _). rewrite Hcur, Hrun, Hpend, Hsr, Hsp.
    case_decide; [|by destruct Hplace as (-> & _ & ?)]. rewrite Hplace.
    destruct (_runlist f); cbn; [by left|]. right. set_solver.
Qed.

(** ** Witnesses *)

(** The daemon and the primordial thread, which runs. *)
Definition frame0 : MtFrame :=
  mkFrame {[1 := new_thread DAEMON; 2 := new_thread PRIMORDIAL]} [] [] [] empty_heap 1 2 0 [] 1 1 5 5000.

Lemma frame0_ok : frame_ok 2 frame0.
Proof.
  exists []. assert (running frame0 = [2]) as -> by reflexivity.
  assert (forall t th, threads frame0 !! t = Some th ->
    th = new_thread DAEMON \/ th = new_thread PRIMORDIAL) as Hth.
  { intros t th Ht. cbn in Ht. apply lookup_insert_Some in Ht as [[_ <-]|[_ [_ <-]%lookup_singleton_Some]]; auto. }
  split; [apply empty_heap_wf|..]; cbn; try done.
  - by apply (bool_decide_eq_true_1 (NoDup [1; 2])).
  - intros t. rewrite lookup_insert_is_Some', lookup_singleton_is_Some. unfold places. cbn. set_solver.
  - split; [apply NoDup_nil_2|set_solver].
  - intros t th Ht. destruct (Hth t th Ht) as [->| ->]; unfold flags_at, has_flag; cbn;
      rewrite !bool_decide_eq_false_2; try done; set_solver.
  - intros t th Ht. destruct (Hth t th Ht) as [->| ->]; unfold subs_at; cbn;
      (split_and!; [apply NoDup_nil_2|done|set_solver|done|done]).
  - split; [by eexists|set_solver].
Qed.

Definition after (f : MtFrame) (e : event) : MtFrame :=
  match sched_step f e with Ok f' => f' | _ => f end.

Lemma after_ok primo f e : frame_ok primo f -> event_ok primo f e -> frame_ok primo (after f e).
Proof. intros Hok He. destruct (sched_step_ok _ _ _ Hok He) as (f' & E & Hok'). unfold after. by rewrite E. Qed.

Lemma sched_no_thread_lost_witness :
  let f := after frame0 (ESleep 100 50) in
  exists es, wf (_sleeplist f) es /\ NoDup (places f es (running f)).
Proof.
  destruct (sched_no_thread_lost 2 frame0 (after frame0 (ESleep 100 50)) frame0_ok) as [(es & Hwf & Hnd & _) _].
  - apply (reach_step 2 frame0 (ESleep 100 50) (after frame0 (ESleep 100 50))); [discriminate| |constructor].
    vm_compute. reflexivity.
  - exists es. by split.
Defined.

Lemma wakeup_timeout_correct_witness :
  exists es f' log, WakeupTimeout (after frame0 (ESleep 100 50)) 200 = Ok f' /\
    log ≡ₚ filter (fun t => HeapValue (threads (after frame0 (ESleep 100 50))) t <= 200) es.
Proof.
  set (f := after frame0 (ESleep 100 50)).
  assert (frame_ok 2 f) as [es Hc] by (apply after_ok; [exact frame0_ok|discriminate]).
  assert (length es = 1%nat) as Hlen.
  { pose proof (c_wf _ _ _ _ _ Hc) as (_ & Hcount & _).
    assert (_count (_sleeplist f) = 1) as E by (vm_compute; reflexivity). lia. }
  destruct (wakeup_timeout_correct 2 f es 200 Hc) as (f' & es' & log & E & _ & _ & Hlog & _).
  - intros k Hk a b Ha Hb. apply lookup_lt_Some in Hb. lia.
  - exists es, f', log. by split.
Defined.

Lemma last_sub_wakes_parent_witness :
  let f := after frame0 (EExecAll [Some 7]) in
  exists f' l, Run_end f = Ok f' /\ (7 :: l ≡ₚ [7]) /\
    if decide (l = []) then 2 = _curr_thread f' \/ 2 ∈ _runlist f' else 2 ∈ _pend_list f'.
Proof.
  intros f. assert (frame_ok 2 f) as Hok.
  { apply after_ok; [exact frame0_ok|]. split; [discriminate|]. split; [apply NoDup_singleton|].
    intros t. cbn. intros ->%list_elem_of_singleton. vm_compute. reflexivity. }
  assert (exists th thp, threads f !! 7 = Some th /\ _type th = SUB_THREAD /\ _parent th = Some 2 /\
    threads f !! 2 = Some thp /\ _sub_list thp = [7]) as (th & thp & H1 & H2 & H3 & H4 & H5).
  { eexists _, _. split_and!; vm_compute; reflexivity. }
  destruct (last_sub_wakes_parent 2 f th 2 thp Hok) as (f' & l & E & Hl & Hplace);
    [vm_compute; discriminate|vm_compute; discriminate|exact H1|done..|].
  exists f', l. split; [exact E|]. split; [by rewrite <- H5|]. exact Hplace.
Defined.

(** ** Findings *)

Fixpoint run_events (f : MtFrame) (es : list event) : res MtFrame :=
  match es with
  | [] => Ok f
  | e :: es => let* f := sched_step f e in run_events f es
  end.

Definition frame1 : MtFrame :=
  mkFrame {[1 := new_thread DAEMON; 2 := new_thread PRIMORDIAL]} [] [] []
    (mkHeap (replicate 16 None) 15 0 ∅) 1 2 0 [] 1 1 14 5000.

(** An event for a thread in the middle of the heap can leave the heap out of
    order: thread 9 is due at 3, and is not woken up at 4. *)
Example due_thread_not_woken :
  match run_events frame1
    ([EStart (Some 3); EStart (Some 4); EStart (Some 5); EStart (Some 6); EStart (Some 7);
      EStart (Some 8); EStart (Some 9); ESwap; EDaemonSwitch;
      EWaitNotify 0 1; EWaitNotify 0 10; EWaitNotify 0 2; EWaitNotify 0 11; EWaitNotify 0 12;
      EWaitNotify 0 5; EWaitNotify 0 3; ESwap; EIo 6; EWakeup 1; EWakeup 2; EWakeup 4]) with
  | Ok f => _runlist f = [2; 6; 3; 5] /\ HeapValue (threads f) 9 = 3 /\ 9 ∈ _iolist f
  | _ => False
  end.
Proof. vm_compute. split_and!; [done..|]. repeat first [left; reflexivity|right]. Qed.
