(* ===== verification/SkCache.v ===== *)
(** * Socket buffers of the user space threads

    [src/adapter/micro_thread/mt_cache.cpp]: a pool of buffers of one size, and
    caches of bytes that wait to be sent or read, kept in a list of such
    buffers.

    A buffer is owned by one list at a time, so that a list of pointers is a
    list of buffers; [head] is the start of the memory of a buffer, and [data]
    and [end] are offsets from it.  What [malloc] answers, the time and the
    results of the socket calls are arguments. *)

From S2P Require Import Prelude.

Module SkCache.

(** ** Memory *)

Definition mem_read (m : list Z) (off n : Z) : res (list Z) :=
  if decide (0 <= off /\ 0 <= n /\ off + n <= Z.of_nat (length m))
  then Ok (take (Z.to_nat n) (drop (Z.to_nat off) m)) else Panic.

Definition mem_write (m : list Z) (off : Z) (bs : list Z) : res (list Z) :=
  if decide (0 <= off /\ off + Z.of_nat (length bs) <= Z.of_nat (length m))
  then Ok (take (Z.to_nat off) m ++ bs ++ drop (Z.to_nat off + length bs) m) else Panic.

(** ** Buffers *)

Record TSkBuffer := mkBuf {
  last_time : Z;
  size : Z;
  buff : list Z;
  data : Z;
  data_len : Z
}.

Definition set_data (b : TSkBuffer) (m : list Z) (d n : Z) : TSkBuffer :=
  mkBuf (last_time b) (size b) m d n.

(** [sizeof(TSkBuffer)]: two links, two times 32 bits, three pointers and the
    length with its padding. *)
Definition sizeof_TSkBuffer : Z := 56.
Definition SK_DFLT_ALIGN_SIZE : Z := 8.

Definition new_sk_buffer (malloc_ok : bool) (sz : Z) : option TSkBuffer :=
  let total := u32 (sizeof_TSkBuffer + sz) in
  let total := u32 (total + SK_DFLT_ALIGN_SIZE - 1) / SK_DFLT_ALIGN_SIZE * SK_DFLT_ALIGN_SIZE in
  if malloc_ok
  then Some (mkBuf 0 sz (replicate (Z.to_nat (total - sizeof_TSkBuffer)) 0) 0 0)
  else None.

Definition reserve_sk_buffer (malloc_ok : bool) (b : option TSkBuffer) (sz : Z) : res (option TSkBuffer) :=
  match b with
  | None => Ok (new_sk_buffer malloc_ok sz)
  | Some b =>
      if sz <=? size b then Ok (Some b)
      else
        match new_sk_buffer malloc_ok sz with
        | None => Ok (Some b)
        | Some nb =>
            let* bs := mem_read (buff b) (data b) (data_len b) in
            let* m := mem_write (buff nb) (data nb) bs in
            Ok (Some (set_data nb m (data nb) (data_len b)))
        end
  end.

(** ** The pool *)

Record TSkBuffMng := mkMng {
  free_list : list TSkBuffer;
  expired : Z;
  m_size : Z;
  m_count : Z
}.

Definition sk_buffer_mng_init (exp sz : Z) : TSkBuffMng := mkMng [] exp sz 0.

Definition sk_buffer_mng_destroy (mng : TSkBuffMng) : TSkBuffMng :=
  mkMng [] (expired mng) (m_size mng) 0.

Definition alloc_sk_buffer (malloc_ok : bool) (mng : TSkBuffMng) : TSkBuffMng * option TSkBuffer :=
  match free_list mng with
  | item :: l => (mkMng l (expired mng) (m_size mng) (u32 (m_count mng - 1)), Some item)
  | [] => (mng, new_sk_buffer malloc_ok (m_size mng))
  end.

(** [now] is [mt_time_ms()]. *)
Definition free_sk_buffer (now : Z) (mng : TSkBuffMng) (b : TSkBuffer) : TSkBuffMng :=
  mkMng (free_list mng ++ [mkBuf (u32 (now / 1000)) (size b) (buff b) 0 0])
    (expired mng) (m_size mng) (u32 (m_count mng + 1)).

Fixpoint recycle_loop (exp now : Z) (l : list TSkBuffer) (count : Z) : list TSkBuffer * Z :=
  match l with
  | [] => ([], count)
  | item :: l' =>
      if u32 (now - last_time item) <? exp then (l, count)
      else recycle_loop exp now l' (u32 (count - 1))
  end.

Definition recycle_sk_buffer (mng : TSkBuffMng) (now : Z) : TSkBuffMng :=
  let '(l, count) := recycle_loop (expired mng) now (free_list mng) (m_count mng) in
  mkMng l (expired mng) (m_size mng) count.

(** ** Caches *)

(** [pool] says whether the pointer to the pool is set; the pool itself is
    shared between caches and passed along. *)
Record TRWCache := mkCache {
  clist : list TSkBuffer;
  len : Z;
  count : Z;
  pool : bool
}.

Definition rw_cache_init : TRWCache := mkCache [] 0 0 true.

Fixpoint free_all (now : Z) (mng : TSkBuffMng) (l : list TSkBuffer) : TSkBuffMng :=
  match l with
  | [] => mng
  | item :: l => free_all now (free_sk_buffer now mng item) l
  end.

Definition rw_cache_destroy (now : Z) (c : TRWCache) (mng : TSkBuffMng) : TRWCache * TSkBuffMng :=
  if pool c then (mkCache [] 0 0 false, free_all now mng (clist c)) else (c, mng).

(** The loop of [cache_copy_out]: the buffers left, the pool, the count, what
    is still wanted and the bytes copied.  Without a place to copy to
    ([out = false]) nothing is read. *)
Fixpoint copy_out_loop (now : Z) (out : bool) (l : list TSkBuffer) (mng : TSkBuffMng) (cnt lft : Z)
  : res (list TSkBuffer * TSkBuffMng * Z * Z * list Z) :=
  match l with
  | [] => Ok ([], mng, cnt, lft, [])
  | item :: l' =>
      let skip_len := if lft <? data_len item then lft else data_len item in
      let* bs := if out then mem_read (buff item) (data item) skip_len else Ok [] in
      let lft := u32 (lft - skip_len) in
      let item := set_data item (buff item) (data item + skip_len) (u32 (data_len item - skip_len)) in
      if 0 <? data_len item then Ok (item :: l', mng, cnt, lft, bs)
      else
        let cnt := if 0 <? cnt then cnt - 1 else cnt in
        let mng := free_sk_buffer now mng item in
        if lft =? 0 then Ok (l', mng, cnt, lft, bs)
        else
          let* (l2, mng, cnt, lft, bs2) := copy_out_loop now out l' mng cnt lft in
          Ok (l2, mng, cnt, lft, bs ++ bs2)
  end.

Definition cache_copy_out (now : Z) (c : TRWCache) (mng : TSkBuffMng) (out : bool) (n : Z)
  : res (TRWCache * TSkBuffMng * list Z * Z) :=
  if pool c then
    let* (l, mng, cnt, lft, bs) := copy_out_loop now out (clist c) mng (count c) n in
    let skip_len := u32 (n - lft) in
    let len' := if skip_len <? len c then len c - skip_len else 0 in
    Ok (mkCache l len' cnt (pool c), mng, bs, skip_len)
  else Ok (c, mng, [], 0).

Definition cache_skip_data (now : Z) (c : TRWCache) (mng : TSkBuffMng) (n : Z) : res (TRWCache * TSkBuffMng) :=
  let* (c, mng, _, _) := cache_copy_out now c mng false n in Ok (c, mng).

Definition cache_append_buffer (c : TRWCache) (b : TSkBuffer) : TRWCache :=
  mkCache (clist c ++ [b]) (u32 (len c + data_len b)) (u32 (count c + 1)) (pool c).

Definition cache_skip_first_buffer (c : TRWCache) : TRWCache * option TSkBuffer :=
  match clist c with
  | [] => (c, None)
  | b :: l =>
      (mkCache l (if data_len b <=? len c then len c - data_len b else len c)
         (if 0 <? count c then count c - 1 else count c) (pool c), Some b)
  end.

(** [cache_append_buffer] of an empty buffer that is filled afterwards. *)
Definition append_filled (c : TRWCache) (item : TSkBuffer) (m : list Z) (n : Z) : TRWCache :=
  mkCache (clist c ++ [set_data item m (data item) n]) (u32 (len c + data_len item))
    (u32 (count c + 1)) (pool c).

(** The loop of [cache_append_data] that fills new buffers with [bs], the bytes
    that do not fit into the last one; [malloc k] is the answer of the [k]-th
    allocation.  [None]: out of memory, the new buffers are back in the pool. *)
Fixpoint append_loop (malloc : nat -> bool) (now : Z) (fuel k : nat) (keep : TRWCache) (mng : TSkBuffMng)
    (bs : list Z) : res (option TRWCache * TSkBuffMng) :=
  match fuel with
  | O => NoFuel
  | S fuel' =>
      let lft := Z.of_nat (length bs) in
      if 0 <? lft then
        let '(mng, item) := alloc_sk_buffer (malloc k) mng in
        match item with
        | None => Ok (None, snd (rw_cache_destroy now keep mng))
        | Some item =>
            if lft <=? size item then
              let* m := mem_write (buff item) 0 bs in
              Ok (Some (append_filled keep item m lft), mng)
            else
              let* m := mem_write (buff item) 0 (take (Z.to_nat (size item)) bs) in
              append_loop malloc now fuel' (S k) (append_filled keep item m (size item)) mng
                (drop (Z.to_nat (size item)) bs)
        end
      else Ok (Some keep, mng)
  end.

(** The free room at the end of the last buffer. *)
Definition tail_remain (l : list TSkBuffer) : Z :=
  match last l with
  | None => 0
  | Some t => if data t + data_len t <? size t then u32 (size t - data t - data_len t) else 0
  end.

(** [memcpy] to the end of the last buffer. *)
Definition tail_write (l : list TSkBuffer) (bs : list Z) : res (list TSkBuffer) :=
  match last l with
  | None => Ok l
  | Some t =>
      let* m := mem_write (buff t) (data t + data_len t) bs in
      Ok (removelast l ++ [set_data t m (data t) (u32 (data_len t + Z.of_nat (length bs)))])
  end.

Definition cache_append_data (malloc : nat -> bool) (now : Z) (c : TRWCache) (mng : TSkBuffMng) (bs : list Z)
  : res (TRWCache * TSkBuffMng * Z) :=
  let n := Z.of_nat (length bs) in
  if negb (pool c) then Ok (c, mng, -1)
  else if n =? 0 then Ok (c, mng, 0)
  else
    let remain := tail_remain (clist c) in
    if (n <=? remain) && bool_decide (clist c <> []) then
      let* l := tail_write (clist c) bs in
      Ok (mkCache l (u32 (len c + n)) (count c) (pool c), mng, s32 n)
    else
      let rest := drop (Z.to_nat remain) bs in
      let* (keep, mng) := append_loop malloc now (S (length rest)) 0 rw_cache_init mng rest in
      match keep with
      | None => Ok (c, mng, -2)
      | Some keep =>
          let* l := if 0 <? remain then tail_write (clist c) (take (Z.to_nat remain) bs)
                    else Ok (clist c) in
          Ok (mkCache (l ++ clist keep) (u32 (len c + n)) (u32 (count c + count keep)) (pool c), mng, s32 n)
      end.

(** ** Reading without taking out *)

Fixpoint read_data_loop (out : bool) (l : list TSkBuffer) (lft offset : Z) : res (list Z * Z) :=
  match l with
  | [] => Ok ([], offset)
  | item :: l' =>
      let copy_len := if lft <=? data_len item then lft else data_len item in
      let* bs := if out then mem_read (buff item) (data item) copy_len else Ok [] in
      let offset := u32 (offset + copy_len) in
      let lft := u32 (lft - copy_len) in
      if lft <=? 0 then Ok (bs, offset)
      else let* (bs2, offset) := read_data_loop out l' lft offset in Ok (bs ++ bs2, offset)
  end.

Definition read_cache_data (c : TRWCache) (out : bool) (n : Z) : res (list Z * Z) :=
  read_data_loop out (clist c) n 0.

Fixpoint read_begin_loop (out : bool) (l : list TSkBuffer) (pos_left copy_left offset : Z) : res (list Z * Z) :=
  match l with
  | [] => Ok ([], offset)
  | item :: l' =>
      let skip_len := if 0 <? pos_left then (if data_len item <? pos_left then data_len item else pos_left) else 0 in
      let pos_left := u32 (pos_left - skip_len) in
      let real_left := u32 (data_len item - skip_len) in
      if real_left =? 0 then read_begin_loop out l' pos_left copy_left offset
      else
        let copy_len := if real_left <? copy_left then real_left else copy_left in
        let* bs := if out then mem_read (buff item) (data item + skip_len) copy_len else Ok [] in
        let offset := u32 (offset + copy_len) in
        let copy_left := u32 (copy_left - copy_len) in
        if copy_left =? 0 then Ok (bs, offset)
        else let* (bs2, offset) := read_begin_loop out l' pos_left copy_left offset in Ok (bs ++ bs2, offset)
  end.

Definition read_cache_begin (c : TRWCache) (begin : Z) (out : bool) (n : Z) : res (list Z * Z) :=
  if len c <=? begin then Ok ([], 0) else read_begin_loop out (clist c) begin n 0.

Definition get_data_len (c : TRWCache) : Z := len c.
Definition get_block_count (c : TRWCache) : Z := count c.

(** [get_first_block], [get_next_block] and [get_block_data]: the data of the
    blocks one after the other. *)
Fixpoint blocks_data (l : list TSkBuffer) : res (list (list Z)) :=
  match l with
  | [] => Ok []
  | item :: l =>
      let* bs := mem_read (buff item) (data item) (data_len item) in
      let* r := blocks_data l in
      Ok (bs :: r)
  end.

(** ** Sockets *)

Definition EAGAIN : Z := 11.
Definition SK_ERR_NEED_CLOSE : Z := 10000.

(** What [send] and [recv] answer: a number of bytes or the bytes, or [errno]. *)
Inductive snd_res := Sent (n : Z) | SndErr (errno : Z).
Inductive rcv_res := Rcvd (bs : list Z) | RcvErr (errno : Z).

Section Sockets.
Variable send : nat -> list Z -> snd_res.
Variable recv : nat -> Z -> rcv_res.
Variable malloc : nat -> bool.
Variable now : Z.

(** The loop of [cache_tcp_send]: the last answer, the bytes the socket took
    and their number. *)
Fixpoint tcp_send_loop (k : nat) (l : list TSkBuffer) (total : Z) : res (snd_res * Z * list Z) :=
  match l with
  | [] => Ok (Sent 0, total, [])
  | item :: l' =>
      let* bs := mem_read (buff item) (data item) (data_len item) in
      match send k bs with
      | SndErr e => Ok (SndErr e, total, [])
      | Sent n =>
          let total := s32 (total + n) in
          let wire := take (Z.to_nat n) bs in
          if n <? s32 (data_len item) then Ok (Sent n, total, wire)
          else
            let* (r, total, w) := tcp_send_loop (S k) l' total in
            Ok (r, total, wire ++ w)
      end
  end.

Definition cache_tcp_send (c : TRWCache) (mng : TSkBuffMng) : res (TRWCache * TSkBuffMng * Z * list Z) :=
  if negb (pool c) then Ok (c, mng, -1, [])
  else if len c =? 0 then Ok (c, mng, 0, [])
  else
    let* (r, total, wire) := tcp_send_loop 0 (clist c) 0 in
    let* (c, mng) := cache_skip_data now c mng (u32 total) in
    match r with
    | SndErr e => if e =? EAGAIN then Ok (c, mng, total, wire) else Ok (c, mng, -2, wire)
    | Sent _ => Ok (c, mng, total, wire)
    end.

(** [last_send] is the answer to the [send] of the new data. *)
Definition cache_tcp_send_buff (last_send : list Z -> snd_res) (c : TRWCache) (mng : TSkBuffMng) (bs : list Z)
  : res (TRWCache * TSkBuffMng * Z * list Z) :=
  let* (c, mng, ret, wire) := cache_tcp_send c mng in
  if ret <? 0 then Ok (c, mng, ret, wire)
  else
    let r := if len c =? 0 then last_send bs else Sent 0 in
    match r with
    | SndErr e =>
        if e =? EAGAIN then
          let* (c, mng, rc) := cache_append_data malloc now c mng bs in
          Ok (c, mng, if rc <? 0 then -3 else 0, wire)
        else Ok (c, mng, -2, wire)
    | Sent n =>
        let* (c, mng, rc) := cache_append_data malloc now c mng (drop (Z.to_nat n) bs) in
        Ok (c, mng, if rc <? 0 then -3 else n, wire ++ take (Z.to_nat n) bs)
    end.

(** [alloc_sk_buffer(cache->pool)] *)
Definition cache_alloc (k : nat) (c : TRWCache) (mng : TSkBuffMng) : TSkBuffMng * option TSkBuffer :=
  if pool c then alloc_sk_buffer (malloc k) mng else (mng, None).

(** The last buffer, or a new one when it is full. *)
Definition recv_room (k : nat) (c : TRWCache) (mng : TSkBuffMng) : TRWCache * TSkBuffMng * bool :=
  match last (clist c) with
  | Some t =>
      if size t <=? data t + data_len t then
        match cache_alloc k c mng with
        | (mng, Some item) => (cache_append_buffer c item, mng, true)
        | (mng, None) => (c, mng, false)
        end
      else (c, mng, true)
  | None =>
      match cache_alloc k c mng with
      | (mng, Some item) => (cache_append_buffer c item, mng, true)
      | (mng, None) => (c, mng, false)
      end
  end.

Fixpoint tcp_recv_loop (n k : nat) (c : TRWCache) (mng : TSkBuffMng) (total : Z)
  : res (TRWCache * TSkBuffMng * Z) :=
  match n with
  | O => Ok (c, mng, total)
  | S n' =>
      let '(c, mng, ok) := recv_room k c mng in
      if negb ok then Ok (c, mng, -2)
      else
        match last (clist c) with
        | None => Panic
        | Some item =>
            let remain := u32 (size item - data item - data_len item) in
            match recv k remain with
            | RcvErr e => Ok (c, mng, if e =? EAGAIN then total else -2)
            | Rcvd bs =>
                let r := Z.of_nat (length bs) in
                let* l := tail_write (clist c) bs in
                if r =? 0 then Ok (c, mng, - SK_ERR_NEED_CLOSE)
                else
                  let c := mkCache l (u32 (len c + r)) (count c) (pool c) in
                  let total := s32 (total + r) in
                  if r <? s32 remain then Ok (c, mng, total)
                  else tcp_recv_loop n' (S k) c mng total
            end
        end
  end.

Definition cache_tcp_recv (c : TRWCache) (mng : TSkBuffMng) : res (TRWCache * TSkBuffMng * Z) :=
  tcp_recv_loop 100 0 c mng 0.

(** [cache_udp_recv]: one buffer per datagram; [errno] is read after a result of
    0, too: [err0] is its value then. *)
Fixpoint udp_recv_loop (err0 : Z) (n k : nat) (c : TRWCache) (mng : TSkBuffMng) (total : Z)
  : res (TRWCache * TSkBuffMng * Z) :=
  match n with
  | O => Ok (c, mng, total)
  | S n' =>
      match cache_alloc k c mng with
      | (mng, None) => Ok (c, mng, -2)
      | (mng, Some item) =>
          let failed e := let mng := free_sk_buffer now mng item in
            if e =? EAGAIN then Ok (c, mng, total) else Ok (c, mng, -3) in
          match recv k (size item) with
          | RcvErr e => failed e
          | Rcvd bs =>
              let* m := mem_write (buff item) (data item) bs in
              let r := Z.of_nat (length bs) in
              if r =? 0 then failed err0
              else
                let item := set_data item m (data item) (u32 (data_len item + r)) in
                udp_recv_loop err0 n' (S k) (cache_append_buffer c item) mng (s32 (total + r))
          end
      end
  end.

Definition cache_udp_recv (err0 : Z) (c : TRWCache) (mng : TSkBuffMng) : res (TRWCache * TSkBuffMng * Z) :=
  udp_recv_loop err0 100 0 c mng 0.
End Sockets.

End SkCache.
