(* ===== verification/SkCacheProofs.v ===== *)
(** * Socket buffers: proofs

    A cache is a queue of bytes: what was appended and not yet taken out, in
    order.  Buffers go back and forth between the caches and the pool. *)

From S2P Require Import Prelude SkCache.
Import SkCache.

(** ** Memory *)

Lemma mem_read_ok m off n :
  0 <= off -> 0 <= n -> off + n <= Z.of_nat (length m) ->
  mem_read m off n = Ok (take (Z.to_nat n) (drop (Z.to_nat off) m)).
Proof. intros. unfold mem_read. by rewrite decide_True. Qed.

Lemma mem_write_ok m off bs :
  0 <= off -> off + Z.of_nat (length bs) <= Z.of_nat (length m) ->
  exists m', mem_write m off bs = Ok m' /\ length m' = length m /\
    forall p n, p + n = off -> 0 <= p -> 0 <= n ->
      take (Z.to_nat (n + Z.of_nat (length bs))) (drop (Z.to_nat p) m') =
      take (Z.to_nat n) (drop (Z.to_nat p) m) ++ bs.
Proof.
  intros Hoff Hlen. eexists. unfold mem_write. rewrite decide_True by done. split; [done|].
  split; [rewrite !length_app, length_take, length_drop; lia|].
  intros p n Hpn Hp Hn. rewrite drop_app_le by (rewrite length_take; lia).
  replace (drop (Z.to_nat p) (take (Z.to_nat off) m)) with (take (Z.to_nat n) (drop (Z.to_nat p) m)).
  2: { rewrite take_drop_commute. f_equal. f_equal. lia. }
  rewrite take_app_ge by (rewrite length_take, length_drop; lia). f_equal.
  rewrite length_take, length_drop.
  replace (Z.to_nat (n + Z.of_nat (length bs)) - _)%nat with (length bs) by lia.
  by rewrite take_app_length.
Qed.

(** ** Buffers and the pool *)

Definition buf_ok (b : TSkBuffer) : Prop :=
  0 <= data b /\ 0 <= data_len b /\ data b + data_len b <= size b /\
  size b <= Z.of_nat (length (buff b)) /\ 0 < size b < 2 ^ 31.

Definition bytes (b : TSkBuffer) : list Z :=
  take (Z.to_nat (data_len b)) (drop (Z.to_nat (data b)) (buff b)).

Definition contents (l : list TSkBuffer) : list Z := concat (bytes <$> l).

Definition free_ok (b : TSkBuffer) : Prop := buf_ok b /\ data b = 0 /\ data_len b = 0.

Definition mng_ok (mng : TSkBuffMng) : Prop :=
  Forall free_ok (free_list mng) /\ m_count mng = u32 (Z.of_nat (length (free_list mng))) /\
  0 < m_size mng < 2 ^ 31.

Lemma bytes_length b : buf_ok b -> Z.of_nat (length (bytes b)) = data_len b.
Proof. intros (? & ? & ? & ? & ?). unfold bytes. rewrite length_take, length_drop. lia. Qed.

Lemma contents_cons b l : contents (b :: l) = bytes b ++ contents l.
Proof. done. Qed.

Lemma contents_singleton b : contents [b] = bytes b.
Proof. unfold contents. cbn. apply app_nil_r. Qed.

Lemma contents_app l1 l2 : contents (l1 ++ l2) = contents l1 ++ contents l2.
Proof. unfold contents. by rewrite fmap_app, concat_app. Qed.

Lemma new_sk_buffer_ok malloc_ok sz b :
  0 < sz < 2 ^ 31 -> new_sk_buffer malloc_ok sz = Some b -> free_ok b /\ size b = sz.
Proof.
  intros Hsz. unfold new_sk_buffer. destruct malloc_ok; [|done]. intros [= <-].
  unfold free_ok, buf_ok. cbn [data data_len size buff]. rewrite length_replicate.
  unfold sizeof_TSkBuffer, SK_DFLT_ALIGN_SIZE.
  rewrite (wrapu_small 32 (56 + sz)), (wrapu_small 32) by lia.
  pose proof (Z.div_mod (56 + sz + 8 - 1) 8 ltac:(lia)).
  pose proof (Z.mod_pos_bound (56 + sz + 8 - 1) 8 ltac:(lia)). split_and!; lia.
Qed.

Lemma alloc_sk_spec malloc_ok mng :
  mng_ok mng ->
  let '(mng', item) := alloc_sk_buffer malloc_ok mng in
  mng_ok mng' /\ m_size mng' = m_size mng /\
  match item with Some b => free_ok b | None => malloc_ok = false /\ mng' = mng /\ free_list mng = [] end.
Proof.
  intros (Hf & Hc & Hs). unfold alloc_sk_buffer. destruct (free_list mng) as [|b l] eqn:El.
  - split; [unfold mng_ok; by rewrite El|]. split; [done|].
    destruct (new_sk_buffer malloc_ok (m_size mng)) as [b|] eqn:E; [by apply new_sk_buffer_ok in E as [? _]|].
    unfold new_sk_buffer in E. by destruct malloc_ok.
  - apply Forall_cons in Hf as [Hb Hl]. split; [|done]. split; [done|]. split; [|done].
    cbn [m_count free_list]. rewrite Hc. simpl length. unfold wrapu.
    rewrite Zminus_mod_idemp_l. f_equal. lia.
Qed.

Lemma free_sk_spec now mng b :
  mng_ok mng -> buf_ok b ->
  mng_ok (free_sk_buffer now mng b) /\ m_size (free_sk_buffer now mng b) = m_size mng /\
  length (free_list (free_sk_buffer now mng b)) = S (length (free_list mng)).
Proof.
  intros (Hf & Hc & Hs) Hb. unfold free_sk_buffer. cbn [m_size free_list].
  split; [|split; [done|rewrite length_app; simpl; lia]]. split; [|split; [|done]].
  - cbn [free_list]. apply Forall_app. split; [done|]. apply Forall_singleton.
    destruct Hb as (? & ? & ? & ? & ?). unfold free_ok, buf_ok. cbn. split_and!; lia.
  - cbn [m_count free_list]. rewrite Hc, length_app. simpl length. unfold wrapu.
    rewrite Zplus_mod_idemp_l. f_equal. lia.
Qed.

Lemma free_all_spec now l : forall mng,
  mng_ok mng -> Forall buf_ok l ->
  mng_ok (free_all now mng l) /\ m_size (free_all now mng l) = m_size mng /\
  length (free_list (free_all now mng l)) = (length (free_list mng) + length l)%nat.
Proof.
  induction l as [|b l IH]; intros mng Hm Hl; cbn [free_all]; [split_and!; try done; simpl; lia|].
  apply Forall_cons in Hl as [Hb Hl]. destruct (free_sk_spec now mng b Hm Hb) as (H1 & H2 & H3).
  destruct (IH _ H1 Hl) as (H4 & H5 & H6). split_and!; [done|congruence|]. rewrite H6, H3. simpl. lia.
Qed.

(** ** Taking bytes out *)

Lemma skip_bytes b n :
  buf_ok b -> 0 <= n <= data_len b ->
  let b' := set_data b (buff b) (data b + n) (data_len b - n) in
  buf_ok b' /\ bytes b' = drop (Z.to_nat n) (bytes b).
Proof.
  intros (? & ? & ? & ? & ?) Hn b'. split; [unfold buf_ok; cbn; lia|].
  unfold bytes, b'. cbn. rewrite skipn_firstn_comm, drop_drop. f_equal; [lia|]. f_equal. lia.
Qed.

Lemma copy_out_spec now out l : forall mng cnt lft,
  Forall buf_ok l -> mng_ok mng -> 0 <= lft < 2 ^ 32 -> Z.of_nat (length l) <= cnt ->
  exists l' mng' bs k,
    copy_out_loop now out l mng cnt lft =
      Ok (l', mng', cnt - Z.of_nat k, lft - Z.min lft (Z.of_nat (length (contents l))), bs) /\
    Forall buf_ok l' /\ mng_ok mng' /\ m_size mng' = m_size mng /\
    (length l' + k = length l)%nat /\ (length (free_list mng') = length (free_list mng) + k)%nat /\
    bs = (if out then take (Z.to_nat lft) (contents l) else []) /\
    contents l' = drop (Z.to_nat lft) (contents l).
Proof.
  induction l as [|b l IH]; intros mng cnt lft Hl Hm Hlft Hcnt; cbn [copy_out_loop].
  { exists [], mng, [], 0%nat. unfold contents. cbn. rewrite take_nil, drop_nil, Z.min_r, !Z.sub_0_r by lia.
    split_and!; try done; by destruct out. }
  apply Forall_cons in Hl as [Hb Hl]. pose proof (bytes_length b Hb) as Hbl.
  pose proof Hb as (B1 & B2 & B3 & B4 & B5).
  set (skip := if lft <? data_len b then lft else data_len b).
  assert (skip = Z.min lft (data_len b)) as Hskip by (unfold skip; destruct (Z.ltb_spec lft (data_len b)); lia).
  assert ((if out then mem_read (buff b) (data b) skip else Ok []) =
    Ok (if out then take (Z.to_nat skip) (bytes b) else [])) as ->.
  { destruct out; [|done]. rewrite mem_read_ok by lia. f_equal. unfold bytes. rewrite take_take. f_equal. lia. }
  cbn [res_bind]. rewrite !(wrapu_small 32) by lia.
  destruct (skip_bytes b skip Hb ltac:(lia)) as [Hb' Hbs']. cbn [data_len set_data].
  rewrite contents_cons, length_app. clearbody skip.
  destruct (Z.ltb_spec 0 (data_len b - skip)) as [Hgt|Hle].
  - assert (skip = lft) as -> by lia.
    eexists _, mng, _, 0%nat. rewrite Z.sub_0_r, (Z.min_l lft) by lia.
    split; [done|]. split_and!; try done; try (simpl; lia); [by constructor| |].
    + destruct out; [|done]. by rewrite take_app_le by lia.
    + rewrite contents_cons, drop_app_le by lia. by rewrite Hbs'.
  - assert (skip = data_len b) as -> by lia.
    rewrite (proj2 (Z.ltb_lt 0 cnt)) by (simpl in Hcnt; lia).
    destruct (free_sk_spec now mng _ Hm Hb') as (Hm' & Hms' & Hml').
    match type of Hm' with mng_ok ?g => set (mng1 := g) in * end.
    fold mng1. clearbody mng1.
    destruct (Z.eqb_spec (lft - data_len b) 0) as [E0|E0].
    + eexists l, mng1, _, 1%nat. rewrite (Z.min_l lft) by lia. replace lft with (data_len b) by lia.
      split; [do 5 f_equal; lia|]. split_and!; try done; try (simpl in *; lia).
      * destruct out; [|done]. rewrite take_app_le, !take_ge by lia. done.
      * rewrite drop_app_ge by lia. replace (_ - _)%nat with 0%nat by lia. done.
    + destruct (IH mng1 (cnt - 1) (lft - data_len b) Hl Hm' ltac:(lia) ltac:(simpl in Hcnt; lia))
        as (l' & mng' & bs & k & -> & Hl' & Hm2 & Hms2 & Hk & Hml & Hbs & Hcon).
      cbn [res_bind]. eexists l', mng', _, (S k).
      replace (cnt - Z.of_nat (S k)) with (cnt - 1 - Z.of_nat k) by lia.
      replace (lft - Z.min lft _) with (lft - data_len b - Z.min (lft - data_len b) (Z.of_nat (length (contents l)))) by lia.
      split; [done|]. split_and!; try done; try (simpl in *; lia).
      * subst bs. destruct out; [|done]. rewrite (take_app_ge (bytes b)) by lia.
        rewrite take_ge by lia. do 2 f_equal. lia.
      * rewrite Hcon, drop_app_ge by lia. f_equal. lia.
Qed.

(** ** Putting bytes in *)

Lemma tail_write_spec l t bs :
  Forall buf_ok l -> last l = Some t -> Z.of_nat (length bs) <= size t - data t - data_len t ->
  exists l', tail_write l bs = Ok l' /\ Forall buf_ok l' /\ contents l' = contents l ++ bs /\
    length l' = length l.
Proof.
  intros Hl Ht Hn. unfold tail_write. rewrite Ht. destruct l as [|t' l _] using rev_ind; [done|].
  rewrite last_snoc in Ht. injection Ht as ->. apply Forall_app in Hl as [Hl Hb].
  rewrite Forall_singleton in Hb. pose proof Hb as (B1 & B2 & B3 & B4 & B5).
  destruct (mem_write_ok (buff t) (data t + data_len t) bs) as (m & -> & Hm & Hr); [lia|lia|].
  cbn [res_bind]. eexists. split; [done|]. rewrite removelast_last, (wrapu_small 32) by lia. split_and!.
  - apply Forall_app. split; [done|]. apply Forall_singleton. unfold buf_ok. cbn. lia.
  - rewrite !contents_app, <-app_assoc. f_equal. rewrite !contents_singleton. unfold bytes. cbn [data_len data buff set_data]. apply Hr; lia.
  - by rewrite !length_app.
Qed.

Definition keep_ok (keep : TRWCache) : Prop :=
  Forall buf_ok (clist keep) /\ pool keep = true /\ count keep = Z.of_nat (length (clist keep)).

Lemma append_filled_spec keep item m bs :
  keep_ok keep -> free_ok item -> mem_write (buff item) 0 bs = Ok m -> Z.of_nat (length bs) <= size item ->
  Z.of_nat (length (clist keep)) + 1 < 2 ^ 32 ->
  let keep' := append_filled keep item m (Z.of_nat (length bs)) in
  keep_ok keep' /\ contents (clist keep') = contents (clist keep) ++ bs /\
  length (clist keep') = S (length (clist keep)).
Proof.
  intros (Hl & Hp & Hc) (Hb & Hd & Hdl) Hm Hn Hlen. pose proof Hb as (B1 & B2 & B3 & B4 & B5).
  destruct (mem_write_ok (buff item) 0 bs) as (m' & Hm' & Hml & Hr); [lia|lia|].
  rewrite Hm in Hm'. injection Hm' as <-. unfold keep_ok. cbn [append_filled clist pool count]. split_and!.
  - apply Forall_app. split; [done|]. apply Forall_singleton. unfold buf_ok. cbn. lia.
  - done.
  - rewrite Hc, wrapu_small, length_app by lia. simpl. lia.
  - rewrite contents_app. f_equal. rewrite contents_singleton, Hd. unfold bytes. cbn.
    specialize (Hr 0 0 ltac:(lia) ltac:(lia) ltac:(lia)). by rewrite drop_0 in Hr.
  - rewrite length_app. simpl. lia.
Qed.

Lemma alloc_length malloc_ok mng :
  (length (free_list mng) <= length (free_list (fst (alloc_sk_buffer malloc_ok mng))) + 1)%nat.
Proof. unfold alloc_sk_buffer. destruct (free_list mng) eqn:E; cbn [fst free_list]; rewrite ?E; simpl; lia. Qed.

Lemma append_loop_spec malloc now fuel : forall k keep mng bs,
  (length bs < fuel)%nat -> keep_ok keep -> mng_ok mng ->
  Z.of_nat (length (clist keep)) + Z.of_nat (length bs) < 2 ^ 32 ->
  exists keep' mng', append_loop malloc now fuel k keep mng bs = Ok (keep', mng') /\
    mng_ok mng' /\ m_size mng' = m_size mng /\
    match keep' with
    | Some keep' => keep_ok keep' /\ contents (clist keep') = contents (clist keep) ++ bs /\
        (length (clist keep') <= length (clist keep) + length bs)%nat /\
        (length (free_list mng) <= length (free_list mng') + length bs)%nat
    | None => (exists i, (k + length (free_list mng) <= i < k + length bs)%nat /\ malloc i = false) /\
        (length (free_list mng) + length (clist keep) <= length (free_list mng'))%nat
    end.
Proof.
  induction fuel as [|fuel IH]; intros k keep mng bs Hf Hk Hm Hlen; [lia|]. cbn [append_loop].
  destruct (Z.ltb_spec 0 (Z.of_nat (length bs))) as [Hpos|Hz].
  2: { exists (Some keep), mng. destruct bs; [|simpl in *; lia]. rewrite app_nil_r. split_and!; try done; lia. }
  pose proof (alloc_sk_spec (malloc k) mng Hm) as Ha. pose proof (alloc_length (malloc k) mng) as Hal.
  destruct (alloc_sk_buffer (malloc k) mng) as [mng1 [item|]].
  2: { destruct Ha as (Hm1 & Hs1 & Hk0 & -> & Hfree). pose proof Hk as (Hk1 & Hk2 & _).
    unfold rw_cache_destroy. rewrite Hk2. destruct (free_all_spec now (clist keep) mng Hm Hk1) as (? & ? & ?).
    eexists None, _. cbn [snd]. split_and!; try done; [exists k; split; [rewrite Hfree; simpl; lia|done]|lia]. }
  destruct Ha as (Hm1 & Hs1 & Hi). pose proof Hi as ((B1 & B2 & B3 & B4 & B5) & _).
  destruct (Z.leb_spec (Z.of_nat (length bs)) (size item)) as [Hle|Hgt].
  - destruct (mem_write_ok (buff item) 0 bs) as (m & Hw & _); [lia|lia|]. rewrite Hw. cbn [res_bind].
    destruct (append_filled_spec keep item m bs Hk Hi Hw Hle ltac:(lia)) as (? & ? & ?).
    eexists (Some _), _. split; [done|]. cbn [fst] in Hal. split_and!; try done; lia.
  - set (bs1 := take (Z.to_nat (size item)) bs).
    assert (Z.of_nat (length bs1) = size item) as Hl1 by (unfold bs1; rewrite length_take; lia).
    destruct (mem_write_ok (buff item) 0 bs1) as (m & Hw & _); [lia|lia|]. rewrite Hw. cbn [res_bind].
    destruct (append_filled_spec keep item m bs1 Hk Hi Hw ltac:(lia) ltac:(lia)) as (Hk' & Hc' & Hl').
    rewrite Hl1 in Hk', Hc', Hl'.
    destruct (IH (S k) _ mng1 (drop (Z.to_nat (size item)) bs) ltac:(rewrite length_drop; lia) Hk' Hm1
      ltac:(rewrite Hl', length_drop; lia)) as (keep' & mng' & -> & Hm2 & Hs2 & Hr).
    eexists keep', mng'. split; [done|]. split; [done|]. split; [congruence|]. rewrite Hl', length_drop in Hr.
    destruct keep' as [keep'|].
    + destruct Hr as (? & Hc2 & ? & ?). cbn [fst] in Hal. split_and!; [done| |lia|lia]. rewrite Hc2, Hc', <-app_assoc. f_equal.
      apply take_drop.
    + destruct Hr as ((i & Hi1 & Hi2) & Hr). cbn [fst] in Hal. split; [exists i; split; [lia|done]|lia].
Qed.

Definition cache_ok (c : TRWCache) : Prop :=
  keep_ok c /\ len c = Z.of_nat (length (contents (clist c))).

Lemma tail_remain_spec l :
  Forall buf_ok l ->
  match last l with
  | Some t => tail_remain l = size t - data t - data_len t /\ 0 <= tail_remain l
  | None => tail_remain l = 0 /\ l = []
  end.
Proof.
  intros Hl. unfold tail_remain. destruct (last l) as [t|] eqn:E.
  - apply last_Some in E as [l0 ->]. apply Forall_app in Hl as [_ Ht]. rewrite Forall_singleton in Ht.
    destruct Ht as (? & ? & ? & ? & ?).
    destruct (Z.ltb_spec (data t + data_len t) (size t)); [rewrite wrapu_small|]; lia.
  - by apply last_None in E.
Qed.

Lemma init_cache_ok : cache_ok rw_cache_init.
Proof. split; [|done]. by split_and!. Qed.

Lemma cache_append_data_spec malloc now c mng bs :
  cache_ok c -> mng_ok mng ->
  len c + Z.of_nat (length bs) < 2 ^ 31 ->
  Z.of_nat (length (clist c)) + Z.of_nat (length bs) < 2 ^ 31 ->
  exists c' mng' r, cache_append_data malloc now c mng bs = Ok (c', mng', r) /\
    cache_ok c' /\ mng_ok mng' /\ m_size mng' = m_size mng /\
    (r = Z.of_nat (length bs) /\ contents (clist c') = contents (clist c) ++ bs /\
       (length (clist c') <= length (clist c) + length bs)%nat /\
       (length (free_list mng) <= length (free_list mng') + length bs)%nat \/
     r = -2 /\ c' = c /\ (length (free_list mng) <= length (free_list mng'))%nat /\
       exists i, (length (free_list mng) <= i < length bs)%nat /\ malloc i = false).
Proof.
  intros Hc Hm Hn Hcnt. pose proof Hc as ((Hl & Hp & Hk) & Hlen). unfold cache_append_data. rewrite Hp. cbn [negb].
  destruct (Z.eqb_spec (Z.of_nat (length bs)) 0) as [E0|E0].
  { destruct bs; [|simpl in *; lia]. exists c, mng, 0. rewrite app_nil_r. split_and!; try done. left. split_and!; done || lia. }
  rewrite wraps_small by lia. pose proof (tail_remain_spec _ Hl) as Hr.
  set (remain := tail_remain (clist c)) in *. clearbody remain.
  rewrite (wrapu_small 32 (len c + _)) by lia.
  destruct (Z.leb_spec (Z.of_nat (length bs)) remain) as [Hfit|Hfit]; cbn [andb].
  - destruct (last (clist c)) as [t|] eqn:Et; [|lia]. rewrite bool_decide_eq_true_2 by (by intros E; rewrite E in Et).
    destruct (tail_write_spec _ t bs Hl Et ltac:(lia)) as (l' & -> & Hl' & Hcon & Hll). cbn [res_bind].
    eexists _, mng, _. split; [done|]. unfold cache_ok, keep_ok. cbn [clist pool count len].
    rewrite Hcon, Hll, length_app, Nat2Z.inj_add. split_and!; try done; [lia|]. left. split_and!; [done..|lia|lia].
  - destruct (append_loop_spec malloc now (S (length (drop (Z.to_nat remain) bs))) 0 rw_cache_init mng
      (drop (Z.to_nat remain) bs) ltac:(lia) (proj1 init_cache_ok) Hm ltac:(rewrite length_drop; simpl; lia))
      as (keep & mng' & -> & Hm' & Hs' & Hkeep).
    cbn [res_bind]. destruct keep as [keep|].
    2: { destruct Hkeep as [(i & Hi1 & Hi2) Hfr]. rewrite length_drop in Hi1. exists c, mng', (-2). split_and!; try done. right.
      split_and!; [done..|lia|]. exists i. split; [lia|done]. }
    destruct Hkeep as ((K1 & K2 & K3) & Hkc & Hkl & Hfr). cbn [rw_cache_init clist length] in Hkc, Hkl. rewrite length_drop in Hkl, Hfr.
    assert (exists l', (if 0 <? remain then tail_write (clist c) (take (Z.to_nat remain) bs) else Ok (clist c)) = Ok l' /\
      Forall buf_ok l' /\ contents l' = contents (clist c) ++ take (Z.to_nat remain) bs /\ length l' = length (clist c))
      as (l' & -> & Hl' & Hcon & Hll).
    { destruct (Z.ltb_spec 0 remain) as [Hpos|Hz].
      - destruct (last (clist c)) as [t|] eqn:Et; [|lia]. apply (tail_write_spec _ t); [done..|].
        rewrite length_take. lia.
      - exists (clist c). replace (Z.to_nat remain) with 0%nat by (destruct (last (clist c)); lia).
        by rewrite take_0, app_nil_r. }
    cbn [res_bind]. eexists _, mng', _. split; [done|]. unfold cache_ok, keep_ok. cbn [clist pool count len].
    rewrite contents_app, Hcon, Hkc, <-app_assoc. cbn [contents]. change (contents [] ++ ?x) with x.
    rewrite take_drop, !length_app, !Nat2Z.inj_add, Hll, (wrapu_small 32) by (rewrite ?Hk, K3; lia).
    split_and!; try done; [by apply Forall_app|lia|lia|]. left. split_and!; [done..|lia|lia].
Qed.

Lemma cache_copy_out_spec now c mng out n :
  cache_ok c -> mng_ok mng -> 0 <= n < 2 ^ 32 ->
  exists c' mng', cache_copy_out now c mng out n =
      Ok (c', mng', if out then take (Z.to_nat n) (contents (clist c)) else [], Z.min n (len c)) /\
    cache_ok c' /\ mng_ok mng' /\ m_size mng' = m_size mng /\
    contents (clist c') = drop (Z.to_nat n) (contents (clist c)) /\
    (length (clist c') <= length (clist c))%nat /\ (length (free_list mng) <= length (free_list mng'))%nat.
Proof.
  intros ((Hl & Hp & Hk) & Hlen) Hm Hn. unfold cache_copy_out. rewrite Hp.
  destruct (copy_out_spec now out (clist c) mng (count c) n Hl Hm Hn ltac:(lia))
    as (l' & mng' & bs & k & -> & Hl' & Hm' & Hs & Hkk & Hfr & -> & Hcon).
  cbn [res_bind]. replace (n - (n - _)) with (Z.min n (len c)) by lia. rewrite wrapu_small by lia.
  eexists _, mng'. split; [done|]. unfold cache_ok, keep_ok. cbn [clist pool count len].
  split_and!; try done; [lia| |lia|lia]. rewrite Hcon, length_drop. destruct (Z.ltb_spec (Z.min n (len c)) (len c)); lia.
Qed.

(** ** Reading *)

Lemma read_data_spec out l : forall n off,
  Forall buf_ok l -> 0 <= n < 2 ^ 32 -> 0 <= off -> off + Z.of_nat (length (contents l)) < 2 ^ 32 ->
  read_data_loop out l n off =
    Ok (if out then take (Z.to_nat n) (contents l) else [], off + Z.min n (Z.of_nat (length (contents l)))).
Proof.
  induction l as [|b l IH]; intros n off Hl Hn Hoff Hlen; cbn [read_data_loop].
  { unfold contents. cbn. rewrite take_nil. destruct out; repeat f_equal; lia. }
  apply Forall_cons in Hl as [Hb Hl]. pose proof (bytes_length b Hb) as Hbl.
  pose proof Hb as (B1 & B2 & B3 & B4 & B5). rewrite contents_cons, length_app in *.
  set (cl := if n <=? data_len b then n else data_len b).
  assert (cl = Z.min n (data_len b)) as Hcl by (unfold cl; destruct (Z.leb_spec n (data_len b)); lia).
  clearbody cl.
  assert ((if out then mem_read (buff b) (data b) cl else Ok []) =
    Ok (if out then take (Z.to_nat cl) (bytes b) else [])) as ->.
  { destruct out; [|done]. rewrite mem_read_ok by lia. f_equal. unfold bytes. rewrite take_take. f_equal. lia. }
  cbn [res_bind]. rewrite !(wrapu_small 32) by lia. destruct (Z.leb_spec (n - cl) 0) as [Hz|Hz].
  - assert (cl = n) as -> by lia. rewrite take_app_le by lia. repeat f_equal. lia.
  - assert (cl = data_len b) as -> by lia. rewrite (IH (n - data_len b)) by (done || lia). cbn [res_bind].
    replace (off + data_len b + _) with (off + Z.min n (Z.of_nat (length (bytes b) + length (contents l)))) by lia.
    do 2 f_equal. destruct out; [|done]. rewrite (take_app_ge (bytes b)), (take_ge (bytes b)) by lia.
    do 2 f_equal. lia.
Qed.

Lemma read_begin_spec out l : forall p n off,
  Forall buf_ok l -> 0 <= p < 2 ^ 32 -> 0 <= n < 2 ^ 32 -> 0 <= off ->
  off + Z.of_nat (length (contents l)) < 2 ^ 32 ->
  let bs := take (Z.to_nat n) (drop (Z.to_nat p) (contents l)) in
  read_begin_loop out l p n off = Ok (if out then bs else [], off + Z.of_nat (length bs)).
Proof.
  induction l as [|b l IH]; intros p n off Hl Hp Hn Hoff Hlen; cbn [read_begin_loop].
  { unfold contents. cbn. rewrite drop_nil, take_nil. destruct out; repeat f_equal; simpl; lia. }
  apply Forall_cons in Hl as [Hb Hl]. pose proof (bytes_length b Hb) as Hbl.
  pose proof Hb as (B1 & B2 & B3 & B4 & B5). rewrite contents_cons, length_app in *.
  set (sk := if 0 <? p then (if data_len b <? p then data_len b else p) else 0).
  assert (sk = Z.min p (data_len b)) as Hsk.
  { unfold sk. destruct (Z.ltb_spec 0 p), (Z.ltb_spec (data_len b) p); lia. }
  clearbody sk. rewrite (wrapu_small 32 (p - sk)), (wrapu_small 32 (data_len b - sk)) by lia.
  destruct (Z.eqb_spec (data_len b - sk) 0) as [Hz|Hz].
  { rewrite IH by (done || lia). rewrite drop_app_ge by lia.
    replace (Z.to_nat p - length (bytes b))%nat with (Z.to_nat (p - sk)) by lia. done. }
  assert (sk = p) as -> by lia. rewrite Z.sub_diag.
  set (cl := if data_len b - p <? n then data_len b - p else n).
  assert (cl = Z.min n (data_len b - p)) as Hcl by (unfold cl; destruct (Z.ltb_spec (data_len b - p) n); lia).
  clearbody cl. rewrite drop_app_le by lia.
  assert (length (drop (Z.to_nat p) (bytes b)) = Z.to_nat (data_len b - p)) as Hd by (rewrite length_drop; lia).
  assert ((if out then mem_read (buff b) (data b + p) cl else Ok []) =
    Ok (if out then take (Z.to_nat cl) (drop (Z.to_nat p) (bytes b)) else [])) as ->.
  { destruct out; [|done]. rewrite mem_read_ok by lia. f_equal. unfold bytes.
    rewrite skipn_firstn_comm, take_take, drop_drop. f_equal; [lia|f_equal; lia]. }
  cbn [res_bind]. rewrite !(wrapu_small 32) by lia. destruct (Z.eqb_spec (n - cl) 0) as [H0|H0].
  - assert (cl = n) as -> by lia. rewrite take_app_le by lia. repeat f_equal. rewrite length_take. lia.
  - assert (cl = data_len b - p) as -> by lia. rewrite (IH 0) by (done || lia). cbn [res_bind].
    rewrite Z2Nat.inj_0, drop_0, (take_app_ge (drop _ _)), (take_ge (drop _ _)), length_app by lia.
    replace (Z.to_nat n - _)%nat with (Z.to_nat (n - (data_len b - p))) by lia.
    replace (off + _ + _) with (off + Z.of_nat (length (drop (Z.to_nat p) (bytes b)) +
      length (take (Z.to_nat (n - (data_len b - p))) (contents l)))) by lia.
    by destruct out.
Qed.

Lemma read_cache_begin_spec c p out n :
  cache_ok c -> len c < 2 ^ 31 -> 0 <= p < 2 ^ 32 -> 0 <= n < 2 ^ 32 ->
  let bs := take (Z.to_nat n) (drop (Z.to_nat p) (contents (clist c))) in
  read_cache_begin c p out n = Ok (if out then bs else [], Z.of_nat (length bs)).
Proof.
  intros ((Hl & _) & Hlen) Hb Hp Hn. unfold read_cache_begin. destruct (Z.leb_spec (len c) p) as [Hle|Hgt].
  - rewrite drop_ge by lia. rewrite take_nil. by destruct out.
  - by rewrite read_begin_spec by (done || lia).
Qed.

(** ** Sending and receiving *)

Section Socket.
Context (send : nat -> list Z -> snd_res) (recv : nat -> Z -> rcv_res) (malloc : nat -> bool) (now : Z).
(** [send] takes a part of what it is given, [recv] gives no more than it is
    asked for. *)
Hypothesis send_part : forall k bs n, send k bs = Sent n -> 0 <= n <= Z.of_nat (length bs).
Hypothesis recv_part : forall k n bs, 0 <= n -> recv k n = Rcvd bs -> Z.of_nat (length bs) <= n.

Lemma tcp_send_loop_spec l : forall k total,
  Forall buf_ok l -> 0 <= total -> total + Z.of_nat (length (contents l)) < 2 ^ 31 ->
  exists r wire rest, tcp_send_loop send k l total = Ok (r, total + Z.of_nat (length wire), wire) /\
    contents l = wire ++ rest.
Proof.
  induction l as [|b l IH]; intros k total Hl Ht Hlen; cbn [tcp_send_loop].
  { exists (Sent 0), [], []. by rewrite Z.add_0_r. }
  apply Forall_cons in Hl as [Hb Hl]. pose proof (bytes_length b Hb) as Hbl.
  pose proof Hb as (B1 & B2 & B3 & B4 & B5). rewrite contents_cons, length_app in *.
  rewrite mem_read_ok by lia. fold (bytes b). cbn [res_bind].
  destruct (send k (bytes b)) as [n|e] eqn:Es.
  2: { exists (SndErr e), [], (bytes b ++ contents l). by rewrite Z.add_0_r. }
  apply send_part in Es. rewrite !wraps_small by lia.
  assert (Z.of_nat (length (take (Z.to_nat n) (bytes b))) = n) as Hw by (rewrite length_take; lia).
  destruct (Z.ltb_spec n (data_len b)) as [Hlt|Hge].
  - eexists _, _, (drop (Z.to_nat n) (bytes b) ++ contents l). rewrite Hw. split; [done|].
    by rewrite app_assoc, take_drop.
  - destruct (IH (S k) (total + n) Hl ltac:(lia) ltac:(lia)) as (r & wire & rest & -> & Hcon).
    cbn [res_bind]. eexists _, _, rest. split; [do 3 f_equal; rewrite length_app; lia|].
    by rewrite Hcon, take_ge, app_assoc by lia.
Qed.

Lemma cache_tcp_send_spec c mng :
  cache_ok c -> mng_ok mng -> len c < 2 ^ 31 ->
  exists c' mng' ret wire, cache_tcp_send send now c mng = Ok (c', mng', ret, wire) /\
    cache_ok c' /\ mng_ok mng' /\ wire ++ contents (clist c') = contents (clist c) /\
    (length (clist c') <= length (clist c))%nat /\ (ret = Z.of_nat (length wire) \/ ret = -2).
Proof.
  intros Hc Hm Hb. pose proof Hc as ((Hl & Hp & _) & Hlen). unfold cache_tcp_send. rewrite Hp. cbn [negb].
  destruct (Z.eqb_spec (len c) 0) as [E0|E0].
  { exists c, mng, 0, []. split_and!; try done. by left. }
  destruct (tcp_send_loop_spec (clist c) 0 0 Hl ltac:(lia) ltac:(lia)) as (r & wire & rest & -> & Hcon).
  cbn [res_bind]. rewrite Z.add_0_l. unfold cache_skip_data.
  assert (length wire <= length (contents (clist c)))%nat by (rewrite Hcon, length_app; lia).
  rewrite wrapu_small by lia.
  destruct (cache_copy_out_spec now c mng false (Z.of_nat (length wire)) Hc Hm ltac:(lia))
    as (c' & mng' & -> & Hc' & Hm' & _ & Hcon' & Hll & _).
  cbn [res_bind]. rewrite Nat2Z.id, Hcon, drop_app_length in Hcon'. rewrite Hcon, <-Hcon'.
  destruct r as [?|e]; [|destruct (e =? EAGAIN)]; eexists _, _, _, _; (split; [done|]); split_and!; try done; auto.
Qed.

Lemma recv_room_spec k c mng :
  cache_ok c -> mng_ok mng -> len c < 2 ^ 31 -> Z.of_nat (length (clist c)) + 1 < 2 ^ 31 ->
  exists c' mng' ok, recv_room malloc k c mng = (c', mng', ok) /\ cache_ok c' /\ mng_ok mng' /\
    contents (clist c') = contents (clist c) /\ (length (clist c') <= S (length (clist c)))%nat /\
    (ok = true -> exists t, last (clist c') = Some t /\ data t + data_len t < size t).
Proof.
  intros Hc Hm Hb Hcnt. pose proof Hc as ((Hl & Hp & Hk) & Hlen).
  assert (exists c' mng' ok,
    match cache_alloc malloc k c mng with
    | (mng, Some item) => (cache_append_buffer c item, mng, true)
    | (mng, None) => (c, mng, false)
    end = (c', mng', ok) /\ cache_ok c' /\ mng_ok mng' /\
    contents (clist c') = contents (clist c) /\ (length (clist c') <= S (length (clist c)))%nat /\
    (ok = true -> exists t, last (clist c') = Some t /\ data t + data_len t < size t)) as Hnew.
  { unfold cache_alloc. rewrite Hp. pose proof (alloc_sk_spec (malloc k) mng Hm) as Ha.
    destruct (alloc_sk_buffer (malloc k) mng) as [mng1 [item|]].
    2: { exists c, mng1, false. split_and!; try done; [by destruct Ha|lia]. }
    destruct Ha as (Hm1 & _ & Hi & Hd & Hdl). eexists _, _, true. split; [done|].
    unfold cache_ok, keep_ok. cbn [cache_append_buffer clist pool count len].
    assert (contents (clist c ++ [item]) = contents (clist c)) as ->.
    { rewrite contents_app, contents_singleton. unfold bytes. by rewrite Hdl, take_0, app_nil_r. }
    rewrite !(wrapu_small 32), length_app by lia. simpl length.
    split_and!; try done; try lia; [apply Forall_app; split; [done|by apply Forall_singleton]|].
    intros _. exists item. rewrite last_snoc. destruct Hi as (? & ? & ? & ? & ?). split; [done|lia]. }
  unfold recv_room. destruct (last (clist c)) as [t|] eqn:Et; [|done].
  destruct (Z.leb_spec (size t) (data t + data_len t)); [done|].
  exists c, mng, true. split_and!; try done; [lia|]. by exists t.
Qed.

(** [got] are the answers of [recv] number [k] and on; [M] bounds each of them. *)
Lemma tcp_recv_loop_spec M n : forall k c mng total,
  (forall k m bs, recv k m = Rcvd bs -> Z.of_nat (length bs) <= M) -> 0 <= M ->
  cache_ok c -> mng_ok mng -> 0 <= total <= len c ->
  len c + Z.of_nat n * M < 2 ^ 31 -> Z.of_nat (length (clist c)) + Z.of_nat n < 2 ^ 31 ->
  exists c' mng' ret got, tcp_recv_loop recv malloc n k c mng total = Ok (c', mng', ret) /\
    cache_ok c' /\ mng_ok mng' /\ contents (clist c') = contents (clist c) ++ concat got /\
    (forall i bs, got !! i = Some bs -> exists m, recv (k + i) m = Rcvd bs) /\
    (ret = total + Z.of_nat (length (concat got)) \/ ret = -2 \/ ret = - SK_ERR_NEED_CLOSE).
Proof.
  induction n as [|n IH]; intros k c mng total HM HM0 Hc Hm Ht Hlen Hcnt; cbn [tcp_recv_loop].
  { exists c, mng, total, []. rewrite app_nil_r. split_and!; try done. left. simpl. lia. }
  destruct (recv_room_spec k c mng Hc Hm ltac:(lia) ltac:(lia)) as (c1 & mng1 & ok & -> & Hc1 & Hm1 & Hcon1 & Hl1 & Hok).
  destruct ok; cbn [negb].
  2: { exists c1, mng1, (-2), []. rewrite app_nil_r. split_and!; try done. by right; left. }
  destruct (Hok eq_refl) as (t & Et & Hroom). rewrite Et. pose proof Hc1 as ((Hb1 & Hp1 & Hk1) & Hlen1).
  pose proof Hc as (_ & Hlen0). rewrite Hcon1, <-Hlen0 in Hlen1.
  destruct (recv k _) as [bs|e] eqn:Er.
  2: { exists c1, mng1, (if e =? EAGAIN then total else -2), []. rewrite app_nil_r. split_and!; try done.
    destruct (e =? EAGAIN); [left; simpl; lia|by right; left]. }
  pose proof (tail_remain_spec _ Hb1) as Hrem. rewrite Et in Hrem.
  assert (buf_ok t) as (B1 & B2 & B3 & B4 & B5).
  { apply last_Some in Et as [l0 E]. rewrite E in Hb1. apply Forall_app in Hb1 as [_ Hb]. by rewrite Forall_singleton in Hb. }
  pose proof (HM _ _ _ Er) as HMb. rewrite !(wrapu_small 32 (size t - _ - _)) in * by lia.
  assert (Z.of_nat (length bs) <= size t - data t - data_len t) as Hpart by (eapply recv_part; [|exact Er]; lia).
  destruct (tail_write_spec _ t bs Hb1 Et ltac:(lia)) as (l' & -> & Hl' & Hcon' & Hll'). cbn [res_bind].
  destruct (Z.eqb_spec (Z.of_nat (length bs)) 0) as [E0|E0].
  { exists c1, mng1, (- SK_ERR_NEED_CLOSE), []. rewrite app_nil_r. split_and!; try done. by right; right. }
  rewrite (wrapu_small 32 (len c1 + _)), (wraps_small 32 (total + _)), (wraps_small 32 (size t - _ - _)) by lia.
  set (c2 := mkCache l' (len c1 + Z.of_nat (length bs)) (count c1) (pool c1)).
  assert (cache_ok c2) as Hc2.
  { unfold cache_ok, keep_ok. cbn [c2 clist pool count len]. rewrite Hcon', length_app, Hcon1. split_and!; try done; lia. }
  assert (forall i b, [bs] !! i = Some b -> exists m, recv (k + i) m = Rcvd b) as Hone.
  { intros [|i] b [= <-]. rewrite Nat.add_0_r. by eexists. }
  destruct (Z.ltb_spec (Z.of_nat (length bs)) (size t - data t - data_len t)) as [Hlt|Hge].
  { exists c2, mng1, (total + Z.of_nat (length bs)), [bs]. cbn [c2 clist concat]. rewrite app_nil_r, Hcon', Hcon1.
    split_and!; try done. by left. }
  destruct (IH (S k) c2 mng1 (total + Z.of_nat (length bs)) HM HM0 Hc2 Hm1) as (c' & mng' & ret & got & -> & Hc' & Hm' & Hg & Hr & Hret);
    [cbn; lia..|].
  exists c', mng', ret, (bs :: got). split_and!; try done.
  - rewrite Hg. cbn [c2 clist concat]. by rewrite Hcon', Hcon1, <-app_assoc.
  - intros [|i] b Hi; [by apply Hone|]. destruct (Hr i b Hi) as [m Hm2]. exists m. by rewrite Nat.add_succ_r.
  - destruct Hret as [->|?]; [left; cbn [concat]; rewrite length_app; lia|by right].
Qed.
End Socket.

(** ** Whole buffers *)

(** [recycle_sk_buffer] frees the buffers at the front that were idle for the
    time of expiry, and stops at the first that was not. *)
Lemma recycle_spec mng now :
  mng_ok mng -> exists old,
    free_list mng = old ++ free_list (recycle_sk_buffer mng now) /\ mng_ok (recycle_sk_buffer mng now) /\
    Forall (fun b => expired mng <= u32 (now - last_time b)) old /\
    match free_list (recycle_sk_buffer mng now) with
    | [] => True
    | b :: _ => u32 (now - last_time b) < expired mng
    end.
Proof.
  intros (Hf & Hc & Hs). unfold recycle_sk_buffer. rewrite Hc. clear Hc.
  assert (exists old l, recycle_loop (expired mng) now (free_list mng) (u32 (Z.of_nat (length (free_list mng)))) =
      (l, u32 (Z.of_nat (length l))) /\ free_list mng = old ++ l /\
      Forall (fun b => expired mng <= u32 (now - last_time b)) old /\
      match l with [] => True | b :: _ => u32 (now - last_time b) < expired mng end) as (old & l & -> & He & Ho & Hl).
  { clear Hf. induction (free_list mng) as [|b l IH]; cbn [recycle_loop]; [by exists [], []|].
    destruct (Z.ltb_spec (u32 (now - last_time b)) (expired mng)); [by exists [], (b :: l)|].
    replace (u32 (u32 (Z.of_nat (length (b :: l))) - 1)) with (u32 (Z.of_nat (length l))).
    2: { unfold wrapu. rewrite Zminus_mod_idemp_l. f_equal. simpl. lia. }
    destruct IH as (old & l' & -> & -> & Ho & Hl). exists (b :: old), l'. split_and!; try done. by constructor. }
  exists old. cbn [free_list]. split_and!; try done. rewrite He in Hf. by apply Forall_app in Hf as [_ ?].
Qed.

(** [reserve_sk_buffer] gives a buffer with the same bytes that has the size
    asked for, unless there is no memory. *)
Lemma reserve_spec b sz :
  buf_ok b -> 0 < sz < 2 ^ 31 -> exists b', reserve_sk_buffer true (Some b) sz = Ok (Some b') /\
    buf_ok b' /\ bytes b' = bytes b /\ sz <= size b'.
Proof.
  intros Hb Hsz. unfold reserve_sk_buffer. destruct (Z.leb_spec sz (size b)); [by exists b|].
  destruct (new_sk_buffer true sz) as [nb|] eqn:En; [|done].
  destruct (new_sk_buffer_ok _ _ _ Hsz En) as [((N1 & N2 & N3 & N4 & N5) & Nd & Ndl) Hns].
  pose proof Hb as (B1 & B2 & B3 & B4 & B5). pose proof (bytes_length b Hb) as Hbl.
  rewrite mem_read_ok by lia. fold (bytes b). cbn [res_bind].
  destruct (mem_write_ok (buff nb) (data nb) (bytes b)) as (m & -> & Hm & Hr); [lia|lia|]. cbn [res_bind].
  eexists. split; [done|]. split; [unfold buf_ok; cbn; lia|]. split; [|cbn; lia].
  specialize (Hr (data nb) 0 ltac:(lia) ltac:(lia) ltac:(lia)). unfold bytes at 1. cbn. by rewrite Hbl in Hr.
Qed.

Lemma skip_first_spec c c' r :
  cache_ok c -> cache_skip_first_buffer c = (c', r) ->
  match r with
  | None => c' = c /\ clist c = []
  | Some b => cache_ok c' /\ buf_ok b /\ contents (clist c) = bytes b ++ contents (clist c')
  end.
Proof.
  intros ((Hl & Hp & Hk) & Hlen). unfold cache_skip_first_buffer. destruct (clist c) as [|b l] eqn:El; intros [= <- <-]; [done|].
  apply Forall_cons in Hl as [Hb Hl]. rewrite contents_cons, length_app in Hlen. pose proof (bytes_length b Hb).
  simpl length in Hk. unfold cache_ok, keep_ok. cbn [clist pool count len]. split_and!; try done.
  - destruct (Z.ltb_spec 0 (count c)); lia.
  - destruct (Z.leb_spec (data_len b) (len c)); lia.
Qed.

(** ** Sequences of operations *)

Inductive cache_op :=
| OpAppend (bs : list Z)
| OpCopyOut (n : Z)
| OpSkip (n : Z)
| OpRead (n : Z)
| OpReadAt (begin n : Z)
| OpLen.

Definition op_ok (o : cache_op) : Prop :=
  match o with
  | OpAppend _ | OpLen => True
  | OpCopyOut n | OpSkip n | OpRead n => 0 <= n < 2 ^ 32
  | OpReadAt p n => 0 <= p < 2 ^ 32 /\ 0 <= n < 2 ^ 32
  end.

Definition op_size (o : cache_op) : Z :=
  match o with OpAppend bs => Z.of_nat (length bs) | _ => 0 end.

(** The result of an operation: the bytes it gives and what it returns. *)
Definition cache_step (malloc : nat -> bool) (now : Z) (c : TRWCache) (mng : TSkBuffMng) (o : cache_op)
  : res (TRWCache * TSkBuffMng * (list Z * Z)) :=
  match o with
  | OpAppend bs => let* (c, mng, r) := cache_append_data malloc now c mng bs in Ok (c, mng, ([], r))
  | OpCopyOut n => let* (c, mng, bs, r) := cache_copy_out now c mng true n in Ok (c, mng, (bs, r))
  | OpSkip n => let* (c, mng) := cache_skip_data now c mng n in Ok (c, mng, ([], 0))
  | OpRead n => let* a := read_cache_data c true n in Ok (c, mng, a)
  | OpReadAt p n => let* a := read_cache_begin c p true n in Ok (c, mng, a)
  | OpLen => Ok (c, mng, ([], get_data_len c))
  end.

(** The same operations on a queue of bytes, with the number of buffers that are
    free at least.  Only an append may fail, when a call of [malloc] fails that it
    makes after it took the free buffers; then the queue keeps its bytes. *)
Inductive bytes_step (malloc : nat -> bool) : nat * list Z -> cache_op -> list Z * Z -> nat * list Z -> Prop :=
| BAppend fr q bs : bytes_step malloc (fr, q) (OpAppend bs) ([], Z.of_nat (length bs)) ((fr - length bs)%nat, q ++ bs)
| BNoMem fr q bs i : (fr <= i < length bs)%nat -> malloc i = false ->
    bytes_step malloc (fr, q) (OpAppend bs) ([], -2) (fr, q)
| BCopyOut fr q n : bytes_step malloc (fr, q) (OpCopyOut n)
    (take (Z.to_nat n) q, Z.min n (Z.of_nat (length q))) (fr, drop (Z.to_nat n) q)
| BSkip fr q n : bytes_step malloc (fr, q) (OpSkip n) ([], 0) (fr, drop (Z.to_nat n) q)
| BRead fr q n : bytes_step malloc (fr, q) (OpRead n) (take (Z.to_nat n) q, Z.min n (Z.of_nat (length q))) (fr, q)
| BReadAt fr q p n : bytes_step malloc (fr, q) (OpReadAt p n)
    (take (Z.to_nat n) (drop (Z.to_nat p) q), Z.of_nat (length (take (Z.to_nat n) (drop (Z.to_nat p) q)))) (fr, q)
| BLen fr q : bytes_step malloc (fr, q) OpLen ([], Z.of_nat (length q)) (fr, q).

Fixpoint cache_run (malloc : nat -> nat -> bool) (now : Z) (k : nat) (c : TRWCache) (mng : TSkBuffMng)
    (os : list cache_op) : res (TRWCache * TSkBuffMng * list (list Z * Z)) :=
  match os with
  | [] => Ok (c, mng, [])
  | o :: os =>
      let* (c, mng, a) := cache_step (malloc k) now c mng o in
      let* (c, mng, r) := cache_run malloc now (S k) c mng os in
      Ok (c, mng, a :: r)
  end.

(** [malloc k] are the answers during the [k]-th operation. *)
Inductive bytes_run (malloc : nat -> nat -> bool) : nat -> nat * list Z -> list cache_op -> list (list Z * Z) -> nat * list Z -> Prop :=
| BNil k q : bytes_run malloc k q [] [] q
| BCons k q o a q1 os r q2 : bytes_step (malloc k) q o a q1 -> bytes_run malloc (S k) q1 os r q2 ->
    bytes_run malloc k q (o :: os) (a :: r) q2.

Definition ops_size (os : list cache_op) : Z := foldr (fun o n => op_size o + n) 0 os.

Lemma ops_size_nonneg os : 0 <= ops_size os.
Proof. induction os as [|o os IH]; simpl; [lia|]. destruct o; simpl; lia. Qed.

Lemma cache_step_refines malloc now c mng o fr :
  cache_ok c -> mng_ok mng -> op_ok o -> len c + op_size o < 2 ^ 31 ->
  Z.of_nat (length (clist c)) + op_size o < 2 ^ 31 -> (fr <= length (free_list mng))%nat ->
  exists c' mng' a fr', cache_step malloc now c mng o = Ok (c', mng', a) /\ cache_ok c' /\ mng_ok mng' /\
    bytes_step malloc (fr, contents (clist c)) o a (fr', contents (clist c')) /\ (fr' <= length (free_list mng'))%nat /\
    len c' <= len c + op_size o /\ Z.of_nat (length (clist c')) <= Z.of_nat (length (clist c)) + op_size o.
Proof.
  intros Hc Hm Ho Hlen Hcnt Hfr. pose proof Hc as ((Hl & _) & Hlc). destruct o as [bs|n|n|n|p n|]; cbn [cache_step op_size op_ok] in *.
  - destruct (cache_append_data_spec malloc now c mng bs Hc Hm Hlen Hcnt)
      as (c' & mng' & r & -> & Hc' & Hm' & _ & [(-> & Hcon & Hcl & Hf)|(-> & -> & Hf & i & Hi & Hmal)]); cbn [res_bind].
    + exists c', mng', ([], Z.of_nat (length bs)), (fr - length bs)%nat. rewrite Hcon. split_and!; try done; try lia; [constructor|].
      destruct Hc' as (_ & ->). rewrite Hcon, length_app. lia.
    + exists c, mng', ([], -2), fr. split_and!; try done; try lia. apply BNoMem with i; [lia|done].
  - destruct (cache_copy_out_spec now c mng true n Hc Hm Ho) as (c' & mng' & -> & Hc' & Hm' & _ & Hcon & Hcl & Hf).
    cbn [res_bind]. eexists _, _, _, fr. split; [done|]. split_and!; try done; try lia; destruct Hc' as (_ & Hlc');
      rewrite Hcon in *; [rewrite Hlc; constructor|rewrite Hlc', length_drop; lia].
  - unfold cache_skip_data.
    destruct (cache_copy_out_spec now c mng false n Hc Hm Ho) as (c' & mng' & -> & Hc' & Hm' & _ & Hcon & Hcl & Hf).
    cbn [res_bind]. eexists _, _, _, fr. split; [done|]. split_and!; try done; try lia; destruct Hc' as (_ & Hlc');
      rewrite Hcon in *; [constructor|rewrite Hlc', length_drop; lia].
  - unfold read_cache_data. rewrite read_data_spec by (done || lia). cbn [res_bind].
    eexists _, _, _, fr. split; [done|]. split_and!; try done; try lia. rewrite Z.add_0_l. constructor.
  - rewrite read_cache_begin_spec by (done || lia). cbn [res_bind].
    eexists _, _, _, fr. split; [done|]. split_and!; try done; try lia. constructor.
  - eexists _, _, _, fr. split; [done|]. split_and!; try done; try lia. unfold get_data_len. rewrite Hlc. constructor.
Qed.

(** The first [n] bytes of [bs] are on the wire, and the cache is empty unless
    there are none of them. *)
Lemma append_rest malloc now c mng n bs :
  cache_ok c -> mng_ok mng -> 0 <= n <= Z.of_nat (length bs) -> (0 < n -> contents (clist c) = []) ->
  len c + Z.of_nat (length bs) < 2 ^ 31 -> Z.of_nat (length (clist c)) + Z.of_nat (length bs) < 2 ^ 31 ->
  exists c' mng' r, cache_append_data malloc now c mng (drop (Z.to_nat n) bs) = Ok (c', mng', r) /\
    cache_ok c' /\ mng_ok mng' /\
    ((r <? 0) = false /\ take (Z.to_nat n) bs ++ contents (clist c') = contents (clist c) ++ bs \/
     (r <? 0) = true /\ (exists i, malloc i = false) /\ c' = c).
Proof.
  intros Hc Hm Hn Hemp Hlen Hcnt.
  assert (take (Z.to_nat n) bs ++ contents (clist c) = contents (clist c) ++ take (Z.to_nat n) bs) as Hcomm.
  { destruct (decide (0 < n)) as [Hn0|Hn0]; [rewrite Hemp by done; by rewrite app_nil_r|].
    replace (Z.to_nat n) with 0%nat by lia. by rewrite take_0, app_nil_r. }
  destruct (cache_append_data_spec malloc now c mng (drop (Z.to_nat n) bs) Hc Hm) as
    (c' & mng' & r & -> & Hc' & Hm' & _ & Hr); [rewrite length_drop; lia..|].
  exists c', mng', r. split_and!; try done. destruct Hr as [(-> & Hcon & _)|(-> & -> & _ & i & _ & Hi)]; [left|right].
  - split; [apply Z.ltb_ge; lia|]. by rewrite Hcon, app_assoc, Hcomm, <-app_assoc, take_drop.
  - split_and!; [done|by exists i|done].
Qed.

(** ** Properties *)

(** C11: a cache is a queue of bytes: every sequence of [cache_append_data],
    [cache_copy_out], [cache_skip_data], [read_cache_data], [read_cache_begin]
    and [get_data_len] on an empty cache, of lengths below 2^32 and with less
    than 2^31 bytes appended in all, runs without touching memory outside a
    buffer and gives the answers of a queue of bytes, whatever the sizes of the
    buffers.  An append fails only when a call of [malloc] failed that it made
    after it had taken the free buffers of the pool (never one of at most as many
    bytes as there are free buffers), and then leaves the bytes as they are. *)
Theorem rw_cache_refines_bytes malloc now mng os :
  mng_ok mng -> Forall op_ok os -> ops_size os < 2 ^ 31 ->
  exists c mng' r fr, cache_run malloc now 0 rw_cache_init mng os = Ok (c, mng', r) /\
    mng_ok mng' /\ bytes_run malloc 0 (length (free_list mng), []) os r (fr, contents (clist c)) /\
    (fr <= length (free_list mng'))%nat /\ get_data_len c = Z.of_nat (length (contents (clist c))).
Proof.
  intros Hm Hos Hsz.
  cut (forall k c mng fr, cache_ok c -> mng_ok mng -> len c + ops_size os < 2 ^ 31 ->
    Z.of_nat (length (clist c)) + ops_size os < 2 ^ 31 -> (fr <= length (free_list mng))%nat ->
    exists c' mng' r fr', cache_run malloc now k c mng os = Ok (c', mng', r) /\
      mng_ok mng' /\ bytes_run malloc k (fr, contents (clist c)) os r (fr', contents (clist c')) /\
      (fr' <= length (free_list mng'))%nat /\ cache_ok c').
  { intros H. destruct (H 0%nat rw_cache_init mng (length (free_list mng)) init_cache_ok Hm ltac:(done) ltac:(done) ltac:(done))
      as (c & mng' & r & fr & ? & ? & ? & ? & _ & ?). by exists c, mng', r, fr. }
  clear mng Hm Hsz. induction Hos as [|o os Ho Hos IH]; intros k c mng fr Hc Hm Hlen Hcnt Hfr; cbn [cache_run].
  { eexists _, _, _, fr. split; [done|]. split_and!; try done. constructor. }
  pose proof (ops_size_nonneg os). cbn [ops_size foldr] in Hlen, Hcnt. fold (ops_size os) in Hlen, Hcnt.
  destruct (cache_step_refines (malloc k) now c mng o fr Hc Hm Ho ltac:(lia) ltac:(lia) Hfr)
    as (c1 & mng1 & a & fr1 & -> & Hc1 & Hm1 & Hst & Hfr1 & ? & ?). cbn [res_bind].
  destruct (IH (S k) c1 mng1 fr1 Hc1 Hm1 ltac:(lia) ltac:(lia) Hfr1) as (c2 & mng2 & r & fr2 & -> & Hm2 & Hr & Hfr2 & Hc2). cbn [res_bind].
  eexists _, _, _, fr2. split; [done|]. split_and!; try done. by econstructor.
Qed.

(** C21: the stream of bytes is kept: after [cache_tcp_send_buff] the bytes the
    socket took, followed by those that wait in the cache, are the bytes that
    waited before followed by the new data, in order, without loss or
    repetition, when it returns no error.  With -3 a call of [malloc] failed, and
    exactly the new data the socket did not take is missing: all of it while
    older data waits, and otherwise what follows the [n] bytes that the last call
    of [send] took.  With -2, after an error of the socket, exactly the new data
    is missing. *)
Theorem send_stream_kept send malloc now last_send c mng bs :
  (forall k bs n, send k bs = Sent n -> 0 <= n <= Z.of_nat (length bs)) ->
  (forall bs n, last_send bs = Sent n -> 0 <= n <= Z.of_nat (length bs)) ->
  cache_ok c -> mng_ok mng -> len c + Z.of_nat (length bs) < 2 ^ 31 ->
  Z.of_nat (length (clist c)) + Z.of_nat (length bs) < 2 ^ 31 ->
  exists c' mng' ret wire,
    cache_tcp_send_buff send malloc now last_send c mng bs = Ok (c', mng', ret, wire) /\
    cache_ok c' /\ mng_ok mng' /\
    (0 <= ret /\ wire ++ contents (clist c') = contents (clist c) ++ bs \/
     ret = -3 /\ (exists i, malloc i = false) /\
       (wire ++ contents (clist c') = contents (clist c) \/
        exists n, last_send bs = Sent n /\ contents (clist c') = [] /\ wire = contents (clist c) ++ take (Z.to_nat n) bs) \/
     ret = -2 /\ wire ++ contents (clist c') = contents (clist c)).
Proof.
  intros Hsend Hlast Hc Hm Hlen Hcnt. unfold cache_tcp_send_buff.
  destruct (cache_tcp_send_spec send now Hsend c mng Hc Hm ltac:(lia))
    as (c1 & mng1 & ret & wire & -> & Hc1 & Hm1 & Hw & Hl1 & Hret). cbn [res_bind].
  assert (len c1 <= len c) as Hlen1.
  { destruct Hc as (_ & ->), Hc1 as (_ & ->). rewrite <-Hw, length_app. lia. }
  destruct (Z.ltb_spec ret 0) as [Hneg|Hpos].
  { exists c1, mng1, ret, wire. split_and!; try done. right; right. split; [lia|done]. }
  destruct (if len c1 =? 0 then last_send bs else Sent 0) as [n|e] eqn:Es.
  - assert (0 <= n <= Z.of_nat (length bs) /\ (0 < n -> contents (clist c1) = [] /\ last_send bs = Sent n)) as (Hn & Hemp).
    { destruct (Z.eqb_spec (len c1) 0) as [Ez|Ez]; [|injection Es as <-; split; [|intros]; lia].
      split; [by apply Hlast in Es|]. intros _. split; [|done]. apply length_zero_iff_nil. destruct Hc1 as (_ & Hz). lia. }
    destruct (append_rest malloc now c1 mng1 n bs Hc1 Hm1 Hn ltac:(intros; by apply Hemp) ltac:(lia) ltac:(lia))
      as (c' & mng' & r & -> & Hc' & Hm' & [(Hr & Hs)|(Hr & Hi & ->)]); cbn [res_bind]; rewrite Hr;
      eexists _, _, _, _; (split; [done|]); (split; [done|]); (split; [done|]).
    + left. split; [lia|]. by rewrite <-app_assoc, Hs, app_assoc, Hw.
    + right; left. split; [done|]. split; [done|]. destruct (decide (0 < n)) as [Hn0|Hn0].
      * right. destruct (Hemp Hn0) as [E0 El]. exists n. split_and!; try done. by rewrite <-Hw, E0, app_nil_r.
      * left. replace (Z.to_nat n) with 0%nat by lia. by rewrite take_0, app_nil_r.
  - destruct (Z.eqb_spec e EAGAIN) as [_|_].
    + destruct (append_rest malloc now c1 mng1 0 bs Hc1 Hm1 ltac:(lia) ltac:(intros; lia) ltac:(lia) ltac:(lia))
        as (c' & mng' & r & Ha & Hc' & Hm' & Hr). change (drop (Z.to_nat 0) bs) with bs in Ha. rewrite Ha.
      cbn [res_bind]. change (take (Z.to_nat 0) bs) with (@nil Z) in Hr.
      destruct Hr as [(-> & Hs)|(-> & Hi & ->)];
        eexists _, _, _, _; (split; [done|]); (split; [done|]); (split; [done|]).
      * left. split; [lia|]. by rewrite <-Hw, <-app_assoc, <-Hs.
      * right; left. split_and!; try done. by left.
    + exists c1, mng1, (-2), wire. split_and!; try done. right; right. done.
Qed.

(** [cache_tcp_recv] appends to the cache what the socket gave, in the order
    of the calls, whatever it returns: the number of bytes, an error, or the
    request to close; it never writes outside a buffer.  [M] bounds what one
    call of [recv] gives. *)
Theorem recv_stream_kept recv malloc M c mng :
  (forall k n bs, 0 <= n -> recv k n = Rcvd bs -> Z.of_nat (length bs) <= n) ->
  (forall k n bs, recv k n = Rcvd bs -> Z.of_nat (length bs) <= M) -> 0 <= M ->
  cache_ok c -> mng_ok mng -> len c + 100 * M < 2 ^ 31 -> Z.of_nat (length (clist c)) + 100 < 2 ^ 31 ->
  exists c' mng' ret got, cache_tcp_recv recv malloc c mng = Ok (c', mng', ret) /\
    cache_ok c' /\ mng_ok mng' /\ contents (clist c') = contents (clist c) ++ concat got /\
    (forall i bs, got !! i = Some bs -> exists n, recv i n = Rcvd bs) /\
    (ret = Z.of_nat (length (concat got)) \/ ret = -2 \/ ret = - SK_ERR_NEED_CLOSE).
Proof.
  intros Hp HM HM0 Hc Hm Hlen Hcnt. unfold cache_tcp_recv.
  apply (tcp_recv_loop_spec recv malloc Hp M 100 0 c mng 0); try done. destruct Hc as (_ & ->). lia.
Qed.

(** ** Witnesses *)

Definition pool3 : TSkBuffMng := sk_buffer_mng_init 60 3.

Lemma pool3_ok : mng_ok pool3.
Proof. by split_and!. Qed.

(** Buffers of three bytes; the second allocation of the second append fails. *)
Lemma rw_cache_refines_bytes_witness :
  exists c mng' r fr, cache_run (fun k i => negb ((k =? 1) && (i =? 1))%nat) 0 0 rw_cache_init pool3
      [OpAppend [1; 2; 3; 4; 5]; OpAppend [6; 7; 8; 9; 10; 11]; OpCopyOut 4; OpAppend [6; 7]; OpReadAt 1 5] =
        Ok (c, mng', r) /\
    mng_ok mng' /\
    bytes_run (fun k i => negb ((k =? 1) && (i =? 1))%nat) 0 (0%nat, [])
      [OpAppend [1; 2; 3; 4; 5]; OpAppend [6; 7; 8; 9; 10; 11]; OpCopyOut 4; OpAppend [6; 7]; OpReadAt 1 5]
      r (fr, contents (clist c)) /\ (fr <= length (free_list mng'))%nat /\ get_data_len c = Z.of_nat (length (contents (clist c))).
Proof.
  apply (rw_cache_refines_bytes (fun k i => negb ((k =? 1) && (i =? 1))%nat) 0 pool3
    [OpAppend [1; 2; 3; 4; 5]; OpAppend [6; 7; 8; 9; 10; 11]; OpCopyOut 4; OpAppend [6; 7]; OpReadAt 1 5] pool3_ok);
    [repeat constructor; cbn; lia|done].
Defined.

(** A socket that takes at most two bytes of each buffer. *)
Definition send2 (bs : list Z) : snd_res := Sent (Z.min 2 (Z.of_nat (length bs))).

Lemma send2_part bs n : send2 bs = Sent n -> 0 <= n <= Z.of_nat (length bs).
Proof. intros [= <-]. lia. Qed.

Definition cache123 : TRWCache := mkCache [mkBuf 0 3 [1; 2; 3] 0 3] 3 1 true.

Lemma cache123_ok : cache_ok cache123.
Proof. unfold cache_ok, keep_ok. split_and!; try done. apply Forall_singleton. unfold buf_ok. cbn. lia. Qed.

Lemma send_stream_kept_witness :
  exists c' mng' ret wire,
    cache_tcp_send_buff (fun _ => send2) (fun _ => true) 0 send2 cache123 pool3 [4; 5] = Ok (c', mng', ret, wire) /\
    cache_ok c' /\ mng_ok mng' /\
    (0 <= ret /\ wire ++ contents (clist c') = contents (clist cache123) ++ [4; 5] \/
     ret = -3 /\ (exists i, (fun _ : nat => true) i = false) /\
       (wire ++ contents (clist c') = contents (clist cache123) \/
        exists n, send2 [4; 5] = Sent n /\ contents (clist c') = [] /\ wire = contents (clist cache123) ++ take (Z.to_nat n) [4; 5]) \/
     ret = -2 /\ wire ++ contents (clist c') = contents (clist cache123)).
Proof.
  apply (send_stream_kept (fun _ => send2) (fun _ => true) 0 send2 cache123 pool3 [4; 5]
    (fun _ => send2_part) send2_part cache123_ok pool3_ok); done.
Defined.

Definition recv3 (k : nat) (n : Z) : rcv_res :=
  match k with
  | O => Rcvd (take (Z.to_nat n) [4; 5; 6])
  | S O => Rcvd (take (Z.to_nat n) [7])
  | _ => RcvErr EAGAIN
  end.

Lemma recv3_part k n bs : recv3 k n = Rcvd bs -> Z.of_nat (length bs) <= Z.max 0 n /\ Z.of_nat (length bs) <= 3.
Proof. destruct k as [|[|k]]; intros [= <-]; rewrite length_take; simpl; lia. Qed.

Lemma recv_stream_kept_witness :
  exists c' mng' ret got, cache_tcp_recv recv3 (fun _ => true) cache123 pool3 = Ok (c', mng', ret) /\
    cache_ok c' /\ mng_ok mng' /\ contents (clist c') = contents (clist cache123) ++ concat got /\
    (forall i bs, got !! i = Some bs -> exists n, recv3 i n = Rcvd bs) /\
    (ret = Z.of_nat (length (concat got)) \/ ret = -2 \/ ret = - SK_ERR_NEED_CLOSE).
Proof.
  apply (recv_stream_kept recv3 (fun _ => true) 3 cache123 pool3);
    try exact cache123_ok; try exact pool3_ok; try done.
  - intros k n bs Hn Hr. apply recv3_part in Hr. lia.
  - intros k n bs Hr. apply recv3_part in Hr. lia.
Defined.

(** ** Findings *)

(** An empty datagram ends [cache_udp_recv] by the value [errno] has from an
    earlier call: with 4 ([EINTR]) it is an error, although nothing failed. *)
Example empty_datagram_fails :
  (let* (_, _, r) := cache_udp_recv (fun _ _ => Rcvd []) (fun _ => true) 0 4 cache123 pool3 in Ok r) = Ok (-3).
Proof. reflexivity. Qed.
