(* ===== verification/HashList.v ===== *)
(** * Hash tables of the user space threads

    [src/adapter/micro_thread/hash_list.h], and two of its clients: the sessions
    of [mt_session.cpp] and the pool of message buffers of [mt_mbuf_pool.cpp].

    A key is the address of a [HashKey]; [keys] is the memory of the fields the
    table keeps in its keys.  The virtual methods are arguments: [HashValue] of
    the keys, and, for a lookup, the value of the key looked for and the
    comparison with it ([item->HashCmp(key)]).  Loops along the chains have fuel
    for every key there is. *)

From S2P Require Import Prelude.

Module HashList.

Record HashKey := mkKey {
  _next_entry : option Z;
  _hash_value : Z;
  _data_ptr : option Z
}.

(** The constructor. *)
Definition new_key (data : option Z) : HashKey := mkKey None 0 data.

Record hash := mkHash {
  keys : gmap Z HashKey;
  _buckets : list (option Z);
  _count : Z;
  _max : Z
}.

Definition get_key (h : hash) (k : Z) : res HashKey :=
  match keys h !! k with Some e => Ok e | None => Panic end.
Definition put_key (h : hash) (k : Z) (e : HashKey) : hash :=
  mkHash (<[k := e]> (keys h)) (_buckets h) (_count h) (_max h).
Definition del_key (h : hash) (k : Z) : hash :=
  mkHash (delete k (keys h)) (_buckets h) (_count h) (_max h).
Definition set_buckets (h : hash) (b : list (option Z)) : hash :=
  mkHash (keys h) b (_count h) (_max h).
Definition set_count (h : hash) (n : Z) : hash :=
  mkHash (keys h) (_buckets h) n (_max h).

(** ** Sizes *)

(** No [k] from 2 to the square root divides [i]. *)
Definition no_divisor (sqrt_value i : Z) : bool :=
  forallb (fun k => negb (i mod k =? 0)) (seqZ 2 (sqrt_value - 1)).

Fixpoint prime_loop (fuel : nat) (sqrt_value i : Z) : Z :=
  match fuel with
  | O => 0
  | S fuel' =>
      if 0 <? i then
        if no_divisor sqrt_value i then i else prime_loop fuel' sqrt_value (i - 1)
      else 0
  end.

Definition GetMaxPrimeNum (num : Z) : Z :=
  prime_loop (Z.to_nat num) (Z.sqrt num) num.

(** [HashList(max)] with the keys that are there; [calloc] gives the buckets. *)
Definition HashList (max : Z) (ks : gmap Z HashKey) : hash :=
  let m := GetMaxPrimeNum (if 2 <? max then max else 100000) in
  mkHash ks (replicate (Z.to_nat m) None) 0 m.

Definition HashSize (h : hash) : Z := _count h.

(** ** Operations *)

Definition HashInsert (HashValue : Z -> Z) (h : hash) (key : Z) : res (hash * Z) :=
  let* e := get_key h key in
  if negb (_hash_value e =? 0) || bool_decide (_next_entry e <> None) then Ok (h, -2)
  else
    let hv := HashValue key in
    let idx := hv mod _max h in
    let* next_item := array_get (_buckets h) idx in
    let* b := array_set (_buckets h) idx (Some key) in
    let h := put_key (set_buckets h b) key (mkKey next_item hv (_data_ptr e)) in
    Ok (set_count h (s32 (_count h + 1)), 0).

Fixpoint find_loop (fuel : nat) (h : hash) (hv : Z) (cmp : Z -> Z) (item : option Z) : res (option Z) :=
  match fuel with
  | O => NoFuel
  | S fuel' =>
      match item with
      | None => Ok None
      | Some i =>
          let* e := get_key h i in
          if negb (_hash_value e =? hv) then find_loop fuel' h hv cmp (_next_entry e)
          else if cmp i =? 0 then Ok (Some i)
          else find_loop fuel' h hv cmp (_next_entry e)
      end
  end.

Definition HashFind (h : hash) (hv : Z) (cmp : Z -> Z) : res (option Z) :=
  let* item := array_get (_buckets h) (hv mod _max h) in
  find_loop (S (size (keys h))) h hv cmp item.

Definition HashFindData (h : hash) (hv : Z) (cmp : Z -> Z) : res (option Z) :=
  let* item := HashFind h hv cmp in
  match item with
  | None => Ok None
  | Some i => let* e := get_key h i in Ok (_data_ptr e)
  end.

(** Take [i] out of its chain. *)
Definition unlink (h : hash) (idx : Z) (prev : option Z) (i : Z) (e : HashKey) : res hash :=
  let* h :=
    match prev with
    | None => let* b := array_set (_buckets h) idx (_next_entry e) in Ok (set_buckets h b)
    | Some p =>
        let* ep := get_key h p in
        Ok (put_key h p (mkKey (_next_entry e) (_hash_value ep) (_data_ptr ep)))
    end in
  let h := put_key h i (mkKey None 0 (_data_ptr e)) in
  Ok (set_count h (s32 (_count h - 1))).

Fixpoint remove_loop (fuel : nat) (h : hash) (hv : Z) (cmp : Z -> Z) (prev item : option Z) : res hash :=
  match fuel with
  | O => NoFuel
  | S fuel' =>
      match item with
      | None => Ok h
      | Some i =>
          let* e := get_key h i in
          if (_hash_value e =? hv) && (cmp i =? 0) then unlink h (hv mod _max h) prev i e
          else remove_loop fuel' h hv cmp (Some i) (_next_entry e)
      end
  end.

Definition HashRemove (h : hash) (hv : Z) (cmp : Z -> Z) : res hash :=
  let* item := array_get (_buckets h) (hv mod _max h) in
  remove_loop (S (size (keys h))) h hv cmp None item.

(** The keys [HashForeach] calls [HashIterate] of. *)
Fixpoint foreach_chain (fuel : nat) (h : hash) (item : option Z) : res (list Z) :=
  match fuel with
  | O => NoFuel
  | S fuel' =>
      match item with
      | None => Ok []
      | Some i =>
          let* e := get_key h i in
          let* l := foreach_chain fuel' h (_next_entry e) in
          Ok (i :: l)
      end
  end.

Fixpoint foreach_buckets (h : hash) (b : list (option Z)) : res (list Z) :=
  match b with
  | [] => Ok []
  | item :: b =>
      let* l := foreach_chain (S (size (keys h))) h item in
      let* r := foreach_buckets h b in
      Ok (l ++ r)
  end.

Definition HashForeach (h : hash) : res (list Z) := foreach_buckets h (_buckets h).

Fixpoint first_bucket (b : list (option Z)) : option Z :=
  match b with
  | [] => None
  | Some k :: _ => Some k
  | None :: b => first_bucket b
  end.

Definition HashGetFirst (h : hash) : option Z := first_bucket (_buckets h).

(** ** Sessions *)

Definition SESSION_INUSE : Z := 1.

Record ISession := mkSession {
  _session_id : Z;
  _session_flg : Z
}.

Record SessionMgr := mkSessionMgr {
  sessions : gmap Z ISession;
  _curr_session : Z;
  _hash_map : hash
}.

(** [ISession::HashValue], and [HashCmp] with a key of identifier [id]. *)
Definition session_hash (ss : gmap Z ISession) (k : Z) : Z := u32 (from_option _session_id 0 (ss !! k)).
Definition session_cmp (ss : gmap Z ISession) (id : Z) (k : Z) : Z :=
  s32 (from_option _session_id 0 (ss !! k) - s32 (u32 id)).

Definition GetSessionId (m : SessionMgr) : SessionMgr * Z :=
  let c := s32 (_curr_session m + 1) in
  let c := if c =? 0 then s32 (c + 1) else c in
  (mkSessionMgr (sessions m) c (_hash_map m), c).

Definition InsertSession (m : SessionMgr) (k : Z) : res (SessionMgr * Z) :=
  match sessions m !! k with
  | None => Panic
  | Some s =>
      if negb (Z.land (_session_flg s) SESSION_INUSE =? 0) then Ok (m, -200)
      else
        let ss := <[k := mkSession (_session_id s) SESSION_INUSE]> (sessions m) in
        let* (h, r) := HashInsert (session_hash ss) (_hash_map m) k in
        Ok (mkSessionMgr ss (_curr_session m) h, r)
  end.

Definition FindSession (m : SessionMgr) (id : Z) : res (option Z) :=
  HashFind (_hash_map m) (u32 id) (session_cmp (sessions m) id).

Definition RemoveSession (m : SessionMgr) (id : Z) : res SessionMgr :=
  let* h := HashRemove (_hash_map m) (u32 id) (session_cmp (sessions m) id) in
  Ok (mkSessionMgr (sessions m) (_curr_session m) h).

(** ** The pool of message buffers *)

Record MtMsgBuf := mkMsgBuf {
  _max_len : Z;
  _msg_len : Z;
  _buf_type : Z;
  _recv_len : Z;
  _send_len : Z
}.

Definition BUFF_UNDEF : Z := 0.

Definition new_buf (max_len : Z) : MtMsgBuf := mkMsgBuf max_len 0 BUFF_UNDEF 0 0.
Definition Reset (b : MtMsgBuf) : MtMsgBuf := mkMsgBuf (_max_len b) 0 BUFF_UNDEF 0 0.

Record MsgBufMap := mkBufMap {
  m_max_free : Z;
  _max_buf_size : Z;
  _queue_num : Z;
  _msg_queue : list Z
}.

Record MsgBuffPool := mkPool {
  bufs : gmap Z MtMsgBuf;
  maps : gmap Z MsgBufMap;
  _max_free : Z;
  p_hash : hash
}.

Definition set_bufs (p : MsgBuffPool) b := mkPool b (maps p) (_max_free p) (p_hash p).
Definition set_maps (p : MsgBuffPool) m := mkPool (bufs p) m (_max_free p) (p_hash p).
Definition set_hash (p : MsgBuffPool) h := mkPool (bufs p) (maps p) (_max_free p) h.

(** [MsgBufMap::HashValue], and [HashCmp] with a key of size [n]. *)
Definition map_hash (ms : gmap Z MsgBufMap) (k : Z) : Z := u32 (from_option _max_buf_size 0 (ms !! k)).
Definition map_cmp (ms : gmap Z MsgBufMap) (n : Z) (k : Z) : Z :=
  s32 (from_option _max_buf_size 0 (ms !! k) - s32 (u32 n)).

(** [MsgBufMap::GetMsgBuf] of the map at [k]; [fresh] is the address of a new
    buffer. *)
Definition map_get (p : MsgBuffPool) (k fresh : Z) : res (MsgBuffPool * Z) :=
  match maps p !! k with
  | None => Panic
  | Some mp =>
      match _msg_queue mp with
      | b :: q =>
          let mp := mkBufMap (m_max_free mp) (_max_buf_size mp) (s32 (_queue_num mp - 1)) q in
          Ok (set_maps p (<[k := mp]> (maps p)), b)
      | [] => Ok (set_bufs p (<[fresh := new_buf (_max_buf_size mp)]> (bufs p)), fresh)
      end
  end.

(** [MsgBufMap::FreeMsgBuf] *)
Definition map_free (p : MsgBuffPool) (k b : Z) : res MsgBuffPool :=
  match maps p !! k, bufs p !! b with
  | Some mp, Some e =>
      if m_max_free mp <=? _queue_num mp then Ok (set_bufs p (delete b (bufs p)))
      else
        let mp := mkBufMap (m_max_free mp) (_max_buf_size mp) (s32 (_queue_num mp + 1)) (_msg_queue mp ++ [b]) in
        Ok (set_maps (set_bufs p (<[b := Reset e]> (bufs p))) (<[k := mp]> (maps p)))
  | _, _ => Panic
  end.

(** [MsgBuffPool::GetMsgBuf]; [fmap] is the address of a new map.  The branch
    for a map without its data pointer frees the map. *)
Definition GetMsgBuf (p : MsgBuffPool) (fresh fmap max_size : Z) : res (MsgBuffPool * option Z) :=
  let* item := HashFind (p_hash p) (u32 max_size) (map_cmp (maps p) max_size) in
  match item with
  | Some i =>
      let* e := get_key (p_hash p) i in
      match _data_ptr e with
      | Some k => let* (p, b) := map_get p k fresh in Ok (p, Some b)
      | None =>
          let* h := HashRemove (p_hash p) (map_hash (maps p) i) (map_cmp (maps p) (map_hash (maps p) i)) in
          Ok (set_maps (set_hash p (del_key h i)) (delete i (maps p)), None)
      end
  | None =>
      let p := set_maps p (<[fmap := mkBufMap (_max_free p) max_size 0 []]> (maps p)) in
      let p := set_hash p (put_key (p_hash p) fmap (new_key (Some fmap))) in
      let* (h, _) := HashInsert (map_hash (maps p)) (p_hash p) fmap in
      let* (p, b) := map_get (set_hash p h) fmap fresh in
      Ok (p, Some b)
  end.

(** [MsgBuffPool::FreeMsgBuf] *)
Definition FreeMsgBuf (p : MsgBuffPool) (b : Z) : res MsgBuffPool :=
  match bufs p !! b with
  | None => Panic
  | Some e =>
      let p := set_bufs p (<[b := Reset e]> (bufs p)) in
      let* d := HashFindData (p_hash p) (u32 (_max_len e)) (map_cmp (maps p) (_max_len e)) in
      match d with
      | Some k => map_free p k b
      | None => Ok (set_bufs p (delete b (bufs p)))
      end
  end.

(** [~MsgBuffPool]: the maps are taken out and deleted one by one, with the
    buffers in their queues. *)
Fixpoint destroy_loop (fuel : nat) (p : MsgBuffPool) : res MsgBuffPool :=
  match fuel with
  | O => NoFuel
  | S fuel' =>
      match HashGetFirst (p_hash p) with
      | None => Ok p
      | Some i =>
          let* h := HashRemove (p_hash p) (map_hash (maps p) i) (map_cmp (maps p) (map_hash (maps p) i)) in
          let q := from_option _msg_queue [] (maps p !! i) in
          let bs := foldr (fun b m => delete b m) (bufs p) q in
          destroy_loop fuel' (mkPool bs (delete i (maps p)) (_max_free p) (del_key h i))
      end
  end.

Definition Destroy (p : MsgBuffPool) : res MsgBuffPool := destroy_loop (S (size (maps p))) p.

End HashList.
