(* ===== verification/HashListProofs.v ===== *)
(** * Hash tables: proofs

    A table stands for the list of its keys, the newest first: the chain of a
    bucket is the part of that list whose hash values fall into the bucket. *)

From S2P Require Import Prelude HashList.
Import HashList.

(** ** Sizes *)

Lemma no_divisor_spec s i :
  no_divisor s i = true <-> forall k, 2 <= k <= s -> i mod k <> 0.
Proof.
  unfold no_divisor. rewrite forallb_forall. split; intros H k Hk.
  - specialize (H k). rewrite <-list_elem_of_In, elem_of_seqZ in H. specialize (H ltac:(lia)).
    by apply negb_true_iff, Z.eqb_neq in H.
  - rewrite <-list_elem_of_In, elem_of_seqZ in Hk. apply negb_true_iff, Z.eqb_neq, H. lia.
Qed.

Lemma prime_loop_spec fuel s : forall i,
  (Z.to_nat i <= fuel)%nat -> 0 < i ->
  let r := prime_loop fuel s i in
  1 <= r <= i /\ no_divisor s r = true /\ forall j, r < j <= i -> no_divisor s j = false.
Proof.
  induction fuel as [|fuel IH]; intros i Hf Hi; [lia|]. cbn [prime_loop].
  rewrite (proj2 (Z.ltb_lt 0 i)) by lia. destruct (no_divisor s i) eqn:E; [split_and!; try done; lia|].
  destruct (decide (i = 1)) as [->|Hne].
  - exfalso. assert (no_divisor s 1 = true) as H; [|congruence].
    apply no_divisor_spec. intros k Hk. rewrite Z.mod_1_l; lia.
  - destruct (IH (i - 1) ltac:(lia) ltac:(lia)) as (H1 & H2 & H3). split_and!; try done; [lia..|].
    intros j Hj. destruct (decide (j = i)) as [->|]; [done|]. apply H3. lia.
Qed.

(** Without a divisor up to the square root a number is prime. *)
Lemma no_divisor_prime num r :
  1 < r <= num -> no_divisor (Z.sqrt num) r = true -> Z.prime r.
Proof.
  intros Hr Hd. rewrite no_divisor_spec in Hd.
  split; [lia|]. intros d Hd1 [q Hq].
  assert (1 < q < r) as Hq1 by nia.
  assert (d * d <= num \/ q * q <= num) as [H|H] by nia.
  - apply (Hd d); [split; [lia|]; apply Z.sqrt_le_square; lia|]. rewrite Hq. apply Z.mod_mul. lia.
  - apply (Hd q); [split; [lia|]; apply Z.sqrt_le_square; lia|]. rewrite Hq, Z.mul_comm. apply Z.mod_mul. lia.
Qed.

(** [GetMaxPrimeNum] gives the largest prime up to its argument that is above
    the square root, if there is one. *)
Lemma GetMaxPrimeNum_spec num p :
  Z.prime p -> Z.sqrt num < p <= num ->
  let r := GetMaxPrimeNum num in Z.prime r /\ p <= r <= num /\ forall j, r < j <= num -> ~ Z.prime j.
Proof.
  intros Hp Hb r. pose proof (Z.prime_ge_2 p Hp). pose proof (Z.sqrt_nonneg num).
  assert (forall j, Z.prime j -> Z.sqrt num < j -> no_divisor (Z.sqrt num) j = true) as Hnd.
  { intros j Hj Hs. apply no_divisor_spec. intros k Hk Hm. apply Z.mod_divide in Hm; [|lia].
    destruct (Z.divide_prime_r k j Hj Hm) as [?|[?|[?|?]]]; lia. }
  destruct (prime_loop_spec (Z.to_nat num) (Z.sqrt num) num ltac:(lia) ltac:(lia)) as (Hr & Hrd & Hmax).
  fold (GetMaxPrimeNum num) in Hr, Hrd, Hmax. fold r in Hr, Hrd, Hmax.
  assert (p <= r) as Hpr.
  { destruct (decide (p <= r)); [done|]. specialize (Hmax p ltac:(lia)). by rewrite Hnd in Hmax by (done || lia). }
  split_and!; try done; [apply (no_divisor_prime num); [lia|done]|lia|].
  intros j Hj Hpj. specialize (Hmax j ltac:(lia)). by rewrite Hnd in Hmax by (done || lia).
Qed.

Lemma prime_loop_fuel fuel s : forall i fuel',
  (fuel <= fuel')%nat -> prime_loop fuel s i <> 0 -> prime_loop fuel' s i = prime_loop fuel s i.
Proof.
  induction fuel as [|fuel IH]; intros i [|fuel'] Hf Hn; try done; [lia|]. cbn [prime_loop] in *.
  destruct (0 <? i); [|done]. destruct (no_divisor s i); [done|]. apply IH; [lia|done].
Qed.

(** The sizes the repository uses. *)
Lemma GetMaxPrimeNum_sizes : GetMaxPrimeNum 100000 = 99991 /\ GetMaxPrimeNum 10000 = 9973.
Proof.
  unfold GetMaxPrimeNum. split.
  - assert (prime_loop 20 (Z.sqrt 100000) 100000 = 99991) as H by (vm_compute; reflexivity).
    rewrite <-H. apply prime_loop_fuel; [lia|by rewrite H].
  - assert (prime_loop 40 (Z.sqrt 10000) 10000 = 9973) as H by (vm_compute; reflexivity).
    rewrite <-H. apply prime_loop_fuel; [lia|by rewrite H].
Qed.

(** ** Chains *)

(** The keys from [p] along the links up to [q]. *)
Fixpoint lseg (ks : gmap Z HashKey) (p : option Z) (l : list Z) (q : option Z) : Prop :=
  match l with
  | [] => p = q
  | k :: l => p = Some k /\ exists e, ks !! k = Some e /\ lseg ks (_next_entry e) l q
  end.

Lemma lseg_app ks l1 l2 q : forall p,
  lseg ks p (l1 ++ l2) q <-> exists r, lseg ks p l1 r /\ lseg ks r l2 q.
Proof.
  induction l1 as [|k l1 IH]; intros p; cbn; [by split; [intros; exists p|intros (? & -> & ?)]|].
  setoid_rewrite IH. split.
  - intros (-> & e & He & r & H1 & H2). exists r. split; [split; [done|by exists e]|done].
  - intros (r & (-> & e & He & H1) & H2). split; [done|]. exists e. split; [done|by exists r].
Qed.

Lemma lseg_ext ks ks' l q : forall p,
  (forall x, x ∈ l -> ks !! x = ks' !! x) -> lseg ks p l q -> lseg ks' p l q.
Proof.
  induction l as [|k l IH]; intros p Hx; cbn; [done|]. intros (-> & e & He & Hl). split; [done|]. exists e.
  split; [by rewrite <-Hx by left|]. apply IH; [|done]. intros x Hin. apply Hx. by right.
Qed.

Lemma lseg_put ks k e l p q : k ∉ l -> lseg ks p l q -> lseg (<[k := e]> ks) p l q.
Proof. intros Hk. apply lseg_ext. intros x Hx. rewrite lookup_insert_ne; [done|]. by intros ->. Qed.

(** ** Tables *)

Lemma s32_add_l a b : s32 (s32 a + b) = s32 (a + b).
Proof.
  unfold wraps. f_equal. replace (_ - _ + b + _) with ((a + 2 ^ (32 - 1)) mod 2 ^ 32 + b) by lia.
  rewrite Zplus_mod_idemp_l. f_equal. lia.
Qed.

Section Table.
Context (HashValue : Z -> Z).

Definition in_bucket (m i : Z) (k : Z) : Prop := HashValue k mod m = i.
#[local] Instance in_bucket_dec m i k : Decision (in_bucket m i k).
Proof. unfold in_bucket. apply _. Defined.

Definition chain_of (m i : Z) (L : list Z) : list Z := filter (in_bucket m i) L.

Record table (h : hash) (L : list Z) : Prop := {
  t_max : 0 < _max h < 2 ^ 31;
  t_len : Z.of_nat (length (_buckets h)) = _max h;
  t_chain : forall i p, 0 <= i -> _buckets h !! Z.to_nat i = Some p ->
    lseg (keys h) p (chain_of (_max h) i L) None;
  t_nodup : NoDup L;
  t_in : forall k, k ∈ L -> exists e, keys h !! k = Some e /\ _hash_value e = HashValue k;
  t_out : forall k e, keys h !! k = Some e -> k ∉ L -> _hash_value e = 0 /\ _next_entry e = None;
  t_count : _count h = s32 (Z.of_nat (length L))
}.

(** What a lookup compares. *)
Definition matches (hv : Z) (cmp : Z -> Z) (k : Z) : bool := (HashValue k =? hv) && (cmp k =? 0).

Fixpoint first_match (P : Z -> bool) (L : list Z) : option Z :=
  match L with [] => None | k :: L => if P k then Some k else first_match P L end.

Fixpoint remove_first (P : Z -> bool) (L : list Z) : list Z :=
  match L with [] => [] | k :: L => if P k then L else k :: remove_first P L end.

Lemma first_match_Some P L k : first_match P L = Some k -> k ∈ L /\ P k = true.
Proof.
  induction L as [|x L IH]; cbn; [done|]. destruct (P x) eqn:E; [intros [= ->]; split; [left|done]|].
  intros H. destruct (IH H). split; [by right|done].
Qed.

Lemma first_match_None P L : first_match P L = None <-> forall k, k ∈ L -> P k = false.
Proof.
  induction L as [|x L IH]; cbn; [split; [intros _ k Hk; by apply elem_of_nil in Hk|done]|].
  destruct (P x) eqn:E; split.
  - done.
  - intros H. by rewrite H in E by left.
  - rewrite IH. intros H k [->|Hk]%elem_of_cons; auto.
  - intros H. apply IH. intros k Hk. apply H. by right.
Qed.

(** Within the bucket of its hash value a lookup sees all that matters. *)
Lemma first_match_chain m hv cmp L :
  first_match (matches hv cmp) (chain_of m (hv mod m) L) = first_match (matches hv cmp) L.
Proof.
  induction L as [|k L IH]; [done|]. unfold chain_of. rewrite filter_cons. fold (chain_of m (hv mod m) L).
  destruct (decide (in_bucket m (hv mod m) k)) as [Hb|Hb]; cbn [first_match]; [by rewrite IH|].
  rewrite IH. unfold matches at 2. destruct (Z.eqb_spec (HashValue k) hv) as [<-|]; [|done].
  by destruct Hb.
Qed.

Lemma remove_first_chain m i hv cmp L :
  chain_of m i (remove_first (matches hv cmp) L) =
    if decide (i = hv mod m) then remove_first (matches hv cmp) (chain_of m i L) else chain_of m i L.
Proof.
  induction L as [|k L IH]; [by destruct (decide _)|]. cbn [remove_first]. unfold chain_of in *. rewrite !filter_cons.
  destruct (matches hv cmp k) eqn:Em.
  - apply andb_prop in Em as [Ehv%Z.eqb_eq Ec]. destruct (decide (in_bucket m i k)) as [Hb|Hb].
    + rewrite decide_True by (unfold in_bucket in Hb; congruence). cbn [remove_first].
      unfold matches at 1. by rewrite Ehv, Z.eqb_refl, Ec.
    + rewrite decide_False; [done|]. intros ->. apply Hb. unfold in_bucket. by rewrite Ehv.
  - rewrite filter_cons, IH. destruct (decide (in_bucket m i k)), (decide (i = hv mod m)); try done.
    cbn [remove_first]. by rewrite Em.
Qed.

Lemma remove_first_sub P L k : k ∈ remove_first P L -> k ∈ L.
Proof.
  induction L as [|x L IH]; cbn; [done|]. destruct (P x); [by right|].
  intros [->|Hk]%elem_of_cons; [left|right; auto].
Qed.

Lemma remove_first_NoDup P L : NoDup L -> NoDup (remove_first P L).
Proof.
  induction 1 as [|x L Hx HL IH]; cbn; [constructor|]. destruct (P x); [done|]. constructor; [|done].
  intros H%remove_first_sub. done.
Qed.

Lemma remove_first_split P L :
  match first_match P L with
  | None => remove_first P L = L
  | Some k => exists l1 l2, L = l1 ++ k :: l2 /\ remove_first P L = l1 ++ l2 /\ forall x, x ∈ l1 -> P x = false
  end.
Proof.
  induction L as [|x L IH]; cbn; [done|]. destruct (P x) eqn:E.
  - exists [], L. split_and!; try done. intros y Hy. by apply elem_of_nil in Hy.
  - destruct (first_match P L) as [k|]; [|by rewrite IH].
    destruct IH as (l1 & l2 & -> & -> & Hl). exists (x :: l1), l2. split_and!; try done.
    intros y [->|Hy]%elem_of_cons; auto.
Qed.

Lemma table_get h L i : table h L -> 0 <= i < _max h -> exists p, array_get (_buckets h) i = Ok p /\
  lseg (keys h) p (chain_of (_max h) i L) None.
Proof.
  intros T Hi. destruct (array_get_lt (_buckets h) i) as (p & Hp & Hlk); [rewrite (t_len _ _ T); lia|].
  exists p. split; [done|]. apply (t_chain _ _ T); [lia|done].
Qed.

Lemma chain_sub m i L k : k ∈ chain_of m i L -> k ∈ L /\ HashValue k mod m = i.
Proof. intros [? ?]%list_elem_of_filter. done. Qed.

Lemma chain_NoDup m i L : NoDup L -> NoDup (chain_of m i L).
Proof. apply NoDup_filter. Qed.

Lemma chain_length h L i : table h L -> (length (chain_of (_max h) i L) <= size (keys h))%nat.
Proof.
  intros T. transitivity (length L); [apply length_filter|].
  assert (list_to_set L ⊆@{gset Z} dom (keys h)) as Hs.
  { intros k Hk. apply elem_of_list_to_set in Hk. apply elem_of_dom. destruct (t_in _ _ T k Hk) as (e & -> & _). done. }
  apply subseteq_size in Hs. rewrite size_list_to_set in Hs by apply (t_nodup _ _ T). by rewrite size_dom in Hs.
Qed.

Lemma find_loop_spec h L hv cmp : forall l p fuel,
  (length l < fuel)%nat -> lseg (keys h) p l None -> (forall k, k ∈ l -> k ∈ L) -> table h L ->
  find_loop fuel h hv cmp p = Ok (first_match (matches hv cmp) l).
Proof.
  induction l as [|k l IH]; intros p [|fuel] Hf Hl Hsub T; try (simpl in Hf; lia); cbn in Hl; cbn [find_loop].
  { by subst p. }
  destruct Hl as (-> & e & He & Hl). unfold get_key. rewrite He. cbn [res_bind first_match].
  destruct (t_in _ _ T k) as (e' & He' & Hv); [apply Hsub; left|]. rewrite He in He'. injection He' as <-.
  rewrite Hv. unfold matches at 1.
  assert (find_loop fuel h hv cmp (_next_entry e) = Ok (first_match (matches hv cmp) l)) as IH'.
  { apply IH; try done; [simpl in Hf; lia|]. intros; apply Hsub; by right. }
  destruct (HashValue k =? hv); cbn [negb andb]; [|done]. by destruct (cmp k =? 0).
Qed.

Lemma HashFind_spec h L hv cmp :
  table h L -> HashFind h hv cmp = Ok (first_match (matches hv cmp) L).
Proof.
  intros T. pose proof (t_max _ _ T). unfold HashFind.
  destruct (table_get h L (hv mod _max h) T) as (p & -> & Hl); [apply Z.mod_pos_bound; lia|]. cbn [res_bind].
  pose proof (chain_length h L (hv mod _max h) T).
  rewrite (find_loop_spec h L hv cmp (chain_of (_max h) (hv mod _max h) L)); try done; [|lia|].
  - by rewrite first_match_chain.
  - intros k Hk. by apply chain_sub in Hk as [? _].
Qed.

Lemma HashInsert_spec h L k e :
  table h L -> keys h !! k = Some e ->
  (k ∉ L -> exists h', HashInsert HashValue h k = Ok (h', 0) /\ table h' (k :: L) /\
     keys h' = <[k := mkKey (_next_entry (default e (keys h' !! k))) (HashValue k) (_data_ptr e)]> (keys h)) /\
  (k ∈ L -> HashValue k <> 0 -> HashInsert HashValue h k = Ok (h, -2)).
Proof.
  intros T He. pose proof (t_max _ _ T) as Hmax. unfold HashInsert, get_key. rewrite He. cbn [res_bind]. split.
  2: { intros Hk Hv. destruct (t_in _ _ T k Hk) as (e' & He' & Hh). rewrite He in He'. injection He' as <-.
    by rewrite Hh, (proj2 (Z.eqb_neq _ _) Hv). }
  intros Hk. destruct (t_out _ _ T k e He Hk) as [-> ->]. rewrite bool_decide_eq_false_2 by (intros H; by apply H).
  cbn [Z.eqb negb orb]. set (idx := HashValue k mod _max h).
  assert (0 <= idx < _max h) as Hidx by (apply Z.mod_pos_bound; lia).
  destruct (table_get h L idx T Hidx) as (p & Hp & Hl). rewrite Hp. cbn [res_bind].
  rewrite array_set_lt by (rewrite (t_len _ _ T); lia). cbn [res_bind].
  eexists. split; [done|]. cbn [set_count put_key set_buckets keys _buckets _count _max].
  split.
  - split; cbn [set_count put_key set_buckets keys _buckets _count _max].
    + done.
    + by rewrite length_insert, (t_len _ _ T).
    + intros i q Hi Hq. unfold chain_of. rewrite filter_cons. fold (chain_of (_max h) i L).
      assert (k ∉ chain_of (_max h) i L) as Hkc by (intros H%chain_sub; by destruct H).
      destruct (decide (i = idx)) as [->|Hne].
      * rewrite decide_True by done. rewrite list_lookup_insert_eq in Hq by (pose proof (t_len _ _ T); lia).
        injection Hq as <-. cbn [lseg]. split; [done|]. eexists. rewrite lookup_insert_eq. split; [done|]. cbn [_next_entry].
        by apply lseg_put.
      * rewrite decide_False by (unfold in_bucket; fold idx; congruence).
        rewrite list_lookup_insert_ne in Hq by lia. apply lseg_put; [done|]. by apply (t_chain _ _ T).
    + constructor; [done|apply (t_nodup _ _ T)].
    + intros x [->|Hx]%elem_of_cons; [eexists; rewrite lookup_insert_eq; by split|].
      rewrite lookup_insert_ne by (intros ->; done). by apply (t_in _ _ T).
    + intros x ex Hx Hnx. apply not_elem_of_cons in Hnx as [Hne Hnx]. rewrite lookup_insert_ne in Hx by done.
      by apply (t_out _ _ T x).
    + rewrite (t_count _ _ T). simpl length. rewrite Nat2Z.inj_succ. apply s32_add_l.
  - by rewrite lookup_insert_eq.
Qed.

Lemma remove_loop_miss h L hv cmp : forall l fuel prev item,
  (length l < fuel)%nat -> lseg (keys h) item l None -> (forall k, k ∈ l -> k ∈ L) -> table h L ->
  first_match (matches hv cmp) l = None -> remove_loop fuel h hv cmp prev item = Ok h.
Proof.
  induction l as [|k l IH]; intros [|fuel] prev item Hf Hl Hsub T Hn; try (simpl in Hf; lia); cbn in Hl; cbn [remove_loop].
  { by subst item. }
  destruct Hl as (-> & e & He & Hl). unfold get_key. rewrite He. cbn [res_bind first_match] in *.
  destruct (t_in _ _ T k) as (e' & He' & Hv); [apply Hsub; left|]. rewrite He in He'. injection He' as <-.
  fold (matches hv cmp k) in Hn. rewrite Hv. fold (matches hv cmp k). destruct (matches hv cmp k); [done|].
  apply IH; try done; [simpl in Hf; lia|]. intros; apply Hsub; by right.
Qed.

Lemma remove_loop_hit h L hv cmp k l2 : forall l1 fuel prev item,
  (length (l1 ++ k :: l2) < fuel)%nat -> lseg (keys h) item (l1 ++ k :: l2) None ->
  (forall x, x ∈ l1 ++ [k] -> x ∈ L) -> table h L ->
  (forall x, x ∈ l1 -> matches hv cmp x = false) -> matches hv cmp k = true ->
  exists e, keys h !! k = Some e /\
    remove_loop fuel h hv cmp prev item =
      unlink h (hv mod _max h) (if last l1 is Some x then Some x else prev) k e.
Proof.
  induction l1 as [|y l1 IH]; intros [|fuel] prev item Hf Hl Hsub T Hno Hk; try (simpl in Hf; lia);
    cbn in Hl; cbn [remove_loop]; destruct Hl as (-> & e & He & Hl); unfold get_key; rewrite He; cbn [res_bind].
  - destruct (t_in _ _ T k) as (e' & He' & Hv); [apply Hsub; left|]. rewrite He in He'. injection He' as <-.
    rewrite Hv. fold (matches hv cmp k). rewrite Hk. by exists e.
  - destruct (t_in _ _ T y) as (e' & He' & Hv); [apply Hsub; left|]. rewrite He in He'. injection He' as <-.
    rewrite Hv. fold (matches hv cmp y). rewrite (Hno y) by left.
    destruct (IH fuel (Some y) (_next_entry e)) as (ek & Hek & ->); try done; [simpl in Hf; lia|..].
    + intros x Hx. apply Hsub. by right.
    + intros x Hx. apply Hno. by right.
    + exists ek. split; [done|]. rewrite last_cons. by destruct (last l1).
Qed.

(** Key [k] leaves the table: its chain is linked around it, and nothing else
    changes. *)
Lemma table_unlinked h h' a k b d :
  table h (a ++ k :: b) ->
  let idx := HashValue k mod _max h in let A := chain_of (_max h) idx a in
  _max h' = _max h -> length (_buckets h') = length (_buckets h) ->
  (forall i, 0 <= i -> i <> idx -> _buckets h' !! Z.to_nat i = _buckets h !! Z.to_nat i) ->
  (forall p, _buckets h' !! Z.to_nat idx = Some p -> lseg (keys h') p (A ++ chain_of (_max h) idx b) None) ->
  keys h' !! k = Some (mkKey None 0 d) ->
  (forall x, x <> k -> x ∉ A -> keys h' !! x = keys h !! x) ->
  (forall x, x <> k -> _hash_value <$> keys h' !! x = _hash_value <$> keys h !! x) ->
  _count h' = s32 (_count h - 1) -> table h' (a ++ b).
Proof.
  intros T idx A Hm Hlen Hbne Hchain Hk Hsame Hhv Hcnt. pose proof (t_max _ _ T) as Hmax.
  pose proof (t_nodup _ _ T) as Hnd. apply NoDup_app in Hnd as (Hnda & Hdis & Hndb).
  apply NoDup_cons in Hndb as [Hkb Hndb]. assert (k ∉ a) as Hka by (intros H; apply (Hdis k H); left).
  assert (forall x, x ∈ a ++ b -> x ∈ a ++ k :: b) as Hsub by (intros x; rewrite !elem_of_app, elem_of_cons; tauto).
  assert (forall x, x ∈ a ++ b -> x <> k) as Hne by (intros x [?|?]%elem_of_app ->; done).
  split; rewrite ?Hm.
  - done.
  - rewrite Hlen. apply (t_len _ _ T).
  - intros i p Hi Hp. unfold chain_of. rewrite filter_app. fold (chain_of (_max h) i a) (chain_of (_max h) i b).
    destruct (decide (i = idx)) as [->|Hneq]; [by apply Hchain|].
    rewrite Hbne in Hp by done. pose proof (t_chain _ _ T i p Hi Hp) as Hl.
    unfold chain_of in Hl. rewrite filter_app, filter_cons, decide_False in Hl by (intros H; by apply Hneq).
    apply (lseg_ext (keys h)); [|done]. intros x Hx. symmetry.
    assert (x ∈ a ++ b /\ HashValue x mod _max h = i) as [Hin Hix].
    { apply elem_of_app in Hx as [Hx|Hx]; apply chain_sub in Hx as [? ?]; split; try done; apply elem_of_app; auto. }
    apply Hsame; [by apply Hne|]. intros [_ Hx2]%chain_sub. congruence.
  - apply NoDup_app. split_and!; try done. intros x Hx Hxb. apply (Hdis x Hx). by right.
  - intros x Hx. destruct (t_in _ _ T x (Hsub x Hx)) as (e & He & Hv). specialize (Hhv x (Hne x Hx)).
    rewrite He in Hhv. destruct (keys h' !! x) as [e'|]; [|done]. injection Hhv as Hhv. exists e'. split; [done|congruence].
  - intros x e Hx Hnx. destruct (decide (x = k)) as [->|Hxk]; [rewrite Hk in Hx; by injection Hx as <-|].
    apply not_elem_of_app in Hnx as [Hxa Hxb]. rewrite Hsame in Hx; [|done|by intros [? _]%chain_sub].
    apply (t_out _ _ T x e Hx). rewrite elem_of_app, elem_of_cons. tauto.
  - rewrite Hcnt, (t_count _ _ T), !length_app. simpl length. rewrite <-Z.add_opp_r, s32_add_l. f_equal. lia.
Qed.

Lemma chain_split m a k b :
  let idx := HashValue k mod m in
  chain_of m idx (a ++ k :: b) = chain_of m idx a ++ k :: chain_of m idx b.
Proof. cbn zeta. unfold chain_of. rewrite filter_app, filter_cons, decide_True by done. done. Qed.

Lemma unlink_spec h a k b e :
  table h (a ++ k :: b) -> keys h !! k = Some e ->
  let idx := HashValue k mod _max h in
  exists h', unlink h idx (last (chain_of (_max h) idx a)) k e = Ok h' /\ table h' (a ++ b) /\
    (forall x, _data_ptr <$> keys h' !! x = _data_ptr <$> keys h !! x) /\ _max h' = _max h.
Proof.
  intros T He idx. pose proof (t_max _ _ T) as Hmax.
  assert (0 <= idx < _max h) as Hidx by (apply Z.mod_pos_bound; lia). pose proof (t_len _ _ T) as Hlen.
  destruct (array_get_lt (_buckets h) idx) as (bp & _ & Hbp); [lia|].
  pose proof (t_chain _ _ T idx bp ltac:(lia) Hbp) as Hl. unfold idx in Hl at 1. rewrite chain_split in Hl. fold idx in Hl.
  pose proof (chain_NoDup (_max h) idx _ (t_nodup _ _ T)) as Hnd. unfold idx in Hnd at 1. rewrite chain_split in Hnd. fold idx in Hnd.
  pose proof (table_unlinked h) as Hgen. set (A := chain_of (_max h) idx a) in *. set (B := chain_of (_max h) idx b) in *.
  apply NoDup_app in Hnd as (HndA & HAB & HndB). apply NoDup_cons in HndB as [HkB HndB].
  assert (k ∉ A) as HkA by (intros H; apply (HAB k H); left).
  unfold unlink. destruct (last A) as [p|] eqn:Elast.
  - apply last_Some in Elast as [A0 EA]. rewrite EA in Hl, HndA, HAB, HkA.
    assert (p <> k) as Hpk by (intros ->; apply HkA, elem_of_app; right; left).
    apply NoDup_app in HndA as (_ & HpA0 & _).
    assert (p ∉ A0) as Hp0 by (intros H; apply (HpA0 p H); left).
    assert (p ∉ B) as HpB by (intros H; apply (HAB p); [apply elem_of_app; right; left|by right]).
    rewrite <-app_assoc in Hl. apply lseg_app in Hl as (r & HA0 & Hl). cbn in Hl.
    destruct Hl as (-> & ep & Hep & Hnp & ek & Hek & HB). rewrite He in Hek. injection Hek as <-.
    unfold get_key. rewrite Hep. cbn [res_bind]. eexists. split; [done|]. cbn [keys put_key set_count _max]. split; [|split].
    + apply (Hgen _ a k b (_data_ptr e) T); cbn [keys put_key set_count _max _buckets _count]; try done.
      * intros q Hq. fold idx in Hq. rewrite Hbp in Hq. injection Hq as <-. fold idx A B. rewrite EA, <-app_assoc.
        apply lseg_put; [intros [?|[?%list_elem_of_singleton|?]%elem_of_app]%elem_of_app; try done; apply HkA, elem_of_app; by left|].
        apply lseg_app. exists (Some p). split; [by apply lseg_put|]. cbn [lseg app]. split; [done|]. eexists.
        rewrite lookup_insert_eq. split; [done|]. cbn [_next_entry]. by apply lseg_put.
      * by rewrite lookup_insert_eq.
      * fold idx A. rewrite EA. intros x Hxk Hx. rewrite !lookup_insert_ne; [done| |done].
        intros ->. apply Hx, elem_of_app; right; left.
      * intros x Hxk. rewrite lookup_insert_ne by done. destruct (decide (x = p)) as [->|];
          [by rewrite lookup_insert_eq, Hep|by rewrite lookup_insert_ne].
    + intros x. destruct (decide (x = k)) as [->|]; [by rewrite lookup_insert_eq, He|rewrite lookup_insert_ne by done].
      destruct (decide (x = p)) as [->|]; [by rewrite lookup_insert_eq, Hep|by rewrite lookup_insert_ne].
    + done.
  - apply last_None in Elast. rewrite Elast in Hl. cbn [app lseg] in Hl. destruct Hl as (-> & ek & Hek & HB).
    rewrite He in Hek. injection Hek as <-. rewrite array_set_lt by lia. cbn [res_bind]. eexists. split; [done|].
    cbn [keys put_key set_count set_buckets _max]. split; [|split].
    + apply (Hgen _ a k b (_data_ptr e) T); cbn [keys put_key set_count set_buckets _max _buckets _count]; try done.
      * by rewrite length_insert.
      * intros i Hi Hne. fold idx in Hne. fold idx. by rewrite list_lookup_insert_ne by lia.
      * fold idx A B. intros q Hq. rewrite list_lookup_insert_eq in Hq by lia. injection Hq as <-. rewrite Elast. by apply lseg_put.
      * by rewrite lookup_insert_eq.
      * intros x Hxk _. by rewrite lookup_insert_ne.
      * intros x Hxk. by rewrite lookup_insert_ne.
    + intros x. destruct (decide (x = k)) as [->|]; [by rewrite lookup_insert_eq, He|by rewrite lookup_insert_ne].
    + done.
Qed.

Lemma HashRemove_spec h L hv cmp :
  table h L -> exists h', HashRemove h hv cmp = Ok h' /\ table h' (remove_first (matches hv cmp) L) /\
    (forall x, _data_ptr <$> keys h' !! x = _data_ptr <$> keys h !! x) /\ _max h' = _max h.
Proof.
  intros T. pose proof (t_max _ _ T) as Hmax. unfold HashRemove.
  destruct (table_get h L (hv mod _max h) T) as (p & -> & Hl); [apply Z.mod_pos_bound; lia|]. cbn [res_bind].
  pose proof (chain_length h L (hv mod _max h) T) as Hlen. pose proof (remove_first_split (matches hv cmp) L) as Hs.
  destruct (first_match (matches hv cmp) L) as [k|] eqn:Ef.
  - destruct Hs as (a & b & EL & -> & Hno). apply first_match_Some in Ef as [_ Hk].
    pose proof Hk as Hk'. apply andb_prop in Hk' as [<-%Z.eqb_eq _]. rewrite EL, chain_split in Hl. rewrite EL, chain_split in Hlen.
    destruct (remove_loop_hit h L (HashValue k) cmp k (chain_of (_max h) (HashValue k mod _max h) b)
      (chain_of (_max h) (HashValue k mod _max h) a) (S (size (keys h))) None p) as (e & He & ->); try done; [lia|..].
    + intros x [[Hx _]%chain_sub| ->%list_elem_of_singleton]%elem_of_app; rewrite EL; apply elem_of_app; [by left|right; left].
    + intros x [Hx _]%chain_sub. by apply Hno.
    + subst L. destruct (unlink_spec h a k b e T He) as (h' & Hu & T' & Hd & Hm'). exists h'. split; [|done].
      rewrite <-Hu. f_equal. by destruct (last _).
  - rewrite Hs. exists h. split_and!; try done.
    apply (remove_loop_miss h L hv cmp (chain_of (_max h) (hv mod _max h) L)); try done; [lia|..].
    + intros x [? _]%chain_sub. done.
    + by rewrite first_match_chain.
Qed.

Lemma HashList_spec max ks :
  max < 2 ^ 31 -> (forall k e, ks !! k = Some e -> _hash_value e = 0 /\ _next_entry e = None) ->
  table (HashList max ks) [] /\ keys (HashList max ks) = ks.
Proof.
  intros Hmax Hks. unfold HashList. set (num := if 2 <? max then max else 100000).
  assert (0 < num < 2 ^ 31) as Hn by (unfold num; destruct (Z.ltb_spec 2 max); lia).
  destruct (prime_loop_spec (Z.to_nat num) (Z.sqrt num) num ltac:(lia) ltac:(lia)) as (Hr & _ & _).
  fold (GetMaxPrimeNum num) in Hr. split; [|done]. split; cbn [keys _buckets _count _max].
  - lia.
  - rewrite length_replicate. lia.
  - intros i p Hi Hp. by apply lookup_replicate in Hp as [-> _].
  - constructor.
  - intros k Hk. by apply elem_of_nil in Hk.
  - intros k e Hk _. by apply (Hks k).
  - done.
Qed.

Lemma HashGetFirst_spec h L :
  table h L ->
  match HashGetFirst h with
  | None => L = []
  | Some k => k ∈ L
  end.
Proof.
  intros T. pose proof (t_max _ _ T) as Hmax. unfold HashGetFirst.
  assert (match first_bucket (_buckets h) with
    | None => forall i p, _buckets h !! i = Some p -> p = None
    | Some k => exists i, _buckets h !! i = Some (Some k) end) as Hf.
  { induction (_buckets h) as [|[k|] b IH]; cbn; [done|by exists 0%nat|].
    destruct (first_bucket b) as [k|]; [destruct IH as [i Hi]; by exists (S i)|].
    intros [|i] p Hp; [by injection Hp|by apply (IH i)]. }
  destruct (first_bucket (_buckets h)) as [k|].
  - destruct Hf as [i Hi]. pose proof (t_chain _ _ T (Z.of_nat i) (Some k) ltac:(lia)) as Hl.
    rewrite Nat2Z.id in Hl. specialize (Hl Hi). destruct (chain_of _ _ L) as [|x l] eqn:E; [done|].
    cbn in Hl. destruct Hl as ([= ->] & _). apply (chain_sub (_max h) (Z.of_nat i)). rewrite E. left.
  - destruct L as [|k L]; [done|]. exfalso.
    destruct (table_get h (k :: L) (HashValue k mod _max h) T) as (p & Hp & Hl); [apply Z.mod_pos_bound; lia|].
    apply array_get_Ok in Hp as [_ Hp]. apply Hf in Hp as ->. unfold chain_of in Hl.
    rewrite filter_cons, decide_True in Hl by done. by destruct Hl.
Qed.

Lemma filter_split (P Q R : Z -> Prop) `{!forall x, Decision (P x), !forall x, Decision (Q x), !forall x, Decision (R x)} (l : list Z) :
  (forall x, ~ (P x /\ Q x)) -> (forall x, R x <-> P x \/ Q x) -> filter P l ++ filter Q l ≡ₚ filter R l.
Proof.
  intros Hd HR. induction l as [|x l IH]; [done|]. rewrite !filter_cons.
  destruct (decide (P x)) as [HP|HP], (decide (Q x)) as [HQ|HQ].
  - by destruct (Hd x).
  - rewrite decide_True by (apply HR; auto). cbn. by rewrite IH.
  - rewrite decide_True by (apply HR; auto). by rewrite <-Permutation_middle, IH.
  - rewrite decide_False by (intros [?|?]%HR; auto). done.
Qed.

Lemma foreach_chain_spec h : forall l fuel p,
  (length l < fuel)%nat -> lseg (keys h) p l None -> foreach_chain fuel h p = Ok l.
Proof.
  induction l as [|k l IH]; intros [|fuel] p Hf Hl; try (simpl in Hf; lia); cbn in Hl; cbn [foreach_chain]; [by subst p|].
  destruct Hl as (-> & e & He & Hl). unfold get_key. rewrite He. cbn [res_bind].
  rewrite (IH fuel) by (done || simpl in Hf; lia). done.
Qed.

(** [HashForeach] visits every key once. *)
Lemma HashForeach_spec h L : table h L -> exists l, HashForeach h = Ok l /\ l ≡ₚ L.
Proof.
  intros T. pose proof (t_max _ _ T) as Hmax. unfold HashForeach.
  assert (forall b i, 0 <= i -> (forall j p, b !! j = Some p -> _buckets h !! Z.to_nat (i + Z.of_nat j) = Some p) ->
    exists l, foreach_buckets h b = Ok l /\
      l ≡ₚ filter (fun k => i <= HashValue k mod _max h < i + Z.of_nat (length b)) L) as Hgen.
  { induction b as [|p b IH]; intros i Hi Hb; cbn [foreach_buckets].
    - exists []. split; [done|]. rewrite filter_none; [done|]. apply Forall_forall. intros k _. simpl. lia.
    - specialize (IH (i + 1) ltac:(lia)). destruct IH as (r & Hr & Hp).
      { intros j q Hq. specialize (Hb (S j) q Hq). by replace (i + 1 + Z.of_nat j) with (i + Z.of_nat (S j)) by lia. }
      specialize (Hb 0%nat p eq_refl). rewrite Z.add_0_r in Hb.
      rewrite (foreach_chain_spec h (chain_of (_max h) i L)); [|pose proof (chain_length h L i T); lia|by apply (t_chain _ _ T)].
      cbn [res_bind]. rewrite Hr. cbn [res_bind]. eexists. split; [done|]. rewrite Hp. unfold chain_of.
      apply filter_split; unfold in_bucket; simpl length; intros; lia. }
  destruct (Hgen (_buckets h) 0 ltac:(lia)) as (l & Hl & Hp).
  { intros j p Hp. by replace (Z.to_nat (0 + Z.of_nat j)) with j by lia. }
  exists l. split; [done|]. rewrite Hp, filter_all; [done|]. apply Forall_forall. intros k _. rewrite (t_len _ _ T).
  pose proof (Z.mod_pos_bound (HashValue k) (_max h)). lia.
Qed.

(** ** Sequences of operations *)

Inductive hash_op :=
| HInsert (k : Z)
| HFind (hv : Z) (cmp : Z -> Z)
| HRemove (hv : Z) (cmp : Z -> Z)
| HSize.

Inductive hash_ans := ARet (n : Z) | AKey (k : option Z) | ADone.

Definition hash_step (h : hash) (o : hash_op) : res (hash * hash_ans) :=
  match o with
  | HInsert k => let* (h, r) := HashInsert HashValue h k in Ok (h, ARet r)
  | HFind hv cmp => let* k := HashFind h hv cmp in Ok (h, AKey k)
  | HRemove hv cmp => let* h := HashRemove h hv cmp in Ok (h, ADone)
  | HSize => Ok (h, ARet (HashSize h))
  end.

(** The same on the list of the keys, the newest first. *)
Definition list_step (L : list Z) (o : hash_op) : list Z * hash_ans :=
  match o with
  | HInsert k => if decide (k ∈ L) then (L, ARet (-2)) else (k :: L, ARet 0)
  | HFind hv cmp => (L, AKey (first_match (matches hv cmp) L))
  | HRemove hv cmp => (remove_first (matches hv cmp) L, ADone)
  | HSize => (L, ARet (s32 (Z.of_nat (length L))))
  end.

Fixpoint hash_run (h : hash) (os : list hash_op) : res (hash * list hash_ans) :=
  match os with
  | [] => Ok (h, [])
  | o :: os =>
      let* (h, a) := hash_step h o in
      let* (h, r) := hash_run h os in
      Ok (h, a :: r)
  end.

Fixpoint list_run (L : list Z) (os : list hash_op) : list Z * list hash_ans :=
  match os with
  | [] => (L, [])
  | o :: os => let '(L, a) := list_step L o in let '(L, r) := list_run L os in (L, a :: r)
  end.

(** A key that is inserted is there and has a hash value other than 0. *)
Definition hop_ok (ks : gmap Z HashKey) (o : hash_op) : Prop :=
  match o with HInsert k => is_Some (ks !! k) /\ HashValue k <> 0 | _ => True end.

Lemma hash_step_spec h L o :
  table h L -> hop_ok (keys h) o ->
  exists h', hash_step h o = Ok (h', snd (list_step L o)) /\ table h' (fst (list_step L o)) /\
    forall k, is_Some (keys h !! k) -> is_Some (keys h' !! k).
Proof.
  intros T Ho. destruct o as [k|hv cmp|hv cmp|]; cbn [hash_step list_step hop_ok] in *.
  - destruct Ho as [[e He] Hv]. destruct (HashInsert_spec h L k e T He) as [Hnew Hold].
    destruct (decide (k ∈ L)) as [Hk|Hk]; cbn [fst snd].
    + rewrite (Hold Hk Hv). cbn [res_bind]. by exists h.
    + destruct (Hnew Hk) as (h' & -> & T' & Hks). cbn [res_bind]. exists h'. split_and!; try done.
      intros x Hx. rewrite Hks. destruct (decide (x = k)) as [->|]; [by rewrite lookup_insert_eq|by rewrite lookup_insert_ne].
  - rewrite (HashFind_spec h L) by done. by exists h.
  - destruct (HashRemove_spec h L hv cmp T) as (h' & -> & T' & Hd & _). cbn [res_bind]. exists h'. split_and!; try done.
    intros x [e He]. specialize (Hd x). rewrite He in Hd. by destruct (keys h' !! x).
  - exists h. split_and!; try done. cbn [snd]. by rewrite <-(t_count _ _ T).
Qed.

Lemma hash_run_spec os : forall h L,
  table h L -> Forall (hop_ok (keys h)) os ->
  exists h', hash_run h os = Ok (h', snd (list_run L os)) /\ table h' (fst (list_run L os)).
Proof.
  induction os as [|o os IH]; intros h L T Hos; cbn [hash_run list_run]; [by exists h|].
  apply Forall_cons in Hos as [Ho Hos]. destruct (hash_step_spec h L o T Ho) as (h1 & -> & T1 & Hks). cbn [res_bind].
  destruct (list_step L o) as [L1 a]. cbn [fst snd] in *.
  destruct (IH h1 L1 T1) as (h' & -> & T').
  { eapply Forall_impl; [exact Hos|]. intros [k|?|?|]; cbn [hop_ok]; try done. intros [? ?]. split; [by apply Hks|done]. }
  cbn [res_bind]. exists h'. by destruct (list_run L1 os).
Qed.
End Table.

(** ** Tables of objects that come and go *)

Lemma chain_of_ext hv hv' m i L :
  (forall k, k ∈ L -> hv k = hv' k) -> chain_of hv m i L = chain_of hv' m i L.
Proof.
  induction L as [|k L IH]; intros Hx; [done|]. unfold chain_of in *. rewrite !filter_cons, IH by (intros; apply Hx; by right).
  assert (in_bucket hv m i k <-> in_bucket hv' m i k) by (unfold in_bucket; by rewrite (Hx k) by left).
  destruct (decide (in_bucket hv m i k)), (decide (in_bucket hv' m i k)); tauto.
Qed.

Lemma table_ext hv hv' h L : (forall k, k ∈ L -> hv k = hv' k) -> table hv h L -> table hv' h L.
Proof.
  intros Hx T. split; try apply T.
  - intros i p Hi Hp. rewrite <-(chain_of_ext hv hv') by done. by apply (t_chain _ _ _ T).
  - intros k Hk. rewrite <-Hx by done. by apply (t_in _ _ _ T).
Qed.

(** The memory of a key outside of the table can change. *)
Lemma table_keys hv h L ks :
  table hv h L -> (forall k, k ∈ L -> ks !! k = keys h !! k) ->
  (forall k e, ks !! k = Some e -> k ∉ L -> _hash_value e = 0 /\ _next_entry e = None) ->
  table hv (mkHash ks (_buckets h) (_count h) (_max h)) L.
Proof.
  intros T Hin Hout. split; cbn [keys _buckets _count _max]; try apply T.
  - intros i p Hi Hp. apply (lseg_ext (keys h)); [|by apply (t_chain _ _ _ T)].
    intros x [Hx _]%chain_sub. by rewrite Hin.
  - intros k Hk. rewrite Hin by done. by apply (t_in _ _ _ T).
  - done.
Qed.

Lemma table_new_key hv h L k d : table hv h L -> k ∉ L -> table hv (put_key h k (new_key d)) L.
Proof.
  intros T Hk. apply table_keys; [done|..].
  - intros x Hx. rewrite lookup_insert_ne; [done|]. by intros ->.
  - intros x e Hx Hnx. destruct (decide (x = k)) as [->|Hne]; [rewrite lookup_insert_eq in Hx; by injection Hx as <-|].
    rewrite lookup_insert_ne in Hx by done. by apply (t_out _ _ _ T x).
Qed.

Lemma table_del_key hv h L k : table hv h L -> k ∉ L -> table hv (del_key h k) L.
Proof.
  intros T Hk. apply table_keys; [done|..].
  - intros x Hx. rewrite lookup_delete_ne; [done|]. by intros ->.
  - intros x e Hx Hnx. apply lookup_delete_Some in Hx as [_ Hx]. by apply (t_out _ _ _ T x).
Qed.

(** ** Sessions *)

Definition id_range (i : Z) : Prop := - 2 ^ 31 <= i < 2 ^ 31.

Lemma u32_inj i j : id_range i -> id_range j -> u32 i = u32 j -> i = j.
Proof.
  unfold id_range. intros Hi Hj Hu. destruct (u32_spec i) as (a & Ha & _), (u32_spec j) as (b & Hb & _). lia.
Qed.

Lemma s32_u32 i : id_range i -> s32 (u32 i) = i.
Proof.
  intros Hi. destruct (u32_spec i) as (a & Ha & Hr), (s32_spec (u32 i)) as (b & Hb & Hr2). unfold id_range in *. lia.
Qed.

(** The sessions [L] are in the table, with identifiers of their own. *)
Record mgr_ok (m : SessionMgr) (L : list Z) : Prop := {
  s_table : table (session_hash (sessions m)) (_hash_map m) L;
  s_ids : forall k s, sessions m !! k = Some s -> id_range (_session_id s);
  s_in : forall k, k ∈ L -> exists s, sessions m !! k = Some s /\ _session_flg s = SESSION_INUSE;
  s_keys : forall k, is_Some (sessions m !! k) -> is_Some (keys (_hash_map m) !! k);
  s_uniq : forall k1 k2 s1 s2, k1 ∈ L -> k2 ∈ L -> sessions m !! k1 = Some s1 -> sessions m !! k2 = Some s2 ->
    _session_id s1 = _session_id s2 -> k1 = k2
}.

Lemma session_matches m L k id :
  mgr_ok m L -> k ∈ L -> id_range id ->
  matches (session_hash (sessions m)) (u32 id) (session_cmp (sessions m) id) k =
    bool_decide (_session_id <$> sessions m !! k = Some id).
Proof.
  intros Hm Hk Hid. destruct (s_in _ _ Hm k Hk) as (s & Hs & _). pose proof (s_ids _ _ Hm k s Hs) as Hr.
  unfold matches, session_hash, session_cmp. rewrite Hs. cbn [from_option]. rewrite (s32_u32 id) by done.
  destruct (decide (_session_id s = id)) as [E|E].
  - rewrite bool_decide_eq_true_2 by (cbn; congruence). by rewrite E, Z.eqb_refl, Z.sub_diag.
  - rewrite bool_decide_eq_false_2 by (cbn; congruence).
    rewrite (proj2 (Z.eqb_neq _ _)); [done|]. intros H%u32_inj; done.
Qed.

(** [FindSession] gives the session with the identifier, if there is one. *)
Lemma FindSession_spec m L id :
  mgr_ok m L -> id_range id -> exists r, FindSession m id = Ok r /\
    forall k, r = Some k <-> k ∈ L /\ _session_id <$> sessions m !! k = Some id.
Proof.
  intros Hm Hid. unfold FindSession. rewrite (HashFind_spec _ _ L) by apply Hm. eexists. split; [done|].
  set (P := matches _ _ _). intros k. split.
  - intros [Hk HP]%first_match_Some. split; [done|]. unfold P in HP. rewrite (session_matches m L) in HP by done.
    by apply bool_decide_eq_true in HP.
  - intros [Hk (s & Hi & Hs)%fmap_Some]. destruct (first_match P L) as [k'|] eqn:E.
    + apply first_match_Some in E as [Hk' HP]. unfold P in HP. rewrite (session_matches m L) in HP by done.
      apply bool_decide_eq_true, fmap_Some in HP as (s' & Hs' & Hi'). f_equal. apply (s_uniq _ _ Hm k' k s' s); congruence.
    + rewrite first_match_None in E. specialize (E k Hk). unfold P in E. rewrite (session_matches m L) in E by done.
      apply bool_decide_eq_false in E. destruct E. rewrite Hi. cbn. congruence.
Qed.

Lemma InsertSession_spec m L k s :
  mgr_ok m L -> sessions m !! k = Some s -> _session_flg s = 0 -> _session_id s <> 0 ->
  (forall k' s', k' ∈ L -> sessions m !! k' = Some s' -> _session_id s' <> _session_id s) ->
  exists m', InsertSession m k = Ok (m', 0) /\ mgr_ok m' (k :: L) /\
    sessions m' = <[k := mkSession (_session_id s) SESSION_INUSE]> (sessions m).
Proof.
  intros Hm Hs Hf Hid Huniq. unfold InsertSession. rewrite Hs, Hf. cbn [Z.land Z.eqb negb].
  set (ss := <[k := _]> (sessions m)).
  assert (k ∉ L) as Hk by (intros H; destruct (s_in _ _ Hm k H) as (s' & Hs' & Hf'); unfold SESSION_INUSE in Hf'; congruence).
  assert (forall x, session_hash (sessions m) x = session_hash ss x) as Hhash.
  { intros x. unfold session_hash, ss. destruct (decide (x = k)) as [->|]; [by rewrite lookup_insert_eq, Hs|by rewrite lookup_insert_ne]. }
  destruct (s_keys _ _ Hm k) as [e He]; [by eexists|].
  destruct (HashInsert_spec (session_hash ss) (_hash_map m) L k e) as [Hnew _]; [|done|].
  { eapply table_ext; [|apply Hm]. intros; apply Hhash. }
  destruct (Hnew Hk) as (h' & -> & T' & Hks). cbn [res_bind]. eexists. split; [done|]. split; [|done].
  split; cbn [sessions _hash_map].
  - done.
  - intros x sx. unfold ss. intros [[<- <-]|[_ Hx]]%lookup_insert_Some; cbn [_session_id]; by eapply (s_ids _ _ Hm).
  - intros x [->|Hx]%elem_of_cons; unfold ss; [rewrite lookup_insert_eq; by eexists|].
    rewrite lookup_insert_ne by (intros ->; done). by apply (s_in _ _ Hm).
  - intros x Hx. rewrite Hks. unfold ss in Hx. destruct (decide (x = k)) as [->|]; [by rewrite lookup_insert_eq|].
    rewrite lookup_insert_ne by done. rewrite lookup_insert_ne in Hx by done. by apply (s_keys _ _ Hm).
  - intros x y sx sy Hx Hy. unfold ss.
    intros [[<- <-]|[Hxk Hsx]]%lookup_insert_Some [[<- <-]|[Hyk Hsy]]%lookup_insert_Some; cbn [_session_id]; intros E; try done.
    + apply elem_of_cons in Hy as [->|Hy]; [done|]. by destruct (Huniq y sy Hy Hsy).
    + apply elem_of_cons in Hx as [->|Hx]; [done|]. by destruct (Huniq x sx Hx Hsx).
    + apply elem_of_cons in Hx as [->|Hx]; [done|]. apply elem_of_cons in Hy as [->|Hy]; [done|].
      by eapply (s_uniq _ _ Hm).
Qed.

Lemma RemoveSession_spec m L id :
  mgr_ok m L -> id_range id -> exists m' L', RemoveSession m id = Ok m' /\ mgr_ok m' L' /\ sessions m' = sessions m /\
    forall k, k ∈ L' <-> k ∈ L /\ _session_id <$> sessions m !! k <> Some id.
Proof.
  intros Hm Hid. unfold RemoveSession.
  destruct (HashRemove_spec _ _ L (u32 id) (session_cmp (sessions m) id) (s_table _ _ Hm)) as (h' & -> & T' & Hd & _).
  cbn [res_bind]. eexists _, _. split; [done|]. cbn [sessions]. set (P := matches _ _ _) in *.
  assert (forall k, k ∈ remove_first P L <-> k ∈ L /\ _session_id <$> sessions m !! k <> Some id) as Hel.
  { intros k. pose proof (remove_first_split P L) as Hs. pose proof (t_nodup _ _ _ (s_table _ _ Hm)) as Hnd.
    assert (forall x, x ∈ L -> P x = bool_decide (_session_id <$> sessions m !! x = Some id)) as HP
      by (intros; by apply session_matches with L).
    destruct (first_match P L) as [x|] eqn:E.
    - destruct Hs as (a & b & EL & -> & _). apply first_match_Some in E as [Hx HPx]. rewrite HP in HPx by done.
      apply bool_decide_eq_true in HPx. apply fmap_Some in HPx as (s & Hs & Hi). rewrite EL in Hnd. apply NoDup_app in Hnd as (_ & Hab & Hnd).
      apply NoDup_cons in Hnd as [Hxb _]. split.
      + intros Hk. assert (k ∈ L) as HkL by (rewrite EL; rewrite elem_of_app, elem_of_cons; apply elem_of_app in Hk; tauto).
        split; [done|]. intros (s' & Hs' & Hi')%fmap_Some. assert (k = x) as -> by (eapply (s_uniq _ _ Hm); eauto; congruence).
        apply elem_of_app in Hk as [Hk|Hk]; [apply (Hab x Hk); left|done].
      + intros [Hk Hno]. rewrite EL, elem_of_app, elem_of_cons in Hk. rewrite elem_of_app.
        destruct Hk as [?|[->|?]]; [by left| |by right]. destruct Hno. rewrite Hs. cbn. congruence.
    - rewrite Hs. split; [|tauto]. intros Hk. split; [done|]. intros Hex. rewrite first_match_None in E.
      specialize (E k Hk). rewrite HP in E by done. by apply bool_decide_eq_false in E. }
  split; [|done]. split; cbn [sessions _hash_map].
  - done.
  - apply Hm.
  - intros k [Hk _]%Hel. by apply (s_in _ _ Hm).
  - intros k Hk. destruct (s_keys _ _ Hm k Hk) as [e He]. specialize (Hd k). rewrite He in Hd. by destruct (keys h' !! k).
  - intros k1 k2 s1 s2 [H1 _]%Hel [H2 _]%Hel. by apply (s_uniq _ _ Hm).
Qed.

(** ** The pool of message buffers *)

(** [out] are the buffers in use; the others are in the queue of the map of
    their size. *)
Record pool_ok (p : MsgBuffPool) (L : list Z) (out : gset Z) : Prop := {
  p_table : table (map_hash (maps p)) (p_hash p) L;
  p_maps : forall k, k ∈ L <-> is_Some (maps p !! k);
  p_data : forall k, k ∈ L -> exists e, keys (p_hash p) !! k = Some e /\ _data_ptr e = Some k;
  p_size : forall k mp, maps p !! k = Some mp -> id_range (_max_buf_size mp);
  p_uniq : forall k1 k2 m1 m2, maps p !! k1 = Some m1 -> maps p !! k2 = Some m2 ->
    _max_buf_size m1 = _max_buf_size m2 -> k1 = k2;
  p_num : forall k mp, maps p !! k = Some mp ->
    _queue_num mp = Z.of_nat (length (_msg_queue mp)) /\ _queue_num mp <= m_max_free mp < 2 ^ 31;
  p_nodup : forall k mp, maps p !! k = Some mp -> NoDup (_msg_queue mp);
  p_queue : forall k mp b, maps p !! k = Some mp -> b ∈ _msg_queue mp ->
    (b ∉ out) /\ bufs p !! b = Some (new_buf (_max_buf_size mp));
  p_out : forall b, b ∈ out -> exists e, bufs p !! b = Some e /\ id_range (_max_len e);
  p_all : forall b, is_Some (bufs p !! b) -> b ∈ out \/ exists k mp, maps p !! k = Some mp /\ b ∈ _msg_queue mp;
  p_free : 0 <= _max_free p < 2 ^ 31
}.

Lemma map_matches p L out k n :
  pool_ok p L out -> k ∈ L -> id_range n ->
  matches (map_hash (maps p)) (u32 n) (map_cmp (maps p) n) k =
    bool_decide (_max_buf_size <$> maps p !! k = Some n).
Proof.
  intros Hp Hk Hn. destruct (proj1 (p_maps _ _ _ Hp k) Hk) as [mp Hmp]. pose proof (p_size _ _ _ Hp k mp Hmp) as Hr.
  unfold matches, map_hash, map_cmp. rewrite Hmp. cbn [from_option fmap option_fmap option_map]. rewrite (s32_u32 n) by done.
  destruct (decide (_max_buf_size mp = n)) as [E|E].
  - rewrite bool_decide_eq_true_2 by congruence. by rewrite E, Z.eqb_refl, Z.sub_diag.
  - rewrite bool_decide_eq_false_2 by congruence. rewrite (proj2 (Z.eqb_neq _ _)); [done|]. intros H%u32_inj; done.
Qed.

Lemma pool_find p L out n :
  pool_ok p L out -> id_range n ->
  exists r, HashFind (p_hash p) (u32 n) (map_cmp (maps p) n) = Ok r /\
    match r with
    | Some k => k ∈ L /\ exists mp, maps p !! k = Some mp /\ _max_buf_size mp = n
    | None => forall k mp, maps p !! k = Some mp -> _max_buf_size mp <> n
    end.
Proof.
  intros Hp Hn. rewrite (HashFind_spec _ _ L) by apply Hp. eexists. split; [done|].
  destruct (first_match _ L) as [k|] eqn:E.
  - apply first_match_Some in E as [Hk HP]. rewrite (map_matches p L out) in HP by done.
    apply bool_decide_eq_true, fmap_Some in HP as (mp & Hmp & ->). split; [done|]. by exists mp.
  - rewrite first_match_None in E. intros k mp Hmp Hs. assert (k ∈ L) as Hk by (apply (p_maps _ _ _ Hp); by eexists).
    specialize (E k Hk). rewrite (map_matches p L out) in E by done. apply bool_decide_eq_false in E.
    apply E. rewrite Hmp. cbn. by rewrite Hs.
Qed.

(** A change of the queue of a map keeps the table. *)
Lemma map_hash_queue ms k mp mp' x :
  ms !! k = Some mp -> _max_buf_size mp' = _max_buf_size mp -> map_hash ms x = map_hash (<[k := mp']> ms) x.
Proof.
  intros Hk Hs. unfold map_hash. destruct (decide (x = k)) as [->|].
  - by rewrite lookup_insert_eq, Hk; cbn; rewrite Hs.
  - by rewrite lookup_insert_ne.
Qed.

Lemma map_get_spec p L out k mp fresh :
  pool_ok p L out -> maps p !! k = Some mp -> bufs p !! fresh = None ->
  exists p' b, map_get p k fresh = Ok (p', b) /\ pool_ok p' L ({[b]} ∪ out) /\ (b ∉ out) /\
    bufs p' !! b = Some (new_buf (_max_buf_size mp)).
Proof.
  intros Hp Hmp Hfresh. unfold map_get. rewrite Hmp. destruct (_msg_queue mp) as [|b q] eqn:Eq.
  - assert (fresh ∉ out) as Hfo by (intros H; destruct (p_out _ _ _ Hp fresh H) as (? & ? & _); congruence).
    eexists _, fresh. split; [done|]. cbn [set_bufs bufs]. rewrite lookup_insert_eq. split; [|done].
    split; cbn [set_bufs bufs maps p_hash _max_free]; try apply Hp.
    + intros k' mp' b Hk' Hb. destruct (p_queue _ _ _ Hp k' mp' b Hk' Hb) as [Hout Hbuf].
      assert (b <> fresh) by congruence. rewrite lookup_insert_ne by done. set_solver.
    + intros b [->%elem_of_singleton|Hb]%elem_of_union.
      { rewrite lookup_insert_eq. eexists. split; [done|]. by apply (p_size _ _ _ Hp k). }
      rewrite lookup_insert_ne by (intros ->; done). by apply (p_out _ _ _ Hp).
    + intros b Hb. destruct (decide (b = fresh)) as [->|Hne]; [left; set_solver|].
      rewrite lookup_insert_ne in Hb by done. destruct (p_all _ _ _ Hp b Hb); [left; set_solver|by right].
  - assert (b ∈ _msg_queue mp) as Hb by (rewrite Eq; left).
    destruct (p_queue _ _ _ Hp k mp b Hmp Hb) as [Hout Hbuf]. pose proof (p_nodup _ _ _ Hp k mp Hmp) as Hnd.
    rewrite Eq in Hnd. apply NoDup_cons in Hnd as [Hbq Hndq]. destruct (p_num _ _ _ Hp k mp Hmp) as [Hnum Hmax].
    rewrite Eq in Hnum. simpl length in Hnum. rewrite wraps_small by lia.
    eexists _, b. split; [done|]. cbn [set_maps bufs]. split; [|done]. set (mp' := mkBufMap _ _ _ q).
    split; cbn [set_maps bufs maps p_hash _max_free].
    + eapply table_ext; [|apply Hp]. intros x _. by apply (map_hash_queue _ k mp).
    + intros x. rewrite (p_maps _ _ _ Hp). destruct (decide (x = k)) as [->|]; [rewrite lookup_insert_eq, Hmp|rewrite lookup_insert_ne by done]; done.
    + apply Hp.
    + intros x mx [[<- <-]|[_ Hx]]%lookup_insert_Some; [by apply (p_size _ _ _ Hp k mp)|by apply (p_size _ _ _ Hp x)].
    + intros x y mx my [[<- <-]|[Hxk Hx]]%lookup_insert_Some [[<- <-]|[Hyk Hy]]%lookup_insert_Some E; try done;
        by eapply (p_uniq _ _ _ Hp).
    + intros x mx [[<- <-]|[_ Hx]]%lookup_insert_Some; [cbn; lia|by apply (p_num _ _ _ Hp x)].
    + intros x mx [[<- <-]|[_ Hx]]%lookup_insert_Some; [done|by apply (p_nodup _ _ _ Hp x)].
    + intros x mx y [[<- <-]|[Hxk Hx]]%lookup_insert_Some Hy.
      * destruct (p_queue _ _ _ Hp k mp y Hmp) as [? ?]; [rewrite Eq; by right|]. assert (y <> b) by (intros ->; done). set_solver.
      * destruct (p_queue _ _ _ Hp x mx y Hx Hy) as [? Hbuf']. assert (y <> b); [|set_solver].
        intros ->. rewrite Hbuf in Hbuf'. injection Hbuf' as Hs. apply Hxk. symmetry. by eapply (p_uniq _ _ _ Hp).
    + intros y [->%elem_of_singleton|Hy]%elem_of_union; [|by apply (p_out _ _ _ Hp)].
      eexists. split; [done|]. by apply (p_size _ _ _ Hp k).
    + intros y Hy. destruct (decide (y = b)) as [->|Hne]; [left; set_solver|].
      destruct (p_all _ _ _ Hp y Hy) as [?|(x & mx & Hx & Hyx)]; [left; set_solver|]. right.
      destruct (decide (x = k)) as [->|]; [|exists x, mx; by rewrite lookup_insert_ne].
      exists k, mp'. rewrite lookup_insert_eq. split; [done|]. rewrite Hmp in Hx. injection Hx as <-.
      rewrite Eq in Hyx. apply elem_of_cons in Hyx as [?|?]; done.
    + apply Hp.
Qed.

(** A new map with an empty queue. *)
Lemma pool_new_map p L out fmap n :
  pool_ok p L out -> id_range n -> maps p !! fmap = None ->
  (forall k mp, maps p !! k = Some mp -> _max_buf_size mp <> n) ->
  let mp := mkBufMap (_max_free p) n 0 [] in
  let p1 := set_maps p (<[fmap := mp]> (maps p)) in
  let p2 := set_hash p1 (put_key (p_hash p1) fmap (new_key (Some fmap))) in
  exists h, HashInsert (map_hash (maps p2)) (p_hash p2) fmap = Ok (h, 0) /\
    pool_ok (set_hash p2 h) (fmap :: L) out /\ maps (set_hash p2 h) !! fmap = Some mp.
Proof.
  intros Hp Hn Hf Hnone mp p1 p2.
  assert (fmap ∉ L) as HfL by (rewrite (p_maps _ _ _ Hp), Hf; by intros [? ?]).
  destruct (HashInsert_spec (map_hash (maps p2)) (p_hash p2) L fmap (new_key (Some fmap))) as [Hnew _].
  { cbn [p2 p1 set_hash set_maps p_hash maps]. apply table_new_key; [|done].
    eapply table_ext; [|apply Hp]. intros x Hx. unfold map_hash. by rewrite lookup_insert_ne by (intros ->; done). }
  { apply lookup_insert_eq. }
  destruct (Hnew HfL) as (h & -> & T & Hks). exists h. split; [done|]. split; [|apply lookup_insert_eq].
  split; cbn [p2 p1 set_hash set_maps p_hash maps bufs _max_free]; try done; try apply Hp.
  - intros x. rewrite elem_of_cons, (p_maps _ _ _ Hp). destruct (decide (x = fmap)) as [->|].
    + rewrite lookup_insert_eq. split; [by eexists|by left].
    + rewrite lookup_insert_ne by done. split; [intros [?|?]; done|by right].
  - intros x Hx. rewrite Hks. cbn [_data_ptr new_key p2 p1 set_hash set_maps p_hash put_key keys].
    destruct (decide (x = fmap)) as [->|Hne]; [rewrite lookup_insert_eq; by eexists|].
    rewrite !lookup_insert_ne by done. apply (p_data _ _ _ Hp). by apply elem_of_cons in Hx as [?|?].
  - intros x mx [[<- <-]|[_ Hx]]%lookup_insert_Some; [done|by apply (p_size _ _ _ Hp x)].
  - intros x y mx my [[<- <-]|[Hxk Hx]]%lookup_insert_Some [[<- <-]|[Hyk Hy]]%lookup_insert_Some E; try done.
    + cbn in E. symmetry in E. by destruct (Hnone y my Hy).
    + cbn in E. by destruct (Hnone x mx Hx).
    + by eapply (p_uniq _ _ _ Hp).
  - intros x mx [[<- <-]|[_ Hx]]%lookup_insert_Some; [cbn; pose proof (p_free _ _ _ Hp); lia|by apply (p_num _ _ _ Hp x)].
  - intros x mx [[<- <-]|[_ Hx]]%lookup_insert_Some; [constructor|by apply (p_nodup _ _ _ Hp x)].
  - intros x mx y [[<- <-]|[Hxk Hx]]%lookup_insert_Some Hy; [by apply elem_of_nil in Hy|by eapply (p_queue _ _ _ Hp)].
  - intros y Hy. destruct (p_all _ _ _ Hp y Hy) as [?|(x & mx & Hx & Hyx)]; [by left|right].
    exists x, mx. rewrite lookup_insert_ne by congruence. done.
Qed.

Lemma GetMsgBuf_spec p L out fresh fmap n :
  pool_ok p L out -> id_range n -> bufs p !! fresh = None -> maps p !! fmap = None ->
  exists p' L' b, GetMsgBuf p fresh fmap n = Ok (p', Some b) /\ pool_ok p' L' ({[b]} ∪ out) /\ (b ∉ out) /\
    bufs p' !! b = Some (new_buf n).
Proof.
  intros Hp Hn Hfresh Hfmap. unfold GetMsgBuf. destruct (pool_find p L out n Hp Hn) as (r & -> & Hr). cbn [res_bind].
  destruct r as [k|].
  - destruct Hr as (Hk & mp & Hmp & <-). destruct (p_data _ _ _ Hp k Hk) as (e & He & Hd). unfold get_key. rewrite He. cbn [res_bind].
    rewrite Hd. destruct (map_get_spec p L out k mp fresh Hp Hmp Hfresh) as (p' & b & -> & Hp' & Hb & Hbuf). cbn [res_bind].
    by exists p', L, b.
  - destruct (pool_new_map p L out fmap n Hp Hn Hfmap Hr) as (h & -> & Hp2 & Hm). cbn [res_bind].
    destruct (map_get_spec _ _ _ fmap _ fresh Hp2 Hm Hfresh) as (p' & b & -> & Hp' & Hb & Hbuf). cbn [res_bind].
    by exists p', (fmap :: L), b.
Qed.

(** A buffer that is not kept. *)
Lemma pool_delete_buf p L out b :
  pool_ok p L out -> b ∈ out -> pool_ok (set_bufs p (delete b (bufs p))) L (out ∖ {[b]}).
Proof.
  intros Hp Hb. split; cbn [set_bufs bufs maps p_hash _max_free]; try apply Hp.
  - intros k mp y Hk Hy. destruct (p_queue _ _ _ Hp k mp y Hk Hy) as [? ?]. assert (y <> b) by (intros ->; done).
    rewrite lookup_delete_ne by done. split; [set_solver|done].
  - intros y [Hy Hne]%elem_of_difference. rewrite lookup_delete_ne by set_solver. by apply (p_out _ _ _ Hp).
  - intros y [e Hy]. apply lookup_delete_Some in Hy as [Hne Hy]. destruct (p_all _ _ _ Hp y) as [?|?]; [by eexists| |by right].
    left. set_solver.
Qed.

Lemma pool_put_buf p L out b e :
  pool_ok p L out -> b ∈ out -> id_range (_max_len e) -> pool_ok (set_bufs p (<[b := e]> (bufs p))) L out.
Proof.
  intros Hp Hb He. split; cbn [set_bufs bufs maps p_hash _max_free]; try apply Hp.
  - intros k mp y Hk Hy. destruct (p_queue _ _ _ Hp k mp y Hk Hy) as [? ?]. by rewrite lookup_insert_ne by (intros ->; done).
  - intros y Hy. destruct (decide (y = b)) as [->|]; [rewrite lookup_insert_eq; by eexists|rewrite lookup_insert_ne by done].
    by apply (p_out _ _ _ Hp).
  - intros y Hy. destruct (decide (y = b)) as [->|]; [by left|]. rewrite lookup_insert_ne in Hy by done. by apply (p_all _ _ _ Hp).
Qed.

Lemma map_free_spec p L out k mp b :
  pool_ok p L out -> maps p !! k = Some mp -> b ∈ out -> bufs p !! b = Some (new_buf (_max_buf_size mp)) ->
  exists p', map_free p k b = Ok p' /\ pool_ok p' L (out ∖ {[b]}).
Proof.
  intros Hp Hmp Hb Hbuf. unfold map_free. rewrite Hmp, Hbuf. destruct (p_num _ _ _ Hp k mp Hmp) as [Hnum Hmax].
  destruct (Z.leb_spec (m_max_free mp) (_queue_num mp)) as [Hle|Hgt].
  { eexists. split; [done|]. by apply pool_delete_buf. }
  rewrite wraps_small by lia. eexists. split; [done|]. change (Reset (new_buf _)) with (new_buf (_max_buf_size mp)).
  rewrite insert_id by done. set (mp' := mkBufMap _ _ _ _). destruct p as [B M F H]. cbn [set_bufs set_maps bufs maps _max_free p_hash] in *.
  assert (b ∉ _msg_queue mp) as Hbq by (intros Hin; by destruct (p_queue _ _ _ Hp k mp b Hmp Hin)).
  split; cbn [set_bufs set_maps bufs maps p_hash _max_free].
  - eapply table_ext; [|apply (p_table _ _ _ Hp)]. intros x _. cbn [maps]. by apply (map_hash_queue _ k mp).
  - intros x. rewrite (p_maps _ _ _ Hp). cbn [maps].
    destruct (decide (x = k)) as [->|]; [rewrite lookup_insert_eq, Hmp|rewrite lookup_insert_ne by done]; done.
  - apply (p_data _ _ _ Hp).
  - intros x mx [[<- <-]|[_ Hx]]%lookup_insert_Some; [by apply (p_size _ _ _ Hp k mp)|by apply (p_size _ _ _ Hp x)].
  - intros x y mx my [[<- <-]|[Hxk Hx]]%lookup_insert_Some [[<- <-]|[Hyk Hy]]%lookup_insert_Some E; try done;
      by eapply (p_uniq _ _ _ Hp).
  - intros x mx [[<- <-]|[_ Hx]]%lookup_insert_Some; [cbn; rewrite length_app; simpl; lia|by apply (p_num _ _ _ Hp x)].
  - intros x mx [[<- <-]|[_ Hx]]%lookup_insert_Some; [|by apply (p_nodup _ _ _ Hp x)]. cbn [mp' _msg_queue].
    apply NoDup_app. split_and!; [by apply (p_nodup _ _ _ Hp k)| |apply NoDup_singleton].
    intros y Hy ->%list_elem_of_singleton. done.
  - intros x mx y [[<- <-]|[Hxk Hx]]%lookup_insert_Some Hy.
    + cbn [mp' _msg_queue _max_buf_size] in *. apply elem_of_app in Hy as [Hy| ->%list_elem_of_singleton].
      * destruct (p_queue _ _ _ Hp k mp y Hmp Hy). split; [set_solver|done].
      * split; [set_solver|done].
    + destruct (p_queue _ _ _ Hp x mx y Hx Hy). split; [set_solver|done].
  - intros y [Hy _]%elem_of_difference. by apply (p_out _ _ _ Hp).
  - intros y Hy. destruct (p_all _ _ _ Hp y Hy) as [Ho|(x & mx & Hx & Hyx)].
    + destruct (decide (y = b)) as [->|]; [right|left; set_solver]. exists k, mp'. rewrite lookup_insert_eq. split; [done|].
      apply elem_of_app; right; left.
    + right. destruct (decide (x = k)) as [->|]; [|exists x, mx; by rewrite lookup_insert_ne].
      exists k, mp'. rewrite lookup_insert_eq. split; [done|]. cbn [maps] in Hx. rewrite Hmp in Hx. injection Hx as <-.
      apply elem_of_app; by left.
  - apply (p_free _ _ _ Hp).
Qed.

Lemma FreeMsgBuf_spec p L out b :
  pool_ok p L out -> b ∈ out ->
  exists p', FreeMsgBuf p b = Ok p' /\ pool_ok p' L (out ∖ {[b]}).
Proof.
  intros Hp Hb. destruct (p_out _ _ _ Hp b Hb) as (e & He & Hr). unfold FreeMsgBuf. rewrite He.
  pose proof (pool_put_buf p L out b (Reset e) Hp Hb Hr) as Hp1.
  set (p1 := set_bufs p _) in *. unfold HashFindData.
  destruct (pool_find p1 L out (_max_len e) Hp1 Hr) as (r & -> & Hr'). cbn [res_bind]. destruct r as [k|].
  - destruct Hr' as (Hk & mp & Hmp & Hs). destruct (p_data _ _ _ Hp1 k Hk) as (ek & Hek & Hd). unfold get_key. rewrite Hek. cbn [res_bind].
    rewrite Hd. apply (map_free_spec p1 L out k mp); try done. cbn [p1 set_bufs bufs]. rewrite lookup_insert_eq. by rewrite Hs.
  - eexists. split; [done|]. by apply pool_delete_buf.
Qed.

Lemma foldr_delete_lookup {A} (m : gmap Z A) q b :
  foldr (fun b m => delete b m) m q !! b = if decide (b ∈ q) then None else m !! b.
Proof.
  induction q as [|x q IH]; cbn [foldr]; [by rewrite decide_False by (by intros H%elem_of_nil)|].
  destruct (decide (b = x)) as [->|Hne].
  - rewrite lookup_delete_eq, decide_True by left. done.
  - rewrite lookup_delete_ne, IH by done. destruct (decide (b ∈ q)).
    + by rewrite decide_True by (by right).
    + by rewrite decide_False by (intros [?|?]%elem_of_cons; done).
Qed.

(** The map at [i] leaves with its buffers. *)
Lemma pool_drop_map p L L' out i mp h :
  pool_ok p L out -> maps p !! i = Some mp -> table (map_hash (maps p)) h L' ->
  (forall x, x ∈ L' <-> x ∈ L /\ x <> i) ->
  (forall x, _data_ptr <$> keys h !! x = _data_ptr <$> keys (p_hash p) !! x) ->
  pool_ok (mkPool (foldr (fun b m => delete b m) (bufs p) (_msg_queue mp)) (delete i (maps p)) (_max_free p) (del_key h i)) L' out.
Proof.
  intros Hp Hmp T Hel Hd. split; cbn [bufs maps p_hash _max_free]; try apply Hp.
  - apply table_del_key; [|by intros [_ ?]%Hel]. eapply table_ext; [|exact T]. intros x [_ Hx]%Hel. unfold map_hash.
    by rewrite lookup_delete_ne.
  - intros x. rewrite Hel, (p_maps _ _ _ Hp). destruct (decide (x = i)) as [->|]; [rewrite lookup_delete_eq|rewrite lookup_delete_ne by done].
    + split; [by intros [_ ?]|by intros [? ?]].
    + tauto.
  - intros x [Hx Hne]%Hel. destruct (p_data _ _ _ Hp x Hx) as (e & He & Hdp). cbn [del_key keys]. rewrite lookup_delete_ne by done.
    specialize (Hd x). rewrite He in Hd. destruct (keys h !! x) as [e'|]; [|done]. cbn in Hd. injection Hd as Hd. exists e'. split; [done|congruence].
  - intros x mx [_ Hx]%lookup_delete_Some. by apply (p_size _ _ _ Hp x).
  - intros x y mx my [_ Hx]%lookup_delete_Some [_ Hy]%lookup_delete_Some. by eapply (p_uniq _ _ _ Hp).
  - intros x mx [_ Hx]%lookup_delete_Some. by apply (p_num _ _ _ Hp x).
  - intros x mx [_ Hx]%lookup_delete_Some. by apply (p_nodup _ _ _ Hp x).
  - intros x mx y [Hne Hx]%lookup_delete_Some Hy. destruct (p_queue _ _ _ Hp x mx y Hx Hy) as [? Hbuf]. split; [done|].
    rewrite foldr_delete_lookup, decide_False; [done|]. intros Hyi. destruct (p_queue _ _ _ Hp i mp y Hmp Hyi) as [_ Hbuf'].
    rewrite Hbuf in Hbuf'. injection Hbuf' as Hs'. apply Hne. by eapply (p_uniq _ _ _ Hp).
  - intros y Hy. rewrite foldr_delete_lookup, decide_False; [by apply (p_out _ _ _ Hp)|].
    intros Hyi. by destruct (p_queue _ _ _ Hp i mp y Hmp Hyi).
  - intros y Hy. rewrite foldr_delete_lookup in Hy. destruct (decide (y ∈ _msg_queue mp)) as [|Hny]; [by destruct Hy|].
    destruct (p_all _ _ _ Hp y Hy) as [?|(x & mx & Hx & Hyx)]; [by left|right]. exists x, mx.
    rewrite lookup_delete_ne; [done|]. intros ->. rewrite Hmp in Hx. by injection Hx as <-.
Qed.

(** When only [i] matches, [remove_first] takes [i] out. *)
Lemma remove_first_only P L i :
  NoDup L -> i ∈ L -> P i = true -> (forall k, k ∈ L -> P k = true -> k = i) ->
  length L = S (length (remove_first P L)) /\ forall x, x ∈ remove_first P L <-> x ∈ L /\ x <> i.
Proof.
  intros Hnd Hi HPi HP. pose proof (remove_first_split P L) as Hs.
  destruct (first_match P L) as [k|] eqn:E; [|rewrite first_match_None in E; by rewrite E in HPi].
  apply first_match_Some in E as [Hk HPk]. apply HP in HPk; [|done]. subst k. destruct Hs as (a & b & EL & -> & _).
  rewrite EL in Hnd |- *. apply NoDup_app in Hnd as (_ & Hab & Hnd). apply NoDup_cons in Hnd as [Hib _].
  assert (i ∉ a) as Hia by (intros H; apply (Hab i H); left).
  split; [rewrite !length_app; simpl; lia|]. intros x. rewrite !elem_of_app, elem_of_cons.
  split; [|tauto]. intros [?|?]; split; auto; by intros ->.
Qed.

(** One turn of the loop of [~MsgBuffPool]. *)
Lemma destroy_turn p L out i :
  pool_ok p L out -> i ∈ L ->
  exists h L', HashRemove (p_hash p) (map_hash (maps p) i) (map_cmp (maps p) (map_hash (maps p) i)) = Ok h /\
    length L = S (length L') /\
    pool_ok (mkPool (foldr (fun b m => delete b m) (bufs p) (from_option _msg_queue [] (maps p !! i)))
      (delete i (maps p)) (_max_free p) (del_key h i)) L' out.
Proof.
  intros Hp Hi. destruct (proj1 (p_maps _ _ _ Hp i) Hi) as [mp Hmp]. pose proof (p_size _ _ _ Hp i mp Hmp) as Hr.
  assert (map_hash (maps p) i = u32 (_max_buf_size mp)) as Hh by (unfold map_hash; by rewrite Hmp).
  rewrite Hh, Hmp. cbn [from_option].
  assert (map_cmp (maps p) (u32 (_max_buf_size mp)) = map_cmp (maps p) (_max_buf_size mp)) as -> by (unfold map_cmp; by rewrite wrapu_wrapu).
  destruct (HashRemove_spec _ _ L (u32 (_max_buf_size mp)) (map_cmp (maps p) (_max_buf_size mp)) (p_table _ _ _ Hp)) as (h & -> & T & Hd & _).
  set (P := matches _ _ _) in *.
  destruct (remove_first_only P L i) as [Hl Hel]; [apply (p_table _ _ _ Hp)|done|..].
  - unfold P. rewrite (map_matches p L out) by done. apply bool_decide_eq_true_2. by rewrite Hmp.
  - intros k Hk H. unfold P in H. rewrite (map_matches p L out) in H by done.
    apply bool_decide_eq_true, fmap_Some in H as (mk & Hmk & E). by eapply (p_uniq _ _ _ Hp).
  - exists h, (remove_first P L). split_and!; try done. by eapply pool_drop_map.
Qed.

Lemma pool_maps_size p L out : pool_ok p L out -> length L = size (maps p).
Proof.
  intros Hp. rewrite <-size_dom. rewrite <-(size_list_to_set (C := gset Z) L) by apply (p_table _ _ _ Hp).
  f_equal. apply set_eq. intros k. rewrite elem_of_list_to_set, elem_of_dom. apply (p_maps _ _ _ Hp).
Qed.

Lemma destroy_spec out : forall fuel p L,
  pool_ok p L out -> (length L < fuel)%nat ->
  exists p', destroy_loop fuel p = Ok p' /\ pool_ok p' [] out.
Proof.
  induction fuel as [|fuel IH]; intros p L Hp Hf; [lia|]. cbn [destroy_loop].
  pose proof (HashGetFirst_spec _ _ _ (p_table _ _ _ Hp)) as Hg. destruct (HashGetFirst (p_hash p)) as [i|].
  - destruct (destroy_turn p L out i Hp Hg) as (h & L' & -> & Hl & Hp'). cbn [res_bind]. apply (IH _ L' Hp'). lia.
  - subst L. by exists p.
Qed.

(** What the users of the pool do: take a buffer, write to it, give it back;
    [fresh] and [fmap] are addresses [new] returns. *)
Inductive pool_reach (max_free : Z) : MsgBuffPool -> gset Z -> Prop :=
| PInit : pool_reach max_free (mkPool ∅ ∅ max_free (HashList 10000 ∅)) ∅
| PGet p out fresh fmap n p' b :
    pool_reach max_free p out -> id_range n -> bufs p !! fresh = None -> maps p !! fmap = None ->
    GetMsgBuf p fresh fmap n = Ok (p', Some b) -> pool_reach max_free p' ({[b]} ∪ out)
| PWrite p out b e e' :
    pool_reach max_free p out -> b ∈ out -> bufs p !! b = Some e -> _max_len e' = _max_len e ->
    pool_reach max_free (set_bufs p (<[b := e']> (bufs p))) out
| PFree p out b p' :
    pool_reach max_free p out -> b ∈ out -> FreeMsgBuf p b = Ok p' -> pool_reach max_free p' (out ∖ {[b]}).

Lemma pool_reach_ok max_free p out :
  0 <= max_free < 2 ^ 31 -> pool_reach max_free p out -> exists L, pool_ok p L out.
Proof.
  intros Hmf. induction 1 as [|p out fresh fmap n p' b _ [L Hp] Hn Hf Hm Hg|p out b e e' _ [L Hp] Hb He Hl|p out b p' _ [L Hp] Hb Hf].
  - exists []. destruct (HashList_spec (map_hash ∅) 10000 ∅) as [T _]; [lia|intros k e He; by rewrite lookup_empty in He|].
    split; cbn [bufs maps p_hash _max_free]; try done.
    + intros k. rewrite lookup_empty. split; [by intros ?%elem_of_nil|by intros [? ?]].
    + intros k Hk. by apply elem_of_nil in Hk.
    + intros b [e He]. by rewrite lookup_empty in He.
  - destruct (GetMsgBuf_spec p L out fresh fmap n Hp Hn Hf Hm) as (p1 & L1 & b1 & Hg1 & Hp1 & _).
    rewrite Hg in Hg1. injection Hg1 as <- <-. by exists L1.
  - exists L. apply pool_put_buf; [done..|]. rewrite Hl. destruct (p_out _ _ _ Hp b Hb) as (e0 & He0 & Hr). congruence.
  - exists L. destruct (FreeMsgBuf_spec p L out b Hp Hb) as (p1 & Hf1 & Hp1). rewrite Hf in Hf1. by injection Hf1 as <-.
Qed.

(** ** Properties *)

(** C15: a table is the list of its keys: every sequence of insertions, lookups
    and removals on a new table ends and answers as the list of the inserted
    keys does, the newest of equal keys first, whatever the hash values (other
    than 0) and the number of buckets; a key that is in the table is refused. *)
Theorem hash_refines_list HashValue max ks os :
  max < 2 ^ 31 -> (forall k e, ks !! k = Some e -> _hash_value e = 0 /\ _next_entry e = None) ->
  Forall (hop_ok HashValue ks) os ->
  exists h, hash_run HashValue (HashList max ks) os = Ok (h, snd (list_run HashValue [] os)) /\
    table HashValue h (fst (list_run HashValue [] os)) /\
    HashSize h = s32 (Z.of_nat (length (fst (list_run HashValue [] os)))) /\
    exists l, HashForeach h = Ok l /\ l ≡ₚ fst (list_run HashValue [] os).
Proof.
  intros Hmax Hks Hos. destruct (HashList_spec HashValue max ks Hmax Hks) as [T Hk].
  destruct (hash_run_spec HashValue os (HashList max ks) [] T) as (h & Hr & T'); [by rewrite Hk|].
  exists h. split_and!; try done; [apply T'|]. by apply HashForeach_spec with HashValue.
Qed.

(** C29: however buffers are taken from the pool, written and given back, a
    request always gets a buffer of its size, empty and used by no one else;
    giving a buffer back never fails; every buffer there is is either in use or
    waits in the one queue of its size, and no queue is longer than the limit;
    the destructor ends and frees all buffers that are not in use. *)
Theorem msg_pool_correct max_free p out :
  0 <= max_free < 2 ^ 31 -> pool_reach max_free p out ->
  (forall n fresh fmap, id_range n -> bufs p !! fresh = None -> maps p !! fmap = None ->
     exists p' b, GetMsgBuf p fresh fmap n = Ok (p', Some b) /\ (b ∉ out) /\ bufs p' !! b = Some (new_buf n)) /\
  (forall b, b ∈ out -> exists p', FreeMsgBuf p b = Ok p') /\
  (forall b, is_Some (bufs p !! b) <->
     b ∈ out \/ exists k mp, maps p !! k = Some mp /\ b ∈ _msg_queue mp) /\
  (forall k mp, maps p !! k = Some mp -> Z.of_nat (length (_msg_queue mp)) <= m_max_free mp) /\
  exists p', Destroy p = Ok p' /\ maps p' = ∅ /\ dom (bufs p') = out.
Proof.
  intros Hmf Hreach. destruct (pool_reach_ok max_free p out Hmf Hreach) as [L Hp]. split_and!.
  - intros n fresh fmap Hn Hf Hm. destruct (GetMsgBuf_spec p L out fresh fmap n Hp Hn Hf Hm) as (p' & L' & b & Hg & _ & Hb & Hbuf).
    by exists p', b.
  - intros b Hb. destruct (FreeMsgBuf_spec p L out b Hp Hb) as (p' & Hf & _). by exists p'.
  - intros b. split; [apply (p_all _ _ _ Hp)|]. intros [Hb|(k & mp & Hk & Hb)].
    + destruct (p_out _ _ _ Hp b Hb) as (e & He & _). by eexists.
    + destruct (p_queue _ _ _ Hp k mp b Hk Hb) as [_ ?]. by eexists.
  - intros k mp Hk. destruct (p_num _ _ _ Hp k mp Hk). lia.
  - destruct (destroy_spec out (S (size (maps p))) p L Hp) as (p' & Hd & Hp').
    { pose proof (pool_maps_size p L out Hp). lia. }
    exists p'. split; [done|]. split.
    + apply map_empty. intros k. destruct (maps p' !! k) as [mp|] eqn:E; [|done]. exfalso.
      apply (elem_of_nil k). apply (p_maps _ _ _ Hp'). by eexists.
    + apply set_eq. intros b. rewrite elem_of_dom. split.
      * intros Hb. destruct (p_all _ _ _ Hp' b Hb) as [?|(k & mp & Hk & _)]; [done|]. exfalso.
        apply (elem_of_nil k). apply (p_maps _ _ _ Hp'). by eexists.
      * intros Hb. destruct (p_out _ _ _ Hp' b Hb) as (e & He & _). by eexists.
Qed.

(** ** Witnesses *)

Definition keys3 : gmap Z HashKey := <[5 := new_key None]> (<[8 := new_key None]> (<[11 := new_key None]> ∅)).

Lemma keys3_fresh k e : keys3 !! k = Some e -> _hash_value e = 0 /\ _next_entry e = None.
Proof.
  unfold keys3. intros [[_ <-]|[_ [[_ <-]|[_ [[_ <-]|[_ H]]%lookup_insert_Some]]%lookup_insert_Some]]%lookup_insert_Some; done.
Qed.

(** Three keys in one bucket; the one in the middle is removed. *)
Definition ops3 : list hash_op :=
  [HInsert 5; HInsert 8; HInsert 11; HInsert 8; HRemove 8 (fun k => k - 8); HFind 8 (fun k => k - 8);
   HFind 5 (fun k => k - 5); HSize].

Lemma hash_refines_list_witness :
  exists h, hash_run (fun k => k) (HashList 3 keys3) ops3 =
      Ok (h, [ARet 0; ARet 0; ARet 0; ARet (-2); ADone; AKey None; AKey (Some 5); ARet 2]) /\
    table (fun k => k) h [11; 5] /\ HashSize h = 2 /\ exists l, HashForeach h = Ok l /\ l ≡ₚ [11; 5].
Proof.
  apply (hash_refines_list (fun k => k) 3 keys3 ops3); [done|apply keys3_fresh|].
  repeat constructor; cbn; try done; by eexists.
Defined.

Definition pool0 : MsgBuffPool := mkPool ∅ ∅ 300 (HashList 10000 ∅).

Lemma msg_pool_correct_witness :
  exists p b, pool_reach 300 p ({[b]} ∪ ∅) /\ exists p', Destroy p = Ok p' /\ maps p' = ∅ /\ dom (bufs p') = {[b]} ∪ ∅.
Proof.
  destruct (pool_reach_ok 300 pool0 ∅ ltac:(lia) (PInit 300)) as [L Hp].
  destruct (GetMsgBuf_spec pool0 L ∅ 1 2 64 Hp) as (p & L' & b & Hg & _); [unfold id_range; lia|done..|].
  assert (pool_reach 300 p ({[b]} ∪ ∅)) as Hr by (eapply (PGet 300 pool0 ∅ 1 2 64); [constructor|unfold id_range; lia|done..]).
  exists p, b. split; [exact Hr|]. apply (msg_pool_correct 300 p ({[b]} ∪ ∅)); [lia|exact Hr].
Defined.

(** ** Findings *)

(** A key with hash value 0 at the end of its chain can be inserted again: it is
    then its own successor, and a lookup of another key of that bucket never
    ends. *)
Example hash_zero_inserted_twice :
  (let* (h, r1) := HashInsert (fun _ => 0) (HashList 3 (<[7 := new_key None]> ∅)) 7 in
   let* (h, r2) := HashInsert (fun _ => 0) h 7 in
   Ok (r1, r2, keys h !! 7, HashFind h 3 (fun k => k - 3))) =
  Ok (0, 0, Some (mkKey (Some 7) 0 None), NoFuel).
Proof. vm_compute. reflexivity. Qed.
