(* ===== verification/Kqueue.v ===== *)
(** * Events of the user space threads

    [src/adapter/micro_thread/kqueue_proxy.cpp] and [MtFrame::KqueueSchedule]:
    which events of which descriptors a thread waits for, and whom they wake.

    The queue of the kernel is an interface: [ff_kevent] changes the filters that
    are registered, or fails.  Objects are addresses of [KqueuerObj]s (of the
    base class); [_kqrefs] has one entry per descriptor. *)

From S2P Require Import Prelude Heap Sched.

Module Kqueue.

Definition KQ_EVENT_READ : Z := 1.
Definition KQ_EVENT_WRITE : Z := 2.
Definition EVFILT_READ : Z := -1.
Definition EVFILT_WRITE : Z := -2.
Definition EV_ADD : Z := 0x0001.
Definition EV_DELETE : Z := 0x0002.
Definition EV_ERROR : Z := 0x4000.

(** What [kevent(2)] promises for one change: a filter is registered by
    [EV_ADD]; [EV_DELETE] takes a registered one away and fails for others; a
    call that fails changes nothing. *)
Class Kevent (K : Type) := {
  ff_kevent : K -> Z -> Z -> Z -> K * Z;
  registered : K -> gset (Z * Z);
  kevent_add k fd flt :
    let '(k', r) := ff_kevent k fd flt EV_ADD in
    r = -1 /\ registered k' = registered k \/ r <> -1 /\ registered k' = {[(fd, flt)]} ∪ registered k;
  kevent_delete k fd flt :
    let '(k', r) := ff_kevent k fd flt EV_DELETE in
    r = -1 /\ registered k' = registered k \/
    r <> -1 /\ (fd, flt) ∈ registered k /\ registered k' = registered k ∖ {[(fd, flt)]}
}.

Record KqFdRef := mkRef {
  _wr_ref : Z;
  _rd_ref : Z;
  _events : Z;
  _kqobj : option Z
}.

Definition new_ref : KqFdRef := mkRef 0 0 0 None.

Definition SetListenEvents (r : KqFdRef) (events : Z) : KqFdRef :=
  mkRef (_wr_ref r) (_rd_ref r) events (_kqobj r).
Definition SetNotifyObj (r : KqFdRef) (o : option Z) : KqFdRef :=
  mkRef (_wr_ref r) (_rd_ref r) (_events r) o.

(** [event & flag] *)
Definition has_event (event flag : Z) : bool := negb (Z.land event flag =? 0).

Definition AttachEvents (r : KqFdRef) (event : Z) : KqFdRef :=
  let rd := if has_event event KQ_EVENT_READ then s32 (_rd_ref r + 1) else _rd_ref r in
  let wr := if has_event event KQ_EVENT_WRITE then s32 (_wr_ref r + 1) else _wr_ref r in
  mkRef wr rd (_events r) (_kqobj r).

Definition DetachEvents (r : KqFdRef) (event : Z) : KqFdRef :=
  let rd := if has_event event KQ_EVENT_READ then (if 0 <? _rd_ref r then _rd_ref r - 1 else 0) else _rd_ref r in
  let wr := if has_event event KQ_EVENT_WRITE then (if 0 <? _wr_ref r then _wr_ref r - 1 else 0) else _wr_ref r in
  mkRef wr rd (_events r) (_kqobj r).

Record KqueuerObj := mkObj {
  _fd : Z;
  o_events : Z;
  _revents : Z;
  _thread : option Z
}.

Definition EnableInput (o : KqueuerObj) : KqueuerObj :=
  mkObj (_fd o) (Z.lor (o_events o) KQ_EVENT_READ) (_revents o) (_thread o).
Definition EnableOutput (o : KqueuerObj) : KqueuerObj :=
  mkObj (_fd o) (Z.lor (o_events o) KQ_EVENT_WRITE) (_revents o) (_thread o).
Definition DisableInput (o : KqueuerObj) : KqueuerObj :=
  mkObj (_fd o) (Z.ldiff (o_events o) KQ_EVENT_READ) (_revents o) (_thread o).
Definition DisableOutput (o : KqueuerObj) : KqueuerObj :=
  mkObj (_fd o) (Z.ldiff (o_events o) KQ_EVENT_WRITE) (_revents o) (_thread o).
Definition SetRcvEvents (o : KqueuerObj) (r : Z) : KqueuerObj :=
  mkObj (_fd o) (o_events o) r (_thread o).

Section Proxy.
Context `{Kevent K}.

Record KqueueProxy := mkProxy {
  _maxfd : Z;
  _kqrefs : list KqFdRef;
  objs : gmap Z KqueuerObj;
  kq : K
}.

Definition set_refs (p : KqueueProxy) r := mkProxy (_maxfd p) r (objs p) (kq p).
Definition set_objs (p : KqueueProxy) o := mkProxy (_maxfd p) (_kqrefs p) o (kq p).
Definition set_kq (p : KqueueProxy) k := mkProxy (_maxfd p) (_kqrefs p) (objs p) k.

Definition KqFdRefGet (p : KqueueProxy) (fd : Z) : option KqFdRef :=
  if (_maxfd p <=? fd) || (fd <? 0) then None else _kqrefs p !! Z.to_nat fd.

(** Change the reference of [fd]. *)
Definition upd_ref (p : KqueueProxy) (fd : Z) (g : KqFdRef -> KqFdRef) : KqueueProxy :=
  set_refs p (alter g (Z.to_nat fd) (_kqrefs p)).

(** One [EV_SET] with its [ff_kevent], if the condition holds; [false] when it
    returns -1. *)
Definition ctl (cond : bool) (p : KqueueProxy) (fd flt flags : Z) : KqueueProxy * bool :=
  if cond then let '(k, ret) := ff_kevent (kq p) fd flt flags in (set_kq p k, negb (ret =? -1))
  else (p, true).

Definition KqueueCtrlAdd (p : KqueueProxy) (fd events : Z) : KqueueProxy * bool :=
  match KqFdRefGet p fd with
  | None => (p, false)
  | Some item =>
      let p := upd_ref p fd (fun r => AttachEvents r events) in
      let old_events := _events item in
      let new_events := Z.lor old_events events in
      if old_events =? new_events then (p, true)
      else
        let fail p := (upd_ref p fd (fun r => DetachEvents r events), false) in
        let '(p, ok) := ctl (has_event old_events KQ_EVENT_WRITE) p fd EVFILT_WRITE EV_DELETE in
        if negb ok then fail p
        else
          let '(p, ok) := ctl (has_event old_events KQ_EVENT_READ) p fd EVFILT_READ EV_DELETE in
          if negb ok then fail p
          else
            let '(p, ok) := ctl (has_event events KQ_EVENT_WRITE) p fd EVFILT_WRITE EV_ADD in
            if negb ok then fail p
            else
              let '(p, ok) := ctl (has_event events KQ_EVENT_READ) p fd EVFILT_READ EV_ADD in
              if negb ok then fail p
              else (upd_ref p fd (fun r => SetListenEvents r new_events), true)
  end.

Definition KqueueCtrlDelRef (p : KqueueProxy) (fd events : Z) (use_ref : bool) : KqueueProxy * bool :=
  match KqFdRefGet p fd with
  | None => (p, false)
  | Some item =>
      let item := DetachEvents item events in
      let p := upd_ref p fd (fun r => DetachEvents r events) in
      let old_events := _events item in
      let new_events :=
        if use_ref then
          let n := if _rd_ref item =? 0 then Z.ldiff old_events KQ_EVENT_READ else old_events in
          if _wr_ref item =? 0 then Z.ldiff n KQ_EVENT_WRITE else n
        else Z.ldiff old_events events in
      if old_events =? new_events then (p, true)
      else
        let '(p, ok) := ctl (has_event old_events KQ_EVENT_WRITE) p fd EVFILT_WRITE EV_DELETE in
        if negb ok then (p, false)
        else
          let '(p, ok) := ctl (has_event old_events KQ_EVENT_READ) p fd EVFILT_READ EV_DELETE in
          if negb ok then (p, false)
          else
            let '(p, ok) := ctl (has_event new_events KQ_EVENT_WRITE) p fd EVFILT_WRITE EV_ADD in
            if negb ok then (p, false)
            else
              let '(p, ok) := ctl (has_event new_events KQ_EVENT_READ) p fd EVFILT_READ EV_ADD in
              if negb ok then (p, false)
              else (upd_ref p fd (fun r => SetListenEvents r new_events), true)
  end.

Definition KqueueCtrlDel (p : KqueueProxy) (fd events : Z) : KqueueProxy * bool :=
  KqueueCtrlDelRef p fd events false.

(** [KqueuerObj::KqueueCtlAdd] of object [o], with the reference of its
    descriptor. *)
Definition KqueueCtlAdd (p : KqueueProxy) (o : Z) (obj : KqueuerObj) (ref : KqFdRef) : KqueueProxy * Z :=
  let old_obj := _kqobj ref in
  if bool_decide (old_obj <> None) && bool_decide (old_obj <> Some o) then (p, -1)
  else
    let p := upd_ref p (_fd obj) (fun r => SetNotifyObj r (Some o)) in
    let '(p, ok) := KqueueCtrlAdd p (_fd obj) (o_events obj) in
    if negb ok then (upd_ref p (_fd obj) (fun r => SetNotifyObj r old_obj), -2) else (p, 0).

Definition KqueueCtlDel (p : KqueueProxy) (o : Z) (obj : KqueuerObj) (ref : KqFdRef) : KqueueProxy * Z :=
  let old_obj := _kqobj ref in
  if bool_decide (old_obj <> Some o) then (p, -1)
  else
    let p := upd_ref p (_fd obj) (fun r => SetNotifyObj r None) in
    let '(p, ok) := KqueueCtrlDelRef p (_fd obj) (o_events obj) false in
    if negb ok then (upd_ref p (_fd obj) (fun r => SetNotifyObj r old_obj), -2) else (p, 0).

(** [obj->GetOsfd()] of an object that is not there is a wrong access. *)
Definition KqueueAddObj (p : KqueueProxy) (o : Z) : res (KqueueProxy * bool) :=
  match objs p !! o with
  | None => Panic
  | Some obj =>
      match KqFdRefGet p (_fd obj) with
      | None => Ok (p, false)
      | Some ref => let '(p, ret) := KqueueCtlAdd p o obj ref in Ok (p, negb (ret <? 0))
      end
  end.

Definition KqueueDelObj (p : KqueueProxy) (o : Z) : res (KqueueProxy * bool) :=
  match objs p !! o with
  | None => Panic
  | Some obj =>
      match KqFdRefGet p (_fd obj) with
      | None => Ok (p, false)
      | Some ref => let '(p, ret) := KqueueCtlDel p o obj ref in Ok (p, negb (ret <? 0))
      end
  end.

(** The loops of [KqueueAdd]: add the objects up to the first that fails, and
    in that case delete those before it. *)
Fixpoint add_loop (p : KqueueProxy) (l : list Z) : res (KqueueProxy * option Z) :=
  match l with
  | [] => Ok (p, None)
  | o :: l => let* (p, ok) := KqueueAddObj p o in if ok then add_loop p l else Ok (p, Some o)
  end.

Fixpoint rollback (p : KqueueProxy) (l : list Z) (err : Z) : res KqueueProxy :=
  match l with
  | [] => Ok p
  | o :: l => if o =? err then Ok p else let* (p, _) := KqueueDelObj p o in rollback p l err
  end.

Definition KqueueAdd (p : KqueueProxy) (l : list Z) : res (KqueueProxy * bool) :=
  let* (p, err) := add_loop p l in
  match err with
  | None => Ok (p, true)
  | Some o => let* p := rollback p l o in Ok (p, false)
  end.

Fixpoint KqueueDel (p : KqueueProxy) (l : list Z) : res (KqueueProxy * bool) :=
  match l with
  | [] => Ok (p, true)
  | o :: l =>
      let* (p, ok) := KqueueDelObj p o in
      let* (p, ret) := KqueueDel p l in
      Ok (p, ok && ret)
  end.

(** ** Events that arrive *)

(** [KqueuerObj::InputNotify] and [OutputNotify]: the thread that owns the
    object is made ready. *)
Definition Notify (f : Sched.MtFrame) (obj : KqueuerObj) : res (Sched.MtFrame * Z) :=
  match _thread obj with
  | None => Ok (f, -1)
  | Some t => let* f := Sched.IoNotify f t in Ok (f, 0)
  end.

Definition HangupNotify (p : KqueueProxy) (obj : KqueuerObj) : KqueueProxy :=
  fst (KqueueCtrlDel p (_fd obj) (o_events obj)).

(** [KqueueRcvEventList]: an event is a descriptor and a filter. *)
Fixpoint rcv_loop (p : KqueueProxy) (f : Sched.MtFrame) (revents : Z) (evs : list (Z * Z))
  : res (KqueueProxy * Sched.MtFrame) :=
  match evs with
  | [] => Ok (p, f)
  | (osfd, tmp_evts) :: evs =>
      match KqFdRefGet p osfd with
      | None => rcv_loop p f revents evs
      | Some item =>
          let revents := if tmp_evts =? EVFILT_READ then Z.lor revents KQ_EVENT_READ else revents in
          let revents := if tmp_evts =? EVFILT_WRITE then Z.lor revents KQ_EVENT_WRITE else revents in
          match _kqobj item with
          | None =>
              let '(p, _) := KqueueCtrlDel p osfd (Z.land revents (Z.lor KQ_EVENT_READ KQ_EVENT_WRITE)) in
              rcv_loop p f revents evs
          | Some o =>
              match objs p !! o with
              | None => Panic
              | Some obj =>
                  let p := set_objs p (<[o := SetRcvEvents obj revents]> (objs p)) in
                  if tmp_evts =? EV_ERROR then rcv_loop (HangupNotify p obj) f revents evs
                  else
                    let* (f, ret) := if has_event revents KQ_EVENT_READ then Notify f obj else Ok (f, 0) in
                    if negb (ret =? 0) then rcv_loop p f revents evs
                    else
                      let* (f, _) := if has_event revents KQ_EVENT_WRITE then Notify f obj else Ok (f, 0) in
                      rcv_loop p f revents evs
              end
          end
      end
  end.

Definition KqueueRcvEventList (p : KqueueProxy) (f : Sched.MtFrame) (evs : list (Z * Z))
  : res (KqueueProxy * Sched.MtFrame) :=
  rcv_loop p f 0 evs.

(** ** [MtFrame::KqueueSchedule] *)

(** Up to the switch to the next thread. *)
Definition KqueueSchedule_wait (p : KqueueProxy) (f : Sched.MtFrame) (now timeout : Z) (l : list Z)
  : res (KqueueProxy * Sched.MtFrame * bool) :=
  let t := Sched._curr_thread f in
  let* f := Sched.upd_thread f t (Sched.set_wakeup (u64 (timeout + now))) in
  let* (p, ok) := KqueueAdd p l in
  if ok then
    let* f := Sched.InsertIoWait f t in
    let* f := Sched.ThreadSchdule f in
    Ok (p, f, true)
  else Ok (p, f, false).

(** The number of objects with events. *)
Fixpoint rcv_num (p : KqueueProxy) (l : list Z) : res Z :=
  match l with
  | [] => Ok 0
  | o :: l =>
      match objs p !! o with
      | None => Panic
      | Some obj => let* n := rcv_num p l in Ok (if _revents obj =? 0 then n else n + 1)
      end
  end.

(** After the thread has been woken; [false] with [errno] set to [ETIME] when no
    event has arrived. *)
Definition KqueueSchedule_end (p : KqueueProxy) (l : list Z) : res (KqueueProxy * bool) :=
  let* rcvnum := rcv_num p l in
  let* (p, _) := KqueueDel p l in
  Ok (p, negb (rcvnum =? 0)).

(** [KqueueDispatch] waits in whole seconds: the seconds [ff_kevent] is given,
    or no limit. *)
Definition dispatch_timeout (wait_time : Z) : option Z :=
  if wait_time =? 0 then None else Some (Z.quot wait_time 1000).
End Proxy.

Arguments KqueueProxy K : clear implicits.

End Kqueue.
