(* ===== verification/KqueueProofs.v ===== *)
(** * Events of the user space threads: proofs *)

From S2P Require Import Prelude Heap HeapProofs Sched SchedProofs Kqueue.
Import Kqueue.

Lemma alter_insert_list {A} (g : A -> A) (x : A) (l : list A) : forall i : nat, alter g i (<[i := x]> l) = <[i := g x]> l.
Proof. induction l as [|y l IH]; intros [|i]; try done. cbn. f_equal. apply IH. Qed.

Section Proofs.
Context `{Kevent K}.
Implicit Types (p : KqueueProxy K) (o : Z) (obj : KqueuerObj).

(** The filters of descriptor [fd] for the events [e]. *)
Definition filters (fd e : Z) : gset (Z * Z) :=
  (if has_event e KQ_EVENT_WRITE then {[(fd, EVFILT_WRITE)]} else ∅) ∪
  (if has_event e KQ_EVENT_READ then {[(fd, EVFILT_READ)]} else ∅).

Abbreviation regs p := (registered (kq p)).

(** ** One descriptor *)

(** [p] with the reference [r] of [fd] and the queue [k]. *)
Definition st p (fd : Z) (r : KqFdRef) (k : K) : KqueueProxy K :=
  mkProxy (_maxfd p) (<[Z.to_nat fd := r]> (_kqrefs p)) (objs p) k.

Definition valid_fd p fd : Prop := 0 <= fd < _maxfd p /\ Z.of_nat (length (_kqrefs p)) = _maxfd p.

Lemma st_upd p fd r k g : upd_ref (st p fd r k) fd g = st p fd (g r) k.
Proof.
  unfold upd_ref, st, set_refs. cbn [_maxfd _kqrefs objs kq]. f_equal.
  apply alter_insert_list.
Qed.

Lemma st_get p fd r k : valid_fd p fd -> KqFdRefGet (st p fd r k) fd = Some r.
Proof.
  intros [Hfd Hl]. unfold KqFdRefGet, st. cbn [_maxfd _kqrefs].
  rewrite (proj2 (Z.leb_gt _ _)), (proj2 (Z.ltb_ge _ _)) by lia. cbn [orb]. apply list_lookup_insert_eq. lia.
Qed.

Lemma st_id p fd r : _kqrefs p !! Z.to_nat fd = Some r -> p = st p fd r (kq p).
Proof. intros Hr. unfold st. rewrite list_insert_id by done. by destruct p. Qed.

Lemma st_ctl_add c p fd r k flt :
  exists k' ok, ctl c (st p fd r k) fd flt EV_ADD = (st p fd r k', ok) /\
    (ok = true /\ registered k' = (if c then {[(fd, flt)]} else ∅) ∪ registered k \/
     ok = false /\ c = true /\ registered k' = registered k /\ snd (ff_kevent k fd flt EV_ADD) = -1).
Proof.
  unfold ctl. destruct c; [|exists k, true; split; [done|left; split; [done|set_solver]]].
  pose proof (kevent_add k fd flt) as Ha. cbn [kq st]. destruct (ff_kevent k fd flt EV_ADD) as [k' ret].
  exists k', (negb (ret =? -1)). split; [done|]. destruct Ha as [[-> Ha]|[Hne Ha]]; [by right|left].
  by rewrite (proj2 (Z.eqb_neq _ _)) by done.
Qed.

Lemma st_ctl_del c p fd r k flt :
  exists k' ok, ctl c (st p fd r k) fd flt EV_DELETE = (st p fd r k', ok) /\
    (ok = true /\ registered k' = registered k ∖ (if c then {[(fd, flt)]} else ∅) \/
     ok = false /\ c = true /\ registered k' = registered k).
Proof.
  unfold ctl. destruct c; [|exists k, true; split; [done|left; split; [done|set_solver]]].
  pose proof (kevent_delete k fd flt) as Ha. cbn [kq st]. destruct (ff_kevent k fd flt EV_DELETE) as [k' ret].
  exists k', (negb (ret =? -1)). split; [done|]. destruct Ha as [[-> Ha]|(Hne & _ & Ha)]; [by right|left].
  by rewrite (proj2 (Z.eqb_neq _ _)) by done.
Qed.
(** Events for reading, for writing, or both. *)
Definition events_ok (e : Z) : Prop := e = 1 \/ e = 2 \/ e = 3.

Lemma CtrlAdd_free p fd r k e :
  valid_fd p fd -> _events r = 0 -> events_ok e ->
  exists (k' : K) (ok : bool), KqueueCtrlAdd (st p fd r k) fd e =
      (st p fd (if ok then SetListenEvents (AttachEvents r e) e else DetachEvents (AttachEvents r e) e) k', ok) /\
    (ok = true /\ registered k' = filters fd e ∪ registered k \/
     ok = false /\ (registered k' = registered k \/
       e = 3 /\ exists flt k, snd (ff_kevent k fd flt EV_ADD) = -1)).
Proof.
  intros Hv Hr He. unfold KqueueCtrlAdd. rewrite st_get, Hr, Z.lor_0_l by done.
  rewrite (proj2 (Z.eqb_neq 0 e)) by (unfold events_ok in He; lia). rewrite st_upd.
  change (has_event 0 KQ_EVENT_WRITE) with false. change (has_event 0 KQ_EVENT_READ) with false. cbn [ctl negb].
  destruct (st_ctl_add (has_event e KQ_EVENT_WRITE) p fd (AttachEvents r e) k EVFILT_WRITE) as (k1 & ok1 & -> & H1).
  destruct ok1; cbn [negb].
  2: { destruct H1 as [[? _]|(_ & _ & H1 & _)]; [done|]. rewrite st_upd. exists k1, false. split; [done|]. right. by auto. }
  destruct H1 as [[_ H1]|(? & _)]; [|done].
  destruct (st_ctl_add (has_event e KQ_EVENT_READ) p fd (AttachEvents r e) k1 EVFILT_READ) as (k2 & ok2 & -> & H2).
  exists k2, ok2. split; [destruct ok2; cbn [negb]; by rewrite st_upd|]. destruct ok2.
  - left. destruct H2 as [[_ H2]|(? & _)]; [|done]. split; [done|]. rewrite H2, H1. unfold filters. set_solver.
  - right. destruct H2 as [[? _]|(_ & Hc & H2 & Hf)]; [done|]. split; [done|].
    destruct He as [->|[->| ->]]; [left; rewrite H2, H1; set_solver|by vm_compute in Hc|right; eauto].
Qed.

Lemma CtrlDel_all p fd r k e :
  valid_fd p fd -> _events r = e -> events_ok e ->
  (forall flt k, (fd, flt) ∈ registered k -> snd (ff_kevent k fd flt EV_DELETE) <> -1) ->
  filters fd e ⊆ registered k ->
  exists k', KqueueCtrlDelRef (st p fd r k) fd e false = (st p fd (SetListenEvents (DetachEvents r e) 0) k', true) /\
    registered k' = registered k ∖ filters fd e.
Proof.
  intros Hv Hr He Hdel Hsub. unfold KqueueCtrlDelRef. rewrite st_get, st_upd by done. cbn [_events DetachEvents]. rewrite Hr.
  rewrite Z.ldiff_diag. rewrite (proj2 (Z.eqb_neq e 0)) by (unfold events_ok in He; lia).
  change (has_event 0 KQ_EVENT_WRITE) with false. change (has_event 0 KQ_EVENT_READ) with false.
  assert (forall c p r k flt, (c = true -> (fd, flt) ∈ registered k) ->
    exists k', ctl c (st p fd r k) fd flt EV_DELETE = (st p fd r k', true) /\
      registered k' = registered k ∖ (if c then {[(fd, flt)]} else ∅)) as Hctl.
  { intros c p0 r0 k0 flt Hin. destruct (st_ctl_del c p0 fd r0 k0 flt) as (k' & ok & E & [[-> Hk]|(-> & -> & _)]); [by exists k'|].
    specialize (Hdel flt k0 (Hin eq_refl)). unfold ctl in E. cbn [st kq] in E.
    destruct (ff_kevent k0 fd flt EV_DELETE) as [k1 ret]. cbn [snd] in Hdel. by rewrite (proj2 (Z.eqb_neq _ _)) in E. }
  destruct (Hctl (has_event e KQ_EVENT_WRITE) p (DetachEvents r e) k EVFILT_WRITE) as (k1 & -> & H1).
  { intros Hc. apply Hsub. unfold filters. rewrite Hc. set_solver. }
  cbn [negb]. destruct (Hctl (has_event e KQ_EVENT_READ) p (DetachEvents r e) k1 EVFILT_READ) as (k2 & -> & H2).
  { intros Hc. rewrite H1. apply elem_of_difference. split; [apply Hsub; unfold filters; rewrite Hc; set_solver|].
    destruct (has_event e KQ_EVENT_WRITE); [|set_solver]. intros E%elem_of_singleton. by injection E. }
  cbn [negb ctl]. rewrite st_upd. exists k2. split; [done|]. rewrite H2, H1. unfold filters. set_solver.
Qed.
(** The reference of a descriptor object [o] waits for. *)
Definition busy o obj : KqFdRef :=
  mkRef (if has_event (o_events obj) KQ_EVENT_WRITE then 1 else 0)
    (if has_event (o_events obj) KQ_EVENT_READ then 1 else 0) (o_events obj) (Some o).

Lemma valid_get p fd r : valid_fd p fd -> _kqrefs p !! Z.to_nat fd = Some r -> KqFdRefGet p fd = Some r.
Proof. intros Hv Hr. rewrite (st_id p fd r Hr). by apply st_get. Qed.

Lemma upd_ref_st p fd r g : _kqrefs p !! Z.to_nat fd = Some r -> upd_ref p fd g = st p fd (g r) (kq p).
Proof. intros Hr. transitivity (upd_ref (st p fd r (kq p)) fd g); [by rewrite <-st_id|apply st_upd]. Qed.

Lemma AddObj_spec p o obj :
  objs p !! o = Some obj -> valid_fd p (_fd obj) -> _kqrefs p !! Z.to_nat (_fd obj) = Some new_ref ->
  events_ok (o_events obj) ->
  exists k ok, KqueueAddObj p o = Ok (st p (_fd obj) (if ok : bool then busy o obj else new_ref) k, ok) /\
    (ok = true /\ registered k = filters (_fd obj) (o_events obj) ∪ regs p \/
     ok = false /\ (registered k = regs p \/
       o_events obj = 3 /\ exists flt k, snd (ff_kevent k (_fd obj) flt EV_ADD) = -1)).
Proof.
  intros Ho Hv Hr He. unfold KqueueAddObj. rewrite Ho, (valid_get p _ _ Hv Hr). unfold KqueueCtlAdd. cbn [_kqobj new_ref].
  rewrite bool_decide_eq_false_2 by (intros Hn; by apply Hn). cbn [andb]. rewrite (upd_ref_st p _ _ _ Hr).
  destruct (CtrlAdd_free p (_fd obj) (SetNotifyObj new_ref (Some o)) (kq p) (o_events obj) Hv eq_refl He) as (k & ok & -> & Hk).
  exists k, ok. split; [|done]. destruct ok; cbn [negb]; rewrite ?st_upd; do 3 f_equal;
    unfold busy; destruct He as [->|[->| ->]]; reflexivity.
Qed.

Definition delete_reliable : Prop :=
  forall fd flt k, (fd, flt) ∈ registered k -> snd (ff_kevent k fd flt EV_DELETE) <> -1.

Lemma DelObj_spec p o obj :
  delete_reliable -> objs p !! o = Some obj -> valid_fd p (_fd obj) ->
  _kqrefs p !! Z.to_nat (_fd obj) = Some (busy o obj) -> events_ok (o_events obj) ->
  filters (_fd obj) (o_events obj) ⊆ regs p ->
  exists k, KqueueDelObj p o = Ok (st p (_fd obj) new_ref k, true) /\
    registered k = regs p ∖ filters (_fd obj) (o_events obj).
Proof.
  intros Hdel Ho Hv Hr He Hsub. unfold KqueueDelObj. rewrite Ho, (valid_get p _ _ Hv Hr). unfold KqueueCtlDel. cbn [_kqobj busy].
  rewrite bool_decide_eq_false_2 by (intros Hn; by apply Hn). rewrite (upd_ref_st p _ _ _ Hr).
  destruct (CtrlDel_all p (_fd obj) (SetNotifyObj (busy o obj) None) (kq p) (o_events obj) Hv eq_refl He) as (k & -> & Hk);
    [intros; by apply Hdel|done|].
  exists k. split; [|done]. cbn [negb]. do 3 f_equal. unfold busy. destruct He as [->|[->| ->]]; reflexivity.
Qed.
(** ** Lists of objects *)

(** The filters of the objects [l]. *)
Definition filters_of (os : gmap Z KqueuerObj) (l : list Z) : gset (Z * Z) :=
  foldr (fun o s => (if os !! o is Some obj then filters (_fd obj) (o_events obj) else ∅) ∪ s) ∅ l.

(** The objects [l] have descriptors of their own that nothing waits for. *)
Record ready p (l : list Z) : Prop := {
  r_nodup : NoDup l;
  r_obj o : o ∈ l -> exists obj, objs p !! o = Some obj /\ valid_fd p (_fd obj) /\
    _kqrefs p !! Z.to_nat (_fd obj) = Some new_ref /\ events_ok (o_events obj) /\
    filters (_fd obj) (o_events obj) ## regs p;
  r_fds o1 o2 b1 b2 : o1 ∈ l -> o2 ∈ l -> objs p !! o1 = Some b1 -> objs p !! o2 = Some b2 ->
    _fd b1 = _fd b2 -> o1 = o2
}.

(** [p'] is [p] with the objects [l] added. *)
Record added p (l : list Z) p' : Prop := {
  a_max : _maxfd p' = _maxfd p;
  a_objs : objs p' = objs p;
  a_len : length (_kqrefs p') = length (_kqrefs p);
  a_busy o obj : o ∈ l -> objs p !! o = Some obj -> _kqrefs p' !! Z.to_nat (_fd obj) = Some (busy o obj);
  a_rest n : (forall o obj, o ∈ l -> objs p !! o = Some obj -> Z.to_nat (_fd obj) <> n) ->
    _kqrefs p' !! n = _kqrefs p !! n;
  a_regs : regs p' = filters_of (objs p) l ∪ regs p
}.

(** No object is left behind half added when an addition fails. *)
Definition no_partial p (l : list Z) : Prop :=
  forall o obj, o ∈ l -> objs p !! o = Some obj -> o_events obj = 3 ->
    forall flt k, snd (ff_kevent k (_fd obj) flt EV_ADD) <> -1.

Lemma added_nil p : added p [] p.
Proof. split; try done; [intros o obj Ho; by apply elem_of_nil in Ho|]. cbn. set_solver. Qed.

Lemma filters_of_cons os o l :
  filters_of os (o :: l) = (if os !! o is Some obj then filters (_fd obj) (o_events obj) else ∅) ∪ filters_of os l.
Proof. done. Qed.

Lemma filters_of_app os l1 l2 : filters_of os (l1 ++ l2) = filters_of os l1 ∪ filters_of os l2.
Proof.
  induction l1 as [|o l1 IH]; [cbn; set_solver|]. rewrite <-app_comm_cons, !filters_of_cons, IH. set_solver.
Qed.

Lemma filters_in fd e x : x ∈ filters fd e -> x.1 = fd.
Proof. unfold filters. destruct (has_event e KQ_EVENT_WRITE), (has_event e KQ_EVENT_READ); set_solver. Qed.

Lemma filters_of_in os l x :
  x ∈ filters_of os l -> exists o obj, o ∈ l /\ os !! o = Some obj /\ x ∈ filters (_fd obj) (o_events obj).
Proof.
  induction l as [|o l IH]; [cbn; set_solver|]. rewrite filters_of_cons. intros [Hx|Hx]%elem_of_union.
  - destruct (os !! o) as [obj|] eqn:E; [|set_solver]. exists o, obj. split; [left|done].
  - destruct (IH Hx) as (o' & obj & Ho & ?). exists o', obj. split; [by right|done].
Qed.

Lemma st_lookup_ne p fd r k n : n <> Z.to_nat fd -> _kqrefs (st p fd r k) !! n = _kqrefs p !! n.
Proof. intros Hn. cbn. by rewrite list_lookup_insert_ne. Qed.

Lemma same_fd p l o1 o2 b1 b2 :
  ready p l -> o1 ∈ l -> o2 ∈ l -> objs p !! o1 = Some b1 -> objs p !! o2 = Some b2 ->
  Z.to_nat (_fd b1) = Z.to_nat (_fd b2) -> o1 = o2.
Proof.
  intros R H1 H2 E1 E2 E. eapply (r_fds _ _ R); eauto.
  destruct (r_obj _ _ R o1 H1) as (x1 & Ex1 & [V1 _] & _), (r_obj _ _ R o2 H2) as (x2 & Ex2 & [V2 _] & _).
  rewrite E1 in Ex1. rewrite E2 in Ex2. injection Ex1 as <-. injection Ex2 as <-. lia.
Qed.

Lemma add_step p l o p1 :
  ready p (l ++ [o]) -> no_partial p (l ++ [o]) -> added p l p1 ->
  exists p2 ok, KqueueAddObj p1 o = Ok (p2, ok) /\ added p (if ok : bool then l ++ [o] else l) p2.
Proof.
  intros R Hpart A. assert (o ∈ l ++ [o]) as Hin by (apply elem_of_app; right; left).
  destruct (r_obj _ _ R o Hin) as (obj & Ho & Hv & Hr & He & Hdis).
  pose proof (r_nodup _ _ R) as Hnd. apply NoDup_app in Hnd as (_ & Hol & _).
  assert (o ∉ l) as Hnl by (intros Hx; apply (Hol o Hx); left).
  assert (valid_fd p1 (_fd obj)) as Hv1 by (unfold valid_fd; by rewrite (a_max _ _ _ A), (a_len _ _ _ A)).
  assert (_kqrefs p1 !! Z.to_nat (_fd obj) = Some new_ref) as Hr1.
  { rewrite (a_rest _ _ _ A); [done|]. intros o' obj' Ho' E' Efd.
    assert (o' = o) as -> by (eapply (same_fd p (l ++ [o])); eauto; apply elem_of_app; by left). done. }
  destruct (AddObj_spec p1 o obj) as (k & ok & -> & Hk); [by rewrite (a_objs _ _ _ A)|done..|].
  eexists _, ok. split; [done|].
  assert (ok = false -> registered k = regs p1) as Hfail.
  { intros ->. destruct Hk as [[? _]|(_ & [?|(E3 & flt & k' & Hf)])]; [done|done|]. by destruct (Hpart o obj Hin Ho E3 flt k'). }
  destruct ok.
  - destruct Hk as [[_ Hk]|[? _]]; [|done]. split; cbn [st _maxfd objs kq _kqrefs]; try apply A.
    + rewrite length_insert. apply A.
    + intros o' obj' Ho' E'. destruct (decide (o' = o)) as [->|Hne].
      * rewrite Ho in E'. injection E' as <-. apply list_lookup_insert_eq. destruct Hv1. lia.
      * rewrite list_lookup_insert_ne; [|intros E; apply Hne; symmetry; by eapply (same_fd p (l ++ [o]))].
        apply (a_busy _ _ _ A); [|done]. by apply elem_of_app in Ho' as [?|?%list_elem_of_singleton].
    + intros n Hn. rewrite list_lookup_insert_ne by (by apply (Hn o)). apply (a_rest _ _ _ A).
      intros o' obj' Ho'. apply Hn. apply elem_of_app. by left.
    + rewrite Hk, (a_regs _ _ _ A), filters_of_app, filters_of_cons, Ho. cbn. set_solver.
  - specialize (Hfail eq_refl). unfold st. rewrite list_insert_id by done. split; cbn [_maxfd objs kq _kqrefs]; try apply A.
    by rewrite Hfail, (a_regs _ _ _ A).
Qed.

Lemma del_step p l o p1 :
  delete_reliable -> ready p (o :: l) -> added p (o :: l) p1 ->
  exists p2, KqueueDelObj p1 o = Ok (p2, true) /\ added p l p2.
Proof.
  intros Hdel R A. assert (o ∈ o :: l) as Hin by left. destruct (r_obj _ _ R o Hin) as (obj & Ho & Hv & Hr & He & Hdis).
  pose proof (r_nodup _ _ R) as Hnd. apply NoDup_cons in Hnd as [Hnl _].
  assert (valid_fd p1 (_fd obj)) as Hv1 by (unfold valid_fd; by rewrite (a_max _ _ _ A), (a_len _ _ _ A)).
  destruct (DelObj_spec p1 o obj) as (k & -> & Hk); [done|by rewrite (a_objs _ _ _ A)|done|by apply (a_busy _ _ _ A)|done|..].
  { rewrite (a_regs _ _ _ A), filters_of_cons, Ho. set_solver. }
  eexists. split; [done|]. split; cbn [st _maxfd objs kq _kqrefs]; try apply A.
  - rewrite length_insert. apply A.
  - intros o' obj' Ho' E'. rewrite list_lookup_insert_ne.
    + apply (a_busy _ _ _ A); [by right|done].
    + intros E. assert (o = o') as -> by (eapply (same_fd p (o :: l)); eauto; by right). done.
  - intros n Hn. destruct (decide (n = Z.to_nat (_fd obj))) as [->|Hne].
    + rewrite list_lookup_insert_eq by (destruct Hv1; lia). by rewrite Hr.
    + rewrite list_lookup_insert_ne by done. apply (a_rest _ _ _ A). intros o' obj' [->|Ho']%elem_of_cons E'; [|by apply (Hn o')].
      rewrite Ho in E'. injection E' as <-. done.
  - rewrite Hk, (a_regs _ _ _ A), filters_of_cons, Ho.
    assert (filters (_fd obj) (o_events obj) ## filters_of (objs p) l) as Hd2.
    { intros x Hx (o' & obj' & Ho' & E' & Hx')%filters_of_in. apply filters_in in Hx, Hx'.
      assert (o = o') as -> by (eapply (r_fds _ _ R); eauto; [by right|congruence]). done. }
    apply set_eq. intros x. set_solver.
Qed.
Lemma ready_sub p l1 l2 l : ready p (l1 ++ l ++ l2) -> ready p l.
Proof.
  intros R. assert (forall o, o ∈ l -> o ∈ l1 ++ l ++ l2) as Hs by (intros o Ho; apply elem_of_app; right; apply elem_of_app; by left).
  split.
  - pose proof (r_nodup _ _ R) as Hnd. apply NoDup_app in Hnd as (_ & _ & Hnd). by apply NoDup_app in Hnd as (? & _).
  - intros o Ho. apply (r_obj _ _ R). auto.
  - intros o1 o2 b1 b2 H1 H2. apply (r_fds _ _ R); auto.
Qed.

Lemma add_loop_spec p l : forall l0 p1,
  ready p (l0 ++ l) -> no_partial p (l0 ++ l) -> added p l0 p1 ->
  exists p2 err, add_loop p1 l = Ok (p2, err) /\
    match err with
    | None => added p (l0 ++ l) p2
    | Some o => exists l1 l2, l = l1 ++ o :: l2 /\ added p (l0 ++ l1) p2
    end.
Proof.
  induction l as [|o l IH]; intros l0 p1 R Hpart A; cbn [add_loop].
  { exists p1, None. split; [done|]. by rewrite app_nil_r. }
  replace (l0 ++ o :: l) with ((l0 ++ [o]) ++ l) in * by (by rewrite <-app_assoc).
  destruct (add_step p l0 o p1) as (p2 & ok & -> & A2); [by apply (ready_sub p [] l)| |done|].
  { intros o' obj Ho'. apply Hpart. apply elem_of_app. by left. }
  cbn [res_bind]. destruct ok.
  - destruct (IH (l0 ++ [o]) p2 R Hpart A2) as (p3 & err & -> & Herr). exists p3, err. split; [done|]. destruct err as [o'|]; [|done].
    destruct Herr as (l1 & l2 & -> & A3). exists (o :: l1), l2. split; [done|]. by rewrite <-app_assoc in A3.
  - exists p2, (Some o). split; [done|]. exists [], l. split; [done|]. by rewrite app_nil_r.
Qed.

Lemma rollback_spec p o l2 : forall l1 p1,
  delete_reliable -> ready p (l1 ++ o :: l2) -> added p l1 p1 ->
  exists p2, rollback p1 (l1 ++ o :: l2) o = Ok p2 /\ added p [] p2.
Proof.
  induction l1 as [|x l1 IH]; intros p1 Hdel R A; cbn [app rollback].
  { rewrite Z.eqb_refl. by exists p1. }
  pose proof (r_nodup _ _ R) as Hnd. rewrite <-app_comm_cons in Hnd. apply NoDup_cons in Hnd as [Hx _].
  rewrite (proj2 (Z.eqb_neq x o)) by (intros ->; apply Hx, elem_of_app; right; left).
  destruct (del_step p l1 x p1 Hdel) as (p2 & -> & A2); [|done|].
  { by apply (ready_sub p [] (o :: l2) (x :: l1)). }
  cbn [res_bind]. apply IH; [done| |done]. apply (ready_sub p [x] [] _). by rewrite app_nil_r.
Qed.

Lemma KqueueDel_spec p l : forall p1,
  delete_reliable -> ready p l -> added p l p1 -> exists p2, KqueueDel p1 l = Ok (p2, true) /\ added p [] p2.
Proof.
  induction l as [|o l IH]; intros p1 Hdel R A; cbn [KqueueDel]; [by exists p1|].
  destruct (del_step p l o p1 Hdel R A) as (p2 & -> & A2). cbn [res_bind].
  destruct (IH p2 Hdel) as (p3 & -> & A3); [|done|]; [|by exists p3].
  apply (ready_sub p [o] [] _). by rewrite app_nil_r.
Qed.

Lemma added_same p p' : added p [] p' -> _maxfd p' = _maxfd p /\ _kqrefs p' = _kqrefs p /\ objs p' = objs p /\ regs p' = regs p.
Proof.
  intros A. split_and!; try apply A.
  - apply list_eq. intros n. apply (a_rest _ _ _ A). intros o obj Ho. by apply elem_of_nil in Ho.
  - rewrite (a_regs _ _ _ A). cbn. set_solver.
Qed.
End Proofs.

(** ** Events that arrive *)

Lemma upd_thread_inv f t g f' :
  Sched.upd_thread f t g = Ok f' -> Sched._iolist f' = Sched._iolist f /\ dom (Sched.threads f') = dom (Sched.threads f).
Proof.
  unfold Sched.upd_thread, Sched.get_thread. destruct (Sched.threads f !! t) as [th|] eqn:E; [|done]. intros [= <-].
  split; [done|]. cbn. apply dom_insert_lookup_L. by eexists.
Qed.

Lemma IoNotify_inv f t f' :
  Sched.IoNotify f t = Ok f' -> dom (Sched.threads f') = dom (Sched.threads f) /\
    (f' = f \/ Sched.tailq_remove t (Sched._iolist f) = Ok (Sched._iolist f')).
Proof.
  unfold Sched.IoNotify, Sched.HasFlag. destruct (Sched.get_thread f t) as [th| |]; cbn [res_bind]; [|done..].
  destruct (Sched.has_flag Sched.IO_LIST th); [|intros [= <-]; by split; [|left]].
  unfold Sched.RemoveIoWait. destruct (Sched.upd_thread f t _) as [f1| |] eqn:E1; cbn [res_bind]; [|done..].
  apply upd_thread_inv in E1 as [I1 D1]. destruct (Sched.tailq_remove t _) as [l| |] eqn:El; cbn [res_bind]; [|done..].
  unfold Sched.RemoveSleep. destruct (Sched.upd_thread _ t _) as [f2| |] eqn:E2; cbn [res_bind]; [|done..].
  apply upd_thread_inv in E2 as [I2 D2]. destruct (Heap.HeapDelete _ _ t) as [[h ?]| |]; cbn [res_bind]; [|done..].
  unfold Sched.InsertRunable. destruct (Sched.upd_thread _ t _) as [f3| |] eqn:E3; cbn [res_bind]; [|done..].
  apply upd_thread_inv in E3 as [I3 D3]. destruct (Sched.upd_thread f3 t _) as [f4| |] eqn:E4; cbn [res_bind]; [|done..].
  apply upd_thread_inv in E4 as [I4 D4]. intros [= <-]. cbn [Sched.threads Sched._iolist Sched.with_run] in *.
  cbn [Sched.with_sleep Sched.with_io Sched.threads Sched._iolist] in *. split; [congruence|]. right.
  rewrite <-I1, El, I4, I3, I2. done.
Qed.

(** The scheduler makes [t] ready if it waits, and it only. *)
Lemma IoNotify_step primo f es x t :
  core primo [] f es x -> is_Some (Sched.threads f !! t) ->
  exists f' es' l, Sched.IoNotify f t = Ok f' /\ core primo [] f' es' x /\
    Sched._curr_thread f' = Sched._curr_thread f /\ Sched._daemon f' = Sched._daemon f /\
    dom (Sched.threads f') = dom (Sched.threads f) /\
    Sched._runlist f' = Sched._runlist f ++ l /\
    l = (if decide (t ∈ Sched._iolist f) then [t] else []) /\
    forall u, u ∈ Sched._iolist f' <-> u ∈ Sched._iolist f /\ u <> t.
Proof.
  intros Hc Ht. destruct (IoNotify_spec primo [] f es x t Hc Ht) as (f' & es' & E & Hc' & Hcur & Hd & Hio).
  destruct (IoNotify_inv f t f' E) as [Hdom Hl]. exists f', es', (if decide (t ∈ Sched._iolist f) then [t] else []).
  split_and!; try done.
  - destruct (decide _) as [Hin|Hin]; [by destruct Hio as [_ ->]|subst f'; by rewrite app_nil_r].
  - intros u. destruct (decide (t ∈ Sched._iolist f)) as [Hin|Hin].
    + destruct Hio as [Hes Hrun]. destruct Hl as [->|Hl].
      { exfalso. apply (f_equal length) in Hrun. rewrite length_app in Hrun. simpl in Hrun. lia. }
      destruct (tailq_remove_spec t (Sched._iolist f) Hin) as (l' & Hl' & Hp). rewrite Hl in Hl'. injection Hl' as ->.
      destruct (c_io _ _ _ _ _ Hc) as [Hnd _]. rewrite <-Hp in Hnd. apply NoDup_cons in Hnd as [Htl _].
      rewrite <-Hp, elem_of_cons. split; [intros Hu; split; [by right|by intros ->]|]. intros [[->|?] ?]; done.
    + subst f'. split; [|by intros [? _]]. intros Hu. split; [done|]. by intros ->.
Qed.

Section Events.
Context `{Kevent K}.
Implicit Types (p : KqueueProxy K).

(** Descriptor [fd] has object [o], owned by thread [t]. *)
Definition owner p (fd o t : Z) : Prop :=
  exists ref obj, KqFdRefGet p fd = Some ref /\ _kqobj ref = Some o /\ objs p !! o = Some obj /\ _thread obj = Some t.

Lemma owner_rcv p fd o t o' obj' r :
  owner p fd o t -> objs p !! o' = Some obj' -> owner (set_objs p (<[o' := SetRcvEvents obj' r]> (objs p))) fd o t.
Proof.
  intros (ref & obj & Hr & Ho & Hobj & Ht) Ho'. exists ref. destruct (decide (o = o')) as [->|Hne].
  - exists (SetRcvEvents obj' r). split_and!; try done; [cbn; apply lookup_insert_eq|]. cbn. congruence.
  - exists obj. split_and!; try done. cbn. by rewrite lookup_insert_ne.
Qed.

Definition io_event (ev : Z * Z) : Prop := ev.2 = EVFILT_READ \/ ev.2 = EVFILT_WRITE.

(** Thread [t], if it waits, has become ready, and nothing else has changed. *)
Definition woken (f : Sched.MtFrame) (t : Z) (f' : Sched.MtFrame) : Prop :=
  Sched._curr_thread f' = Sched._curr_thread f /\ Sched._daemon f' = Sched._daemon f /\
  dom (Sched.threads f') = dom (Sched.threads f) /\
  Sched._runlist f' = Sched._runlist f ++ (if decide (t ∈ Sched._iolist f) then [t] else []) /\
  forall u, u ∈ Sched._iolist f' <-> u ∈ Sched._iolist f /\ u <> t.

Lemma woken_again f t f1 f2 : woken f t f1 -> woken f1 t f2 -> woken f t f2.
Proof.
  intros (C1 & D1 & M1 & R1 & I1) (C2 & D2 & M2 & R2 & I2). split_and!; try congruence.
  - rewrite R2, R1, (decide_False (P := t ∈ Sched._iolist f1)), app_nil_r; [done|]. rewrite I1. tauto.
  - intros u. rewrite I2, I1. tauto.
Qed.

Lemma Notify_spec primo f es x t obj :
  core primo [] f es x -> t ∈ dom (Sched.threads f) -> _thread obj = Some t ->
  exists f' es', Notify f obj = Ok (f', 0) /\ core primo [] f' es' x /\ woken f t f'.
Proof.
  intros Hc Ht%elem_of_dom Hobj. unfold Notify. rewrite Hobj.
  destruct (IoNotify_step primo f es x t Hc Ht) as (f' & es' & l & -> & ? & ? & ? & ? & ? & -> & ?). cbn [res_bind].
  exists f', es'. done.
Qed.

(** The two notifications of one event. *)
Lemma notify_both {A} primo f es x t obj (b1 b2 : bool) (k : Sched.MtFrame -> res A) :
  core primo [] f es x -> t ∈ dom (Sched.threads f) -> _thread obj = Some t -> b1 || b2 = true ->
  exists f' es', core primo [] f' es' x /\ woken f t f' /\
    (let* (f, ret) := if b1 then Notify f obj else Ok (f, 0) in
     if negb (ret =? 0) then k f
     else let* (f, _) := if b2 then Notify f obj else Ok (f, 0) in k f) = k f'.
Proof.
  intros Hc Ht Hobj Hb. destruct b1.
  - destruct (Notify_spec primo f es x t obj Hc Ht Hobj) as (f1 & es1 & -> & Hc1 & W1). cbn [res_bind Z.eqb negb].
    destruct b2; [|exists f1, es1; done].
    destruct (Notify_spec primo f1 es1 x t obj Hc1) as (f2 & es2 & -> & Hc2 & W2); [|done|].
    { destruct W1 as (_ & _ & -> & _). done. }
    cbn [res_bind]. exists f2, es2. split_and!; try done. by apply woken_again with f1.
  - cbn in Hb. subst b2. cbn [res_bind Z.eqb negb].
    destruct (Notify_spec primo f es x t obj Hc Ht Hobj) as (f1 & es1 & -> & Hc1 & W1). cbn [res_bind]. by exists f1, es1.
Qed.

Lemma has_event_lor a b e : has_event a e = true \/ has_event b e = true -> has_event (Z.lor a b) e = true.
Proof.
  unfold has_event. rewrite !negb_true_iff, !Z.eqb_neq, Z.land_lor_distr_l, Z.lor_eq_0_iff. tauto.
Qed.

(** The event of a filter. *)
Definition event_of (flt : Z) : Z := if flt =? EVFILT_READ then KQ_EVENT_READ else KQ_EVENT_WRITE.

(** Events with owners wake exactly these, in the order of their first events,
    and every object learns its event. *)
Lemma owner_rcv_iff p fd o t o' obj' r : objs p !! o' = Some obj' ->
  owner (set_objs p (<[o' := SetRcvEvents obj' r]> (objs p))) fd o t <-> owner p fd o t.
Proof.
  intros Ho. split; [|intros Hw; by apply owner_rcv].
  intros (ref & obj & Hr & Hk & Hobj & Ht). exists ref. cbn [set_objs objs] in Hobj.
  apply lookup_insert_Some in Hobj as [[<- <-]|[_ Hobj]]; [exists obj'|exists obj]; done.
Qed.

(** The events collected when one for the filter [flt] arrives. *)
Lemma rcv_revents revents flt fd : io_event (fd, flt) ->
  let rev := if flt =? EVFILT_READ then Z.lor revents KQ_EVENT_READ else revents in
  let rev := if flt =? EVFILT_WRITE then Z.lor rev KQ_EVENT_WRITE else rev in
  has_event rev (event_of flt) = true /\ (forall e, has_event revents e = true -> has_event rev e = true) /\
  has_event rev KQ_EVENT_READ || has_event rev KQ_EVENT_WRITE = true.
Proof.
  intros Hio rev1 rev. assert (has_event rev (event_of flt) = true) as Hrev.
  { unfold rev, rev1, event_of. destruct Hio as [E|E]; cbn in E; rewrite E; cbn [Z.eqb EVFILT_READ EVFILT_WRITE Pos.eqb];
      apply has_event_lor; by right. }
  split_and!; [done| |apply orb_true_iff; unfold event_of in Hrev; destruct (flt =? EVFILT_READ); auto].
  intros e He. unfold rev, rev1. destruct (flt =? EVFILT_READ), (flt =? EVFILT_WRITE); try done;
    repeat (apply has_event_lor; left); done.
Qed.

Lemma rcv_loop_spec primo x : forall evs p f es revents,
  core primo [] f es x ->
  Forall (fun ev => io_event ev /\ exists o t, owner p ev.1 o t /\ t ∈ dom (Sched.threads f)) evs ->
  exists p' f' es' wl, rcv_loop p f revents evs = Ok (p', f') /\ core primo [] f' es' x /\
    Sched._curr_thread f' = Sched._curr_thread f /\ Sched._daemon f' = Sched._daemon f /\
    _kqrefs p' = _kqrefs p /\ kq p' = kq p /\
    Sched._runlist f' = Sched._runlist f ++ wl /\ NoDup wl /\
    (forall t, t ∈ wl <-> t ∈ Sched._iolist f /\ exists ev o, ev ∈ evs /\ owner p ev.1 o t) /\
    (forall t, t ∈ Sched._iolist f' <-> t ∈ Sched._iolist f /\ t ∉ wl) /\
    (forall o obj e, objs p !! o = Some obj -> has_event (_revents obj) e = true -> has_event revents e = true ->
       exists obj', objs p' !! o = Some obj' /\ has_event (_revents obj') e = true) /\
    (forall ev o t, ev ∈ evs -> owner p ev.1 o t ->
       exists obj', objs p' !! o = Some obj' /\ has_event (_revents obj') (event_of ev.2) = true).
Proof.
  induction evs as [|[fd flt] evs IH]; intros p f es revents Hc Hevs; cbn [rcv_loop].
  { exists p, f, es, []. rewrite app_nil_r. split_and!; try done; [constructor|..].
    - intros t. split; [by intros ?%elem_of_nil|]. intros (_ & ev & o & ?%elem_of_nil & _). done.
    - intros t. split; [intros ?; split; [done|by intros ?%elem_of_nil]|by intros [? _]].
    - intros o obj e Ho He _. by exists obj.
    - intros ev o t ?%elem_of_nil. done. }
  apply Forall_cons in Hevs as [[Hio (o & t & Ho & Ht)] Hevs]. pose proof Ho as (ref & obj & Hr & Hk & Hobj & Hth).
  cbn [fst] in *. rewrite Hr, Hk, Hobj.
  destruct (rcv_revents revents flt fd Hio) as (Hrev & Hmono & Hb). set (rev := if flt =? EVFILT_WRITE then _ else _) in *.
  assert ((flt =? EV_ERROR) = false) as -> by (destruct Hio as [E|E]; cbn in E; by rewrite E).
  clearbody rev. set (p1 := set_objs p _).
  destruct (notify_both primo f es x t obj _ _ (fun f => rcv_loop p1 f rev evs) Hc Ht Hth Hb) as (f1 & es1 & Hc1 & W & ->).
  destruct W as (C1 & D1 & M1 & R1 & I1).
  assert (forall fd' o' t', owner p1 fd' o' t' <-> owner p fd' o' t') as Hown by (intros; by apply owner_rcv_iff).
  destruct (IH p1 f1 es1 rev Hc1) as (p' & f' & es' & wl & E & Hc' & C2 & D2 & K2 & Q2 & R2 & Hnd & Hwl & Hio2 & Hkeep & Hevo).
  { eapply Forall_impl; [exact Hevs|]. intros ev (Hi & o' & t' & Ho' & Ht'). split; [done|]. exists o', t'.
    rewrite M1. split; [by apply Hown|done]. }
  exists p', f', es', ((if decide (t ∈ Sched._iolist f) then [t] else []) ++ wl).
  split_and!; try done; try congruence.
  - by rewrite R2, R1, app_assoc.
  - apply NoDup_app. split_and!; [destruct (decide _); [apply NoDup_singleton|constructor]| |done].
    intros u Hu Hw. apply Hwl in Hw as [Hw _]. apply I1 in Hw as [_ Hne].
    destruct (decide _); [by apply list_elem_of_singleton in Hu|by apply elem_of_nil in Hu].
  - intros u. rewrite elem_of_app, Hwl, I1. split.
    + intros [Hu|[[Hu Hne] (ev & o' & Hev & Ho')]].
      * destruct (decide (t ∈ Sched._iolist f)) as [Hin|]; [|by apply elem_of_nil in Hu]. apply list_elem_of_singleton in Hu as ->.
        split; [done|]. exists (fd, flt), o. split; [left|done].
      * split; [done|]. exists ev, o'. split; [by right|by apply Hown].
    + intros [Hu (ev & o' & [->|Hev]%elem_of_cons & Ho')].
      * left. cbn [fst] in Ho'. assert (u = t) as ->; [|rewrite decide_True by done; left].
        destruct Ho' as (ref' & obj' & Hr' & Hk' & Hobj' & Ht'). congruence.
      * destruct (decide (u = t)) as [->|Hne]; [left; rewrite decide_True by done; left|]. right. split; [done|].
        exists ev, o'. split; [done|by apply Hown].
  - intros u. rewrite Hio2, I1, elem_of_app. destruct (decide (t ∈ Sched._iolist f)) as [Hin|Hin].
    + rewrite list_elem_of_singleton. tauto.
    + split; [intros [[? ?] ?]; split; [done|]; intros [?%elem_of_nil|?]; done|].
      intros [Hu Hn]. split; [split; [done|]|]; [intros ->; done|]. intros Hw. apply Hn. by right.
  - intros o' obj' e Ho' He Hrv. destruct (decide (o' = o)) as [->|Hne].
    + apply (Hkeep o (SetRcvEvents obj rev)); [apply lookup_insert_eq|by apply Hmono..].
    + apply (Hkeep o' obj'); [cbn; by rewrite lookup_insert_ne|done|by apply Hmono].
  - intros ev o' t' [->|Hin]%elem_of_cons Ho'; [|apply (Hevo ev o' t' Hin); by apply Hown].
    cbn [fst snd] in *. assert (o' = o) as -> by (destruct Ho' as (ref' & obj' & Hr' & Hk' & _); congruence).
    apply (Hkeep o (SetRcvEvents obj rev)); [apply lookup_insert_eq|done..].
Qed.
End Events.

(** ** Properties *)

(** C27: [KqueueAdd] either adds all objects, so that exactly their filters are
    registered on top of the others and each descriptor refers to its object,
    and [KqueueDel] takes everything back; or, when [ff_kevent] fails, it
    returns false and leaves the references and the filters as they were.  The
    objects are of different descriptors, none of which is watched yet
    ([ready]); a deletion of a registered filter does not fail; and no object
    waits for two kinds of events, unless its additions do not fail. *)
Theorem kqueue_add_all_or_nothing `{Kevent K} (p : KqueueProxy K) l :
  delete_reliable -> ready p l -> no_partial p l ->
  exists p' ok, KqueueAdd p l = Ok (p', ok) /\
    if ok : bool then
      (forall o obj, o ∈ l -> objs p !! o = Some obj -> _kqrefs p' !! Z.to_nat (_fd obj) = Some (busy o obj)) /\
      registered (kq p') = filters_of (objs p) l ∪ registered (kq p) /\
      exists p'', KqueueDel p' l = Ok (p'', true) /\ _kqrefs p'' = _kqrefs p /\ objs p'' = objs p /\
        registered (kq p'') = registered (kq p)
    else _kqrefs p' = _kqrefs p /\ objs p' = objs p /\ registered (kq p') = registered (kq p).
Proof.
  intros Hdel R Hpart. unfold KqueueAdd.
  destruct (add_loop_spec p l [] p R Hpart (added_nil p)) as (p1 & err & -> & Herr). cbn [res_bind]. destruct err as [o|].
  - destruct Herr as (l1 & l2 & -> & A). destruct (rollback_spec p o l2 l1 p1 Hdel R A) as (p2 & -> & A2). cbn [res_bind].
    exists p2, false. split; [done|]. by apply added_same in A2 as (_ & ? & ? & ?).
  - exists p1, true. split; [done|]. cbn [app] in Herr. split; [intros o obj Ho Eo; by apply (a_busy _ _ _ Herr)|].
    split; [apply (a_regs _ _ _ Herr)|]. destruct (KqueueDel_spec p l p1 Hdel R Herr) as (p2 & Hd & A2).
    exists p2. split; [done|]. by apply added_same in A2 as (_ & ? & ? & ?).
Qed.

(** C14: no wake-up is lost: when events for reading and writing arrive, each
    for a descriptor with an object of some thread, [KqueueRcvEventList] makes exactly the waiting threads ready that own one of
    the descriptors, each once; the others go on waiting, and every object has
    its event, so that [KqueueSchedule] returns true to its thread. *)
Theorem kqueue_events_wake `{Kevent K} primo (p : KqueueProxy K) f evs :
  frame_ok primo f ->
  Forall (fun ev => io_event ev /\ exists o t, owner p ev.1 o t /\ t ∈ dom (Sched.threads f)) evs ->
  exists p' f' wl, KqueueRcvEventList p f evs = Ok (p', f') /\ frame_ok primo f' /\
    _kqrefs p' = _kqrefs p /\ kq p' = kq p /\
    Sched._runlist f' = Sched._runlist f ++ wl /\ NoDup wl /\
    (forall t, t ∈ wl <-> t ∈ Sched._iolist f /\ exists ev o, ev ∈ evs /\ owner p ev.1 o t) /\
    (forall t, t ∈ Sched._iolist f' <-> t ∈ Sched._iolist f /\ t ∉ wl) /\
    (forall ev o t, ev ∈ evs -> owner p ev.1 o t ->
       exists obj, objs p' !! o = Some obj /\ has_event (_revents obj) (event_of ev.2) = true).
Proof.
  intros [es Hc] Hevs. unfold KqueueRcvEventList.
  destruct (rcv_loop_spec primo (running f) evs p f es 0 Hc Hevs)
    as (p' & f' & es' & wl & -> & Hc' & Hcur & Hd & Hk & Hq & Hr & Hnd & Hw & Hio & _ & Hev).
  exists p', f', wl. split_and!; try done. exists es'. unfold running in *. by rewrite Hcur, Hd.
Qed.

(** ** Witnesses *)

(** A queue that never fails for what is registered. *)
Definition set_kevent (k : gset (Z * Z)) (fd flt flags : Z) : gset (Z * Z) * Z :=
  if flags =? EV_ADD then ({[(fd, flt)]} ∪ k, 0)
  else if decide ((fd, flt) ∈ k) then (k ∖ {[(fd, flt)]}, 0) else (k, -1).

#[export] Program Instance set_Kevent : Kevent (gset (Z * Z)) := {| ff_kevent := set_kevent; registered k := k |}.
Next Obligation. intros k fd flt. unfold set_kevent. cbn. by right. Qed.
Next Obligation.
  intros k fd flt. unfold set_kevent. cbn. destruct (decide _); [by right|by left].
Qed.

Lemma set_delete_reliable : delete_reliable (K := gset (Z * Z)).
Proof. intros fd flt k Hin. cbn. unfold set_kevent. cbn. by rewrite decide_True. Qed.

(** Two objects: descriptor 1 for reading and descriptor 2 for both. *)
Definition proxy0 : KqueueProxy (gset (Z * Z)) :=
  mkProxy 4 (replicate 4 new_ref) {[10 := mkObj 1 1 0 (Some 3); 11 := mkObj 2 3 0 (Some 4)]} ∅.

Lemma proxy0_ready : ready proxy0 [10; 11] /\ no_partial proxy0 [10; 11].
Proof.
  split; [|intros o obj _ _ _ flt k; unfold set_kevent; cbn; done]. split.
  - apply NoDup_cons. split; [set_solver|apply NoDup_singleton].
  - intros o Ho. repeat (apply elem_of_cons in Ho as [->|Ho]); [..|by apply elem_of_nil in Ho]; eexists; (split; [reflexivity|]);
      unfold valid_fd, events_ok; cbn; split_and!; try lia; try done; auto; set_solver.
  - intros o1 o2 b1 b2 H1 H2. repeat (apply elem_of_cons in H1 as [->|H1]); [..|by apply elem_of_nil in H1];
      (repeat (apply elem_of_cons in H2 as [->|H2]); [..|by apply elem_of_nil in H2]);
      intros [= <-] [= <-]; done.
Qed.

Lemma kqueue_add_all_or_nothing_witness :
  exists p', KqueueAdd proxy0 [10; 11] = Ok (p', true) /\
    kq p' = {[(1, EVFILT_READ); (2, EVFILT_READ); (2, EVFILT_WRITE)]} /\
    exists p'', KqueueDel p' [10; 11] = Ok (p'', true) /\ _kqrefs p'' = _kqrefs proxy0 /\ kq p'' = ∅.
Proof.
  destruct (kqueue_add_all_or_nothing proxy0 [10; 11] set_delete_reliable (proj1 proxy0_ready) (proj2 proxy0_ready))
    as (p' & ok & E & Hok).
  assert (ok = true) as ->.
  { assert (match KqueueAdd proxy0 [10; 11] with Ok (_, b) => b | _ => false end = true) as Hb by (vm_compute; reflexivity).
    by rewrite E in Hb. }
  destruct Hok as (_ & Hk & p'' & Hd & Hr & _ & Hk2). exists p'. split; [exact E|]. split.
  - cbn [registered set_Kevent] in Hk. rewrite Hk. vm_compute. reflexivity.
  - exists p''. split; [exact Hd|]. split; [exact Hr|exact Hk2].
Defined.

(** The running thread 2 waits for descriptor 1. *)
Definition frame_io : Sched.MtFrame := after frame0 (Sched.EWaitNotify 100 50).
Definition proxy_io : KqueueProxy (gset (Z * Z)) :=
  mkProxy 4 (<[1%nat := mkRef 0 1 1 (Some 10)]> (replicate 4 new_ref)) {[10 := mkObj 1 1 0 (Some 2)]} {[(1, EVFILT_READ)]}.

Lemma kqueue_events_wake_witness :
  exists p' f' wl, KqueueRcvEventList proxy_io frame_io [(1, EVFILT_READ)] = Ok (p', f') /\
    Sched._runlist f' = wl /\ 2 ∈ wl.
Proof.
  assert (frame_ok 2 frame_io) as Hok by (apply after_ok; [exact frame0_ok|discriminate]).
  assert (owner proxy_io 1 10 2) as Ho by (exists (mkRef 0 1 1 (Some 10)), (mkObj 1 1 0 (Some 2)); done).
  destruct (kqueue_events_wake 2 proxy_io frame_io [(1, EVFILT_READ)] Hok) as (p' & f' & wl & E & _ & _ & _ & Hr & _ & Hw & _).
  - apply Forall_singleton. split; [by left|]. exists 10, 2. split; [exact Ho|]. apply elem_of_dom.
    assert (bool_decide (is_Some (Sched.threads frame_io !! 2)) = true) as Hb by (vm_compute; reflexivity).
    by apply bool_decide_eq_true_1 in Hb.
  - exists p', f', wl. split; [exact E|]. split; [exact Hr|]. apply Hw. split.
    + assert (Sched._iolist frame_io = [2]) as -> by (vm_compute; reflexivity). left.
    + exists (1, EVFILT_READ), 10. split; [left|exact Ho].
Defined.

(** ** Findings *)

(** A descriptor that waits for reading and is to wait for writing, too: the
    filter for reading is deleted and not added again, although both events are
    recorded. *)
Example add_write_loses_read :
  let p := mkProxy 4 (<[1%nat := mkRef 0 1 1 (Some 10)]> (replicate 4 new_ref)) ∅ {[(1, EVFILT_READ)]} in
  let '(p', ok) := KqueueCtrlAdd p 1 KQ_EVENT_WRITE in
  ok = true /\ _kqrefs p' !! 1%nat = Some (mkRef 1 1 3 (Some 10)) /\ kq p' = {[(1, EVFILT_WRITE)]}.
Proof. vm_compute. done. Qed.

(** The received events of one descriptor are taken for those of the next: the
    object of descriptor 2 waits for writing and gets an event for reading. *)
Example revents_leak :
  let p := mkProxy 4 [new_ref; mkRef 0 1 1 (Some 10); mkRef 1 0 2 (Some 11); new_ref]
    {[10 := mkObj 1 1 0 None; 11 := mkObj 2 2 0 None]} (∅ : gset (Z * Z)) in
  (let* (p', _) := KqueueRcvEventList p frame0 [(1, EVFILT_READ); (2, EVFILT_WRITE)] in Ok (_revents <$> objs p' !! 11)) =
  Ok (Some 3).
Proof. vm_compute. reflexivity. Qed.

(** A queue in which filters for reading cannot be added. *)
Definition no_read_kevent (k : gset (Z * Z)) (fd flt flags : Z) : gset (Z * Z) * Z :=
  if (flags =? EV_ADD) && (flt =? EVFILT_READ) then (k, -1) else set_kevent k fd flt flags.

Program Definition no_read_Kevent : Kevent (gset (Z * Z)) := {| ff_kevent := no_read_kevent; registered k := k |}.
Next Obligation.
  intros k fd flt. unfold no_read_kevent, set_kevent. cbn. destruct (flt =? EVFILT_READ); [by left|by right].
Qed.
Next Obligation. intros k fd flt. unfold no_read_kevent, set_kevent. cbn. destruct (decide _); [by right|by left]. Qed.

(** When the second of two filters cannot be added the first stays registered,
    although nothing is recorded for the descriptor. *)
Example partial_add_stays :
  let p := mkProxy 4 (replicate 4 new_ref) ∅ ∅ in
  let '(p', ok) := @KqueueCtrlAdd _ no_read_Kevent p 1 3 in
  ok = false /\ _kqrefs p' = _kqrefs p /\ kq p' = {[(1, EVFILT_WRITE)]}.
Proof. vm_compute. done. Qed.
