(* ===== verification/MtSocket.v ===== *)
(** * Socket calls of the user space threads

    The blocking calls [MtFrame] builds from non-blocking ones
    ([src/adapter/micro_thread/micro_thread.cpp]), and the requests with answers
    built from them ([mt_api.cpp]).  Of the arguments that are pointers only
    what they point to is modelled; they are not null.

    The rest of the world is a type [W]: the clock, the socket calls and the
    switch to other threads ([KqueueSchedule], with its time limit) change it and
    answer.  A call answers with a value or with [errno].  The loops end when the
    world lets them, so that they take fuel. *)

From S2P Require Import Prelude.

Module MtSocket.

Definition EINTR : Z := 4.
Definition EAGAIN : Z := 11.
Definition EISCONN : Z := 106.
Definition EINPROGRESS : Z := 115.

Inductive ans (A : Type) :=
| Val (a : A)
| Err (errno : Z).
Arguments Val {A}.
Arguments Err {A}.

Section World.
Context {W : Type}.
Variable GetLastClock : W -> W * Z.
Variable KqueueSchedule : W -> Z -> W * bool.

(** [(int)(now - start) > timeout] *)
Definition timed_out (start now timeout : Z) : bool := timeout <? s32 (u64 (now - start)).

(** ** Calls that give one answer *)

(** [while ((n = call()) < 0)] of [sendto], [connect], [accept] and [read];
    [again] are the errors that mean to wait.  [inl] is the code of an error. *)
Fixpoint call_loop {A} (call : W -> W * ans A) (isconn : bool) (again : Z -> bool) (fuel : nat) (w : W)
    (start timeout : Z) : res (W * (Z + A)) :=
  match fuel with
  | O => NoFuel
  | S fuel' =>
      match call w with
      | (w, Val a) => Ok (w, inr a)
      | (w, Err e) =>
          let '(w, now) := GetLastClock w in
          if timed_out start now timeout then Ok (w, inl (-1))
          else if isconn && (e =? EISCONN) then Ok (w, inl 0)
          else if e =? EINTR then call_loop call isconn again fuel' w start timeout
          else if negb (again e) then Ok (w, inl (-2))
          else
            let '(w, ok) := KqueueSchedule w timeout in
            if ok then call_loop call isconn again fuel' w start timeout else Ok (w, inl (-3))
      end
  end.

(** The loop of [recvfrom] and [recv], which wait before each call. *)
Fixpoint recv_loop {A} (call : W -> W * ans A) (fuel : nat) (w : W) (start timeout : Z) : res (W * (Z + A)) :=
  match fuel with
  | O => NoFuel
  | S fuel' =>
      let '(w, now) := GetLastClock w in
      if timed_out start now timeout then Ok (w, inl (-1))
      else
        let '(w, ok) := KqueueSchedule w timeout in
        if negb ok then Ok (w, inl (-2))
        else
          match call w with
          | (w, Val a) => Ok (w, inr a)
          | (w, Err e) =>
              if e =? EINTR then recv_loop call fuel' w start timeout
              else if negb (e =? EAGAIN) then Ok (w, inl (-3))
              else recv_loop call fuel' w start timeout
          end
  end.

(** The test of the arguments; [buf] says that the pointer is not null. *)
Definition args_ok (fd : Z) (buf : bool) (len : Z) : bool := negb ((fd <? 0) || negb buf || (len <? 1)).

(** A negative time limit means no limit. *)
Definition MtFrame_recv {A} (call : W -> W * ans A) (fuel : nat) (w : W) (fd : Z) (buf : bool) (len timeout : Z)
  : res (W * (Z + A)) :=
  let '(w, start) := GetLastClock w in
  if negb (args_ok fd buf len) then Ok (w, inl (-10))
  else recv_loop call fuel w start (if timeout <=? -1 then 0x7fffffff else timeout).

Definition MtFrame_recvfrom {A} (call : W -> W * ans A) (fuel : nat) (w : W) (fd : Z) (buf : bool) (len timeout : Z)
  : res (W * (Z + A)) :=
  let '(w, start) := GetLastClock w in
  if negb (args_ok fd buf len) then Ok (w, inl (-10))
  else recv_loop call fuel w start (if timeout <=? -1 then 0x7fffffff else timeout).

Definition MtFrame_sendto {A} (call : W -> W * ans A) (fuel : nat) (w : W) (fd : Z) (msg : bool) (len timeout : Z)
  : res (W * (Z + A)) :=
  let '(w, start) := GetLastClock w in
  if negb (args_ok fd msg len) then Ok (w, inl (-10))
  else call_loop call false (fun e => e =? EAGAIN) fuel w start timeout.

Definition MtFrame_read {A} (call : W -> W * ans A) (fuel : nat) (w : W) (fd : Z) (buf : bool) (nbyte timeout : Z)
  : res (W * (Z + A)) :=
  let '(w, start) := GetLastClock w in
  if negb (args_ok fd buf nbyte) then Ok (w, inl (-10))
  else call_loop call false (fun e => e =? EAGAIN) fuel w start timeout.

Definition MtFrame_accept {A} (call : W -> W * ans A) (fuel : nat) (w : W) (fd timeout : Z) : res (W * (Z + A)) :=
  let '(w, start) := GetLastClock w in
  if fd <? 0 then Ok (w, inl (-10)) else call_loop call false (fun e => e =? EAGAIN) fuel w start timeout.

Definition MtFrame_connect (call : W -> W * ans Z) (fuel : nat) (w : W) (fd : Z) (addr : bool) (addrlen timeout : Z)
  : res (W * (Z + Z)) :=
  let '(w, start) := GetLastClock w in
  if negb (args_ok fd addr addrlen) then Ok (w, inl (-10))
  else call_loop call true (fun e => e =? EINPROGRESS) fuel w start timeout.

(** ** [write] and [send] *)

Variable sys_send : W -> list Z -> W * ans Z.

(** What is left to send; the last component collects what was taken. *)
Fixpoint send_loop (fuel : nat) (w : W) (start timeout nbyte : Z) (rest : list Z) : res (W * Z * list Z) :=
  match fuel with
  | O => NoFuel
  | S fuel' =>
      match rest with
      | [] => Ok (w, nbyte, [])
      | _ =>
          let '(w, now) := GetLastClock w in
          if timed_out start now timeout then Ok (w, -1, [])
          else
            let wait w rest wire :=
              let '(w, ok) := KqueueSchedule w timeout in
              if ok then
                let* (w, r, wire2) := send_loop fuel' w start timeout nbyte rest in
                Ok (w, r, wire ++ wire2)
              else Ok (w, -3, wire) in
            match sys_send w rest with
            | (w, Err e) =>
                if e =? EINTR then send_loop fuel' w start timeout nbyte rest
                else if negb (e =? EAGAIN) then Ok (w, -2, [])
                else wait w rest []
            | (w, Val n) =>
                let wire := take (Z.to_nat n) rest in
                let rest := drop (Z.to_nat n) rest in
                match rest with
                | [] => Ok (w, nbyte, wire)
                | _ => wait w rest wire
                end
            end
      end
  end.

Definition MtFrame_send (fuel : nat) (w : W) (fd : Z) (buf : list Z) (timeout : Z) : res (W * Z * list Z) :=
  let '(w, start) := GetLastClock w in
  let nbyte := Z.of_nat (length buf) in
  if negb (args_ok fd true nbyte) then Ok (w, -10, []) else send_loop fuel w start timeout nbyte buf.

Definition MtFrame_write (fuel : nat) (w : W) (fd : Z) (buf : list Z) (timeout : Z) : res (W * Z * list Z) :=
  let '(w, start) := GetLastClock w in
  let nbyte := Z.of_nat (length buf) in
  if negb (args_ok fd true nbyte) then Ok (w, -10, []) else send_loop fuel w start timeout nbyte buf.

(** ** [mt_tcp_check_recv] *)

Variable sys_recv : W -> Z -> W * ans (list Z).
(** [func] says of what has been received: an error, too short, or the length
    of the message. *)
Variable func : list Z -> Z.

(** The result, the length returned through [len] and what has been received. *)
Fixpoint check_loop (fuel : nat) (w : W) (sock start_ms timeout len : Z) (got : list Z) : res (W * Z * Z * list Z) :=
  match fuel with
  | O => NoFuel
  | S fuel' =>
      let '(w, now) := GetLastClock w in
      let cost_time := u64 (now - start_ms) in
      if u64 timeout <? cost_time then Ok (w, -3, len, got)
      else
        let recv_len := Z.of_nat (length got) in
        let room := s32 (len - recv_len) in
        let* (w, r) := MtFrame_recv (fun w => sys_recv w room) fuel' w sock true room (s32 (timeout - s32 cost_time)) in
        match r with
        | inl _ => Ok (w, -3, len, got)
        | inr bs =>
            if Z.of_nat (length bs) =? 0 then Ok (w, -7, recv_len, got)
            else
              let got := got ++ bs in
              let recv_len := Z.of_nat (length got) in
              let rc := func got in
              if rc <? 0 then Ok (w, -5, len, got)
              else if rc =? 0 then
                if len =? recv_len then Ok (w, -6, len, got)
                else check_loop fuel' w sock start_ms timeout len got
              else if recv_len <? rc then check_loop fuel' w sock start_ms timeout len got
              else Ok (w, 0, rc, got)
        end
  end.

Definition mt_tcp_check_recv (fuel : nat) (w : W) (sock len timeout : Z) : res (W * Z * Z * list Z) :=
  let '(w, start_ms) := GetLastClock w in
  check_loop fuel w sock start_ms timeout len [].

(** ** Answers of any length *)

Definition BUF_ALIGNMENT_SIZE : Z := 4096.
Definition BUF_ALIGN_SIZE (x : Z) : Z := Z.land (s32 (x + BUF_ALIGNMENT_SIZE - 1)) (Z.lnot (BUF_ALIGNMENT_SIZE - 1)).
Definition BUF_DEFAULT_SIZE : Z := 4096.

(** [realloc] says whether there is memory. *)
Variable realloc : W -> Z -> W * bool.

(** [ScopedBuf::Alloc] on a buffer of size [len_]: the new size and the result. *)
Definition Alloc (w : W) (len_ len : Z) : W * Z * Z :=
  if len <? len_ then (w, len_, -1)
  else
    let len := if len =? 0 then BUF_ALIGNMENT_SIZE else len in
    if len_ =? len then (w, len_, 0)
    else
      let len_ := BUF_ALIGN_SIZE len in
      let len_ := if len_ =? 0 then BUF_DEFAULT_SIZE else len_ in
      let '(w, ok) := realloc w (u64 len_) in
      if ok then (w, len_, 0) else (w, len_, -2).

(** [check_func] is told whether the peer has closed and whether the length is
    known; it answers like [func], and whether the length is known now. *)
Variable check_func : W -> list Z -> bool -> bool -> W * Z * bool.

(** The loop of the [mt_tcp_check_recv] that allocates the buffer. *)
Fixpoint grow_loop (fuel : nat) (w : W) (sock start_ms timeout len len_ pkg_len : Z) (detected : bool) (got : list Z)
  : res (W * Z * Z * list Z) :=
  match fuel with
  | O => NoFuel
  | S fuel' =>
      let '(w, now) := GetLastClock w in
      let cost_time := u64 (now - start_ms) in
      if u64 timeout <? cost_time then Ok (w, -3, len, got)
      else
        let recv_len := Z.of_nat (length got) in
        let room := s32 (len_ - recv_len) in
        let* (w, r) := MtFrame_recv (fun w => sys_recv w room) fuel' w sock true room (s32 (timeout - s32 cost_time)) in
        match r with
        | inl _ => Ok (w, -3, len, got)
        | inr bs =>
            if Z.of_nat (length bs) =? 0 then
              if recv_len =? 0 then Ok (w, -7, len, got)
              else
                let '(w, rc, _) := check_func w got true detected in
                if negb (rc =? recv_len) then Ok (w, -7, len, got) else Ok (w, 0, recv_len, got)
            else
              let got := got ++ bs in
              let recv_len := Z.of_nat (length got) in
              let '(w, rc, detected, pkg_len) :=
                if negb detected || (recv_len =? pkg_len) then
                  let '(w, rc, detected) := check_func w got false detected in
                  (w, rc, detected, if detected then rc else pkg_len)
                else (w, pkg_len, detected, pkg_len) in
              let again w len_ := grow_loop fuel' w sock start_ms timeout len len_ pkg_len detected got in
              let alloc w size :=
                let '(w, len_, ret) := Alloc w len_ size in
                if negb (ret =? 0) then Ok (w, -11, len, got) else again w len_ in
              if rc <? 0 then Ok (w, -5, len, got)
              else if rc =? 0 then
                if recv_len <? len_ then again w len_ else alloc w (s32 (Z.shiftl len_ 1))
              else if recv_len <? rc then
                if recv_len <? len_ then again w len_ else alloc w rc
              else if rc =? recv_len then Ok (w, 0, rc, got)
              else Ok (w, -5, len, got)
        end
  end.

Definition mt_tcp_check_recv_alloc (fuel : nat) (w : W) (sock len timeout : Z) : res (W * Z * Z * list Z) :=
  let '(w, start_ms) := GetLastClock w in
  let '(w, len_, ret) := Alloc w 0 len in
  if negb (ret =? 0) then Ok (w, -11, len, [])
  else grow_loop fuel w sock start_ms timeout len len_ 0 false [].
End World.

(** ** Requests with answers *)

(** [time_left] *)
Definition time_left (timeout cost_time : Z) : Z :=
  if s32 cost_time <? timeout then s32 (timeout - s32 cost_time) else 0.

Definition O_NONBLOCK : Z := 2048.
Definition O_NDELAY : Z := 2048.

Section Requests.
Context {W : Type}.
Variable GetLastClock : W -> W * Z.
Variable KqueueSchedule : W -> Z -> W * bool.
(** The calls of the network, by descriptor. *)
Variable sys_connect : Z -> W -> W * ans Z.
Variable sys_send : Z -> W -> list Z -> W * ans Z.
Variable sys_recv : Z -> W -> Z -> W * ans (list Z).
Variable sys_socket : W -> W * Z.
Variable sys_close : W -> Z -> W.

(** The part all requests share: connect, send the package and receive the
    answer, if one is expected.  [get_sock] gives a socket (a negative number:
    none), and [free_sock] takes it back, to be closed if the request failed.
    The result, the bytes sent, the length of the answer ([size] to begin with)
    and what has been received. *)
Definition tcp_request (get_sock : W -> W * Z) (free_sock : W -> Z -> bool -> W)
    (receive : option (nat -> W -> Z -> Z -> res (W * Z * Z * list Z))) (fuel : nat) (w : W) (pkg : list Z) (size timeout : Z)
  : res (W * Z * list Z * Z * list Z) :=
  if Z.of_nat (length pkg) <? 1 then Ok (w, -10, [], size, [])
  else
    let '(w, start_ms) := GetLastClock w in
    let '(w, sock) := get_sock w in
    if sock <? 0 then Ok (w, -1, [], size, [])
    else
      let* (w, rc) := MtFrame_connect GetLastClock KqueueSchedule (sys_connect sock) fuel w sock true 16 timeout in
      if (match rc with inl c => c | inr n => n end) <? 0 then Ok (free_sock w sock true, -4, [], size, [])
      else
        let '(w, now) := GetLastClock w in
        let* (w, rc, wire) := MtFrame_send GetLastClock KqueueSchedule (sys_send sock) fuel w sock pkg
          (time_left timeout (u64 (now - start_ms))) in
        if rc <? 0 then Ok (free_sock w sock true, -2, wire, size, [])
        else
          match receive with
          | None => Ok (free_sock w sock false, 0, wire, size, [])
          | Some receive =>
              let '(w, now) := GetLastClock w in
              let* (w, rc, len, got) := receive fuel w sock (time_left timeout (u64 (now - start_ms))) in
              if rc <? 0 then Ok (free_sock w sock true, rc, wire, len, got)
              else Ok (free_sock w sock false, 0, wire, len, got)
          end.

(** [fcntl(fd, F_GETFL)] and [fcntl(fd, F_SETFL, flags)] *)
Variable sys_getfl : W -> Z -> W * Z.
Variable sys_setfl : W -> Z -> Z -> W * Z.

Definition mt_tcp_create_sock (w : W) : W * Z :=
  let '(w, fd) := sys_socket w in
  if fd <? 0 then (w, -1)
  else
    let '(w, flag) := sys_getfl w fd in
    if flag =? -1 then (sys_close w fd, -2)
    else if negb (Z.land flag O_NONBLOCK =? 0) then (w, fd)
    else
      let '(w, r) := sys_setfl w fd (Z.lor (Z.lor flag O_NONBLOCK) O_NDELAY) in
      if r =? -1 then (sys_close w fd, -3) else (w, fd).

(** The connections that are kept ([mt_connection.cpp]). *)
Variable mt_tcp_get_keep_conn : W -> W * Z.
Variable FreeConnection : W -> Z -> bool -> W.
Variable func : list Z -> Z.
Variable realloc : W -> Z -> W * bool.
Variable check_func : W -> list Z -> bool -> bool -> W * Z * bool.

Definition close_sock (w : W) (sock : Z) (_ : bool) : W := sys_close w sock.

(** The two ways to receive an answer. *)
Definition receive_buf (size : Z) (fuel : nat) (w : W) (sock timeout : Z) : res (W * Z * Z * list Z) :=
  mt_tcp_check_recv GetLastClock KqueueSchedule (sys_recv sock) func fuel w sock size timeout.
Definition receive_alloc (size : Z) (fuel : nat) (w : W) (sock timeout : Z) : res (W * Z * Z * list Z) :=
  mt_tcp_check_recv_alloc GetLastClock KqueueSchedule (sys_recv sock) realloc check_func fuel w sock size timeout.

Definition mt_tcpsendrcv (fuel : nat) (w : W) (pkg : list Z) (buf_size timeout : Z) : res (W * Z * list Z * Z * list Z) :=
  if buf_size <? 1 then Ok (w, -10, [], buf_size, [])
  else tcp_request mt_tcp_get_keep_conn FreeConnection (Some (receive_buf buf_size)) fuel w pkg buf_size timeout.

Definition mt_tcpsendrcv_short (fuel : nat) (w : W) (pkg : list Z) (buf_size timeout : Z) : res (W * Z * list Z * Z * list Z) :=
  if buf_size <? 1 then Ok (w, -10, [], buf_size, [])
  else tcp_request mt_tcp_create_sock close_sock (Some (receive_buf buf_size)) fuel w pkg buf_size timeout.

Definition mt_tcpsend (fuel : nat) (w : W) (pkg : list Z) (timeout : Z) : res (W * Z * list Z) :=
  let* (w, r, wire, _, _) := tcp_request mt_tcp_get_keep_conn FreeConnection None fuel w pkg 0 timeout in
  Ok (w, r, wire).

Definition mt_tcpsend_short (fuel : nat) (w : W) (pkg : list Z) (timeout : Z) : res (W * Z * list Z) :=
  let* (w, r, wire, _, _) := tcp_request mt_tcp_create_sock close_sock None fuel w pkg 0 timeout in
  Ok (w, r, wire).

(** The variants that allocate the buffer of the answer. *)
Definition mt_tcpsendrcv_alloc (fuel : nat) (w : W) (pkg : list Z) (size timeout : Z) : res (W * Z * list Z * Z * list Z) :=
  tcp_request mt_tcp_get_keep_conn FreeConnection (Some (receive_alloc size)) fuel w pkg size timeout.

Definition mt_tcpsendrcv_short_alloc (fuel : nat) (w : W) (pkg : list Z) (size timeout : Z) : res (W * Z * list Z * Z * list Z) :=
  tcp_request mt_tcp_create_sock close_sock (Some (receive_alloc size)) fuel w pkg size timeout.

Inductive MT_TCP_CONN_TYPE :=
| MT_TCP_SHORT
| MT_TCP_LONG
| MT_TCP_SHORT_SNDONLY
| MT_TCP_LONG_SNDONLY
| MT_TCP_BUTT.

Definition mt_tcpsendrcv_ex (type : MT_TCP_CONN_TYPE) (fuel : nat) (w : W) (pkg : list Z) (buf_size timeout : Z)
  : res (W * Z * list Z * Z * list Z) :=
  if Z.of_nat (length pkg) <? 1 then Ok (w, -10, [], buf_size, [])
  else
    match type with
    | MT_TCP_LONG => mt_tcpsendrcv fuel w pkg buf_size timeout
    | MT_TCP_LONG_SNDONLY => let* (w, r, wire) := mt_tcpsend fuel w pkg timeout in Ok (w, r, wire, buf_size, [])
    | MT_TCP_SHORT => mt_tcpsendrcv_short fuel w pkg buf_size timeout
    | MT_TCP_SHORT_SNDONLY => let* (w, r, wire) := mt_tcpsend_short fuel w pkg timeout in Ok (w, r, wire, buf_size, [])
    | MT_TCP_BUTT => Ok (w, -10, [], buf_size, [])
    end.

Definition mt_tcpsendrcv_ex_alloc (type : MT_TCP_CONN_TYPE) (fuel : nat) (w : W) (pkg : list Z) (size timeout : Z)
  : res (W * Z * list Z * Z * list Z) :=
  if Z.of_nat (length pkg) <? 1 then Ok (w, -10, [], size, [])
  else
    match type with
    | MT_TCP_LONG => mt_tcpsendrcv_alloc fuel w pkg size timeout
    | MT_TCP_LONG_SNDONLY => let* (w, r, wire) := mt_tcpsend fuel w pkg timeout in Ok (w, r, wire, size, [])
    | MT_TCP_SHORT => mt_tcpsendrcv_short_alloc fuel w pkg size timeout
    | MT_TCP_SHORT_SNDONLY => let* (w, r, wire) := mt_tcpsend_short fuel w pkg timeout in Ok (w, r, wire, size, [])
    | MT_TCP_BUTT => Ok (w, -10, [], size, [])
    end.

(** ** [mt_udpsendrcv] *)

Variable sys_ioctl : W -> Z -> W * Z.
Variable sys_sendto : Z -> W -> list Z -> W * ans Z.
Variable sys_recvfrom : Z -> W -> Z -> W * ans (list Z).

(** The result, the length returned through [buf_size] and the answer. *)
Definition mt_udpsendrcv (fuel : nat) (w : W) (pkg : list Z) (buf_size timeout : Z) : res (W * Z * Z * list Z) :=
  let finish w sock ret size got := Ok (if 0 <? sock then sys_close w sock else w, ret, size, got) in
  if (Z.of_nat (length pkg) <? 1) || (buf_size <? 1) then Ok (w, -10, buf_size, [])
  else
    let '(w, sock) := sys_socket w in
    let '(w, bad) := if sock <? 0 then (w, true) else let '(w, r) := sys_ioctl w sock in (w, r <? 0) in
    if bad : bool then finish w sock (-1) buf_size []
    else
      let* (w, rc) := MtFrame_sendto GetLastClock KqueueSchedule (fun w => sys_sendto sock w pkg) fuel w sock true
        (Z.of_nat (length pkg)) timeout in
      if (match rc with inl c => c | inr n => n end) <? 0 then finish w sock (-2) buf_size []
      else
        let* (w, rc) := MtFrame_recvfrom GetLastClock KqueueSchedule (fun w => sys_recvfrom sock w buf_size) fuel w sock true
          buf_size timeout in
        match rc with
        | inl _ => finish w sock (-3) buf_size []
        | inr bs => finish w sock 0 (Z.of_nat (length bs)) bs
        end.
End Requests.

End MtSocket.
