(* ===== verification/MtSocketProofs.v ===== *)
(** * Socket calls of the user space threads: proofs

    The loops end because time passes.  [clk] is the clock of the world and
    [budget] bounds the socket calls that can be made while it stands still; no
    step of the loop takes longer than [D] milliseconds.  From this follow a
    result for every call, with enough fuel, and the limit on the time it takes.
    [mt_send_complete] is on what [send] leaves on the wire, and
    [tcp_request_correct] on the message [mt_tcp_check_recv] returns. *)

From S2P Require Import Prelude MtSocket.
Import MtSocket.

(** With enough fuel, [f] gives [a]. *)
Definition returns {A} (f : nat -> res A) (a : A) : Prop :=
  exists n, forall fuel, (n <= fuel)%nat -> f fuel = Ok a.

Lemma returns_S {A} (f g : nat -> res A) a : (forall fuel, f (S fuel) = g fuel) -> returns g a -> returns f a.
Proof.
  intros Hfg [n Hn]. exists (S n). intros [|fuel] Hf; [lia|]. rewrite Hfg. apply Hn. lia.
Qed.

Lemma returns_Ok {A} (a : A) : returns (fun _ => Ok a) a.
Proof. by exists 0%nat. Qed.

Lemma returns_bind {A B} (f : nat -> res A) (k : nat -> A -> res B) a b :
  returns f a -> returns (fun fuel => k fuel a) b -> returns (fun fuel => res_bind (f fuel) (k fuel)) b.
Proof.
  intros [n Hn] [m Hm]. exists (n + m)%nat. intros fuel Hf. rewrite Hn by lia. cbn [res_bind]. apply Hm. lia.
Qed.

Section Proofs.
Context {W : Type} (GetLastClock : W -> W * Z) (KqueueSchedule : W -> Z -> W * bool).
Context (sys_recv : W -> Z -> W * ans (list Z)).
Context (clk : W -> Z) (budget : W -> nat) (D : Z).

Definition later (w w' : W) : Prop :=
  clk w <= clk w' <= clk w + D /\ (clk w < clk w' \/ (budget w' <= budget w)%nat).
Definition tick (w w' : W) : Prop :=
  clk w <= clk w' <= clk w + D /\ (clk w < clk w' \/ (budget w' < budget w)%nat).

Definition progress (w w' : W) : Prop := clk w < clk w' \/ (budget w' < budget w)%nat.

(** Reading the clock gives its time; waiting takes no time back. *)
Record clock_ok : Prop := {
  k_pos : 0 <= D;
  k_clock w : snd (GetLastClock w) = clk (fst (GetLastClock w)) /\ later w (fst (GetLastClock w));
  k_wait w t : later w (fst (KqueueSchedule w t))
}.

(** [recv] gives no more than is asked for. *)
Definition recv_ok : Prop := forall w m,
  tick w (fst (sys_recv w m)) /\ forall bs, snd (sys_recv w m) = Val bs -> Z.of_nat (length bs) <= Z.max 0 m.

(** Why a call can fail: the time is up, a wait failed, or the network answered
    with one of the errors [E]. *)
Definition failed (deadline : Z) (E : Z -> Prop) (w : W) : Prop :=
  deadline < clk w \/ (exists w0 t, snd (KqueueSchedule w0 t) = false) \/ exists e, E e.

Definition recv_errs (e : Z) : Prop := e <> EINTR /\ e <> EAGAIN /\ exists w m, snd (sys_recv w m) = Err e.

Lemma timed_out_spec start now timeout :
  0 <= now - start < 2 ^ 31 -> timed_out start now timeout = (timeout <? now - start).
Proof. intros Hr. unfold timed_out. rewrite wrapu_small, wraps_small by lia. done. Qed.

(** Induction on the rounds of a loop that ends after the time [limit]. *)
Lemma round_ind (limit : Z) (P : W -> Prop) :
  (forall w, (forall w', clk w <= limit -> clk w <= clk w' ->
     (clk w < clk w' \/ (budget w' < budget w)%nat) -> P w') -> P w) -> forall w, P w.
Proof.
  intros Hstep w. remember (Z.to_nat (limit + 1 - clk w)) as n eqn:Hn. revert w Hn.
  induction (lt_wf n) as [n _ IHn]. intros w. remember (budget w) as b eqn:Hb. revert w Hb.
  induction (lt_wf b) as [b _ IHb]. intros w -> ->. apply Hstep. intros w' Hlim Hle [Hlt|Hlt].
  - eapply IHn; [|done]. lia.
  - destruct (decide (clk w = clk w')) as [E|E]; [|eapply IHn; [|done]; lia].
    eapply IHb; [apply Hlt|done|]. by rewrite E.
Qed.

Context (Hclk : clock_ok).

Lemma clock_step w : exists w', GetLastClock w = (w', clk w') /\ later w w'.
Proof. pose proof (k_clock Hclk w) as Hc. destruct (GetLastClock w) as [w' now]. cbn in Hc. destruct Hc as [-> ?]. by exists w'. Qed.

Lemma wait_step w t : exists w' ok, KqueueSchedule w t = (w', ok) /\ later w w'.
Proof. pose proof (k_wait Hclk w t) as Hc. destruct (KqueueSchedule w t) as [w' ok]. by exists w', ok. Qed.

Lemma failed_wait deadline E w w0 w1 t : KqueueSchedule w0 t = (w1, false) -> failed deadline E w.
Proof. intros Hk. right; left. exists w0, t. by rewrite Hk. Qed.

Lemma failed_mono d d' (E E' : Z -> Prop) w : d' <= d -> (forall e, E e -> E' e) -> failed d E w -> failed d' E' w.
Proof. intros Hd HE [Hl|[Hk|[e He]]]; [left; lia|by right; left|]. do 2 right. exists e. auto. Qed.

Lemma time_left_spec timeout start now : 0 <= timeout < 2 ^ 31 -> 0 <= now - start < 2 ^ 31 ->
  time_left timeout (u64 (now - start)) = Z.max 0 (timeout - (now - start)).
Proof.
  intros Ht Hn. unfold time_left. rewrite (wrapu_small 64), (wraps_small 32 (now - start)) by lia.
  destruct (Z.ltb_spec (now - start) timeout); [rewrite wraps_small by lia|]; lia.
Qed.

(** ** Sending *)

Section Sending.
Context (sys_send : W -> list Z -> W * ans Z).

Definition send_ok : Prop := forall w bs, tick w (fst (sys_send w bs)).
Definition send_errs (e : Z) : Prop := e <> EINTR /\ e <> EAGAIN /\ exists w bs, snd (sys_send w bs) = Err e.

Local Abbreviation sends := (send_loop GetLastClock KqueueSchedule sys_send).

(** What a loop that started with [rest] to send ends with. *)
Definition sent (w : W) (deadline nbyte : Z) (rest : list Z) (o : W * Z * list Z) : Prop :=
  let '(w', r, wire) := o in
  clk w <= clk w' <= deadline + 3 * D /\ exists rest', rest = wire ++ rest' /\
    (r = nbyte /\ rest' = [] \/ (r = -1 \/ r = -2 \/ r = -3) /\ rest' <> [] /\ failed deadline send_errs w').

(** The loop as a wait for [rest] sees it. *)
Definition sends_from (start timeout nbyte : Z) (w : W) : Prop := forall rest,
  start <= clk w <= start + timeout + 2 * D ->
  exists o, returns (fun fuel => sends fuel w start timeout nbyte rest) o /\ sent w (start + timeout) nbyte rest o.

Lemma send_wait start timeout nbyte w wire rest :
  start <= clk w <= start + timeout + D -> rest <> [] ->
  (forall w', later w w' -> sends_from start timeout nbyte w') ->
  exists o, returns (fun fuel => let '(w, ok) := KqueueSchedule w timeout in
      if ok then
        let* (w, r, wire2) := sends fuel w start timeout nbyte rest in Ok (w, r, wire ++ wire2)
      else Ok (w, -3, wire)) o /\ sent w (start + timeout) nbyte (wire ++ rest) o.
Proof.
  pose proof (k_pos Hclk) as HD. intros Hw Hne IH. destruct (wait_step w timeout) as (w3 & [] & E3 & H3).
  2: { exists (w3, -3, wire). rewrite E3. split; [apply returns_Ok|]. destruct H3. split; [lia|]. exists rest.
    split; [done|]. right. split_and!; [auto|done|by eapply failed_wait]. }
  rewrite E3.
  destruct (IH w3 H3 rest ltac:(destruct H3; lia)) as ([[w' r] wire'] & Hret & Hc & rest' & Hr & Hres).
  exists (w', r, wire ++ wire'). split; [eapply returns_bind; [done|apply returns_Ok]|]. destruct H3. split; [lia|].
  exists rest'. split; [by rewrite Hr, app_assoc|done].
Qed.

Lemma sent_later w w' deadline nbyte rest o : clk w <= clk w' -> sent w' deadline nbyte rest o -> sent w deadline nbyte rest o.
Proof. destruct o as [[w2 r] wire]. intros Hle [Hc ?]. split; [lia|done]. Qed.

(** The rest of a round, after the answer [a] of [send]. *)
Definition send_round (start timeout nbyte : Z) (all : list Z) (w : W) (a : ans Z) (fuel : nat) : res (W * Z * list Z) :=
  let wait w rest wire :=
    let '(w, ok) := KqueueSchedule w timeout in
    if ok then let* (w, r, wire2) := sends fuel w start timeout nbyte rest in Ok (w, r, wire ++ wire2)
    else Ok (w, -3, wire) in
  match a with
  | Err e =>
      if e =? EINTR then sends fuel w start timeout nbyte all
      else if negb (e =? EAGAIN) then Ok (w, -2, [])
      else wait w all []
  | Val n =>
      match drop (Z.to_nat n) all with
      | [] => Ok (w, nbyte, take (Z.to_nat n) all)
      | _ => wait w (drop (Z.to_nat n) all) (take (Z.to_nat n) all)
      end
  end.

Lemma send_round_spec start timeout nbyte all w a :
  start <= clk w <= start + timeout + D -> all <> [] -> (exists w0, snd (sys_send w0 all) = a) ->
  (forall w', later w w' -> sends_from start timeout nbyte w') ->
  exists o, returns (send_round start timeout nbyte all w a) o /\ sent w (start + timeout) nbyte all o.
Proof.
  pose proof (k_pos Hclk) as HD. intros Hw Hne [w0 Ha] IH. unfold send_round. destruct a as [n|e].
  - destruct (drop (Z.to_nat n) all) as [|c rest] eqn:Ed.
    + eexists. split; [apply returns_Ok|]. split; [lia|]. exists []. rewrite <-Ed, take_drop. auto.
    + destruct (send_wait start timeout nbyte w (take (Z.to_nat n) all) (c :: rest)) as (o & Hret & Ho); [lia|done|done|].
      exists o. split; [done|]. by rewrite <-Ed, take_drop in Ho.
  - destruct (Z.eqb_spec e EINTR) as [->|Hi]; [apply (IH w); [split; [lia|by right]|lia]|].
    destruct (Z.eqb_spec e EAGAIN) as [->|Hg]; cbn [negb]; [by apply (send_wait _ _ _ _ [])|].
    eexists. split; [apply returns_Ok|]. split; [lia|]. exists all. split; [done|]. right. split_and!; [auto|done|].
    do 2 right. exists e. split_and!; [done..|]. by exists w0, all.
Qed.

Lemma send_loop_spec start timeout nbyte : send_ok -> timeout + 3 * D < 2 ^ 31 ->
  forall w, sends_from start timeout nbyte w.
Proof.
  intros Hsend Hmax. pose proof (k_pos Hclk) as HD. refine (round_ind (start + timeout) _ _). intros w IH rest Hw.
  destruct rest as [|b rest].
  { exists (w, nbyte, []). split; [eapply returns_S; [done|apply returns_Ok]|]. split; [lia|]. exists []. auto. }
  remember (b :: rest) as all eqn:Hall. destruct (clock_step w) as (w1 & E1 & H1 & H1').
  destruct (Z.ltb_spec timeout (clk w1 - start)) as [Hto|Hto].
  { exists (w1, -1, []). split; [|split; [lia|]; exists all; split; [done|]; right; split_and!; [auto|by subst|left; lia]].
    eapply returns_S; [|apply returns_Ok]. intros fuel. subst all. cbn [send_loop].
    rewrite E1, timed_out_spec by lia. by apply Z.ltb_lt in Hto as ->. }
  destruct (Hsend w1 all) as [H2 H2']. destruct (sys_send w1 all) as [w2 a] eqn:E2. cbn [fst snd] in *.
  destruct (send_round_spec start timeout nbyte all w2 a) as (o & Hret & Ho); [lia|by subst|exists w1; by rewrite E2| |].
  { intros w' []. apply IH; lia. }
  exists o. split; [|eapply sent_later; [|done]; lia]. eapply returns_S; [|done].
  intros fuel. unfold send_round. subst all. cbn [send_loop].
  rewrite E1, timed_out_spec by lia. apply Z.ltb_ge in Hto as ->. rewrite E2. by destruct a.
Qed.

Lemma MtFrame_send_spec sock buf timeout w : send_ok -> 0 <= sock -> 0 <= timeout -> timeout + 3 * D < 2 ^ 31 -> buf <> [] ->
  exists w' r wire rest,
    returns (fun fuel => MtFrame_send GetLastClock KqueueSchedule sys_send fuel w sock buf timeout) (w', r, wire) /\
    clk w <= clk w' <= clk w + timeout + 4 * D /\ buf = wire ++ rest /\
    (r = Z.of_nat (length buf) /\ rest = [] \/
     (r = -1 \/ r = -2 \/ r = -3) /\ rest <> [] /\ failed (clk w + timeout) send_errs w').
Proof.
  intros Hsend Hs Ht Hmax Hne. pose proof (k_pos Hclk) as HD. unfold MtFrame_send, args_ok.
  destruct (clock_step w) as (w1 & -> & H1 & _).
  rewrite (proj2 (Z.ltb_ge sock 0)), (proj2 (Z.ltb_ge _ 1)) by (destruct buf; [done|cbn [length]; lia]). cbn [orb negb].
  destruct (send_loop_spec (clk w1) timeout (Z.of_nat (length buf)) Hsend Hmax w1 buf ltac:(lia))
    as ([[w' r] wire] & Hret & Hc & rest & Hb & Hr).
  exists w', r, wire, rest. split; [done|]. split; [lia|]. split; [done|]. destruct Hr as [?|(? & ? & Hf)]; [by left|right].
  split_and!; [done..|]. eapply failed_mono; [| |done]; auto; lia.
Qed.
End Sending.

(** ** Receiving *)

Section Recv.
Context {A : Type} (call : W -> W * ans A).

Lemma recv_loop_spec start timeout : (forall w, tick w (fst (call w))) -> timeout + 3 * D < 2 ^ 31 ->
  forall w, start <= clk w <= start + timeout + 2 * D ->
  exists w' r, returns (fun fuel => recv_loop GetLastClock KqueueSchedule call fuel w start timeout) (w', r) /\
    clk w <= clk w' <= start + timeout + 3 * D /\
    match r with
    | inl c => (c = -1 \/ c = -2 \/ c = -3) /\
        failed (start + timeout) (fun e => e <> EINTR /\ e <> EAGAIN /\ exists w0, snd (call w0) = Err e) w'
    | inr a => progress w w' /\ exists w0, snd (call w0) = Val a
    end.
Proof.
  intros Hcall Hmax. pose proof (k_pos Hclk) as HD. refine (round_ind (start + timeout) _ _). intros w IH Hw.
  destruct (clock_step w) as (w1 & E1 & H1 & H1').
  destruct (Z.ltb_spec timeout (clk w1 - start)) as [Hto|Hto].
  { exists w1, (inl (-1)). split; [|split; [lia|split; [auto|left; lia]]]. eapply returns_S; [|apply returns_Ok]. intros fuel. cbn [recv_loop].
    rewrite E1, timed_out_spec by lia. by apply Z.ltb_lt in Hto as ->. }
  apply Z.ltb_ge in Hto as Htb. destruct (wait_step w1 timeout) as (w2 & ok & E2 & H2 & H2'). destruct ok.
  2: { exists w2, (inl (-2)). split; [|split; [lia|split; [auto|by eapply failed_wait]]]. eapply returns_S; [|apply returns_Ok]. intros fuel. cbn [recv_loop].
    by rewrite E1, timed_out_spec, Htb, E2 by lia. }
  destruct (Hcall w2) as [H3 H3']. destruct (call w2) as [w3 [a|e]] eqn:E3; cbn [fst] in *.
  - exists w3, (inr a). split; [|split; [lia|split; [unfold progress; lia|exists w2; by rewrite E3]]]. eapply returns_S; [|apply returns_Ok].
    intros fuel. cbn [recv_loop]. rewrite E1, timed_out_spec, Htb, E2 by lia. cbn [negb]. by rewrite E3.
  - destruct (decide (e = EINTR \/ e = EAGAIN)) as [He|He].
    + destruct (IH w3 ltac:(lia) ltac:(lia) ltac:(lia) ltac:(lia)) as (w' & r & Hret & Hc & Hr).
      exists w', r. split; [|split; [lia|destruct r; [done|]; destruct Hr as [Hp ?]; split; [unfold progress in *; lia|done]]].
      eapply returns_S; [|done]. intros fuel. cbn [recv_loop].
      rewrite E1, timed_out_spec, Htb, E2 by lia. cbn [negb]. rewrite E3. by destruct He; subst e.
    + exists w3, (inl (-3)). split; [|split; [lia|split; [auto|]]; do 2 right; exists e; split_and!; [tauto..|exists w2; by rewrite E3]].
      eapply returns_S; [|apply returns_Ok]. intros fuel. cbn [recv_loop].
      rewrite E1, timed_out_spec, Htb, E2 by lia. cbn [negb]. rewrite E3.
      rewrite (proj2 (Z.eqb_neq e EINTR)), (proj2 (Z.eqb_neq e EAGAIN)) by tauto. done.
Qed.

(** [connect], [sendto], [accept] and [read]. *)
Lemma call_loop_spec isconn again start timeout : (forall w, tick w (fst (call w))) -> timeout + 3 * D < 2 ^ 31 ->
  forall w, start <= clk w <= start + timeout + D ->
  exists w' r, returns (fun fuel => call_loop GetLastClock KqueueSchedule call isconn again fuel w start timeout) (w', r) /\
    clk w <= clk w' <= start + timeout + 3 * D /\
    match r with
    | inl c => (c = -1 \/ c = -2 \/ c = -3) /\
        failed (start + timeout) (fun e => e <> EINTR /\ again e = false /\ exists w0, snd (call w0) = Err e) w' \/
        isconn = true /\ c = 0 /\ exists w0, snd (call w0) = Err EISCONN
    | inr a => exists w0, snd (call w0) = Val a
    end.
Proof.
  intros Hcall Hmax. pose proof (k_pos Hclk) as HD. refine (round_ind (start + timeout) _ _). intros w IH Hw.
  destruct (Hcall w) as [H1 H1']. destruct (call w) as [w1 [a|e]] eqn:E1; cbn [fst] in *.
  { exists w1, (inr a). split; [|split; [lia|exists w; by rewrite E1]]. eapply returns_S; [|apply returns_Ok].
    intros fuel. cbn [call_loop]. by rewrite E1. }
  destruct (clock_step w1) as (w2 & E2 & H2 & H2').
  destruct (Z.ltb_spec timeout (clk w2 - start)) as [Hto|Hto].
  { exists w2, (inl (-1)). split; [|split; [lia|left; split; [auto|left; lia]]]. eapply returns_S; [|apply returns_Ok]. intros fuel. cbn [call_loop].
    rewrite E1, E2, timed_out_spec by lia. by apply Z.ltb_lt in Hto as ->. }
  assert (forall f, (forall fuel, call_loop GetLastClock KqueueSchedule call isconn again (S fuel) w start timeout = f fuel) <->
    (forall fuel, (if isconn && (e =? EISCONN) then Ok (w2, inl 0)
       else if e =? EINTR then call_loop GetLastClock KqueueSchedule call isconn again fuel w2 start timeout
       else if negb (again e) then Ok (w2, inl (-2))
       else let '(w, ok) := KqueueSchedule w2 timeout in
         if ok then call_loop GetLastClock KqueueSchedule call isconn again fuel w start timeout
         else Ok (w, inl (-3))) = f fuel)) as Hstep.
  { intros f. apply Z.ltb_ge in Hto. cbn [call_loop]. by rewrite E1, E2, timed_out_spec, Hto by lia. }
  destruct (isconn && (e =? EISCONN)) eqn:Ec.
  { exists w2, (inl 0). apply andb_prop in Ec as [-> ->%Z.eqb_eq].
    split; [eapply returns_S; [by apply Hstep|apply returns_Ok]|]. split; [lia|]. right. split_and!; [done|done|].
    exists w. by rewrite E1. }
  destruct (Z.eqb_spec e EINTR) as [Hi|Hi].
  { destruct (IH w2 ltac:(lia) ltac:(lia) ltac:(lia) ltac:(lia)) as (w' & r & Hret & Hc & Hr).
    exists w', r. split; [eapply returns_S; [by apply Hstep|done]|]. split; [lia|done]. }
  destruct (again e) eqn:Ea; cbn [negb] in Hstep.
  2: { exists w2, (inl (-2)). split; [eapply returns_S; [by apply Hstep|apply returns_Ok]|]. split; [lia|]. left. split; [auto|].
    do 2 right. exists e. split_and!; [done..|]. exists w. by rewrite E1. }
  destruct (wait_step w2 timeout) as (w3 & [] & E3 & H3 & H3'); rewrite E3 in Hstep.
  - destruct (IH w3 ltac:(lia) ltac:(lia) ltac:(lia) ltac:(lia)) as (w' & r & Hret & Hc & Hr).
    exists w', r. split; [eapply returns_S; [by apply Hstep|done]|]. split; [lia|done].
  - exists w3, (inl (-3)). split; [eapply returns_S; [by apply Hstep|apply returns_Ok]|]. split; [lia|].
    left. split; [auto|by eapply failed_wait].
Qed.
End Recv.

(** ** Messages *)

Section Framing.
Context (func : list Z -> Z).

(** More bytes are needed, and there is room for them or the message is longer. *)
Definition incomplete (len : Z) (bs : list Z) : Prop :=
  func bs = 0 /\ Z.of_nat (length bs) <> len \/ Z.of_nat (length bs) < func bs.

(** [got] came in parts, each an answer of [recv] that was told the room left in
    the buffer, and none but the last could complete the message. *)
Inductive arrived (len : Z) : list Z -> Prop :=
| arrived_nil : arrived len []
| arrived_app got bs w : arrived len got -> (got = [] \/ incomplete len got) ->
    snd (sys_recv w (len - Z.of_nat (length got))) = Val bs -> bs <> [] -> arrived len (got ++ bs).

(** The result [r] of [mt_tcp_check_recv], the length [n] it returns and what
    has been received at the end [w]. *)
Definition framed (deadline len : Z) (w : W) (r n : Z) (got : list Z) : Prop :=
  arrived len got /\ Z.of_nat (length got) <= len /\
  (r = 0 /\ func got = n /\ 0 < n <= Z.of_nat (length got) \/
   r = -3 /\ n = len /\ (got = [] \/ incomplete len got) /\ (failed deadline recv_errs w \/ Z.of_nat (length got) = len) \/
   r = -5 /\ n = len /\ func got < 0 \/
   r = -6 /\ n = len /\ func got = 0 /\ Z.of_nat (length got) = len \/
   r = -7 /\ n = Z.of_nat (length got) /\ (got = [] \/ incomplete len got) /\ exists w m, snd (sys_recv w m) = Val []).

Lemma MtFrame_recv_spec sock room timeout w : recv_ok -> 0 <= sock -> 0 <= timeout -> timeout + 3 * D < 2 ^ 31 ->
  exists w' r, returns (fun fuel => MtFrame_recv GetLastClock KqueueSchedule (fun w => sys_recv w room) fuel w
      sock true room timeout) (w', r) /\
    clk w <= clk w' <= clk w + timeout + 4 * D /\
    match r with
    | inl c => failed (clk w + timeout) recv_errs w' \/ room < 1
    | inr bs => Z.of_nat (length bs) <= room /\ progress w w' /\ exists w0, snd (sys_recv w0 room) = Val bs
    end.
Proof.
  intros Hrecv Hs Ht Hmax. pose proof (k_pos Hclk) as HD. destruct (clock_step w) as (w1 & E1 & H1 & H1').
  unfold MtFrame_recv, args_ok. rewrite E1, (proj2 (Z.ltb_ge sock 0)) by lia. cbn [orb negb].
  destruct (Z.ltb_spec room 1) as [Hr|Hr]; cbn [negb].
  { exists w1, (inl (-10)). split; [apply returns_Ok|]. split; [lia|by right]. }
  rewrite (proj2 (Z.leb_gt timeout (-1))) by lia.
  destruct (recv_loop_spec (fun w => sys_recv w room) (clk w1) timeout) with (w := w1) as (w' & r & Hret & Hc & Hres);
    [intros w0; apply Hrecv|lia|lia|].
  exists w', r. split; [done|]. split; [lia|]. destruct r as [c|bs].
  { left. destruct Hres as [_ Hf]. eapply failed_mono; [| |done]; [lia|]. intros e (? & ? & w0 & ?). split_and!; eauto. }
  destruct Hres as [Hp [w0 Hw0]].
  split; [|split; [unfold progress in *; lia|by exists w0]]. destruct (Hrecv w0 room) as [_ Hlen]. specialize (Hlen bs Hw0). lia.
Qed.

Local Abbreviation checks := (check_loop GetLastClock KqueueSchedule sys_recv func).

(** The rest of a round, after the answer of [recv]. *)
Definition check_round (sock start timeout len : Z) (got : list Z) (fuel : nat) (a : W * (Z + list Z)) : res (W * Z * Z * list Z) :=
  match a with
  | (w, inl _) => Ok (w, -3, len, got)
  | (w, inr bs) =>
      if Z.of_nat (length bs) =? 0 then Ok (w, -7, Z.of_nat (length got), got)
      else
        let rc := func (got ++ bs) in
        if rc <? 0 then Ok (w, -5, len, got ++ bs)
        else if rc =? 0 then
          if len =? Z.of_nat (length (got ++ bs)) then Ok (w, -6, len, got ++ bs)
          else checks fuel w sock start timeout len (got ++ bs)
        else if Z.of_nat (length (got ++ bs)) <? rc then checks fuel w sock start timeout len (got ++ bs)
        else Ok (w, 0, rc, got ++ bs)
  end.

(** The loop with [got] received ends with a framed message. *)
Definition checks_from (sock start timeout len : Z) (got : list Z) : Prop := forall w,
  start <= clk w <= start + timeout + 4 * D -> arrived len got -> (got = [] \/ incomplete len got) ->
  Z.of_nat (length got) <= len ->
  exists w' r n got', returns (fun fuel => checks fuel w sock start timeout len got) (w', r, n, got') /\
    clk w <= clk w' <= start + timeout + 5 * D /\ framed (start + timeout) len w' r n got'.

Lemma check_round_spec sock start timeout len got w a :
  start <= clk w <= start + timeout + 4 * D -> arrived len got -> (got = [] \/ incomplete len got) ->
  Z.of_nat (length got) <= len ->
  match a with
  | inl c => failed (start + timeout) recv_errs w \/ len <= Z.of_nat (length got)
  | inr bs => Z.of_nat (length bs) <= len - Z.of_nat (length got) /\ exists w0, snd (sys_recv w0 (len - Z.of_nat (length got))) = Val bs
  end ->
  (forall bs, bs <> [] -> checks_from sock start timeout len (got ++ bs)) ->
  exists w' r n got', returns (fun fuel => check_round sock start timeout len got fuel (w, a)) (w', r, n, got') /\
    clk w <= clk w' <= start + timeout + 5 * D /\ framed (start + timeout) len w' r n got'.
Proof.
  pose proof (k_pos Hclk) as HD. intros Hw Harr Hinc Hlen Ha IH. unfold check_round. destruct a as [c|bs].
  { do 4 eexists. split; [apply returns_Ok|]. split; [lia|]. split_and!; try done. right; left. split_and!; try done.
    destruct Ha; [by left|right; lia]. }
  destruct Ha as [Hbs (w0 & Hw0)]. destruct bs as [|b bs'].
  { do 4 eexists. split; [apply returns_Ok|]. split; [lia|]. split_and!; try done. do 4 right. split_and!; try done. by eexists _, _. }
  set (bs := b :: bs') in *. rewrite (proj2 (Z.eqb_neq (Z.of_nat (length bs)) 0)) by done.
  assert (arrived len (got ++ bs)) as Harr' by by eapply arrived_app.
  assert (Z.of_nat (length (got ++ bs)) <= len) as Hlen' by (rewrite length_app; lia).
  assert (incomplete len (got ++ bs) -> exists w' r n got', returns (fun fuel => checks fuel w sock start timeout len (got ++ bs))
    (w', r, n, got') /\ clk w <= clk w' <= start + timeout + 5 * D /\ framed (start + timeout) len w' r n got') as Hrec
    by (intros Hi; apply IH; auto; done).
  cbv zeta. destruct (Z.ltb_spec (func (got ++ bs)) 0) as [H0|H0].
  { do 4 eexists. split; [apply returns_Ok|]. split; [lia|]. split_and!; try done. auto 6. }
  destruct (Z.eqb_spec (func (got ++ bs)) 0) as [Hz|Hz].
  - destruct (Z.eqb_spec len (Z.of_nat (length (got ++ bs)))) as [He|He].
    + do 4 eexists. split; [apply returns_Ok|]. split; [lia|]. split_and!; try done. auto 8.
    + apply Hrec. left. split; [done|]. congruence.
  - destruct (Z.ltb_spec (Z.of_nat (length (got ++ bs))) (func (got ++ bs))) as [Hl|Hl].
    + apply Hrec. by right.
    + do 4 eexists. split; [apply returns_Ok|]. split; [lia|]. split_and!; try done. left. split_and!; [done|done|lia|lia].
Qed.

Lemma check_loop_spec sock start timeout len : recv_ok -> 0 <= sock -> 0 <= timeout -> timeout + 5 * D < 2 ^ 31 -> len < 2 ^ 31 ->
  forall got, checks_from sock start timeout len got.
Proof.
  intros Hrecv Hs Ht Hmax Hlen got. pose proof (k_pos Hclk) as HD.
  remember (Z.to_nat (len - Z.of_nat (length got))) as k eqn:Hk. revert got Hk.
  induction (lt_wf k) as [k _ IH]. intros got -> w Hw Harr Hinc Hgot.
  destruct (clock_step w) as (w1 & E1 & H1 & _). set (cost := clk w1 - start).
  assert (u64 cost = cost) as Ec by (apply wrapu_small; lia). assert (u64 timeout = timeout) as Et by (apply wrapu_small; lia).
  destruct (Z.ltb_spec timeout cost) as [Hto|Hto].
  { exists w1, (-3), len, got. split; [|split; [lia|]; split_and!; try done; right; left; split_and!; try done; left; left; lia].
    eapply returns_S; [|apply returns_Ok]. intros fuel. cbn [check_loop]. rewrite E1. fold cost. rewrite Ec, Et.
    by apply Z.ltb_lt in Hto as ->. }
  set (room := len - Z.of_nat (length got)).
  destruct (MtFrame_recv_spec sock room (timeout - cost) w1 Hrecv) as (w2 & a & Ha & H2 & Hres); [lia..|].
  destruct (check_round_spec sock start timeout len got w2 a) as (w' & r & n & got' & Hret & Hc & Hf); [lia|done|done|done| | |].
  { destruct a as [c|bs].
    { destruct Hres as [Hf|Hr]; [left; eapply failed_mono; [| |done]; auto; lia|right; lia]. }
    destruct Hres as (? & _ & w0 & ?). eauto. }
  { intros bs Hbs w3 Hw3 Harr3 Hinc3 Hlen3. destruct bs as [|b bs]; [done|].
    eapply IH; [|done..]. rewrite length_app in *. cbn [length] in *. lia. }
  exists w', r, n, got'. split; [|split; [lia|done]]. eapply returns_S; [|eapply returns_bind; [apply Ha|apply Hret]].
  intros fuel. cbn [check_loop]. rewrite E1. fold cost. rewrite Ec, Et. apply Z.ltb_ge in Hto as ->.
  unfold room. rewrite (wraps_small _ cost), !wraps_small by lia.
  by destruct (MtFrame_recv _ _ _ _ _ _ _ _ _) as [[? []]| |].
Qed.
Lemma framed_mono d d' len w r n got : d' <= d -> framed d len w r n got -> framed d' len w r n got.
Proof.
  intros Hd (? & ? & Hf). split_and!; [done..|].
  destruct Hf as [?|[(? & ? & ? & [Hf|?])|?]]; [by left|right; left..|by do 2 right]; split_and!; auto.
  left. by eapply failed_mono.
Qed.

Lemma framed_code deadline len w r n got : framed deadline len w r n got -> r <= 0.
Proof. intros (_ & _ & Hf). lia. Qed.

Lemma mt_tcp_check_recv_spec w sock start timeout len : recv_ok -> 0 <= sock -> 0 <= timeout ->
  start <= clk w <= start + timeout + 12 * D -> timeout + 24 * D < 2 ^ 31 -> 0 < len < 2 ^ 31 ->
  exists w' r n got, returns (fun fuel => mt_tcp_check_recv GetLastClock KqueueSchedule sys_recv func fuel w sock len
      (time_left timeout (u64 (clk w - start)))) (w', r, n, got) /\
    clk w <= clk w' <= start + timeout + 20 * D /\ framed (start + timeout) len w' r n got.
Proof.
  intros Hrecv Hs Ht Hw Hmax Hlen. pose proof (k_pos Hclk) as HD. rewrite time_left_spec by lia.
  unfold mt_tcp_check_recv. destruct (clock_step w) as (w1 & -> & H1 & _).
  destruct (check_loop_spec sock (clk w1) (Z.max 0 (timeout - (clk w - start))) len) with (got := @nil Z) (w := w1)
    as (w' & r & n & got & Hret & Hc & Hf); [done|lia|lia|lia|lia|lia|constructor|by left|cbn [length]; lia|].
  exists w', r, n, got. split; [done|]. split; [lia|]. eapply framed_mono; [|done]. lia.
Qed.
End Framing.

(** ** Answers of any length *)

Section Growing.
Context (realloc : W -> Z -> W * bool) (check_func : W -> list Z -> bool -> bool -> W * Z * bool).

(** There is no memory for 2 GB and more. *)
Definition realloc_ok : Prop := forall w n,
  later w (fst (realloc w n)) /\ (snd (realloc w n) = true -> n < 2 ^ 31).
Definition check_ok : Prop := forall w bs closed d,
  later w (fst (fst (check_func w bs closed d))) /\ - 2 ^ 31 <= snd (fst (check_func w bs closed d)) < 2 ^ 31.

(** The buffer has the size [cap], and [got] was put into it by [recv], which
    was told how much room there is. *)
Inductive filled : Z -> list Z -> Prop :=
| filled_new cap w : snd (realloc w cap) = true -> filled cap []
| filled_recv cap got bs w : filled cap got -> snd (sys_recv w (cap - Z.of_nat (length got))) = Val bs ->
    Z.of_nat (length (got ++ bs)) <= cap -> filled cap (got ++ bs)
| filled_grow cap cap' got w : filled cap got -> cap < cap' -> snd (realloc w cap') = true -> filled cap' got.

(** The answer of [check_func] on [bs]. *)
Definition checked (bs : list Z) (rc : Z) : Prop := exists w closed d, snd (fst (check_func w bs closed d)) = rc.

Definition grown (deadline len : Z) (w : W) (r n : Z) (got : list Z) : Prop :=
  (r = -11 /\ got = [] /\ n = len \/ exists cap, filled cap got) /\
  (r = 0 /\ n = Z.of_nat (length got) /\ got <> [] /\ checked got n \/
   n = len /\
   (r = -3 /\ failed deadline recv_errs w \/
    r = -5 /\ (exists bs rest rc, got = bs ++ rest /\ checked bs rc /\ (rc < 0 \/ 0 < rc < Z.of_nat (length got))) \/
    r = -7 /\ (exists w0 m, snd (sys_recv w0 m) = Val []) /\
      (got = [] \/ exists rc, checked got rc /\ rc <> Z.of_nat (length got)) \/
    r = -11 /\ ((exists w0 m, snd (realloc w0 m) = false) \/ 2 ^ 30 <= Z.of_nat (length got)))).

Context (Hre : realloc_ok) (Hch : check_ok).

Lemma BUF_ALIGN_SIZE_spec x : 0 < x < 2 ^ 31 ->
  let y := BUF_ALIGN_SIZE x in (x <= y < 2 ^ 31 \/ y = - 2 ^ 31).
Proof.
  intros Hx. unfold BUF_ALIGN_SIZE, BUF_ALIGNMENT_SIZE. change (4096 - 1) with (Z.ones 12).
  rewrite <-Z.ldiff_land, Z.ldiff_ones_r, Z.shiftl_mul_pow2, Z.shiftr_div_pow2 by lia. change (2 ^ 12) with 4096.
  destruct (s32_spec (x + 4096 - 1)) as (k & Ek & Hk). set (y := s32 _) in *. clearbody y.
  pose proof (Z.div_mod y 4096) as Hd. pose proof (Z.mod_pos_bound y 4096) as Hm.
  destruct (decide (k = 0)) as [->|]; [left; lia|right]. assert (k = -1) as -> by lia. lia.
Qed.

Lemma Alloc_spec w len_ size : 0 <= len_ < 2 ^ 31 -> - 2 ^ 31 <= size < 2 ^ 31 -> (len_ < size \/ size < len_ \/ size = 0) ->
  exists w' len' ret, Alloc realloc w len_ size = (w', len', ret) /\ later w w' /\
    (ret = 0 /\ size <= len' /\ len_ < len' < 2 ^ 31 /\ (exists w0, snd (realloc w0 len') = true) \/
     ret <> 0 /\ (size < len_ \/ exists w0 m, snd (realloc w0 m) = false)).
Proof.
  pose proof (k_pos Hclk) as HD. intros Hl Hs Hsz. unfold Alloc. destruct (Z.ltb_spec size len_) as [Hlt|Hge].
  { exists w, len_, (-1). split; [done|]. split; [split; [lia|by right]|]. right. split; [done|by left]. }
  set (sz := if size =? 0 then BUF_ALIGNMENT_SIZE else size).
  assert (size <= sz /\ len_ < sz /\ 0 < sz < 2 ^ 31) as (Hsz1 & Hsz2 & Hsz3)
    by (unfold sz, BUF_ALIGNMENT_SIZE; destruct (Z.eqb_spec size 0); lia). clearbody sz.
  rewrite (proj2 (Z.eqb_neq len_ sz)) by lia. pose proof (BUF_ALIGN_SIZE_spec sz Hsz3) as Hy. cbv zeta in *.
  set (y := BUF_ALIGN_SIZE sz) in *. clearbody y. rewrite (proj2 (Z.eqb_neq y 0)) by lia.
  destruct (Hre w (u64 y)) as [Hlat Hno]. destruct (realloc w (u64 y)) as [w' ok] eqn:E. cbn [fst snd] in *.
  destruct ok; eexists _, _, _; (split; [done|]); (split; [done|]).
  - left. split; [done|]. destruct Hy as [Hy| ->]; [|exfalso; specialize (Hno eq_refl); vm_compute in Hno; done].
    rewrite wrapu_small in E by lia. split_and!; [lia..|]. exists w. by rewrite E.
  - right. split; [done|]. right. exists w, (u64 y). by rewrite E.
Qed.

Local Abbreviation grows := (grow_loop GetLastClock KqueueSchedule sys_recv realloc check_func).

(** The rest of a round, after [check_func] gave [rc] for [got]. *)
Definition grow_next (sock start timeout len len_ pkg_len : Z) (detected : bool) (got : list Z) (w : W) (rc : Z) (fuel : nat)
  : res (W * Z * Z * list Z) :=
  let recv_len := Z.of_nat (length got) in
  let again w len_ := grows fuel w sock start timeout len len_ pkg_len detected got in
  let alloc w size :=
    let '(w, len_, ret) := Alloc realloc w len_ size in
    if negb (ret =? 0) then Ok (w, -11, len, got) else again w len_ in
  if rc <? 0 then Ok (w, -5, len, got)
  else if rc =? 0 then
    if recv_len <? len_ then again w len_ else alloc w (s32 (Z.shiftl len_ 1))
  else if recv_len <? rc then
    if recv_len <? len_ then again w len_ else alloc w rc
  else if rc =? recv_len then Ok (w, 0, rc, got)
  else Ok (w, -5, len, got).

Lemma grown_mono d d' len w r n got : d' <= d -> grown d len w r n got -> grown d' len w r n got.
Proof.
  intros Hd (? & [?|(? & [[? Hf]|?])]); split; [done|by left|done| |done|]; right; (split; [done|]); [left|by right].
  split; [done|]. by eapply failed_mono.
Qed.

(** What is known of the length of the message. *)
Definition known (detected : bool) (pkg_len : Z) (got : list Z) : Prop :=
  detected = true -> - 2 ^ 31 <= pkg_len < 2 ^ 31 /\ exists bs rest, got = bs ++ rest /\ checked bs pkg_len.

Definition grows_to (start timeout len : Z) (f : nat -> res (W * Z * Z * list Z)) (w : W) : Prop :=
  exists w' r n got, returns f (w', r, n, got) /\
    clk w <= clk w' <= start + timeout + 7 * D /\ grown (start + timeout) len w' r n got.

Definition grows_from (sock start timeout len : Z) (w : W) : Prop := forall len_ pkg_len detected got,
  start <= clk w <= start + timeout + 6 * D -> filled len_ got -> Z.of_nat (length got) < len_ < 2 ^ 31 ->
  known detected pkg_len got ->
  grows_to start timeout len (fun fuel => grows fuel w sock start timeout len len_ pkg_len detected got) w.

Lemma grow_alloc_spec sock start timeout len len_ pkg_len detected got w size :
  start <= clk w <= start + timeout + 5 * D -> filled len_ got -> Z.of_nat (length got) = len_ -> 0 < len_ < 2 ^ 31 ->
  known detected pkg_len got ->
  - 2 ^ 31 <= size < 2 ^ 31 -> (len_ < size \/ size < len_ /\ 2 ^ 30 <= len_) ->
  (forall w', later w w' -> grows_from sock start timeout len w') ->
  grows_to start timeout len (fun fuel => let '(w, len_, ret) := Alloc realloc w len_ size in
    if negb (ret =? 0) then Ok (w, -11, len, got) else grows fuel w sock start timeout len len_ pkg_len detected got) w.
Proof.
  intros Hw Hfill Hg Hl Hk Hs Hsz IH. pose proof (k_pos Hclk) as HD.
  destruct (Alloc_spec w len_ size) as (w' & len' & ret & -> & Hlat & Hr); [lia..|]. pose proof Hlat as [Hle _].
  destruct Hr as [(-> & H1 & H2 & w0 & H3)|[Hr Hno]].
  - destruct (IH w' Hlat len' pkg_len detected got) as (w2 & r & n & got2 & Hret & Hc & Hgr);
      [lia|eapply filled_grow; [done|lia|done]|lia|done|].
    exists w2, r, n, got2. split; [done|]. split; [lia|done].
  - rewrite (proj2 (Z.eqb_neq ret 0)) by done. do 4 eexists. split; [apply returns_Ok|]. split; [lia|].
    split; [right; by exists len_|]. right. split; [done|]. do 3 right. split; [done|].
    destruct Hno as [Hno|Hno]; [right; lia|by left].
Qed.

Lemma grow_next_spec sock start timeout len len_ pkg_len detected got w rc :
  start <= clk w <= start + timeout + 5 * D -> filled len_ got -> Z.of_nat (length got) <= len_ -> 0 < len_ < 2 ^ 31 -> got <> [] ->
  known detected pkg_len got -> - 2 ^ 31 <= rc < 2 ^ 31 ->
  (exists bs rest, got = bs ++ rest /\ checked bs rc) -> (rc = Z.of_nat (length got) -> checked got rc) ->
  (forall w', later w w' -> grows_from sock start timeout len w') ->
  grows_to start timeout len (grow_next sock start timeout len len_ pkg_len detected got w rc) w.
Proof.
  intros Hw Hfill Hg Hl Hne Hk Hrc (bs & rest & Hb & Hbs) Hall IH. pose proof (k_pos Hclk) as HD. unfold grow_next.
  assert (later w w) as Hrefl by (split; [lia|by right]).
  destruct (Z.ltb_spec rc 0) as [Hn|Hn].
  { do 4 eexists. split; [apply returns_Ok|]. split; [lia|]. split; [right; by exists len_|]. right. split; [done|].
    right; left. split; [done|]. exists bs, rest, rc. auto. }
  destruct (Z.eqb_spec rc 0) as [Hz|Hz].
  { destruct (Z.ltb_spec (Z.of_nat (length got)) len_) as [Hlt|Hge]; [apply IH; [done|lia|done|lia|done]|].
    apply grow_alloc_spec; try done; try lia; rewrite Z.shiftl_mul_pow2 by lia; change (2 ^ 1) with 2;
      destruct (s32_spec (len_ * 2)) as (k & Ek & Hk'); lia. }
  destruct (Z.ltb_spec (Z.of_nat (length got)) rc) as [Hlt|Hge].
  { destruct (Z.ltb_spec (Z.of_nat (length got)) len_) as [Hlt2|Hge]; [apply IH; [done|lia|done|lia|done]|].
    apply grow_alloc_spec; try done; lia. }
  destruct (Z.eqb_spec rc (Z.of_nat (length got))) as [He|He].
  - do 4 eexists. split; [apply returns_Ok|]. split; [lia|]. split; [right; by exists len_|]. left. auto.
  - do 4 eexists. split; [apply returns_Ok|]. split; [lia|]. split; [right; by exists len_|]. right. split; [done|].
    right; left. split; [done|]. exists bs, rest, rc. split_and!; [done..|]. right. lia.
Qed.

(** The rest of a round, after the answer of [recv]. *)
Definition grow_round (sock start timeout len len_ pkg_len : Z) (detected : bool) (got : list Z) (fuel : nat)
    (a : W * (Z + list Z)) : res (W * Z * Z * list Z) :=
  let recv_len := Z.of_nat (length got) in
  match a with
  | (w, inl _) => Ok (w, -3, len, got)
  | (w, inr bs) =>
      if Z.of_nat (length bs) =? 0 then
        if recv_len =? 0 then Ok (w, -7, len, got)
        else
          let '(w, rc, _) := check_func w got true detected in
          if negb (rc =? recv_len) then Ok (w, -7, len, got) else Ok (w, 0, recv_len, got)
      else
        let got := got ++ bs in
        let '(w, rc, detected, pkg_len) :=
          if negb detected || (Z.of_nat (length got) =? pkg_len) then
            let '(w, rc, detected) := check_func w got false detected in
            (w, rc, detected, if detected then rc else pkg_len)
          else (w, pkg_len, detected, pkg_len) in
        grow_next sock start timeout len len_ pkg_len detected got w rc fuel
  end.

Lemma known_app detected pkg_len got bs : known detected pkg_len got -> known detected pkg_len (got ++ bs).
Proof.
  intros Hk Hd. destruct (Hk Hd) as (? & bs0 & rest & -> & Hc). split; [done|]. exists bs0, (rest ++ bs). by rewrite app_assoc.
Qed.

Lemma grow_closed_spec start timeout len len_ detected got w :
  start <= clk w <= start + timeout + 4 * D -> filled len_ got -> (exists w0 m, snd (sys_recv w0 m) = Val []) ->
  grows_to start timeout len (fun _ => if Z.of_nat (length got) =? 0 then Ok (w, -7, len, got)
    else let '(w, rc, _) := check_func w got true detected in
      if negb (rc =? Z.of_nat (length got)) then Ok (w, -7, len, got) else Ok (w, 0, Z.of_nat (length got), got)) w.
Proof.
  intros Hw Hfill Hcl. pose proof (k_pos Hclk) as HD. destruct (Z.eqb_spec (Z.of_nat (length got)) 0) as [H0|H0].
  { assert (got = []) as -> by (by destruct got). do 4 eexists. split; [apply returns_Ok|]. split; [lia|]. split; [right; by exists len_|]. right. split; [done|].
    right; right; left. auto. }
  assert (got <> []) as Hne by (by destruct got). destruct (Hch w got true detected) as [[Hlat _] _].
  destruct (check_func w got true detected) as [[w' rc] d] eqn:E. cbn [fst snd] in Hlat.
  assert (checked got rc) as Hck by (exists w, true, detected; by rewrite E).
  destruct (Z.eqb_spec rc (Z.of_nat (length got))) as [He|He]; cbn [negb]; do 4 eexists; (split; [apply returns_Ok|]);
    (split; [lia|]); (split; [right; by exists len_|]).
  - left. subst rc. auto.
  - right. split; [done|]. right; right; left. split_and!; [done..|]. right. by exists rc.
Qed.

Lemma grow_round_spec sock start timeout len len_ pkg_len detected got w a :
  start <= clk w <= start + timeout + 4 * D -> filled len_ got -> Z.of_nat (length got) < len_ < 2 ^ 31 ->
  known detected pkg_len got ->
  match a with
  | inl c => failed (start + timeout) recv_errs w
  | inr bs => Z.of_nat (length bs) <= len_ - Z.of_nat (length got) /\
      exists w0, snd (sys_recv w0 (len_ - Z.of_nat (length got))) = Val bs
  end ->
  (forall bs w' w'', a = inr bs -> later w w' -> later w' w'' -> grows_from sock start timeout len w'') ->
  grows_to start timeout len (fun fuel => grow_round sock start timeout len len_ pkg_len detected got fuel (w, a)) w.
Proof.
  intros Hw Hfill Hg Hk Ha IH. pose proof (k_pos Hclk) as HD. unfold grow_round. destruct a as [c|bs].
  { do 4 eexists. split; [apply returns_Ok|]. split; [lia|]. split; [right; by exists len_|]. right. auto. }
  destruct Ha as [Hbs [w0 Hw0]]. destruct bs as [|b bs'].
  { cbn [length Z.of_nat Z.eqb]. eapply grow_closed_spec; [lia|done|eauto]. }
  set (bs := b :: bs') in *. rewrite (proj2 (Z.eqb_neq (Z.of_nat (length bs)) 0)) by done. cbv zeta.
  assert (filled len_ (got ++ bs)) as Hfill' by (eapply filled_recv; [done|done|]; rewrite length_app; lia).
  assert (got ++ bs <> []) as Hne by (by destruct got). assert (Z.of_nat (length (got ++ bs)) <= len_) by (rewrite length_app; lia).
  apply (known_app _ _ _ bs) in Hk. destruct (negb detected || (Z.of_nat (length (got ++ bs)) =? pkg_len)) eqn:Ed.
  - destruct (Hch w (got ++ bs) false detected) as [Hlat Hrc].
    destruct (check_func w (got ++ bs) false detected) as [[w' rc] d] eqn:E. cbn [fst snd] in *. pose proof Hlat as [Hle _].
    assert (checked (got ++ bs) rc) as Hck by (exists w, false, detected; by rewrite E).
    destruct (grow_next_spec sock start timeout len len_ (if d then rc else pkg_len) d (got ++ bs) w' rc)
      as (w2 & r & n & got2 & Hret & Hc & Hgr); try done; try lia.
    + intros ->. split; [done|]. exists (got ++ bs), []. by rewrite app_nil_r.
    + exists (got ++ bs), []. by rewrite app_nil_r.
    + intros w'' Hl2. by eapply IH.
    + exists w2, r, n, got2. split; [done|]. split; [lia|done].
  - apply orb_false_elim in Ed as [->%negb_false_iff Hne2%Z.eqb_neq]. destruct (Hk eq_refl) as [Hp Hex].
    apply grow_next_spec; try done; try lia. intros w' Hlat. eapply (IH bs w); [done|split; [lia|by right]|done].
Qed.

Lemma grow_loop_spec sock start timeout len : recv_ok -> 0 <= sock -> 0 <= timeout -> timeout + 7 * D < 2 ^ 31 ->
  forall w, grows_from sock start timeout len w.
Proof.
  intros Hrecv Hs Ht Hmax. pose proof (k_pos Hclk) as HD. refine (round_ind (start + timeout) _ _).
  intros w IH len_ pkg_len detected got Hw Hfill Hg Hk.
  destruct (clock_step w) as (w1 & E1 & H1 & H1'). set (cost := clk w1 - start).
  assert (u64 cost = cost) as Ec by (apply wrapu_small; lia). assert (u64 timeout = timeout) as Et by (apply wrapu_small; lia).
  destruct (Z.ltb_spec timeout cost) as [Hto|Hto].
  { exists w1, (-3), len, got. split; [|split; [lia|]; split; [right; by exists len_|]; right; split; [done|]; left; split; [done|left; lia]].
    eapply returns_S; [|apply returns_Ok]. intros fuel. cbn [grow_loop]. rewrite E1. fold cost. rewrite Ec, Et.
    by apply Z.ltb_lt in Hto as ->. }
  set (room := len_ - Z.of_nat (length got)).
  destruct (MtFrame_recv_spec sock room (timeout - cost) w1 Hrecv) as (w2 & a & Ha & H2 & Hres); [lia..|].
  destruct (grow_round_spec sock start timeout len len_ pkg_len detected got w2 a) as (w' & r & n & got' & Hret & Hc & Hf); try done; try lia.
  { destruct a as [c|bs]; [|destruct Hres as (? & _ & ?); done].
    destruct Hres as [Hf|Hr]; [eapply failed_mono; [| |done]; auto; lia|lia]. }
  { intros bs w3 w4 -> [? ?] [? ?]. destruct Hres as (_ & Hp & _). unfold progress in Hp. apply IH; lia. }
  exists w', r, n, got'. split; [|split; [lia|done]]. eapply returns_S; [|eapply returns_bind; [apply Ha|apply Hret]].
  intros fuel. cbn [grow_loop]. rewrite E1. fold cost. rewrite Ec, Et. apply Z.ltb_ge in Hto as ->.
  unfold room. rewrite (wraps_small _ cost), !wraps_small by lia.
  by destruct (MtFrame_recv _ _ _ _ _ _ _ _ _) as [[? []]| |].
Qed.

Lemma mt_tcp_check_recv_alloc_spec w sock start timeout len : recv_ok -> 0 <= sock -> 0 <= timeout ->
  start <= clk w <= start + timeout + 12 * D -> timeout + 24 * D < 2 ^ 31 -> 0 <= len < 2 ^ 31 ->
  exists w' r n got, returns (fun fuel => mt_tcp_check_recv_alloc GetLastClock KqueueSchedule sys_recv realloc check_func
      fuel w sock len (time_left timeout (u64 (clk w - start)))) (w', r, n, got) /\
    clk w <= clk w' <= start + timeout + 20 * D /\ grown (start + timeout) len w' r n got.
Proof.
  intros Hrecv Hs Ht Hw Hmax Hlen. pose proof (k_pos Hclk) as HD. rewrite time_left_spec by lia.
  unfold mt_tcp_check_recv_alloc. destruct (clock_step w) as (w1 & -> & H1 & _).
  destruct (Alloc_spec w1 0 len) as (w2 & len_ & ret & -> & [H2 _] & Hr); [lia..|].
  destruct Hr as [(-> & H3 & H4 & w0 & H5)|[Hr Hno]]; cbn [Z.eqb negb].
  2: { rewrite (proj2 (Z.eqb_neq ret 0)) by done. exists w2, (-11), len, []. split; [apply returns_Ok|]. split; [lia|].
    split; [by left|]. right. split; [done|]. do 3 right. split; [done|]. left. destruct Hno; [lia|done]. }
  destruct (grow_loop_spec sock (clk w1) (Z.max 0 (timeout - (clk w - start))) len) with (w := w2) (len_ := len_) (pkg_len := 0)
    (detected := false) (got := @nil Z) as (w' & r & n & got & Hret & Hc & Hf); try done; try lia.
  { by apply (filled_new _ w0). }
  exists w', r, n, got. split; [done|]. split; [lia|]. eapply grown_mono; [|done]. lia.
Qed.

Lemma grown_code deadline len w r n got : grown deadline len w r n got -> r <= 0.
Proof. intros (_ & [[-> _]|(_ & [[-> _]|[[-> _]|[[-> _]|[-> _]]]])]); lia. Qed.
End Growing.

(** ** Connecting *)

Section Calls.
Context (sys_connect : W -> W * ans Z).

Definition connect_errs (e : Z) : Prop := e <> EINTR /\ e <> EINPROGRESS /\ exists w, snd (sys_connect w) = Err e.

Lemma MtFrame_connect_spec sock timeout w : (forall w, tick w (fst (sys_connect w))) -> 0 <= sock -> 0 <= timeout ->
  timeout + 3 * D < 2 ^ 31 ->
  exists w' r, returns (fun fuel => MtFrame_connect GetLastClock KqueueSchedule sys_connect fuel w sock true 16 timeout) (w', r) /\
    clk w <= clk w' <= clk w + timeout + 4 * D /\
    match r with
    | inl c => c < 0 /\ failed (clk w + timeout) connect_errs w' \/ c = 0 /\ exists w0, snd (sys_connect w0) = Err EISCONN
    | inr n => exists w0, snd (sys_connect w0) = Val n
    end.
Proof.
  intros Hcon Hs Ht Hmax. pose proof (k_pos Hclk) as HD. unfold MtFrame_connect, args_ok.
  destruct (clock_step w) as (w1 & -> & H1 & _). rewrite (proj2 (Z.ltb_ge sock 0)) by lia. cbn [orb negb Z.ltb Z.compare Pos.compare Pos.compare_cont].
  destruct (call_loop_spec sys_connect true (fun e => e =? EINPROGRESS) (clk w1) timeout Hcon ltac:(lia) w1 ltac:(lia))
    as (w' & r & Hret & Hc & Hr).
  exists w', r. split; [done|]. split; [lia|]. destruct r as [c|n]; [|done].
  destruct Hr as [[Hc' Hf]|(_ & ? & ?)]; [left|by right].
  split; [lia|]. eapply failed_mono; [| |done]; [lia|]. by intros e (? & ?%Z.eqb_neq & ?).
Qed.

End Calls.
End Proofs.

(** ** Requests *)

Section Requests.
Context {W : Type} (GetLastClock : W -> W * Z) (KqueueSchedule : W -> Z -> W * bool).
Context (sys_connect : Z -> W -> W * ans Z) (sys_send : Z -> W -> list Z -> W * ans Z).
Context (clk : W -> Z) (budget : W -> nat) (D : Z).
Context (get_sock : W -> W * Z) (free_sock : W -> Z -> bool -> W).

Local Abbreviation failing := (failed KqueueSchedule clk).

(** How a request ends, given the end of [receive]: the result, the bytes sent,
    the length of the answer and what was received. *)
Definition answered (deadline sock : Z) (pkg : list Z) (size : Z) (received : option (W -> Z -> Z -> list Z -> Prop))
    (w : W) (r : Z) (wire : list Z) (n : Z) (got : list Z) : Prop :=
  r = -4 /\ failing deadline (connect_errs (sys_connect sock)) w /\ wire = [] /\ got = [] /\ n = size \/
  r = -2 /\ failing deadline (send_errs (sys_send sock)) w /\
    (exists rest, pkg = wire ++ rest /\ rest <> []) /\ got = [] /\ n = size \/
  wire = pkg /\ match received with
    | Some Q => Q w r n got
    | None => r = 0 /\ got = [] /\ n = size
    end.

Record network_ok : Prop := {
  n_send sock : send_ok clk budget D (sys_send sock);
  n_connect sock w : tick clk budget D w (fst (sys_connect sock w));
  n_connected sock w n : snd (sys_connect sock w) = Val n -> 0 <= n;
  n_get w : later clk budget D w (fst (get_sock w))
}.

(** What a request needs from its [receive] for the time limit [timeout]. *)
Definition receive_ok (timeout sock : Z) (receive : nat -> W -> Z -> Z -> res (W * Z * Z * list Z))
    (received : Z -> W -> Z -> Z -> list Z -> Prop) : Prop := forall w start,
  start <= clk w <= start + timeout + 12 * D ->
  exists w' r n got, returns (fun fuel => receive fuel w sock (time_left timeout (u64 (clk w - start)))) (w', r, n, got) /\
    clk w <= clk w' <= start + timeout + 20 * D /\ r <= 0 /\ received (start + timeout) w' r n got.

Context (Hclk : clock_ok GetLastClock KqueueSchedule clk budget D) (Hnet : network_ok).

(** The part of a request after [connect] took the result [rc]. *)
Definition request_tail (receive : option (nat -> W -> Z -> Z -> res (W * Z * Z * list Z))) (w : W) (start sock rc : Z)
    (pkg : list Z) (size timeout : Z) (fuel : nat) : res (W * Z * list Z * Z * list Z) :=
  if rc <? 0 then Ok (free_sock w sock true, -4, [], size, [])
  else
    let '(w, now) := GetLastClock w in
    let* (w, rc, wire) := MtFrame_send GetLastClock KqueueSchedule (sys_send sock) fuel w sock pkg
      (time_left timeout (u64 (now - start))) in
    if rc <? 0 then Ok (free_sock w sock true, -2, wire, size, [])
    else match receive with
      | None => Ok (free_sock w sock false, 0, wire, size, [])
      | Some receive =>
          let '(w, now) := GetLastClock w in
          let* (w, rc, len, got) := receive fuel w sock (time_left timeout (u64 (now - start))) in
          if rc <? 0 then Ok (free_sock w sock true, rc, wire, len, got)
          else Ok (free_sock w sock false, 0, wire, len, got)
      end.

(** [receive] with what it ends with. *)
Definition both_ok (timeout sock : Z) receive received : Prop :=
  match receive, received with
  | Some receive, Some received => receive_ok timeout sock receive received
  | None, None => True
  | _, _ => False
  end.

Lemma request_tail_spec receive received pkg size timeout w start sock rc :
  both_ok timeout sock receive received -> 0 <= sock -> 0 <= timeout -> timeout + 24 * D < 2 ^ 31 -> pkg <> [] ->
  start <= clk w <= start + timeout + 5 * D ->
  (rc < 0 -> failing (start + timeout) (connect_errs (sys_connect sock)) w) ->
  exists w' r wire n got,
    returns (request_tail receive w start sock rc pkg size timeout) (free_sock w' sock (r <? 0), r, wire, n, got) /\
    clk w <= clk w' <= start + timeout + 20 * D /\
    answered (start + timeout) sock pkg size ((fun Q => Q (start + timeout)) <$> received) w' r wire n got.
Proof.
  intros Hrecv Hs Ht Hmax Hpkg Hw0 Hrc. pose proof (k_pos _ _ _ _ _ Hclk) as HD. unfold request_tail.
  destruct (Z.ltb_spec rc 0) as [Hc|Hc].
  { exists w, (-4), [], size, []. split; [apply returns_Ok|]. split; [lia|]. left. split_and!; auto. }
  destruct (clock_step _ _ _ _ _ Hclk w) as (w4 & -> & H4 & _).
  destruct (MtFrame_send_spec GetLastClock KqueueSchedule clk budget D Hclk (sys_send sock) sock pkg
    (time_left timeout (u64 (clk w4 - start))) w4) as (w5 & r & wire & rest & Hret5 & H5 & Hw & Hr);
    [apply Hnet|done|rewrite time_left_spec by lia; lia..|done|]. rewrite time_left_spec in H5, Hr by lia.
  destruct Hr as [[-> ->]|(Hr & Hne & Hf)].
  2: { exists w5, (-2), wire, size, []. split.
    - eapply returns_bind; [done|]. cbn beta iota. rewrite (proj2 (Z.ltb_lt r 0)) by lia. apply returns_Ok.
    - split; [lia|]. right; left. split_and!; eauto. eapply failed_mono; [| |done]; auto; lia. }
  rewrite app_nil_r in Hw. subst wire. destruct receive as [receive|], received as [received|]; try done.
  2: { exists w5, 0, pkg, size, []. split; [|split; [lia|]; by do 2 right].
    eapply returns_bind; [done|]. cbn beta iota. rewrite (proj2 (Z.ltb_ge _ _)) by lia. apply returns_Ok. }
  destruct (clock_step _ _ _ _ _ Hclk w5) as (w6 & E6 & H6 & _).
  destruct (Hrecv w6 start) as (w7 & r & n & got & Hret7 & H7 & Hr & Hf); [lia|].
  exists w7, r, pkg, n, got. split; [|split; [lia|]; by do 2 right].
  eapply returns_bind; [done|]. cbn beta iota. rewrite (proj2 (Z.ltb_ge _ _)), E6 by lia.
  eapply returns_bind; [done|]. cbn beta iota.
  destruct (Z.ltb_spec r 0); [apply returns_Ok|]. replace r with 0 by lia. apply returns_Ok.
Qed.

Lemma answered_mono d d' sock pkg size (Q Q' : option (W -> Z -> Z -> list Z -> Prop)) w r wire n got : d' <= d ->
  match Q, Q' with Some Q, Some Q' => Q w r n got -> Q' w r n got | None, None => True | _, _ => False end ->
  answered d sock pkg size Q w r wire n got -> answered d' sock pkg size Q' w r wire n got.
Proof.
  intros Hd HQ [(? & Hf & ?)|[(? & Hf & ?)|[? Hf]]]; [left|right; left|do 2 right].
  - split_and!; [done| |tauto..]. by eapply failed_mono.
  - split_and!; [done| |tauto..]. by eapply failed_mono.
  - split; [done|]. destruct Q, Q'; try done. by apply HQ.
Qed.

Lemma tcp_request_spec receive received pkg size timeout w sock :
  both_ok timeout sock receive received -> 0 <= timeout -> timeout + 24 * D < 2 ^ 31 -> pkg <> [] ->
  (forall Q d d' w r n got, received = Some Q -> d' <= d -> Q d w r n got -> Q d' w r n got) ->
  snd (get_sock (fst (GetLastClock w))) = sock -> 0 <= sock ->
  exists w' r wire n got,
    returns (fun fuel => tcp_request GetLastClock KqueueSchedule sys_connect sys_send get_sock free_sock receive
      fuel w pkg size timeout) (free_sock w' sock (r <? 0), r, wire, n, got) /\
    clk w <= clk w' <= clk w + timeout + 24 * D /\
    answered (clk w + timeout) sock pkg size ((fun Q => Q (clk w + timeout)) <$> received) w' r wire n got.
Proof.
  intros Hrecv Ht Hmax Hpkg Hmono Hs Hsock. pose proof (k_pos _ _ _ _ _ Hclk) as HD.
  assert ((Z.of_nat (length pkg) <? 1) = false) as Hargs by (apply Z.ltb_ge; destruct pkg; [done|cbn [length]; lia]).
  destruct (clock_step _ _ _ _ _ Hclk w) as (w1 & E1 & H1 & _). rewrite E1 in Hs. cbn [fst] in Hs.
  destruct (n_get Hnet w1) as [H2 _]. destruct (get_sock w1) as [w2 s] eqn:E2. cbn [fst snd] in *. subst s.
  destruct (MtFrame_connect_spec GetLastClock KqueueSchedule clk budget D Hclk (sys_connect sock) sock timeout w2)
    as (w3 & rc & Hret3 & H3 & Hrc); [apply Hnet|lia..|].
  destruct (request_tail_spec receive received pkg size timeout w3 (clk w1) sock (match rc with inl c => c | inr n => n end))
    as (w' & r & wire & n & got & Hret & Hc & Ha); [done..|lia| |].
  { intros Hneg. destruct rc as [c|n]; [|destruct Hrc as [w0 Hn%(n_connected Hnet)]; lia].
    destruct Hrc as [[_ Hf]|[-> _]]; [|lia]. eapply failed_mono; [| |done]; [lia|auto]. }
  exists w', r, wire, n, got. split; [|split; [lia|eapply answered_mono; [| |done]]]; [|lia|].
  - unfold tcp_request. rewrite Hargs, E1, E2, (proj2 (Z.ltb_ge _ _)) by lia. eapply returns_bind; [done|]. apply Hret.
  - destruct received as [Q|]; [|done]. cbn. intros HQ. eapply Hmono; [done| |done]. lia.
Qed.
End Requests.

(** ** What [recv] delivered *)

(** The bytes in an answer of [recv]. *)
Definition given (a : ans (list Z)) : list Z := match a with Val bs => bs | Err _ => [] end.

(** [history] is what a socket has delivered so far: [recv] on it adds its answer,
    and no other call changes it. *)
Section History.
Context {W : Type} (GetLastClock : W -> W * Z) (KqueueSchedule : W -> Z -> W * bool) (history : W -> list Z).
Context (Hclock : forall w, history (fst (GetLastClock w)) = history w).
Context (Hwait : forall w t, history (fst (KqueueSchedule w t)) = history w).

Lemma call_loop_history {A} (call : W -> W * ans A) isconn again start timeout :
  (forall w, history (fst (call w)) = history w) ->
  forall fuel w w' r, call_loop GetLastClock KqueueSchedule call isconn again fuel w start timeout = Ok (w', r) ->
    history w' = history w.
Proof.
  intros Hcall. induction fuel as [|fuel IH]; intros w w' r; cbn [call_loop]; [done|].
  pose proof (Hcall w) as H1. destruct (call w) as [w1 [a|e]]; cbn [fst] in H1; [by intros [= <- _]|].
  pose proof (Hclock w1) as H2. destruct (GetLastClock w1) as [w2 now]; cbn [fst] in H2.
  destruct (timed_out _ _ _); [intros [= <- _]; congruence|]. destruct (isconn && _); [intros [= <- _]; congruence|].
  destruct (e =? EINTR); [intros E; rewrite (IH _ _ _ E); congruence|]. destruct (negb _); [intros [= <- _]; congruence|].
  pose proof (Hwait w2 timeout) as H3. destruct (KqueueSchedule w2 timeout) as [w3 ok]; cbn [fst] in H3.
  destruct ok; [intros E; rewrite (IH _ _ _ E)|intros [= <- _]]; congruence.
Qed.

Lemma recv_loop_history (call : W -> W * ans (list Z)) start timeout :
  (forall w, history (fst (call w)) = history w ++ given (snd (call w))) ->
  forall fuel w w' r, recv_loop GetLastClock KqueueSchedule call fuel w start timeout = Ok (w', r) ->
    history w' = history w ++ match r with inr bs => bs | inl _ => [] end.
Proof.
  intros Hcall. induction fuel as [|fuel IH]; intros w w' r; cbn [recv_loop]; [done|].
  pose proof (Hclock w) as H1. destruct (GetLastClock w) as [w1 now]; cbn [fst] in H1.
  destruct (timed_out _ _ _); [intros [= <- <-]; by rewrite app_nil_r|].
  pose proof (Hwait w1 timeout) as H2. destruct (KqueueSchedule w1 timeout) as [w2 ok]; cbn [fst] in H2.
  destruct ok; cbn [negb]; [|intros [= <- <-]; rewrite app_nil_r; congruence].
  pose proof (Hcall w2) as H3. destruct (call w2) as [w3 [bs|e]]; cbn [fst snd given] in H3; [intros [= <- <-]; congruence|].
  rewrite app_nil_r in H3. destruct (e =? EINTR); [intros E; rewrite (IH _ _ _ E); congruence|].
  destruct (negb _); [intros [= <- <-]; rewrite app_nil_r; congruence|]. intros E; rewrite (IH _ _ _ E); congruence.
Qed.

Lemma send_loop_history (sys_send : W -> list Z -> W * ans Z) start timeout nbyte :
  (forall w bs, history (fst (sys_send w bs)) = history w) ->
  forall fuel w rest w' r wire, send_loop GetLastClock KqueueSchedule sys_send fuel w start timeout nbyte rest = Ok (w', r, wire) ->
    history w' = history w.
Proof.
  intros Hsend. induction fuel as [|fuel IH]; intros w rest w' r wire; cbn [send_loop]; [done|].
  destruct rest as [|b rest]; [by intros [= <- _ _]|]. set (all := b :: rest).
  pose proof (Hclock w) as H1. destruct (GetLastClock w) as [w1 now]; cbn [fst] in H1.
  destruct (timed_out _ _ _); [intros [= <- _ _]; congruence|].
  pose proof (Hsend w1 all) as H2. destruct (sys_send w1 all) as [w2 a]; cbn [fst] in H2.
  assert (forall rest' wire0, (let '(w, ok) := KqueueSchedule w2 timeout in
    if ok then let* (w, r, wire2) := send_loop GetLastClock KqueueSchedule sys_send fuel w start timeout nbyte rest' in
      Ok (w, r, wire0 ++ wire2) else Ok (w, -3, wire0)) = Ok (w', r, wire) -> history w' = history w) as Hw.
  { intros rest' wire0. pose proof (Hwait w2 timeout) as H3. destruct (KqueueSchedule w2 timeout) as [w3 ok]; cbn [fst] in H3.
    destruct ok; [|intros [= <- _ _]; congruence].
    destruct (send_loop _ _ _ _ _ _ _ _ _) as [[[w4 r4] wire4]| |] eqn:E; cbn [res_bind]; [|done..].
    intros [= <- _ _]. rewrite (IH _ _ _ _ _ E). congruence. }
  destruct a as [n|e].
  - destruct (drop (Z.to_nat n) all); [intros [= <- _ _]; congruence|apply Hw].
  - destruct (e =? EINTR); [intros E; rewrite (IH _ _ _ _ _ E); congruence|].
    destruct (negb _); [intros [= <- _ _]; congruence|apply Hw].
Qed.

Lemma check_loop_history sys_recv func sock start timeout len :
  (forall w m, history (fst (sys_recv w m)) = history w ++ given (snd (sys_recv w m))) ->
  forall fuel w got w' r n got',
    check_loop GetLastClock KqueueSchedule sys_recv func fuel w sock start timeout len got = Ok (w', r, n, got') ->
    exists new, got' = got ++ new /\ history w' = history w ++ new.
Proof.
  intros Hrecv. induction fuel as [|fuel IH]; intros w got w' r n got'; cbn [check_loop]; [done|].
  pose proof (Hclock w) as H1. destruct (GetLastClock w) as [w1 now]; cbn [fst] in H1.
  assert (forall w2, history w2 = history w -> exists new, got = got ++ new /\ history w2 = history w ++ new) as Hnone
    by (intros w2 E; exists []; by rewrite !app_nil_r).
  destruct (_ <? u64 _); [intros [= <- _ _ <-]; by apply Hnone|]. set (room := s32 _). unfold MtFrame_recv.
  pose proof (Hclock w1) as H2. destruct (GetLastClock w1) as [w2 start2]; cbn [fst] in H2.
  destruct (negb _); [cbn [res_bind]; intros [= <- _ _ <-]; apply Hnone; congruence|].
  destruct (recv_loop _ _ _ _ _ _ _) as [[w3 a]| |] eqn:E; cbn [res_bind]; [|done..].
  apply recv_loop_history in E; [|intros; apply Hrecv]. rewrite H2, H1 in E.
  destruct a as [c|bs]; [rewrite app_nil_r in E; intros [= <- _ _ <-]; by apply Hnone|].
  destruct (Z.eqb_spec (Z.of_nat (length bs)) 0) as [E0|_].
  { destruct bs; [|done]. rewrite app_nil_r in E. intros [= <- _ _ <-]. by apply Hnone. }
  assert (exists new, got ++ bs = got ++ new /\ history w3 = history w ++ new) as Hone by by exists bs.
  assert (check_loop GetLastClock KqueueSchedule sys_recv func fuel w3 sock start timeout len (got ++ bs) = Ok (w', r, n, got') ->
    exists new, got' = got ++ new /\ history w' = history w ++ new) as Hrec.
  { intros Er. apply IH in Er as (new & -> & Eh). exists (bs ++ new). by rewrite Eh, E, !app_assoc. }
  destruct (_ <? 0); [by intros [= <- _ _ <-]|]. destruct (_ =? 0).
  - destruct (_ =? _); [by intros [= <- _ _ <-]|done].
  - destruct (_ <? _); [done|by intros [= <- _ _ <-]].
Qed.
End History.

(** The calls of a request on the socket [sock], and its history. *)
Record history_ok {W} (GetLastClock : W -> W * Z) (KqueueSchedule : W -> Z -> W * bool) (sys_connect : Z -> W -> W * ans Z)
    (sys_send : Z -> W -> list Z -> W * ans Z) (sys_recv : Z -> W -> Z -> W * ans (list Z)) (get_sock : W -> W * Z) (free_sock : W -> Z -> bool -> W) (sock : Z) (history : W -> list Z) : Prop := {
  hy_clock w : history (fst (GetLastClock w)) = history w;
  hy_wait w t : history (fst (KqueueSchedule w t)) = history w;
  hy_connect w : history (fst (sys_connect sock w)) = history w;
  hy_send w bs : history (fst (sys_send sock w bs)) = history w;
  hy_recv w m : history (fst (sys_recv sock w m)) = history w ++ given (snd (sys_recv sock w m));
  hy_get w : history (fst (get_sock w)) = history w;
  hy_free w b : history (free_sock w sock b) = history w
}.

Lemma tcp_request_history {W} GetLastClock KqueueSchedule (sys_connect : Z -> W -> W * ans Z) sys_send sys_recv get_sock free_sock
    sock history receive fuel w pkg size timeout w' r wire n got :
  history_ok GetLastClock KqueueSchedule sys_connect sys_send sys_recv get_sock free_sock sock history ->
  snd (get_sock (fst (GetLastClock w))) = sock ->
  match receive with
  | Some receive => forall fuel w t w' r n got, receive fuel w sock t = Ok (w', r, n, got) -> history w' = history w ++ got
  | None => True
  end ->
  tcp_request GetLastClock KqueueSchedule sys_connect sys_send get_sock free_sock receive fuel w pkg size timeout =
    Ok (w', r, wire, n, got) -> history w' = history w ++ got.
Proof.
  intros [Hclock Hwait Hconn Hsend Hrecv Hget Hfree] Hs Hreceive. unfold tcp_request.
  destruct (_ <? 1); [intros [= <- _ _ _ <-]; by rewrite app_nil_r|].
  pose proof (Hclock w) as H1. destruct (GetLastClock w) as [w1 start]; cbn [fst] in *.
  pose proof (Hget w1) as H2. destruct (get_sock w1) as [w2 sock']; cbn [fst snd] in *. subst sock'.
  destruct (sock <? 0); [intros [= <- _ _ _ <-]; rewrite app_nil_r; congruence|]. unfold MtFrame_connect.
  pose proof (Hclock w2) as H3. destruct (GetLastClock w2) as [w3 start3]; cbn [fst] in *.
  assert (forall w4 rc, (if negb (args_ok sock true 16) then Ok (w3, inl (-10)) else
    call_loop GetLastClock KqueueSchedule (sys_connect sock) true (fun e => e =? EINPROGRESS) fuel w3 start3 timeout) = Ok (w4, rc) ->
    history w4 = history w3) as Hc.
  { intros w4 rc. destruct (negb _); [by intros [= <- _]|]. by apply call_loop_history. }
  destruct (if negb _ then _ else _) as [[w4 rc]| |]; cbn [res_bind]; [|done..]. specialize (Hc w4 rc eq_refl).
  destruct (_ <? 0); [intros [= <- _ _ _ <-]; rewrite app_nil_r, Hfree; congruence|].
  pose proof (Hclock w4) as H5. destruct (GetLastClock w4) as [w5 now]; cbn [fst] in *. unfold MtFrame_send.
  pose proof (Hclock w5) as H6. destruct (GetLastClock w5) as [w6 start6]; cbn [fst] in *.
  assert (forall t nbyte w7 rc wire, (if negb (args_ok sock true nbyte) then Ok (w6, -10, []) else
    send_loop GetLastClock KqueueSchedule (sys_send sock) fuel w6 start6 t nbyte pkg) = Ok (w7, rc, wire) ->
    history w7 = history w6) as Hsd.
  { intros t nbyte w7 rc7 wire7. destruct (negb _); [by intros [= <- _ _]|]. by apply send_loop_history. }
  destruct (if negb _ then _ else _) as [[[w7 rc7] wire7]| |] eqn:E7; cbn [res_bind]; [|done..]. apply Hsd in E7.
  destruct (_ <? 0); [intros [= <- _ _ _ <-]; rewrite app_nil_r, Hfree; congruence|].
  destruct receive as [receive|]; [|intros [= <- _ _ _ <-]; rewrite app_nil_r, Hfree; congruence].
  pose proof (Hclock w7) as H8. destruct (GetLastClock w7) as [w8 now8]; cbn [fst] in *.
  destruct (receive fuel w8 sock _) as [[[[w9 r9] n9] got9]| |] eqn:E9; cbn [res_bind]; [|done..]. apply Hreceive in E9.
  destruct (_ <? 0); intros [= <- _ _ _ <-]; rewrite Hfree; congruence.
Qed.

(** A request that expects no answer receives nothing. *)
Lemma tcp_request_nothing {W} GetLastClock KqueueSchedule (sys_connect : Z -> W -> W * ans Z) sys_send get_sock free_sock
    fuel w pkg size timeout w' r wire n got :
  tcp_request GetLastClock KqueueSchedule sys_connect sys_send get_sock free_sock None fuel w pkg size timeout =
    Ok (w', r, wire, n, got) -> got = [].
Proof.
  unfold tcp_request. destruct (_ <? 1); [by intros [= _ _ _ _ <-]|]. destruct (GetLastClock w) as [w1 start].
  destruct (get_sock w1) as [w2 sock]. destruct (_ <? 0); [by intros [= _ _ _ _ <-]|].
  destruct (MtFrame_connect _ _ _ _ _ _ _ _ _) as [[w3 rc]| |]; cbn [res_bind]; [|done..].
  destruct (_ <? 0); [by intros [= _ _ _ _ <-]|]. destruct (GetLastClock w3) as [w4 now].
  destruct (MtFrame_send _ _ _ _ _ _ _ _) as [[[w5 rc5] wire5]| |]; cbn [res_bind]; [|done..].
  destruct (_ <? 0); by intros [= _ _ _ _ <-].
Qed.

(** How a type of request gets its socket and gives it back, and whether it
    expects an answer. *)
Definition keeps (type : MT_TCP_CONN_TYPE) : bool :=
  match type with MT_TCP_LONG | MT_TCP_LONG_SNDONLY => true | _ => false end.
Definition sndonly (type : MT_TCP_CONN_TYPE) : bool :=
  match type with MT_TCP_SHORT_SNDONLY | MT_TCP_LONG_SNDONLY => true | _ => false end.

(** The socket [mt_tcp_create_sock] returns is the one that was opened and is
    not blocking; on failure none is left open. *)
Lemma mt_tcp_create_sock_spec {W} (sys_socket : W -> W * Z) sys_close sys_getfl sys_setfl w :
  let '(w1, fd) := sys_socket w in
  let '(w', r) := mt_tcp_create_sock sys_socket sys_close sys_getfl sys_setfl w in
  (0 <= r -> r = fd /\ ((exists flag, snd (sys_getfl w1 fd) = flag /\ Z.testbit flag 11 = true) \/
    exists w2 flags, Z.testbit flags 11 = true /\ snd (sys_setfl w2 fd flags) <> -1)) /\
  (r < 0 -> fd < 0 \/ exists w2, w' = sys_close w2 fd).
Proof.
  assert (forall x, Z.land x O_NONBLOCK <> 0 -> Z.testbit x 11 = true) as Hbit.
  { intros x Hx. destruct (Z.testbit x 11) eqn:E; [done|]. exfalso. apply Hx. change O_NONBLOCK with (2 ^ 11).
    apply Z.bits_inj'. intros n Hn. rewrite Z.land_spec, Z.bits_0. destruct (decide (n = 11)) as [->|Hne]; [by rewrite E|].
    rewrite Z.pow2_bits_false by lia. apply andb_false_r. }
  unfold mt_tcp_create_sock. destruct (sys_socket w) as [w1 fd]. destruct (Z.ltb_spec fd 0); [split; [lia|by left]|].
  destruct (sys_getfl w1 fd) as [w2 flag] eqn:E2. destruct (Z.eqb_spec flag (-1)) as [Hf|Hf]; [split; [lia|eauto]|].
  destruct (Z.eqb_spec (Z.land flag O_NONBLOCK) 0) as [Hb|Hb]; cbn [negb].
  - destruct (sys_setfl w2 fd _) as [w3 r] eqn:E3. destruct (Z.eqb_spec r (-1)); [split; [lia|eauto]|]. split; [|lia].
    intros _. split; [done|]. right. exists w2, (Z.lor (Z.lor flag O_NONBLOCK) O_NDELAY). rewrite E3. split; [|done].
    by rewrite !Z.lor_spec, orb_true_r.
  - split; [|lia]. intros _. split; [done|]. left. exists flag. cbn [snd]. auto.
Qed.

(** [mt_udpsendrcv] returns: 0 with the datagram [recvfrom] gave, or an error;
    the socket is closed, except for descriptor 0. *)
Lemma mt_udpsendrcv_spec {W} GetLastClock KqueueSchedule sys_socket sys_close sys_ioctl sys_sendto sys_recvfrom
    (clk : W -> Z) budget D pkg buf_size timeout w :
  clock_ok GetLastClock KqueueSchedule clk budget D ->
  (forall sock w bs, tick clk budget D w (fst (sys_sendto sock w bs))) ->
  (forall sock w m, tick clk budget D w (fst (sys_recvfrom sock w m))) ->
  0 <= timeout -> timeout + 3 * D < 2 ^ 31 -> pkg <> [] -> 0 < buf_size ->
  exists w' sock r n got,
    returns (fun fuel => mt_udpsendrcv GetLastClock KqueueSchedule sys_socket sys_close sys_ioctl sys_sendto sys_recvfrom
      fuel w pkg buf_size timeout) (if 0 <? sock then sys_close w' sock else w', r, n, got) /\
    sock = snd (sys_socket w) /\
    (r = 0 /\ n = Z.of_nat (length got) /\ (exists w0, snd (sys_recvfrom sock w0 buf_size) = Val got) \/
     (r = -1 \/ r = -2 \/ r = -3) /\ n = buf_size /\ got = []).
Proof.
  intros Hclk Hsend Hrecv Ht Hmax Hpkg Hbuf. pose proof (k_pos _ _ _ _ _ Hclk) as HD.
  assert (1 <= Z.of_nat (length pkg)) as Hlen by (destruct pkg; [done|cbn [length]; lia]).
  unfold mt_udpsendrcv. rewrite !(proj2 (Z.ltb_ge _ 1)) by lia. cbn [orb].
  destruct (sys_socket w) as [w1 sock]. cbn [snd].
  destruct (if sock <? 0 then (w1, true) else let '(w, r) := sys_ioctl w1 sock in (w, r <? 0)) as [w2 bad] eqn:Eb.
  destruct bad; [exists w2, sock, (-1), buf_size, []; split; [apply returns_Ok|]; auto|].
  assert (0 <= sock) as Hs by (destruct (Z.ltb_spec sock 0); [done|lia]).
  assert (forall n, 1 <= n -> args_ok sock true n = true) as Hargs.
  { intros n Hn. unfold args_ok. by rewrite !(proj2 (Z.ltb_ge _ _)) by lia. }
  unfold MtFrame_sendto, MtFrame_recvfrom. rewrite !Hargs by lia. cbn [negb].
  destruct (clock_step _ _ _ _ _ Hclk w2) as (w3 & -> & H3 & _).
  destruct (call_loop_spec GetLastClock KqueueSchedule clk budget D Hclk (fun w => sys_sendto sock w pkg) false
    (fun e => e =? EAGAIN) (clk w3) timeout) with (w := w3) as (w4 & rc & Hret4 & _); [intros; apply Hsend|lia..|].
  destruct ((match rc with inl c => c | inr n => n end) <? 0) eqn:Erc.
  { exists w4, sock, (-2), buf_size, []. split; [|split; [done|auto]]. eapply returns_bind; [done|]. cbn beta iota.
    rewrite Erc. apply returns_Ok. }
  destruct (clock_step _ _ _ _ _ Hclk w4) as (w5 & E5 & _).
  destruct (recv_loop_spec GetLastClock KqueueSchedule (sys_recvfrom sock) clk budget D Hclk (fun w => sys_recvfrom sock w buf_size)
    (clk w5) timeout) with (w := w5) as (w6 & r & Hret6 & _ & Hr); [intros; apply Hrecv|lia..|].
  exists w6, sock, (match r with inl _ => -3 | inr _ => 0 end), (match r with inl _ => buf_size | inr bs => Z.of_nat (length bs) end),
    (match r with inl _ => [] | inr bs => bs end).
  split; [|split; [done|]; destruct r as [c|bs]; [auto 6|left; split_and!; [done..|]; apply Hr]].
  eapply returns_bind; [done|]. cbn beta iota. rewrite Erc, E5, (proj2 (Z.leb_gt timeout (-1))) by lia.
  eapply returns_bind; [done|]. cbn beta iota. destruct r; apply returns_Ok.
Qed.

(** ** Properties *)

(** C28: [MtFrame::send] always returns, also when the network takes few bytes at
    a time, interrupts the call or takes none: it returns the size of the buffer,
    and then exactly the buffer is on the wire, once and in order; or -1, -2 or
    -3, and then a proper prefix of the buffer is on the wire and the time is up,
    the network has answered with an error or a wait has failed; or, for an
    empty buffer, -10.  It returns at most [4 * D] milliseconds after the time
    limit. *)
Theorem mt_send_complete {W} GetLastClock KqueueSchedule sys_send (clk : W -> Z) budget D sock buf timeout w :
  clock_ok GetLastClock KqueueSchedule clk budget D -> send_ok clk budget D sys_send ->
  0 <= sock -> 0 <= timeout -> timeout + 3 * D < 2 ^ 31 ->
  exists w' r wire rest,
    returns (fun fuel => MtFrame_send GetLastClock KqueueSchedule sys_send fuel w sock buf timeout) (w', r, wire) /\
    clk w <= clk w' <= clk w + timeout + 4 * D /\ buf = wire ++ rest /\
    (r = -10 /\ buf = [] \/ buf <> [] /\ r = Z.of_nat (length buf) /\ rest = [] \/
     (r = -1 \/ r = -2 \/ r = -3) /\ rest <> [] /\ failed KqueueSchedule clk (clk w + timeout) (send_errs sys_send) w').
Proof.
  intros Hclk Hsend Hs Ht Hmax. destruct buf as [|b buf'].
  - destruct (clock_step _ _ _ _ _ Hclk w) as (w1 & E1 & H1 & _). pose proof (k_pos _ _ _ _ _ Hclk). exists w1, (-10), [], [].
    split; [unfold MtFrame_send, args_ok; rewrite E1, (proj2 (Z.ltb_ge sock 0)) by lia; apply returns_Ok|]. split; [lia|]. auto.
  - destruct (MtFrame_send_spec GetLastClock KqueueSchedule clk budget D Hclk sys_send sock (b :: buf') timeout w)
      as (w' & r & wire & rest & Hret & Hc & Hb & Hr); [done..|].
    exists w', r, wire, rest. split; [done|]. split; [lia|]. split; [done|]. right. destruct Hr as [[? ?]|?]; [by left|by right].
Qed.

Section Types.
Context {W : Type} (GetLastClock : W -> W * Z) (KqueueSchedule : W -> Z -> W * bool).
Context (sys_connect : Z -> W -> W * ans Z) (sys_send : Z -> W -> list Z -> W * ans Z) (sys_recv : Z -> W -> Z -> W * ans (list Z)).
Context (sys_socket : W -> W * Z) (sys_close : W -> Z -> W) (sys_getfl : W -> Z -> W * Z) (sys_setfl : W -> Z -> Z -> W * Z).
Context (mt_tcp_get_keep_conn : W -> W * Z) (FreeConnection : W -> Z -> bool -> W).
Context (func : list Z -> Z) (realloc : W -> Z -> W * bool) (check_func : W -> list Z -> bool -> bool -> W * Z * bool).
Context (clk : W -> Z) (budget : W -> nat) (D : Z).

Definition get_of (type : MT_TCP_CONN_TYPE) : W -> W * Z :=
  if keeps type then mt_tcp_get_keep_conn else mt_tcp_create_sock sys_socket sys_close sys_getfl sys_setfl.
Definition free_of (type : MT_TCP_CONN_TYPE) : W -> Z -> bool -> W :=
  if keeps type then FreeConnection else close_sock sys_close.

Context (Hclk : clock_ok GetLastClock KqueueSchedule clk budget D) (Hrecv : forall sock, recv_ok (sys_recv sock) clk budget D).

Local Abbreviation request type := (tcp_request GetLastClock KqueueSchedule sys_connect sys_send (get_of type) (free_of type)).
Local Abbreviation answers := (answered KqueueSchedule sys_connect sys_send clk).

(** A request of a type that only sends. *)
Lemma send_only_spec type pkg size timeout w sock :
  network_ok sys_connect sys_send clk budget D (get_of type) ->
  0 <= timeout -> timeout + 24 * D < 2 ^ 31 -> pkg <> [] ->
  snd (get_of type (fst (GetLastClock w))) = sock -> 0 <= sock ->
  exists w' r wire, returns (fun fuel => let* (w, r, wire) := let* (w, r, wire, _, _) := request type None fuel w pkg 0 timeout in
      Ok (w, r, wire) in Ok (w, r, wire, size, @nil Z)) (free_of type w' sock (r <? 0), r, wire, size, []) /\
    clk w <= clk w' <= clk w + timeout + 24 * D /\ answers (clk w + timeout) sock pkg size None w' r wire size [].
Proof.
  intros Hnet Ht Hmax Hpkg Hget Hs.
  destruct (tcp_request_spec GetLastClock KqueueSchedule sys_connect sys_send clk budget D (get_of type) (free_of type) Hclk Hnet
    None None pkg 0 timeout w sock) as (w' & r & wire & n & got & Hret & Hc & Ha); [done..|].
  exists w', r, wire. split; [|split; [done|]].
  - eapply returns_bind; [eapply returns_bind; [apply Hret|apply returns_Ok]|apply returns_Ok].
  - destruct Ha as [(? & ? & ? & ? & ?)|[(? & ? & ? & ? & ?)|(? & ? & ? & ?)]]; [by left|by right; left|by do 2 right].
Qed.

Lemma receive_buf_ok timeout sock size : 0 <= sock -> 0 <= timeout -> timeout + 24 * D < 2 ^ 31 -> 0 < size < 2 ^ 31 ->
  receive_ok clk D timeout sock (receive_buf GetLastClock KqueueSchedule sys_recv func size)
    (fun d => framed KqueueSchedule (sys_recv sock) clk func d size).
Proof.
  intros Hs Ht Hmax Hsize w start Hw.
  destruct (mt_tcp_check_recv_spec GetLastClock KqueueSchedule (sys_recv sock) clk budget D Hclk func w sock start timeout size)
    as (w' & r & n & got & Hret & Hc & Hf); [done..|].
  exists w', r, n, got. split; [done|]. split; [done|]. split; [by eapply framed_code|done].
Qed.

Lemma receive_alloc_ok timeout sock size : realloc_ok clk budget D realloc -> check_ok clk budget D check_func ->
  0 <= sock -> 0 <= timeout -> timeout + 24 * D < 2 ^ 31 -> 0 <= size < 2 ^ 31 ->
  receive_ok clk D timeout sock (receive_alloc GetLastClock KqueueSchedule sys_recv realloc check_func size)
    (fun d => grown KqueueSchedule (sys_recv sock) clk realloc check_func d size).
Proof.
  intros Hre Hch Hs Ht Hmax Hsize w start Hw.
  destruct (mt_tcp_check_recv_alloc_spec GetLastClock KqueueSchedule (sys_recv sock) clk budget D Hclk realloc check_func Hre Hch
    w sock start timeout size) as (w' & r & n & got & Hret & Hc & Hf); [done..|].
  exists w', r, n, got. split; [done|]. split; [done|]. split; [by eapply grown_code|done].
Qed.
End Types.

(** A request of any type receives exactly what it returns. *)
Lemma tcpsendrcv_ex_history {W} GetLastClock KqueueSchedule sys_connect sys_send sys_recv sys_socket sys_close sys_getfl
    sys_setfl mt_tcp_get_keep_conn FreeConnection func type fuel (w : W) pkg buf_size timeout sock history w' r wire n got :
  history_ok GetLastClock KqueueSchedule sys_connect sys_send sys_recv
    (get_of sys_socket sys_close sys_getfl sys_setfl mt_tcp_get_keep_conn type) (free_of sys_close FreeConnection type) sock history ->
  snd (get_of sys_socket sys_close sys_getfl sys_setfl mt_tcp_get_keep_conn type (fst (GetLastClock w))) = sock ->
  mt_tcpsendrcv_ex GetLastClock KqueueSchedule sys_connect sys_send sys_recv sys_socket sys_close
    sys_getfl sys_setfl mt_tcp_get_keep_conn FreeConnection func type fuel w pkg buf_size timeout = Ok (w', r, wire, n, got) ->
  history w' = history w ++ got.
Proof.
  intros Hh Hget. unfold mt_tcpsendrcv_ex. destruct (_ <? 1); [intros [= <- _ _ _ <-]; by rewrite app_nil_r|].
  assert (forall fuel w t w' r n got, receive_buf GetLastClock KqueueSchedule sys_recv func buf_size fuel w sock t = Ok (w', r, n, got) ->
    history w' = history w ++ got) as Hr.
  { intros f w0 t w1 r1 n1 got1. unfold receive_buf, mt_tcp_check_recv. pose proof (hy_clock _ _ _ _ _ _ _ _ _ Hh w0) as H1.
    destruct (GetLastClock w0) as [w2 st]; cbn [fst] in H1. intros E.
    eapply check_loop_history in E as (new & -> & ->); [by rewrite H1|apply Hh..]. }
  assert (forall g f receive, g = get_of sys_socket sys_close sys_getfl sys_setfl mt_tcp_get_keep_conn type ->
    f = free_of sys_close FreeConnection type ->
    match receive with
    | Some receive => forall fuel w t w' r n got, receive fuel w sock t = Ok (w', r, n, got) -> history w' = history w ++ got
    | None => True
    end -> forall size w' r wire n got,
    tcp_request GetLastClock KqueueSchedule sys_connect sys_send g f receive fuel w pkg size timeout = Ok (w', r, wire, n, got) ->
    history w' = history w ++ got) as Hreq.
  { intros g f receive -> -> Hrc size w1 r1 wire1 n1 got1. by eapply tcp_request_history. }
  destruct type; unfold mt_tcpsendrcv, mt_tcpsendrcv_short, mt_tcpsend, mt_tcpsend_short.
  - destruct (_ <? 1); [intros [= <- _ _ _ <-]; by rewrite app_nil_r|]. eapply Hreq; [done..|exact Hr].
  - destruct (_ <? 1); [intros [= <- _ _ _ <-]; by rewrite app_nil_r|]. eapply Hreq; [done..|exact Hr].
  - destruct (tcp_request _ _ _ _ _ _ _ _ _ _ _ _) as [[[[[w1 r1] wire1] n1] got1]| |] eqn:E; cbn [res_bind]; [|done..].
    intros [= <- _ _ _ <-]. pose proof (tcp_request_nothing _ _ _ _ _ _ _ _ _ _ _ _ _ _ _ _ E) as ->. by eapply (Hreq _ _ None) in E.
  - destruct (tcp_request _ _ _ _ _ _ _ _ _ _ _ _) as [[[[[w1 r1] wire1] n1] got1]| |] eqn:E; cbn [res_bind]; [|done..].
    intros [= <- _ _ _ <-]. pose proof (tcp_request_nothing _ _ _ _ _ _ _ _ _ _ _ _ _ _ _ _ E) as ->. by eapply (Hreq _ _ None) in E.
  - intros [= <- _ _ _ <-]. by rewrite app_nil_r.
Qed.

(** How a request of any type ends. *)
Lemma tcpsendrcv_ex_spec {W} GetLastClock KqueueSchedule sys_connect sys_send sys_recv sys_socket sys_close sys_getfl
    sys_setfl mt_tcp_get_keep_conn FreeConnection func (clk : W -> Z) budget D type pkg buf_size timeout w sock :
  clock_ok GetLastClock KqueueSchedule clk budget D ->
  network_ok sys_connect sys_send clk budget D (get_of sys_socket sys_close sys_getfl sys_setfl mt_tcp_get_keep_conn type) ->
  (forall sock, recv_ok (sys_recv sock) clk budget D) ->
  type <> MT_TCP_BUTT -> 0 <= timeout -> timeout + 24 * D < 2 ^ 31 -> pkg <> [] -> 0 < buf_size < 2 ^ 31 ->
  snd (get_of sys_socket sys_close sys_getfl sys_setfl mt_tcp_get_keep_conn type (fst (GetLastClock w))) = sock -> 0 <= sock ->
  exists w' r wire n got,
    returns (fun fuel => mt_tcpsendrcv_ex GetLastClock KqueueSchedule sys_connect sys_send sys_recv sys_socket sys_close
      sys_getfl sys_setfl mt_tcp_get_keep_conn FreeConnection func type fuel w pkg buf_size timeout)
      (free_of sys_close FreeConnection type w' sock (r <? 0), r, wire, n, got) /\
    clk w <= clk w' <= clk w + timeout + 24 * D /\
    answered KqueueSchedule sys_connect sys_send clk (clk w + timeout) sock pkg buf_size
      (if sndonly type then None else Some (framed KqueueSchedule (sys_recv sock) clk func (clk w + timeout) buf_size))
      w' r wire n got.
Proof.
  intros Hclk Hnet Hrecv Htype Ht Hmax Hpkg Hsize Hget Hs.
  unfold mt_tcpsendrcv_ex. rewrite (proj2 (Z.ltb_ge _ _)) by (destruct pkg; [done|cbn [length]; lia]). destruct (sndonly type) eqn:Es.
  - destruct (send_only_spec GetLastClock KqueueSchedule sys_connect sys_send sys_socket sys_close sys_getfl sys_setfl
      mt_tcp_get_keep_conn FreeConnection clk budget D Hclk type pkg buf_size timeout w sock) as (w' & r & wire & Hret & Hc & Ha);
      [done..|]. exists w', r, wire, buf_size, []. by destruct type.
  - destruct (tcp_request_spec GetLastClock KqueueSchedule sys_connect sys_send clk budget D
      (get_of sys_socket sys_close sys_getfl sys_setfl mt_tcp_get_keep_conn type) (free_of sys_close FreeConnection type) Hclk Hnet
      (Some (receive_buf GetLastClock KqueueSchedule sys_recv func buf_size))
      (Some (fun d => framed KqueueSchedule (sys_recv sock) clk func d buf_size)) pkg buf_size timeout w sock)
      as (w' & r & wire & n & got & Hret & Hc & Ha); [by apply (receive_buf_ok GetLastClock KqueueSchedule sys_recv func clk budget)|done..|intros ??????? [= <-] ??; by eapply framed_mono|done|done|].
    exists w', r, wire, n, got. split; [|done]. destruct type; try done; unfold mt_tcpsendrcv, mt_tcpsendrcv_short; rewrite (proj2 (Z.ltb_ge _ _)) by lia; done.
Qed.

(** C13: a TCP request of any type ([mt_tcpsendrcv_ex]) returns whatever the
    network does, at most [24 * D] milliseconds after its time limit, where [D]
    bounds what one call takes.  Its socket is given back exactly once, marked as
    unusable if and only if the request failed.  With code -4 nothing was sent and
    with -2 a proper prefix of the package, because the time was up, the network
    answered with an error or a wait failed; otherwise the whole package was sent,
    once.  [got], the content of the buffer, is exactly what the socket delivered
    in the course of the request, all of it and in order, and fits the buffer;
    with code 0 it holds the whole message, as long as the length function says,
    and no earlier part of it was complete; the error codes say why it is not. *)
Theorem tcp_request_correct {W} GetLastClock KqueueSchedule sys_connect sys_send sys_recv sys_socket sys_close sys_getfl
    sys_setfl mt_tcp_get_keep_conn FreeConnection func (clk : W -> Z) budget D type pkg buf_size timeout w sock history :
  clock_ok GetLastClock KqueueSchedule clk budget D ->
  network_ok sys_connect sys_send clk budget D (get_of sys_socket sys_close sys_getfl sys_setfl mt_tcp_get_keep_conn type) ->
  (forall sock, recv_ok (sys_recv sock) clk budget D) ->
  history_ok GetLastClock KqueueSchedule sys_connect sys_send sys_recv
    (get_of sys_socket sys_close sys_getfl sys_setfl mt_tcp_get_keep_conn type) (free_of sys_close FreeConnection type) sock history ->
  type <> MT_TCP_BUTT -> 0 <= timeout -> timeout + 24 * D < 2 ^ 31 -> pkg <> [] -> 0 < buf_size < 2 ^ 31 ->
  snd (get_of sys_socket sys_close sys_getfl sys_setfl mt_tcp_get_keep_conn type (fst (GetLastClock w))) = sock -> 0 <= sock ->
  exists w' r wire n got,
    returns (fun fuel => mt_tcpsendrcv_ex GetLastClock KqueueSchedule sys_connect sys_send sys_recv sys_socket sys_close
      sys_getfl sys_setfl mt_tcp_get_keep_conn FreeConnection func type fuel w pkg buf_size timeout)
      (free_of sys_close FreeConnection type w' sock (r <? 0), r, wire, n, got) /\
    clk w <= clk w' <= clk w + timeout + 24 * D /\ history w' = history w ++ got /\
    answered KqueueSchedule sys_connect sys_send clk (clk w + timeout) sock pkg buf_size
      (if sndonly type then None else Some (framed KqueueSchedule (sys_recv sock) clk func (clk w + timeout) buf_size))
      w' r wire n got.
Proof.
  intros Hclk Hnet Hrecv Hh Htype Ht Hmax Hpkg Hsize Hget Hs.
  destruct (tcpsendrcv_ex_spec GetLastClock KqueueSchedule sys_connect sys_send sys_recv sys_socket sys_close sys_getfl
    sys_setfl mt_tcp_get_keep_conn FreeConnection func clk budget D type pkg buf_size timeout w sock)
    as (w' & r & wire & n & got & Hret & Hc & Ha); [done..|].
  exists w', r, wire, n, got. split; [done|]. split; [done|]. split; [|done]. destruct Hret as [fuel E].
  specialize (E fuel ltac:(lia)). eapply tcpsendrcv_ex_history in E; [|done..]. by rewrite (hy_free _ _ _ _ _ _ _ _ _ Hh) in E.
Qed.


(** ** Witnesses *)

(** A world of a clock and of what the socket has delivered: every call takes a
    millisecond, [send] takes two bytes at odd times and none at even ones, [recv]
    gives one byte, and a message has three. *)
Definition ex_world : Type := Z * list Z.
Definition ex_later (w : ex_world) : ex_world := (w.1 + 1, w.2).
Definition ex_clock (w : ex_world) : ex_world * Z := (w, w.1).
Definition ex_sched (w : ex_world) (_ : Z) : ex_world * bool := (ex_later w, true).
Definition ex_send (_ : Z) (w : ex_world) (bs : list Z) : ex_world * ans Z :=
  (ex_later w, if Z.odd w.1 then Val (Z.min 2 (Z.of_nat (length bs))) else Err EAGAIN).
Definition ex_recv (_ : Z) (w : ex_world) (m : Z) : ex_world * ans (list Z) :=
  let bs := if 0 <? m then [w.1] else [] in ((w.1 + 1, w.2 ++ bs), Val bs).
Definition ex_three (bs : list Z) : Z := if Z.of_nat (length bs) <? 3 then 0 else 3.
Definition ex_check (w : ex_world) (bs : list Z) (_ _ : bool) : ex_world * Z * bool := (w, 3, true).
Definition ex_connect (_ : Z) (w : ex_world) : ex_world * ans Z := (ex_later w, Val 0).
Definition ex_get (w : ex_world) : ex_world * Z := (w, 7).
Definition ex_free (w : ex_world) (_ : Z) (_ : bool) : ex_world := w.
Definition ex_close (w : ex_world) (_ : Z) : ex_world := w.
Definition ex_getfl (w : ex_world) (_ : Z) : ex_world * Z := (w, 2).
Definition ex_setfl (w : ex_world) (_ _ : Z) : ex_world * Z := (w, 0).
Definition ex_realloc (w : ex_world) (n : Z) : ex_world * bool := (w, n <? 1000000).

Lemma ex_clock_ok : clock_ok ex_clock ex_sched fst (fun _ => 0%nat) 1.
Proof. split; [lia|intros w; split; [done|]|intros w t]; unfold later; cbn; lia. Qed.

Lemma ex_network_ok : network_ok ex_connect ex_send fst (fun _ => 0%nat) 1 ex_get.
Proof.
  split; [intros sock w bs|intros sock w|intros sock w n [= <-]; done|intros w]; unfold tick, later; cbn; lia.
Qed.

Lemma ex_recv_ok sock : recv_ok (ex_recv sock) fst (fun _ => 0%nat) 1.
Proof.
  intros w m. split; [unfold tick; cbn; lia|]. cbn. intros bs [= <-]. destruct (Z.ltb_spec 0 m); cbn; lia.
Qed.

Lemma mt_send_complete_witness : exists w' r wire rest,
  returns (fun fuel => MtFrame_send ex_clock ex_sched (ex_send 7) fuel (0, []) 7 [1; 2; 3; 4; 5] 1000) (w', r, wire) /\
  0 <= w'.1 <= 0 + 1000 + 4 * 1 /\ [1; 2; 3; 4; 5] = wire ++ rest /\
  (r = -10 /\ [1; 2; 3; 4; 5] = [] \/ [1; 2; 3; 4; 5] <> [] /\ r = 5 /\ rest = [] \/
   (r = -1 \/ r = -2 \/ r = -3) /\ rest <> [] /\ failed ex_sched fst (0 + 1000) (send_errs (ex_send 7)) w').
Proof.
  apply (mt_send_complete ex_clock ex_sched (ex_send 7) fst (fun _ => 0%nat) 1 7 [1; 2; 3; 4; 5] 1000 (0, []));
    [apply ex_clock_ok|apply ex_network_ok|lia..].
Defined.

Lemma tcp_request_correct_witness : exists w' r wire n got,
  returns (fun fuel => mt_tcpsendrcv_ex ex_clock ex_sched ex_connect ex_send ex_recv ex_get ex_close ex_getfl ex_setfl
    ex_get ex_free ex_three MT_TCP_LONG fuel (0, []) [1; 2; 3; 4; 5] 8 1000) (ex_free w' 7 (r <? 0), r, wire, n, got) /\
  0 <= w'.1 <= 0 + 1000 + 24 * 1 /\ w'.2 = [] ++ got /\
  answered ex_sched ex_connect ex_send fst (0 + 1000) 7 [1; 2; 3; 4; 5] 8
    (Some (framed ex_sched (ex_recv 7) fst ex_three (0 + 1000) 8)) w' r wire n got.
Proof.
  apply (tcp_request_correct ex_clock ex_sched ex_connect ex_send ex_recv ex_get ex_close ex_getfl ex_setfl ex_get ex_free
    ex_three fst (fun _ => 0%nat) 1 MT_TCP_LONG [1; 2; 3; 4; 5] 8 1000 (0, []) 7 snd);
    [apply ex_clock_ok|apply ex_network_ok|apply ex_recv_ok|split; reflexivity|discriminate|lia|lia|discriminate|lia|reflexivity|lia].
Defined.


(** In this world the requests succeed. *)
Example ex_request_runs :
  mt_tcpsendrcv_ex ex_clock ex_sched ex_connect ex_send ex_recv ex_get ex_close ex_getfl ex_setfl ex_get ex_free ex_three
    MT_TCP_SHORT 50 (0, []) [1; 2; 3; 4; 5] 8 1000 = Ok ((12, [7; 9; 11]), 0, [1; 2; 3; 4; 5], 3, [7; 9; 11]).
Proof. vm_compute. reflexivity. Qed.
