(* ===== verification/SockConv.v ===== *)
(** * The socket interface: from Linux to FreeBSD and back

    The functions of [src/lib/ff_syscall_wrapper.c] that applications call, in
    the default build: what they do to the flags, options, addresses and
    messages of Linux before they call the FreeBSD kernel, and to its answers.

    Memory is a map from blocks to their bytes, and a pointer a block with an
    offset, so that two structures can overlap and an access outside of its
    object is seen ([Panic]).  The functions of the FreeBSD kernel are arguments;
    they return a number of [errno] and change a state of their own. *)

From S2P Require Import Prelude.

Module SockConv.

(** ** Memory *)

Abbreviation mem := (gmap Z (list Z)).
Abbreviation ptr := (Z * Z)%type.

Definition padd (p : ptr) (k : Z) : ptr := (p.1, p.2 + k).

Definition load (m : mem) (p : ptr) (n : Z) : res (list Z) :=
  match m !! p.1 with
  | Some bs =>
      if (0 <=? p.2) && (0 <=? n) && (p.2 + n <=? Z.of_nat (length bs))
      then Ok (take (Z.to_nat n) (drop (Z.to_nat p.2) bs)) else Panic
  | None => Panic
  end.

Definition store (m : mem) (p : ptr) (vs : list Z) : res mem :=
  match m !! p.1 with
  | Some bs =>
      if (0 <=? p.2) && (p.2 + Z.of_nat (length vs) <=? Z.of_nat (length bs))
      then Ok (<[p.1 := take (Z.to_nat p.2) bs ++ vs ++ drop (Z.to_nat p.2 + length vs) bs]> m) else Panic
  | None => Panic
  end.

(** Numbers in memory, the lowest byte first. *)
Fixpoint of_bytes (bs : list Z) : Z :=
  match bs with
  | [] => 0
  | b :: bs => b + 256 * of_bytes bs
  end.

Fixpoint to_bytes (n : nat) (z : Z) : list Z :=
  match n with
  | O => []
  | S n => z mod 256 :: to_bytes n (z / 256)
  end.

Definition load_u8 (m : mem) (p : ptr) : res Z := let* bs := load m p 1 in Ok (of_bytes bs).
Definition load_s16 (m : mem) (p : ptr) : res Z := let* bs := load m p 2 in Ok (wraps 16 (of_bytes bs)).
Definition load_u32 (m : mem) (p : ptr) : res Z := let* bs := load m p 4 in Ok (of_bytes bs).
Definition load_s32 (m : mem) (p : ptr) : res Z := let* bs := load m p 4 in Ok (s32 (of_bytes bs)).
Definition load_u64 (m : mem) (p : ptr) : res Z := let* bs := load m p 8 in Ok (of_bytes bs).
Definition store_num (n : nat) (m : mem) (p : ptr) (z : Z) : res mem := store m p (to_bytes n z).

(** [bcopy] and [memcpy] *)
Definition bcopy (m : mem) (src dst : ptr) (n : Z) : res mem := let* bs := load m src n in store m dst bs.

(** ** [fcntl] *)

Definition LINUX_F_DUPFD : Z := 0.
Definition LINUX_F_GETFD : Z := 1.
Definition LINUX_F_SETFD : Z := 2.
Definition LINUX_F_GETFL : Z := 3.
Definition LINUX_F_SETFL : Z := 4.
Definition LINUX_F_GETLK : Z := 5.
Definition LINUX_F_SETLK : Z := 6.
Definition LINUX_F_SETLKW : Z := 7.
Definition LINUX_F_SETOWN : Z := 8.
Definition LINUX_F_GETOWN : Z := 9.
Definition LINUX_F_OFD_GETLK : Z := 36.
Definition LINUX_F_OFD_SETLK : Z := 37.
Definition LINUX_F_OFD_SETLKW : Z := 38.
Definition LINUX_O_APPEND : Z := 0x400.
Definition LINUX_O_NONBLOCK : Z := 0x800.
Definition LINUX_O_ASYNC : Z := 0x2000.
Definition LINUX_O_DIRECT : Z := 0x4000.
Definition LINUX_O_CLOEXEC : Z := 0x80000.

Definition F_DUPFD : Z := 0.
Definition F_GETFD : Z := 1.
Definition F_SETFD : Z := 2.
Definition F_GETFL : Z := 3.
Definition F_SETFL : Z := 4.
Definition F_GETOWN : Z := 5.
Definition F_SETOWN : Z := 6.
Definition F_OGETLK : Z := 7.
Definition F_OSETLK : Z := 8.
Definition F_OSETLKW : Z := 9.
Definition F_GETLK : Z := 11.
Definition F_SETLK : Z := 12.
Definition F_SETLKW : Z := 13.
Definition O_NONBLOCK : Z := 0x4.
Definition O_APPEND : Z := 0x8.
Definition O_ASYNC : Z := 0x40.
Definition O_DIRECT : Z := 0x10000.
Definition O_CLOEXEC : Z := 0x100000.

(** [if (flags & a) { flags &= ~a; flags |= b; }] *)
Definition move_flag (a b flags : Z) : Z :=
  if Z.land flags a =? 0 then flags else Z.lor (Z.ldiff flags a) b.

Definition linux2freebsd_fcntl (cmd argp : Z) : Z * Z :=
  if cmd =? LINUX_F_DUPFD then (F_DUPFD, argp)
  else if cmd =? LINUX_F_GETFD then (F_GETFD, argp)
  else if cmd =? LINUX_F_SETFD then (F_SETFD, move_flag LINUX_O_CLOEXEC O_CLOEXEC argp)
  else if cmd =? LINUX_F_GETFL then (F_GETFL, argp)
  else if cmd =? LINUX_F_SETFL then
    let argp := move_flag LINUX_O_NONBLOCK O_NONBLOCK argp in
    let argp := move_flag LINUX_O_APPEND O_APPEND argp in
    let argp := move_flag LINUX_O_ASYNC O_ASYNC argp in
    let argp := move_flag LINUX_O_DIRECT O_DIRECT argp in
    (F_SETFL, argp)
  else if cmd =? LINUX_F_GETLK then (F_GETLK, argp)
  else if cmd =? LINUX_F_SETLK then (F_SETLK, argp)
  else if cmd =? LINUX_F_SETLKW then (F_SETLKW, argp)
  else if cmd =? LINUX_F_SETOWN then (F_SETOWN, argp)
  else if cmd =? LINUX_F_GETOWN then (F_GETOWN, argp)
  else if cmd =? LINUX_F_OFD_GETLK then (F_OGETLK, argp)
  else if cmd =? LINUX_F_OFD_SETLK then (F_OSETLK, argp)
  else if cmd =? LINUX_F_OFD_SETLKW then (F_OSETLKW, argp)
  else (cmd, argp).

(** All other commands leave the flags as they are. *)
Definition freebsd2linux_fcntl (cmd flags : Z) : Z :=
  if cmd =? F_GETFD then move_flag O_CLOEXEC LINUX_O_CLOEXEC flags
  else if cmd =? F_GETFL then
    let flags := move_flag O_NONBLOCK LINUX_O_NONBLOCK flags in
    let flags := move_flag O_APPEND LINUX_O_APPEND flags in
    let flags := move_flag O_ASYNC LINUX_O_ASYNC flags in
    move_flag O_DIRECT LINUX_O_DIRECT flags
  else flags.

(** ** [ioctl] *)

Definition IOC_VOID : Z := 0x20000000.
Definition IOC_OUT : Z := 0x40000000.
Definition IOC_IN : Z := 0x80000000.
Definition IOC_INOUT : Z := Z.lor IOC_IN IOC_OUT.
Definition IOCPARM_MASK : Z := Z.shiftl 1 13 - 1.

Definition ioc (inout group num len : Z) : Z :=
  Z.lor (Z.lor (Z.lor inout (Z.shiftl (Z.land len IOCPARM_MASK) 16)) (Z.shiftl group 8)) num.
Definition io (g n : Z) : Z := ioc IOC_VOID g n 0.
Definition ior (g n size : Z) : Z := ioc IOC_OUT g n size.
Definition iow (g n size : Z) : Z := ioc IOC_IN g n size.
Definition iowr (g n size : Z) : Z := ioc IOC_INOUT g n size.

Definition sizeof_int : Z := 4.
Definition sizeof_winsize : Z := 8.
Definition sizeof_ifconf : Z := 16.
Definition sizeof_ifreq : Z := 32.

Definition tty : Z := 116.
Definition fil : Z := 102.
Definition ifn : Z := 105.

(** The requests of Linux with those of FreeBSD, in the order of the source. *)
Definition ioctl_table : list (Z * Z) :=
  [(0x540C, io tty 13); (0x540D, io tty 14); (0x540E, io tty 97); (0x540F, ior tty 119 sizeof_int);
   (0x5410, iow tty 118 sizeof_int); (0x5411, ior tty 115 sizeof_int); (0x5412, iow tty 114 1);
   (0x5413, ior tty 104 sizeof_winsize); (0x5414, iow tty 103 sizeof_winsize); (0x5415, ior tty 106 sizeof_int);
   (0x5416, iow tty 108 sizeof_int); (0x5417, iow tty 107 sizeof_int); (0x5418, iow tty 109 sizeof_int);
   (0x541B, ior fil 127 sizeof_int); (0x541D, iow tty 98 sizeof_int); (0x5420, iow tty 112 sizeof_int);
   (0x5421, iow fil 126 sizeof_int); (0x5422, io tty 113); (0x5423, iow tty 27 sizeof_int);
   (0x5424, ior tty 26 sizeof_int); (0x5427, io tty 123); (0x5428, io tty 122); (0x5429, ior tty 99 sizeof_int);
   (0x5450, io fil 2); (0x5451, io fil 1); (0x5452, iow fil 125 sizeof_int);
   (0, 0); (1, 1); (2, 2); (4, 4); (8, 8); (16, 16); (32, 32); (64, 64);
   (0x8912, iowr ifn 36 sizeof_ifconf); (0x8913, iowr ifn 17 sizeof_ifreq); (0x8914, iow ifn 16 sizeof_ifreq);
   (0x8915, iowr ifn 33 sizeof_ifreq); (0x8916, iow ifn 12 sizeof_ifreq); (0x8917, iowr ifn 34 sizeof_ifreq);
   (0x8918, iow ifn 14 sizeof_ifreq); (0x8919, iowr ifn 35 sizeof_ifreq); (0x891a, iow ifn 19 sizeof_ifreq);
   (0x891b, iowr ifn 37 sizeof_ifreq); (0x891c, iow ifn 22 sizeof_ifreq); (0x891d, iowr ifn 23 sizeof_ifreq);
   (0x891e, iow ifn 24 sizeof_ifreq); (0x8921, iowr ifn 51 sizeof_ifreq); (0x8922, iow ifn 52 sizeof_ifreq);
   (0x8923, iow ifn 40 sizeof_ifreq); (0x8931, iow ifn 49 sizeof_ifreq); (0x8932, iow ifn 50 sizeof_ifreq);
   (0x8933, iowr ifn 32 sizeof_ifreq); (0x8936, iow ifn 25 sizeof_ifreq)].

(** The entry of [x]; [d] when there is none. *)
Fixpoint convert (d : Z) (t : list (Z * Z)) (x : Z) : Z :=
  match t with
  | [] => d
  | (a, b) :: t => if x =? a then b else convert d t x
  end.

Definition linux2freebsd_ioctl (request : Z) : Z := convert (-1) ioctl_table request.

(** ** Options *)

Definition so_opts : list (Z * Z) :=
  [(1, 0x1); (2, 0x4); (4, 0x1007); (5, 0x10); (6, 0x20); (7, 0x1001); (8, 0x1002); (9, 0x8); (10, 0x100); (13, 0x80);
   (15, 0x200); (18, 0x1004); (19, 0x1003); (20, 0x1006); (21, 0x1005); (30, 0x2); (38, 0x1016); (29, 0x400)].
Definition so_opt_convert (optname : Z) : Z := convert (-1) so_opts optname.

Definition ip_opts : list (Z * Z) :=
  [(1, 3); (2, 4); (3, 2); (4, 1); (32, 9); (33, 10); (34, 11); (35, 12); (36, 13); (12, 65); (13, 68); (19, 24); (21, 66)].
Definition ip_opt_convert (optname : Z) : Z := convert optname ip_opts optname.

Definition ip6_opts : list (Z * Z) := [(26, 27); (49, 36); (75, 64)].
Definition ip6_opt_convert (optname : Z) : Z := convert optname ip6_opts optname.

Definition tcp_opts : list (Z * Z) := [(1, 1); (2, 2); (4, 256); (5, 512); (6, 1024); (11, 32); (14, 16)].
Definition tcp_opt_convert (optname : Z) : Z := convert (-1) tcp_opts optname.

Definition LINUX_SOL_SOCKET : Z := 1.
Definition SOL_SOCKET : Z := 0xffff.
Definition IPPROTO_IP : Z := 0.
Definition IPPROTO_TCP : Z := 6.
Definition IPPROTO_IPV6 : Z := 41.
Definition LINUX_IP_BIND_ADDRESS_NO_PORT : Z := 24.
Definition EINVAL : Z := 22.
Definition ENOMEM : Z := 12.

Definition linux2freebsd_opt (level optname : Z) : Z :=
  if level =? SOL_SOCKET then so_opt_convert optname
  else if level =? IPPROTO_IP then ip_opt_convert optname
  else if level =? IPPROTO_IPV6 then ip6_opt_convert optname
  else if level =? IPPROTO_TCP then tcp_opt_convert optname
  else -1.

Definition SOCK_CLOEXEC : Z := 0x10000000.
Definition SOCK_NONBLOCK : Z := 0x20000000.

Definition linux2freebsd_socket_flags (flags : Z) : Z :=
  let flags := move_flag LINUX_O_NONBLOCK SOCK_NONBLOCK flags in
  move_flag LINUX_O_CLOEXEC SOCK_CLOEXEC flags.

(** ** Addresses *)

Definition LINUX_AF_INET6 : Z := 10.
Definition AF_INET6 : Z := 28.

(** [struct linux_sockaddr] is a [short] family and the data, [struct sockaddr]
    the length, the family and the data. *)
Definition linux2freebsd_sockaddr (m : mem) (linux : option ptr) (addrlen : Z) (freebsd : option ptr) : res mem :=
  match linux, freebsd with
  | Some l, Some f =>
      let* fam := load_s16 m l in
      let* m := store_num 1 m (padd f 1) (if fam =? LINUX_AF_INET6 then AF_INET6 else fam) in
      let* m := store_num 1 m f addrlen in
      if bool_decide (padd l 2 <> padd f 2) then bcopy m (padd l 2) (padd f 2) (u64 (addrlen - 2)) else Ok m
  | _, _ => Ok m
  end.

Definition freebsd2linux_sockaddr (m : mem) (linux freebsd : option ptr) : res mem :=
  match linux, freebsd with
  | Some l, Some f =>
      let* m :=
        if bool_decide (padd l 2 <> padd f 2) then
          let* len := load_u8 m f in
          bcopy m (padd f 2) (padd l 2) (u64 (len - 2))
        else Ok m in
      let* fam := load_u8 m (padd f 1) in
      store_num 2 m l (if fam =? AF_INET6 then LINUX_AF_INET6 else fam)
  | _, _ => Ok m
  end.

(** ** Control messages *)

Definition ALIGN (x : Z) : Z := Z.land (u64 (x + 7)) (Z.lnot 7).
Definition sizeof_cmsghdr : Z := 12.
Definition sizeof_linux_cmsghdr : Z := 16.

Definition CMSG_LEN (l : Z) : Z := u64 (ALIGN sizeof_cmsghdr + l).
Definition LINUX_CMSG_LEN (l : Z) : Z := u64 (ALIGN sizeof_linux_cmsghdr + l).

Definition CMSG_FIRSTHDR (control : option ptr) (controllen : Z) : option ptr :=
  if sizeof_cmsghdr <=? controllen then control else None.
Definition LINUX_CMSG_FIRSTHDR (control : option ptr) (controllen : Z) : option ptr :=
  if sizeof_linux_cmsghdr <=? controllen then control else None.

(** The header after the one at [cmsg], whose length is [len]; both pointers are
    into the same block. *)
Definition NXTHDR (hdr : Z) (control : ptr) (controllen : Z) (cmsg : ptr) (len : Z) : option ptr :=
  if control.2 + controllen <? cmsg.2 + ALIGN len + ALIGN hdr then None else Some (padd cmsg (ALIGN len)).

Definition LINUX_IP_TOS : Z := 1.
Definition LINUX_IP_TTL : Z := 2.
Definition LINUX_IPV6_PKTINFO : Z := 50.
Definition IP_TOS : Z := 3.
Definition IP_TTL : Z := 4.
Definition IP_RECVTTL : Z := 65.
Definition IP_RECVTOS : Z := 68.
Definition IPV6_PKTINFO : Z := 46.
Definition sizeof_in6_pktinfo : Z := 20.

(** One message of [freebsd2linux_cmsghdr]; [f] and [l] are the two headers,
    which may be at the same address. *)
Definition freebsd2linux_one (m : mem) (l f : ptr) : res mem :=
  let f_data := padd f (ALIGN sizeof_cmsghdr) in
  let l_data := padd l (ALIGN sizeof_linux_cmsghdr) in
  let* type := load_s32 m (padd f 8) in
  let* m := store_num 4 m (padd l 12) type in
  let* level := load_s32 m (padd f 4) in
  let* m := store_num 4 m (padd l 8) level in
  let* len := load_u32 m f in
  let* m := store_num 8 m l (LINUX_CMSG_LEN (u64 (len - ALIGN sizeof_cmsghdr))) in
  let* level := load_s32 m (padd l 8) in
  let* type := load_s32 m (padd l 12) in
  let copy m :=
    let* len := load_u64 m l in
    bcopy m f_data l_data (u64 (len - sizeof_linux_cmsghdr)) in
  if level =? IPPROTO_IP then
    if type =? IP_RECVTOS then
      let* m := store_num 4 m (padd l 12) LINUX_IP_TOS in
      let* v := load_u8 m f_data in
      store_num 1 m l_data v
    else if type =? IP_RECVTTL then
      let* m := store_num 8 m l (LINUX_CMSG_LEN 4) in
      let* m := store_num 4 m (padd l 12) LINUX_IP_TTL in
      let* v := load_u8 m f_data in
      store_num 4 m l_data v
    else copy m
  else copy m.

Fixpoint freebsd2linux_loop (fuel : nat) (m : mem) (lctl fctl : ptr) (llen flen : Z) (l f : option ptr) : res mem :=
  match fuel with
  | O => NoFuel
  | S fuel' =>
      match l, f with
      | Some l, Some f =>
          let* m := freebsd2linux_one m l f in
          let* ll := load_u64 m l in
          let* fl := load_u32 m f in
          freebsd2linux_loop fuel' m lctl fctl llen flen (NXTHDR sizeof_linux_cmsghdr lctl llen l ll)
            (NXTHDR sizeof_cmsghdr fctl flen f fl)
      | _, _ => Ok m
      end
  end.

(** The buffers of both messages are not null. *)
Definition freebsd2linux_cmsghdr (m : mem) (lctl fctl : ptr) (llen flen : Z) : res mem :=
  freebsd2linux_loop (S (Z.to_nat flen)) m lctl fctl llen flen (LINUX_CMSG_FIRSTHDR (Some lctl) llen)
    (CMSG_FIRSTHDR (Some fctl) flen).

(** One message of [linux2freebsd_cmsg]. *)
Definition linux2freebsd_one (m : mem) (l f : ptr) : res mem :=
  let f_data := padd f (ALIGN sizeof_cmsghdr) in
  let l_data := padd l (ALIGN sizeof_linux_cmsghdr) in
  let* type := load_s32 m (padd l 12) in
  let* m := store_num 4 m (padd f 8) type in
  let* level := load_s32 m (padd l 8) in
  let* m := store_num 4 m (padd f 4) level in
  let* len := load_u64 m l in
  let* m := store_num 4 m f (CMSG_LEN (u64 (len - ALIGN sizeof_linux_cmsghdr))) in
  let* level := load_s32 m (padd l 8) in
  let* type := load_s32 m (padd l 12) in
  let copy m :=
    let* len := load_u64 m l in
    bcopy m l_data f_data (u64 (len - sizeof_linux_cmsghdr)) in
  if level =? IPPROTO_IP then
    if type =? LINUX_IP_TOS then
      let* m := store_num 4 m (padd f 8) IP_TOS in
      let* m := store_num 4 m f (CMSG_LEN 1) in
      let* len := load_u64 m l in
      if len =? LINUX_CMSG_LEN 4 then
        let* v := load_s32 m l_data in
        store_num 1 m f_data v
      else if len =? LINUX_CMSG_LEN 1 then
        let* v := load_u8 m l_data in
        store_num 1 m f_data v
      else Ok m
    else if type =? LINUX_IP_TTL then
      let* m := store_num 4 m (padd f 8) IP_TTL in
      let* m := store_num 4 m f (CMSG_LEN 1) in
      let* v := load_s32 m l_data in
      store_num 1 m f_data v
    else copy m
  else if level =? IPPROTO_IPV6 then
    if type =? LINUX_IPV6_PKTINFO then
      let* m := store_num 4 m (padd f 8) IPV6_PKTINFO in
      bcopy m l_data f_data sizeof_in6_pktinfo
    else copy m
  else copy m.

Fixpoint linux2freebsd_loop (fuel : nat) (m : mem) (lctl fctl : ptr) (llen flen : Z) (l f : option ptr) : res mem :=
  match fuel with
  | O => NoFuel
  | S fuel' =>
      match l, f with
      | Some l, Some f =>
          let* m := linux2freebsd_one m l f in
          let* ll := load_u64 m l in
          let* fl := load_u32 m f in
          linux2freebsd_loop fuel' m lctl fctl llen flen (NXTHDR sizeof_linux_cmsghdr lctl llen l ll)
            (NXTHDR sizeof_cmsghdr fctl flen f fl)
      | _, _ => Ok m
      end
  end.

Definition linux2freebsd_cmsg (m : mem) (lctl fctl : ptr) (llen flen : Z) : res mem :=
  linux2freebsd_loop (S (Z.to_nat llen)) m lctl fctl llen flen (LINUX_CMSG_FIRSTHDR (Some lctl) llen)
    (CMSG_FIRSTHDR (Some fctl) flen).

(** ** Messages *)

(** Arrays of buffers have blocks of their own. *)
Record st := mkSt {
  bytes : mem;
  iovs : gmap Z (list (ptr * Z))
}.

(** [struct msghdr] and [struct linux_msghdr] *)
Record msghdr := mkMsg {
  msg_name : option ptr;
  msg_namelen : Z;
  msg_iov : Z;
  msg_iovlen : Z;
  msg_control : option ptr;
  msg_controllen : Z;
  msg_flags : Z
}.

Definition UIO_MAXIOV : Z := 1024.

(** The first [n] buffers of an array, and their replacement. *)
Definition iov_load (s : st) (b n : Z) : res (list (ptr * Z)) :=
  match iovs s !! b with
  | Some l => if n <=? Z.of_nat (length l) then Ok (take (Z.to_nat n) l) else Panic
  | None => if n =? 0 then Ok [] else Panic
  end.
Definition iov_store (s : st) (b : Z) (vs : list (ptr * Z)) : res st :=
  match iovs s !! b with
  | Some l =>
      if (length vs <=? length l)%nat then Ok (mkSt (bytes s) (<[b := vs ++ drop (length vs) l]> (iovs s))) else Panic
  | None => if (length vs =? 0)%nat then Ok s else Panic
  end.

Definition with_bytes (s : st) (m : mem) : st := mkSt m (iovs s).

(** [tmp] are [msg_iov_tmp] and [msg_iovlen_tmp], the buffers that are restored
    later. *)
Definition linux2freebsd_msghdr (s : st) (tmp : list (ptr * Z)) (linux freebsd : msghdr) (send_flag : bool)
  : res (st * list (ptr * Z) * msghdr * Z) :=
  let convert_name := bool_decide (msg_name linux <> None) && bool_decide (msg_name freebsd <> None) && send_flag in
  let* m := if convert_name then linux2freebsd_sockaddr (bytes s) (msg_name linux) (msg_namelen linux) (msg_name freebsd)
    else Ok (bytes s) in
  let s := with_bytes s m in
  let name := if convert_name then msg_name freebsd else msg_name linux in
  let freebsd := mkMsg name (msg_namelen linux) (msg_iov freebsd) (msg_iovlen freebsd) (msg_control freebsd)
    (msg_controllen freebsd) (msg_flags freebsd) in
  if UIO_MAXIOV <? msg_iovlen linux then Ok (s, tmp, freebsd, -1)
  else
    let* tmp := iov_load s (msg_iov linux) (msg_iovlen linux) in
    let flen := u32 (msg_controllen linux) in
    let* (m, control) :=
      match msg_control linux, send_flag with
      | Some lctl, true =>
          match msg_control freebsd with
          | Some fctl => let* m := linux2freebsd_cmsg (bytes s) lctl fctl (msg_controllen linux) flen in Ok (m, Some fctl)
          | None => Ok (bytes s, None)
          end
      | _, _ => Ok (bytes s, msg_control linux)
      end in
    Ok (with_bytes s m, tmp, mkMsg name (msg_namelen linux) (msg_iov linux) (s32 (msg_iovlen linux)) control flen
      (msg_flags linux), 0).

Definition freebsd2linux_msghdr (s : st) (tmp : list (ptr * Z)) (linux freebsd : msghdr) (send_flag : bool)
  : res (st * msghdr) :=
  let convert_name := bool_decide (msg_name linux <> None) && bool_decide (msg_name freebsd <> None) && negb send_flag in
  let* m := if convert_name then freebsd2linux_sockaddr (bytes s) (msg_name freebsd) (msg_name freebsd) else Ok (bytes s) in
  let s := with_bytes s m in
  let* s := iov_store s (msg_iov freebsd) tmp in
  let* (m, clen) :=
    match msg_control freebsd, msg_control linux, send_flag with
    | Some fctl, Some lctl, false =>
        let* m := freebsd2linux_cmsghdr (bytes s) lctl fctl (msg_controllen linux) (msg_controllen freebsd) in
        Ok (m, msg_controllen freebsd)
    | _, _, _ => Ok (bytes s, msg_controllen linux)
    end in
  Ok (with_bytes s m, mkMsg (if convert_name then msg_name freebsd else msg_name linux)
    (if convert_name then msg_namelen freebsd else msg_namelen linux) (msg_iov freebsd) (msg_iovlen freebsd)
    (msg_control linux) clen (msg_flags freebsd)).

(** ** The functions of the interface *)

Section Api.
Context {K : Type}.
(** The kernel: a number of [errno], 0 for success, and [td_retval[0]]. *)
Variable sendit : K -> st -> Z -> msghdr -> Z -> K * st * msghdr * Z * Z.
Variable kern_recvit : K -> st -> Z -> msghdr -> K * st * msghdr * Z * Z.
Variable sys_socket : K -> Z -> Z -> Z -> K * Z * Z.
(** The address of the peer is written to the buffer. *)
Variable kern_accept : K -> Z -> Z -> K * list Z * Z * Z.
Variable kern_getname : bool -> K -> Z -> K * list Z * Z.
Variable kern_bindat : K -> Z -> list Z -> K * Z.
Variable kern_connectat : K -> Z -> list Z -> K * Z.
Variable kern_getsockopt : K -> Z -> Z -> Z -> K * Z.
Variable kern_setsockopt : K -> Z -> Z -> Z -> K * Z.
Variable kern_fcntl : K -> Z -> Z -> Z -> K * Z * Z.
Variable kern_ioctl : K -> Z -> Z -> K * Z.

(** A local [struct sockaddr_storage]: a fresh block and what is in it before. *)
Variable stk : Z.
Variable junk : list Z.

(** What a call returns and, if it fails, the number given to [ff_os_errno]. *)
Definition fail {A} (a : A) (rc : Z) : res (A * Z * option Z) := Ok (a, -1, Some rc).
Definition ret {A} (a : A) (v : Z) : res (A * Z * option Z) := Ok (a, v, None).

Definition ff_socket (k : K) (domain type protocol : Z) : res (K * Z * option Z) :=
  let '(k, rc, fd) := sys_socket k (if domain =? LINUX_AF_INET6 then AF_INET6 else domain)
    (linux2freebsd_socket_flags type) protocol in
  if negb (rc =? 0) then fail k rc else ret k fd.

Definition sockopt_level (level : Z) : Z := if level =? LINUX_SOL_SOCKET then SOL_SOCKET else level.

(** The third result is the value of the option if it is not the kernel's. *)
Definition ff_getsockopt (k : K) (s level optname : Z) (optlen : option Z) : res (K * option Z * Z * option Z) :=
  let level := sockopt_level level in
  if (level =? IPPROTO_IP) && (optname =? LINUX_IP_BIND_ADDRESS_NO_PORT) then
    ret (k, match optlen with Some n => if 4 <=? n then Some 1 else None | None => None end) 0
  else
    let optname := linux2freebsd_opt level optname in
    if optname <? 0 then fail (k, None) EINVAL
    else
      let '(k, rc) := kern_getsockopt k s level optname in
      if negb (rc =? 0) then fail (k, None) rc else ret (k, None) rc.

Definition ff_setsockopt (k : K) (s level optname : Z) : res (K * Z * option Z) :=
  let level := sockopt_level level in
  if (level =? IPPROTO_IP) && (optname =? LINUX_IP_BIND_ADDRESS_NO_PORT) then ret k 0
  else
    let optname := linux2freebsd_opt level optname in
    if optname <? 0 then fail k EINVAL
    else
      let '(k, rc) := kern_setsockopt k s level optname in
      if negb (rc =? 0) then fail k rc else ret k rc.

Definition ff_ioctl (k : K) (fd request : Z) : res (K * Z * option Z) :=
  let req := linux2freebsd_ioctl request in
  if req <? 0 then fail k EINVAL
  else
    let '(k, rc) := kern_ioctl k fd req in
    if negb (rc =? 0) then fail k rc else ret k rc.

Definition ff_fcntl (k : K) (fd cmd argp : Z) : res (K * Z * option Z) :=
  let '(cmd, argp) := linux2freebsd_fcntl cmd argp in
  let '(k, rc, v) := kern_fcntl k fd cmd argp in
  if negb (rc =? 0) then fail k rc else ret k (freebsd2linux_fcntl cmd v).

(** The address that the kernel wrote, for the caller, with its length. *)
Definition copy_name (m : mem) (sa : list Z) (addr : option ptr) : res (mem * Z) :=
  let* m := store (<[stk := junk]> m) (stk, 0) sa in
  let* m := freebsd2linux_sockaddr m addr (Some (stk, 0)) in
  let* len := load_u8 m (stk, 0) in
  Ok (delete stk m, len).

(** [ff_accept] is [ff_accept4] without flags. *)
Definition ff_accept4 (k : K) (m : mem) (s : Z) (addr : option ptr) (addrlen : Z) (flags : Z)
  : res (K * mem * Z * Z * option Z) :=
  let '(k, sa, rc, fd) := kern_accept k s (linux2freebsd_socket_flags flags) in
  if negb (rc =? 0) then fail (k, m, addrlen) rc
  else
    let* (m, len) := copy_name m sa addr in
    ret (k, m, len) fd.

Definition ff_accept (k : K) (m : mem) (s : Z) (addr : option ptr) (addrlen : Z) : res (K * mem * Z * Z * option Z) :=
  let '(k, sa, rc, fd) := kern_accept k s 0 in
  if negb (rc =? 0) then fail (k, m, addrlen) rc
  else
    let* (m, len) := copy_name m sa addr in
    ret (k, m, len) fd.

Definition ff_getname (peer : bool) (k : K) (m : mem) (s : Z) (name : option ptr) (namelen : Z)
  : res (K * mem * Z * Z * option Z) :=
  let '(k, sa, rc) := kern_getname peer k s in
  if negb (rc =? 0) then fail (k, m, namelen) rc
  else
    let* (m, len) := copy_name m sa name in
    ret (k, m, len) rc.

Definition ff_getpeername := ff_getname true.
Definition ff_getsockname := ff_getname false.

Definition ff_bind (k : K) (m : mem) (s : Z) (addr : option ptr) (addrlen : Z) : res (K * mem * Z * option Z) :=
  let* m := linux2freebsd_sockaddr (<[stk := junk]> m) addr addrlen (Some (stk, 0)) in
  let* sa := load m (stk, 0) 128 in
  let '(k, rc) := kern_bindat k s sa in
  if negb (rc =? 0) then fail (k, delete stk m) rc else ret (k, delete stk m) rc.

Definition ff_connect (k : K) (m : mem) (s : Z) (name : option ptr) (namelen : Z) : res (K * mem * Z * option Z) :=
  let* m := linux2freebsd_sockaddr (<[stk := junk]> m) name namelen (Some (stk, 0)) in
  let* sa := load m (stk, 0) 128 in
  let '(k, rc) := kern_connectat k s sa in
  if negb (rc =? 0) then fail (k, delete stk m) rc else ret (k, delete stk m) rc.

Definition with_stk (s : st) : st := with_bytes s (<[stk := junk]> (bytes s)).
Definition without_stk (s : st) : st := with_bytes s (delete stk (bytes s)).

(** A local array with one buffer. *)
Variable aiov : Z.

Definition ff_sendto (k : K) (st : st) (s : Z) (buf : ptr) (len flags : Z) (to : option ptr) (tolen : Z)
  : res (K * SockConv.st * Z * option Z) :=
  let st := with_stk st in
  let* m := linux2freebsd_sockaddr (bytes st) to tolen (Some (stk, 0)) in
  let name := match to with Some _ => Some (stk, 0) | None => None end in
  let st := mkSt m (<[aiov := [(buf, len)]]> (iovs st)) in
  let '(k, st, _, rc, v) := sendit k st s (mkMsg name tolen aiov 1 None 0 0) flags in
  let st := mkSt (delete stk (bytes st)) (delete aiov (iovs st)) in
  if negb (rc =? 0) then fail (k, st) rc else ret (k, st) v.

Definition ff_send (k : K) (st : st) (s : Z) (buf : ptr) (len flags : Z) : res (K * SockConv.st * Z * option Z) :=
  ff_sendto k st s buf len flags None 0.

(** [fromlen] is what it points to, if it is not null. *)
Definition ff_recvfrom (k : K) (st : st) (s : Z) (buf : ptr) (len flags : Z) (from : option ptr) (fromlen : option Z)
  : res (K * SockConv.st * option Z * Z * option Z) :=
  let st := with_stk st in
  let st := mkSt (bytes st) (<[aiov := [(buf, len)]]> (iovs st)) in
  let '(k, st, msg, rc, v) := kern_recvit k st s (mkMsg (Some (stk, 0)) (default 0 fromlen) aiov 1 None 0 flags) in
  if negb (rc =? 0) then fail (k, mkSt (delete stk (bytes st)) (delete aiov (iovs st)), fromlen) rc
  else
    let* m := match from with
      | Some _ => if negb (msg_namelen msg =? 0) then freebsd2linux_sockaddr (bytes st) from (Some (stk, 0)) else Ok (bytes st)
      | None => Ok (bytes st)
      end in
    ret (k, mkSt (delete stk m) (delete aiov (iovs st)),
      match fromlen with Some _ => Some (msg_namelen msg) | None => None end) v.

Definition ff_recv (k : K) (st : st) (s : Z) (buf : ptr) (len flags : Z) : res (K * SockConv.st * option Z * Z * option Z) :=
  ff_recvfrom k st s buf len flags None None.

(** [malloc] gives a fresh block with something in it, or nothing. *)
Variable malloc : st -> Z -> option (Z * list Z).

Definition free_cmsg (s : st) (c : option ptr) : st :=
  match c with Some (b, _) => with_bytes s (delete b (bytes s)) | None => s end.

Definition ff_sendmsg (k : K) (st : st) (tmp : list (ptr * Z)) (s : Z) (msg : msghdr) (flags : Z)
  : res (K * SockConv.st * list (ptr * Z) * msghdr * Z * option Z) :=
  let st := with_stk st in
  let* (st, cmsg, ok) :=
    match msg_control msg with
    | Some _ =>
        match malloc st (msg_controllen msg) with
        | Some (b, bs) => Ok (with_bytes st (<[b := bs]> (bytes st)), Some (b, 0), true)
        | None => Ok (st, None, false)
        end
    | None => Ok (st, None, true)
    end in
  if negb ok then fail (k, without_stk st, tmp, msg) ENOMEM
  else
    let* (st, tmp, fmsg, r) := linux2freebsd_msghdr st tmp msg (mkMsg (Some (stk, 0)) 0 0 0 cmsg 0 0) true in
    if r <? 0 then fail (k, without_stk (free_cmsg st cmsg), tmp, msg) EINVAL
    else
      let '(k, st, fmsg, rc, v) := sendit k st s fmsg flags in
      if negb (rc =? 0) then fail (k, without_stk (free_cmsg st cmsg), tmp, msg) rc
      else
        let* (st, msg) := freebsd2linux_msghdr st tmp msg fmsg true in
        ret (k, without_stk (free_cmsg st cmsg), tmp, msg) v.

Definition ff_recvmsg (k : K) (st : st) (tmp : list (ptr * Z)) (s : Z) (msg : msghdr) (flags : Z)
  : res (K * SockConv.st * list (ptr * Z) * msghdr * Z * option Z) :=
  let* (st, tmp, fmsg, r) := linux2freebsd_msghdr st tmp msg (mkMsg None 0 0 0 None 0 0) false in
  if r <? 0 then fail (k, st, tmp, msg) EINVAL
  else
    let fmsg := mkMsg (msg_name fmsg) (msg_namelen fmsg) (msg_iov fmsg) (msg_iovlen fmsg) (msg_control fmsg)
      (msg_controllen fmsg) flags in
    let '(k, st, fmsg, rc, v) := kern_recvit k st s fmsg in
    if negb (rc =? 0) then fail (k, st, tmp, msg) rc
    else
      let* (st, msg) := freebsd2linux_msghdr st tmp msg fmsg false in
      ret (k, st, tmp, msg) v.
End Api.
End SockConv.
