(* ===== verification/SockConvProofs.v ===== *)
(** * The socket interface: proofs

    Memory first: what is read back is what was written.  Then addresses, flags
    and options, and control messages, whose layouts ([fb_slot], [lx_slot]) are
    converted one into the other, on the way in at the same place. *)

From S2P Require Import Prelude SockConv.
Import SockConv.

(** ** Numbers in memory *)

Definition byte (b : Z) : Prop := 0 <= b < 256.

Lemma length_to_bytes n z : length (to_bytes n z) = n.
Proof. revert z. induction n as [|n IH]; intros z; cbn [to_bytes length]; [done|]. by rewrite IH. Qed.

Lemma of_to_bytes n z : of_bytes (to_bytes n z) = z mod 256 ^ Z.of_nat n.
Proof.
  revert z. induction n as [|n IH]; intros z; cbn [to_bytes of_bytes]; [by rewrite Z.mod_1_r|].
  rewrite IH, Nat2Z.inj_succ, Z.pow_succ_r by lia. rewrite Z.rem_mul_r by lia. lia.
Qed.

Lemma s32_of_to_bytes z : - 2 ^ 31 <= z < 2 ^ 31 -> s32 (of_bytes (to_bytes 4 z)) = z.
Proof.
  intros Hz. rewrite of_to_bytes. change (256 ^ Z.of_nat 4) with (2 ^ 32). change (z mod 2 ^ 32) with (u32 z).
  destruct (u32_spec z) as (k & Ek & Hk). destruct (s32_spec (u32 z)) as (j & Ej & Hj). lia.
Qed.

(** ** Memory *)

(** A part [xs] of a block, at its place. *)
Definition at_block (m : mem) (b : Z) (pre xs post : list Z) : Prop := m !! b = Some (pre ++ xs ++ post).

Section Slot.
Context (m : mem) (b : Z) (pre xs post : list Z).

Lemma load_slot k n : at_block m b pre xs post -> 0 <= k -> 0 <= n -> k + n <= Z.of_nat (length xs) ->
  load m (b, Z.of_nat (length pre) + k) n = Ok (take (Z.to_nat n) (drop (Z.to_nat k) xs)).
Proof.
  intros Hb Hk Hn Hl. unfold load. cbn [fst snd]. rewrite Hb.
  rewrite !(proj2 (Z.leb_le _ _)) by (rewrite ?length_app; lia). cbn [andb]. f_equal.
  replace (Z.to_nat (Z.of_nat (length pre) + k)) with (length pre + Z.to_nat k)%nat by lia.
  rewrite <-drop_drop, drop_app_length. rewrite drop_app_le, take_app_le by (rewrite ?length_drop; lia). done.
Qed.

(** [xs] with [vs] written at [k]. *)
Definition splice (k : Z) (vs xs : list Z) : list Z :=
  take (Z.to_nat k) xs ++ vs ++ drop (Z.to_nat k + length vs) xs.

Lemma store_slot k vs : at_block m b pre xs post -> 0 <= k -> k + Z.of_nat (length vs) <= Z.of_nat (length xs) ->
  store m (b, Z.of_nat (length pre) + k) vs = Ok (<[b := pre ++ splice k vs xs ++ post]> m).
Proof.
  intros Hb Hk Hl. unfold store, splice. cbn [fst snd]. rewrite Hb.
  rewrite !(proj2 (Z.leb_le _ _)) by (rewrite ?length_app; lia). cbn [andb]. do 2 f_equal.
  replace (Z.to_nat (Z.of_nat (length pre) + k)) with (length pre + Z.to_nat k)%nat by lia.
  rewrite take_app_add', take_app_le by lia. rewrite <-!app_assoc. do 3 f_equal.
  replace (length pre + Z.to_nat k + length vs)%nat with (length pre + (Z.to_nat k + length vs))%nat by lia.
  rewrite <-drop_drop, drop_app_length. rewrite drop_app_le by lia. done.
Qed.
End Slot.

Lemma at_block_insert m b pre xs post : at_block (<[b := pre ++ xs ++ post]> m) b pre xs post.
Proof. apply lookup_insert_eq. Qed.

Lemma ALIGN_spec x : 0 <= x < 2 ^ 63 -> ALIGN x = (x + 7) / 8 * 8.
Proof.
  intros Hx. unfold ALIGN. rewrite wrapu_small by lia. change 7 with (Z.ones 3) at 2.
  rewrite <-Z.ldiff_land, Z.ldiff_ones_r, Z.shiftl_mul_pow2, Z.shiftr_div_pow2 by lia. done.
Qed.

(** ** Addresses *)

(** An address of Linux with family [fam], and the address of FreeBSD for it. *)
Definition lx_addr (fam : Z) (data : list Z) : list Z := fam :: 0 :: data.
Definition fb_family (fam : Z) : Z := if fam =? LINUX_AF_INET6 then AF_INET6 else fam.
Definition fb_addr (fam : Z) (data : list Z) : list Z := (2 + Z.of_nat (length data)) :: fb_family fam :: data.

(** The families that have a number of their own in FreeBSD. *)
Definition family_ok (fam : Z) : Prop := 0 <= fam < 256 /\ fam <> AF_INET6.

Lemma fb_family_range fam : 0 <= fam < 256 -> 0 <= fb_family fam < 256.
Proof. unfold fb_family, AF_INET6. intros. destruct (fam =? _); lia. Qed.

Lemma fb_family_back fam : family_ok fam -> (if fb_family fam =? AF_INET6 then LINUX_AF_INET6 else fb_family fam) = fam.
Proof.
  intros [Hf Hne]. unfold fb_family. destruct (Z.eqb_spec fam LINUX_AF_INET6) as [->|]; [done|].
  by rewrite (proj2 (Z.eqb_neq _ _)).
Qed.

Lemma to_bytes_1 z : 0 <= z < 256 -> to_bytes 1 z = [z].
Proof. intros. cbn. by rewrite Z.mod_small. Qed.

Lemma to_bytes_2 z : 0 <= z < 256 -> to_bytes 2 z = [z; 0].
Proof. intros. cbn. by rewrite Z.mod_small, Z.div_small. Qed.

(** Accesses at the start of a part of a block. *)
Lemma load_at m b pre xs ys post n : at_block m b pre (xs ++ ys) post -> n = Z.of_nat (length xs) ->
  load m (b, Z.of_nat (length pre)) n = Ok xs.
Proof.
  intros Hb ->. rewrite <-(Z.add_0_r (Z.of_nat (length pre))). rewrite (load_slot _ _ _ _ _ 0 _ Hb) by (rewrite ?length_app; lia).
  change (Z.to_nat 0) with 0%nat. rewrite drop_0, Nat2Z.id. by rewrite take_app_length.
Qed.

Lemma store_at m b pre xs ys post vs : at_block m b pre (xs ++ ys) post -> length vs = length xs ->
  store m (b, Z.of_nat (length pre)) vs = Ok (<[b := pre ++ (vs ++ ys) ++ post]> m).
Proof.
  intros Hb Hl. rewrite <-(Z.add_0_r (Z.of_nat (length pre))). rewrite (store_slot _ _ _ _ _ 0 _ Hb) by (rewrite ?length_app; lia).
  unfold splice. change (Z.to_nat 0) with 0%nat. cbn [take app Nat.add]. by rewrite Hl, drop_app_length.
Qed.

(** The same part, split at another place. *)
Lemma at_block_split m b pre xs ys post : at_block m b pre (xs ++ ys) post -> at_block m b (pre ++ xs) ys post.
Proof. unfold at_block. by rewrite <-!app_assoc. Qed.
Lemma padd_length b (pre : list Z) xs k : k = Z.of_nat (length xs) ->
  padd (b, Z.of_nat (length pre)) k = (b, Z.of_nat (length (pre ++ xs))).
Proof. intros ->. unfold padd. cbn. by rewrite length_app, Nat2Z.inj_add. Qed.

(** Into another block [fb], which has room for it. *)
Lemma linux2freebsd_sockaddr_spec m lb lpre fam data lpost fb old :
  at_block m lb lpre (lx_addr fam data) lpost -> m !! fb = Some old -> fb <> lb ->
  0 <= fam < 256 -> Z.of_nat (length data) + 2 < 256 -> (length data + 2 <= length old)%nat ->
  linux2freebsd_sockaddr m (Some (lb, Z.of_nat (length lpre))) (Z.of_nat (length data) + 2) (Some (fb, 0)) =
    Ok (<[fb := fb_addr fam data ++ drop (length data + 2) old]> m).
Proof.
  intros Hl Hf Hne Hfam Hlen Hroom. unfold linux2freebsd_sockaddr, load_s16, store_num.
  rewrite (load_at _ _ _ [fam; 0] data lpost 2 Hl) by done. cbn [res_bind of_bytes].
  rewrite Z.mul_0_r, Z.add_0_r, (wraps_small 16) by lia. fold (fb_family fam).
  destruct old as [|o0 [|o1 old]]; [cbn in Hroom; lia..|].
  rewrite to_bytes_1 by (by apply fb_family_range). rewrite to_bytes_1 by lia.
  change (padd (fb, 0) 1) with (fb, Z.of_nat (length [o0])).
  rewrite (store_at m fb [o0] [o1] old []); [|unfold at_block; by rewrite app_nil_r|done]. cbn [res_bind].
  change (fb, 0) with (fb, Z.of_nat (length (@nil Z))).
  rewrite (store_at _ fb [] [o0] (fb_family fam :: old) []); [|unfold at_block; rewrite lookup_insert_eq; done|done].
  cbn [res_bind]. rewrite bool_decide_eq_true_2 by (unfold padd; cbn; congruence). rewrite insert_insert_eq.
  set (m2 := <[fb := _]> m). assert (at_block m2 lb (lpre ++ [fam; 0]) (data ++ []) lpost) as Hl2.
  { unfold at_block, m2. rewrite lookup_insert_ne, app_nil_r, <-app_assoc by done. apply Hl. }
  unfold bcopy. rewrite (padd_length lb lpre [fam; 0] 2), (wrapu_small 64) by (done || lia).
  rewrite (load_at _ _ _ _ _ _ _ Hl2) by lia. cbn [res_bind].
  change (padd (fb, Z.of_nat (length [])) 2) with (fb, Z.of_nat (length [o0; o1])).
  rewrite (store_at m2 fb [Z.of_nat (length data) + 2; fb_family fam] (take (length data) old) (drop (length data) old) []).
  - unfold m2. rewrite insert_insert_eq. do 2 f_equal. cbn. rewrite app_nil_r. unfold fb_addr. cbn [app].
    replace (length data + 2)%nat with (S (S (length data))) by lia. cbn [drop]. f_equal; lia.
  - unfold at_block, m2. rewrite lookup_insert_eq, take_drop. done.
  - rewrite length_take. cbn in Hroom. lia.
Qed.

Lemma load_u8_at m b pre x ys post : at_block m b pre (x :: ys) post -> load_u8 m (b, Z.of_nat (length pre)) = Ok x.
Proof. intros Hb. unfold load_u8. rewrite (load_at _ _ _ [x] ys post 1 Hb) by done. cbn. by rewrite Z.add_0_r. Qed.

Lemma freebsd2linux_sockaddr_spec m lb lpre old lpost fb fam data rest :
  at_block m lb lpre old lpost -> m !! fb = Some (fb_addr fam data ++ rest) -> fb <> lb ->
  family_ok fam -> Z.of_nat (length data) + 2 < 256 -> length old = (2 + length data)%nat ->
  freebsd2linux_sockaddr m (Some (lb, Z.of_nat (length lpre))) (Some (fb, 0)) =
    Ok (<[lb := lpre ++ lx_addr fam data ++ lpost]> m).
Proof.
  intros Hl Hf Hne Hfam Hmax Hlen. unfold freebsd2linux_sockaddr, store_num.
  destruct old as [|o0 [|o1 old]]; [cbn in Hlen; lia..|]. cbn [length] in Hlen.
  assert (at_block m fb [] (fb_addr fam data ++ rest) []) as Hf' by (unfold at_block; by rewrite app_nil_r).
  rewrite bool_decide_eq_true_2 by (unfold padd; cbn; congruence). change (fb, 0) with (fb, Z.of_nat (length (@nil Z))).
  rewrite (load_u8_at _ _ _ _ _ _ Hf'). cbn [res_bind]. unfold bcopy.
  change (padd (fb, Z.of_nat (length [])) 2) with (fb, Z.of_nat (length [2 + Z.of_nat (length data); fb_family fam])).
  rewrite (load_at m fb _ data rest []); [|unfold at_block; by rewrite app_nil_r|rewrite (wrapu_small 64); lia]. cbn [res_bind].
  rewrite (padd_length lb lpre [o0; o1] 2) by done.
  rewrite (store_at m lb (lpre ++ [o0; o1]) old [] lpost); [|unfold at_block in *; by rewrite app_nil_r, <-app_assoc|lia].
  cbn [res_bind]. rewrite app_nil_r. set (m2 := <[lb := _]> m).
  change (padd (fb, Z.of_nat (length [])) 1) with (fb, Z.of_nat (length [2 + Z.of_nat (length data)])).
  rewrite (load_u8_at m2 fb _ (fb_family fam) (data ++ rest) []).
  2: { unfold at_block, m2. rewrite lookup_insert_ne, app_nil_r by done. done. }
  cbn [res_bind]. rewrite fb_family_back, to_bytes_2 by (done || apply Hfam).
  rewrite (store_at m2 lb lpre [o0; o1] data lpost); [|unfold at_block, m2; by rewrite lookup_insert_eq, <-!app_assoc|done].
  unfold m2. by rewrite insert_insert_eq.
Qed.

(** At the same place. *)
Lemma freebsd2linux_sockaddr_inplace m b pre fam data post :
  at_block m b pre (fb_addr fam data) post -> family_ok fam ->
  freebsd2linux_sockaddr m (Some (b, Z.of_nat (length pre))) (Some (b, Z.of_nat (length pre))) =
    Ok (<[b := pre ++ lx_addr fam data ++ post]> m).
Proof.
  intros Hb Hfam. unfold freebsd2linux_sockaddr, store_num. rewrite bool_decide_eq_false_2 by (intros Hn; by apply Hn).
  cbn [res_bind]. rewrite (padd_length b pre [2 + Z.of_nat (length data)] 1) by done.
  rewrite (load_u8_at m b _ (fb_family fam) data post) by (unfold at_block in *; by rewrite <-app_assoc). cbn [res_bind].
  rewrite fb_family_back, to_bytes_2 by (done || apply Hfam).
  by rewrite (store_at m b pre [2 + Z.of_nat (length data); fb_family fam] data post).
Qed.

(** ** Control messages *)

Record cmsg := mkC {
  c_level : Z;
  c_type : Z;
  c_data : list Z
}.

Definition cmsg_len (c : cmsg) : Z := 16 + Z.of_nat (length (c_data c)).

Definition cmsg_ok (c : cmsg) : Prop :=
  - 2 ^ 31 <= c_level c < 2 ^ 31 /\ - 2 ^ 31 <= c_type c < 2 ^ 31 /\ Forall byte (c_data c) /\ cmsg_len c < 2 ^ 31.

(** The two layouts; [rest] starts with the data and fills up the place of the
    message, which is a multiple of 8 bytes. *)
Definition fb_slot (c : cmsg) (xs : list Z) : Prop := exists pad rest,
  xs = to_bytes 4 (cmsg_len c) ++ to_bytes 4 (c_level c) ++ to_bytes 4 (c_type c) ++ pad ++ c_data c ++ rest /\
  length pad = 4%nat /\ Z.of_nat (length xs) = ALIGN (cmsg_len c).
Definition lx_slot (c : cmsg) (xs : list Z) : Prop := exists rest,
  xs = to_bytes 8 (cmsg_len c) ++ to_bytes 4 (c_level c) ++ to_bytes 4 (c_type c) ++ c_data c ++ rest /\
  Z.of_nat (length xs) = ALIGN (cmsg_len c).

Section Mid.
Context (m : mem) (b : Z) (pre : list Z) (xs ys zs post : list Z).

Lemma load_mid k n : at_block m b pre (xs ++ ys ++ zs) post -> k = Z.of_nat (length xs) -> n = Z.of_nat (length ys) ->
  load m (padd (b, Z.of_nat (length pre)) k) n = Ok ys.
Proof.
  intros Hb -> ->. rewrite (padd_length b pre xs) by done. eapply load_at; [|done]. apply at_block_split, Hb.
Qed.

Lemma store_mid k vs : at_block m b pre (xs ++ ys ++ zs) post -> k = Z.of_nat (length xs) -> length vs = length ys ->
  store m (padd (b, Z.of_nat (length pre)) k) vs = Ok (<[b := pre ++ (xs ++ vs ++ zs) ++ post]> m).
Proof.
  intros Hb -> Hl. rewrite (padd_length b pre xs) by done.
  rewrite (store_at m b (pre ++ xs) ys zs post vs); [|apply at_block_split, Hb|done]. by rewrite <-!app_assoc.
Qed.
End Mid.

Lemma load_s32_mid m b pre xs z zs post k : at_block m b pre (xs ++ to_bytes 4 z ++ zs) post -> k = Z.of_nat (length xs) ->
  - 2 ^ 31 <= z < 2 ^ 31 -> load_s32 m (padd (b, Z.of_nat (length pre)) k) = Ok z.
Proof.
  intros Hb Hk Hz. unfold load_s32. rewrite (load_mid _ _ _ _ _ _ _ k 4 Hb Hk) by (by rewrite length_to_bytes). cbn [res_bind].
  by rewrite s32_of_to_bytes.
Qed.

Lemma load_u32_at m b pre z zs post : at_block m b pre (to_bytes 4 z ++ zs) post -> 0 <= z < 2 ^ 32 ->
  load_u32 m (b, Z.of_nat (length pre)) = Ok z.
Proof.
  intros Hb Hz. unfold load_u32. rewrite (load_at _ _ _ _ _ _ 4 Hb) by (by rewrite length_to_bytes). cbn [res_bind].
  rewrite of_to_bytes, Z.mod_small; [done|]. exact Hz.
Qed.

Lemma load_u64_at m b pre z zs post : at_block m b pre (to_bytes 8 z ++ zs) post -> 0 <= z < 2 ^ 64 ->
  load_u64 m (b, Z.of_nat (length pre)) = Ok z.
Proof.
  intros Hb Hz. unfold load_u64. rewrite (load_at _ _ _ _ _ _ 8 Hb) by (by rewrite length_to_bytes). cbn [res_bind].
  rewrite of_to_bytes, Z.mod_small; [done|]. exact Hz.
Qed.

(** The header of FreeBSD becomes the one of Linux, at the same place. *)
Lemma header_inplace m b pre c pad rest post : cmsg_ok c -> length pad = 4%nat ->
  at_block m b pre (to_bytes 4 (cmsg_len c) ++ to_bytes 4 (c_level c) ++ to_bytes 4 (c_type c) ++ pad ++ rest) post ->
  let p := (b, Z.of_nat (length pre)) in
  let m' := <[b := pre ++ (to_bytes 8 (cmsg_len c) ++ to_bytes 4 (c_level c) ++ to_bytes 4 (c_type c) ++ rest) ++ post]> m in
  forall A (k : Z -> Z -> mem -> res A),
  (let* type := load_s32 m (padd p 8) in
   let* m := store_num 4 m (padd p 12) type in
   let* level := load_s32 m (padd p 4) in
   let* m := store_num 4 m (padd p 8) level in
   let* len := load_u32 m p in
   let* m := store_num 8 m p (LINUX_CMSG_LEN (u64 (len - ALIGN sizeof_cmsghdr))) in
   let* level := load_s32 m (padd p 8) in
   let* type := load_s32 m (padd p 12) in
   k level type m) = k (c_level c) (c_type c) m'.
Proof.
  intros (Hlv & Hty & Hd & Hlen) Hpad Hb p m' A k. unfold store_num. subst p.
  set (L4 := to_bytes 4 (cmsg_len c)) in *. set (V := to_bytes 4 (c_level c)) in *. set (T := to_bytes 4 (c_type c)) in *.
  assert (length L4 = 4%nat /\ length V = 4%nat /\ length T = 4%nat) as (HL & HV & HT) by (unfold L4, V, T; by rewrite !length_to_bytes).
  assert (0 <= cmsg_len c) as H0 by (unfold cmsg_len; lia).
  rewrite (load_s32_mid m b pre (L4 ++ V) (c_type c) (pad ++ rest) post 8); [|by rewrite <-app_assoc|rewrite length_app; lia|done].
  cbn [res_bind]. fold T.
  rewrite (store_mid m b pre (L4 ++ V ++ T) pad rest post 12 T); [|by rewrite <-!app_assoc|rewrite !length_app; lia|lia].
  cbn [res_bind]. rewrite (load_s32_mid _ b pre L4 (c_level c) (T ++ T ++ rest) post 4);
    [|unfold at_block; by rewrite lookup_insert_eq, <-!app_assoc|lia|done]. cbn [res_bind]. fold V.
  rewrite (store_mid _ b pre (L4 ++ V) T (T ++ rest) post 8 V);
    [|unfold at_block; by rewrite lookup_insert_eq, <-!app_assoc|rewrite length_app; lia|lia].
  cbn [res_bind]. rewrite insert_insert_eq.
  rewrite (load_u32_at _ b pre (cmsg_len c) (V ++ V ++ T ++ rest) post);
    [|unfold at_block; by rewrite lookup_insert_eq, <-!app_assoc|lia]. cbn [res_bind].
  replace (LINUX_CMSG_LEN (u64 (cmsg_len c - ALIGN sizeof_cmsghdr))) with (cmsg_len c).
  2: { change (ALIGN sizeof_cmsghdr) with 16. unfold LINUX_CMSG_LEN. change (ALIGN sizeof_linux_cmsghdr) with 16.
    unfold cmsg_len in *. rewrite (wrapu_small 64 (16 + _ - 16)), wrapu_small by lia. lia. }
  rewrite (store_at _ b pre (L4 ++ V) (V ++ T ++ rest) post (to_bytes 8 (cmsg_len c)));
    [|unfold at_block; by rewrite lookup_insert_eq, <-!app_assoc|rewrite length_to_bytes, length_app; lia].
  cbn [res_bind]. rewrite insert_insert_eq. fold m'.
  rewrite (load_s32_mid m' b pre (to_bytes 8 (cmsg_len c)) (c_level c) (T ++ rest) post 8);
    [|apply lookup_insert_eq|by rewrite length_to_bytes|done]. cbn [res_bind].
  rewrite (load_s32_mid m' b pre (to_bytes 8 (cmsg_len c) ++ V) (c_type c) rest post 12);
    [done|unfold at_block, m'; by rewrite lookup_insert_eq, <-!app_assoc|rewrite length_app, length_to_bytes; lia|done].
Qed.

(** What becomes of a message that is received. *)
Definition recv_conv (c : cmsg) : cmsg :=
  if (c_level c =? IPPROTO_IP) && (c_type c =? IP_RECVTOS) then mkC IPPROTO_IP LINUX_IP_TOS (c_data c)
  else if (c_level c =? IPPROTO_IP) && (c_type c =? IP_RECVTTL) then mkC IPPROTO_IP LINUX_IP_TTL (c_data c ++ [0; 0; 0])
  else c.

(** The kernel sends the type of service and the time to live as one byte. *)
Definition recv_wf (c : cmsg) : Prop :=
  cmsg_ok c /\ (c_level c = IPPROTO_IP -> c_type c = IP_RECVTOS \/ c_type c = IP_RECVTTL -> length (c_data c) = 1%nat).

Lemma ALIGN_mono x : 0 <= x < 2 ^ 62 -> x <= ALIGN x < x + 8.
Proof.
  intros Hx. rewrite ALIGN_spec by lia. pose proof (Z.div_mod (x + 7) 8). pose proof (Z.mod_pos_bound (x + 7) 8). lia.
Qed.

Lemma list_length_1 {A} (l : list A) : length l = 1%nat -> exists x, l = [x].
Proof. destruct l as [|x [|]]; [done|by exists x|done]. Qed.

Lemma copy_inplace m b pre n V T D rest post : 16 + Z.of_nat (length D) = n -> n < 2 ^ 31 -> length V = 4%nat -> length T = 4%nat ->
  at_block m b pre (to_bytes 8 n ++ V ++ T ++ D ++ rest) post ->
  (let* len := load_u64 m (b, Z.of_nat (length pre)) in
   bcopy m (padd (b, Z.of_nat (length pre)) 16) (padd (b, Z.of_nat (length pre)) 16) (u64 (len - sizeof_linux_cmsghdr))) = Ok m.
Proof.
  intros Hn Hmax HV HT Hb. rewrite (load_u64_at _ _ _ _ _ _ Hb) by lia. cbn [res_bind]. unfold bcopy, sizeof_linux_cmsghdr.
  assert (at_block m b pre ((to_bytes 8 n ++ V ++ T) ++ D ++ rest) post) as Hb' by (by rewrite <-!app_assoc).
  assert (16 = Z.of_nat (length (to_bytes 8 n ++ V ++ T))) as H16 by (rewrite !length_app, length_to_bytes; lia).
  rewrite (load_mid _ _ _ _ _ _ _ 16 _ Hb' H16) by (rewrite (wrapu_small 64) by lia; lia). cbn [res_bind].
  rewrite (store_mid _ _ _ _ _ _ _ 16 D Hb' H16) by done. by rewrite insert_id.
Qed.

(** The type of service: the type changes, the byte stays. *)
Lemma tos_inplace m b pre n V T d rest post ty : length V = 4%nat -> length T = 4%nat -> byte d ->
  at_block m b pre (to_bytes 8 n ++ V ++ T ++ d :: rest) post ->
  (let* m := store_num 4 m (padd (b, Z.of_nat (length pre)) 12) ty in
   let* v := load_u8 m (padd (b, Z.of_nat (length pre)) 16) in
   store_num 1 m (padd (b, Z.of_nat (length pre)) 16) v) =
  Ok (<[b := pre ++ (to_bytes 8 n ++ V ++ to_bytes 4 ty ++ d :: rest) ++ post]> m).
Proof.
  intros HV HT Hd Hb. unfold store_num.
  rewrite (store_mid m b pre (to_bytes 8 n ++ V) T (d :: rest) post 12 (to_bytes 4 ty));
    [|by rewrite <-!app_assoc|rewrite length_app, length_to_bytes; lia|by rewrite length_to_bytes]. cbn [res_bind].
  set (H := to_bytes 8 n ++ V ++ to_bytes 4 ty).
  assert (16 = Z.of_nat (length H)) as H16 by (unfold H; rewrite !length_app, !length_to_bytes; lia).
  rewrite (padd_length b pre H 16 H16). rewrite (load_u8_at _ b (pre ++ H) d rest post).
  2: { unfold at_block. rewrite lookup_insert_eq. unfold H. by rewrite <-!app_assoc. }
  cbn [res_bind]. rewrite to_bytes_1 by apply Hd. rewrite (store_at _ b (pre ++ H) [d] rest post);
    [|unfold at_block; rewrite lookup_insert_eq; unfold H; by rewrite <-!app_assoc|done].
  rewrite insert_insert_eq. unfold H. by rewrite <-!app_assoc.
Qed.

(** The time to live: one byte becomes an [int]. *)
Lemma ttl_inplace m b pre n V T d r1 r2 r3 rest post ty : length V = 4%nat -> length T = 4%nat -> byte d ->
  at_block m b pre (to_bytes 8 n ++ V ++ T ++ d :: r1 :: r2 :: r3 :: rest) post ->
  (let* m := store_num 8 m (b, Z.of_nat (length pre)) 20 in
   let* m := store_num 4 m (padd (b, Z.of_nat (length pre)) 12) ty in
   let* v := load_u8 m (padd (b, Z.of_nat (length pre)) 16) in
   store_num 4 m (padd (b, Z.of_nat (length pre)) 16) v) =
  Ok (<[b := pre ++ (to_bytes 8 20 ++ V ++ to_bytes 4 ty ++ d :: 0 :: 0 :: 0 :: rest) ++ post]> m).
Proof.
  intros HV HT Hd Hb. unfold store_num.
  rewrite (store_at m b pre (to_bytes 8 n) _ post (to_bytes 8 20) Hb) by done. cbn [res_bind].
  rewrite (store_mid _ b pre (to_bytes 8 20 ++ V) T (d :: r1 :: r2 :: r3 :: rest) post 12 (to_bytes 4 ty));
    [|unfold at_block; by rewrite lookup_insert_eq, <-!app_assoc|rewrite length_app, length_to_bytes; lia|by rewrite length_to_bytes].
  cbn [res_bind]. rewrite insert_insert_eq. set (H := to_bytes 8 20 ++ V ++ to_bytes 4 ty).
  assert (16 = Z.of_nat (length H)) as H16 by (unfold H; rewrite !length_app, !length_to_bytes; lia).
  rewrite (padd_length b pre H 16 H16). rewrite (load_u8_at _ b (pre ++ H) d (r1 :: r2 :: r3 :: rest) post).
  2: { unfold at_block. rewrite lookup_insert_eq. unfold H. by rewrite <-!app_assoc. }
  cbn [res_bind]. replace (to_bytes 4 d) with [d; 0; 0; 0] by (unfold byte in Hd; cbn [to_bytes]; by rewrite Z.mod_small, Z.div_small).
  rewrite (store_at _ b (pre ++ H) [d; r1; r2; r3] rest post);
    [|unfold at_block; rewrite lookup_insert_eq; unfold H; by rewrite <-!app_assoc|done].
  rewrite insert_insert_eq. unfold H. by rewrite <-!app_assoc.
Qed.

Lemma one_inplace m b pre c xs post : recv_wf c -> fb_slot c xs -> at_block m b pre xs post ->
  exists xs', lx_slot (recv_conv c) xs' /\ length xs' = length xs /\
    freebsd2linux_one m (b, Z.of_nat (length pre)) (b, Z.of_nat (length pre)) = Ok (<[b := pre ++ xs' ++ post]> m).
Proof.
  intros [Hok Hw] (pad & rest & -> & Hpad & Hxs) Hb. pose proof Hok as (Hlv & Hty & Hd & Hlen).
  assert (cmsg_len c = 16 + Z.of_nat (length (c_data c))) as Hcl by done.
  unfold freebsd2linux_one. cbv zeta. change (ALIGN sizeof_cmsghdr) with 16. change (ALIGN sizeof_linux_cmsghdr) with 16.
  rewrite !length_app, !length_to_bytes, Hpad in *.
  pose proof (header_inplace m b pre c pad (c_data c ++ rest) post Hok Hpad Hb) as Hh. cbv zeta in Hh.
  change (ALIGN sizeof_cmsghdr) with 16 in Hh. rewrite Hh; clear Hh. set (m' := <[b := _]> m).
  pose proof (at_block_insert m b pre (to_bytes 8 (cmsg_len c) ++ to_bytes 4 (c_level c) ++ to_bytes 4 (c_type c) ++ c_data c ++ rest) post)
    as Hb'. fold m' in Hb'.
  assert (lx_slot c (to_bytes 8 (cmsg_len c) ++ to_bytes 4 (c_level c) ++ to_bytes 4 (c_type c) ++ c_data c ++ rest)) as Hsame.
  { exists rest. split; [done|]. rewrite !length_app, !length_to_bytes. lia. }
  unfold recv_conv. destruct (Z.eqb_spec (c_level c) IPPROTO_IP) as [Hip|Hip]; cbn [andb].
  2: { eexists. split; [exact Hsame|]. split; [rewrite !length_app, !length_to_bytes; lia|].
    rewrite (copy_inplace m' b pre (cmsg_len c) (to_bytes 4 (c_level c)) (to_bytes 4 (c_type c)) (c_data c) rest post)
      by (done || lia || apply length_to_bytes). done. }
  destruct (Z.eqb_spec (c_type c) IP_RECVTOS) as [Ht|Ht].
  { destruct (list_length_1 (c_data c)) as [d Ed]; [auto|]. rewrite Ed in *. apply Forall_cons in Hd as [Hd _].
    rewrite (tos_inplace m' b pre (cmsg_len c) (to_bytes 4 (c_level c)) (to_bytes 4 (c_type c)) d rest post) by (done || apply length_to_bytes). unfold m'. rewrite insert_insert_eq.
    eexists. split; [|split; [|done]]; [|rewrite !length_app, !length_to_bytes; cbn [length]; lia].
    exists rest. unfold cmsg_len in *. cbn [c_data c_level c_type]. rewrite Hip, Ed in *. split; [done|].
    rewrite !length_app, !length_to_bytes. cbn [length app] in *. lia. }
  destruct (Z.eqb_spec (c_type c) IP_RECVTTL) as [Ht2|Ht2].
  2: { eexists. split; [exact Hsame|]. split; [rewrite !length_app, !length_to_bytes; lia|].
    rewrite (copy_inplace m' b pre (cmsg_len c) (to_bytes 4 (c_level c)) (to_bytes 4 (c_type c)) (c_data c) rest post)
      by (done || lia || apply length_to_bytes). done. }
  destruct (list_length_1 (c_data c)) as [d Ed]; [auto|]. rewrite Ed in *. apply Forall_cons in Hd as [Hd _].
  unfold cmsg_len in Hxs. rewrite Ed in Hxs. change (ALIGN (16 + Z.of_nat (length [d]))) with 24 in Hxs. cbn [length] in Hxs.
  destruct rest as [|r1 [|r2 [|r3 rest]]]; [cbn in Hxs; lia..|].
  change (LINUX_CMSG_LEN 4) with 20.
  rewrite (ttl_inplace m' b pre (cmsg_len c) (to_bytes 4 (c_level c)) (to_bytes 4 (c_type c)) d r1 r2 r3 rest post) by (done || apply length_to_bytes).
  unfold m'. rewrite insert_insert_eq.
  eexists. split; [|split; [|done]]; [|rewrite !length_app, !length_to_bytes; cbn [length]; lia].
  exists rest. unfold cmsg_len in *. cbn [c_data c_level c_type]. rewrite Hip. split; [done|]. clear - Hxs.
  change (ALIGN _) with 24. rewrite !length_app, !length_to_bytes. cbn [length app] in *. lia.
Qed.


(** *** All messages of a buffer *)

Definition slots (slot : cmsg -> list Z -> Prop) (cs : list cmsg) (xs : list Z) : Prop :=
  exists ss, xs = concat ss /\ Forall2 slot cs ss.

Lemma slots_cons slot c cs xs : slots slot (c :: cs) xs <-> exists s ys, xs = s ++ ys /\ slot c s /\ slots slot cs ys.
Proof.
  split.
  - intros (ss & -> & Hs). apply Forall2_cons_inv_l in Hs as (s & ss' & Hc & Hs & ->). exists s, (concat ss').
    split; [done|]. split; [done|]. by exists ss'.
  - intros (s & ys & -> & Hc & ss & -> & Hs). exists (s :: ss). split; [done|]. by constructor.
Qed.

Lemma slots_nil slot xs : slots slot [] xs <-> xs = [].
Proof.
  split; [|intros ->; by exists []]. intros (ss & -> & Hs). by apply Forall2_nil_inv_l in Hs as ->.
Qed.

Lemma recv_conv_len c : recv_wf c -> 16 <= cmsg_len (recv_conv c) < 2 ^ 31.
Proof.
  intros [(_ & _ & _ & Hlen) Hw]. unfold recv_conv.
  destruct (Z.eqb_spec (c_level c) IPPROTO_IP) as [Hip|]; cbn [andb]; [|unfold cmsg_len in *; lia].
  destruct (Z.eqb_spec (c_type c) IP_RECVTOS) as [Ht|]; [unfold cmsg_len in *; cbn [c_data]; lia|].
  destruct (Z.eqb_spec (c_type c) IP_RECVTTL) as [Ht|]; [|unfold cmsg_len in *; lia].
  specialize (Hw Hip (or_intror Ht)). unfold cmsg_len in *. cbn [c_data]. rewrite length_app, Hw. cbn. lia.
Qed.

(** The low half of a length of Linux, where FreeBSD has its length. *)
Lemma to_bytes_8 n : to_bytes 8 n = to_bytes 4 n ++ to_bytes 4 (n / 2 ^ 32).
Proof. cbn [to_bytes app]. rewrite !Z.div_div by lia. done. Qed.

Lemma NXTHDR_spec hdr b o clen pos len : ALIGN hdr = 16 ->
  NXTHDR hdr (b, o) clen (b, pos) len = if o + clen <? pos + ALIGN len + 16 then None else Some (b, pos + ALIGN len).
Proof. intros Hh. unfold NXTHDR. cbn [snd]. by rewrite Hh. Qed.

Lemma slot_length_16 c xs : fb_slot c xs -> cmsg_len c < 2 ^ 31 -> 16 <= Z.of_nat (length xs).
Proof.
  intros (pad & rest & _ & _ & ->) Hl. assert (16 <= cmsg_len c) by (unfold cmsg_len; lia).
  pose proof (ALIGN_mono (cmsg_len c)). lia.
Qed.

Lemma recv_loop cs : forall fuel m b pre xs post o llen flen,
  Forall recv_wf cs -> slots fb_slot cs xs -> cs <> [] -> at_block m b pre xs post -> (length cs < fuel)%nat ->
  o + flen = Z.of_nat (length pre) + Z.of_nat (length xs) -> flen <= llen ->
  exists xs', slots lx_slot (recv_conv <$> cs) xs' /\ length xs' = length xs /\
    freebsd2linux_loop fuel m (b, o) (b, o) llen flen (Some (b, Z.of_nat (length pre))) (Some (b, Z.of_nat (length pre))) =
      Ok (<[b := pre ++ xs' ++ post]> m).
Proof.
  induction cs as [|c cs IH]; intros fuel m b pre xs post o llen flen Hwf Hxs Hne Hb Hfuel Hflen Hllen; [done|].
  apply Forall_cons in Hwf as [Hc Hcs]. apply slots_cons in Hxs as (s & ys & -> & Hs & Hys).
  destruct fuel as [|fuel]; [cbn in Hfuel; lia|]. cbn [length] in Hfuel. cbn [freebsd2linux_loop].
  assert (at_block m b pre s (ys ++ post)) as Hb1 by (unfold at_block in *; by rewrite <-app_assoc in Hb).
  destruct (one_inplace m b pre c s (ys ++ post) Hc Hs Hb1) as (s' & Hs' & Hls & ->). cbn [res_bind].
  set (m' := <[b := _]> m). pose proof Hs' as (rest & Es & Hal). pose proof (recv_conv_len c Hc) as Hcl.
  assert (at_block m' b pre s' (ys ++ post)) as Hb2 by apply at_block_insert.
  rewrite Es in Hb2. rewrite (load_u64_at _ _ _ _ _ _ Hb2) by lia. cbn [res_bind].
  rewrite to_bytes_8, <-app_assoc in Hb2. rewrite (load_u32_at _ _ _ _ _ _ Hb2) by lia. cbn [res_bind].
  rewrite !NXTHDR_spec by done. rewrite <-Hal. rewrite length_app in Hflen |- *.
  destruct cs as [|c2 cs].
  { apply slots_nil in Hys as ->. exists (s' ++ []). split; [|split].
    - apply slots_cons. exists s', []. split; [done|]. split; [done|]. by apply slots_nil.
    - rewrite !length_app. cbn. lia.
    - rewrite (proj2 (Z.ltb_lt (o + flen) _)) by (cbn in Hflen; lia). destruct fuel; [cbn in Hfuel; lia|]. cbn.
      unfold m'. rewrite app_nil_r. by destruct (_ <? _). }
  pose proof Hys as Hys'. apply slots_cons in Hys' as (s2 & ys2 & Ey & Hs2 & _).
  pose proof (slot_length_16 _ _ Hs2) as H16. apply Forall_cons in Hcs as Hcs2. destruct Hcs2 as [[(_ & _ & _ & Hl2) _] _].
  specialize (H16 Hl2). assert (length ys = length s2 + length ys2)%nat as Hly by (by rewrite Ey, length_app).
  rewrite !(proj2 (Z.ltb_ge _ _)) by lia. replace (Z.of_nat (length pre) + Z.of_nat (length s')) with (Z.of_nat (length (pre ++ s'))) by (rewrite length_app; lia).
  destruct (IH fuel m' b (pre ++ s') ys post o llen flen) as (ys' & Hys' & Hly' & ->); [done|done|done| |lia|rewrite length_app; lia|lia|].
  { unfold at_block, m'. rewrite lookup_insert_eq. by rewrite <-!app_assoc. }
  exists (s' ++ ys'). split; [apply slots_cons; by exists s', ys'|]. split; [rewrite !length_app; lia|].
  unfold m'. rewrite insert_insert_eq. by rewrite <-!app_assoc.
Qed.

Lemma slots_count cs xs : Forall recv_wf cs -> slots fb_slot cs xs -> (length cs <= length xs)%nat.
Proof.
  revert xs. induction cs as [|c cs IH]; intros xs Hwf Hxs; [cbn; lia|]. apply Forall_cons in Hwf as [[(_ & _ & _ & Hl) _] Hwf].
  apply slots_cons in Hxs as (s & ys & -> & Hs & Hys). specialize (IH _ Hwf Hys). pose proof (slot_length_16 _ _ Hs Hl).
  rewrite length_app. cbn [length]. lia.
Qed.

(** The messages in a buffer, all of them converted at their place. *)
Lemma freebsd2linux_cmsghdr_spec m b pre cs xs post llen : Forall recv_wf cs -> slots fb_slot cs xs ->
  at_block m b pre xs post -> Z.of_nat (length xs) <= llen ->
  exists xs', slots lx_slot (recv_conv <$> cs) xs' /\ length xs' = length xs /\
    freebsd2linux_cmsghdr m (b, Z.of_nat (length pre)) (b, Z.of_nat (length pre)) llen (Z.of_nat (length xs)) =
      Ok (<[b := pre ++ xs' ++ post]> m).
Proof.
  intros Hwf Hxs Hb Hll. unfold freebsd2linux_cmsghdr, LINUX_CMSG_FIRSTHDR, CMSG_FIRSTHDR, sizeof_cmsghdr, sizeof_linux_cmsghdr.
  destruct cs as [|c cs].
  { apply slots_nil in Hxs as ->. exists []. split; [by apply slots_nil|]. split; [done|]. cbn. unfold at_block in Hb. cbn in Hb.
    rewrite insert_id by done. by destruct (_ <=? _). }
  pose proof (slots_count _ _ Hwf Hxs) as Hcnt. pose proof Hxs as Hxs'. apply slots_cons in Hxs' as (s & ys & -> & Hs & _).
  pose proof Hwf as Hwf'. apply Forall_cons in Hwf' as [[(_ & _ & _ & Hl) _] _]. pose proof (slot_length_16 _ _ Hs Hl) as H16.
  rewrite length_app in Hll, Hcnt |- *.
  rewrite !(proj2 (Z.leb_le _ _)) by lia. destruct (recv_loop (c :: cs) (S (Z.to_nat (Z.of_nat (length s + length ys)))) m b pre (s ++ ys) post
    (Z.of_nat (length pre)) llen (Z.of_nat (length s + length ys))) as (xs' & Hx & Hl' & E); try done; try (rewrite ?length_app; lia).
  exists xs'. rewrite length_app in Hl'. done.
Qed.

(** *** Messages that are sent *)

(** What becomes of a message that is sent: the two options of IP are a byte for
    the kernel. *)
Definition send_conv (c : cmsg) : cmsg :=
  if c_level c =? IPPROTO_IP then
    if c_type c =? LINUX_IP_TOS then mkC IPPROTO_IP IP_TOS (take 1 (c_data c))
    else if c_type c =? LINUX_IP_TTL then mkC IPPROTO_IP IP_TTL (take 1 (c_data c))
    else c
  else if c_level c =? IPPROTO_IPV6 then
    if c_type c =? LINUX_IPV6_PKTINFO then mkC IPPROTO_IPV6 IPV6_PKTINFO (c_data c) else c
  else c.

(** The lengths that Linux has for the options that are converted. *)
Definition send_wf (c : cmsg) : Prop :=
  cmsg_ok c /\
  (c_level c = IPPROTO_IP -> c_type c = LINUX_IP_TOS -> length (c_data c) = 1%nat \/ length (c_data c) = 4%nat) /\
  (c_level c = IPPROTO_IP -> c_type c = LINUX_IP_TTL -> length (c_data c) = 4%nat) /\
  (c_level c = IPPROTO_IPV6 -> c_type c = LINUX_IPV6_PKTINFO -> length (c_data c) = 20%nat).

Lemma at_block_other m b b' pre xs post v : at_block m b pre xs post -> b' <> b -> at_block (<[b' := v]> m) b pre xs post.
Proof. intros Hb Hne. unfold at_block. by rewrite lookup_insert_ne. Qed.

Section Send.
Context (lb fb : Z) (lpre lpost fpre fpost : list Z) (Hne : fb <> lb).
Abbreviation l := (lb, Z.of_nat (length lpre)).
Abbreviation f := (fb, Z.of_nat (length fpre)).

(** The memory after the header of the message [c] has been written. *)
Definition hdr (n lv ty : Z) (pad tail : list Z) : list Z := to_bytes 4 n ++ to_bytes 4 lv ++ to_bytes 4 ty ++ pad ++ tail.

Lemma header_copy m c rest o1 o2 o3 pad tail : cmsg_ok c ->
  at_block m lb lpre (to_bytes 8 (cmsg_len c) ++ to_bytes 4 (c_level c) ++ to_bytes 4 (c_type c) ++ rest) lpost ->
  at_block m fb fpre (o1 ++ o2 ++ o3 ++ pad ++ tail) fpost -> length o1 = 4%nat -> length o2 = 4%nat -> length o3 = 4%nat ->
  let m' := <[fb := fpre ++ hdr (cmsg_len c) (c_level c) (c_type c) pad tail ++ fpost]> m in
  forall A (k : Z -> Z -> mem -> res A),
  (let* type := load_s32 m (padd l 12) in
   let* m := store_num 4 m (padd f 8) type in
   let* level := load_s32 m (padd l 8) in
   let* m := store_num 4 m (padd f 4) level in
   let* len := load_u64 m l in
   let* m := store_num 4 m f (CMSG_LEN (u64 (len - ALIGN sizeof_linux_cmsghdr))) in
   let* level := load_s32 m (padd l 8) in
   let* type := load_s32 m (padd l 12) in
   k level type m) = k (c_level c) (c_type c) m'.
Proof.
  intros (Hlv & Hty & _ & Hlen) Hl Hf H1 H2 H3 m' A k. unfold store_num.
  set (V := to_bytes 4 (c_level c)) in *. set (T := to_bytes 4 (c_type c)) in *. set (N := to_bytes 8 (cmsg_len c)) in *.
  assert (length V = 4%nat /\ length T = 4%nat /\ length N = 8%nat) as (HV & HT & HN) by (unfold V, T, N; by rewrite !length_to_bytes).
  assert (forall v, load_s32 (<[fb := v]> m) (padd l 12) = Ok (c_type c)) as Ltype.
  { intros v. eapply (load_s32_mid _ lb lpre (N ++ V)); [rewrite <-app_assoc; by apply at_block_other|rewrite length_app; lia|done]. }
  assert (forall v, load_s32 (<[fb := v]> m) (padd l 8) = Ok (c_level c)) as Llevel.
  { intros v. eapply (load_s32_mid _ lb lpre N); [by apply at_block_other|lia|done]. }
  rewrite (load_s32_mid m lb lpre (N ++ V) (c_type c) rest lpost 12); [|by rewrite <-app_assoc|rewrite length_app; lia|done].
  cbn [res_bind]. fold T. rewrite (store_mid m fb fpre (o1 ++ o2) o3 (pad ++ tail) fpost 8 T);
    [|by rewrite <-app_assoc|rewrite length_app; lia|lia]. cbn [res_bind]. rewrite Llevel. cbn [res_bind]. fold V.
  rewrite (store_mid _ fb fpre o1 o2 (T ++ pad ++ tail) fpost 4 V);
    [|unfold at_block; by rewrite lookup_insert_eq, <-!app_assoc|lia|lia]. cbn [res_bind]. rewrite insert_insert_eq.
  rewrite (load_u64_at _ lb lpre (cmsg_len c) (V ++ T ++ rest) lpost) by ((by apply at_block_other) || (unfold cmsg_len in *; lia)).
  cbn [res_bind]. replace (CMSG_LEN (u64 (cmsg_len c - ALIGN sizeof_linux_cmsghdr))) with (cmsg_len c).
  2: { change (ALIGN sizeof_linux_cmsghdr) with 16. unfold CMSG_LEN. change (ALIGN sizeof_cmsghdr) with 16.
    unfold cmsg_len in *. rewrite (wrapu_small 64 (16 + _ - 16)), wrapu_small by lia. lia. }
  rewrite (store_at _ fb fpre o1 (V ++ T ++ pad ++ tail) fpost (to_bytes 4 (cmsg_len c))) by (apply at_block_insert || (rewrite length_to_bytes; lia)).
  cbn [res_bind]. rewrite insert_insert_eq. rewrite Llevel. cbn [res_bind]. rewrite Ltype. cbn [res_bind]. done.
Qed.

(** The data is copied. *)
Lemma data_copy m n lv ty V T D rest pad t0 t1 len : length V = 4%nat -> length T = 4%nat -> length pad = 4%nat ->
  length t0 = length D -> len = Z.of_nat (length D) ->
  at_block m lb lpre (to_bytes 8 n ++ V ++ T ++ D ++ rest) lpost -> at_block m fb fpre (hdr (16 + len) lv ty pad (t0 ++ t1)) fpost ->
  bcopy m (padd l 16) (padd f 16) len = Ok (<[fb := fpre ++ hdr (16 + len) lv ty pad (D ++ t1) ++ fpost]> m).
Proof.
  intros HV HT Hpad Ht Hlen Hl Hf. unfold bcopy.
  rewrite (load_mid m lb lpre (to_bytes 8 n ++ V ++ T) D rest lpost 16 len);
    [|by rewrite <-!app_assoc|rewrite !length_app, length_to_bytes; lia|lia]. cbn [res_bind]. unfold hdr in *.
  rewrite (store_mid m fb fpre (to_bytes 4 (16 + len) ++ to_bytes 4 lv ++ to_bytes 4 ty ++ pad) t0 t1 fpost 16 D);
    [|by rewrite <-!app_assoc|rewrite !length_app, !length_to_bytes; lia|lia]. by rewrite <-!app_assoc.
Qed.

(** The header of an option of one byte, and the byte. *)
Lemma hdr_type m n lv ty ty' pad tail : length pad = 4%nat -> at_block m fb fpre (hdr n lv ty pad tail) fpost ->
  store_num 4 m (padd f 8) ty' = Ok (<[fb := fpre ++ hdr n lv ty' pad tail ++ fpost]> m).
Proof.
  intros Hpad Hf. unfold store_num, hdr in *.
  rewrite (store_mid m fb fpre (to_bytes 4 n ++ to_bytes 4 lv) (to_bytes 4 ty) (pad ++ tail) fpost 8 (to_bytes 4 ty')).
  - by rewrite <-!app_assoc.
  - by rewrite <-!app_assoc.
  - by rewrite length_app, !length_to_bytes.
  - by rewrite !length_to_bytes.
Qed.

Lemma hdr_len m n n' lv ty pad tail : at_block m fb fpre (hdr n lv ty pad tail) fpost ->
  store_num 4 m f n' = Ok (<[fb := fpre ++ hdr n' lv ty pad tail ++ fpost]> m).
Proof. intros Hf. unfold store_num, hdr in *. by rewrite (store_at m fb fpre (to_bytes 4 n) _ fpost (to_bytes 4 n') Hf). Qed.

Lemma hdr_byte m n lv ty pad t0 t1 v : length pad = 4%nat -> at_block m fb fpre (hdr n lv ty pad (t0 :: t1)) fpost ->
  store_num 1 m (padd f 16) v = Ok (<[fb := fpre ++ hdr n lv ty pad (to_bytes 1 v ++ t1) ++ fpost]> m).
Proof.
  intros Hpad Hf. unfold store_num, hdr in *.
  rewrite (store_mid m fb fpre (to_bytes 4 n ++ to_bytes 4 lv ++ to_bytes 4 ty ++ pad) [t0] t1 fpost 16 (to_bytes 1 v)).
  - by rewrite <-!app_assoc.
  - by rewrite <-!app_assoc.
  - rewrite !length_app, !length_to_bytes. lia.
  - done.
Qed.

Lemma option_hdr m n lv ty ty' pad tail : length pad = 4%nat -> at_block m fb fpre (hdr n lv ty pad tail) fpost ->
  forall A (k : mem -> res A),
  (let* m := store_num 4 m (padd f 8) ty' in
   let* m := store_num 4 m f (CMSG_LEN 1) in
   k m) = k (<[fb := fpre ++ hdr 17 lv ty' pad tail ++ fpost]> m).
Proof.
  intros Hpad Hf A k. rewrite (hdr_type _ n lv ty ty' pad tail Hpad Hf). cbn [res_bind]. change (CMSG_LEN 1) with 17.
  rewrite (hdr_len _ n 17 lv ty' pad tail) by apply at_block_insert. cbn [res_bind]. by rewrite insert_insert_eq.
Qed.

(** The first byte of the data, read as a byte or as the low byte of an [int]. *)
Lemma load_byte m H d tail : length H = 16%nat -> at_block m lb lpre (H ++ d :: tail) lpost -> load_u8 m (padd l 16) = Ok d.
Proof.
  intros HH Hl. rewrite (padd_length lb lpre H 16) by lia. eapply load_u8_at. by apply at_block_split.
Qed.

Lemma load_int m H d0 d1 d2 d3 tail : length H = 16%nat -> at_block m lb lpre (H ++ d0 :: d1 :: d2 :: d3 :: tail) lpost ->
  byte d0 -> exists v, load_s32 m (padd l 16) = Ok v /\ to_bytes 1 v = [d0].
Proof.
  intros HH Hl Hd. unfold load_s32. rewrite (load_mid m lb lpre H [d0; d1; d2; d3] tail lpost 16 4 Hl) by (done || lia).
  cbn [res_bind]. eexists. split; [done|]. cbn [to_bytes]. f_equal. destruct (s32_spec (of_bytes [d0; d1; d2; d3])) as (k & -> & _).
  cbn [of_bytes]. unfold byte in Hd. change (2 ^ 32) with (16777216 * 256).
  replace (_ + _) with (d0 + (d1 + 256 * (d2 + 256 * (d3 + 256 * 0)) + k * 16777216) * 256) by ring.
  rewrite Z.mod_add by lia. by apply Z.mod_small.
Qed.

Lemma split_slot (old : list Z) n : (16 + n <= length old)%nat -> exists o1 o2 o3 pad t0 t1,
  old = o1 ++ o2 ++ o3 ++ pad ++ t0 ++ t1 /\ length o1 = 4%nat /\ length o2 = 4%nat /\ length o3 = 4%nat /\ length pad = 4%nat /\
  length t0 = n.
Proof.
  intros Hl. exists (take 4 old), (take 4 (drop 4 old)), (take 4 (drop 8 old)), (take 4 (drop 12 old)), (take n (drop 16 old)),
    (drop (16 + n) old). rewrite !length_take, !length_drop. split; [|lia].
  rewrite <-(drop_drop old n 16), take_drop. change 16%nat with (12 + 4)%nat. rewrite <-(drop_drop old 4 12), take_drop.
  change 12%nat with (8 + 4)%nat. rewrite <-(drop_drop old 4 8), take_drop.
  change 8%nat with (4 + 4)%nat. by rewrite <-(drop_drop old 4 4), !take_drop.
Qed.

Lemma hdr_slot c pad rest n : length pad = 4%nat -> n = cmsg_len c ->
  Z.of_nat (length (hdr n (c_level c) (c_type c) pad (c_data c ++ rest))) = ALIGN n ->
  fb_slot c (hdr n (c_level c) (c_type c) pad (c_data c ++ rest)).
Proof. intros Hpad -> Hl. by exists pad, rest. Qed.

Lemma length_hdr n lv ty pad tail : length pad = 4%nat -> length (hdr n lv ty pad tail) = (16 + length tail)%nat.
Proof. intros. unfold hdr. rewrite !length_app, !length_to_bytes. lia. Qed.

Lemma data_send m c ty rest pad t0 t1 len : length pad = 4%nat -> length t0 = length (c_data c) -> len = Z.of_nat (length (c_data c)) ->
  at_block m lb lpre (to_bytes 8 (cmsg_len c) ++ to_bytes 4 (c_level c) ++ to_bytes 4 (c_type c) ++ c_data c ++ rest) lpost ->
  at_block m fb fpre (hdr (cmsg_len c) (c_level c) ty pad (t0 ++ t1)) fpost ->
  bcopy m (padd l 16) (padd f 16) len = Ok (<[fb := fpre ++ hdr (cmsg_len c) (c_level c) ty pad (c_data c ++ t1) ++ fpost]> m).
Proof.
  intros Hpad Ht -> Hl Hf. unfold cmsg_len. eapply data_copy; [| | | | |exact Hl|exact Hf]; try done; apply length_to_bytes.
Qed.

Lemma byte_send m lv ty pad x t v d : length pad = 4%nat -> at_block m fb fpre (hdr 17 lv ty pad (x :: t)) fpost ->
  to_bytes 1 v = [d] -> length t = 7%nat ->
  exists ys, fb_slot (mkC lv ty [d]) ys /\ Z.of_nat (length ys) = 24 /\
    store_num 1 m (padd f 16) v = Ok (<[fb := fpre ++ ys ++ fpost]> m).
Proof.
  intros Hpad Hf Hv Ht. rewrite (hdr_byte _ _ _ _ _ _ _ v Hpad Hf), Hv.
  assert (Z.of_nat (length (hdr 17 lv ty pad ([d] ++ t))) = 24) as H24 by (rewrite length_hdr by done; cbn [length app]; lia).
  exists (hdr 17 lv ty pad ([d] ++ t)). split; [|done]. by apply (hdr_slot (mkC lv ty [d])).
Qed.

Lemma same_send (m : mem) (c : cmsg) lv ty pad D t1 n : length pad = 4%nat -> c = mkC lv ty D -> n = cmsg_len c ->
  Z.of_nat (16 + length (D ++ t1)) = ALIGN n ->
  exists ys, fb_slot c ys /\ Z.of_nat (length ys) = ALIGN n /\
    Ok (<[fb := fpre ++ hdr n lv ty pad (D ++ t1) ++ fpost]> m) = Ok (<[fb := fpre ++ ys ++ fpost]> m).
Proof.
  intros Hpad -> Hn Hl. eexists. split; [|split; [|done]].
  - apply (hdr_slot (mkC lv ty D)); [done|done|]. by rewrite length_hdr.
  - by rewrite length_hdr.
Qed.

(** The four ways to convert the data, after the header has been written. *)
Section Data.
Context (m : mem) (c : cmsg) (rest pad t0 t1 : list Z) (Hwf : send_wf c) (Hpad : length pad = 4%nat).
Context (Ht : length t0 = length (c_data c)) (Hal : Z.of_nat (16 + length (c_data c ++ t1)) = ALIGN (cmsg_len c)).
Context (Hl : forall v, at_block (<[fb := v]> m) lb lpre
  (to_bytes 8 (cmsg_len c) ++ to_bytes 4 (c_level c) ++ to_bytes 4 (c_type c) ++ c_data c ++ rest) lpost).
Abbreviation m' := (<[fb := fpre ++ hdr (cmsg_len c) (c_level c) (c_type c) pad (t0 ++ t1) ++ fpost]> m).
Abbreviation converted r := (exists ys, fb_slot (send_conv c) ys /\ Z.of_nat (length ys) = ALIGN (cmsg_len c) /\
  r = Ok (<[fb := fpre ++ ys ++ fpost]> m)).

Lemma send_len v : load_u64 (<[fb := v]> m) l = Ok (cmsg_len c).
Proof. destruct Hwf as [(_ & _ & _ & Hm) _]. eapply load_u64_at; [apply Hl|]. unfold cmsg_len in *. lia. Qed.

Lemma send_copy : send_conv c = c ->
  converted (let* len := load_u64 m' l in bcopy m' (padd l 16) (padd f 16) (u64 (len - sizeof_linux_cmsghdr))).
Proof.
  intros ->. destruct Hwf as [(_ & _ & _ & Hm) _]. rewrite send_len. cbn [res_bind].
  rewrite (data_send m' c (c_type c) rest pad t0 t1); [|done|done| |apply Hl|apply at_block_insert].
  - rewrite insert_insert_eq. apply same_send; [done|by destruct c|done|done].
  - unfold sizeof_linux_cmsghdr, cmsg_len in *. rewrite (wrapu_small 64) by lia. lia.
Qed.

Lemma send_pktinfo : c_level c = IPPROTO_IPV6 -> c_type c = LINUX_IPV6_PKTINFO ->
  converted (let* m := store_num 4 m' (padd f 8) IPV6_PKTINFO in bcopy m (padd l 16) (padd f 16) sizeof_in6_pktinfo).
Proof.
  intros Hlv Hty. destruct Hwf as (_ & _ & _ & Hp). specialize (Hp Hlv Hty).
  rewrite (hdr_type m' (cmsg_len c) (c_level c) (c_type c) IPV6_PKTINFO pad (t0 ++ t1) Hpad) by apply at_block_insert.
  cbn [res_bind]. rewrite insert_insert_eq.
  rewrite (data_send _ c IPV6_PKTINFO rest pad t0 t1); [|done|done|by rewrite Hp|apply Hl|apply at_block_insert].
  rewrite insert_insert_eq. unfold send_conv. rewrite Hlv, Hty. cbn. apply same_send; done.
Qed.

Lemma option_room : length (c_data c) = 1%nat \/ length (c_data c) = 4%nat ->
  ALIGN (cmsg_len c) = 24 /\ exists x t, t0 ++ t1 = x :: t /\ length t = 7%nat.
Proof.
  intros Hd. assert (ALIGN (cmsg_len c) = 24) as Ha by (unfold cmsg_len; by destruct Hd as [-> | ->]).
  split; [done|]. rewrite Ha in Hal. rewrite length_app in Hal. assert (length (t0 ++ t1) = 8)%nat by (rewrite length_app; lia).
  destruct (t0 ++ t1) as [|x t]; [done|]. exists x, t. split; [done|]. cbn in *. lia.
Qed.

Lemma send_byte ty d v : length (c_data c) = 1%nat \/ length (c_data c) = 4%nat ->
  send_conv c = mkC (c_level c) ty [d] -> to_bytes 1 v = [d] ->
  converted (store_num 1 (<[fb := fpre ++ hdr 17 (c_level c) ty pad (t0 ++ t1) ++ fpost]> m) (padd f 16) v).
Proof.
  intros Hd -> Hv. destruct (option_room Hd) as (-> & x & t & -> & Hlt).
  destruct (byte_send (<[fb := fpre ++ hdr 17 (c_level c) ty pad (x :: t) ++ fpost]> m) (c_level c) ty pad x t v d)
    as (ys & H1 & H2 & ->); [done|apply at_block_insert|done|done|].
  exists ys. rewrite insert_insert_eq. done.
Qed.

(** The first byte of an [int] of four bytes. *)
Lemma send_int v : length (c_data c) = 4%nat -> exists z d, load_s32 (<[fb := v]> m) (padd l 16) = Ok z /\ to_bytes 1 z = [d] /\
  take 1 (c_data c) = [d].
Proof.
  intros H4. destruct Hwf as [(_ & _ & Hd & _) _]. pose proof (Hl v) as Hlv. destruct (c_data c) as [|d0 [|d1 [|d2 [|d3 [|]]]]]; try done.
  apply Forall_cons in Hd as [Hd _].
  destruct (load_int (<[fb := v]> m) (to_bytes 8 (cmsg_len c) ++ to_bytes 4 (c_level c) ++ to_bytes 4 (c_type c)) d0 d1 d2 d3 rest)
    as (z & Hz & Hz1); [by rewrite !length_app, !length_to_bytes|by rewrite <-!app_assoc|done|]. by exists z, d0.
Qed.

Lemma send_char v : length (c_data c) = 1%nat -> exists d, load_u8 (<[fb := v]> m) (padd l 16) = Ok d /\ to_bytes 1 d = [d] /\
  take 1 (c_data c) = [d].
Proof.
  intros H1. destruct Hwf as [(_ & _ & Hd & _) _]. pose proof (Hl v) as Hlv. destruct (c_data c) as [|d [|]]; try done.
  apply Forall_cons in Hd as [Hd _]. exists d. split; [|split; [by apply to_bytes_1|done]].
  apply (load_byte _ (to_bytes 8 (cmsg_len c) ++ to_bytes 4 (c_level c) ++ to_bytes 4 (c_type c)) d rest);
    [by rewrite !length_app, !length_to_bytes|by rewrite <-!app_assoc].
Qed.

Lemma send_ttl : c_level c = IPPROTO_IP -> c_type c = LINUX_IP_TTL ->
  converted (let* m := store_num 4 m' (padd f 8) IP_TTL in
    let* m := store_num 4 m f (CMSG_LEN 1) in
    let* v := load_s32 m (padd l 16) in
    store_num 1 m (padd f 16) v).
Proof.
  intros Hip Hty. pose proof Hwf as (_ & _ & H4 & _). specialize (H4 Hip Hty).
  rewrite (option_hdr m' (cmsg_len c) (c_level c) (c_type c) IP_TTL pad (t0 ++ t1) Hpad) by apply at_block_insert.
  rewrite insert_insert_eq. destruct (send_int (fpre ++ hdr 17 (c_level c) IP_TTL pad (t0 ++ t1) ++ fpost) H4) as (z & d & -> & Hz & Hd).
  cbn [res_bind]. apply (send_byte IP_TTL d z); [auto| |done]. unfold send_conv. rewrite Hip, Hty. cbn [Z.eqb]. by rewrite Hd.
Qed.

Lemma send_tos : c_level c = IPPROTO_IP -> c_type c = LINUX_IP_TOS ->
  converted (let* m := store_num 4 m' (padd f 8) IP_TOS in
    let* m := store_num 4 m f (CMSG_LEN 1) in
    let* len := load_u64 m l in
    if len =? LINUX_CMSG_LEN 4 then let* v := load_s32 m (padd l 16) in store_num 1 m (padd f 16) v
    else if len =? LINUX_CMSG_LEN 1 then let* v := load_u8 m (padd l 16) in store_num 1 m (padd f 16) v
    else Ok m).
Proof.
  intros Hip Hty. pose proof Hwf as (_ & H14 & _). specialize (H14 Hip Hty).
  rewrite (option_hdr m' (cmsg_len c) (c_level c) (c_type c) IP_TOS pad (t0 ++ t1) Hpad) by apply at_block_insert.
  rewrite insert_insert_eq, send_len. cbn [res_bind].
  assert (forall d, take 1 (c_data c) = [d] -> send_conv c = mkC (c_level c) IP_TOS [d]) as Hc.
  { intros d Hd. unfold send_conv. rewrite Hip, Hty. cbn [Z.eqb]. by rewrite Hd. }
  destruct H14 as [H1|H4].
  - destruct (send_char (fpre ++ hdr 17 (c_level c) IP_TOS pad (t0 ++ t1) ++ fpost) H1) as (d & Ed & Hz & Hd).
    replace (cmsg_len c =? LINUX_CMSG_LEN 4) with false by (unfold cmsg_len; by rewrite H1).
    replace (cmsg_len c =? LINUX_CMSG_LEN 1) with true by (unfold cmsg_len; by rewrite H1). rewrite Ed. cbn [res_bind]. apply (send_byte IP_TOS d d); auto.
  - destruct (send_int (fpre ++ hdr 17 (c_level c) IP_TOS pad (t0 ++ t1) ++ fpost) H4) as (z & d & Ed & Hz & Hd).
    replace (cmsg_len c =? LINUX_CMSG_LEN 4) with true by (unfold cmsg_len; by rewrite H4). rewrite Ed. cbn [res_bind].
    apply (send_byte IP_TOS d z); auto.
Qed.
End Data.

Lemma one_send m c xs old : send_wf c -> lx_slot c xs -> at_block m lb lpre xs lpost -> at_block m fb fpre old fpost ->
  length old = length xs ->
  exists ys, fb_slot (send_conv c) ys /\ Z.of_nat (length ys) = ALIGN (cmsg_len c) /\
    linux2freebsd_one m l f = Ok (<[fb := fpre ++ ys ++ fpost]> m).
Proof.
  intros Hwf (rest & -> & Hxs) Hl Hf Hlen. rewrite !length_app, !length_to_bytes in Hlen.
  destruct (split_slot old (length (c_data c))) as (o1 & o2 & o3 & pad & t0 & t1 & -> & H1 & H2 & H3 & Hpad & Ht); [lia|].
  rewrite !length_app in Hlen, Hxs. rewrite !length_to_bytes in Hxs.
  assert (Z.of_nat (16 + length (c_data c ++ t1)) = ALIGN (cmsg_len c)) as Hal by (rewrite (length_app t0) in Hlen; rewrite length_app; lia).
  unfold linux2freebsd_one. cbv zeta. change (ALIGN sizeof_cmsghdr) with 16.
  rewrite (header_copy m c (c_data c ++ rest) o1 o2 o3 pad (t0 ++ t1) (proj1 Hwf) Hl Hf H1 H2 H3).
  change (ALIGN sizeof_linux_cmsghdr) with 16.
  assert (forall v, at_block (<[fb := v]> m) lb lpre
    (to_bytes 8 (cmsg_len c) ++ to_bytes 4 (c_level c) ++ to_bytes 4 (c_type c) ++ c_data c ++ rest) lpost) as Hl'
    by (intros; by apply at_block_other).
  destruct (Z.eqb_spec (c_level c) IPPROTO_IP) as [Hip|Hip].
  - destruct (Z.eqb_spec (c_type c) LINUX_IP_TOS) as [Hty|Hty]; [by eapply send_tos|].
    destruct (Z.eqb_spec (c_type c) LINUX_IP_TTL) as [Hty2|Hty2]; [by eapply send_ttl|].
    eapply send_copy; try done. unfold send_conv. rewrite Hip. cbn. by rewrite !(proj2 (Z.eqb_neq (c_type c) _)).
  - destruct (Z.eqb_spec (c_level c) IPPROTO_IPV6) as [Hip6|Hip6].
    + destruct (Z.eqb_spec (c_type c) LINUX_IPV6_PKTINFO) as [Hty|Hty]; [by eapply send_pktinfo|].
      eapply send_copy; try done. unfold send_conv. rewrite Hip6. cbn. by rewrite !(proj2 (Z.eqb_neq (c_type c) _)).
    + eapply send_copy; try done. unfold send_conv. by rewrite !(proj2 (Z.eqb_neq (c_level c) _)).
Qed.
End Send.

Lemma send_conv_len c : send_wf c -> 16 <= cmsg_len (send_conv c) < 2 ^ 31.
Proof.
  intros [(_ & _ & _ & Hlen) _]. unfold send_conv, cmsg_len in *.
  repeat (case_match; cbn [c_data]; rewrite ?length_take; try lia).
Qed.

Lemma lx_slot_length_16 c xs : lx_slot c xs -> cmsg_len c < 2 ^ 31 -> 16 <= Z.of_nat (length xs).
Proof.
  intros (rest & _ & ->) Hl. assert (16 <= cmsg_len c) by (unfold cmsg_len; lia).
  pose proof (ALIGN_mono (cmsg_len c)). lia.
Qed.

Lemma send_loop cs : forall fuel m lb lpre xs lpost fb fpre old fpost lo fo len,
  Forall send_wf cs -> slots lx_slot cs xs -> cs <> [] -> fb <> lb -> at_block m lb lpre xs lpost -> at_block m fb fpre old fpost ->
  length old = length xs -> (length cs < fuel)%nat ->
  lo + len = Z.of_nat (length lpre) + Z.of_nat (length xs) -> fo + len = Z.of_nat (length fpre) + Z.of_nat (length xs) ->
  exists ys, slots fb_slot (send_conv <$> cs) ys /\ length ys = length xs /\
    linux2freebsd_loop fuel m (lb, lo) (fb, fo) len len (Some (lb, Z.of_nat (length lpre))) (Some (fb, Z.of_nat (length fpre))) =
      Ok (<[fb := fpre ++ ys ++ fpost]> m).
Proof.
  induction cs as [|c cs IH]; intros fuel m lb lpre xs lpost fb fpre old fpost lo fo len Hwf Hxs Hcs Hne Hl Hf Hlen Hfuel Hlo Hfo; [done|].
  apply Forall_cons in Hwf as [Hc Hwf]. apply slots_cons in Hxs as (s & xs' & -> & Hs & Hxs). pose proof Hs as (rest & Es & Hal).
  destruct fuel as [|fuel]; [cbn in Hfuel; lia|]. cbn [length] in Hfuel. cbn [linux2freebsd_loop]. rewrite length_app in Hlen, Hlo, Hfo |- *.
  assert (at_block m lb lpre s (xs' ++ lpost)) as Hl1 by (unfold at_block in *; by rewrite <-app_assoc in Hl).
  assert (at_block m fb fpre (take (length s) old) (drop (length s) old ++ fpost)) as Hf1
    by (unfold at_block in *; by rewrite (app_assoc (take _ _)), take_drop).
  destruct (one_send lb fb lpre (xs' ++ lpost) fpre (drop (length s) old ++ fpost) Hne m c s _ Hc Hs Hl1 Hf1) as (t & Ht & Hlt & ->);
    [rewrite length_take; lia|]. cbn [res_bind]. set (m' := <[fb := _]> m). pose proof Ht as (pad & rest' & Et & _ & Hat).
  pose proof (send_conv_len c Hc) as Hcl. pose proof Hc as [(_ & _ & _ & Hm) _].
  assert (at_block m' lb lpre s (xs' ++ lpost)) as Hl2 by (by apply at_block_other).
  pose proof (at_block_insert m fb fpre t (drop (length s) old ++ fpost)) as Hf2. fold m' in Hf2.
  rewrite Es in Hl2. rewrite (load_u64_at _ _ _ _ _ _ Hl2) by (unfold cmsg_len in *; lia). cbn [res_bind].
  rewrite Et in Hf2. rewrite (load_u32_at _ _ _ _ _ _ Hf2) by lia. cbn [res_bind]. rewrite !NXTHDR_spec by done.
  rewrite <-Hat, Hlt, <-Hal. destruct cs as [|c2 cs].
  { apply slots_nil in Hxs as ->. cbn [length] in *. exists t. split; [|split; [lia|]].
    - apply slots_cons. exists t, []. split; [by rewrite app_nil_r|]. split; [done|]. by apply slots_nil.
    - rewrite !(proj2 (Z.ltb_lt _ _)) by lia. destruct fuel; [lia|]. cbn. unfold m'. rewrite drop_ge by lia. done. }
  pose proof Hxs as Hxs'. apply slots_cons in Hxs' as (s2 & xs2 & Ex & Hs2 & _). pose proof Hwf as Hwf2.
  apply Forall_cons in Hwf2 as [[(_ & _ & _ & Hl2m) _] _]. pose proof (lx_slot_length_16 _ _ Hs2 Hl2m) as H16.
  assert (length xs' = length s2 + length xs2)%nat as Hlx by (by rewrite Ex, length_app). rewrite !(proj2 (Z.ltb_ge _ _)) by lia.
  replace (Z.of_nat (length lpre) + Z.of_nat (length s)) with (Z.of_nat (length (lpre ++ s))) by (rewrite length_app; lia).
  replace (Z.of_nat (length fpre) + Z.of_nat (length s)) with (Z.of_nat (length (fpre ++ t))) by (rewrite length_app; lia).
  destruct (IH fuel m' lb (lpre ++ s) xs' lpost fb (fpre ++ t) (drop (length s) old) fpost lo fo len) as (ys & Hys & Hly & ->);
    try done; try (rewrite ?length_app, ?length_drop; lia).
  { apply at_block_split. by apply at_block_other. }
  { unfold at_block, m'. rewrite lookup_insert_eq. by rewrite <-!app_assoc. }
  exists (t ++ ys). split; [apply slots_cons; by exists t, ys|]. split; [rewrite !length_app; lia|].
  unfold m'. rewrite insert_insert_eq. by rewrite <-!app_assoc.
Qed.

Lemma lx_slots_count cs xs : Forall send_wf cs -> slots lx_slot cs xs -> (length cs <= length xs)%nat.
Proof.
  revert xs. induction cs as [|c cs IH]; intros xs Hwf Hxs; [cbn; lia|]. apply Forall_cons in Hwf as [[(_ & _ & _ & Hl) _] Hwf].
  apply slots_cons in Hxs as (s & ys & -> & Hs & Hys). specialize (IH _ Hwf Hys). pose proof (lx_slot_length_16 _ _ Hs Hl).
  rewrite length_app. cbn [length]. lia.
Qed.

(** The messages of a buffer, converted into another one of the same length. *)
Lemma linux2freebsd_cmsg_spec m lb lpre cs xs lpost fb old : Forall send_wf cs -> slots lx_slot cs xs ->
  at_block m lb lpre xs lpost -> m !! fb = Some old -> fb <> lb -> length old = length xs ->
  exists ys, slots fb_slot (send_conv <$> cs) ys /\ length ys = length xs /\
    linux2freebsd_cmsg m (lb, Z.of_nat (length lpre)) (fb, 0) (Z.of_nat (length xs)) (Z.of_nat (length xs)) = Ok (<[fb := ys]> m).
Proof.
  intros Hwf Hxs Hl Hf Hne Hlen. unfold linux2freebsd_cmsg, LINUX_CMSG_FIRSTHDR, CMSG_FIRSTHDR, sizeof_cmsghdr, sizeof_linux_cmsghdr.
  destruct cs as [|c cs].
  { apply slots_nil in Hxs as ->. destruct old; [|done]. exists []. split; [by apply slots_nil|]. split; [done|]. cbn. by rewrite insert_id. }
  pose proof (lx_slots_count _ _ Hwf Hxs) as Hcnt. pose proof Hxs as Hxs'. apply slots_cons in Hxs' as (s & ys & Ex & Hs & _).
  pose proof Hwf as Hwf'. apply Forall_cons in Hwf' as [[(_ & _ & _ & Hl') _] _]. pose proof (lx_slot_length_16 _ _ Hs Hl') as H16.
  assert (length xs = length s + length ys)%nat as Hlx by (by rewrite Ex, length_app).
  rewrite !(proj2 (Z.leb_le _ _)) by lia. rewrite Nat2Z.id.
  destruct (send_loop (c :: cs) (S (length xs)) m lb lpre xs lpost fb [] old [] (Z.of_nat (length lpre)) 0 (Z.of_nat (length xs)))
    as (zs & Hz & Hlz & E); try done; try lia.
  { unfold at_block. by rewrite app_nil_r. }
  exists zs. split; [done|]. split; [done|]. rewrite app_nil_r in E. exact E.
Qed.

(** ** Options *)

Lemma convert_found d t x : convert d t x <> d -> (x, convert d t x) ∈ t.
Proof.
  induction t as [|[a b] t IH]; cbn [convert]; [done|]. destruct (Z.eqb_spec x a) as [->|]; [left|]. right. by apply IH.
Qed.

Lemma convert_injective d t x y : NoDup t.*2 -> convert d t x <> d -> convert d t x = convert d t y -> x = y.
Proof.
  intros Hn Hx E. pose proof (convert_found d t x Hx) as H1. rewrite E in Hx. pose proof (convert_found d t y Hx) as H2. rewrite <-E in H2.
  clear E Hx. revert H1 H2. generalize (convert d t x) as z. intros z H1 H2.
  apply list_elem_of_lookup in H1 as [i Hi], H2 as [j Hj].
  assert (i = j) as -> by (eapply (NoDup_lookup t.*2); [done|by rewrite list_lookup_fmap, Hi|by rewrite list_lookup_fmap, Hj]). congruence.
Qed.

(** The options of sockets and of TCP that are known have different numbers in
    FreeBSD, so that none is taken for another; all others are refused. *)
Lemma known_options_differ level a b : level = SOL_SOCKET \/ level = IPPROTO_TCP ->
  0 <= linux2freebsd_opt level a -> linux2freebsd_opt level a = linux2freebsd_opt level b -> a = b.
Proof.
  assert (NoDup so_opts.*2 /\ NoDup tcp_opts.*2) as [Hso Htcp] by (split; apply (bool_decide_eq_true_1 _); vm_compute; reflexivity).
  intros [-> | ->].
  - change (linux2freebsd_opt SOL_SOCKET) with (convert (-1) so_opts). intros Ha. apply convert_injective; [done|]. lia.
  - change (linux2freebsd_opt IPPROTO_TCP) with (convert (-1) tcp_opts). intros Ha. apply convert_injective; [done|]. lia.
Qed.

(** ** The flags of a descriptor *)

Lemma move_flag_testbit p q x i : 0 <= p -> 0 <= q -> p <> q -> 0 <= i ->
  Z.testbit (move_flag (2 ^ p) (2 ^ q) x) i =
    if i =? q then Z.testbit x q || Z.testbit x p else if i =? p then false else Z.testbit x i.
Proof.
  intros Hp Hq Hpq Hi. unfold move_flag.
  assert (Z.land x (2 ^ p) = if Z.testbit x p then 2 ^ p else 0) as ->.
  { apply Z.bits_inj'. intros j Hj. rewrite Z.land_spec, Z.pow2_bits_eqb by lia.
    destruct (Z.eqb_spec p j) as [->|Hne].
    - destruct (Z.testbit x j); by rewrite ?Z.pow2_bits_true, ?Z.bits_0 by lia.
    - rewrite andb_false_r. destruct (Z.testbit x p); by rewrite ?Z.pow2_bits_false, ?Z.bits_0 by lia. }
  destruct (Z.testbit x p) eqn:E.
  - rewrite (proj2 (Z.eqb_neq _ _)) by (pose proof (Z.pow_pos_nonneg 2 p); lia).
    rewrite Z.lor_spec, Z.ldiff_spec, !Z.pow2_bits_eqb by lia.
    rewrite (Z.eqb_sym i q), (Z.eqb_sym i p). destruct (Z.eqb_spec q i) as [Eq|]; destruct (Z.eqb_spec p i) as [Ei|]; [lia| | |];
      rewrite ?orb_true_r, ?orb_false_r, ?andb_true_r, ?andb_false_r; done.
  - cbn [Z.eqb]. destruct (Z.eqb_spec i q) as [->|]; [by rewrite orb_false_r|]. by destruct (Z.eqb_spec i p) as [->|].
Qed.

(** The status flags that are converted, by their bits. *)
Definition status_flags : Z := Z.lor (Z.lor LINUX_O_NONBLOCK LINUX_O_APPEND) (Z.lor LINUX_O_ASYNC LINUX_O_DIRECT).
Definition fb_status (x : Z) : Z := (linux2freebsd_fcntl LINUX_F_SETFL x).2.

Lemma flags_as_powers :
  LINUX_O_NONBLOCK = 2 ^ 11 /\ LINUX_O_APPEND = 2 ^ 10 /\ LINUX_O_ASYNC = 2 ^ 13 /\ LINUX_O_DIRECT = 2 ^ 14 /\
  O_NONBLOCK = 2 ^ 2 /\ O_APPEND = 2 ^ 3 /\ O_ASYNC = 2 ^ 6 /\ O_DIRECT = 2 ^ 16.
Proof. done. Qed.

Lemma status_bits x i : Z.land x status_flags = x -> 0 <= i -> i <> 10 -> i <> 11 -> i <> 13 -> i <> 14 -> Z.testbit x i = false.
Proof.
  intros Hx Hi H10 H11 H13 H14. rewrite <-Hx, Z.land_spec. unfold status_flags.
  destruct flags_as_powers as (-> & -> & -> & -> & _). rewrite !Z.lor_spec, !Z.pow2_bits_eqb by lia.
  rewrite !(proj2 (Z.eqb_neq _ _)) by lia. by rewrite andb_false_r.
Qed.

Lemma acc_bits acc i : 0 <= acc < 4 -> 2 <= i -> Z.testbit acc i = false.
Proof.
  intros Ha Hi. destruct (Z.eq_dec acc 0) as [->|]; [apply Z.bits_0|]. apply Z.bits_above_log2; [lia|]. apply Z.log2_lt_pow2; [lia|].
  change 4 with (2 ^ 2) in Ha. pose proof (Z.pow_le_mono_r 2 2 i). lia.
Qed.

Lemma status_flags_back acc x : 0 <= acc < 4 -> Z.land x status_flags = x ->
  freebsd2linux_fcntl F_GETFL (Z.lor acc (fb_status x)) = Z.lor acc x.
Proof.
  intros Ha Hx. change (fb_status x) with (move_flag (2 ^ 14) (2 ^ 16) (move_flag (2 ^ 13) (2 ^ 6)
    (move_flag (2 ^ 10) (2 ^ 3) (move_flag (2 ^ 11) (2 ^ 2) x)))).
  set (y := Z.lor acc _). change (freebsd2linux_fcntl F_GETFL y) with (move_flag (2 ^ 16) (2 ^ 14) (move_flag (2 ^ 6) (2 ^ 13)
    (move_flag (2 ^ 3) (2 ^ 10) (move_flag (2 ^ 2) (2 ^ 11) y)))). subst y. apply Z.bits_inj'. intros i Hi.
  assert (Z.testbit x 2 = false /\ Z.testbit x 3 = false /\ Z.testbit x 6 = false /\ Z.testbit x 16 = false) as (B2 & B3 & B6 & B16)
    by (repeat split; by apply status_bits).
  assert (forall j, 2 <= j -> Z.testbit acc j = false) as A by (intros; by apply acc_bits).
  repeat (rewrite ?Z.lor_spec, ?move_flag_testbit by lia; cbn [Z.eqb Pos.eqb]). rewrite !A by lia. rewrite B2, B3, B6, B16.
  destruct (Z.eqb_spec i 14) as [->|]; [rewrite ?A by lia; by cbn|].
  destruct (Z.eqb_spec i 13) as [->|]; [rewrite ?A by lia; by cbn|].
  destruct (Z.eqb_spec i 10) as [->|]; [rewrite ?A by lia; by cbn|].
  destruct (Z.eqb_spec i 11) as [->|]; [rewrite ?A by lia; by cbn|].
  destruct (Z.eqb_spec i 16) as [->|]; [rewrite ?A, ?B16 by lia; by cbn|].
  destruct (Z.eqb_spec i 6) as [->|]; [rewrite ?A, ?B6 by lia; by cbn|].
  destruct (Z.eqb_spec i 3) as [->|]; [rewrite ?A, ?B3 by lia; by cbn|].
  by destruct (Z.eqb_spec i 2) as [->|]; [rewrite ?A, ?B2 by lia|].
Qed.

(** ** The functions of the interface *)

(** What an address of the application looks like to the kernel. *)
Definition kernel_addr (junk : list Z) (fam : Z) (data : list Z) : list Z := fb_addr fam data ++ drop (length data + 2) junk.

Section Names.
Context (stk : Z) (junk : list Z) (m : mem) (Hstk : m !! stk = None) (Hjunk : length junk = 128%nat).
Context (ab : Z) (pre post : list Z) (fam : Z) (data : list Z) (Hfam : family_ok fam) (Hdata : (length data <= 126)%nat).

Lemma app_addr_stk xs b p q : at_block m b p xs q -> stk <> b.
Proof. intros Hb ->. unfold at_block in Hb. congruence. Qed.

(** The address that is passed to the kernel, in the local structure. *)
Lemma addr_to_stk : at_block m ab pre (lx_addr fam data) post ->
  linux2freebsd_sockaddr (<[stk := junk]> m) (Some (ab, Z.of_nat (length pre))) (Z.of_nat (length data) + 2) (Some (stk, 0)) =
    Ok (<[stk := kernel_addr junk fam data]> m).
Proof.
  intros Hb. pose proof (app_addr_stk _ _ _ _ Hb) as Hne.
  rewrite (linux2freebsd_sockaddr_spec _ ab pre fam data post stk junk); try (apply lookup_insert_eq || apply Hfam || done || lia).
  - by rewrite insert_insert_eq.
  - by apply at_block_other.
Qed.

Lemma length_kernel_addr : length (kernel_addr junk fam data) = 128%nat.
Proof. unfold kernel_addr, fb_addr. rewrite length_app, length_drop. cbn [length]. lia. Qed.

Lemma load_kernel_addr : load (<[stk := kernel_addr junk fam data]> m) (stk, 0) 128 = Ok (kernel_addr junk fam data).
Proof.
  change (stk, 0) with (stk, Z.of_nat (length (@nil Z))). apply (load_at _ stk [] (kernel_addr junk fam data) [] []).
  - unfold at_block. rewrite lookup_insert_eq, !app_nil_r. done.
  - by rewrite length_kernel_addr.
Qed.

(** [bind] and [connect] have the same shape. *)
Lemma bind_spec {K} (kern : K -> Z -> list Z -> K * Z) k s : at_block m ab pre (lx_addr fam data) post ->
  ff_bind kern stk junk k m s (Some (ab, Z.of_nat (length pre))) (Z.of_nat (length data) + 2) =
    let '(k, rc) := kern k s (kernel_addr junk fam data) in if negb (rc =? 0) then fail (k, m) rc else ret (k, m) rc.
Proof.
  intros Hb. unfold ff_bind. rewrite addr_to_stk by done. cbn [res_bind]. rewrite load_kernel_addr. cbn [res_bind].
  rewrite delete_insert_id by done. done.
Qed.

Lemma connect_spec {K} (kern : K -> Z -> list Z -> K * Z) k s : at_block m ab pre (lx_addr fam data) post ->
  ff_connect kern stk junk k m s (Some (ab, Z.of_nat (length pre))) (Z.of_nat (length data) + 2) =
    let '(k, rc) := kern k s (kernel_addr junk fam data) in if negb (rc =? 0) then fail (k, m) rc else ret (k, m) rc.
Proof. apply bind_spec. Qed.

(** The address that the kernel gives, in the buffer of the application. *)
Lemma copy_name_spec old : at_block m ab pre old post -> length old = (2 + length data)%nat ->
  copy_name stk junk m (fb_addr fam data) (Some (ab, Z.of_nat (length pre))) =
    Ok (<[ab := pre ++ lx_addr fam data ++ post]> m, Z.of_nat (length data) + 2).
Proof.
  intros Hb Hold. pose proof (app_addr_stk _ _ _ _ Hb) as Hne. unfold copy_name.
  change (stk, 0) with (stk, Z.of_nat (length (@nil Z))) at 1.
  assert (length (fb_addr fam data) = 2 + length data)%nat as Hl by done.
  rewrite (store_at _ stk [] (take (2 + length data) junk) (drop (2 + length data) junk) []).
  2: { unfold at_block. rewrite lookup_insert_eq, take_drop, app_nil_r. done. }
  2: { rewrite length_take. lia. }
  cbn [res_bind]. rewrite insert_insert_eq, app_nil_r. cbn [app]. set (m' := <[stk := _]> m).
  rewrite (freebsd2linux_sockaddr_spec m' ab pre old post stk fam data (drop (2 + length data) junk)); try (done || lia).
  2: { by apply at_block_other. }
  2: { apply lookup_insert_eq. }
  cbn [res_bind]. change (stk, 0) with (stk, Z.of_nat (length (@nil Z))).
  rewrite (load_u8_at _ stk [] (2 + Z.of_nat (length data)) ((fb_family fam :: data) ++ drop (2 + length data) junk) []).
  2: { unfold at_block, m'. rewrite lookup_insert_ne, lookup_insert_eq by done. unfold fb_addr. cbn. by rewrite app_nil_r. }
  cbn [res_bind]. do 2 f_equal; [|lia]. unfold m'. rewrite delete_insert_ne, delete_insert_id by done. done.
Qed.

(** [accept] with and without flags. *)
Lemma accept4_spec {K} (kern : K -> Z -> Z -> K * list Z * Z * Z) k k' s flags len fd old :
  at_block m ab pre old post -> length old = (2 + length data)%nat ->
  kern k s (linux2freebsd_socket_flags flags) = (k', fb_addr fam data, 0, fd) ->
  ff_accept4 kern stk junk k m s (Some (ab, Z.of_nat (length pre))) len flags =
    Ok (k', <[ab := pre ++ lx_addr fam data ++ post]> m, Z.of_nat (length data) + 2, fd, None).
Proof. intros Hb Hold E. unfold ff_accept4. rewrite E. cbn [Z.eqb negb]. by rewrite (copy_name_spec old). Qed.

Lemma accept_is_accept4 {K} (kern : K -> Z -> Z -> K * list Z * Z * Z) k s addr len :
  ff_accept kern stk junk k m s addr len = ff_accept4 kern stk junk k m s addr len 0.
Proof. done. Qed.

(** The kernel is asked to send to the address of the application. *)
Lemma sendto_spec {K} (sendit : K -> st -> Z -> msghdr -> Z -> K * st * msghdr * Z * Z) aiov k iv s buf len flags :
  at_block m ab pre (lx_addr fam data) post ->
  ff_sendto sendit stk junk aiov k (mkSt m iv) s buf len flags (Some (ab, Z.of_nat (length pre))) (Z.of_nat (length data) + 2) =
    let '(k, st, _, rc, v) := sendit k (mkSt (<[stk := kernel_addr junk fam data]> m) (<[aiov := [(buf, len)]]> iv)) s
      (mkMsg (Some (stk, 0)) (Z.of_nat (length data) + 2) aiov 1 None 0 0) flags in
    let st := mkSt (delete stk (bytes st)) (delete aiov (iovs st)) in
    if negb (rc =? 0) then fail (k, st) rc else ret (k, st) v.
Proof. intros Hb. unfold ff_sendto, with_stk, with_bytes. cbn [bytes iovs]. rewrite addr_to_stk by done. done. Qed.
End Names.

(** The address of a datagram, which the kernel wrote to the local structure. *)
Lemma recvfrom_spec {K} (kern_recvit : K -> st -> Z -> msghdr -> K * st * msghdr * Z * Z) stk junk aiov k k' s0 st' s buf len flags
    fl msg' v ab pre old post fam data rest :
  kern_recvit k (mkSt (<[stk := junk]> (bytes s0)) (<[aiov := [(buf, len)]]> (iovs s0))) s
    (mkMsg (Some (stk, 0)) fl aiov 1 None 0 flags) = (k', st', msg', 0, v) ->
  msg_namelen msg' <> 0 -> bytes st' !! stk = Some (fb_addr fam data ++ rest) -> at_block (bytes st') ab pre old post -> stk <> ab ->
  length old = (2 + length data)%nat -> family_ok fam -> (length data <= 126)%nat ->
  ff_recvfrom kern_recvit stk junk aiov k s0 s buf len flags (Some (ab, Z.of_nat (length pre))) (Some fl) =
    Ok (k', mkSt (<[ab := pre ++ lx_addr fam data ++ post]> (delete stk (bytes st'))) (delete aiov (iovs st')),
      Some (msg_namelen msg'), v, None).
Proof.
  intros E Hn Hs Hb Hne Hold Hfam Hdata. unfold ff_recvfrom, with_stk, with_bytes. cbn [bytes iovs from_option id]. rewrite E. cbn [Z.eqb negb].
  rewrite (proj2 (Z.eqb_neq _ _)) by done. cbn [negb].
  rewrite (freebsd2linux_sockaddr_spec (bytes st') ab pre old post stk fam data rest) by (done || lia).
  cbn [res_bind]. rewrite delete_insert_ne by done. done.
Qed.

(** Options that are not known do not reach the kernel. *)
Lemma setsockopt_unknown {K} (kern : K -> Z -> Z -> Z -> K * Z) k s level optname :
  linux2freebsd_opt (sockopt_level level) optname < 0 ->
  (sockopt_level level =? IPPROTO_IP) && (optname =? LINUX_IP_BIND_ADDRESS_NO_PORT) = false ->
  ff_setsockopt kern k s level optname = Ok (k, -1, Some EINVAL) /\
  forall kern' n, ff_getsockopt kern' k s level optname n = Ok (k, None, -1, Some EINVAL).
Proof.
  intros Ho Hb. unfold ff_setsockopt, ff_getsockopt. rewrite Hb, (proj2 (Z.ltb_lt _ _)) by done. done.
Qed.

(** *** Messages *)

Lemma st_eta s : mkSt (bytes s) (iovs s) = s.
Proof. by destruct s. Qed.

(** The buffers of the application, before and after a call of the kernel. *)
Lemma iov_load_all s b vs n : iovs s !! b = Some vs -> n = Z.of_nat (length vs) -> iov_load s b n = Ok vs.
Proof. intros Hb ->. unfold iov_load. rewrite Hb, (proj2 (Z.leb_le _ _)), Nat2Z.id by lia. by rewrite firstn_all. Qed.

Lemma iov_store_all s b vs vs' : iovs s !! b = Some vs' -> length vs' = length vs ->
  iov_store s b vs = Ok (mkSt (bytes s) (<[b := vs]> (iovs s))).
Proof. intros Hb Hl. unfold iov_store. rewrite Hb, (proj2 (Nat.leb_le _ _)) by lia. rewrite drop_ge, app_nil_r by lia. done. Qed.

(** What a call of the application has to look like: where the name and the
    control messages are, and how many buffers there are. *)
Definition request (st : st) (msg : msghdr) (name control : ptr) (vs : list (ptr * Z)) : Prop :=
  msg_name msg = Some name /\ msg_control msg = Some control /\ iovs st !! msg_iov msg = Some vs /\
  msg_iovlen msg = Z.of_nat (length vs) /\ Z.of_nat (length vs) <= UIO_MAXIOV /\ 0 <= msg_controllen msg < 2 ^ 32.

Lemma recv_request st tmp msg name control vs : request st msg name control vs ->
  linux2freebsd_msghdr st tmp msg (mkMsg None 0 0 0 None 0 0) false =
    Ok (st, vs, mkMsg (Some name) (msg_namelen msg) (msg_iov msg) (msg_iovlen msg) (Some control) (msg_controllen msg) (msg_flags msg), 0).
Proof.
  intros (Hn & Hc & Hi & Hl & Hmax & Hcl). unfold linux2freebsd_msghdr, UIO_MAXIOV, with_bytes in *. rewrite andb_false_r. cbn [res_bind bytes iovs].
  rewrite (proj2 (Z.ltb_ge _ _)) by lia. rewrite st_eta, (iov_load_all _ _ vs) by done. cbn [res_bind].
  rewrite Hc. cbn [res_bind]. rewrite st_eta, Hn, (wrapu_small 32), (wraps_small 32) by lia. done.
Qed.

Lemma send_request stk junk st tmp msg nb npre fam data npost cb cpre cs xs cpost vs b old :
  bytes st !! stk = None -> length junk = 128%nat -> family_ok fam -> (length data <= 126)%nat ->
  request st msg (nb, Z.of_nat (length npre)) (cb, Z.of_nat (length cpre)) vs ->
  msg_namelen msg = Z.of_nat (length data) + 2 -> msg_controllen msg = Z.of_nat (length xs) ->
  at_block (bytes st) nb npre (lx_addr fam data) npost -> at_block (bytes st) cb cpre xs cpost ->
  Forall send_wf cs -> slots lx_slot cs xs ->
  b <> stk -> bytes st !! b = None -> length old = length xs ->
  exists ys, slots fb_slot (send_conv <$> cs) ys /\ length ys = length xs /\
    linux2freebsd_msghdr (with_bytes (with_stk stk junk st) (<[b := old]> (bytes (with_stk stk junk st)))) tmp msg
      (mkMsg (Some (stk, 0)) 0 0 0 (Some (b, 0)) 0 0) true =
    Ok (mkSt (<[b := ys]> (<[stk := kernel_addr junk fam data]> (bytes st))) (iovs st), vs,
      mkMsg (Some (stk, 0)) (msg_namelen msg) (msg_iov msg) (msg_iovlen msg) (Some (b, 0)) (msg_controllen msg) (msg_flags msg), 0).
Proof.
  intros Hstk Hjunk Hfam Hdata (Hn & Hc & Hi & Hl & Hmax & Hcl) Hnl Hcl2 Hname Hctl Hwf Hxs Hb Hbf Hold.
  assert (stk <> nb) as Hn1 by (intros ->; unfold at_block in Hname; congruence).
  assert (stk <> cb) as Hn2 by (intros ->; unfold at_block in Hctl; congruence).
  assert (b <> nb) as Hn3 by (intros ->; unfold at_block in Hname; congruence).
  assert (b <> cb) as Hn4 by (intros ->; unfold at_block in Hctl; congruence).
  unfold linux2freebsd_msghdr, with_stk, with_bytes. cbn [bytes iovs msg_name msg_control msg_iov msg_iovlen]. rewrite Hn.
  rewrite !bool_decide_eq_true_2 by done. cbn [andb]. rewrite Hnl.
  rewrite insert_insert_ne by done.
  rewrite (addr_to_stk stk junk (<[b := old]> (bytes st)) ltac:(by rewrite lookup_insert_ne) Hjunk nb npre npost fam data Hfam Hdata)
    by (by apply at_block_other).
  cbn [res_bind bytes iovs]. rewrite (proj2 (Z.ltb_ge _ _)) by (unfold UIO_MAXIOV in *; lia).
  rewrite (iov_load_all _ _ vs) by done. cbn [res_bind]. rewrite Hc, (wrapu_small 32), Hcl2 by lia. cbn [bytes].
  destruct (linux2freebsd_cmsg_spec (<[stk := kernel_addr junk fam data]> (<[b := old]> (bytes st))) cb cpre cs xs cpost b old)
    as (ys & Hys & Hly & ->); try done.
  { by do 2 (apply at_block_other; [|done]). }
  { by rewrite lookup_insert_ne, lookup_insert_eq. }
  cbn [res_bind]. exists ys. split; [done|]. split; [done|]. rewrite (wraps_small 32) by (unfold UIO_MAXIOV in *; lia).
  rewrite (insert_insert_ne _ stk b) by done. rewrite insert_insert_eq. done.
Qed.

(** ** Properties *)

(** C40: [ff_recvmsg] with a name and a control buffer in different blocks and at
    most 1024 data buffers, when the kernel has received into these: the
    application gets it in the form of Linux and in the buffers it gave: the
    address has its family and no length byte, every control message is at the
    place it had with the header of Linux, converted in place (the type of
    service and the time to live, one byte each from the kernel, with the types
    and sizes of Linux, all others as they are), the array of buffers is as it
    was before the kernel used it up, and lengths, flags and result are those of
    the kernel. *)
Theorem ff_recvmsg_correct {K} (kern_recvit : K -> st -> Z -> msghdr -> K * st * msghdr * Z * Z) k k' st st' tmp s msg msg' flags v
    nb npre fam data npost cb cpre cs xs cpost vs vs' :
  request st msg (nb, Z.of_nat (length npre)) (cb, Z.of_nat (length cpre)) vs ->
  kern_recvit k st s (mkMsg (msg_name msg) (msg_namelen msg) (msg_iov msg) (msg_iovlen msg) (msg_control msg) (msg_controllen msg)
    flags) = (k', st', msg', 0, v) ->
  msg_name msg' = msg_name msg -> msg_control msg' = msg_control msg -> msg_iov msg' = msg_iov msg ->
  iovs st' !! msg_iov msg = Some vs' -> length vs' = length vs ->
  at_block (bytes st') nb npre (fb_addr fam data) npost -> family_ok fam ->
  at_block (bytes st') cb cpre xs cpost -> Forall recv_wf cs -> slots fb_slot cs xs -> nb <> cb ->
  msg_controllen msg' = Z.of_nat (length xs) -> Z.of_nat (length xs) <= msg_controllen msg ->
  exists xs', slots lx_slot (recv_conv <$> cs) xs' /\ length xs' = length xs /\
    ff_recvmsg kern_recvit k st tmp s msg flags =
      Ok (k', mkSt (<[cb := cpre ++ xs' ++ cpost]> (<[nb := npre ++ lx_addr fam data ++ npost]> (bytes st')))
        (<[msg_iov msg := vs]> (iovs st')), vs,
        mkMsg (msg_name msg) (msg_namelen msg') (msg_iov msg) (msg_iovlen msg') (msg_control msg) (msg_controllen msg') (msg_flags msg'),
        v, None).
Proof.
  intros Hreq Hkern En Ec Ei Hiov Hlv Hname Hfam Hctl Hwf Hxs Hne Hcl Hcl2. pose proof Hreq as (Hn & Hc & _ & _ & _ & _).
  unfold ff_recvmsg. rewrite (recv_request _ tmp _ _ _ _ Hreq). cbn [res_bind Z.ltb Z.compare]. cbn [msg_name msg_namelen msg_iov msg_iovlen msg_control msg_controllen].
  rewrite <-Hn, <-Hc, Hkern. cbn [Z.eqb negb]. unfold freebsd2linux_msghdr. rewrite En, Ec, Hn, Hc.
  rewrite bool_decide_eq_true_2 by done. cbn [andb negb]. rewrite (freebsd2linux_sockaddr_inplace _ nb npre fam data npost Hname Hfam).
  cbn [res_bind]. rewrite Ei, (iov_store_all _ _ vs vs') by done. cbn [res_bind bytes with_bytes iovs]. rewrite Hcl.
  destruct (freebsd2linux_cmsghdr_spec (<[nb := npre ++ lx_addr fam data ++ npost]> (bytes st')) cb cpre cs xs cpost (msg_controllen msg))
    as (xs' & Hx & Hlx & E); [done|done|by apply at_block_other|done|].
  exists xs'. split; [done|]. split; [done|]. rewrite E. cbn [res_bind]. done.
Qed.

(** [ff_sendmsg] calls the kernel with the message of the application in
    the form of FreeBSD: the address with its length and family in a structure
    of its own, every control message with the header of FreeBSD in a buffer of
    the same length (the type of service and the time to live as one byte), the
    buffers as they are.  Whatever the kernel answers, the memory that was
    allocated is given back, and after a success the array of buffers is as it
    was and the message has the name and the control messages it had. *)
Theorem ff_sendmsg_correct {K} (sendit : K -> st -> Z -> msghdr -> Z -> K * st * msghdr * Z * Z) malloc stk junk k st tmp s msg flags
    nb npre fam data npost cb cpre cs xs cpost vs b old :
  bytes st !! stk = None -> length junk = 128%nat -> family_ok fam -> (length data <= 126)%nat ->
  request st msg (nb, Z.of_nat (length npre)) (cb, Z.of_nat (length cpre)) vs ->
  msg_namelen msg = Z.of_nat (length data) + 2 -> msg_controllen msg = Z.of_nat (length xs) ->
  at_block (bytes st) nb npre (lx_addr fam data) npost -> at_block (bytes st) cb cpre xs cpost ->
  Forall send_wf cs -> slots lx_slot cs xs ->
  malloc (with_stk stk junk st) (msg_controllen msg) = Some (b, old) -> b <> stk -> bytes st !! b = None -> length old = length xs ->
  (forall st1 fmsg k2 st2 fmsg2 rc v, sendit k st1 s fmsg flags = (k2, st2, fmsg2, rc, v) -> iovs st1 !! msg_iov fmsg = Some vs ->
    msg_iov fmsg2 = msg_iov fmsg /\ exists vs', iovs st2 !! msg_iov fmsg = Some vs' /\ length vs' = length vs) ->
  exists ys, slots fb_slot (send_conv <$> cs) ys /\ length ys = length xs /\
    let '(k2, st2, fmsg2, rc, v) :=
      sendit k (mkSt (<[b := ys]> (<[stk := kernel_addr junk fam data]> (bytes st))) (iovs st)) s
        (mkMsg (Some (stk, 0)) (msg_namelen msg) (msg_iov msg) (msg_iovlen msg) (Some (b, 0)) (msg_controllen msg) (msg_flags msg)) flags in
    let bs := delete stk (delete b (bytes st2)) in
    ff_sendmsg sendit stk junk malloc k st tmp s msg flags =
      if rc =? 0 then
        Ok (k2, mkSt bs (<[msg_iov msg := vs]> (iovs st2)), vs,
          mkMsg (msg_name msg) (msg_namelen msg) (msg_iov msg) (msg_iovlen fmsg2) (msg_control msg) (msg_controllen msg) (msg_flags fmsg2),
          v, None)
      else Ok (k2, mkSt bs (iovs st2), vs, msg, -1, Some rc).
Proof.
  intros Hstk Hjunk Hfam Hdata Hreq Hnl Hcl Hname Hctl Hwf Hxs Hmal Hb Hbf Hold Hkern. pose proof Hreq as (Hn & Hc & Hi & _).
  destruct (send_request stk junk st tmp msg nb npre fam data npost cb cpre cs xs cpost vs b old) as (ys & Hys & Hly & E); try done.
  exists ys. split; [done|]. split; [done|]. destruct (sendit _ _ _ _ _) as [[[[k2 st2] fmsg2] rc] v] eqn:Ek. cbv zeta.
  unfold ff_sendmsg. rewrite Hc, Hmal. cbn [res_bind negb]. rewrite E. cbn [res_bind Z.ltb Z.compare]. rewrite Ek.
  destruct (Hkern _ _ _ _ _ _ _ Ek Hi) as (Ei & vs' & Hi2 & Hlv). cbn [msg_iov] in Ei, Hi2.
  destruct (rc =? 0); cbn [negb]; [|done]. unfold freebsd2linux_msghdr. rewrite andb_false_r. cbn [res_bind].
  unfold with_bytes at 1. rewrite st_eta, Ei, (iov_store_all _ _ vs vs') by done. cbn [res_bind bytes iovs]. rewrite Hc.
  destruct (msg_control fmsg2); cbn [res_bind]; done.
Qed.

(** An address is for the application what it was before: what it gives to
    [bind], and what it gives to [connect], is what [getsockname] and
    [getpeername] write to its buffer, with its length, when the kernel returns
    the address it was given (as many bytes of it as its first byte says). *)
Theorem names_round_trip {K} (kern_bindat kern_connectat : K -> Z -> list Z -> K * Z) (kern_getname : bool -> K -> Z -> K * list Z * Z)
    stk junk k m s ab pre fam data post nb npre old npost nlen :
  m !! stk = None -> length junk = 128%nat -> family_ok fam -> (length data <= 126)%nat ->
  at_block m ab pre (lx_addr fam data) post -> at_block m nb npre old npost -> length old = (2 + length data)%nat ->
  (forall sa, exists k', kern_bindat k s sa = (k', 0) /\ kern_getname false k' s = (k', take (Z.to_nat (hd 0 sa)) sa, 0)) ->
  (forall sa, exists k', kern_connectat k s sa = (k', 0) /\ kern_getname true k' s = (k', take (Z.to_nat (hd 0 sa)) sa, 0)) ->
  (exists k', ff_bind kern_bindat stk junk k m s (Some (ab, Z.of_nat (length pre))) (Z.of_nat (length data) + 2) = Ok (k', m, 0, None) /\
    ff_getsockname kern_getname stk junk k' m s (Some (nb, Z.of_nat (length npre))) nlen =
      Ok (k', <[nb := npre ++ lx_addr fam data ++ npost]> m, Z.of_nat (length data) + 2, 0, None)) /\
  (exists k', ff_connect kern_connectat stk junk k m s (Some (ab, Z.of_nat (length pre))) (Z.of_nat (length data) + 2) = Ok (k', m, 0, None) /\
    ff_getpeername kern_getname stk junk k' m s (Some (nb, Z.of_nat (length npre))) nlen =
      Ok (k', <[nb := npre ++ lx_addr fam data ++ npost]> m, Z.of_nat (length data) + 2, 0, None)).
Proof.
  intros Hstk Hjunk Hfam Hdata Ha Hn Hold Hbind Hconn.
  assert (take (Z.to_nat (hd 0 (kernel_addr junk fam data))) (kernel_addr junk fam data) = fb_addr fam data) as Etake.
  { unfold kernel_addr. cbn [fb_addr app hd]. replace (Z.to_nat _) with (length (fb_addr fam data)) by (cbn; lia). apply (take_app_length (fb_addr fam data)). }
  split.
  - destruct (Hbind (kernel_addr junk fam data)) as (k' & E1 & E2). exists k'. rewrite (bind_spec _ _ _ Hstk Hjunk ab pre post fam data Hfam Hdata), E1 by done. split; [done|].
    unfold ff_getsockname, ff_getname. rewrite E2, Etake. cbn [Z.eqb negb]. by rewrite (copy_name_spec _ _ _ Hstk Hjunk nb npre npost fam data Hfam Hdata old).
  - destruct (Hconn (kernel_addr junk fam data)) as (k' & E1 & E2). exists k'. rewrite (connect_spec _ _ _ Hstk Hjunk ab pre post fam data Hfam Hdata), E1 by done. split; [done|].
    unfold ff_getpeername, ff_getname. rewrite E2, Etake. cbn [Z.eqb negb]. by rewrite (copy_name_spec _ _ _ Hstk Hjunk nb npre npost fam data Hfam Hdata old).
Qed.

(** The status flags that the application sets with [F_SETFL] are those it
    reads with [F_GETFL], for every combination of [O_NONBLOCK], [O_APPEND],
    [O_ASYNC] and [O_DIRECT] of Linux, when the kernel keeps the flags that it is
    given and answers with them and the access mode [acc] of the descriptor. *)
Theorem status_flags_round_trip {K} (kern_fcntl : K -> Z -> Z -> Z -> K * Z * Z) k fd flags acc arg :
  Z.land flags status_flags = flags -> 0 <= acc < 4 ->
  (forall x, exists k', kern_fcntl k fd F_SETFL x = (k', 0, 0) /\ forall a, kern_fcntl k' fd F_GETFL a = (k', 0, Z.lor acc x)) ->
  exists k', ff_fcntl kern_fcntl k fd LINUX_F_SETFL flags = Ok (k', 0, None) /\
    ff_fcntl kern_fcntl k' fd LINUX_F_GETFL arg = Ok (k', Z.lor acc flags, None).
Proof.
  intros Hf Ha Hk. destruct (Hk (fb_status flags)) as (k' & E1 & E2). exists k'. unfold ff_fcntl.
  change (linux2freebsd_fcntl LINUX_F_SETFL flags) with (F_SETFL, fb_status flags).
  change (linux2freebsd_fcntl LINUX_F_GETFL arg) with (F_GETFL, arg). cbv iota beta. rewrite E1, E2. cbn [Z.eqb negb].
  by rewrite status_flags_back.
Qed.

(** ** Witnesses *)

(** The two layouts with zeros where the bytes do not matter. *)
Definition fb_bytes (c : cmsg) : list Z :=
  to_bytes 4 (cmsg_len c) ++ to_bytes 4 (c_level c) ++ to_bytes 4 (c_type c) ++ [0; 0; 0; 0] ++ c_data c ++
    replicate (Z.to_nat (ALIGN (cmsg_len c) - cmsg_len c)) 0.
Definition lx_bytes (c : cmsg) : list Z :=
  to_bytes 8 (cmsg_len c) ++ to_bytes 4 (c_level c) ++ to_bytes 4 (c_type c) ++ c_data c ++
    replicate (Z.to_nat (ALIGN (cmsg_len c) - cmsg_len c)) 0.

Lemma fb_bytes_slot c : cmsg_len c < 2 ^ 31 -> fb_slot c (fb_bytes c).
Proof.
  intros Hl. exists [0; 0; 0; 0]. eexists. split; [done|]. split; [done|]. unfold fb_bytes.
  rewrite !length_app, !length_to_bytes, length_replicate. pose proof (ALIGN_mono (cmsg_len c)). unfold cmsg_len in *. cbn [length]. lia.
Qed.

Lemma lx_bytes_slot c : cmsg_len c < 2 ^ 31 -> lx_slot c (lx_bytes c).
Proof.
  intros Hl. eexists. split; [done|]. unfold lx_bytes.
  rewrite !length_app, !length_to_bytes, length_replicate. pose proof (ALIGN_mono (cmsg_len c)). unfold cmsg_len in *. lia.
Qed.

Ltac conv_wf := unfold recv_wf, send_wf, cmsg_ok, byte, cmsg_len; cbn [c_level c_type c_data length];
  repeat first [split | intros | apply Forall_cons | apply Forall_nil | progress cbn in *]; (lia || naive_solver).

(** A datagram with its type of service, time to live and destination. *)
Definition rx_cs : list cmsg := [mkC IPPROTO_IP IP_RECVTOS [16]; mkC IPPROTO_IP IP_RECVTTL [64]; mkC IPPROTO_IP 7 [10; 0; 0; 1]].
Definition rx_xs : list Z := concat (fb_bytes <$> rx_cs).
Definition inet_data : list Z := [0; 80; 10; 0; 0; 2; 0; 0; 0; 0; 0; 0; 0; 0].
Definition rx_st : st := mkSt {[1 := replicate 16 0; 2 := replicate 100 0; 3 := replicate 10 0]} {[5 := [((3, 0), 10)]]}.
Definition rx_kernel (k : unit) (s : st) (fd : Z) (msg : msghdr) : unit * st * msghdr * Z * Z :=
  (k, mkSt (<[1 := fb_addr 2 inet_data]> (<[2 := rx_xs ++ replicate 28 0]> (bytes s))) (<[5 := [((3, 4), 6)]]> (iovs s)),
    mkMsg (msg_name msg) 16 (msg_iov msg) (msg_iovlen msg) (msg_control msg) 72 0, 0, 4).
Definition rx_msg : msghdr := mkMsg (Some (1, 0)) 16 5 1 (Some (2, 0)) 100 0.

Lemma rx_wf : Forall recv_wf rx_cs /\ slots fb_slot rx_cs rx_xs.
Proof.
  split.
  - unfold rx_cs, IPPROTO_IP, IP_RECVTOS, IP_RECVTTL. repeat constructor; conv_wf.
  - exists (fb_bytes <$> rx_cs). split; [done|]. repeat constructor; by apply fb_bytes_slot.
Qed.

Lemma ff_recvmsg_correct_witness : exists xs' st', slots lx_slot (recv_conv <$> rx_cs) xs' /\ length xs' = 72%nat /\
  ff_recvmsg rx_kernel tt rx_st [] 4 rx_msg 0 = Ok (tt, st', [((3, 0), 10)], mkMsg (Some (1, 0)) 16 5 1 (Some (2, 0)) 72 0, 4, None) /\
  bytes st' !! 1 = Some (lx_addr 2 inet_data) /\ bytes st' !! 2 = Some (xs' ++ replicate 28 0).
Proof.
  destruct (ff_recvmsg_correct rx_kernel tt tt rx_st (rx_kernel tt rx_st 4 rx_msg).1.1.1.2 [] 4 rx_msg
    (mkMsg (Some (1, 0)) 16 5 1 (Some (2, 0)) 72 0) 0 4 1 [] 2 inet_data [] 2 [] rx_cs rx_xs (replicate 28 0) [((3, 0), 10)] [((3, 4), 6)])
    as (xs' & H1 & H2 & H3); try reflexivity; try apply rx_wf.
  - unfold request, UIO_MAXIOV. cbn. repeat split; lia.
  - split; [lia|]. discriminate.
  - discriminate.
  - vm_compute. discriminate.
  - exists xs'. eexists. split; [exact H1|]. split; [exact H2|]. split; [exact H3|]. cbn [bytes]. split.
    + rewrite lookup_insert_ne, lookup_insert_eq by done. reflexivity.
    + apply lookup_insert_eq.
Defined.

(** A datagram over IPv6 that is sent with a type of service, a time to live and
    an interface. *)
Definition tx_cs : list cmsg :=
  [mkC IPPROTO_IP LINUX_IP_TOS [16; 0; 0; 0]; mkC IPPROTO_IP LINUX_IP_TTL [64; 0; 0; 0];
   mkC IPPROTO_IPV6 LINUX_IPV6_PKTINFO (replicate 16 1 ++ [2; 0; 0; 0])].
Definition tx_xs : list Z := concat (lx_bytes <$> tx_cs).
Definition inet6_data : list Z := [0; 80] ++ replicate 4 0 ++ replicate 16 1 ++ replicate 4 0.
Definition tx_st : st := mkSt {[1 := lx_addr LINUX_AF_INET6 inet6_data; 2 := tx_xs; 3 := replicate 10 0]} {[5 := [((3, 0), 10)]]}.
Definition tx_msg : msghdr := mkMsg (Some (1, 0)) 28 5 1 (Some (2, 0)) 88 0.
Definition tx_kernel (k : list (st * msghdr)) (s : st) (fd : Z) (msg : msghdr) (flags : Z) : list (st * msghdr) * st * msghdr * Z * Z :=
  ((s, msg) :: k, mkSt (bytes s) (<[msg_iov msg := [((3, 10), 0)]]> (iovs s)), msg, 0, 10).
Definition tx_malloc (s : st) (n : Z) : option (Z * list Z) := Some (101, replicate (Z.to_nat n) 165).

Lemma tx_wf : Forall send_wf tx_cs /\ slots lx_slot tx_cs tx_xs.
Proof.
  split.
  - unfold tx_cs, IPPROTO_IP, IPPROTO_IPV6, LINUX_IP_TOS, LINUX_IP_TTL, LINUX_IPV6_PKTINFO. repeat constructor; conv_wf.
  - exists (lx_bytes <$> tx_cs). split; [done|]. repeat constructor; by apply lx_bytes_slot.
Qed.

Lemma ff_sendmsg_correct_witness : exists ys st1 st2 fmsg, slots fb_slot (send_conv <$> tx_cs) ys /\
  ff_sendmsg tx_kernel 100 (replicate 128 0) tx_malloc [] tx_st [] 4 tx_msg 0 =
    Ok ([(st1, fmsg)], st2, [((3, 0), 10)], tx_msg, 10, None) /\
  msg_control fmsg = Some (101, 0) /\ bytes st1 !! 101 = Some ys /\
  bytes st1 !! 100 = Some (fb_addr LINUX_AF_INET6 inet6_data ++ replicate 100 0) /\ iovs st2 !! 5 = Some [((3, 0), 10)].
Proof.
  destruct (ff_sendmsg_correct tx_kernel tx_malloc 100 (replicate 128 0) [] tx_st [] 4 tx_msg 0 1 [] LINUX_AF_INET6 inet6_data []
    2 [] tx_cs tx_xs [] [((3, 0), 10)] 101 (replicate 88 165)) as (ys & H1 & H2 & H3).
  1, 2, 6, 7, 8, 9, 12, 14, 15: vm_compute; reflexivity.
  4, 5: apply tx_wf.
  - unfold family_ok, LINUX_AF_INET6. split; [lia|]. discriminate.
  - vm_compute. lia.
  - unfold request, UIO_MAXIOV. cbn. repeat split; lia.
  - discriminate.
  - intros st1 fmsg k2 st2 fmsg2 rc v [= _ <- <- _ _] _. cbn. split; [done|]. eexists. rewrite lookup_insert_eq. done.
  - exists ys. do 3 eexists. unfold tx_kernel at 1 in H3. cbv beta iota zeta in H3. cbn [Z.eqb] in H3. split; [exact H1|]. split; [exact H3|]. cbn [bytes iovs msg_control]. split; [done|].
    split; [apply lookup_insert_eq|]. split; [|apply lookup_insert_eq]. rewrite lookup_insert_ne, lookup_insert_eq by done. reflexivity.
Defined.

(** A kernel that remembers one address for each side. *)
Definition name_kernel (peer : bool) (k : list Z * list Z) (s : Z) (sa : list Z) : (list Z * list Z) * Z :=
  (if peer then (k.1, sa) else (sa, k.2), 0).
Definition name_of (peer : bool) (k : list Z * list Z) (s : Z) : (list Z * list Z) * list Z * Z :=
  let sa := if peer then k.2 else k.1 in (k, take (Z.to_nat (hd 0 sa)) sa, 0).
Definition name_mem : mem := {[1 := lx_addr 2 inet_data; 2 := replicate 16 7]}.

Lemma names_round_trip_witness :
  (exists k', ff_bind (name_kernel false) 100 (replicate 128 0) ([], []) name_mem 4 (Some (1, 0)) 16 = Ok (k', name_mem, 0, None) /\
    ff_getsockname name_of 100 (replicate 128 0) k' name_mem 4 (Some (2, 0)) 16 = Ok (k', <[2 := lx_addr 2 inet_data]> name_mem, 16, 0, None)) /\
  (exists k', ff_connect (name_kernel true) 100 (replicate 128 0) ([], []) name_mem 4 (Some (1, 0)) 16 = Ok (k', name_mem, 0, None) /\
    ff_getpeername name_of 100 (replicate 128 0) k' name_mem 4 (Some (2, 0)) 16 = Ok (k', <[2 := lx_addr 2 inet_data]> name_mem, 16, 0, None)).
Proof.
  apply (names_round_trip (name_kernel false) (name_kernel true) name_of 100 (replicate 128 0) ([], []) name_mem 4 1 [] 2 inet_data []
    2 [] (replicate 16 7) [] 16); try reflexivity.
  - unfold family_ok. split; [lia|]. discriminate.
  - vm_compute. lia.
  - intros sa. eexists. done.
  - intros sa. eexists. done.
Defined.

Definition flag_kernel (k : Z) (fd cmd arg : Z) : Z * Z * Z := if cmd =? F_SETFL then (arg, 0, 0) else (k, 0, Z.lor 2 k).

Lemma status_flags_round_trip_witness : exists k',
  ff_fcntl flag_kernel 0 4 LINUX_F_SETFL (Z.lor LINUX_O_NONBLOCK LINUX_O_ASYNC) = Ok (k', 0, None) /\
  ff_fcntl flag_kernel k' 4 LINUX_F_GETFL 0 = Ok (k', Z.lor 2 (Z.lor LINUX_O_NONBLOCK LINUX_O_ASYNC), None).
Proof.
  apply (status_flags_round_trip flag_kernel 0 4 (Z.lor LINUX_O_NONBLOCK LINUX_O_ASYNC) 2 0); [reflexivity|lia|].
  intros x. exists x. split; reflexivity.
Defined.

(** ** What the conversions do not cover *)

(** An address longer than [struct sockaddr_storage] is written beyond the local
    structure, and one shorter than its family makes the length wrap around. *)
Example bind_long_address : ff_bind (name_kernel false) 100 (replicate 128 0) ([], []) {[1 := replicate 200 2]} 4 (Some (1, 0)) 140 = Panic.
Proof. vm_compute. reflexivity. Qed.
Example bind_short_address : ff_bind (name_kernel false) 100 (replicate 128 0) ([], []) name_mem 4 (Some (1, 0)) 1 = Panic.
Proof. vm_compute. reflexivity. Qed.

(** The length that the application gives for its buffer is not looked at: 16
    bytes are written to a buffer of 8. *)
Example getsockname_small_buffer :
  ff_getsockname name_of 100 (replicate 128 0) (fb_addr 2 inet_data, []) {[1 := replicate 8 0]} 4 (Some (1, 0)) 8 = Panic.
Proof. vm_compute. reflexivity. Qed.

(** Options of IP that are not in the table keep their number: [IP_MTU_DISCOVER]
    of Linux, 10, and [IP_MULTICAST_TTL] of Linux, 33, are the same option. *)
Example ip_options_collide : linux2freebsd_opt IPPROTO_IP 10 = linux2freebsd_opt IPPROTO_IP 33.
Proof. reflexivity. Qed.

(** The type of [IPV6_PKTINFO] is converted when a message is sent, not when it
    is received. *)
Example pktinfo_not_converted d :
  send_conv (mkC IPPROTO_IPV6 LINUX_IPV6_PKTINFO d) = mkC IPPROTO_IPV6 IPV6_PKTINFO d /\
  recv_conv (mkC IPPROTO_IPV6 IPV6_PKTINFO d) = mkC IPPROTO_IPV6 IPV6_PKTINFO d.
Proof. done. Qed.
